(* ===== verification/_CoqProject ===== *)
-Q . S2P
Prelude.v
GoStrings.v
GoNet.v
GoSha.v
Cluset.v
Lru.v
Queue.v
Domain.v
BlockTree.v
Topology.v
Normalize.v
Merger.v
Network.v
NetworkTree.v
TreeWalk.v
Output.v
OutputProps.v
Partition.v
Slurm.v
Request.v
Infiniband.v
K8sLabels.v
K8sEngine.v
Slinky.v
NfdObjects.v
NfdEngine.v
NodeLabels.v
NodeObserver.v
Nautobot.v
NautobotDiscovery.v
NautobotTree.v
NautobotGraph.v
Lambda.v
LambdaAuth.v
LambdaToken.v
Accelerator.v
Models.v
GraphEngine.v
Providers.v
Netq.v
Paging.v
Aws.v
Gcp.v
Nebius.v
Nscale.v
LambdaApi.v
Oci.v
Firebird.v
CloudProps.v
Sim.v
AwsSim.v
GcpSim.v
NebiusSim.v
NscaleSim.v
LambdaSim.v
OciSim.v
FirebirdSim.v
SimProps.v
Decode.v
Config.v
Kwok.v
IbProviders.v
Dra.v
TestProvider.v
Crusoe.v
Dsx.v
Imds.v
Broker.v
Health.v
HttpReq.v
Server.v
