(* ===== verification/Prelude.v ===== *)
(** * Topograph: a verification development

    Topograph discovers the network topology of a cluster from a provider and
    writes it for a workload manager.  A client posts a request; the server
    queues it with a delay, so that repeated requests collapse into one; the
    provider reports the compute instances with the switches above them and
    their accelerator domains; the graph built from them is translated by an
    engine: Slurm topology files (tree, block, per-partition YAML), Kubernetes
    node labels, or a JSON document.

    ** Files

    - [Prelude] (this file): results, loops, iteration over Go maps, sorting,
      lists, machine integers, the hint databases and tactics.
    - [GoStrings]: the string functions of the Go standard library that the
      code uses ([strings], [strconv], [bufio.Scanner], [fmt] verbs).
    - [Cluset]: [internal/cluset/cluset.go], the node-list notation.
    - [Lru]: [pkg/server/lru.go]; the class [Store] is what the queue needs of
      it.  [Queue]: [pkg/server/trailing_delay_queue.go] over any [Store].
    - [Domain]: [pkg/topology/domain.go].  [BlockTree]:
      [pkg/translate/block_tree.go] and [block_complement.go].
    - [Topology]: [pkg/topology/graph.go], [topology.go], [instances.go].
      [Normalize]: what [Normalize] does.  [Merger]: [pkg/topology/merger.go].
    - [Network]: [pkg/translate/topology.go], the validated view of a graph.
      [NetworkTree]: what its walk accepts and records.  [TreeWalk]: recursive
      walks over the trees it accepts.
    - [Output]: [pkg/translate/tree.go], [block.go], [yaml.go].  [OutputProps],
      [Partition]: their theorems.
    - [Slurm]: [pkg/engines/slurm/slurm.go].
    - [Request]: [pkg/topology/request.go].
    - [K8sLabels]: [pkg/engines/k8s/labeler.go].  [K8sEngine]: [kubernetes.go]
      and [engine.go] of the same package, and the node helpers of
      [internal/k8s]; the class [Cluster] is what the engine needs of the
      Kubernetes API.
    - [Slinky]: [pkg/engines/slinky/engine.go], over the class
      [SlinkyCluster].  [NfdObjects], [NfdEngine]: [pkg/engines/nfd], over the
      class [NfdCluster]; [GoSha] is SHA-256, for the names of the objects.
    - [NodeLabels]: [pkg/providers/nodelabels], a provider that reads the
      topology from node labels.  [NodeObserver]: [pkg/node_observer], the
      state machine that turns informer events into requests, over the class
      [WorkQueue]; its generation counters are unbounded integers.
    - [Nautobot]: [pkg/providers/nautobot], a provider that reads the cabling
      of an inventory server; the server is a parameter that answers queries
      and threads a world.  [NautobotDiscovery] is about the discovery,
      [NautobotTree] about depths and the merging of switches,
      [NautobotGraph] about the inventory and the topology built.  Loops that
      follow pages or switches take fuel; the number of switches is enough.
    - [GraphEngine]: [pkg/engines/graph/engine.go].
    - [Infiniband]: [pkg/ib/ib.go]; [GoNet] is [net.ParseIP].
    - [Accelerator]: [pkg/accelerator].  [Models]: [pkg/models/model.go].
    - [Lambda]: [pkg/providers/lambdai/token.go] and the authentication part
      of [provider.go]: the choice of a credential, and the cached key as a
      machine of small steps.  [LambdaAuth], [LambdaToken]: their theorems.
    - [Paging]: the loops that the cloud providers share, and the class
      [Cloud], what a provider's loop does with a page.  [Aws], [Gcp],
      [Nebius], [Nscale], [LambdaApi]: those providers, each an instance of
      it.  [Oci], [Firebird]: providers that guard against repeated pages.
      [CloudProps]: theorems about all of them.
    - [Sim]: [pkg/providers/providers_sim.go] and the paging of the simulated
      clients; [AwsSim], [GcpSim], [NebiusSim], [NscaleSim], [LambdaSim],
      [OciSim], [FirebirdSim]: the simulated providers; [SimProps]: what they
      list.
    - [Netq]: [pkg/providers/netq]; layers of switches above the nodes of a
      request.  A layer takes switches out of a map, so their number is enough
      fuel.
    - [Decode], [Config]: [internal/config/decode.go] and
      [pkg/config/config.go], with the names of [pkg/registry].  [Kwok]:
      [internal/kwok/nodes.go], fake Kubernetes nodes of a model.
    - [IbProviders]: [pkg/providers/infiniband].  [Dra]: [pkg/providers/dra].
      [Crusoe], [Dsx]: [pkg/providers/crusoe] and [dsx], with their simulated
      providers.  [TestProvider]: [pkg/providers/test] and the topologies of
      [pkg/translate/output.go].
    - [Imds]: [internal/exec/exec.go] and the [imds.go] files of the cloud
      providers, which ask the nodes for their instance and region.
    - [Broker]: [cmd/node-data-broker/main.go] and the annotations of Lambda
      nodes, over the class [NodeApi], the versions of the Kubernetes API.
    - [Health]: [pkg/node_observer/health.go], the wait for the API; as a
      probe takes no time back, one per interval is enough fuel.  [HttpReq]:
      the URLs and requests of [internal/httpreq/httpreq.go].
    - [Providers]: [pkg/providers/providers.go].
    - [Server]: [pkg/server/engine.go] and [http_server.go],
      [internal/httpreq/httpreq.go], [internal/component/component.go], and the
      short cut of the test provider.

    ** How the code is modelled

    Definitions have the names of the Go functions and are executable.  Pure
    functions are functions; a function with an error result returns [result],
    whose error type has a constructor per error of the code in place of its
    message; a loop that need not end, or that ends for a reason outside its
    text, takes fuel, and [None] means that the fuel did not suffice.  Every
    fuel is computed from the input, and theorems state that it is enough
    ([initTree_accepts_trees], [NewNetworkTopology_returns],
    [tree_output_complete], [partition_unit_spec], [node_labels_spec],
    [http_retries_bounded], …), so termination is a consequence; where the code
    does not end, the theorem says so for every fuel
    ([Expand_overflow_diverges]).

    - Vertices of a graph are shared and mutated while it is built: a graph is
      a location in a heap, [gmap nat Vertex]; a child pointer may be nil.
    - A Go map is a [gmap].  Its iteration order is the parameter
      [RangeOrder] of each definition that ranges over one; theorems hold for
      all orders.  Nil maps are told apart from empty ones ([option]) where
      the code can see the difference.
    - The queue is a step relation: submitting, reading, shutting down, a timer
      firing, a handler returning and its result being recorded are separate
      steps, so every interleaving of the timer goroutines with the callers is
      a trace.  Completions are shared objects with identity.
    - Integers are [Z]; the places where 64-bit wrap-around matters keep it
      ([Cluset]); elsewhere sizes are bounded by the data in memory.
    - Strings are byte strings.
    - Code outside the repository is a parameter: the Go regular expressions of
      block names (class [Regexp]), YAML and JSON encoding, [scontrol] and the
      file system, the HTTP exchange, the Kubernetes API, label validation.

    ** What is proved

    - Notation: [Compact_Expand], [expandWithLimit_agrees],
      [expandWithLimit_bounded], [Expand_overflow_diverges].
    - Cache and queue: [lru_refines_recency_list] (refinement of a recency
      list), [queue_visible_result_is_latest], [queue_superseded_never_handled],
      [queue_one_pending_timer], [queue_submission_completes],
      [queue_history_bounded].
    - Graph: [ToGraph_places_nodes], [Normalize_renames_switches],
      [mergeLayer_spec], [domain_tree_spec], [infer_block_sizes_spec].
    - Blocks: [block_tree_conserves_hosts], [complement_blocks_spec],
      [block_sizes_spec], [block_names_spec], [block_indices_sound].
    - Network view: [initTree_accepts_trees], [initTree_records_graph],
      [NewNetworkTopology_returns].
    - Output: [tree_output_complete], [block_specs_match_file],
      [partition_unit_spec], [validate_block_sizes_spec],
      [translate_config_sizes].
    - Kubernetes: [node_labels_spec], [label_merge_spec],
      [k8s_labels_reconciled].
    - Slinky: [slinky_reconciled].  NFD: [nfd_objects_spec],
      [nfd_topology_published] for every interleaving of the goroutines that
      write.
    - Node labels as a source: [node_labels_place_nodes].  Node observer:
      [observer_no_lost_event], [observer_reconciles].
    - Nautobot: [nautobot_tree], [nautobot_places_hosts],
      [nautobot_discovery_complete]; [nameless_pages_diverge] shows that the
      page loop need not end.
    - Graph documents: [derive_instances_spec], [graph_document_spec].
    - Sources of topology: [resolve_names_spec] and [ib_tree_levels]
      (InfiniBand), [model_instances_spec] and [model_graph_paths] (model
      files), [nvidia_domains_spec], [kubernetes_domains_spec] and
      [accelerator_config_wf] (accelerator domains).
    - Lambda credentials: [lambda_authenticates], [shared_credential_spec];
      [token_lives], [rejected_key_gone], [single_flight_returns],
      [failed_exchange_shared] for every interleaving of the callers.
    - Cloud listings: [cloud_listing_complete], [cloud_places_nodes] against
      the interface, [cloud_paths]; [oci_listing_ends] and [firebird_listing]
      for every server whose page tokens are drawn from a finite set,
      [nscale_reads_all], [rejected_token_retried];
      [simulated_clouds_list_model] closes the loop: simulated clients over a
      model file answer so that the providers list the whole model.
    - NetQ: [netq_layers]; [netq_loses_leaf_switch] is an example of a leaf
      switch that the construction loses.
    - Metadata: [metadata_sweep], what the nodes print is read back as
      instances by region; [tolerant_keeps_output].
    - Configuration: [config_wellformed], [update_env_spec],
      [decoded_integers_fit].  Simulated nodes: [kwok_nodes], whose example
      [dot_by_dash] is a name that Kubernetes refuses.
    - Further providers: [crusoe_places_nodes], [dsx_reports], [dra_domains],
      [simulated_fabric], [test_provider_loads].
    - Data broker: [broker_loses_no_update], [stale_write_fails].  Wait for the
      API: [health_wait_ends].  URLs: [get_url_spec], whose query reads back.
    - Server: [process_retries_spec], [http_retries_bounded],
      [read_request_spec], [generate_then_poll], [request_log_safe],
      [group_by_region_partitions].

    Examples show the behaviours that look unintended:
    [Compact_loses_node], [Compact_mixed_widths], [ToGraph_loses_instance],
    [ToGraph_self_edge], [tree_spec_outside_partition],
    [source_label_overwritten], [Validate_default_collision].

    ** Not modelled

    The texts of error and log messages; metrics; writes to in-memory buffers,
    which cannot fail; the HTTP listener and middleware; YAML, JSON and
    mapstructure, which are parameters; the SDKs of the clouds and the client
    of Kubernetes, whose calls are parameters or interfaces; the creation of
    informers; the start-up of the commands, with their flags and signals.  In
    [toInstance] the labels are a fresh map, where the code may write into the
    provider's.

    Regular expressions of the code itself are written out as matchers.
    [strings.ToLower] is modelled on ASCII letters.  Failures of
    [json.Marshal] on values that always encode are left out. *)

From stdpp Require Export base tactics list list_numbers gmap strings sorting fin_maps.
From Stdlib Require Export ZArith Lia Ascii.

#[global] Set Warnings "-clear-no-such-hyp,-register-all".

(** String concatenation computes on a constructor. *)
#[global] Arguments String.append !s1 s2 : simpl nomatch.

Declare Scope topo_scope.
Delimit Scope topo_scope with topo.

(** ** Results: a Go call that returns a value or an error *)

Inductive result (E A : Type) : Type :=
| Ok (a : A)
| Err (e : E).
Arguments Ok {E A} a.
Arguments Err {E A} e.

#[global] Instance result_ret E : MRet (result E) := λ A a, Ok a.
#[global] Instance result_bind E : MBind (result E) := λ A B f r,
  match r with Ok a => f a | Err e => Err e end.
#[global] Instance result_fmap E : FMap (result E) := λ A B f r,
  match r with Ok a => Ok (f a) | Err e => Err e end.

Lemma bind_Ok {E A B} (r : result E A) (f : A → result E B) b :
  (r ≫= f) = Ok b → ∃ a, r = Ok a ∧ f a = Ok b.
Proof. destruct r; simpl; [eauto|done]. Qed.

Definition is_ok {E A} (r : result E A) : bool :=
  match r with Ok _ => true | Err _ => false end.

(** [if err := f(x); err != nil { return wrap(err) }]. *)
Definition map_err {E F A} (f : E → F) (r : result E A) : result F A :=
  match r with Ok a => Ok a | Err e => Err (f e) end.

(** A [for _, x := range l] loop whose body may return an error from the
    enclosing function. *)
Fixpoint foldM {E S A} (f : S → A → result E S) (s : S) (l : list A) : result E S :=
  match l with
  | [] => Ok s
  | x :: l => match f s x with Ok s' => foldM f s' l | Err e => Err e end
  end.

Lemma foldM_inv {E S A} (P : S → Prop) (f : S → A → result E S) l s s' :
  P s → (∀ t x t', x ∈ l → P t → f t x = Ok t' → P t') →
  foldM f s l = Ok s' → P s'.
Proof.
  revert s. induction l as [|x l IH]; simpl; intros s Hs Hstep Hrun.
  { by simplify_eq. }
  destruct (f s x) as [t|e] eqn:Hf; [|done].
  eapply IH; [| |done].
  - eapply Hstep; [|done|done]. set_solver.
  - intros ????. eapply Hstep. set_solver.
Qed.

Lemma foldM_app {E S A} (f : S → A → result E S) l1 l2 s :
  foldM f s (l1 ++ l2) = foldM f s l1 ≫= λ t, foldM f t l2.
Proof.
  revert s. induction l1 as [|x l1 IH]; intros s; simpl; [done|].
  destruct (f s x); simpl; [apply IH|done].
Qed.

(** Invariants that talk about the prefix of the list already processed. *)
Lemma foldM_prefix_inv {E S A} (P : list A → S → Prop) (f : S → A → result E S) l s s' :
  P [] s → (∀ l1 x l2 t t', l = l1 ++ x :: l2 → P l1 t → f t x = Ok t' → P (l1 ++ [x]) t') →
  foldM f s l = Ok s' → P l s'.
Proof.
  intros H0 Hstep.
  cut (∀ l2 l1 t, l = l1 ++ l2 → P l1 t → foldM f t l2 = Ok s' → P l s').
  { intros H. apply (H l []); done. }
  induction l2 as [|x l2 IH]; simpl; intros l1 t -> Ht Hrun.
  { rewrite app_nil_r in *. by simplify_eq. }
  destruct (f t x) as [t'|] eqn:Hf; [|done].
  apply IH with (l1 := l1 ++ [x]) (t := t'); [by rewrite <-app_assoc|by eapply Hstep|done].
Qed.

(** [foldl] invariants, for the loops without early returns. *)
Lemma foldl_inv {S A} (P : S → Prop) (f : S → A → S) l s :
  P s → (∀ t x, x ∈ l → P t → P (f t x)) → P (foldl f s l).
Proof.
  revert s. induction l as [|x l IH]; simpl; intros s Hs Hstep; [done|].
  apply IH; [apply Hstep; set_solver|]. intros. apply Hstep; set_solver.
Qed.

(** Invariants that talk about the prefix of the list already processed. *)
Lemma foldl_prefix_inv {S A} (P : list A → S → Prop) (f : S → A → S) l s :
  P [] s → (∀ l1 x l2 t, l = l1 ++ x :: l2 → P l1 t → P (l1 ++ [x]) (f t x)) →
  P l (foldl f s l).
Proof.
  intros H0 Hstep.
  cut (∀ l2 l1 t, l = l1 ++ l2 → P l1 t → P l (foldl f t l2)).
  { intros H. apply (H l []); done. }
  induction l2 as [|x l2 IH]; simpl; intros l1 t -> Ht.
  { by rewrite app_nil_r in *. }
  apply IH with (l1 := l1 ++ [x]); [by rewrite <-app_assoc|].
  by eapply Hstep.
Qed.

(** A loop whose body may run out of fuel. *)
Fixpoint foldO {S A} (f : S → A → option S) (s : S) (l : list A) : option S :=
  match l with
  | [] => Some s
  | x :: l => match f s x with Some s => foldO f s l | None => None end
  end.

(** It has enough when every step has, under an invariant that talks about the
    prefix of the list already processed. *)
Lemma foldO_prefix_inv {S A} (P : list A → S → Prop) (f : S → A → option S) l s :
  P [] s → (∀ l1 x l2 t, l = l1 ++ x :: l2 → P l1 t → ∃ t', f t x = Some t' ∧ P (l1 ++ [x]) t') →
  ∃ s', foldO f s l = Some s' ∧ P l s'.
Proof.
  intros H0 Hstep.
  cut (∀ l2 l1 t, l = l1 ++ l2 → P l1 t → ∃ s', foldO f t l2 = Some s' ∧ P l s').
  { intros H. by apply (H l []). }
  induction l2 as [|x l2 IH]; simpl; intros l1 t -> Ht.
  { rewrite app_nil_r in *. eauto. }
  destruct (Hstep _ _ _ _ eq_refl Ht) as (t' & -> & Ht').
  apply IH with (l1 := l1 ++ [x]); [by rewrite <-app_assoc|done].
Qed.

(** ** Iteration over Go maps

    A [for k, v := range m] loop visits every entry of [m] once, in an order
    the language leaves unspecified.  The order is a parameter of every
    definition that iterates over a map; the theorems use nothing of it but
    that it is a permutation of the entries. *)
Class RangeOrder := {
  range : ∀ {A}, gmap string A → list (string * A);
  range_perm : ∀ A (m : gmap string A), range m ≡ₚ map_to_list m
}.

#[export] Instance range_canonical : RangeOrder :=
  {| range A m := map_to_list m; range_perm A m := Permutation_refl _ |}.

Lemma elem_of_range `{RangeOrder} {A} (m : gmap string A) k v :
  (k, v) ∈ range m ↔ m !! k = Some v.
Proof. by rewrite range_perm, elem_of_map_to_list. Qed.

Lemma range_NoDup `{RangeOrder} {A} (m : gmap string A) : NoDup (range m).*1.
Proof. rewrite range_perm. apply NoDup_fst_map_to_list. Qed.

Lemma range_empty `{RangeOrder} {A} : range (∅ : gmap string A) = [].
Proof. apply Permutation_nil_r. by rewrite range_perm, map_to_list_empty. Qed.

Lemma length_range `{RangeOrder} {A} (m : gmap string A) : length (range m) = size m.
Proof. rewrite range_perm. apply length_map_to_list. Qed.

(** ** Sorting

    [sort.Strings] orders by bytes; the sorted permutation of a list of
    strings is unique, so the algorithm is irrelevant. *)
Definition sort_strings (l : list string) : list string := merge_sort String.le l.

Lemma sort_strings_perm l : sort_strings l ≡ₚ l.
Proof. apply merge_sort_Permutation. Qed.

Lemma sort_strings_sorted l : Sorted String.le (sort_strings l).
Proof. apply Sorted_merge_sort, _. Qed.

Lemma sort_strings_proper l1 l2 : l1 ≡ₚ l2 → sort_strings l1 = sort_strings l2.
Proof.
  intros Hp. apply (Sorted_unique String.le); [apply sort_strings_sorted..|].
  by rewrite !sort_strings_perm.
Qed.

#[export] Instance sort_strings_Proper : Proper ((≡ₚ) ==> (=)) sort_strings.
Proof. intros ???. by apply sort_strings_proper. Qed.

Lemma sort_strings_id l : Sorted String.le l → sort_strings l = l.
Proof.
  intros Hs. apply (Sorted_unique String.le); [apply sort_strings_sorted|done|].
  apply sort_strings_perm.
Qed.

Lemma elem_of_sort_strings x l : x ∈ sort_strings l ↔ x ∈ l.
Proof. by rewrite sort_strings_perm. Qed.

Lemma length_sort_strings l : length (sort_strings l) = length l.
Proof. by rewrite sort_strings_perm. Qed.

(** The idiom "collect the keys, then [sort.Strings]". *)
Definition sorted_keys {A} (m : gmap string A) : list string :=
  sort_strings (map_to_list m).*1.

Lemma elem_of_keys {A} (m : gmap string A) k : k ∈ (map_to_list m).*1 ↔ is_Some (m !! k).
Proof.
  rewrite list_elem_of_fmap. split.
  - intros ([k' v] & -> & ?%elem_of_map_to_list). by eexists.
  - intros [v ?]. exists (k, v). by rewrite elem_of_map_to_list.
Qed.

Lemma elem_of_sorted_keys {A} (m : gmap string A) k : k ∈ sorted_keys m ↔ is_Some (m !! k).
Proof. unfold sorted_keys. by rewrite elem_of_sort_strings, elem_of_keys. Qed.

(** Maps with the same keys. *)
Lemma sorted_keys_same {A B} (m1 : gmap string A) (m2 : gmap string B) :
  (∀ k, is_Some (m1 !! k) ↔ is_Some (m2 !! k)) → sorted_keys m1 = sorted_keys m2.
Proof.
  intros Hk. unfold sorted_keys. apply sort_strings_proper.
  apply NoDup_Permutation; [apply NoDup_fst_map_to_list..|].
  intros k. by rewrite !elem_of_keys.
Qed.

Lemma sorted_keys_NoDup {A} (m : gmap string A) : NoDup (sorted_keys m).
Proof. unfold sorted_keys. rewrite sort_strings_perm. apply NoDup_fst_map_to_list. Qed.

Lemma sorted_keys_sorted {A} (m : gmap string A) : Sorted String.le (sorted_keys m).
Proof. apply sort_strings_sorted. Qed.

Lemma sorted_keys_range `{RangeOrder} {A} (m : gmap string A) :
  sort_strings (range m).*1 = sorted_keys m.
Proof. unfold sorted_keys. by rewrite range_perm. Qed.

Lemma length_sorted_keys {A} (m : gmap string A) : length (sorted_keys m) = size m.
Proof. unfold sorted_keys. rewrite length_sort_strings, length_fmap. apply length_map_to_list. Qed.

(** ** Filters *)

Lemma filter_all {A} (P : A → Prop) `{∀ x, Decision (P x)} (l : list A) :
  Forall P l → filter P l = l.
Proof. induction 1; [done|]. rewrite filter_cons_True by done. by f_equal. Qed.

Lemma filter_none {A} (P : A → Prop) `{∀ x, Decision (P x)} (l : list A) :
  Forall (λ x, ¬ P x) l → filter P l = [].
Proof. induction 1; [done|]. by rewrite filter_cons_False. Qed.

Lemma NoDup_fst_filter {A B} (P : A * B → Prop) `{∀ x, Decision (P x)} (l : list (A * B)) :
  NoDup l.*1 → NoDup (filter P l).*1.
Proof.
  induction l as [|[a b] l IH]; csimpl; [done|]. intros [Ha Hl]%NoDup_cons.
  rewrite filter_cons. case_decide; csimpl; [|by apply IH]. apply NoDup_cons. split; [|by apply IH].
  intros (x & -> & [_ Hin]%list_elem_of_filter)%list_elem_of_fmap. apply Ha.
  apply list_elem_of_fmap. eauto.
Qed.

Lemma NoDup_fmap_eq {A B} (f : A → B) (l : list A) x y :
  NoDup (f <$> l) → x ∈ l → y ∈ l → f x = f y → x = y.
Proof.
  intros Hnd [i Hi]%list_elem_of_lookup [j Hj]%list_elem_of_lookup Heq.
  assert (i = j) as <-; [|congruence].
  eapply (NoDup_lookup (f <$> l)); [done|by rewrite list_lookup_fmap, Hi|].
  rewrite list_lookup_fmap, Hj. simpl. by rewrite Heq.
Qed.

Lemma elem_of_concat {A} (x : A) (ls : list (list A)) : x ∈ concat ls ↔ ∃ l, l ∈ ls ∧ x ∈ l.
Proof. induction ls as [|l ls IH]; simpl; [set_solver|]. rewrite elem_of_app, IH. set_solver. Qed.

(** ** Partitions

    Cutting a list by the values of a function and putting the pieces together
    again is a permutation. *)
Lemma partition_cons {A} (f : A → string) (gs : list string) (x : A) (l : list A) :
  NoDup gs → f x ∈ gs →
  concat ((λ g, filter (λ y, f y = g) (x :: l)) <$> gs) ≡ₚ
    x :: concat ((λ g, filter (λ y, f y = g) l) <$> gs).
Proof.
  intros Hnd Hx. destruct (list_elem_of_split _ _ Hx) as (g1 & g2 & ->).
  assert (∀ gs' : list string, f x ∉ gs' → (λ g, filter (λ y, f y = g) (x :: l)) <$> gs' =
    (λ g, filter (λ y, f y = g) l) <$> gs') as Hother.
  { intros gs' Hn. apply Forall_fmap_ext_1, Forall_forall. intros g Hg.
    rewrite filter_cons_False; [done|]. intros <-. done. }
  apply NoDup_app in Hnd as (_ & Hd & [Hn2 _]%NoDup_cons).
  rewrite !fmap_app, !concat_app. csimpl. rewrite filter_cons_True by done.
  rewrite (Hother g1) by (intros Hin; apply (Hd _ Hin); set_solver).
  rewrite (Hother g2) by done. simpl. symmetry. apply Permutation_middle.
Qed.

Lemma partition_perm {A} (f : A → string) (gs : list string) (l : list A) :
  NoDup gs → (∀ x, x ∈ l → f x ∈ gs) →
  concat ((λ g, filter (λ y, f y = g) l) <$> gs) ≡ₚ l.
Proof.
  intros Hnd. induction l as [|x l IH]; intros Hf.
  { clear. by induction gs. }
  rewrite partition_cons by (set_solver). rewrite IH by set_solver. done.
Qed.

(** ** Machine integers *)

Definition max_int : Z := 2 ^ 63 - 1.
Definition wrap64 (z : Z) : Z := (z + 2 ^ 63) mod 2 ^ 64 - 2 ^ 63.

Lemma wrap64_id z : (- 2 ^ 63 ≤ z ≤ max_int)%Z → wrap64 z = z.
Proof. unfold wrap64, max_int. intros. rewrite Z.mod_small; lia. Qed.

(** ** Hint databases of the development *)
Create HintDb topo.
Create Rewrite HintDb topo.
#[export] Hint Resolve sort_strings_sorted sorted_keys_NoDup sorted_keys_sorted : topo.
#[export] Hint Rewrite @elem_of_sort_strings @length_sort_strings @length_sorted_keys : topo.

(** An equation between closed terms, by evaluation in the kernel; no normal
    form enters the goal. *)
Ltac vm_eq := match goal with |- _ = ?r => vm_cast_no_check (eq_refl r) end.

(** Destruct the scrutinee of every match in a hypothesis, keeping equations. *)
Ltac case_hyp H :=
  repeat match type of H with
  | context [match ?x with _ => _ end] => destruct x eqn:?; simplify_eq/=
  end.
