(* ===== verification/GoStrings.v ===== *)
(** * Strings of the Go standard library

    Byte strings are Rocq strings.  This file holds what the source uses of
    [strings], [strconv] and [fmt]: splitting and joining, trimming, decimal
    formatting with a width, and [strconv.Atoi] with the value it returns
    beside an error, together with the lemmas that relate them. *)

From S2P Require Import Prelude.
Open Scope Z_scope.

(** ** Characters *)

Definition nl : ascii := "010"%char.
Definition chr_code (c : ascii) : Z := Z.of_nat (nat_of_ascii c).
Definition is_digit (c : ascii) : bool := (48 <=? chr_code c) && (chr_code c <=? 57).
Definition digit_val (c : ascii) : Z := chr_code c - 48.
Definition digit_chr (d : Z) : ascii := ascii_of_nat (Z.to_nat (48 + d)).

(** The bytes [unicode.IsSpace] accepts among ASCII: tab to carriage return and space. *)
Definition is_space (c : ascii) : bool :=
  ((9 <=? chr_code c) && (chr_code c <=? 13)) || (chr_code c =? 32).

Fixpoint str_forallb (f : ascii → bool) (s : string) : bool :=
  match s with "" => true | String c s => f c && str_forallb f s end.

Fixpoint contains_chr (c : ascii) (s : string) : bool :=
  match s with "" => false | String c' s => bool_decide (c = c') || contains_chr c s end.

(** ** [strings.Split] by a one-byte separator, [strings.Join] *)

Fixpoint split (sep : ascii) (s : string) : list string :=
  match s with
  | "" => [""]
  | String c s =>
      if bool_decide (c = sep) then "" :: split sep s
      else match split sep s with
           | [] => [String c ""]
           | p :: ps => String c p :: ps
           end
  end.

Fixpoint join (sep : string) (l : list string) : string :=
  match l with
  | [] => ""
  | [x] => x
  | x :: l => x +:+ sep +:+ join sep l
  end.

(** [strings.TrimSpace] on ASCII white space. *)
Fixpoint trim_left (s : string) : string :=
  match s with
  | "" => ""
  | String c r => if is_space c then trim_left r else s
  end.
Fixpoint trim_right (s : string) : string :=
  match s with
  | "" => ""
  | String c r =>
      match trim_right r with
      | "" => if is_space c then "" else String c ""
      | r' => String c r'
      end
  end.
Definition trim_space (s : string) : string := trim_right (trim_left s).

Fixpoint cut_prefix (p s : string) : option string :=
  match p, s with
  | "", _ => Some s
  | String a p, String b s => if bool_decide (a = b) then cut_prefix p s else None
  | _, "" => None
  end.
Definition has_prefix (p s : string) : bool := bool_decide (is_Some (cut_prefix p s)).

(** [strings.ToLower] on ASCII letters. *)
Definition lower_chr (c : ascii) : ascii :=
  if ((65 <=? chr_code c) && (chr_code c <=? 90))then ascii_of_nat (nat_of_ascii c + 32) else c.
Fixpoint to_lower (s : string) : string :=
  match s with "" => "" | String c s => String (lower_chr c) (to_lower s) end.

(** ** Lines of text *)

Definition newline : string := String nl "".

Definition drop_cr (s : string) : string :=
  match String.length s with
  | O => s
  | S n => if bool_decide (String.get n s = Some "013"%char) then String.substring 0 n s else s
  end.

(** [bufio.Scanner] with its default split function: the lines without their
    ends; [None]: a line of 64 KiB or more stops the scan with an error. *)
Definition maxTokenSize : Z := 65536.
Definition scan_lines (s : string) : option (list string) :=
  let ls := split nl s in
  let ls := if decide (last ls = Some "") then removelast ls else ls in
  if existsb (λ l, maxTokenSize <=? Z.of_nat (String.length l)) ls then None else Some (drop_cr <$> ls).

(** ** Decimal formatting *)

Fixpoint itoa_go (fuel : nat) (z : Z) (acc : string) : string :=
  match fuel with
  | O => acc
  | S fuel =>
      let acc := String (digit_chr (z mod 10)) acc in
      if z <? 10 then acc else itoa_go fuel (z / 10) acc
  end.

(** [strconv.Itoa]; a 64-bit integer has at most nineteen digits. *)
Definition itoa_pos (z : Z) : string := itoa_go (S (S (Z.to_nat (Z.log2 z)))) z "".
Definition itoa (z : Z) : string :=
  if z <? 0 then String "-" (itoa_pos (- z)) else itoa_pos z.

Fixpoint zeros (n : nat) : string :=
  match n with O => "" | S n => String "0" (zeros n) end.

(** [fmt.Sprintf("%0*d", width, z)] for [z >= 0]. *)
Definition pad (width : nat) (z : Z) : string :=
  zeros (width - String.length (itoa z)) +:+ itoa z.

(** ** [strconv.Atoi], the value returned whether or not there is an error

    [ParseUint] stops with [ErrRange] at the digit where the value leaves 64
    bits, before it looks at the rest of the string; a bad digit seen earlier
    is [ErrSyntax], whose value is zero. *)
Inductive parsed := PSyntax | PRange | PVal (z : Z).

Fixpoint parse_uint_go (acc : Z) (s : string) : parsed :=
  match s with
  | "" => PVal acc
  | String c s =>
      if is_digit c then
        let acc := acc * 10 + digit_val c in
        if 2 ^ 64 - 1 <? acc then PRange else parse_uint_go acc s
      else PSyntax
  end.
Definition parse_uint (s : string) : parsed :=
  if bool_decide (s = "") then PSyntax else parse_uint_go 0 s.

Definition parse_signed (neg : bool) (s : string) : result Z Z :=
  match parse_uint s with
  | PSyntax => Err 0
  | PRange => Err (if neg then - 2 ^ 63 else max_int)
  | PVal z =>
      if neg then if 2 ^ 63 <? z then Err (- 2 ^ 63) else Ok (- z)
      else if max_int <? z then Err max_int else Ok z
  end.

(** [Ok z]: parsed; [Err z]: an error, with [z] the value returned beside it. *)
Definition Atoi (s : string) : result Z Z :=
  match s with
  | String "-" s => parse_signed true s
  | String "+" s => parse_signed false s
  | _ => parse_signed false s
  end.

(** ** Lemmas *)

Lemma str_app_nil_r (s : string) : s +:+ "" = s.
Proof. induction s; simpl; congruence. Qed.
Lemma str_app_assoc (a b c : string) : (a +:+ b) +:+ c = a +:+ b +:+ c.
Proof. induction a; simpl; congruence. Qed.
Lemma str_length_app (a b : string) :
  String.length (a +:+ b) = (String.length a + String.length b)%nat.
Proof. induction a; simpl; congruence. Qed.

Lemma str_forallb_app f a b : str_forallb f (a +:+ b) = str_forallb f a && str_forallb f b.
Proof. induction a; simpl; [done|]. by rewrite IHa, andb_assoc. Qed.

Lemma contains_chr_app c a b :
  contains_chr c (a +:+ b) = contains_chr c a || contains_chr c b.
Proof. induction a; simpl; [done|]. by rewrite IHa, orb_assoc. Qed.

Lemma str_forallb_not_contains f c s :
  str_forallb f s = true → f c = false → contains_chr c s = false.
Proof.
  intros Hs Hc. induction s as [|c' s IH]; simpl in *; [done|].
  apply andb_true_iff in Hs as [? ?]. rewrite IH by done.
  rewrite bool_decide_eq_false_2; [done|]. intros ->. congruence.
Qed.

(** *** Splitting *)

Lemma split_ne_nil sep s : split sep s ≠ [].
Proof. destruct s; simpl; [done|]. case_bool_decide; [done|]. by destruct (split sep s). Qed.

Lemma split_no_sep sep s : contains_chr sep s = false → split sep s = [s].
Proof.
  induction s as [|c s IH]; simpl; [done|]. intros [Hc Hs]%orb_false_iff.
  apply bool_decide_eq_false in Hc. rewrite bool_decide_eq_false_2 by congruence.
  by rewrite IH.
Qed.

Lemma split_app sep a b :
  contains_chr sep a = false → split sep (a +:+ String sep b) = a :: split sep b.
Proof.
  induction a as [|c a IH]; simpl.
  { intros _. by rewrite bool_decide_eq_true_2. }
  intros [Hc Ha]%orb_false_iff. apply bool_decide_eq_false in Hc.
  rewrite bool_decide_eq_false_2 by congruence. by rewrite IH.
Qed.

Lemma split_join sep l :
  l ≠ [] → Forall (λ x, contains_chr sep x = false) l →
  split sep (join (String sep "") l) = l.
Proof.
  induction l as [|x l IH]; [done|]. intros _ Hall.
  apply Forall_cons in Hall as [Hx Hl]. simpl. destruct l as [|y l].
  { by apply split_no_sep. }
  change (String sep "" +:+ join (String sep "") (y :: l))
    with (String sep (join (String sep "") (y :: l))).
  rewrite split_app by done. f_equal. by apply IH.
Qed.

(** *** Digits *)

Lemma digit_chr_facts d : 0 ≤ d < 10 →
  is_digit (digit_chr d) = true ∧ digit_val (digit_chr d) = d.
Proof.
  intros Hd.
  assert (d = 0 ∨ d = 1 ∨ d = 2 ∨ d = 3 ∨ d = 4 ∨ d = 5 ∨ d = 6 ∨ d = 7 ∨ d = 8 ∨ d = 9)
    as Hc by lia.
  by destruct_or! Hc; subst.
Qed.

Lemma is_digit_val c : is_digit c = true → 0 ≤ digit_val c < 10.
Proof. unfold is_digit, digit_val. lia. Qed.

(** The value of a digit string. *)
Fixpoint dec_val_go (acc : Z) (s : string) : Z :=
  match s with "" => acc | String c s => dec_val_go (acc * 10 + digit_val c) s end.
Definition dec_val (s : string) : Z := dec_val_go 0 s.

Lemma dec_val_go_app acc a b : dec_val_go acc (a +:+ b) = dec_val_go (dec_val_go acc a) b.
Proof. revert acc. induction a; intros acc; simpl; [done|]. apply IHa. Qed.

Lemma dec_val_go_ge acc s : 0 ≤ acc → str_forallb is_digit s = true → acc ≤ dec_val_go acc s.
Proof.
  revert acc. induction s as [|c s IH]; simpl; intros acc Hacc Hs; [lia|].
  apply andb_true_iff in Hs as [Hc Hs]. apply is_digit_val in Hc.
  specialize (IH (acc * 10 + digit_val c) ltac:(lia) Hs). lia.
Qed.

Lemma dec_val_zeros acc n : dec_val_go acc (zeros n) = acc * 10 ^ Z.of_nat n.
Proof.
  revert acc. induction n as [|n IH]; intros acc; simpl; [lia|].
  rewrite IH. change (digit_val "0") with 0. rewrite Nat2Z.inj_succ, Z.pow_succ_r by lia. lia.
Qed.

Lemma zeros_digits n : str_forallb is_digit (zeros n) = true.
Proof. by induction n. Qed.
Lemma zeros_length n : String.length (zeros n) = n.
Proof. induction n; simpl; congruence. Qed.

Lemma parse_uint_digits acc s :
  0 ≤ acc → str_forallb is_digit s = true → dec_val_go acc s ≤ 2 ^ 64 - 1 →
  parse_uint_go acc s = PVal (dec_val_go acc s).
Proof.
  revert acc. induction s as [|c s IH]; simpl; intros acc Hacc Hs Hb; [done|].
  apply andb_true_iff in Hs as [Hc Hs]. rewrite Hc.
  pose proof (is_digit_val _ Hc).
  pose proof (dec_val_go_ge (acc * 10 + digit_val c) s ltac:(lia) Hs).
  destruct (Z.ltb_spec (2 ^ 64 - 1) (acc * 10 + digit_val c)); [lia|].
  apply IH; [lia|done|done].
Qed.

Lemma Atoi_digits s :
  s ≠ "" → str_forallb is_digit s = true → dec_val s ≤ max_int → Atoi s = Ok (dec_val s).
Proof.
  intros Hne Hs Hb.
  assert (Atoi s = parse_signed false s) as ->.
  { destruct s as [|c s]; [done|]. simpl in Hs. apply andb_true_iff in Hs as [Hc _].
    unfold Atoi. destruct c as [[] [] [] [] [] [] [] []]; try done. }
  unfold parse_signed, parse_uint. rewrite bool_decide_eq_false_2 by done.
  rewrite parse_uint_digits; [|lia|done|unfold dec_val, max_int in *; lia].
  fold (dec_val s). destruct (Z.ltb_spec max_int (dec_val s)); [lia|done].
Qed.

(** *** Decimal formatting *)

Lemma itoa_go_spec fuel z acc :
  0 ≤ z → z < 2 ^ Z.of_nat fuel →
  ∃ s, itoa_go (S fuel) z acc = s +:+ acc ∧ s ≠ "" ∧ str_forallb is_digit s = true ∧
       (∀ a, dec_val_go a s = a * 10 ^ Z.of_nat (String.length s) + z) ∧
       (z < 10 ∧ String.length s = 1%nat ∨
        10 ≤ z ∧ 10 ^ (Z.of_nat (String.length s) - 1) ≤ z < 10 ^ Z.of_nat (String.length s)).
Proof.
  revert z acc. induction fuel as [|fuel IH]; intros z acc Hz Hlt.
  { simpl in Hlt. assert (z = 0) as -> by lia.
    exists "0". split_and!; try done.
    left. done. }
  change (itoa_go (S (S fuel)) z acc) with
    (let acc := String (digit_chr (z mod 10)) acc in
     if z <? 10 then acc else itoa_go (S fuel) (z / 10) acc).
  pose proof (digit_chr_facts (z mod 10) (Z.mod_pos_bound z 10 ltac:(lia))) as [Hd Hv].
  cbv zeta. destruct (Z.ltb_spec z 10) as [Hs|Hs].
  - exists (String (digit_chr (z mod 10)) ""). split_and!; try done.
    + simpl. by rewrite Hd.
    + intros a. simpl. rewrite Hv, Z.mod_small by lia. lia.
    + left. done.
  - rewrite Nat2Z.inj_succ, Z.pow_succ_r in Hlt by lia.
    destruct (IH (z / 10) (String (digit_chr (z mod 10)) acc)) as (s & -> & Hne & Hds & Hval & Hlen).
    { apply Z.div_pos; lia. }
    { apply Z.div_lt_upper_bound; lia. }
    exists (s +:+ String (digit_chr (z mod 10)) ""). split_and!.
    + by rewrite str_app_assoc.
    + by destruct s.
    + rewrite str_forallb_app, Hds. simpl. by rewrite Hd.
    + intros a. rewrite dec_val_go_app, Hval, str_length_app. simpl. rewrite Hv.
      rewrite Nat2Z.inj_add, Z.pow_add_r by lia. change (10 ^ Z.of_nat 1) with 10.
      pose proof (Z.div_mod z 10 ltac:(lia)). lia.
    + right. split; [done|]. rewrite str_length_app. simpl.
      rewrite Nat2Z.inj_add. replace (Z.of_nat (String.length s) + Z.of_nat 1 - 1)
        with (Z.of_nat (String.length s)) by lia.
      rewrite Z.pow_add_r by lia. change (10 ^ Z.of_nat 1) with 10.
      pose proof (Z.div_mod z 10 ltac:(lia)). pose proof (Z.mod_pos_bound z 10 ltac:(lia)).
      destruct Hlen as [[Hz10 ->]|[Hz10 [Hlo Hhi]]].
      * change (10 ^ Z.of_nat 1) with 10. lia.
      * replace (10 ^ Z.of_nat (String.length s)) with (10 * 10 ^ (Z.of_nat (String.length s) - 1)) in *.
        { lia. }
        rewrite <-Z.pow_succ_r.
        { f_equal. lia. }
        destruct s; simpl; [done|lia].
Qed.

Lemma itoa_spec z : 0 ≤ z →
  itoa z ≠ "" ∧ str_forallb is_digit (itoa z) = true ∧ dec_val (itoa z) = z ∧
  (z < 10 ∧ String.length (itoa z) = 1%nat ∨
   10 ≤ z ∧ 10 ^ (Z.of_nat (String.length (itoa z)) - 1) ≤ z < 10 ^ Z.of_nat (String.length (itoa z))).
Proof.
  intros Hz. unfold itoa. destruct (Z.ltb_spec z 0); [lia|]. unfold itoa_pos.
  destruct (decide (z = 0)) as [->|Hnz].
  { split_and!; try done. left. done. }
  pose proof (Z.log2_spec z ltac:(lia)) as [_ Hl]. pose proof (Z.log2_nonneg z).
  destruct (itoa_go_spec (S (Z.to_nat (Z.log2 z))) z "") as (s & Heq & Hne & Hd & Hval & Hlen).
  { done. }
  { rewrite Nat2Z.inj_succ, Z2Nat.id by lia. done. }
  rewrite str_app_nil_r in Heq. rewrite Heq. split_and!; [done|done| |done].
  unfold dec_val. rewrite Hval. lia.
Qed.

Lemma itoa_length_mono a b :
  0 ≤ a ≤ b → (String.length (itoa a) ≤ String.length (itoa b))%nat.
Proof.
  intros Hab.
  destruct (itoa_spec a ltac:(lia)) as (_ & _ & _ & Ha).
  destruct (itoa_spec b ltac:(lia)) as (Hb & _ & _ & Hb').
  destruct Ha as [[_ ->]|[Ha10 [Halo _]]].
  { destruct (itoa b); [done|simpl; lia]. }
  destruct Hb' as [[? _]|[_ [_ Hbhi]]]; [lia|].
  apply Nat2Z.inj_le.
  destruct (Z.le_gt_cases (Z.of_nat (String.length (itoa a))) (Z.of_nat (String.length (itoa b))));
    [done|exfalso].
  assert (10 ^ Z.of_nat (String.length (itoa b)) ≤ 10 ^ (Z.of_nat (String.length (itoa a)) - 1)).
  { apply Z.pow_le_mono_r; lia. }
  lia.
Qed.

Lemma pad_digits w z : 0 ≤ z → str_forallb is_digit (pad w z) = true.
Proof.
  intros Hz. unfold pad. rewrite str_forallb_app, zeros_digits.
  by destruct (itoa_spec z Hz) as (_ & -> & _).
Qed.

Lemma pad_nonempty w z : 0 ≤ z → pad w z ≠ "".
Proof.
  intros Hz. unfold pad. destruct (itoa_spec z Hz) as (Hne & _).
  by destruct (zeros (w - String.length (itoa z))), (itoa z).
Qed.

Lemma pad_val w z : 0 ≤ z → dec_val (pad w z) = z.
Proof.
  intros Hz. unfold pad, dec_val. rewrite dec_val_go_app, dec_val_zeros.
  rewrite Z.mul_0_l. by destruct (itoa_spec z Hz) as (_ & _ & ? & _).
Qed.

Lemma pad_length w z :
  String.length (pad w z) = Nat.max w (String.length (itoa z)).
Proof. unfold pad. rewrite str_length_app, zeros_length. lia. Qed.

Lemma Atoi_pad w z : 0 ≤ z ≤ max_int → Atoi (pad w z) = Ok z.
Proof.
  intros Hz. rewrite Atoi_digits.
  - by rewrite pad_val by lia.
  - apply pad_nonempty. lia.
  - apply pad_digits. lia.
  - rewrite pad_val by lia. lia.
Qed.

(** Padding to the width of an earlier number of a range is padding to the
    width the range was written with. *)
Lemma pad_range w a b : 0 ≤ a ≤ b → pad (String.length (pad w a)) b = pad w b.
Proof.
  intros Hab. rewrite pad_length. unfold pad.
  pose proof (itoa_length_mono a b Hab). do 2 f_equal. lia.
Qed.

Lemma pad_inj w a b : 0 ≤ a → 0 ≤ b → pad w a = pad w b → a = b.
Proof. intros Ha Hb H. by rewrite <-(pad_val w a), <-(pad_val w b), H. Qed.

Lemma itoa_inj a b : 0 ≤ a → 0 ≤ b → itoa a = itoa b → a = b.
Proof.
  intros Ha Hb Heq. destruct (itoa_spec a Ha) as (_ & _ & Hva & _).
  destruct (itoa_spec b Hb) as (_ & _ & Hvb & _). congruence.
Qed.
