(* ===== verification/GoNet.v ===== *)
(** * IP addresses of the Go standard library

    [net.ParseIP] accepts an IPv4 address in dotted decimal form or an IPv6
    address without a zone; here only whether it returns nil. *)

From S2P Require Import Prelude GoStrings.
Open Scope Z_scope.

(** [parseIPv4Fields]: four decimal fields up to 255 without leading zeros.
    [first] is true before the first character, [dot] after a dot. *)
Fixpoint ipv4_fields (first dot : bool) (pos val digits : Z) (s : string) : bool :=
  match s with
  | "" => 3 <=? pos
  | String c rest =>
      if is_digit c then
        let val' := val * 10 + digit_val c in
        if (digits =? 1) && (val =? 0) then false
        else if 255 <? val' then false
        else ipv4_fields false false pos val' (digits + 1) rest
      else if bool_decide (c = "."%char) then
        if first || bool_decide (rest = "") || dot then false
        else if pos =? 3 then false
        else ipv4_fields false true (pos + 1) 0 0 rest
      else false
  end.
Definition parse_ipv4 (s : string) : bool := ipv4_fields true false 0 0 0 s.

Definition is_hex (c : ascii) : bool :=
  is_digit c || ((97 <=? chr_code c) && (chr_code c <=? 102)) || ((65 <=? chr_code c) && (chr_code c <=? 70)).

(** The hexadecimal digits at the start of a string, and the rest. *)
Fixpoint span_chr (f : ascii → bool) (s : string) : string * string :=
  match s with
  | "" => ("", "")
  | String c rest => if f c then let '(a, b) := span_chr f rest in (String c a, b) else ("", s)
  end.

(** [parseIPv6]: [i] bytes are filled, [ellipsis] when [::] was seen.  A group
    has at most four digits; eight groups suffice as fuel. *)
Fixpoint ipv6_groups (fuel : nat) (i : Z) (ellipsis : bool) (s : string) : bool :=
  let finish (i : Z) (ellipsis : bool) (s : string) :=
    bool_decide (s = "") && (if i <? 16 then ellipsis else negb ellipsis) in
  match fuel with
  | O => finish i ellipsis s
  | S fuel =>
      let '(group, rest) := span_chr is_hex s in
      if (4 <? Z.of_nat (String.length group)) || bool_decide (group = "") then false
      else match rest with
           | "" => finish (i + 2) ellipsis ""
           | String c rest' =>
               if bool_decide (c = "."%char) then
                 if (negb ellipsis && negb (i =? 12)) || (16 <? i + 4) then false
                 else parse_ipv4 s && finish (i + 4) ellipsis ""
               else if negb (bool_decide (c = ":"%char)) || bool_decide (rest' = "") then false
               else match cut_prefix ":" rest' with
                    | Some rest'' =>
                        if ellipsis then false
                        else if decide (rest'' = "") then finish (i + 2) true ""
                        else ipv6_groups fuel (i + 2) true rest''
                    | None => ipv6_groups fuel (i + 2) ellipsis rest'
                    end
           end
  end.
Definition parse_ipv6 (s : string) : bool :=
  match cut_prefix "::" s with
  | Some rest => bool_decide (rest = "") || ipv6_groups 8 0 true rest
  | None => ipv6_groups 8 0 false s
  end.

(** The first of the characters [.], [:] and [%] decides; an address with a
    zone is not an IP. *)
Fixpoint address_kind (s : string) : option ascii :=
  match s with
  | "" => None
  | String c rest =>
      if bool_decide (c = "."%char) || bool_decide (c = ":"%char) || bool_decide (c = "%"%char)
      then Some c else address_kind rest
  end.

Definition ParseIP (s : string) : bool :=
  match address_kind s with
  | Some c => if decide (c = "."%char) then parse_ipv4 s
              else if decide (c = ":"%char) then negb (contains_chr "%" s) && parse_ipv6 s
              else false
  | None => false
  end.

Example ParseIP_ex :
  ParseIP <$> ["10.0.0.1"; "10.0.0"; "10.0.0.256"; "10.00.0.1"; "::1"; "::"; "1:2:3:4:5:6:7:8"; "1:2:3:4:5:6:7::";
               "1::2::3"; "::ffff:10.0.0.1"; "1:2:3:4:5:6:7:8:9"; "fe80::1%eth0"; "node-1"; "node.a"; "1:2:3:4:5:6:1.2.3.4"; "12345::"] =
  [true; false; false; false; true; true; true; true; false; true; false; false; false; false; true; false].
Proof. by vm_compute. Qed.
