(* ===== verification/GoSha.v ===== *)
(** * SHA-256 ([crypto/sha256]) and [encoding/hex]

    The hash of the Go standard library on the bytes of a string: 32-bit words
    are integers reduced modulo 2^32.  The examples are the published test
    vectors. *)

From S2P Require Import Prelude GoStrings.
Open Scope Z_scope.

Definition w32 (z : Z) : Z := z mod 2 ^ 32.
Definition rotr (n x : Z) : Z := Z.lor (Z.shiftr x n) (w32 (Z.shiftl x (32 - n))).
Definition ch (x y z : Z) : Z := Z.lxor (Z.land x y) (Z.land (2 ^ 32 - 1 - x) z).
Definition maj (x y z : Z) : Z := Z.lxor (Z.lxor (Z.land x y) (Z.land x z)) (Z.land y z).
Definition Sigma0 (x : Z) : Z := Z.lxor (Z.lxor (rotr 2 x) (rotr 13 x)) (rotr 22 x).
Definition Sigma1 (x : Z) : Z := Z.lxor (Z.lxor (rotr 6 x) (rotr 11 x)) (rotr 25 x).
Definition sigma0 (x : Z) : Z := Z.lxor (Z.lxor (rotr 7 x) (rotr 18 x)) (Z.shiftr x 3).
Definition sigma1 (x : Z) : Z := Z.lxor (Z.lxor (rotr 17 x) (rotr 19 x)) (Z.shiftr x 10).

(** Fractional parts of the cube roots of the first 64 primes. *)
Definition round_constants : list Z := [
   1116352408; 1899447441; 3049323471; 3921009573; 961987163; 1508970993;
   2453635748; 2870763221; 3624381080; 310598401; 607225278; 1426881987;
   1925078388; 2162078206; 2614888103; 3248222580; 3835390401; 4022224774;
   264347078; 604807628; 770255983; 1249150122; 1555081692; 1996064986;
   2554220882; 2821834349; 2952996808; 3210313671; 3336571891; 3584528711;
   113926993; 338241895; 666307205; 773529912; 1294757372; 1396182291;
   1695183700; 1986661051; 2177026350; 2456956037; 2730485921; 2820302411;
   3259730800; 3345764771; 3516065817; 3600352804; 4094571909; 275423344;
   430227734; 506948616; 659060556; 883997877; 958139571; 1322822218;
   1537002063; 1747873779; 1955562222; 2024104815; 2227730452; 2361852424;
   2428436474; 2756734187; 3204031479; 3329325298].

Record sha_state := MkSha { sa : Z; sb : Z; sc : Z; sd : Z; se : Z; sf : Z; sg : Z; sh : Z }.

(** Fractional parts of the square roots of the first 8 primes. *)
Definition sha_init : sha_state :=
  MkSha 1779033703 3144134277 1013904242 2773480762
    1359893119 2600822924 528734635 1541459225.

(** ** Padding and blocks *)

Fixpoint str_bytes (s : string) : list Z :=
  match s with "" => [] | String c s => chr_code c :: str_bytes s end.

(** The [n] low bytes of [z], the most significant first. *)
Fixpoint be_bytes (n : nat) (z : Z) : list Z :=
  match n with O => [] | S n => be_bytes n (z / 256) ++ [z mod 256] end.

Definition sha_pad (msg : list Z) : list Z :=
  let len := Z.of_nat (length msg) in
  msg ++ [128] ++ repeat 0 (Z.to_nat ((55 - len) mod 64)) ++ be_bytes 8 (8 * len).

Fixpoint words (l : list Z) : list Z :=
  match l with
  | a :: b :: c :: d :: l => ((a * 256 + b) * 256 + c) * 256 + d :: words l
  | _ => []
  end.

(** [n] more words of the schedule; the words so far, the last one first. *)
Fixpoint schedule (n : nat) (ws : list Z) : list Z :=
  match n with
  | O => rev ws
  | S n =>
      let w i := nth i ws 0 in
      schedule n (w32 (sigma1 (w 1%nat) + w 6%nat + sigma0 (w 14%nat) + w 15%nat) :: ws)
  end.

Definition sha_round (s : sha_state) (kw : Z * Z) : sha_state :=
  let t1 := sh s + Sigma1 (se s) + ch (se s) (sf s) (sg s) + kw.1 + kw.2 in
  let t2 := Sigma0 (sa s) + maj (sa s) (sb s) (sc s) in
  MkSha (w32 (t1 + t2)) (sa s) (sb s) (sc s) (w32 (sd s + t1)) (se s) (sf s) (sg s).

Definition sha_block (s : sha_state) (block : list Z) : sha_state :=
  let t := foldl sha_round s (combine round_constants (schedule 48 (rev block))) in
  MkSha (w32 (sa s + sa t)) (w32 (sb s + sb t)) (w32 (sc s + sc t)) (w32 (sd s + sd t))
        (w32 (se s + se t)) (w32 (sf s + sf t)) (w32 (sg s + sg t)) (w32 (sh s + sh t)).

Fixpoint sha_blocks (fuel : nat) (s : sha_state) (ws : list Z) : sha_state :=
  match fuel, ws with
  | S fuel, _ :: _ => sha_blocks fuel (sha_block s (take 16 ws)) (drop 16 ws)
  | _, _ => s
  end.

(** The digest, 32 bytes; one round of fuel per word is more than one per
    block of 16 words. *)
Definition Sum256 (msg : list Z) : list Z :=
  let ws := words (sha_pad msg) in
  let s := sha_blocks (length ws) sha_init ws in
  be_bytes 4 (sa s) ++ be_bytes 4 (sb s) ++ be_bytes 4 (sc s) ++ be_bytes 4 (sd s) ++
  be_bytes 4 (se s) ++ be_bytes 4 (sf s) ++ be_bytes 4 (sg s) ++ be_bytes 4 (sh s).

(** ** [encoding/hex] *)

Definition hex_chr (d : Z) : ascii := ascii_of_nat (Z.to_nat (if d <? 10 then 48 + d else 87 + d)).

Fixpoint EncodeToString (bytes : list Z) : string :=
  match bytes with
  | [] => ""
  | b :: l => String (hex_chr (b / 16 mod 16)) (String (hex_chr (b mod 16)) (EncodeToString l))
  end.

Example sha256_empty :
  EncodeToString (Sum256 []) = "e3b0c44298fc1c149afbf4c8996fb92427ae41e4649b934ca495991b7852b855".
Proof. vm_eq. Qed.
Example sha256_abc :
  EncodeToString (Sum256 (str_bytes "abc")) = "ba7816bf8f01cfea414140de5dae2223b00361a396177a9cb410ff61f20015ad".
Proof. vm_eq. Qed.
Example sha256_two_blocks :
  EncodeToString (Sum256 (str_bytes "abcdbcdecdefdefgefghfghighijhijkijkljklmklmnlmnomnopnopq")) =
  "248d6a61d20638b8e5c026930c3e6039a33ce45964ff2167f6ecedd419db06c1".
Proof. vm_eq. Qed.

(** ** Lengths and characters *)

Definition is_lower_alnum (c : ascii) : bool :=
  ((97 <=? chr_code c) && (chr_code c <=? 122)) || is_digit c.

Lemma length_be_bytes n z : length (be_bytes n z) = n.
Proof. revert z. induction n as [|n IH]; intros z; simpl; [done|]. rewrite length_app, IH. simpl. lia. Qed.

Lemma length_Sum256 msg : length (Sum256 msg) = 32%nat.
Proof. unfold Sum256. by rewrite !length_app, !length_be_bytes. Qed.

Lemma length_EncodeToString l : String.length (EncodeToString l) = (2 * length l)%nat.
Proof. induction l as [|b l IH]; simpl; [done|]. rewrite IH. lia. Qed.

Lemma hex_chr_alnum z : is_lower_alnum (hex_chr (z mod 16)) = true.
Proof.
  assert (Hz : 0 <= z mod 16 < 16) by (apply Z.mod_pos_bound; lia).
  assert (Hall : forallb (λ n, is_lower_alnum (hex_chr (Z.of_nat n))) (seq 0 16) = true) by reflexivity.
  rewrite forallb_forall in Hall. specialize (Hall (Z.to_nat (z mod 16))).
  rewrite Z2Nat.id in Hall by lia. apply Hall, in_seq. lia.
Qed.

Lemma EncodeToString_alnum l : str_forallb is_lower_alnum (EncodeToString l) = true.
Proof. induction l as [|b l IH]; simpl; [done|]. by rewrite !hex_chr_alnum, IH. Qed.

(** ** What a digest determines *)

(** The hash separates the given texts by the first [n] bytes of their digests. *)
Definition collision_free (n : nat) (texts : string → Prop) : Prop :=
  ∀ s1 s2, texts s1 → texts s2 →
    take n (Sum256 (str_bytes s1)) = take n (Sum256 (str_bytes s2)) → s1 = s2.

(** Decided on a list of the texts. *)
Lemma collision_free_list n (texts : string → Prop) l :
  (∀ s, texts s → s ∈ l) → NoDup ((λ s, take n (Sum256 (str_bytes s))) <$> l) → collision_free n texts.
Proof.
  intros Hl Hnd s1 s2 [i Hi]%Hl%list_elem_of_lookup [j Hj]%Hl%list_elem_of_lookup Heq.
  rewrite NoDup_alt in Hnd. enough (i = j) by congruence.
  eapply Hnd; rewrite list_lookup_fmap, ?Hi, ?Hj; [done|]. simpl. by rewrite Heq.
Qed.

Definition is_byte (b : Z) : Prop := 0 <= b < 256.

Lemma be_bytes_byte n z : Forall is_byte (be_bytes n z).
Proof.
  revert z. induction n as [|n IH]; intros z; simpl; [constructor|]. apply Forall_app. split; [apply IH|].
  constructor; [apply Z.mod_pos_bound; lia|constructor].
Qed.

Lemma Sum256_bytes msg : Forall is_byte (Sum256 msg).
Proof. unfold Sum256. rewrite !Forall_app. split_and!; apply be_bytes_byte. Qed.

Lemma hex_chr_inj a b : 0 <= a < 16 → 0 <= b < 16 → hex_chr a = hex_chr b → a = b.
Proof.
  intros Ha Hb Heq.
  assert (Hall : Forall (λ m, Forall (λ n, hex_chr (Z.of_nat m) = hex_chr (Z.of_nat n) → m = n) (seq 0 16)) (seq 0 16))
    by (apply (bool_decide_unpack _); vm_compute; exact I).
  rewrite Forall_forall in Hall. specialize (Hall (Z.to_nat a)). rewrite Forall_forall in Hall.
  rewrite <-(Z2Nat.id a), <-(Z2Nat.id b) in Heq by lia.
  enough (Z.to_nat a = Z.to_nat b) by lia.
  apply Hall; [apply elem_of_seq; lia..|done].
Qed.

Lemma EncodeToString_inj l1 : ∀ l2, Forall is_byte l1 → Forall is_byte l2 →
  EncodeToString l1 = EncodeToString l2 → l1 = l2.
Proof.
  induction l1 as [|a l1 IH]; intros [|b l2] H1 H2; try done. cbn [EncodeToString]. intros [= Hh Hl Hr].
  apply Forall_cons in H1 as [Ha H1], H2 as [Hb H2]. unfold is_byte in *.
  assert (0 <= a / 16 < 16 ∧ 0 <= b / 16 < 16) as [? ?]
    by (split; split; [apply Z.div_pos|apply Z.div_lt_upper_bound|apply Z.div_pos|apply Z.div_lt_upper_bound]; lia).
  apply hex_chr_inj in Hh; [|apply Z.mod_pos_bound; lia..]. apply hex_chr_inj in Hl; [|apply Z.mod_pos_bound; lia..].
  rewrite !(Z.mod_small (_ / 16)) in Hh by lia.
  f_equal; [rewrite (Z.div_mod a 16), (Z.div_mod b 16) by lia; congruence|by apply IH].
Qed.

Lemma str_app_inj_r (a b c d : string) :
  String.length b = String.length d → a +:+ b = c +:+ d → a = c ∧ b = d.
Proof.
  intros Hlen. revert c. induction a as [|x a IH]; intros [|y c] Heq; simpl in Heq.
  - done.
  - subst. simpl in Hlen. rewrite str_length_app in Hlen. lia.
  - subst. simpl in Hlen. rewrite str_length_app in Hlen. lia.
  - injection Heq as -> Heq. destruct (IH c Heq) as [-> ->]. done.
Qed.
