(* ===== verification/Cluset.v ===== *)
(** * Node-set notation: [internal/cluset/cluset.go]

    [Compact] folds node names into ranges ([n[01-03,7]]), [Expand] unfolds
    them, [expandWithLimit] unfolds untrusted input under a bound, and
    [splitList] cuts a comma-separated list outside brackets.

    The two regular expressions of the file are written as the backtracking
    matches they are: a lazy [.*?] tries the empty prefix first and grows by
    one character, which cannot be a newline. *)

From S2P Require Import Prelude GoStrings.
Open Scope Z_scope.

Module Cluset.

(** ** Matching *)

(** [0*\d+$]: a non-empty run of digits up to the end. *)
Definition all_digits (s : string) : bool :=
  negb (bool_decide (s = "")) && str_forallb is_digit s.

(** [^(.*?)(0*\d+)$] *)
Fixpoint compactRegexp (s : string) : option (string * string) :=
  if all_digits s then Some ("", s)
  else match s with
       | "" => None
       | String c r =>
           if bool_decide (c = nl) then None
           else '(p, d) ← compactRegexp r; Some (String c p, d)
       end.

(** [(.*?)\]$] *)
Fixpoint closeBracket (s : string) : option string :=
  match s with
  | "" => None
  | String c r =>
      if bool_decide (c = "]"%char) && bool_decide (r = "") then Some ""
      else if bool_decide (c = nl) then None
      else String c <$> closeBracket r
  end.

(** [^(.*?)\[(.*?)\]$] *)
Fixpoint expandRegexp (s : string) : option (string * string) :=
  match s with
  | "" => None
  | String c r =>
      match (if bool_decide (c = "["%char) then closeBracket r else None) with
      | Some ranges => Some ("", ranges)
      | None =>
          if bool_decide (c = nl) then None
          else '(p, ranges) ← expandRegexp r; Some (String c p, ranges)
      end
  end.

(** [num, _ := strconv.Atoi(s)]: the error is dropped, the value is kept. *)
Definition atoi (s : string) : Z :=
  match Atoi s with Ok z => z | Err z => z end.

(** ** Compact *)

Definition formatRange (start end_ : string) : string :=
  if bool_decide (start = end_) then start else start +:+ "-" +:+ end_.

(** The loop of [compressRange] over [numbers[1:]]. *)
Fixpoint compressLoop (start end_ : string) (numbers : list string) : list string :=
  match numbers with
  | [] => [formatRange start end_]
  | n :: numbers =>
      if atoi n =? atoi end_ + 1 then compressLoop start n numbers
      else formatRange start end_ :: compressLoop n n numbers
  end.

Definition compressRange (numbers : list string) : string :=
  match numbers with
  | [] => ""
  | [n] => n
  | n :: numbers => "[" +:+ join "," (compressLoop n n numbers) +:+ "]"
  end.

Definition atoi_le (a b : string) : Prop := atoi a ≤ atoi b.
#[global] Instance atoi_le_dec : RelDecision atoi_le.
Proof. intros a b. unfold atoi_le. apply _. Defined.
#[global] Instance atoi_le_total : Total atoi_le.
Proof. intros a b. unfold atoi_le. lia. Qed.
#[global] Instance atoi_le_trans : Transitive atoi_le.
Proof. intros a b c. unfold atoi_le. lia. Qed.

(** [groups[prefix] = append(groups[prefix], numStr)], or [groups[node] = nil]. *)
Definition addGroup (groups : gmap string (list string)) (node : string) :
    gmap string (list string) :=
  match compactRegexp node with
  | Some (prefix, numStr) =>
      <[prefix := default [] (groups !! prefix) ++ [numStr]]> groups
  | None => <[node := []]> groups
  end.

Definition groupNodes (nodes : list string) : gmap string (list string) :=
  foldl addGroup ∅ nodes.

Definition formatGroup (groups : gmap string (list string)) (prefix : string) : string :=
  prefix +:+ compressRange (merge_sort atoi_le (default [] (groups !! prefix))).

Definition Compact (nodes : list string) : list string :=
  let groups := groupNodes nodes in
  formatGroup groups <$> sorted_keys groups.

(** ** Expand *)

(** [for i := lo; i <= hi; i++ { append(fmt.Sprintf("%s%0*d", prefix, width, i)) }].
    The counter is a 64-bit integer.  [None]: the loop is still running when
    the fuel is spent. *)
Fixpoint expandLoop (fuel : nat) (prefix : string) (width : nat) (i hi : Z) :
    option (list string) :=
  match fuel with
  | O => None
  | S fuel =>
      if i <=? hi then
        rest ← expandLoop fuel prefix width (wrap64 (i + 1)) hi;
        Some ((prefix +:+ pad width i) :: rest)
      else Some []
  end.

Definition part_bounds (part : string) : option (string * string) :=
  if contains_chr "-" part then
    match split "-" part with
    | b0 :: b1 :: _ => Some (b0, b1)
    | _ => None
    end
  else None.

Definition expandPart (prefix part : string) : option (list string) :=
  match part_bounds part with
  | Some (b0, b1) =>
      let lo := atoi b0 in
      let hi := atoi b1 in
      expandLoop (S (Z.to_nat (hi - lo + 1))) prefix (String.length b0) lo hi
  | None => Some [prefix +:+ part]
  end.

Fixpoint concatM {A} (l : list (option (list A))) : option (list A) :=
  match l with
  | [] => Some []
  | x :: l => a ← x; b ← concatM l; Some (a ++ b)
  end.

Definition expandEntry (entry : string) : option (list string) :=
  match expandRegexp entry with
  | Some (prefix, ranges) => concatM (expandPart prefix <$> split "," ranges)
  | None => Some [entry]
  end.

(** [None]: the call does not return. *)
Definition Expand (compressed : list string) : option (list string) :=
  concatM (expandEntry <$> compressed).

(** ** expandWithLimit *)

Definition maxExpandedNodes : Z := 500000.

Inductive expand_error := ErrExceeds (limit : Z).

(** [for i := lo; i <= hi; i++ { append(...); if i == hi { break } }] *)
Fixpoint boundedLoop (fuel : nat) (prefix : string) (width : nat) (i hi : Z)
    (result : list string) : list string :=
  match fuel with
  | O => result
  | S fuel =>
      if i <=? hi then
        let result := result ++ [prefix +:+ pad width i] in
        if i =? hi then result
        else boundedLoop fuel prefix width (wrap64 (i + 1)) hi result
      else result
  end.

Definition limitPart (limit : Z) (prefix : string) (result : list string) (part : string) :
    Prelude.result expand_error (list string) :=
  match part_bounds part with
  | Some (b0, b1) =>
      let lo := atoi b0 in
      let hi := atoi b1 in
      if (lo <=? hi) && (limit - Z.of_nat (length result) <=? hi - lo)
      then Err (ErrExceeds limit)
      else Ok (boundedLoop (S (Z.to_nat (hi - lo))) prefix (String.length b0) lo hi result)
  | None =>
      let result := result ++ [prefix +:+ part] in
      if limit <? Z.of_nat (length result) then Err (ErrExceeds limit) else Ok result
  end.

Definition limitEntry (limit : Z) (result : list string) (entry : string) :
    Prelude.result expand_error (list string) :=
  match expandRegexp entry with
  | Some (prefix, ranges) => foldM (limitPart limit prefix) result (split "," ranges)
  | None =>
      let result := result ++ [entry] in
      if limit <? Z.of_nat (length result) then Err (ErrExceeds limit) else Ok result
  end.

Definition expandWithLimit (compressed : list string) (limit : Z) :
    Prelude.result expand_error (list string) :=
  foldM (limitEntry limit) [] compressed.

Definition ExpandWithLimit (compressed : list string) :
    Prelude.result expand_error (list string) :=
  expandWithLimit compressed maxExpandedNodes.

(** ** splitList *)

Record split_state := SplitState {
  sp_result : list string;
  sp_current : string;
  sp_depth : Z
}.

Definition flushPart (st : split_state) : list string :=
  let part := trim_space (sp_current st) in
  if bool_decide (part = "") then sp_result st else sp_result st ++ [part].

Definition splitStep (st : split_state) (ch : ascii) : split_state :=
  let write := sp_current st +:+ String ch "" in
  if bool_decide (ch = "["%char) then SplitState (sp_result st) write (sp_depth st + 1)
  else if bool_decide (ch = "]"%char) then
    SplitState (sp_result st) write
      (if 0 <? sp_depth st then sp_depth st - 1 else sp_depth st)
  else if bool_decide (ch = ","%char) && (sp_depth st =? 0) then
    SplitState (flushPart st) "" (sp_depth st)
  else SplitState (sp_result st) write (sp_depth st).

Fixpoint splitLoop (st : split_state) (list : string) : split_state :=
  match list with
  | "" => st
  | String ch list => splitLoop (splitStep st ch) list
  end.

Definition splitList (list : string) : Datatypes.list string :=
  let st := splitLoop (SplitState [] "" 0) list in
  if bool_decide (sp_current st = "") then sp_result st else flushPart st.

Definition ExpandList (compressed : string) : option (list string) :=
  Expand (splitList compressed).

Example compact_ex :
  Compact ["n10"; "n08"; "m"; "n09"; "n12"; "k1"] = ["k1"; "m"; "n[08-10,12]"].
Proof. vm_compute. reflexivity. Qed.
Example expand_ex :
  ExpandList " n[08-10,12], k1,m" = Some ["n08"; "n09"; "n10"; "n12"; "k1"; "m"].
Proof. vm_compute. reflexivity. Qed.
Example limit_ex : is_ok (ExpandWithLimit ["n[0-2000000000]"]) = false.
Proof. vm_compute. reflexivity. Qed.


(** ** The ranges a loop produces *)

Definition names (prefix : string) (width : nat) (lo hi : Z) : list string :=
  (λ i, prefix +:+ pad width i) <$> seqZ lo (hi - lo + 1).

Lemma names_empty prefix width lo hi : hi < lo → names prefix width lo hi = [].
Proof. intros H. unfold names. by rewrite seqZ_nil by lia. Qed.

Lemma names_cons prefix width lo hi :
  lo ≤ hi → names prefix width lo hi =
    (prefix +:+ pad width lo) :: names prefix width (lo + 1) hi.
Proof.
  intros H. unfold names. rewrite seqZ_cons by lia. simpl.
  do 3 f_equal; lia.
Qed.

Lemma names_length prefix width lo hi :
  length (names prefix width lo hi) = Z.to_nat (hi - lo + 1).
Proof. unfold names. by rewrite length_fmap, length_seqZ. Qed.

Lemma parse_uint_go_nonneg acc s z : 0 ≤ acc → parse_uint_go acc s = PVal z → 0 ≤ z.
Proof.
  revert acc. induction s as [|c s IH]; simpl; intros acc Hacc Hp; [by simplify_eq|].
  destruct (is_digit c) eqn:Hc; [|done]. pose proof (is_digit_val c Hc).
  case_match; [done|]. eapply IH; [|done]. lia.
Qed.

Lemma parse_signed_bounds neg s :
  match parse_signed neg s with Ok z | Err z => - 2 ^ 63 ≤ z ≤ max_int ∧ (neg = false → 0 ≤ z) end.
Proof.
  unfold parse_signed, parse_uint, max_int. case_bool_decide; [lia|].
  destruct (parse_uint_go 0 s) as [| |z] eqn:Hp; [lia|destruct neg; lia|].
  apply parse_uint_go_nonneg in Hp; [|lia].
  destruct neg.
  - destruct (Z.ltb_spec (2 ^ 63) z); lia.
  - destruct (Z.ltb_spec (2 ^ 63 - 1) z); lia.
Qed.

Lemma atoi_cases s :
  (∃ s', s = String "-" s' ∧ (Atoi s = parse_signed true s')) ∨
  (∃ s', Atoi s = parse_signed false s').
Proof.
  destruct s as [|c s]; [right; by exists ""|].
  destruct (decide (c = "-"%char)) as [->|Hm]; [left; by exists s|].
  destruct (decide (c = "+"%char)) as [->|Hp]; [right; by exists s|].
  right. exists (String c s). unfold Atoi.
  destruct c as [[] [] [] [] [] [] [] []]; done.
Qed.

(** A string without a sign never reads as a negative number, and every
    result fits a 64-bit integer. *)
Lemma atoi_range s : - 2 ^ 63 ≤ atoi s ≤ max_int.
Proof.
  unfold atoi. destruct (atoi_cases s) as [(s' & _ & ->)|(s' & ->)].
  - pose proof (parse_signed_bounds true s'). destruct (parse_signed true s'); lia.
  - pose proof (parse_signed_bounds false s'). destruct (parse_signed false s'); lia.
Qed.

Lemma atoi_nonneg s : contains_chr "-" s = false → 0 ≤ atoi s.
Proof.
  intros Hs. unfold atoi. destruct (atoi_cases s) as [(s' & -> & _)|(s' & ->)].
  - done.
  - pose proof (parse_signed_bounds false s') as Hb. destruct (parse_signed false s'); by apply Hb.
Qed.

Lemma expandLoop_spec prefix width lo hi fuel :
  - 2 ^ 63 ≤ lo → hi < max_int → (Z.to_nat (hi - lo + 1) < fuel)%nat →
  expandLoop fuel prefix width lo hi = Some (names prefix width lo hi).
Proof.
  revert lo. induction fuel as [|fuel IH]; intros lo Hlo Hhi Hfuel; [lia|]. simpl.
  destruct (Z.leb_spec lo hi) as [Hle|Hlt].
  - rewrite wrap64_id by lia. rewrite IH by lia. simpl. by rewrite (names_cons _ _ lo) by done.
  - by rewrite names_empty.
Qed.

(** With [hi] the largest integer the guard [i <= hi] never fails. *)
Lemma expandLoop_diverges fuel prefix width i :
  expandLoop fuel prefix width (wrap64 i) max_int = None.
Proof.
  revert i. induction fuel as [|fuel IH]; intros i; simpl; [done|].
  destruct (Z.leb_spec (wrap64 i) max_int) as [Hle|Hlt].
  - by rewrite IH.
  - unfold wrap64, max_int in Hlt.
    pose proof (Z.mod_pos_bound (i + 2 ^ 63) (2 ^ 64) ltac:(lia)). lia.
Qed.

Lemma boundedLoop_spec prefix width lo hi fuel result :
  - 2 ^ 63 ≤ lo → hi ≤ max_int → (Z.to_nat (hi - lo) < fuel)%nat →
  boundedLoop fuel prefix width lo hi result = result ++ names prefix width lo hi.
Proof.
  revert lo result. induction fuel as [|fuel IH]; intros lo result Hlo Hhi Hfuel; [lia|].
  simpl. destruct (Z.leb_spec lo hi) as [Hle|Hlt].
  - rewrite names_cons by done. destruct (Z.eqb_spec lo hi) as [->|Hne].
    + by rewrite names_empty by lia.
    + rewrite wrap64_id, IH by lia. by rewrite <-app_assoc.
  - by rewrite names_empty, app_nil_r.
Qed.

Lemma part_bounds_atoi part b0 b1 :
  part_bounds part = Some (b0, b1) → - 2 ^ 63 ≤ atoi b0 ∧ atoi b1 ≤ max_int.
Proof. intros _. pose proof (atoi_range b0). pose proof (atoi_range b1). lia. Qed.

(** ** The bounded expansion agrees with the unbounded one *)

(** What a step of the bounded expansion computes from the accumulator [r]
    when the unbounded step yields [xs]. *)
Definition within (limit : Z) (r xs : list string) : Prelude.result expand_error (list string) :=
  if limit <? Z.of_nat (length (r ++ xs)) then Err (ErrExceeds limit) else Ok (r ++ xs).

Lemma within_le limit r : Z.of_nat (length r) ≤ limit → within limit r [] = Ok r.
Proof. intros H. unfold within. rewrite app_nil_r. destruct (Z.ltb_spec limit (Z.of_nat (length r))); [lia|done]. Qed.

Lemma limitPart_within limit prefix r part xs :
  Z.of_nat (length r) ≤ limit → expandPart prefix part = Some xs →
  limitPart limit prefix r part = within limit r xs.
Proof.
  intros Hr. unfold expandPart, limitPart.
  destruct (part_bounds part) as [[b0 b1]|] eqn:Hb; [|by intros [= <-]].
  pose proof (part_bounds_atoi _ _ _ Hb) as [H0 H1].
  destruct (decide (atoi b1 = max_int)) as [Heq|Hne].
  { rewrite Heq. rewrite <-(wrap64_id (atoi b0)) by (pose proof (atoi_range b0); lia).
    by rewrite expandLoop_diverges. }
  rewrite expandLoop_spec by lia. intros [= <-]. unfold within. rewrite length_app, names_length.
  rewrite boundedLoop_spec by lia.
  destruct (Z.leb_spec (atoi b0) (atoi b1)); simpl;
    repeat match goal with |- context [?a <? ?b] => destruct (Z.ltb_spec a b)
                         | |- context [?a <=? ?b] => destruct (Z.leb_spec a b) end;
    try lia; done.
Qed.

Lemma limitPart_bound limit prefix r part r' :
  Z.of_nat (length r) ≤ limit → limitPart limit prefix r part = Ok r' →
  Z.of_nat (length r') ≤ limit.
Proof.
  intros Hr. unfold limitPart. destruct (part_bounds part) as [[b0 b1]|] eqn:Hb.
  - pose proof (part_bounds_atoi _ _ _ Hb) as [H0 H1]. rewrite boundedLoop_spec by lia.
    destruct (Z.leb_spec (atoi b0) (atoi b1)) as [Hle|Hlt]; simpl;
      [destruct (Z.leb_spec (limit - Z.of_nat (length r)) (atoi b1 - atoi b0)); [done|]|];
      intros [= <-]; rewrite length_app, names_length; lia.
  - destruct (Z.ltb_spec limit (Z.of_nat (length (r ++ [prefix +:+ part])))); [done|].
    intros [= <-]. done.
Qed.

(** A fold of steps that each behave like [within] behaves like [within]. *)
Lemma foldM_within {A} limit (f : list string → A → Prelude.result expand_error (list string))
    (g : A → option (list string)) l r xs :
  (∀ r x ys, Z.of_nat (length r) ≤ limit → g x = Some ys → f r x = within limit r ys) →
  Z.of_nat (length r) ≤ limit → concatM (g <$> l) = Some xs →
  foldM f r l = within limit r xs.
Proof.
  intros Hf. revert r xs. induction l as [|x l IH]; csimpl; intros r xs Hr Hc.
  { simplify_eq. by rewrite within_le. }
  destruct (g x) as [ys|] eqn:Hg; [|done]. csimpl in Hc.
  destruct (concatM (g <$> l)) as [zs|] eqn:Hl; [|done]. simpl in Hc. simplify_eq.
  rewrite (Hf _ _ _ Hr Hg). unfold within at 1.
  destruct (Z.ltb_spec limit (Z.of_nat (length (r ++ ys)))) as [Hlt|Hge].
  - unfold within. rewrite app_assoc, length_app.
    destruct (Z.ltb_spec limit (Z.of_nat (length (r ++ ys) + length zs))); [done|lia].
  - rewrite (IH (r ++ ys) zs Hge eq_refl). unfold within. by rewrite app_assoc.
Qed.

Lemma limitEntry_within limit r entry xs :
  Z.of_nat (length r) ≤ limit → expandEntry entry = Some xs →
  limitEntry limit r entry = within limit r xs.
Proof.
  intros Hr. unfold expandEntry, limitEntry.
  destruct (expandRegexp entry) as [[prefix ranges]|]; [|by intros [= <-]].
  intros Hc. eapply foldM_within; [|done|done]. intros. by apply limitPart_within.
Qed.

Lemma limitEntry_bound limit r entry r' :
  Z.of_nat (length r) ≤ limit → limitEntry limit r entry = Ok r' →
  Z.of_nat (length r') ≤ limit.
Proof.
  intros Hr. unfold limitEntry. destruct (expandRegexp entry) as [[prefix ranges]|].
  - apply (foldM_inv (λ r, Z.of_nat (length r) ≤ limit)); [done|].
    intros. by eapply limitPart_bound.
  - destruct (Z.ltb_spec limit (Z.of_nat (length (r ++ [entry])))); [done|]. by intros [= <-].
Qed.

(** Whatever the input, a successful bounded expansion holds at most [limit]
    names. *)
Theorem expandWithLimit_bounded limit compressed res :
  0 ≤ limit → expandWithLimit compressed limit = Ok res → Z.of_nat (length res) ≤ limit.
Proof.
  intros Hl. apply (foldM_inv (λ r, Z.of_nat (length r) ≤ limit)); [done|].
  intros. by eapply limitEntry_bound.
Qed.

(** When [Expand] returns, [expandWithLimit] returns the same names, or the
    error exactly when there are more of them than the limit. *)
Theorem expandWithLimit_agrees limit compressed res :
  0 ≤ limit → Expand compressed = Some res →
  expandWithLimit compressed limit =
    if limit <? Z.of_nat (length res) then Err (ErrExceeds limit) else Ok res.
Proof.
  intros Hl He. change (expandWithLimit compressed limit = within limit [] res).
  eapply foldM_within; [|done|done]. intros. by apply limitEntry_within.
Qed.

(** [Expand]'s loop does not return on a range that ends at the largest
    integer, whatever the number of iterations allowed. *)
Theorem Expand_overflow_diverges fuel prefix width lo :
  - 2 ^ 63 ≤ lo ≤ max_int →
  expandLoop fuel prefix width lo (atoi "9223372036854775807") = None.
Proof.
  intros Hlo. replace (atoi _) with max_int by reflexivity.
  rewrite <-(wrap64_id lo) by done. apply expandLoop_diverges.
Qed.

(** ** Round trip: [Expand] after [Compact]

    The conditions under which compaction loses nothing.  [w p] is the width
    the numbers after prefix [p] are written with. *)
Definition compactable_node (w : string → nat) (nodes : list string) (n : string) : Prop :=
  match compactRegexp n with
  | Some (p, d) =>
      d = pad (w p) (dec_val d) ∧ dec_val d < max_int ∧ contains_chr "[" p = false ∧
      (p ∈ nodes → is_Some (compactRegexp p))
  | None => expandRegexp n = None
  end.

Definition compactable (w : string → nat) (nodes : list string) : Prop :=
  NoDup nodes ∧ Forall (compactable_node w nodes) nodes.

#[global] Instance compactable_node_dec w nodes n : Decision (compactable_node w nodes n).
Proof. unfold compactable_node. destruct (compactRegexp n) as [[p d]|]; apply _. Defined.
#[global] Instance compactable_dec w nodes : Decision (compactable w nodes).
Proof. apply _. Defined.

Lemma compactRegexp_spec n p d :
  compactRegexp n = Some (p, d) →
  n = p +:+ d ∧ d ≠ "" ∧ str_forallb is_digit d = true ∧ contains_chr nl p = false.
Proof.
  revert p d. induction n as [|c n IH]; intros p d; simpl; [done|].
  destruct (all_digits (String c n)) eqn:Had.
  - intros [= <- <-]. unfold all_digits in Had.
    apply andb_true_iff in Had as [_ Had]. done.
  - case_bool_decide as Hc; [done|]. destruct (compactRegexp n) as [[p' d']|]; [|done].
    simpl. intros [= <- <-]. destruct (IH _ _ eq_refl) as (-> & ? & ? & ?).
    split_and!; try done. simpl. rewrite bool_decide_eq_false_2 by congruence. done.
Qed.

(** *** What the entries expand to *)

Lemma closeBracket_app body :
  contains_chr nl body = false → closeBracket (body +:+ "]") = Some body.
Proof.
  induction body as [|c body IH]; simpl; intros Hn.
  { done. }
  apply orb_false_iff in Hn as [Hc Hn]. apply bool_decide_eq_false in Hc.
  rewrite (bool_decide_eq_false_2 (body +:+ "]" = "")) by (by destruct body).
  rewrite andb_false_r, bool_decide_eq_false_2 by congruence. by rewrite IH.
Qed.

Lemma expandRegexp_app p body :
  contains_chr "[" p = false → contains_chr nl p = false → contains_chr nl body = false →
  expandRegexp (p +:+ String "[" (body +:+ "]")) = Some (p, body).
Proof.
  intros Hb Hp Hn. induction p as [|c p IH]; simpl.
  { by rewrite closeBracket_app. }
  simpl in Hb, Hp. apply orb_false_iff in Hb as [Hcb Hb]. apply orb_false_iff in Hp as [Hcp Hp].
  apply bool_decide_eq_false in Hcb, Hcp.
  rewrite bool_decide_eq_false_2 by congruence. rewrite bool_decide_eq_false_2 by congruence.
  by rewrite IH.
Qed.

Lemma closeBracket_last s t c : c ≠ "]"%char → closeBracket (s +:+ String c "") = t → t = None.
Proof.
  intros Hc <-. induction s as [|c' s IH]; simpl.
  - rewrite bool_decide_eq_false_2 by done. simpl. by case_bool_decide.
  - rewrite (bool_decide_eq_false_2 (s +:+ String c "" = "")) by (by destruct s).
    rewrite andb_false_r. case_bool_decide; [done|]. by rewrite IH.
Qed.

Lemma expandRegexp_last s c : c ≠ "]"%char → expandRegexp (s +:+ String c "") = None.
Proof.
  intros Hc. induction s as [|c' s IH]; simpl.
  - case_bool_decide; case_bool_decide; done.
  - rewrite (closeBracket_last s _ c Hc eq_refl), IH. destruct (bool_decide (c' = "["%char));
      case_bool_decide; done.
Qed.

Lemma digits_last d :
  d ≠ "" → str_forallb is_digit d = true → ∃ s c, d = s +:+ String c "" ∧ is_digit c = true.
Proof.
  induction d as [|c d IH]; [done|]. simpl. intros _ [Hc Hd]%andb_true_iff.
  destruct d as [|c' d']; [by exists "", c|].
  destruct IH as (s & c'' & -> & ?); [done|done|]. by exists (String c s), c''.
Qed.

Lemma expandRegexp_digits p d :
  d ≠ "" → str_forallb is_digit d = true → expandRegexp (p +:+ d) = None.
Proof.
  intros Hd Hds. destruct (digits_last d Hd Hds) as (s & c & -> & Hc).
  rewrite <-str_app_assoc. apply expandRegexp_last. by intros ->.
Qed.

Lemma digits_no_chr c d :
  is_digit c = false → str_forallb is_digit d = true → contains_chr c d = false.
Proof. intros. by eapply str_forallb_not_contains. Qed.

(** *** Runs of consecutive numbers *)

Section Runs.
Context (prefix : string) (w : nat).

Lemma atoi_pad z : 0 ≤ z ≤ max_int → atoi (pad w z) = z.
Proof. intros Hz. unfold atoi. by rewrite Atoi_pad. Qed.

Lemma expand_formatRange a b :
  0 ≤ a ≤ b → b < max_int →
  expandPart prefix (formatRange (pad w a) (pad w b)) = Some (names prefix w a b).
Proof.
  intros Hab Hb. pose proof (pad_digits w a ltac:(lia)) as Ha'.
  pose proof (pad_digits w b ltac:(lia)) as Hb'. unfold formatRange.
  case_bool_decide as Heq.
  - apply pad_inj in Heq as ->; [|lia..].
    unfold expandPart, part_bounds. rewrite digits_no_chr by done.
    by rewrite names_cons, names_empty by lia.
  - unfold expandPart, part_bounds.
    change ("-" +:+ pad w b) with (String "-" (pad w b)).
    rewrite contains_chr_app. cbn [contains_chr].
    rewrite (bool_decide_eq_true_2 ("-"%char = "-"%char)) by done.
    rewrite orb_true_r, split_app by (by apply digits_no_chr).
    rewrite split_no_sep by (by apply digits_no_chr).
    rewrite !atoi_pad by lia. rewrite expandLoop_spec by lia. f_equal. unfold names.
    apply list_fmap_ext. intros i z [Hz1 Hz2]%lookup_seqZ.
    by rewrite pad_range by lia.
Qed.

Lemma compressLoop_spec zs a b :
  0 ≤ a ≤ b → b < max_int → StronglySorted Z.lt (b :: zs) → Forall (λ z, z < max_int) zs →
  concatM (expandPart prefix <$> compressLoop (pad w a) (pad w b) (pad w <$> zs)) =
    Some (names prefix w a b ++ ((λ z, prefix +:+ pad w z) <$> zs)).
Proof.
  revert a b. induction zs as [|z zs IH]; intros a b Hab Hb Hs Hm; csimpl.
  { by rewrite expand_formatRange by done. }
  apply StronglySorted_inv in Hs as [Hs Hbz]. apply Forall_cons in Hbz as [Hbz _].
  apply Forall_cons in Hm as [Hz Hm].
  rewrite !atoi_pad by lia. destruct (Z.eqb_spec z (b + 1)) as [->|Hne].
  - rewrite IH by (done || lia). f_equal. unfold names.
    replace (b + 1 - a + 1) with ((b - a + 1) + 1) by lia.
    rewrite seqZ_app, fmap_app, <-app_assoc by lia. f_equal. simpl. do 3 f_equal. lia.
  - csimpl. rewrite expand_formatRange by done. simpl.
    rewrite IH by (done || lia). simpl.
    by rewrite (names_cons _ _ z), (names_empty _ _ (z + 1)) by lia.
Qed.

Lemma compressLoop_parts start end_ numbers :
  Forall (λ d, str_forallb is_digit d = true) (start :: end_ :: numbers) →
  compressLoop start end_ numbers ≠ [] ∧
  Forall (λ part, contains_chr "," part = false ∧ contains_chr nl part = false)
    (compressLoop start end_ numbers).
Proof.
  assert (∀ a b, str_forallb is_digit a = true → str_forallb is_digit b = true →
    contains_chr "," (formatRange a b) = false ∧ contains_chr nl (formatRange a b) = false) as Hf.
  { intros a b Ha Hb. unfold formatRange. case_bool_decide; rewrite ?contains_chr_app.
    - by rewrite !digits_no_chr.
    - by rewrite !(digits_no_chr _ a), !(digits_no_chr _ b). }
  revert start end_. induction numbers as [|n numbers IH];
    intros start end_ [Hst [He Hnum]%Forall_cons]%Forall_cons; simpl.
  - split; [done|]. constructor; [by apply Hf|constructor].
  - apply Forall_cons in Hnum as [Hn Hnum]. destruct (atoi n =? atoi end_ + 1).
    + apply IH. by repeat constructor.
    + split; [done|]. constructor; [by apply Hf|]. apply IH. by repeat constructor.
Qed.

Lemma join_no_chr c sep l :
  contains_chr c sep = false → Forall (λ x, contains_chr c x = false) l →
  contains_chr c (join sep l) = false.
Proof.
  intros Hc. induction l as [|x l IH]; simpl; [done|]. intros [Hx Hl]%Forall_cons.
  destruct l; [done|]. rewrite !contains_chr_app, Hx, Hc. by apply IH.
Qed.

(** A group of numbers in increasing order expands to its members. *)
Lemma expand_group zs :
  contains_chr "[" prefix = false → contains_chr nl prefix = false →
  StronglySorted Z.lt zs → Forall (λ z, 0 ≤ z < max_int) zs → zs ≠ [] →
  expandEntry (prefix +:+ compressRange (pad w <$> zs)) =
    Some ((λ z, prefix +:+ pad w z) <$> zs).
Proof.
  intros Hb Hn Hs Hz Hne. destruct zs as [|z zs]; [done|]. apply Forall_cons in Hz as [Hz Hzs].
  destruct zs as [|z' zs].
  { simpl. unfold expandEntry.
    by rewrite expandRegexp_digits by (apply pad_nonempty || apply pad_digits; lia). }
  change (compressRange _) with
    (String "[" (join "," (compressLoop (pad w z) (pad w z) (pad w <$> (z' :: zs))) +:+ "]")).
  destruct (compressLoop_parts (pad w z) (pad w z) (pad w <$> (z' :: zs))) as [Hnil Hparts].
  { constructor; [apply pad_digits; lia|]. constructor; [apply pad_digits; lia|].
    apply Forall_fmap. eapply Forall_impl; [exact Hzs|]. simpl. intros. apply pad_digits. lia. }
  unfold expandEntry. rewrite expandRegexp_app; [|done|done|].
  2:{ apply join_no_chr; [done|]. eapply Forall_impl; [exact Hparts|]. by intros ? [_ ?]. }
  rewrite split_join; [|done|].
  2:{ eapply Forall_impl; [exact Hparts|]. by intros ? [? _]. }
  rewrite compressLoop_spec; [|lia|lia|done|].
  2:{ eapply Forall_impl; [exact Hzs|]. simpl. lia. }
  by rewrite names_cons, names_empty by lia.
Qed.
End Runs.

(** *** The groups partition the nodes *)

Definition item (kv : string * list string) : list string :=
  match kv.2 with [] => [kv.1] | ds => (λ d, kv.1 +:+ d) <$> ds end.
Definition flat (g : gmap string (list string)) : list string :=
  concat (item <$> map_to_list g).

Lemma flat_insert_None g k ds : g !! k = None → flat (<[k := ds]> g) ≡ₚ item (k, ds) ++ flat g.
Proof. intros Hk. unfold flat. by rewrite map_to_list_insert by done. Qed.

Lemma flat_insert_Some g k ds ds0 :
  g !! k = Some ds0 →
  ∃ rest, flat g ≡ₚ item (k, ds0) ++ rest ∧ flat (<[k := ds]> g) ≡ₚ item (k, ds) ++ rest.
Proof.
  intros Hk. exists (flat (delete k g)). split.
  - rewrite <-flat_insert_None by apply lookup_delete_eq.
    by rewrite insert_delete_eq, insert_id.
  - rewrite <-flat_insert_None by apply lookup_delete_eq. by rewrite insert_delete_eq.
Qed.

Definition group_ok (l : list string) (k : string) (ds : list string) : Prop :=
  (ds = [] ∧ k ∈ l ∧ compactRegexp k = None) ∨
  (ds ≠ [] ∧ ∀ d, d ∈ ds → k +:+ d ∈ l ∧ compactRegexp (k +:+ d) = Some (k, d)).

Lemma group_ok_mono l l' k ds : l ⊆ l' → group_ok l k ds → group_ok l' k ds.
Proof. intros Hl [?|[? H]]; [left; naive_solver|right; split; [done|]]. intros d Hd. naive_solver. Qed.

Lemma groupNodes_spec w nodes :
  compactable w nodes →
  flat (groupNodes nodes) ≡ₚ nodes ∧ map_Forall (group_ok nodes) (groupNodes nodes).
Proof.
  intros [Hnd Hc]. unfold groupNodes.
  apply (foldl_prefix_inv (λ l g, flat g ≡ₚ l ∧ map_Forall (group_ok l) g)).
  { split; [done|apply map_Forall_empty]. }
  intros l1 n l2 g Hl [Hperm Hok]. rewrite Forall_forall in Hc.
  assert (n ∈ nodes) as Hn by (rewrite Hl; set_solver). specialize (Hc n Hn) as Hcn.
  assert (map_Forall (group_ok (l1 ++ [n])) g) as Hok'.
  { intros k ds Hk. eapply group_ok_mono; [|by apply Hok]. set_solver. }
  unfold addGroup. unfold compactable_node in Hcn.
  destruct (compactRegexp n) as [[p d]|] eqn:Hre.
  - destruct (compactRegexp_spec _ _ _ Hre) as (-> & _).
    destruct (g !! p) as [ds|] eqn:Hg; simpl.
    + destruct (Hok p ds Hg) as [(-> & Hp & Hnone)|[Hne Hds]].
      { destruct Hcn as (_ & _ & _ & Hcn). destruct Hcn as [? Hcn]; [|congruence].
        rewrite Hl. set_solver. }
      split.
      * destruct (flat_insert_Some g p (ds ++ [d]) ds Hg) as (rest & Hf1 & ->).
        rewrite <-Hperm, Hf1. unfold item. simpl. destruct ds as [|d0 ds]; [done|]. csimpl.
        rewrite fmap_app. simpl. solve_Permutation.
      * apply map_Forall_insert_2; [|done]. right. split; [by destruct ds|].
        intros d' [Hd'| ->%list_elem_of_singleton]%elem_of_app; [|set_solver].
        destruct (Hds d' Hd') as [? ?]. set_solver.
    + split.
      * rewrite flat_insert_None by done. rewrite Hperm. simpl. solve_Permutation.
      * apply map_Forall_insert_2; [|done]. right. split; [done|]. set_solver.
  - assert (g !! n = None) as Hg.
    { destruct (g !! n) as [ds|] eqn:Hg; [exfalso|done].
      destruct (Hok n ds Hg) as [(_ & Hin & _)|[Hne Hds]].
      - rewrite Hl in Hnd. apply NoDup_app in Hnd as (_ & Hnd & _). set_solver.
      - destruct ds as [|d ds]; [done|]. destruct (Hds d) as [Hin Hre']; [set_solver|].
        specialize (Hc (n +:+ d)). unfold compactable_node in Hc. rewrite Hre' in Hc.
        destruct Hc as (_ & _ & _ & Hc); [rewrite Hl; set_solver|].
        destruct (Hc Hn). congruence. }
    split.
    + rewrite flat_insert_None by done. rewrite Hperm. simpl. solve_Permutation.
    + apply map_Forall_insert_2; [|done]. left. set_solver.
Qed.

Lemma StronglySorted_lt_of_le (zs : list Z) :
  StronglySorted Z.le zs → NoDup zs → StronglySorted Z.lt zs.
Proof.
  induction 1 as [|z zs Hs IH Hall]; [constructor|]. intros [Hz Hnd]%NoDup_cons.
  constructor; [by apply IH|]. rewrite Forall_forall in *. intros x Hx.
  specialize (Hall x Hx). destruct (decide (x = z)); [by subst|lia].
Qed.

Lemma sorted_group w ds :
  NoDup ds → Forall (λ d, d = pad w (dec_val d) ∧ 0 ≤ dec_val d < max_int) ds →
  ∃ zs, merge_sort atoi_le ds = pad w <$> zs ∧ StronglySorted Z.lt zs ∧
        Forall (λ z, 0 ≤ z < max_int) zs.
Proof.
  intros Hnd Hall. set (ds' := merge_sort atoi_le ds).
  assert (ds' ≡ₚ ds) as Hp by apply merge_sort_Permutation.
  assert (StronglySorted atoi_le ds') as Hs by (apply (StronglySorted_merge_sort _)).
  rewrite <-Hp in Hall, Hnd. clearbody ds'. exists (dec_val <$> ds').
  assert (ds' = pad w <$> (dec_val <$> ds')) as Heq.
  { rewrite <-list_fmap_compose. rewrite <-(list_fmap_id ds') at 1.
    apply Forall_fmap_ext. eapply Forall_impl; [done|]. simpl. naive_solver. }
  split_and!; [done| |by apply Forall_fmap; eapply Forall_impl; naive_solver].
  apply StronglySorted_lt_of_le.
  - clear Heq Hnd Hp. induction Hs as [|d ds' Hs IH Hd]; [constructor|].
    apply Forall_cons in Hall as [[Hd1 Hd2] Hall]. csimpl. constructor; [by apply IH|].
    apply Forall_fmap. rewrite Forall_forall in *. intros x Hx. simpl.
    destruct (Hall x Hx) as [Hx1 Hx2]. specialize (Hd x Hx). unfold atoi_le in Hd.
    rewrite Hx1, Hd1, !atoi_pad in Hd by lia. done.
  - rewrite Heq in Hnd. by eapply NoDup_fmap_1.
Qed.

Lemma expand_formatGroup w nodes k ds :
  compactable w nodes → NoDup ds →
  groupNodes nodes !! k = Some ds → group_ok nodes k ds →
  ∃ out, expandEntry (formatGroup (groupNodes nodes) k) = Some out ∧ out ≡ₚ item (k, ds).
Proof.
  intros [_ Hc] Hnd Hg Hok. rewrite Forall_forall in Hc. unfold formatGroup. rewrite Hg. simpl.
  destruct Hok as [(-> & Hk & Hnone)|[Hne Hds]].
  { exists [k]. split; [|done]. rewrite str_app_nil_r. unfold expandEntry.
    specialize (Hc k Hk). unfold compactable_node in Hc. rewrite Hnone in Hc. by rewrite Hc. }
  assert (∀ d, d ∈ ds → d = pad (w k) (dec_val d) ∧ 0 ≤ dec_val d < max_int ∧
    contains_chr "[" k = false ∧ contains_chr nl k = false) as Hd.
  { intros d Hd. destruct (Hds d Hd) as [Hin Hre]. specialize (Hc _ Hin).
    unfold compactable_node in Hc. rewrite Hre in Hc. destruct Hc as (? & ? & ? & _).
    destruct (compactRegexp_spec _ _ _ Hre) as (_ & _ & Hdig & ?).
    pose proof (dec_val_go_ge 0 d ltac:(lia) Hdig). unfold dec_val in *. split_and!; done. }
  destruct (sorted_group (w k) ds) as (zs & Hzs & Hsort & Hb).
  { done. } { rewrite Forall_forall. intros d ?. destruct (Hd d) as (?&?&_); done. }
  assert (zs ≠ []) as Hzne.
  { intros ->. apply Hne. apply Permutation_nil_r. rewrite <-(merge_sort_Permutation atoi_le ds).
    by rewrite Hzs. }
  destruct ds as [|d0 ds0]; [done|]. destruct (Hd d0) as (_ & _ & Hb1 & Hb2); [set_solver|].
  exists ((λ z, k +:+ pad (w k) z) <$> zs). split.
  - rewrite Hzs. by apply expand_group.
  - change (item (k, d0 :: ds0)) with ((λ d, k +:+ d) <$> (d0 :: ds0)).
    change (λ z, k +:+ pad (w k) z) with ((λ d, k +:+ d) ∘ pad (w k)).
    rewrite list_fmap_compose, <-Hzs. by rewrite merge_sort_Permutation.
Qed.

Lemma concatM_perm {A B} (f : A → option (list B)) (g : A → list B) l :
  (∀ x, x ∈ l → ∃ out, f x = Some out ∧ out ≡ₚ g x) →
  ∃ out, concatM (f <$> l) = Some out ∧ out ≡ₚ concat (g <$> l).
Proof.
  induction l as [|x l IH]; intros H; csimpl; [by exists []|].
  destruct (H x) as (a & -> & Ha); [set_solver|].
  destruct IH as (b & -> & Hb); [set_solver|]. exists (a ++ b). split; [done|].
  by rewrite Ha, Hb.
Qed.

(** C1: Compacting a list of node names and expanding the result gives the
    same names, in some order, provided that the names are distinct, that the
    numbers after a common prefix are written with a common width (short of
    the largest integer), that no prefix holds a bracket and that no name
    without a number is the prefix of another node. *)
Theorem Compact_Expand w nodes :
  compactable w nodes →
  ∃ out, Expand (Compact nodes) = Some out ∧ out ≡ₚ nodes.
Proof.
  intros Hc. destruct (groupNodes_spec w nodes Hc) as [Hflat Hok].
  set (g := groupNodes nodes) in *.
  assert (∀ k ds, g !! k = Some ds → NoDup ds) as Hnd.
  { intros k ds Hk. destruct Hc as [Hnd _].
    destruct (flat_insert_Some g k ds ds Hk) as (rest & Hf & _).
    rewrite <-Hflat, Hf in Hnd. apply NoDup_app in Hnd as (Hnd & _ & _).
    unfold item in Hnd. simpl in Hnd. destruct ds; [constructor|by eapply NoDup_fmap_1]. }
  unfold Expand, Compact. fold g. rewrite <-list_fmap_compose.
  destruct (concatM_perm (expandEntry ∘ formatGroup g)
    (λ k, item (k, default [] (g !! k))) (sorted_keys g)) as (out & -> & Hout).
  { intros k [ds Hk]%elem_of_sorted_keys. rewrite Hk. simpl. apply (expand_formatGroup w).
    - done. - by eapply Hnd. - done. - by apply Hok. }
  exists out. split; [done|]. rewrite Hout, <-Hflat. unfold flat, sorted_keys.
  rewrite sort_strings_perm, <-list_fmap_compose. apply reflexive_eq. f_equal.
  apply Forall_fmap_ext_1. apply Forall_forall. intros [k ds] Hk%elem_of_map_to_list. simpl.
  by rewrite Hk.
Qed.

(** ** Witnesses *)

Lemma expandWithLimit_bounded_witness :
  expandWithLimit ["n[08-11,20]"; "m"] 6 = Ok ["n08"; "n09"; "n10"; "n11"; "n20"; "m"] ∧
  Z.of_nat (length ["n08"; "n09"; "n10"; "n11"; "n20"; "m"]) ≤ 6.
Proof.
  split; [vm_compute; reflexivity|].
  apply (expandWithLimit_bounded 6 ["n[08-11,20]"; "m"]); [lia|vm_compute; reflexivity].
Defined.

Lemma expandWithLimit_agrees_witness :
  expandWithLimit ["n[08-11,20]"; "m"] 5 = Err (ErrExceeds 5).
Proof.
  apply (expandWithLimit_agrees 5 ["n[08-11,20]"; "m"] ["n08"; "n09"; "n10"; "n11"; "n20"; "m"]);
    [lia|vm_compute; reflexivity].
Defined.

Lemma Expand_overflow_diverges_witness :
  expandLoop 1000 "n" 1 5 (atoi "9223372036854775807") = None.
Proof. apply (Expand_overflow_diverges 1000 "n" 1 5). unfold max_int. lia. Defined.

Lemma Compact_Expand_witness :
  Compact ["n11"; "gpu"; "n08"; "n09"; "n10"; "n20"; "m7"] = ["gpu"; "m7"; "n[08-11,20]"] ∧
  ∃ out, Expand (Compact ["n11"; "gpu"; "n08"; "n09"; "n10"; "n20"; "m7"]) = Some out ∧
    out ≡ₚ ["n11"; "gpu"; "n08"; "n09"; "n10"; "n20"; "m7"].
Proof.
  split; [vm_compute; reflexivity|].
  apply (Compact_Expand (λ p, if decide (p = "n") then 2%nat else 1%nat)).
  apply (bool_decide_unpack _). vm_compute. exact I.
Defined.

(** ** What the conditions exclude *)

(** A node without a number that is also the prefix of numbered nodes resets
    their group: [node1] is lost. *)
Example Compact_loses_node : Compact ["node1"; "node"] = ["node"].
Proof. vm_compute. reflexivity. Qed.

(** Numbers of one prefix written with two widths become one range, which
    expands with the width of its first bound. *)
Example Compact_mixed_widths : Expand (Compact ["n1"; "n02"]) = Some ["n1"; "n2"].
Proof. vm_compute. reflexivity. Qed.

End Cluset.
