(* ===== verification/Lru.v ===== *)
(** * LRU cache: [pkg/server/lru.go]

    The cache is a [container/list] of entries, most recent first, beside a
    map from keys to list elements.  Elements are pointers: a map entry holds
    the identity of an element, never a copy of it.  The file gives the
    concrete operations, the abstract recency list they implement with a
    refinement theorem per operation, and the [Store] interface the request
    queue relies on. *)

From S2P Require Import Prelude.
Open Scope Z_scope.

(** What a client may assume of a bounded store: a read does not change the
    content, a write is visible, and a write may at most make other keys
    disappear. *)
Class Store (K V T : Type) := {
  st_inv : T → Prop;
  st_view : T → K → option V;
  st_size : T → nat;
  st_capacity : T → Z;
  st_add : T → K → V → T * bool;
  st_get : T → K → T * option V;
  st_get_val : ∀ c k, st_inv c → (st_get c k).2 = st_view c k;
  st_get_view : ∀ c k k', st_inv c → st_view (st_get c k).1 k' = st_view c k';
  st_get_inv : ∀ c k, st_inv c → st_inv (st_get c k).1;
  st_add_inv : ∀ c k v, st_inv c → st_inv (st_add c k v).1;
  st_add_view : ∀ c k v, st_inv c → st_view (st_add c k v).1 k = Some v;
  st_add_view_ne : ∀ c k v k', st_inv c → k ≠ k' →
    st_view (st_add c k v).1 k' = st_view c k' ∨ st_view (st_add c k v).1 k' = None;
  st_add_no_evict : ∀ c k v k', st_inv c → k ≠ k' → (st_add c k v).2 = false →
    st_view (st_add c k v).1 k' = st_view c k';
  st_bounded : ∀ c, st_inv c → Z.of_nat (st_size c) ≤ st_capacity c;
  st_get_capacity : ∀ c k, st_capacity (st_get c k).1 = st_capacity c;
  st_add_capacity : ∀ c k v, st_capacity (st_add c k v).1 = st_capacity c;
}.

Module Lru.
Section Lru.
Context {K V : Type} `{Countable K}.

(** [elem]: the identity of a [*list.Element]; [next] allocates them. *)
Abbreviation elem := nat.
Record lruCache := LruCache {
  capacity : Z;
  entries : gmap K elem;
  items : list (elem * (K * V));
  next : elem
}.

(** [None]: the call panics. *)
Definition newLRUCache (capacity : Z) : option lruCache :=
  if capacity <=? 0 then None else Some (LruCache capacity ∅ [] 0).

(** ** [container/list] *)

Definition moveToFront (e : elem) (l : list (elem * (K * V))) : list (elem * (K * V)) :=
  filter (λ x, x.1 = e) l ++ filter (λ x, x.1 ≠ e) l.

Definition remove (e : elem) (l : list (elem * (K * V))) : list (elem * (K * V)) :=
  filter (λ x, x.1 ≠ e) l.

(** [item.Value.( *lruEntry).value = value] *)
Definition setValue (e : elem) (v : V) (l : list (elem * (K * V))) : list (elem * (K * V)) :=
  (λ x, if decide (x.1 = e) then (x.1, (x.2.1, v)) else x) <$> l.

Definition valueOf (e : elem) (l : list (elem * (K * V))) : option V :=
  match filter (λ x, x.1 = e) l with
  | (_, (_, v)) :: _ => Some v
  | [] => None
  end.

(** ** The cache *)

Definition removeOldest (c : lruCache) : lruCache :=
  match last (items c) with
  | None => c
  | Some (e, (k, _)) =>
      LruCache (capacity c) (delete k (entries c)) (remove e (items c)) (next c)
  end.

Definition Add (c : lruCache) (key : K) (value : V) : lruCache * bool :=
  match entries c !! key with
  | Some item =>
      (LruCache (capacity c) (entries c)
         (moveToFront item (setValue item value (items c))) (next c), false)
  | None =>
      let c' := LruCache (capacity c) (<[key := next c]> (entries c))
                  ((next c, (key, value)) :: items c) (S (next c)) in
      if Z.of_nat (length (items c')) <=? capacity c' then (c', false)
      else (removeOldest c', true)
  end.

Definition Get (c : lruCache) (key : K) : lruCache * option V :=
  match entries c !! key with
  | None => (c, None)
  | Some item =>
      (LruCache (capacity c) (entries c) (moveToFront item (items c)) (next c),
       valueOf item (items c))
  end.

(** ** Invariant *)

Record inv (c : lruCache) : Prop := {
  inv_cap : 0 < capacity c;
  inv_len : Z.of_nat (length (items c)) ≤ capacity c;
  inv_ids : NoDup (items c).*1;
  inv_next : ∀ e x, (e, x) ∈ items c → (e < next c)%nat;
  inv_entries : ∀ k e, entries c !! k = Some e ↔ ∃ v, (e, (k, v)) ∈ items c
}.

(** ** The abstract cache: a list of distinct keys, most recent first *)

Definition abs (c : lruCache) : list (K * V) := (items c).*2.

Definition without (k : K) (l : list (K * V)) : list (K * V) := filter (λ x, x.1 ≠ k) l.
Definition assoc (k : K) (l : list (K * V)) : option V :=
  snd <$> head (filter (λ x, x.1 = k) l).

Definition spec_get (k : K) (l : list (K * V)) : list (K * V) :=
  match assoc k l with Some v => (k, v) :: without k l | None => l end.
Definition spec_add (cap : nat) (k : K) (v : V) (l : list (K * V)) : list (K * V) * bool :=
  (take cap ((k, v) :: without k l),
   bool_decide (assoc k l = None ∧ (cap ≤ length l)%nat)).

(** ** Lemmas *)

Lemma new_inv cap c : newLRUCache cap = Some c → inv c ∧ abs c = [].
Proof.
  unfold newLRUCache. destruct (Z.leb_spec cap 0); [done|]. intros [= <-].
  split; [|done]. split; simpl; [lia|lia|constructor|set_solver|].
  intros k e. rewrite lookup_empty. set_solver.
Qed.

Lemma filter_id_elem (l : list (elem * (K * V))) e x :
  NoDup l.*1 → (e, x) ∈ l → filter (λ y, y.1 = e) l = [(e, x)].
Proof.
  induction l as [|[e' x'] l IH]; csimpl; [set_solver|].
  intros [Hn Hnd]%NoDup_cons [Heq|Hin]%elem_of_cons.
  - simplify_eq. rewrite filter_cons_True by done. f_equal.
    apply filter_none, Forall_forall. intros [e2 x2] Hin ?; simpl in *; subst.
    apply Hn. apply list_elem_of_fmap. by exists (e', x2).
  - rewrite filter_cons_False; [by apply IH|]. simpl. intros ->. apply Hn.
    apply list_elem_of_fmap. by exists (e, x).
Qed.

Lemma inv_unique_key c k e1 v1 e2 v2 :
  inv c → (e1, (k, v1)) ∈ items c → (e2, (k, v2)) ∈ items c → e1 = e2 ∧ v1 = v2.
Proof.
  intros Hc H1 H2.
  assert (entries c !! k = Some e1) as He1 by (apply inv_entries; eauto).
  assert (entries c !! k = Some e2) as He2 by (apply inv_entries; eauto). simplify_eq.
  pose proof (filter_id_elem _ _ _ (inv_ids _ Hc) H1) as Hf1.
  pose proof (filter_id_elem _ _ _ (inv_ids _ Hc) H2) as Hf2. rewrite Hf1 in Hf2. by simplify_eq.
Qed.

Lemma abs_NoDup c : inv c → NoDup (abs c).*1.
Proof.
  intros Hc. unfold abs. rewrite <-list_fmap_compose. apply NoDup_fmap_2_strong.
  - intros [e1 [k1 v1]] [e2 [k2 v2]] H1 H2. simpl. intros ->.
    destruct (inv_unique_key c k2 e1 v1 e2 v2) as [-> ->]; done.
  - eapply NoDup_fmap_1, inv_ids. done.
Qed.

(** The list around the element of a key that is present. *)
Lemma inv_split c k e :
  inv c → entries c !! k = Some e →
  ∃ v l1 l2, items c = l1 ++ (e, (k, v)) :: l2 ∧
             Forall (λ x, x.1 ≠ e ∧ x.2.1 ≠ k) (l1 ++ l2).
Proof.
  intros Hc He. destruct (proj1 (inv_entries _ Hc k e) He) as [v Hin].
  destruct (list_elem_of_split _ _ Hin) as (l1 & l2 & Hl). exists v, l1, l2. split; [done|].
  pose proof (inv_ids _ Hc) as Hnd. rewrite Hl, fmap_app, fmap_cons in Hnd.
  apply Forall_forall. intros [e' [k' v']] Hx. simpl.
  assert ((e', (k', v')) ∈ items c) as Hx' by (rewrite Hl; set_solver).
  assert (e' ≠ e) as Hne.
  { intros ->. apply NoDup_app in Hnd as (_ & Hnd1 & [Hnd2 _]%NoDup_cons). simpl in *.
    apply elem_of_app in Hx as [Hx|Hx].
    - apply (Hnd1 e); [|set_solver]. apply list_elem_of_fmap. by exists (e, (k', v')).
    - apply Hnd2. apply list_elem_of_fmap. by exists (e, (k', v')). }
  split; [done|]. intros ->. by destruct (inv_unique_key c k e' v' e v) as [-> _].
Qed.

Section Present.
Context (e : elem) (k : K) (v : V) (l1 l2 : list (elem * (K * V))).
Hypothesis Hne : Forall (λ x, x.1 ≠ e ∧ x.2.1 ≠ k) (l1 ++ l2).

Lemma moveToFront_split : moveToFront e (l1 ++ (e, (k, v)) :: l2) = (e, (k, v)) :: l1 ++ l2.
Proof using Hne.
  unfold moveToFront. rewrite !filter_app, filter_cons_True, filter_cons_False by naive_solver.
  apply Forall_app in Hne as [H1 H2].
  rewrite !(filter_none (λ x, x.1 = e)) by (eapply Forall_impl; [done|]; naive_solver).
  by rewrite !filter_all by (eapply Forall_impl; [done|]; naive_solver).
Qed.

Lemma setValue_split w : setValue e w (l1 ++ (e, (k, v)) :: l2) = l1 ++ (e, (k, w)) :: l2.
Proof using Hne.
  apply Forall_app in Hne as [H1 H2]. unfold setValue. rewrite fmap_app. csimpl.
  rewrite decide_True by done.
  assert (∀ l, Forall (λ x : elem * (K * V), x.1 ≠ e ∧ x.2.1 ≠ k) l →
    (λ x, if decide (x.1 = e) then (x.1, (x.2.1, w)) else x) <$> l = l) as Hid.
  { intros l Hl. rewrite <-(list_fmap_id l) at 2. apply Forall_fmap_ext_1.
    eapply Forall_impl; [done|]. simpl. intros x [??]. by rewrite decide_False. }
  by rewrite !Hid.
Qed.

Lemma valueOf_split : valueOf e (l1 ++ (e, (k, v)) :: l2) = Some v.
Proof using Hne.
  unfold valueOf. rewrite filter_app, filter_cons_True by done.
  apply Forall_app in Hne as [H1 H2].
  by rewrite filter_none by (eapply Forall_impl; [done|]; naive_solver).
Qed.

Lemma without_split : without k (l1 ++ (e, (k, v)) :: l2).*2 = (l1 ++ l2).*2.
Proof using Hne.
  unfold without. rewrite !fmap_app. csimpl. rewrite filter_app, filter_cons_False by naive_solver.
  apply Forall_app in Hne as [H1 H2].
  by rewrite !filter_all by (apply Forall_fmap; eapply Forall_impl; [done|]; naive_solver).
Qed.

Lemma assoc_split : assoc k (l1 ++ (e, (k, v)) :: l2).*2 = Some v.
Proof using Hne.
  unfold assoc. rewrite fmap_app. csimpl. rewrite filter_app, filter_cons_True by done.
  apply Forall_app in Hne as [H1 H2].
  by rewrite filter_none by (apply Forall_fmap; eapply Forall_impl; [done|]; naive_solver).
Qed.
End Present.

Lemma absent_keys c k :
  inv c → entries c !! k = None → Forall (λ x, x.1 ≠ k) (abs c).
Proof.
  intros Hc Hk. apply Forall_forall. intros [k' v] Hin. simpl. intros ->.
  apply list_elem_of_fmap in Hin as ([e [k' v']] & Heq & Hin). simplify_eq/=.
  assert (entries c !! k' = Some e) by (apply inv_entries; eauto). congruence.
Qed.

Lemma assoc_absent c k : inv c → entries c !! k = None → assoc k (abs c) = None.
Proof.
  intros Hc Hk. unfold assoc.
  by rewrite filter_none by (eapply Forall_impl; [by eapply absent_keys|]; naive_solver).
Qed.

Lemma without_absent c k : inv c → entries c !! k = None → without k (abs c) = abs c.
Proof. intros Hc Hk. apply filter_all. by apply absent_keys. Qed.

Lemma length_abs c : length (abs c) = length (items c).
Proof. apply length_fmap. Qed.

(** Reordering the elements, or changing the value of one, keeps the invariant. *)
Lemma inv_reorder c l :
  inv c → (l.*1) ≡ₚ (items c).*1 → (∀ e k, (∃ v, (e, (k, v)) ∈ l) ↔ ∃ v, (e, (k, v)) ∈ items c) →
  inv (LruCache (capacity c) (entries c) l (next c)).
Proof.
  intros Hc Hp Hkeys. split; simpl.
  - by apply inv_cap.
  - rewrite <-(length_fmap fst), Hp, length_fmap. by apply inv_len.
  - rewrite Hp. by apply inv_ids.
  - intros e [k v] Hin. destruct (proj1 (Hkeys e k)) as [v' ?]; [eauto|]. by eapply inv_next.
  - intros k e. rewrite (inv_entries _ Hc). by rewrite Hkeys.
Qed.

(** *** [Get] *)

Lemma Get_refines c k :
  inv c →
  inv (Get c k).1 ∧ abs (Get c k).1 = spec_get k (abs c) ∧ (Get c k).2 = assoc k (abs c).
Proof.
  intros Hc. unfold Get, spec_get. destruct (entries c !! k) as [e|] eqn:He; simpl.
  - destruct (inv_split c k e Hc He) as (v & l1 & l2 & Hl & Hne).
    unfold abs. simpl. rewrite Hl.
    rewrite moveToFront_split, valueOf_split, assoc_split, without_split by done.
    split; [|done]. apply inv_reorder; [done| |].
    + rewrite Hl. by rewrite Permutation_middle.
    + intros e' k'. rewrite Hl. set_solver.
  - by rewrite assoc_absent.
Qed.

(** *** [Add] *)

Lemma Add_present c k v e :
  inv c → entries c !! k = Some e →
  inv (Add c k v).1 ∧ abs (Add c k v).1 = (k, v) :: without k (abs c) ∧ (Add c k v).2 = false ∧
  (length (without k (abs c)) < length (abs c))%nat ∧ assoc k (abs c) ≠ None.
Proof.
  intros Hc He. unfold Add. rewrite He.
  destruct (inv_split c k e Hc He) as (v0 & l1 & l2 & Hl & Hne). unfold abs. simpl. rewrite Hl.
  rewrite setValue_split, moveToFront_split, without_split, assoc_split by done.
  split_and!; [|done|done| |done].
  - apply inv_reorder; [done| |].
    + rewrite Hl, !fmap_app. csimpl. rewrite fmap_app. solve_Permutation.
    + intros e' k'. rewrite Hl. split; intros [v' Hin].
      * apply elem_of_cons in Hin as [Heq|Hin]; [simplify_eq; exists v0; set_solver|].
        exists v'. set_solver.
      * apply elem_of_app in Hin as [Hin|[Heq|Hin]%elem_of_cons];
          [exists v'; set_solver|simplify_eq; exists v; set_solver|exists v'; set_solver].
  - rewrite !length_fmap, !length_app. simpl. lia.
Qed.

(** The cache after [PushFront] of a fresh key, before any eviction. *)
Definition pushed (c : lruCache) (k : K) (v : V) : lruCache :=
  LruCache (capacity c) (<[k := next c]> (entries c)) ((next c, (k, v)) :: items c) (S (next c)).

Lemma pushed_entries c k v :
  inv c → entries c !! k = None →
  NoDup (items (pushed c k v)).*1 ∧
  (∀ e x, (e, x) ∈ items (pushed c k v) → (e < next (pushed c k v))%nat) ∧
  (∀ k' e, entries (pushed c k v) !! k' = Some e ↔ ∃ v', (e, (k', v')) ∈ items (pushed c k v)).
Proof.
  intros Hc Hk. unfold pushed; simpl. split_and!.
  - apply NoDup_cons. split; [|by apply inv_ids].
    intros ([e x] & Heq & Hin)%list_elem_of_fmap. simplify_eq/=.
    apply (inv_next _ Hc) in Hin. lia.
  - intros e x [Heq|Hin]%elem_of_cons; [simplify_eq; lia|]. apply (inv_next _ Hc) in Hin. lia.
  - intros k' e. rewrite lookup_insert. case_decide as Hd.
    + subst k'. split; [intros [= <-]; exists v; set_solver|].
      intros [v' [Heq|Hin]%elem_of_cons]; [by simplify_eq|].
      assert (entries c !! k = Some e) by (apply inv_entries; eauto). congruence.
    + rewrite (inv_entries _ Hc). split; intros [v' Hin]; exists v'; [set_solver|].
      apply elem_of_cons in Hin as [Heq|Hin]; [congruence|done].
Qed.

Lemma removeOldest_inv c l e k v :
  0 < capacity c → Z.of_nat (length l) ≤ capacity c →
  items c = l ++ [(e, (k, v))] → NoDup (items c).*1 →
  (∀ e x, (e, x) ∈ items c → (e < next c)%nat) →
  (∀ k e, entries c !! k = Some e ↔ ∃ v, (e, (k, v)) ∈ items c) →
  inv (removeOldest c) ∧ items (removeOldest c) = l.
Proof.
  intros Hcap Hlen Hl Hnd Hnext Hent.
  assert (Forall (λ x : elem * (K * V), x.1 ≠ e) l) as Hall.
  { rewrite Hl, fmap_app in Hnd. apply NoDup_app in Hnd as (_ & Hd & _).
    apply Forall_forall. intros [e' x] Hin. simpl. intros ->. apply (Hd e); [|set_solver].
    apply list_elem_of_fmap. by exists (e, x). }
  assert (items (removeOldest c) = l) as Hitems.
  { unfold removeOldest. rewrite Hl, last_snoc. simpl. unfold remove.
    rewrite filter_app, filter_cons_False by naive_solver.
    by rewrite filter_all, app_nil_r. }
  split; [|done]. split.
  - unfold removeOldest. by rewrite Hl, last_snoc.
  - rewrite Hitems. unfold removeOldest. by rewrite Hl, last_snoc.
  - rewrite Hitems. rewrite Hl, fmap_app in Hnd. by apply NoDup_app in Hnd as [? _].
  - rewrite Hitems. intros e' x Hin. unfold removeOldest. rewrite Hl, last_snoc. simpl.
    apply (Hnext e' x). rewrite Hl. set_solver.
  - rewrite Hitems. intros k' e'. unfold removeOldest. rewrite Hl, last_snoc. simpl.
    rewrite lookup_delete_Some, Hent, Hl. split.
    + intros [Hk [v' [Hin|Hin]%elem_of_app]]; [by eauto|]. set_solver.
    + intros [v' Hin]. split; [|exists v'; set_solver]. intros <-.
      assert (entries c !! k = Some e') as He1 by (apply Hent; exists v'; rewrite Hl; set_solver).
      assert (entries c !! k = Some e) as He2 by (apply Hent; exists v; rewrite Hl; set_solver).
      simplify_eq. rewrite Forall_forall in Hall. by apply (Hall _ Hin).
Qed.

Lemma Add_absent c k v :
  inv c → entries c !! k = None →
  inv (Add c k v).1 ∧ abs (Add c k v).1 = take (Z.to_nat (capacity c)) ((k, v) :: abs c) ∧
  (Add c k v).2 = bool_decide (Z.to_nat (capacity c) ≤ length (abs c))%nat.
Proof.
  intros Hc Hk. pose proof (pushed_entries c k v Hc Hk) as (Hnd & Hnext & Hent).
  pose proof (inv_len _ Hc). pose proof (inv_cap _ Hc).
  unfold Add. rewrite Hk. fold (pushed c k v).
  change (capacity (pushed c k v)) with (capacity c).
  change (length (items (pushed c k v))) with (S (length (items c))).
  destruct (Z.leb_spec (Z.of_nat (S (length (items c)))) (capacity c)) as [Hle|Hgt]; simpl.
  - split_and!.
    + split; simpl; done.
    + rewrite take_ge; [done|]. simpl. rewrite length_abs. lia.
    + rewrite bool_decide_eq_false_2; [done|]. rewrite length_abs. lia.
  - destruct (exists_last (l := items (pushed c k v))) as (l & [e [k0 v0]] & Hl); [done|].
    assert (length l = Z.to_nat (capacity c)) as Hll.
    { assert (length (items (pushed c k v)) = S (length l)) as Hlen
        by (rewrite Hl, length_app; simpl; lia). simpl in Hlen. lia. }
    destruct (removeOldest_inv (pushed c k v) l e k0 v0) as [Hinv Hitems]; try done.
    { simpl. lia. }
    split_and!; [done| |].
    + change ((k, v) :: abs c) with (items (pushed c k v)).*2. unfold abs. rewrite Hitems, Hl.
      by rewrite fmap_app, take_app_length' by (by rewrite length_fmap).
    + rewrite bool_decide_eq_true_2; [done|]. rewrite length_abs. lia.
Qed.

(** The cache implements the abstract recency list: both operations compute
    the abstract result on every branch, evictions included. *)
Lemma Add_refines c k v :
  inv c →
  inv (Add c k v).1 ∧
  (abs (Add c k v).1, (Add c k v).2) = spec_add (Z.to_nat (capacity c)) k v (abs c).
Proof.
  intros Hc. destruct (entries c !! k) as [e|] eqn:He.
  - destruct (Add_present c k v e Hc He) as (Hi & -> & -> & Hlt & Hsome). split; [done|].
    unfold spec_add. pose proof (inv_len _ Hc). pose proof (length_abs c). f_equal.
    + rewrite take_ge; [done|]. simpl. lia.
    + rewrite bool_decide_eq_false_2; [done|]. naive_solver.
  - destruct (Add_absent c k v Hc He) as (Hi & -> & ->). split; [done|]. unfold spec_add.
    rewrite without_absent by done. f_equal. apply bool_decide_ext.
    rewrite assoc_absent by done. naive_solver.
Qed.

(** ** The views of the abstract list *)

Lemma assoc_cons k k' v (l : list (K * V)) :
  assoc k' ((k, v) :: l) = if decide (k = k') then Some v else assoc k' l.
Proof.
  unfold assoc. case_decide.
  - by rewrite filter_cons_True.
  - by rewrite filter_cons_False.
Qed.

Lemma assoc_without k k' (l : list (K * V)) : k ≠ k' → assoc k' (without k l) = assoc k' l.
Proof.
  intros Hk. induction l as [|[k0 v0] l IH]; [done|]. unfold without. rewrite filter_cons.
  simpl. case_decide as Hd; fold (without k l).
  - by rewrite !assoc_cons, IH.
  - rewrite IH, assoc_cons, decide_False; [done|]. naive_solver.
Qed.

Lemma assoc_take n k (l : list (K * V)) :
  assoc k (take n l) = assoc k l ∨ assoc k (take n l) = None.
Proof.
  revert l. induction n as [|n IH]; intros [|[k0 v0] l]; simpl; [by left|by right|by left|].
  rewrite !assoc_cons. case_decide; [by left|apply IH].
Qed.

Lemma assoc_spec_get k k' (l : list (K * V)) : assoc k' (spec_get k l) = assoc k' l.
Proof.
  unfold spec_get. destruct (assoc k l) as [v|] eqn:Hv; [|done].
  rewrite assoc_cons. case_decide as Hd; [by subst|]. by apply assoc_without.
Qed.

Lemma Get_capacity c k : capacity (Get c k).1 = capacity c.
Proof. unfold Get. by case_match. Qed.
Lemma Add_capacity c k v : capacity (Add c k v).1 = capacity c.
Proof.
  unfold Add. case_match; [done|]. case_match; [done|]. simpl.
  unfold removeOldest. simpl. by repeat case_match.
Qed.

#[global] Program Instance lru_store : Store K V lruCache := {|
  st_inv := inv;
  st_view c k := assoc k (abs c);
  st_size c := length (items c);
  st_capacity := capacity;
  st_add := Add;
  st_get := Get
|}.
Next Obligation. intros c k Hc. by destruct (Get_refines c k Hc) as (_ & _ & ->). Qed.
Next Obligation.
  intros c k k' Hc. destruct (Get_refines c k Hc) as (_ & -> & _). apply assoc_spec_get.
Qed.
Next Obligation. intros c k Hc. by destruct (Get_refines c k Hc). Qed.
Next Obligation. intros c k v Hc. by destruct (Add_refines c k v Hc). Qed.
Next Obligation.
  intros c k v Hc. destruct (Add_refines c k v Hc) as [_ [= -> _]].
  pose proof (inv_cap _ Hc). destruct (Z.to_nat (capacity c)) eqn:?; [lia|]. simpl.
  by rewrite assoc_cons, decide_True.
Qed.
Next Obligation.
  intros c k v k' Hc Hk. destruct (Add_refines c k v Hc) as [_ [= -> _]].
  pose proof (assoc_take (Z.to_nat (capacity c)) k' ((k, v) :: without k (abs c))) as [->| ->];
    [left|by right].
  by rewrite assoc_cons, decide_False, assoc_without.
Qed.
Next Obligation.
  intros c k v k' Hc Hk Hev. destruct (Add_refines c k v Hc) as [_ [= Habs Hflag]].
  rewrite Habs. rewrite Hev in Hflag. symmetry in Hflag. apply bool_decide_eq_false in Hflag.
  rewrite take_ge; [by rewrite assoc_cons, decide_False, assoc_without|]. simpl.
  pose proof (inv_len _ Hc). pose proof (length_abs c).
  destruct (entries c !! k) as [e|] eqn:He.
  - destruct (Add_present c k v e Hc He) as (_ & _ & _ & ? & _). lia.
  - rewrite without_absent by done. rewrite assoc_absent in Hflag by done.
    destruct (decide (Z.to_nat (capacity c) ≤ length (abs c))%nat); [naive_solver|lia].
Qed.
Next Obligation. intros c Hc. by apply inv_len. Qed.
Next Obligation. apply Get_capacity. Qed.
Next Obligation. apply Add_capacity. Qed.

(** ** Sequences of calls *)

Inductive call := CAdd (k : K) (v : V) | CGet (k : K).
Inductive reply := RAdd (evicted : bool) | RGet (v : option V).

Definition step (c : lruCache) (o : call) : lruCache * reply :=
  match o with
  | CAdd k v => let r := Add c k v in (r.1, RAdd r.2)
  | CGet k => let r := Get c k in (r.1, RGet r.2)
  end.
Definition spec_step (cap : nat) (l : list (K * V)) (o : call) : list (K * V) * reply :=
  match o with
  | CAdd k v => let r := spec_add cap k v l in (r.1, RAdd r.2)
  | CGet k => (spec_get k l, RGet (assoc k l))
  end.

Fixpoint run {T} (f : T → call → T * reply) (c : T) (os : list call) : T * list reply :=
  match os with
  | [] => (c, [])
  | o :: os => let r := f c o in let rs := run f r.1 os in (rs.1, r.2 :: rs.2)
  end.

Lemma step_refines c o :
  inv c → inv (step c o).1 ∧ capacity (step c o).1 = capacity c ∧
  (abs (step c o).1, (step c o).2) = spec_step (Z.to_nat (capacity c)) (abs c) o.
Proof.
  intros Hc. destruct o as [k v|k].
  - destruct (Add_refines c k v Hc) as [Hi Heq]. split_and!; [done|apply Add_capacity|].
    unfold spec_step. cbv zeta. rewrite <-Heq. done.
  - simpl. destruct (Get_refines c k Hc) as (Hi & -> & ->). split_and!; [done|apply Get_capacity|done].
Qed.

Lemma run_refines c os :
  inv c → inv (run step c os).1 ∧
  (abs (run step c os).1, (run step c os).2) =
    run (spec_step (Z.to_nat (capacity c))) (abs c) os.
Proof.
  revert c. induction os as [|o os IH]; intros c Hc; simpl; [done|].
  destruct (step_refines c o Hc) as (Hi & Hcap & Heq). destruct (IH _ Hi) as [Hi' Heq'].
  rewrite Hcap in Heq'. split; [done|]. rewrite <-Heq. cbn [fst snd]. by rewrite <-Heq'.
Qed.

(** C32: started empty, the cache answers every sequence of [Add] and [Get] calls
    like a list of distinct keys ordered by recency and cut at the capacity,
    evictions reported included, and never holds more than its capacity. *)
Theorem lru_refines_recency_list cap c os :
  newLRUCache cap = Some c →
  (run step c os).2 = (run (spec_step (Z.to_nat cap)) [] os).2 ∧
  Z.of_nat (length (items (run step c os).1)) ≤ cap.
Proof.
  intros Hnew. destruct (new_inv cap c Hnew) as [Hi Habs].
  destruct (run_refines c os Hi) as [Hi' Heq].
  assert (capacity c = cap) as Hcap.
  { unfold newLRUCache in Hnew. case_match; [done|]. by simplify_eq. }
  rewrite Habs, Hcap in Heq. split; [by rewrite <-Heq|].
  rewrite <-Hcap. assert (capacity (run step c os).1 = capacity c) as <-.
  { clear. revert c. induction os as [|o os IH]; intros c; simpl; [done|]. rewrite IH.
    destruct o; [apply Add_capacity|apply Get_capacity]. }
  by apply inv_len.
Qed.

End Lru.
Arguments lruCache : clear implicits.
Arguments lruCache _ _ {_ _}.

(** Three insertions into a cache of two: the key read in between survives. *)
Lemma lru_refines_recency_list_witness :
  (run step (LruCache 2 ∅ [] 0%nat)
     [CAdd "a" 1; CAdd "b" 2; CGet "a"; CAdd "c" 3; CGet "b"; CGet "a"]).2 =
  [RAdd false; RAdd false; RGet (Some 1); RAdd true; RGet None; RGet (Some 1)] ∧
  Z.of_nat (length (items (run step (LruCache 2 ∅ [] 0%nat)
     [CAdd "a" 1; CAdd "b" 2; CGet "a"; CAdd "c" 3; CGet "b"; CGet "a"]).1)) ≤ 2.
Proof.
  destruct (lru_refines_recency_list 2 (LruCache (K := string) (V := Z) 2 ∅ [] 0%nat)
    [CAdd "a" 1; CAdd "b" 2; CGet "a"; CAdd "c" 3; CGet "b"; CGet "a"] eq_refl) as [H1 H2].
  split; [rewrite H1; vm_compute; reflexivity|exact H2].
Defined.

End Lru.
