(* ===== verification/Queue.v ===== *)
(** * Request aggregation: [pkg/server/trailing_delay_queue.go]

    Submitted requests are held for a delay; a later request with the same
    hash restarts the delay and supersedes the earlier one.  Results are kept
    in a bounded store by hash.

    The queue is a step relation over one shared state: the methods that hold
    the mutex are single steps, and so are the three phases of a timer's
    goroutine (the timer fires, the handler returns, the locked section that
    records the result).  The steps interleave freely.  [*Completion] and
    [*time.Timer] are compared as pointers by the code, so they are identities
    here, with the completions in a heap. *)

From S2P Require Import Prelude GoStrings Lru.
Open Scope Z_scope.

Module Queue.

Definition RequestHistorySize : Z := 100.
Definition StatusOK : Z := 200.
Definition StatusAccepted : Z := 202.
Definition StatusNotFound : Z := 404.

Abbreviation entry := nat (only parsing).
Abbreviation timer := nat (only parsing).

(** [httperr.Error] *)
Record Error := NewError { Code : Z; Msg : string }.

Section Queue.
(** [item]: what is submitted; [data]: what the handler returns. *)
Context {item data : Type}.
(** [Hashable.Hash] of the submitted item; [None]: it returned an error. *)
Context (Hash : item → option string).
(** The store of completions by hash. *)
Context {T : Type} `{Store string entry T} `{RangeOrder}.

Record Completion := MkCompletion {
  Ret : option data;
  Status : Z;
  Message : string
}.

(** A timer and the closure [time.AfterFunc] runs for it. *)
Inductive phase :=
| Pending                              (* the delay runs *)
| Running                              (* the handler was called *)
| Handled (r : result Error data).     (* the handler returned *)

Record job := MkJob {
  j_hash : string;
  j_item : item;
  j_entry : entry;
  j_phase : phase
}.

Record queue := MkQueue {
  timers : gmap string timer;          (* q.timers *)
  store : T;                           (* q.store *)
  heap : gmap entry Completion;        (* what the *Completion values point to *)
  jobs : gmap timer job;               (* live timers and goroutines *)
  alloc : nat;                         (* next fresh pointer *)
  closed : bool                        (* q.shutdown is closed *)
}.

Definition newQueue (s : T) : queue := MkQueue ∅ s ∅ ∅ 0 false.

Definition set_phase (p : phase) (j : job) : job :=
  MkJob (j_hash j) (j_item j) (j_entry j) p.

(** [timer.Stop()]: a timer that has not fired never will; one that has is
    not affected. *)
Definition stop (t : timer) (js : gmap timer job) : gmap timer job :=
  match js !! t with
  | Some (MkJob _ _ _ Pending) => delete t js
  | _ => js
  end.

(** ** The methods *)

Definition created (hash : string) : Completion :=
  MkCompletion None StatusAccepted ("request ID " +:+ hash +:+ " has been created").

Definition Submit (q : queue) (it : item) : queue * option string :=
  match Hash it with
  | None => (q, None)
  | Some hash =>
      let e := alloc q in
      let t := S (alloc q) in
      let js := match timers q !! hash with
                | Some t0 => stop t0 (jobs q)
                | None => jobs q
                end in
      (MkQueue (<[hash := t]> (timers q))
         (st_add (store q) hash e).1
         (<[e := created hash]> (heap q))
         (<[t := MkJob hash it e Pending]> js)
         (S (S (alloc q))) (closed q),
       Some hash)
  end.

Definition notFound (hash : string) : Completion :=
  MkCompletion None StatusNotFound ("request ID " +:+ hash +:+ " not found").

(** Returns a copy of the completion. *)
Definition Get (q : queue) (hash : string) : queue * Completion :=
  let r := st_get (store q) hash in
  (MkQueue (timers q) r.1 (heap q) (jobs q) (alloc q) (closed q),
   match r.2 ≫= λ e, heap q !! e with
   | Some c => c
   | None => notFound hash
   end).

(** What the locked section writes to the entry. *)
Definition record_result (r : result Error data) (c : Completion) : Completion :=
  match r with
  | Ok d => MkCompletion (Some d) StatusOK (Message c)
  | Err e => MkCompletion (Ret c) (Code e) (Msg e)
  end.

Definition finish (q : queue) (t : timer) (j : job) (r : result Error data) : queue :=
  let hash := j_hash j in
  let g := st_get (store q) hash in
  let '(s, h) :=
    if decide (g.2 = Some (j_entry j)) then
      ((st_add g.1 hash (j_entry j)).1, alter (record_result r) (j_entry j) (heap q))
    else (g.1, heap q) in
  MkQueue
    (if decide (timers q !! hash = Some t) then delete hash (timers q) else timers q)
    s h (delete t (jobs q)) (alloc q) (closed q).

(** The [run] goroutine, woken by [close(q.shutdown)], stops every timer of
    the map. *)
Definition stopAll (q : queue) : gmap timer job :=
  foldl (λ js kv, stop kv.2 js) (jobs q) (range (timers q)).
Definition Shutdown (q : queue) : queue :=
  MkQueue (timers q) (store q) (heap q) (stopAll q) (alloc q) true.

(** ** Interleaved execution *)

Inductive label :=
| LSubmit (it : item) (ret : option string)
| LGet (hash : string) (ret : Completion)
| LFire (t : timer)
| LHandle (t : timer) (it : item) (r : result Error data)
| LFinish (t : timer)
| LShutdown.

Inductive step : queue → label → queue → Prop :=
| step_submit q it : step q (LSubmit it (Submit q it).2) (Submit q it).1
| step_get q hash : step q (LGet hash (Get q hash).2) (Get q hash).1
| step_fire q t j :
    jobs q !! t = Some j → j_phase j = Pending →
    step q (LFire t)
      (MkQueue (timers q) (store q) (heap q) (<[t := set_phase Running j]> (jobs q))
         (alloc q) (closed q))
| step_handle q t j r :
    jobs q !! t = Some j → j_phase j = Running →
    step q (LHandle t (j_item j) r)
      (MkQueue (timers q) (store q) (heap q) (<[t := set_phase (Handled r) j]> (jobs q))
         (alloc q) (closed q))
| step_finish q t j r :
    jobs q !! t = Some j → j_phase j = Handled r → step q (LFinish t) (finish q t j r)
| step_shutdown q : closed q = false → step q LShutdown (Shutdown q).

(** Executions with the list of events, latest first. *)
Inductive reach (q0 : queue) : list label → queue → Prop :=
| reach_nil : reach q0 [] q0
| reach_step tr q l q' : reach q0 tr q → step q l q' → reach q0 (l :: tr) q'.

(** The most recent submission for a hash, with the events since then. *)
Fixpoint cur (tr : list label) (h : string) : option (item * list label) :=
  match tr with
  | [] => None
  | l :: tr =>
      let later := (λ p : item * list label, (p.1, l :: p.2)) <$> cur tr h in
      match l with
      | LSubmit it (Some h') => if decide (h' = h) then Some (it, []) else later
      | _ => later
      end
  end.

(** ** Invariant *)

(** What a completion can be while [it] is the latest submission for [h]. *)
Definition completion_ok (h : string) (it : item) (since : list label) (c : Completion) : Prop :=
  c = created h ∨ ∃ t r, LHandle t it r ∈ since ∧ c = record_result r (created h).

Definition entry_ok (tr : list label) (q : queue) (h : string) (e : entry) : Prop :=
  ∃ it since c, cur tr h = Some (it, since) ∧ heap q !! e = Some c ∧
    completion_ok h it since c ∧
    ∀ t j, jobs q !! t = Some j → j_entry j = e →
      j_hash j = h ∧ j_item j = it ∧ c = created h ∧
      ∀ r, j_phase j = Handled r → LHandle t it r ∈ since.

Record inv (tr : list label) (q : queue) : Prop := {
  inv_store : st_inv (store q);
  inv_heap : ∀ e, is_Some (heap q !! e) → (e < alloc q)%nat;
  inv_jobs : ∀ t j, jobs q !! t = Some j → (t < alloc q)%nat ∧ (j_entry j < alloc q)%nat;
  inv_view : ∀ h e, st_view (store q) h = Some e → (e < alloc q)%nat ∧ entry_ok tr q h e;
  inv_view_inj : ∀ h h' e, st_view (store q) h = Some e → st_view (store q) h' = Some e → h = h';
  inv_entry_inj : ∀ t t' j j', jobs q !! t = Some j → jobs q !! t' = Some j' →
    j_entry j = j_entry j' → t = t';
  inv_pending : ∀ t j, jobs q !! t = Some j → j_phase j = Pending →
    timers q !! j_hash j = Some t
}.

Lemma stop_lookup t js t' :
  stop t js !! t' = js !! t' ∨ stop t js !! t' = None.
Proof.
  unfold stop. destruct (js !! t) as [[? ? ? []]|]; try by left.
  rewrite lookup_delete. case_decide; [by right|by left].
Qed.

Lemma stop_subseteq t js : stop t js ⊆ js.
Proof.
  apply map_subseteq_spec. intros t' j. destruct (stop_lookup t js t') as [->| ->]; done.
Qed.

Lemma stop_pending t js j : js !! t = Some j → j_phase j = Pending → stop t js !! t = None.
Proof.
  intros Hj Hp. unfold stop. rewrite Hj. destruct j as [? ? ? []]; try done.
  apply lookup_delete_eq.
Qed.

Lemma stopAll_subseteq q : stopAll q ⊆ jobs q.
Proof.
  unfold stopAll. apply (foldl_inv (λ js, js ⊆ jobs q)); [done|].
  intros js [k t] _ Hjs. etrans; [apply stop_subseteq|done].
Qed.

(** An event that is not a submission for [h] extends the events since. *)
Lemma cur_other l tr h :
  (∀ it, l ≠ LSubmit it (Some h)) →
  cur (l :: tr) h = (λ p : item * list label, (p.1, l :: p.2)) <$> cur tr h.
Proof.
  intros Hl. simpl. destruct l as [it [h'|]| | | | |]; try done.
  rewrite decide_False; [done|]. intros ->. by apply (Hl it).
Qed.

Lemma completion_ok_mono h it since l c :
  completion_ok h it since c → completion_ok h it (l :: since) c.
Proof. intros [?|(t & r & ? & ?)]; [by left|right]. exists t, r. set_solver. Qed.

(** The entry of a hash stays well-formed when the heap cell and the jobs of
    that entry are only removed or move on. *)
Lemma entry_ok_other l tr q q' h e :
  (∀ it, l ≠ LSubmit it (Some h)) →
  heap q' !! e = heap q !! e →
  (∀ t j', jobs q' !! t = Some j' → j_entry j' = e → ∃ j, jobs q !! t = Some j ∧
     j_entry j' = j_entry j ∧ j_hash j' = j_hash j ∧ j_item j' = j_item j ∧
     (∀ r, j_phase j' = Handled r → j_phase j = Handled r ∨ l = LHandle t (j_item j) r)) →
  entry_ok tr q h e → entry_ok (l :: tr) q' h e.
Proof.
  intros Hl Hheap Hjobs (it & since & c & Hcur & Hc & Hok & Hj).
  exists it, (l :: since), c. rewrite cur_other by done. rewrite Hcur, Hheap.
  split_and!; [done|done|by apply completion_ok_mono|].
  intros t j' Hj' He. destruct (Hjobs t j' Hj' He) as (j & Hjt & He' & Hh & Hi & Hph).
  destruct (Hj t j Hjt) as (Hh' & Hi' & Hcr & Hr); [congruence|]. split_and!; try congruence.
  intros r Hr'. destruct (Hph r Hr') as [Hold|Hnew]; [set_solver|]. subst. set_solver.
Qed.

Lemma inv_init s0 :
  st_inv s0 → (∀ h, st_view s0 h = None) → inv [] (newQueue s0).
Proof.
  intros Hs Hv. split; simpl; try done.
  - intros e. rewrite lookup_empty. by intros [].
  - intros h e. by rewrite Hv.
  - intros h h' e. by rewrite Hv.
Qed.

(** A step that leaves the views and the heap alone and only removes jobs or
    moves them to their next phase. *)
Lemma inv_jobs_step l tr q q' :
  (∀ h it, l ≠ LSubmit it (Some h)) →
  st_inv (store q') → (∀ h, st_view (store q') h = st_view (store q) h) →
  heap q' = heap q → alloc q' = alloc q →
  (∀ t j', jobs q' !! t = Some j' → ∃ j, jobs q !! t = Some j ∧
     j_entry j' = j_entry j ∧ j_hash j' = j_hash j ∧ j_item j' = j_item j ∧
     (j_phase j' = Pending → j_phase j = Pending ∧ timers q' !! j_hash j = timers q !! j_hash j) ∧
     (∀ r, j_phase j' = Handled r → j_phase j = Handled r ∨ l = LHandle t (j_item j) r)) →
  inv tr q → inv (l :: tr) q'.
Proof.
  intros Hl Hs Hv Hh Ha Hj Hi. split; rewrite ?Hh, ?Ha.
  - done.
  - apply Hi.
  - intros t j' Hj'. destruct (Hj t j' Hj') as (j & Hjt & -> & _). by eapply inv_jobs.
  - intros h e. rewrite Hv. intros He. destruct (inv_view _ _ Hi h e He) as [? Hok].
    split; [done|]. eapply entry_ok_other; [by intros; apply Hl|by rewrite Hh| |done].
    intros t j' Hj' _. destruct (Hj t j' Hj') as (j & ? & ? & ? & ? & _ & ?). by exists j.
  - intros h h' e. rewrite !Hv. by eapply inv_view_inj.
  - intros t t' j j' Hjt Hjt' Heq. destruct (Hj t j Hjt) as (j1 & H1 & He1 & _).
    destruct (Hj t' j' Hjt') as (j2 & H2 & He2 & _). eapply inv_entry_inj; [done..|congruence].
  - intros t j' Hj' Hp. destruct (Hj t j' Hj') as (j & Hjt & _ & -> & _ & Hpend & _).
    destruct (Hpend Hp) as [Hpj ->]. by eapply inv_pending.
Qed.

Lemma inv_get tr q hash : inv tr q → inv (LGet hash (Get q hash).2 :: tr) (Get q hash).1.
Proof.
  intros Hi. eapply inv_jobs_step; simpl; try done.
  - apply st_get_inv, Hi.
  - intros h. apply st_get_view, Hi.
  - intros t j' Hj'. exists j'. naive_solver.
Qed.

Lemma inv_phase tr q t j p l :
  jobs q !! t = Some j → p ≠ Pending → (∀ h it, l ≠ LSubmit it (Some h)) →
  (∀ r, p = Handled r → l = LHandle t (j_item j) r) →
  inv tr q →
  inv (l :: tr) (MkQueue (timers q) (store q) (heap q) (<[t := set_phase p j]> (jobs q))
                   (alloc q) (closed q)).
Proof.
  intros Hj Hp Hl Hr Hi. eapply inv_jobs_step; simpl; try done; [apply Hi|].
  intros t' j'. rewrite lookup_insert. case_decide as Hd.
  - intros [= <-]. subst t'. exists j. simpl. naive_solver.
  - intros Hj'. exists j'. naive_solver.
Qed.

Lemma inv_shutdown tr q : inv tr q → inv (LShutdown :: tr) (Shutdown q).
Proof.
  intros Hi. eapply inv_jobs_step; simpl; try done; [apply Hi|].
  intros t j' Hj'. exists j'. pose proof (stopAll_subseteq q) as Hsub.
  rewrite map_subseteq_spec in Hsub. specialize (Hsub t j' Hj'). naive_solver.
Qed.

Lemma inv_submit tr q it :
  inv tr q → inv (LSubmit it (Submit q it).2 :: tr) (Submit q it).1.
Proof.
  intros Hi. unfold Submit. destruct (Hash it) as [hash|]; simpl.
  2:{ eapply inv_jobs_step; try done; [apply Hi|]. intros t j' Hj'. exists j'. naive_solver. }
  set (js := match timers q !! hash with Some t0 => stop t0 (jobs q) | None => jobs q end).
  assert (∀ t j, js !! t = Some j → jobs q !! t = Some j) as Hjs.
  { intros t j. unfold js. destruct (timers q !! hash) as [t0|]; [|done].
    pose proof (stop_subseteq t0 (jobs q)) as Hs. rewrite map_subseteq_spec in Hs. apply Hs. }
  assert (∀ t j, js !! t = Some j → j_phase j = Pending → j_hash j ≠ hash) as Hpend.
  { intros t j Hj Hp <-. pose proof (Hjs _ _ Hj) as Hj0.
    pose proof (inv_pending _ _ Hi _ _ Hj0 Hp) as Ht. unfold js in Hj. rewrite Ht in Hj.
    by rewrite (stop_pending t (jobs q) j) in Hj. }
  split; simpl.
  - apply st_add_inv, Hi.
  - intros e. rewrite lookup_insert_is_Some. intros [<-|[_ He]]; [lia|].
    apply (inv_heap _ _ Hi) in He. lia.
  - intros t j. rewrite lookup_insert_Some. intros [[<- <-]|[_ Hj]]; simpl; [lia|].
    apply Hjs, (inv_jobs _ _ Hi) in Hj. lia.
  - intros h e Hv. destruct (decide (h = hash)) as [->|Hne].
    + rewrite st_add_view in Hv by apply Hi. simplify_eq. split; [lia|].
      exists it, [], (created hash). simpl. rewrite decide_True by done.
      rewrite lookup_insert_eq. split_and!; [done|done|by left|].
      intros t j. rewrite lookup_insert_Some. intros [[<- <-]|[_ Hj]] He; [by simpl|].
      apply Hjs, (inv_jobs _ _ Hi) in Hj. lia.
    + destruct (st_add_view_ne (store q) hash (alloc q) h) as [Hv'|Hv']; [apply Hi|done| |congruence].
      rewrite Hv' in Hv. destruct (inv_view _ _ Hi h e Hv) as [Hlt Hok]. split; [lia|].
      eapply entry_ok_other; [naive_solver|simpl; apply lookup_insert_ne; lia| |done].
      simpl. intros t j'. rewrite lookup_insert_Some. intros [[<- <-]|[_ Hj]] He; simpl in *; [lia|].
      exists j'. naive_solver.
  - intros h h' e Hv Hv'.
    assert (∀ h, st_view (st_add (store q) hash (alloc q)).1 h = Some e →
      h = hash ∧ e = alloc q ∨ st_view (store q) h = Some e ∧ (e < alloc q)%nat) as Hcase.
    { intros h0 Hh0. destruct (decide (h0 = hash)) as [->|Hne].
      - rewrite st_add_view in Hh0 by apply Hi. naive_solver.
      - right. destruct (st_add_view_ne (store q) hash (alloc q) h0) as [Hx|Hx];
          [apply Hi|done| |congruence]. rewrite Hx in Hh0.
        by destruct (inv_view _ _ Hi _ _ Hh0). }
    destruct (Hcase h Hv) as [[-> ->]|[? ?]], (Hcase h' Hv') as [[-> ?]|[? ?]]; try done; [lia|lia|].
    by eapply inv_view_inj.
  - intros t t' j j'. rewrite !lookup_insert_Some.
    intros [[<- <-]|[_ Hj]] [[<- <-]|[_ Hj']]; simpl; [done| | |].
    + apply Hjs, (inv_jobs _ _ Hi) in Hj'. lia.
    + apply Hjs, (inv_jobs _ _ Hi) in Hj. lia.
    + eapply inv_entry_inj; eauto.
  - intros t j. rewrite lookup_insert_Some. intros [[<- <-]|[_ Hj]] Hp; simpl.
    + apply lookup_insert_eq.
    + rewrite lookup_insert_ne by (apply not_eq_sym; by eapply Hpend). eapply inv_pending; eauto.
Qed.

Lemma inv_finish tr q t j r :
  jobs q !! t = Some j → j_phase j = Handled r →
  inv tr q → inv (LFinish t :: tr) (finish q t j r).
Proof.
  intros Hj Hph Hi. pose proof (inv_store _ _ Hi) as Hs.
  assert (∀ t' j', jobs q !! t' = Some j' → t' ≠ t → j_phase j' = Pending →
    (if decide (timers q !! j_hash j = Some t) then delete (j_hash j) (timers q) else timers q)
      !! j_hash j' = timers q !! j_hash j') as Htimers.
  { intros t' j' Hj' Hne Hp. case_decide as Hd; [|done].
    pose proof (inv_pending _ _ Hi _ _ Hj' Hp) as Ht'. rewrite lookup_delete_ne; [done|].
    intros Heq. congruence. }
  unfold finish. rewrite st_get_val by done.
  destruct (decide (st_view (store q) (j_hash j) = Some (j_entry j))) as [Hd|Hd].
  2:{ eapply inv_jobs_step; simpl; try done.
      - by apply st_get_inv.
      - intros h. by apply st_get_view.
      - intros t' j'. rewrite lookup_delete_Some. intros [Hne Hj']. exists j'. naive_solver. }
  set (hash := j_hash j) in *. set (e := j_entry j) in *. set (g := (st_get (store q) hash).1).
  assert (st_inv g) as Hg by (by apply st_get_inv).
  assert (∀ h, st_view g h = st_view (store q) h) as Hgv by (intros; by apply st_get_view).
  assert (∀ h e', st_view (st_add g hash e).1 h = Some e' → st_view (store q) h = Some e') as Hv.
  { intros h e' Hv. destruct (decide (hash = h)) as [<-|Hne].
    - rewrite st_add_view in Hv by done. congruence.
    - destruct (st_add_view_ne g hash e h) as [Hx|Hx]; [done|done| |congruence].
      by rewrite Hx, Hgv in Hv. }
  split; simpl.
  - by apply st_add_inv.
  - intros e'. rewrite lookup_alter_is_Some. apply Hi.
  - intros t' j' [_ Hj']%lookup_delete_Some. by eapply inv_jobs.
  - intros h e' He'. apply Hv in He'. destruct (inv_view _ _ Hi _ _ He') as [Hlt Hok].
    split; [done|]. destruct (decide (e' = e)) as [->|Hne].
    + assert (h = hash) as -> by (by eapply inv_view_inj).
      destruct Hok as (it & since & c & Hcur & Hc & _ & Hjobs).
      destruct (Hjobs t j Hj eq_refl) as (_ & Hit & -> & Hr).
      exists it, (LFinish t :: since), (record_result r (created hash)).
      rewrite cur_other by done. rewrite Hcur. simpl. rewrite lookup_alter_eq, Hc.
      split_and!; [done|done| |].
      * right. exists t, r. split; [|done]. apply elem_of_cons. right. by apply Hr.
      * intros t' j' [Hne Hj']%lookup_delete_Some He. exfalso. apply Hne.
        by eapply inv_entry_inj.
    + eapply entry_ok_other; [naive_solver|simpl; by apply lookup_alter_ne| |done].
      simpl. intros t' j' [_ Hj']%lookup_delete_Some _. exists j'. naive_solver.
  - intros h h' e' Hv1%Hv Hv2%Hv. by eapply inv_view_inj.
  - intros t1 t2 j1 j2 [_ H1]%lookup_delete_Some [_ H2]%lookup_delete_Some.
    by eapply inv_entry_inj.
  - intros t' j' [Hne Hj']%lookup_delete_Some Hp. rewrite (Htimers t' j') by done.
    by eapply inv_pending.
Qed.

Lemma inv_step tr q l q' : inv tr q → step q l q' → inv (l :: tr) q'.
Proof.
  intros Hi Hstep. destruct Hstep.
  - by apply inv_submit.
  - by apply inv_get.
  - by apply inv_phase.
  - apply inv_phase; naive_solver.
  - by apply inv_finish.
  - by apply inv_shutdown.
Qed.

Lemma reach_inv s0 tr q :
  st_inv s0 → (∀ h, st_view s0 h = None) → reach (newQueue s0) tr q → inv tr q.
Proof.
  intros Hs Hv Hr. induction Hr as [|tr q l q' Hr IH Hst]; [by apply inv_init|].
  by eapply inv_step.
Qed.

(** Jobs that are gone, with their number already allocated, never come back. *)
Lemma gone_step q l q' t :
  (t < alloc q)%nat → jobs q !! t = None → step q l q' →
  (t < alloc q')%nat ∧ jobs q' !! t = None ∧ ∀ it r, l ≠ LHandle t it r.
Proof.
  intros Hlt Hnone Hst. destruct Hst as [q it|q h|q t' j Hj Hp|q t' j r Hj Hp|q t' j r Hj Hp|q Hcl]; simpl.
  - unfold Submit. destruct (Hash it) as [h|]; simpl; [|done]. split_and!; [lia| |done].
    rewrite lookup_insert_ne by lia. destruct (timers q !! h) as [t0|]; [|done].
    destruct (stop_lookup t0 (jobs q) t) as [->| ->]; done.
  - done.
  - split_and!; [done| |done]. rewrite lookup_insert_ne; [done|]. intros ->. congruence.
  - split_and!; [done| |].
    + rewrite lookup_insert_ne; [done|]. intros ->. congruence.
    + intros it r' [= -> _ _]. congruence.
  - unfold finish. repeat case_decide; simpl; (split_and!; [done| |done]);
      rewrite lookup_delete; by case_decide.
  - split_and!; [done| |done]. destruct (stopAll q !! t) as [j|] eqn:Hj; [|done].
    pose proof (stopAll_subseteq q) as Hsub. rewrite map_subseteq_spec in Hsub.
    apply Hsub in Hj. congruence.
Qed.

Lemma gone_reach q tr q' t :
  (t < alloc q)%nat → jobs q !! t = None → reach q tr q' →
  (t < alloc q')%nat ∧ jobs q' !! t = None ∧ ∀ it r, LHandle t it r ∉ tr.
Proof.
  intros Hlt Hn Hr. induction Hr as [|tr q1 l q2 Hr (IH1 & IH2 & IH3) Hst]; [set_solver|].
  destruct (gone_step q1 l q2 t IH1 IH2 Hst) as (? & ? & Hl). split_and!; [done|done|].
  intros it r [Heq|Hin]%elem_of_cons; [by apply (Hl it r)|by eapply IH3].
Qed.

Lemma Get_ret tr q h :
  inv tr q →
  ((Get q h).2 = notFound h ∧ st_view (store q) h = None) ∨
  ∃ it since, cur tr h = Some (it, since) ∧ completion_ok h it since (Get q h).2.
Proof.
  intros Hi. unfold Get. simpl. rewrite st_get_val by apply Hi.
  destruct (st_view (store q) h) as [e|] eqn:Hv; [right|by left]. simpl.
  destruct (inv_view _ _ Hi h e Hv) as (_ & it & since & c & Hcur & -> & Hok & _). eauto.
Qed.

(** The locked section records the handler's result under the hash when the
    job's entry is still the stored one. *)
Lemma finish_Get tr q t j r :
  inv tr q → jobs q !! t = Some j → j_phase j = Handled r →
  st_view (store q) (j_hash j) = Some (j_entry j) →
  (Get (finish q t j r) (j_hash j)).2 = record_result r (created (j_hash j)).
Proof.
  intros Hi Hj Hp Hv.
  pose proof (inv_finish tr q t j r Hj Hp Hi) as Hi'.
  destruct (inv_view _ _ Hi _ _ Hv) as (_ & it & since & c & _ & Hc & _ & Hjobs).
  destruct (Hjobs t j Hj eq_refl) as (_ & _ & -> & _).
  unfold Get. simpl. rewrite st_get_val by apply Hi'.
  unfold finish. rewrite st_get_val by apply Hi.
  destruct (decide (st_view (store q) (j_hash j) = Some (j_entry j))); [|done]. simpl.
  rewrite st_add_view by (apply st_get_inv, Hi). simpl. by rewrite lookup_alter_eq, Hc.
Qed.

Lemma one_pending tr q t t' j j' :
  inv tr q → jobs q !! t = Some j → jobs q !! t' = Some j' →
  j_phase j = Pending → j_phase j' = Pending → j_hash j = j_hash j' → t = t'.
Proof.
  intros Hi Hj Hj' Hp Hp' Hh. pose proof (inv_pending _ _ Hi _ _ Hj Hp).
  pose proof (inv_pending _ _ Hi _ _ Hj' Hp'). congruence.
Qed.

(** The queue after the three phases of the timer that a submission started. *)
Definition run_job (q : queue) (t : timer) (r : result Error data) : queue :=
  match jobs q !! t with
  | None => q
  | Some j => finish
      (MkQueue (timers q) (store q) (heap q)
         (<[t := set_phase (Handled r) j]> (<[t := set_phase Running j]> (jobs q)))
         (alloc q) (closed q)) t (set_phase (Handled r) j) r
  end.

Lemma submit_run q it hash r tr :
  inv tr q → Hash it = Some hash →
  ∃ t tr', reach (Submit q it).1 tr' (run_job (Submit q it).1 t r) ∧
    (Get (run_job (Submit q it).1 t r) hash).2 = record_result r (created hash).
Proof.
  intros Hi Hh. pose proof (inv_submit tr q it Hi) as Hi1.
  set (q1 := (Submit q it).1) in *. set (t := S (alloc q)).
  set (j := MkJob hash it (alloc q) Pending).
  assert (jobs q1 !! t = Some j) as Hj.
  { unfold q1, Submit. rewrite Hh. simpl. apply lookup_insert_eq. }
  assert (st_view (store q1) hash = Some (alloc q)) as Hv.
  { unfold q1, Submit. rewrite Hh. simpl. apply st_add_view, Hi. }
  exists t. unfold run_job. rewrite Hj. clearbody q1.
  set (q2 := MkQueue (timers q1) (store q1) (heap q1) (<[t := set_phase Running j]> (jobs q1))
               (alloc q1) (closed q1)).
  set (q3 := MkQueue (timers q1) (store q1) (heap q1) (<[t := set_phase (Handled r) j]> (jobs q2))
               (alloc q1) (closed q1)).
  assert (step q1 (LFire t) q2) as S1 by (by apply step_fire).
  assert (step q2 (LHandle t it r) q3) as S2.
  { apply (step_handle q2 t (set_phase Running j) r); [apply lookup_insert_eq|done]. }
  assert (jobs q3 !! t = Some (set_phase (Handled r) j)) as Hj3 by apply lookup_insert_eq.
  assert (step q3 (LFinish t) (finish q3 t (set_phase (Handled r) j) r)) as S3
    by (by apply step_finish).
  eexists. split.
  - eapply reach_step; [|exact S3]. eapply reach_step; [|exact S2].
    eapply reach_step; [|exact S1]. constructor.
  - pose proof (inv_step _ _ _ _ Hi1 S1) as Hi2. pose proof (inv_step _ _ _ _ Hi2 S2) as Hi3.
    by apply (finish_Get _ _ t (set_phase (Handled r) j) r Hi3).
Qed.

End Queue.

(** ** The queue over the LRU cache *)

Section Top.
Context {item data : Type} (Hash : item → option string) `{RangeOrder}.

Definition NewTrailingDelayQueue : option (@queue item data (Lru.lruCache string nat)) :=
  newQueue <$> Lru.newLRUCache RequestHistorySize.

Lemma new_queue_inv q0 tr q :
  NewTrailingDelayQueue = Some q0 → reach Hash q0 tr q → inv tr q.
Proof.
  unfold NewTrailingDelayQueue. destruct (Lru.newLRUCache RequestHistorySize) as [c|] eqn:Hc; [|done].
  simpl. intros [= <-] Hr. destruct (Lru.new_inv _ _ Hc) as [Hi Habs].
  eapply (reach_inv Hash c); [done| |done]. intros h. simpl. by rewrite Habs.
Qed.

(** C4: what a client reads for a request ID is "not found", or, with [it] the
    most recent submission for that ID, either "accepted" or the result of
    the handler for [it], from a call made after that submission.  A result of
    a superseded request is never visible. *)
Theorem queue_visible_result_is_latest q0 tr q h :
  NewTrailingDelayQueue = Some q0 → reach Hash q0 tr q →
  (Get q h).2 = notFound h ∨
  ∃ it since, cur tr h = Some (it, since) ∧
    ((Get q h).2 = created h ∨
     ∃ t r, LHandle t it r ∈ since ∧ (Get q h).2 = record_result r (created h)).
Proof.
  intros H0 Hr. destruct (Get_ret tr q h (new_queue_inv _ _ _ H0 Hr)) as [[? _]|?]; [by left|].
  by right.
Qed.

(** at any time each request ID has at most one timer that has not fired. *)
Theorem queue_one_pending_timer q0 tr q t t' j j' :
  NewTrailingDelayQueue = Some q0 → reach Hash q0 tr q →
  jobs q !! t = Some j → jobs q !! t' = Some j' →
  j_phase j = Pending → j_phase j' = Pending → j_hash j = j_hash j' → t = t'.
Proof. intros H0 Hr. by apply (one_pending tr), (new_queue_inv q0). Qed.

(** a request superseded while its delay runs is never handled: once a
    request with the same ID is submitted, no later execution calls the
    handler for the earlier one. *)
Theorem queue_superseded_never_handled q0 tr q t j it tr' q' :
  NewTrailingDelayQueue = Some q0 → reach Hash q0 tr q →
  jobs q !! t = Some j → j_phase j = Pending → Hash it = Some (j_hash j) →
  reach Hash (Submit Hash q it).1 tr' q' →
  ∀ it' r, LHandle t it' r ∉ tr'.
Proof.
  intros H0 Hr Hj Hp Hh Hr'. pose proof (new_queue_inv _ _ _ H0 Hr) as Hi.
  pose proof (inv_pending _ _ Hi _ _ Hj Hp) as Ht. pose proof (inv_jobs _ _ Hi _ _ Hj) as [Hlt _].
  eapply gone_reach; [| |exact Hr']; unfold Submit; rewrite Hh; simpl; [lia|].
  rewrite lookup_insert_ne by lia. rewrite Ht. by eapply stop_pending.
Qed.

(** a submission can always be carried through: its timer fires, the
    handler returns [r], and then the request ID shows exactly [r]. *)
Theorem queue_submission_completes q0 tr q it hash r :
  NewTrailingDelayQueue = Some q0 → reach Hash q0 tr q → Hash it = Some hash →
  ∃ q' tr', reach Hash (Submit Hash q it).1 tr' q' ∧
    (Get q' hash).2 = record_result r (created hash).
Proof.
  intros H0 Hr Hh. pose proof (new_queue_inv _ _ _ H0 Hr) as Hi.
  destruct (submit_run Hash q it hash r tr Hi Hh) as (t & tr' & ? & ?). eauto.
Qed.

(** the history never holds more than [RequestHistorySize] results. *)
Theorem queue_history_bounded q0 tr q :
  NewTrailingDelayQueue = Some q0 → reach Hash q0 tr q →
  Z.of_nat (length (Lru.items (store q))) ≤ RequestHistorySize.
Proof.
  intros H0 Hr. pose proof (st_bounded _ (inv_store _ _ (new_queue_inv _ _ _ H0 Hr))) as Hb.
  simpl in Hb.
  assert (Lru.capacity (store q) = RequestHistorySize) as <-; [|done].
  clear Hb. induction Hr as [|tr q l q' Hr IH Hst].
  - unfold NewTrailingDelayQueue, Lru.newLRUCache in H0. simpl in H0. by simplify_eq.
  - rewrite <-IH. destruct Hst as [q it|q h| | |q t j r|]; try done.
    + unfold Submit. destruct (Hash it); [|done]. apply Lru.Add_capacity.
    + apply Lru.Get_capacity.
    + unfold finish. repeat case_decide; simpl; rewrite ?Lru.Add_capacity; apply Lru.Get_capacity.
Qed.

End Top.

(** ** A concrete run: submit, fire, handle, finish, and a resubmission *)

Definition w_hash (s : string) : option string := Some s.
Abbreviation wqueue := (@queue string Z (Lru.lruCache string nat)) (only parsing).
Definition w_q0 : wqueue := newQueue (Lru.LruCache 100 ∅ [] 0%nat).
Definition w_q1 : wqueue := (Submit w_hash w_q0 "a").1.
Definition w_job (p : phase) : @job string Z := MkJob "a" "a" 0%nat p.
Definition w_set (q : wqueue) (p : phase) : wqueue :=
  MkQueue (timers q) (store q) (heap q) (<[1%nat := w_job p]> (jobs q)) (alloc q) (closed q).
Definition w_q4 : wqueue :=
  finish (w_set (w_set w_q1 Running) (Handled (Ok 7))) 1%nat (w_job (Handled (Ok 7))) (Ok 7).
Definition w_tr1 : list (@label string Z) := [LSubmit "a" (Some "a")].
Definition w_tr4 : list (@label string Z) :=
  [LFinish 1%nat; LHandle 1%nat "a" (Ok 7); LFire 1%nat] ++ w_tr1.

Lemma w_new : NewTrailingDelayQueue = Some w_q0.
Proof. reflexivity. Qed.
Lemma w_reach1 : reach w_hash w_q0 w_tr1 w_q1.
Proof. eapply reach_step; [constructor|apply step_submit]. Qed.
Lemma w_reach4 : reach w_hash w_q0 w_tr4 w_q4.
Proof.
  eapply reach_step; [eapply reach_step; [eapply reach_step; [exact w_reach1|]|]|].
  - by apply (step_fire w_hash w_q1 1%nat (w_job Pending)).
  - by apply (step_handle w_hash (w_set w_q1 Running) 1%nat (w_job Running) (Ok 7)).
  - by apply step_finish.
Qed.

Lemma queue_visible_result_is_latest_witness :
  (Get w_q4 "a").2 = notFound "a" ∨
  ∃ it since, cur w_tr4 "a" = Some (it, since) ∧
    ((Get w_q4 "a").2 = created "a" ∨
     ∃ t r, LHandle t it r ∈ since ∧ (Get w_q4 "a").2 = record_result r (created "a")).
Proof. apply (queue_visible_result_is_latest w_hash w_q0 w_tr4 w_q4 "a" w_new w_reach4). Defined.

Lemma queue_one_pending_timer_witness : 1%nat = 1%nat ∧ jobs w_q1 !! 1%nat = Some (w_job Pending).
Proof.
  split; [|reflexivity].
  apply (queue_one_pending_timer w_hash w_q0 w_tr1 w_q1 1%nat 1%nat (w_job Pending) (w_job Pending)
    w_new w_reach1); reflexivity.
Defined.

Lemma queue_superseded_never_handled_witness :
  w_hash "a" = Some (j_hash (w_job Pending)) ∧
  ∀ it' r, LHandle 1%nat it' r ∉ [LSubmit (data := Z) "b" (Some "b")].
Proof.
  split; [reflexivity|].
  apply (queue_superseded_never_handled w_hash w_q0 w_tr1 w_q1 1%nat (w_job Pending) "a"
    [LSubmit "b" (Some "b")] (Submit w_hash (Submit w_hash w_q1 "a").1 "b").1
    w_new w_reach1); try reflexivity.
  eapply reach_step; [constructor|apply step_submit].
Defined.

Lemma queue_submission_completes_witness :
  ∃ q' tr', reach w_hash (Submit w_hash w_q1 "b").1 tr' q' ∧
    (Get q' "b").2 = MkCompletion None 502 "bad gateway".
Proof.
  apply (queue_submission_completes w_hash w_q0 w_tr1 w_q1 "b" "b"
    (Err (NewError 502 "bad gateway")) w_new w_reach1 eq_refl).
Defined.

Lemma queue_history_bounded_witness :
  Z.of_nat (length (Lru.items (store w_q4))) ≤ RequestHistorySize.
Proof. apply (queue_history_bounded w_hash w_q0 w_tr4 w_q4 w_new w_reach4). Defined.

End Queue.
