(* ===== verification/Domain.v ===== *)
(** * Accelerator domains: [pkg/topology/domain.go]

    A [DomainMap] maps an accelerator domain to its hosts.  [GetDomainTree]
    turns it into a tree of one level (domains that hold hosts) or two
    (domains that hold sub-domains), with node counts; [InferTwoLevelBlockSizes]
    derives the block sizes such a map needs. *)

From S2P Require Import Prelude GoStrings.
Open Scope Z_scope.

Record HostInfo := MkHostInfo {
  Domain : string;
  InstanceID : string;
  HostName : string;
  SubDomain : string
}.

#[export] Instance HostInfo_eq_dec : EqDecision HostInfo.
Proof. solve_decision. Defined.

Module Domain.

(** [map[string]map[string]*HostInfo]; the entries are non-nil, as
    [AddHostInfo] ignores a nil host. *)
Abbreviation DomainMap := (gmap string (gmap string HostInfo)).

Definition NewDomainMap : DomainMap := ∅.

Definition AddHostInfo (m : DomainMap) (hostInfo : option HostInfo) : DomainMap :=
  match hostInfo with
  | None => m
  | Some hi =>
      if decide (Domain hi = "") then m
      else match m !! Domain hi with
           | Some hosts => <[Domain hi := <[HostName hi := hi]> hosts]> m
           | None => <[Domain hi := {[HostName hi := hi]}]> m
           end
  end.

Definition AddHost (m : DomainMap) (domain instance host : string) : DomainMap :=
  AddHostInfo m (Some (MkHostInfo domain instance host "")).

(** ** Block sizes *)

(** [for size < target { size *= 2 }]; a positive size reaches the target
    within [target] iterations. *)
Fixpoint doubleUntil (fuel : nat) (size target : Z) : Z :=
  match fuel with
  | O => size
  | S fuel => if size <? target then doubleUntil fuel (size * 2) target else size
  end.
Definition doubling (size target : Z) : Z := doubleUntil (Z.to_nat target) size target.

Section Range.
Context `{RangeOrder}.

(** [subSizes[hi.SubDomain]++] over the hosts of a domain, and whether one
    carries a sub-domain. *)
Definition countSub (hosts : gmap string HostInfo) : gmap string Z :=
  foldl (λ subSizes kv,
    if decide (SubDomain kv.2 = "") then subSizes
    else <[SubDomain kv.2 := default 0 (subSizes !! SubDomain kv.2) + 1]> subSizes)
    ∅ (range hosts).
Definition hasSubDomain (hosts : gmap string HostInfo) : bool :=
  existsb (λ kv, negb (bool_decide (SubDomain kv.2 = ""))) (range hosts).

Definition maxOf (m : Z) (l : list Z) : Z := foldl (λ m n, if m <? n then n else m) m l.

Record sizes := MkSizes { maxDomainSize : Z; maxSubDomainSize : Z; hasSubDomains : bool }.

Definition inferStep (s : sizes) (kv : string * gmap string HostInfo) : sizes :=
  let hosts := kv.2 in
  let n := Z.of_nat (size hosts) in
  MkSizes (if maxDomainSize s <? n then n else maxDomainSize s)
          (maxOf (maxSubDomainSize s) (range (countSub hosts)).*2)
          (hasSubDomains s || hasSubDomain hosts).

Definition inferSizes (m : DomainMap) : sizes := foldl inferStep (MkSizes 0 0 false) (range m).

(** The empty list stands for [nil]. *)
Definition InferTwoLevelBlockSizes (m : DomainMap) : list Z :=
  let s := inferSizes m in
  if hasSubDomains s then
    let aggregateSize := doubling (maxSubDomainSize s) (maxDomainSize s) in
    if aggregateSize =? maxSubDomainSize s then [maxSubDomainSize s]
    else [maxSubDomainSize s; aggregateSize]
  else [].

(** ** The domain tree *)

Inductive BlockVertex := MkBlockVertex {
  bv_ID : string;
  ActualNodeCount : Z;
  MaxChildNodeCount : Z;
  Hosts : option (gmap string HostInfo);      (* None: nil *)
  Children : gmap string BlockVertex
}.

Definition ChildAt (bv : option BlockVertex) (name : string) : option BlockVertex :=
  match bv with None => None | Some bv => Children bv !! name end.

(** One iteration of the loop that places a host under its sub-domain vertex,
    or under the fallback vertex named after the domain. *)
Definition placeHost (domain : string) (children : gmap string BlockVertex) (host : HostInfo) :
    gmap string BlockVertex :=
  let gn := if decide (SubDomain host = "") then domain else SubDomain host in
  let sub := default (MkBlockVertex gn 0 0 (Some ∅) ∅) (children !! gn) in
  <[gn := MkBlockVertex (bv_ID sub) (ActualNodeCount sub + 1) (MaxChildNodeCount sub)
            (Some (<[HostName host := host]> (default ∅ (Hosts sub)))) (Children sub)]> children.

Definition domainVertex (domain : string) (hosts : gmap string HostInfo) : BlockVertex :=
  if hasSubDomain hosts then
    let '(children, placed) :=
      foldl (λ '(children, placed) kv, (placeHost domain children kv.2, placed + 1))
        (∅, 0) (range hosts) in
    MkBlockVertex domain placed
      (maxOf 0 (ActualNodeCount <$> (range children).*2)) None children
  else MkBlockVertex domain (Z.of_nat (size hosts)) 0 (Some hosts) ∅.

Definition addDomain (root : BlockVertex) (kv : string * gmap string HostInfo) : BlockVertex :=
  let bv := domainVertex kv.1 kv.2 in
  MkBlockVertex (bv_ID root) (ActualNodeCount root)
    (if MaxChildNodeCount root <? ActualNodeCount bv then ActualNodeCount bv
     else MaxChildNodeCount root)
    (Hosts root) (<[kv.1 := bv]> (Children root)).

Definition GetDomainTree (m : DomainMap) : BlockVertex :=
  foldl addDomain (MkBlockVertex "" 0 0 None ∅) (range m).
End Range.

(** ** Well-formed domain maps *)

Definition hosts_wf (hosts : gmap string HostInfo) : Prop :=
  map_Forall (λ n hi, HostName hi = n) hosts.
Definition wf (m : DomainMap) : Prop :=
  map_Forall (λ d hosts, d ≠ "" ∧ hosts ≠ ∅ ∧
    map_Forall (λ n hi, HostName hi = n ∧ Domain hi = d) hosts) m.

#[global] Instance hosts_wf_dec hosts : Decision (hosts_wf hosts).
Proof. apply _. Defined.
#[global] Instance wf_dec m : Decision (wf m).
Proof. apply _. Defined.

Lemma wf_hosts m d hosts : wf m → m !! d = Some hosts → hosts_wf hosts.
Proof.
  intros Hm Hd. destruct (Hm d hosts Hd) as (_ & _ & Hh). intros n hi Hn.
  by destruct (Hh n hi Hn).
Qed.

Lemma AddHostInfo_wf m hi : wf m → wf (AddHostInfo m hi).
Proof.
  intros Hm. unfold AddHostInfo. destruct hi as [hi|]; [|done]. case_decide as Hd; [done|].
  destruct (m !! Domain hi) as [hosts|] eqn:Hl.
  - apply map_Forall_insert_2; [|done]. destruct (Hm _ _ Hl) as (_ & _ & Hh).
    split_and!; [done|apply insert_non_empty|]. by apply map_Forall_insert_2.
  - apply map_Forall_insert_2; [|done].
    split_and!; [done|apply map_non_empty_singleton|]. by apply map_Forall_singleton.
Qed.

Lemma AddHostInfo_lookup m hi :
  Domain hi ≠ "" → (AddHostInfo m (Some hi) !! Domain hi) ≫= lookup (HostName hi) = Some hi.
Proof.
  intros Hd. unfold AddHostInfo. rewrite decide_False by done.
  destruct (m !! Domain hi) as [hosts|]; rewrite lookup_insert_eq; simpl.
  - apply lookup_insert_eq.
  - apply lookup_singleton_eq.
Qed.

(** ** Maxima *)

Lemma maxOf_ge m l : m ≤ maxOf m l ∧ Forall (λ x, x ≤ maxOf m l) l.
Proof.
  revert m. induction l as [|x l IH]; intros m; simpl; [split; [lia|constructor]|].
  unfold maxOf. simpl. fold (maxOf (if m <? x then x else m) l).
  destruct (IH (if m <? x then x else m)) as [H1 H2]. destruct (Z.ltb_spec m x).
  - split; [lia|]. by constructor.
  - split; [lia|]. constructor; [lia|done].
Qed.

Lemma maxOf_in m l : maxOf m l = m ∨ maxOf m l ∈ l.
Proof.
  revert m. induction l as [|x l IH]; intros m; simpl; [by left|].
  unfold maxOf. simpl. fold (maxOf (if m <? x then x else m) l).
  destruct (IH (if m <? x then x else m)) as [->|Hin]; [|right; set_solver].
  destruct (m <? x); [right; set_solver|by left].
Qed.

(** ** Doubling *)

Lemma doubleUntil_spec fuel sz target :
  0 < sz → target ≤ sz * 2 ^ Z.of_nat fuel →
  ∃ k, 0 ≤ k ∧ doubleUntil fuel sz target = sz * 2 ^ k ∧ target ≤ sz * 2 ^ k ∧
       (k = 0 ∨ sz * 2 ^ (k - 1) < target).
Proof.
  revert sz. induction fuel as [|fuel IH]; intros sz Hs Ht; simpl in *.
  { exists 0. simpl. lia. }
  destruct (Z.ltb_spec sz target) as [Hlt|Hge].
  - destruct (IH (sz * 2)) as (k & Hk & -> & Hle & Hprev); [lia| |].
    { rewrite Nat2Z.inj_succ, Z.pow_succ_r in Ht by lia. lia. }
    exists (k + 1). rewrite Z.pow_add_r by lia. change (2 ^ 1) with 2.
    replace (k + 1 - 1) with k by lia. split_and!; [lia|lia|lia|right].
    destruct (decide (k = 0)) as [->|Hk0]; [simpl; lia|]. destruct Hprev as [?|Hprev]; [lia|].
    replace k with ((k - 1) + 1) by lia. rewrite Z.pow_add_r by lia.
    change (2 ^ 1) with 2. lia.
  - exists 0. simpl. lia.
Qed.

(** [doubling sz target] is the smallest power-of-two multiple of [sz] that is
    at least [target]. *)
Lemma doubling_spec sz target :
  0 < sz →
  ∃ k, 0 ≤ k ∧ doubling sz target = sz * 2 ^ k ∧ target ≤ sz * 2 ^ k ∧
       (k = 0 ∨ sz * 2 ^ (k - 1) < target).
Proof.
  intros Hs. apply doubleUntil_spec; [done|].
  destruct (Z.le_gt_cases target 0).
  - assert (0 < 2 ^ Z.of_nat (Z.to_nat target)) by (apply Z.pow_pos_nonneg; lia). nia.
  - rewrite Z2Nat.id by lia. pose proof (Z.pow_gt_lin_r 2 target ltac:(lia) ltac:(lia)). nia.
Qed.

Section Spec.
Context `{RangeOrder}.

(** ** Counting sub-domains *)

(** The hosts of a domain that carry sub-domain [s]. *)
Definition subHosts (s : string) (hosts : gmap string HostInfo) : gmap string HostInfo :=
  filter (λ kv, SubDomain kv.2 = s) hosts.

Definition subCount (s : string) (l : list (string * HostInfo)) : nat :=
  length (filter (λ kv, SubDomain kv.2 = s) l).

Definition subCounted (s : string) (l : list (string * HostInfo)) : option Z :=
  if decide (s = "" ∨ subCount s l = 0%nat) then None else Some (Z.of_nat (subCount s l)).

Lemma countSub_list (l : list (string * HostInfo)) s :
  foldl (λ subSizes kv,
    if decide (SubDomain kv.2 = "") then subSizes
    else <[SubDomain kv.2 := default 0 (subSizes !! SubDomain kv.2) + 1]> subSizes)
    (∅ : gmap string Z) l !! s = subCounted s l.
Proof.
  revert s. apply (foldl_prefix_inv (λ l (m : gmap string Z), ∀ s, m !! s = subCounted s l)).
  { intros s. rewrite lookup_empty. unfold subCounted. by rewrite decide_True by (by right). }
  intros l1 [n hi] l2 m -> IH s. unfold subCounted, subCount in *. rewrite filter_app, length_app. simpl.
  case_decide as Hd.
  - rewrite IH. destruct (decide (s = "")) as [->|Hs]; [by rewrite !decide_True by auto|].
    rewrite filter_cons_False by (simpl; congruence). simpl. by rewrite Nat.add_0_r.
  - rewrite lookup_insert. case_decide as Heq.
    + subst s. rewrite filter_cons_True by done. simpl.
      rewrite (decide_False (P := SubDomain hi = "" ∨ _)) by (intros [?|?]; [done|lia]).
      rewrite IH. case_decide as Hc; simpl; f_equal; [destruct Hc; [done|lia]|lia].
    + rewrite IH. rewrite filter_cons_False by (simpl; congruence). simpl. by rewrite Nat.add_0_r.
Qed.

Lemma subCount_range s hosts : subCount s (range hosts) = size (subHosts s hosts).
Proof.
  unfold subCount, subHosts. rewrite <-length_map_to_list.
  rewrite range_perm. apply Permutation_length. symmetry. apply NoDup_Permutation.
  - apply NoDup_map_to_list.
  - apply NoDup_filter, NoDup_map_to_list.
  - intros [k hi]. rewrite elem_of_map_to_list, map_lookup_filter_Some, list_elem_of_filter,
      elem_of_map_to_list. simpl. naive_solver.
Qed.

(** Sub-domain sizes: positive for the sub-domains that occur, absent otherwise. *)
Lemma countSub_spec hosts s :
  countSub hosts !! s =
    if decide (s = "" ∨ size (subHosts s hosts) = 0%nat) then None
    else Some (Z.of_nat (size (subHosts s hosts))).
Proof. unfold countSub. rewrite countSub_list. unfold subCounted. by rewrite subCount_range. Qed.

Lemma hasSubDomain_spec hosts :
  hasSubDomain hosts = true ↔ ∃ n hi, hosts !! n = Some hi ∧ SubDomain hi ≠ "".
Proof.
  unfold hasSubDomain. rewrite existsb_exists. split.
  - intros ([n hi] & Hin & Hb). exists n, hi. rewrite <-list_elem_of_In in Hin.
    apply elem_of_range in Hin. split; [done|]. simpl in Hb. by case_bool_decide.
  - intros (n & hi & Hn & Hs). exists (n, hi). rewrite <-list_elem_of_In, elem_of_range.
    split; [done|]. simpl. by rewrite bool_decide_eq_false_2.
Qed.

(** ** The inferred sizes *)

Definition sizes_ok (l : list (string * gmap string HostInfo)) (s : sizes) : Prop :=
  0 ≤ maxDomainSize s ∧ 0 ≤ maxSubDomainSize s ∧
  (∀ d hosts, (d, hosts) ∈ l → Z.of_nat (size hosts) ≤ maxDomainSize s) ∧
  (maxDomainSize s = 0 ∨ ∃ d hosts, (d, hosts) ∈ l ∧ Z.of_nat (size hosts) = maxDomainSize s) ∧
  (∀ d hosts sub, (d, hosts) ∈ l → sub ≠ "" → Z.of_nat (size (subHosts sub hosts)) ≤ maxSubDomainSize s) ∧
  (maxSubDomainSize s = 0 ∨ ∃ d hosts sub, (d, hosts) ∈ l ∧ sub ≠ "" ∧
     Z.of_nat (size (subHosts sub hosts)) = maxSubDomainSize s) ∧
  (hasSubDomains s = true ↔ ∃ d hosts, (d, hosts) ∈ l ∧ hasSubDomain hosts = true).

Lemma sizes_ok_step l s d hosts :
  sizes_ok l s → sizes_ok (l ++ [(d, hosts)]) (inferStep s (d, hosts)).
Proof.
  intros (H1 & H2 & H3 & H4 & H5 & H6 & H7). unfold inferStep. simpl.
  pose proof (maxOf_ge (maxSubDomainSize s) (range (countSub hosts)).*2) as [Hge Hall].
  rewrite Forall_forall in Hall. unfold sizes_ok. cbn [maxDomainSize maxSubDomainSize hasSubDomains].
  split_and!.
  - destruct (Z.ltb_spec (maxDomainSize s) (Z.of_nat (size hosts))); lia.
  - lia.
  - intros d' hosts' [Hin|Hin]%elem_of_app.
    + specialize (H3 _ _ Hin). destruct (Z.ltb_spec (maxDomainSize s) (Z.of_nat (size hosts))); lia.
    + apply list_elem_of_singleton in Hin. simplify_eq.
      destruct (Z.ltb_spec (maxDomainSize s) (Z.of_nat (size hosts))); lia.
  - destruct (Z.ltb_spec (maxDomainSize s) (Z.of_nat (size hosts))).
    + right. exists d, hosts. set_solver.
    + destruct H4 as [?|(d' & hosts' & ? & ?)]; [by left|right]. exists d', hosts'. set_solver.
  - intros d' hosts' sub [Hin|Hin]%elem_of_app Hsub.
    + specialize (H5 _ _ _ Hin Hsub). lia.
    + apply list_elem_of_singleton in Hin. simplify_eq.
      destruct (decide (size (subHosts sub hosts) = 0%nat)) as [->|Hne]; [lia|].
      apply Hall, list_elem_of_fmap. exists (sub, Z.of_nat (size (subHosts sub hosts))).
      split; [done|]. apply elem_of_range. rewrite countSub_spec, decide_False by naive_solver. done.
  - destruct (maxOf_in (maxSubDomainSize s) (range (countSub hosts)).*2) as [->|Hin].
    + destruct H6 as [?|(d' & hosts' & sub & ? & ? & ?)]; [by left|right].
      exists d', hosts', sub. set_solver.
    + right. apply list_elem_of_fmap in Hin as ([sub n] & -> & Hin%elem_of_range). simpl.
      rewrite countSub_spec in Hin. case_decide; [done|]. simplify_eq.
      exists d, hosts, sub. split_and!; [set_solver|naive_solver|done].
  - rewrite orb_true_iff, H7. set_solver.
Qed.

Lemma inferSizes_ok m : sizes_ok (range m) (inferSizes m).
Proof.
  unfold inferSizes. apply (foldl_prefix_inv sizes_ok).
  - repeat split; simpl; try lia; set_solver.
  - intros l1 [d hosts] l2 t _. apply sizes_ok_step.
Qed.

Lemma subHosts_nonempty hosts n hi s :
  hosts !! n = Some hi → SubDomain hi = s → (0 < size (subHosts s hosts))%nat.
Proof.
  intros Hn Hs. destruct (size (subHosts s hosts)) eqn:Hsz; [exfalso|lia].
  apply map_size_empty_inv in Hsz. apply (f_equal (lookup n)) in Hsz.
  rewrite lookup_empty in Hsz. unfold subHosts in Hsz.
  assert (filter (λ kv, SubDomain kv.2 = s) hosts !! n = Some hi); [|congruence].
  by apply map_lookup_filter_Some.
Qed.

(** ** The domain tree *)

(** The sub-domain vertex a host of [domain] is placed under. *)
Definition groupOf (domain : string) (hi : HostInfo) : string :=
  if decide (SubDomain hi = "") then domain else SubDomain hi.

Definition groupHosts (domain g : string) (hosts : gmap string HostInfo) : gmap string HostInfo :=
  filter (λ kv, groupOf domain kv.2 = g) hosts.

Definition leafVertex (g : string) (hosts : gmap string HostInfo) : BlockVertex :=
  MkBlockVertex g (Z.of_nat (size hosts)) 0 (Some hosts) ∅.

(** The children after the hosts of [l] were placed. *)
Definition placed (domain : string) (l : list (string * HostInfo)) (g : string) : option BlockVertex :=
  let hs : gmap string HostInfo := list_to_map (filter (λ kv, groupOf domain kv.2 = g) l) in
  if decide (hs = ∅) then None else Some (leafVertex g hs).

Lemma placed_other domain l n hi g :
  groupOf domain hi ≠ g → placed domain (l ++ [(n, hi)]) g = placed domain l g.
Proof.
  intros Hg. unfold placed. rewrite filter_app, (filter_cons_False _ (n, hi)) by done.
  by rewrite filter_nil, app_nil_r.
Qed.

Lemma placed_same domain l n hi :
  n ∉ l.*1 →
  placed domain (l ++ [(n, hi)]) (groupOf domain hi) =
    let hs : gmap string HostInfo :=
      list_to_map (filter (λ kv, groupOf domain kv.2 = groupOf domain hi) l) in
    Some (MkBlockVertex (groupOf domain hi) (Z.of_nat (size hs) + 1) 0 (Some (<[n := hi]> hs)) ∅).
Proof.
  intros Hn. unfold placed. rewrite filter_app, (filter_cons_True _ (n, hi)) by done.
  rewrite filter_nil. cbv zeta.
  set (fl := filter _ l).
  assert (n ∉ fl.*1) as Hn'.
  { intros ([n' hi'] & -> & [_ Hin]%list_elem_of_filter)%list_elem_of_fmap. apply Hn.
    apply list_elem_of_fmap. by exists (n', hi'). }
  rewrite list_to_map_snoc by done. rewrite decide_False by apply insert_non_empty.
  unfold leafVertex. rewrite map_size_insert_None by (by apply not_elem_of_list_to_map_1).
  do 2 f_equal. lia.
Qed.

Lemma placeHost_spec domain l children n hi :
  HostName hi = n → n ∉ l.*1 → (∀ g, children !! g = placed domain l g) →
  ∀ g, placeHost domain children hi !! g = placed domain (l ++ [(n, hi)]) g.
Proof.
  intros Hn Hnl Hch g. unfold placeHost. fold (groupOf domain hi). cbv zeta.
  rewrite lookup_insert. case_decide as Hg.
  - subst g. rewrite placed_same by done. rewrite Hch. unfold placed. cbv zeta.
    case_decide as He; simpl; rewrite ?He, Hn.
    + by rewrite map_size_empty.
    + done.
  - rewrite Hch. by rewrite placed_other.
Qed.

Lemma place_all domain hosts :
  hosts_wf hosts →
  let r := foldl (λ '(children, placed) kv, (placeHost domain children kv.2, placed + 1))
             (∅ : gmap string BlockVertex, 0) (range hosts) in
  r.2 = Z.of_nat (size hosts) ∧ ∀ g, r.1 !! g = placed domain (range hosts) g.
Proof.
  intros Hwf. cbv zeta.
  rewrite <-length_range.
  apply (foldl_prefix_inv (λ l (r : gmap string BlockVertex * Z),
    r.2 = Z.of_nat (length l) ∧ ∀ g, r.1 !! g = placed domain l g)).
  { split; [done|]. intros g. unfold placed. simpl. by rewrite lookup_empty. }
  intros l1 [n hi] l2 [children k] Hl [Hk Hch]. simpl in *. split.
  { rewrite Hk, length_app. simpl. lia. }
  apply placeHost_spec; [| |done].
  - apply (Hwf n hi), elem_of_range. rewrite Hl. set_solver.
  - pose proof (range_NoDup hosts) as Hnd. rewrite Hl, fmap_app in Hnd.
    apply NoDup_app in Hnd as (_ & Hnd & _). csimpl in *. intros Hin. apply (Hnd n); set_solver.
Qed.

Lemma placed_range domain hosts g :
  placed domain (range hosts) g =
    if decide (groupHosts domain g hosts = ∅) then None
    else Some (leafVertex g (groupHosts domain g hosts)).
Proof.
  assert (list_to_map (filter (λ kv, groupOf domain kv.2 = g) (range hosts)) =
          groupHosts domain g hosts) as Heq.
  { apply map_eq. intros n. apply option_eq. intros hi. unfold groupHosts.
    rewrite map_lookup_filter_Some, <-elem_of_list_to_map, list_elem_of_filter, elem_of_range.
    - simpl. naive_solver.
    - apply NoDup_fst_filter, range_NoDup. }
  unfold placed. by rewrite Heq.
Qed.

(** The vertex of a domain: its hosts, or one leaf per sub-domain with exactly
    the hosts of that sub-domain. *)
Lemma domainVertex_spec domain hosts :
  hosts_wf hosts →
  bv_ID (domainVertex domain hosts) = domain ∧
  ActualNodeCount (domainVertex domain hosts) = Z.of_nat (size hosts) ∧
  (hasSubDomain hosts = false →
     domainVertex domain hosts = leafVertex domain hosts) ∧
  (hasSubDomain hosts = true →
     Hosts (domainVertex domain hosts) = None ∧
     ∀ g, Children (domainVertex domain hosts) !! g =
       if decide (groupHosts domain g hosts = ∅) then None
       else Some (leafVertex g (groupHosts domain g hosts))).
Proof.
  intros Hwf. unfold domainVertex. destruct (hasSubDomain hosts); [|by split_and!].
  pose proof (place_all domain hosts Hwf) as Hp. cbv zeta in Hp.
  destruct (foldl _ (∅, 0) (range hosts)) as [children k]. simpl in Hp. destruct Hp as [-> Hch].
  split_and!; [done|done|done|]. intros _. split; [done|]. intros g. simpl.
  by rewrite Hch, placed_range.
Qed.

Lemma GetDomainTree_fold m :
  Hosts (GetDomainTree m) = None ∧ bv_ID (GetDomainTree m) = "" ∧
  (∀ d, Children (GetDomainTree m) !! d = domainVertex d <$> m !! d) ∧
  MaxChildNodeCount (GetDomainTree m) =
    maxOf 0 ((λ kv, ActualNodeCount (domainVertex kv.1 kv.2)) <$> range m).
Proof.
  unfold GetDomainTree.
  assert (∀ l (Hl : NoDup l.*1) root,
    let r := foldl addDomain root l in
    Hosts r = Hosts root ∧ bv_ID r = bv_ID root ∧
    (∀ d, Children r !! d = match (list_to_map l : DomainMap) !! d with
                            | Some hosts => Some (domainVertex d hosts)
                            | None => Children root !! d end) ∧
    MaxChildNodeCount r = maxOf (MaxChildNodeCount root)
      ((λ kv, ActualNodeCount (domainVertex kv.1 kv.2)) <$> l)) as Hgen.
  { induction l as [|[d hosts] l IH]; intros Hl root; csimpl; [done|].
    apply NoDup_cons in Hl as [Hd Hl].
    destruct (IH Hl (addDomain root (d, hosts))) as (H1 & H2 & H3 & H4).
    rewrite H1, H2, H4. split_and!; [done|done| |done].
    intros d'. rewrite H3. rewrite lookup_insert. case_decide as Heq.
    - subst d'. rewrite (proj1 (not_elem_of_list_to_map l d)) by done. simpl.
      apply lookup_insert_eq.
    - destruct (list_to_map l !! d'); [done|]. simpl. by apply lookup_insert_ne. }
  destruct (Hgen (range m) (range_NoDup m) (MkBlockVertex "" 0 0 None ∅)) as (-> & -> & H3 & ->).
  split_and!; [done|done| |done]. intros d. rewrite H3. simpl.
  assert (list_to_map (range m) = m) as ->.
  { rewrite <-(list_to_map_to_list m) at 2. apply list_to_map_proper; [apply range_NoDup|].
    apply range_perm. }
  rewrite lookup_empty. by destruct (m !! d).
Qed.
(** The leaf every host ends up in. *)
Lemma domainVertex_leaf domain hosts n hi :
  hosts_wf hosts → hosts !! n = Some hi → hasSubDomain hosts = true →
  Children (domainVertex domain hosts) !! groupOf domain hi =
    Some (leafVertex (groupOf domain hi) (groupHosts domain (groupOf domain hi) hosts)).
Proof.
  intros Hwf Hn Hs. destruct (domainVertex_spec domain hosts Hwf) as (_ & _ & _ & Hsub).
  destruct (Hsub Hs) as [_ ->]. rewrite decide_False; [done|]. intros He.
  apply (f_equal (lookup n)) in He. rewrite lookup_empty in He. unfold groupHosts in He.
  assert (filter (λ kv, groupOf domain kv.2 = groupOf domain hi) hosts !! n = Some hi); [|congruence].
  by apply map_lookup_filter_Some.
Qed.

(** [GetDomainTree] has one vertex per accelerator domain, which counts all
    its hosts (at most the root's [MaxChildNodeCount]).  A domain without
    sub-domains is a leaf with exactly its hosts; in any other, every host,
    with or without a sub-domain of its own, is in the leaf of its
    sub-domain (the domain name standing in for a missing one), and that leaf
    holds exactly the hosts of that sub-domain and counts them. *)
Theorem domain_tree_spec m d hosts :
  wf m → m !! d = Some hosts →
  ∃ bv, ChildAt (Some (GetDomainTree m)) d = Some bv ∧
  ActualNodeCount bv = Z.of_nat (size hosts) ∧
  ActualNodeCount bv ≤ MaxChildNodeCount (GetDomainTree m) ∧
  ((∀ n hi, hosts !! n = Some hi → SubDomain hi = "") → Hosts bv = Some hosts) ∧
  ((∃ n hi, hosts !! n = Some hi ∧ SubDomain hi ≠ "") →
     ∀ n hi, hosts !! n = Some hi → ∃ leaf,
       ChildAt (Some bv) (groupOf d hi) = Some leaf ∧
       Hosts leaf = Some (groupHosts d (groupOf d hi) hosts) ∧
       ActualNodeCount leaf = Z.of_nat (size (groupHosts d (groupOf d hi) hosts))).
Proof.
  intros Hm Hd. destruct (GetDomainTree_fold m) as (_ & _ & Hch & Hmax). simpl.
  rewrite Hch, Hd. simpl. eexists. split; [done|]. pose proof (wf_hosts m d hosts Hm Hd) as Hwf.
  destruct (domainVertex_spec d hosts Hwf) as (_ & Hcount & Hone & Htwo). split_and!.
  - done.
  - rewrite Hmax. destruct (maxOf_ge 0 ((λ kv, ActualNodeCount (domainVertex kv.1 kv.2)) <$> range m))
      as [_ Hall]. rewrite Forall_forall in Hall. apply Hall, list_elem_of_fmap.
    exists (d, hosts). by rewrite elem_of_range.
  - intros Hnone. rewrite Hone; [done|]. apply not_true_is_false.
    intros (n & hi & ? & ?)%hasSubDomain_spec. naive_solver.
  - intros Hsome n hi Hn. apply hasSubDomain_spec in Hsome.
    exists (leafVertex (groupOf d hi) (groupHosts d (groupOf d hi) hosts)).
    by rewrite (domainVertex_leaf d hosts n hi).
Qed.

Lemma inferred_pos m : Forall (λ s, 0 < s) (InferTwoLevelBlockSizes m).
Proof.
  destruct (inferSizes_ok m) as (H1 & H2 & H3 & H4 & H5 & H6 & H7).
  setoid_rewrite elem_of_range in H5. setoid_rewrite elem_of_range in H7.
  setoid_rewrite hasSubDomain_spec in H7.
  unfold InferTwoLevelBlockSizes. cbv zeta. destruct (inferSizes m) as [D S b]. simpl in *.
  destruct b; [|constructor].
  destruct (proj1 H7 eq_refl) as (d0 & hosts0 & Hd0 & n0 & hi0 & Hn0 & Hs0).
  pose proof (H5 _ _ _ Hd0 Hs0) as Hpos. pose proof (subHosts_nonempty _ _ _ _ Hn0 eq_refl).
  destruct (doubling_spec S D ltac:(lia)) as (k & Hk & -> & Hle & Hprev).
  assert (0 < 2 ^ k) by (apply Z.pow_pos_nonneg; lia).
  case_match; repeat constructor; nia.
Qed.

(** [InferTwoLevelBlockSizes] returns no sizes exactly when no host has a
    sub-domain.  Otherwise it returns [[s]] or [[s; s*2^k]]: [s] is the size
    of the largest sub-domain, and [s*2^k] is the smallest power-of-two
    multiple of [s] that holds the largest domain.  The doubling loop ends. *)
Theorem infer_block_sizes_spec m :
  (InferTwoLevelBlockSizes m = [] ↔
     ∀ d hosts n hi, m !! d = Some hosts → hosts !! n = Some hi → SubDomain hi = "") ∧
  (InferTwoLevelBlockSizes m = [] ∨ ∃ s k,
     0 < s ∧ 0 ≤ k ∧ InferTwoLevelBlockSizes m = (if k =? 0 then [s] else [s; s * 2 ^ k]) ∧
     (∀ d hosts sub, m !! d = Some hosts → sub ≠ "" → Z.of_nat (size (subHosts sub hosts)) ≤ s) ∧
     (∃ d hosts sub, m !! d = Some hosts ∧ sub ≠ "" ∧ Z.of_nat (size (subHosts sub hosts)) = s) ∧
     (∀ d hosts, m !! d = Some hosts → Z.of_nat (size hosts) ≤ s * 2 ^ k) ∧
     (k = 0 ∨ ∃ d hosts, m !! d = Some hosts ∧ s * 2 ^ (k - 1) < Z.of_nat (size hosts))).
Proof.
  destruct (inferSizes_ok m) as (H1 & H2 & H3 & H4 & H5 & H6 & H7).
  setoid_rewrite elem_of_range in H3. setoid_rewrite elem_of_range in H4.
  setoid_rewrite elem_of_range in H5. setoid_rewrite elem_of_range in H6.
  setoid_rewrite elem_of_range in H7. setoid_rewrite hasSubDomain_spec in H7.
  unfold InferTwoLevelBlockSizes. cbv zeta. destruct (inferSizes m) as [D S b]. simpl in *.
  destruct b; [|split; [split; [|done]|by left]].
  2:{ intros _ d hosts n hi Hd Hn. destruct (decide (SubDomain hi = "")); [done|].
      enough (false = true) by done. apply H7. eauto 10. }
  destruct (proj1 H7 eq_refl) as (d0 & hosts0 & Hd0 & n0 & hi0 & Hn0 & Hs0).
  pose proof (H5 _ _ _ Hd0 Hs0) as Hpos. pose proof (subHosts_nonempty _ _ _ _ Hn0 eq_refl).
  split; [split; [case_match; done|]|right].
  { intros Hall. by specialize (Hall _ _ _ _ Hd0 Hn0). }
  destruct (doubling_spec S D ltac:(lia)) as (k & Hk & -> & Hle & Hprev).
  exists S, k. split_and!; [lia|done| |naive_solver| | |].
  - destruct (Z.eqb_spec k 0) as [->|Hk0]; [by rewrite Z.mul_1_r, Z.eqb_refl|].
    destruct (Z.eqb_spec (S * 2 ^ k) S) as [He|]; [|done].
    pose proof (Z.pow_gt_1 2 k ltac:(lia)). nia.
  - destruct H6 as [->|H6]; [lia|done].
  - intros d hosts Hd. specialize (H3 d hosts Hd). lia.
  - destruct Hprev as [?|Hprev]; [by left|]. right.
    destruct H4 as [->|(d & hosts & ? & ?)].
    + assert (0 ≤ S * 2 ^ (k - 1)) by (apply Z.mul_nonneg_nonneg; [lia|apply Z.pow_nonneg; lia]). lia.
    + exists d, hosts. split; [done|lia].
Qed.

End Spec.

(** ** Witness *)

Definition w_map : DomainMap :=
  foldl (λ m h, AddHostInfo m (Some h)) NewDomainMap
    [MkHostInfo "d1" "i1" "n1" "s1"; MkHostInfo "d1" "i2" "n2" ""; MkHostInfo "d2" "i3" "n3" "s2"].

Lemma domain_tree_spec_witness :
  ∃ bv, ChildAt (Some (GetDomainTree w_map)) "d1" = Some bv ∧ ActualNodeCount bv = 2.
Proof.
  destruct (domain_tree_spec w_map "d1" (default ∅ (w_map !! "d1"))) as (bv & Hbv & Hn & _).
  - apply (bool_decide_unpack _). vm_compute. exact I.
  - vm_compute. reflexivity.
  - exists bv. split; [exact Hbv|]. rewrite Hn. vm_compute. reflexivity.
Defined.

End Domain.
