(* ===== verification/BlockTree.v ===== *)
(** * The block tree: [pkg/translate/block_tree.go], [block_complement.go]

    Hosts are packed into base blocks of a fixed number of slots; base blocks
    are grouped per accelerator domain and padded with empty blocks so that
    domains start, and the whole tree ends, on an aggregate boundary.
    [complementBlocks] turns a partition's blocks into the numbered list of
    the tree's base blocks. *)

From S2P Require Import Prelude GoStrings Domain.
Open Scope Z_scope.

(** [blockInfo] of [topology.go]; slices of blocks hold no nil pointers. *)
Record blockInfo := MkBlockInfo {
  b_id : string;
  b_name : string;
  b_indx : Z;
  b_nodes : list string
}.

Module BlockTree.
Import Domain.

(** ** Nodes *)

Record hostNode := MkHostNode { host : option HostInfo }.

Record baseBlockNode := MkBaseBlock {
  bb_id : string;
  bb_domain : string;
  leaves : list hostNode;
  bb_nodeCount : Z
}.

Inductive blockTreeNode :=
| HostNode (n : hostNode)
| BaseNode (b : baseBlockNode)
| AggregateNode (a : aggregateBlockNode)
with aggregateBlockNode :=
| MkAggregate (id : string) (children : list blockTreeNode) (nodeCount : Z).

Definition agg_id (a : aggregateBlockNode) : string := let 'MkAggregate i _ _ := a in i.
Definition children (a : aggregateBlockNode) : list blockTreeNode := let 'MkAggregate _ c _ := a in c.
Definition nodeCount (a : aggregateBlockNode) : Z := let 'MkAggregate _ _ n := a in n.

Definition levelIdentifier (n : blockTreeNode) : string :=
  match n with
  | HostNode h => match host h with None => "" | Some hi => HostName hi end
  | BaseNode b => bb_domain b
  | AggregateNode a => agg_id a
  end.

(** ** Base blocks *)

Fixpoint extractDomainID (id : string) : string :=
  match id with
  | "" => ""
  | String r rest =>
      if bool_decide (r = "/"%char) || bool_decide (r = "#"%char) || bool_decide (r = "+"%char)
      then "" else String r (extractDomainID rest)
  end.

Definition emptyLeaves (n : nat) : list hostNode := replicate n (MkHostNode None).

(** Slots are filled left to right; the loop stops at [baseBlockSize] hosts. *)
Definition newBaseBlock (id : string) (hosts : list HostInfo) (baseBlockSize : Z) : baseBlockNode :=
  let used := take (Z.to_nat baseBlockSize) hosts in
  MkBaseBlock id (extractDomainID id)
    (((λ h, MkHostNode (Some h)) <$> used) ++ emptyLeaves (Z.to_nat baseBlockSize - length used))
    (Z.of_nat (length (filter (λ h, HostName h ≠ "") used))).

Definition newEmptyBaseBlock (baseBlockSize : Z) : baseBlockNode :=
  if baseBlockSize <=? 0 then MkBaseBlock "" "" [] 0
  else MkBaseBlock "" "" (emptyLeaves (Z.to_nat baseBlockSize)) 0.

(** The loop over [start]; [hosts] is the rest of the slice from [start] on,
    [n] the number of blocks so far.  Every iteration consumes a host. *)
Fixpoint splitLoop (fuel : nat) (id : string) (hosts : list HostInfo) (baseBlockSize : Z) (n : Z) :
    list baseBlockNode :=
  match fuel, hosts with
  | S fuel, _ :: _ =>
      let blockID := if 0 <? n then id +:+ "#" +:+ itoa (n + 1) else id in
      newBaseBlock blockID (take (Z.to_nat baseBlockSize) hosts) baseBlockSize ::
        splitLoop fuel id (drop (Z.to_nat baseBlockSize) hosts) baseBlockSize (n + 1)
  | _, _ => []
  end.
Definition splitIntoBaseBlocks (id : string) (hosts : list HostInfo) (baseBlockSize : Z) :
    list baseBlockNode :=
  splitLoop (length hosts) id hosts baseBlockSize 0.

Definition host_le (a b : HostInfo) : Prop := String.le (HostName a) (HostName b).
#[global] Instance host_le_dec : RelDecision host_le.
Proof. intros a b. unfold host_le. apply _. Defined.

(** [sort.Slice] by [HostName]. *)
Definition sortHostsByName (hosts : list HostInfo) : list HostInfo := merge_sort host_le hosts.

Definition hostsSorted `{RangeOrder} (hosts : gmap string HostInfo) : list HostInfo :=
  sortHostsByName (range hosts).*2.

(** Left-to-right depth-first collection. *)
Fixpoint walk (n : blockTreeNode) : list baseBlockNode :=
  match n with
  | HostNode _ => []
  | BaseNode b => [b]
  | AggregateNode a => walkAggregate a
  end
with walkAggregate (a : aggregateBlockNode) : list baseBlockNode :=
  match a with
  | MkAggregate _ cs _ =>
      (fix walkAll (cs : list blockTreeNode) : list baseBlockNode :=
         match cs with [] => [] | c :: cs => walk c ++ walkAll cs end) cs
  end.
Definition collectBaseBlockSlots (tree : aggregateBlockNode) : list baseBlockNode :=
  walkAggregate tree.

(** ** Capacities *)

Definition aggregateSlotCapacity (maxSiblingNodes baseBlockSize : Z) : Z :=
  doubling baseBlockSize maxSiblingNodes.

(** [for b != 0 { a, b = b, a%b }]; the second component decreases. *)
Fixpoint gcdLoop (fuel : nat) (a b : Z) : Z :=
  match fuel with
  | O => a
  | S fuel => if b =? 0 then a else gcdLoop fuel b (Z.rem a b)
  end.
Definition blockTreeGCD (a b : Z) : Z :=
  if a =? 0 then b else gcdLoop (S (Z.to_nat b)) a b.

Definition newEmptyChildAggregate (capacity baseBlockSize : Z) : aggregateBlockNode :=
  let k := Z.to_nat (Z.quot capacity baseBlockSize) in
  MkAggregate "" (BaseNode <$> replicate k (newEmptyBaseBlock baseBlockSize))
    (Z.of_nat k * baseBlockSize).

(** ** Packing *)

Definition packHostsIntoAggregate (id : string) (sortedHosts : list HostInfo)
    (numBaseBlocks baseBlockSize : Z) : aggregateBlockNode :=
  let blocks := splitIntoBaseBlocks id sortedHosts baseBlockSize in
  let padded := blocks ++ replicate (Z.to_nat numBaseBlocks - length blocks)
                            (newEmptyBaseBlock baseBlockSize) in
  MkAggregate id (BaseNode <$> padded) (Z.of_nat (length padded) * baseBlockSize).

Definition ceilDiv (a b : Z) : Z := Z.quot (a + b - 1) b.

Section Range.
Context `{RangeOrder}.

Definition toSingleLevelDomainAggregate (src : option BlockVertex) (maxSiblingNodes : Z)
    (blockSizes : list Z) : option aggregateBlockNode :=
  match src, blockSizes with
  | Some v, baseBlockSize :: larger =>
      let numBaseBlocks :=
        match larger with
        | [] => ceilDiv (ActualNodeCount v) baseBlockSize
        | _ => Z.quot (aggregateSlotCapacity maxSiblingNodes baseBlockSize) baseBlockSize
        end in
      Some (packHostsIntoAggregate (bv_ID v) (hostsSorted (default ∅ (Hosts v)))
              (Z.max numBaseBlocks 1) baseBlockSize)
  | _, _ => None
  end.

(** The first of the larger block sizes that holds [n], or [n] itself. *)
Fixpoint alignTo (n : Z) (larger : list Z) : Z :=
  match larger with
  | [] => n
  | bs :: larger => if n <=? bs then bs else alignTo n larger
  end.

Definition recurseChildrenIntoAggregate
    (toDomainAggregate : option BlockVertex → Z → list Z → option aggregateBlockNode)
    (src : BlockVertex) (numBaseBlocks : Z) (baseBlockSize : Z) (larger : list Z) :
    aggregateBlockNode :=
  let slots := concat ((λ name,
    match toDomainAggregate (ChildAt (Some src) name) (MaxChildNodeCount src)
            (baseBlockSize :: larger) with
    | None => []
    | Some childAgg => collectBaseBlockSlots childAgg
    end) <$> sorted_keys (Children src)) in
  let actual := Z.of_nat (length slots) in
  let numBaseBlocks :=
    if (numBaseBlocks <? actual) && negb (bool_decide (larger = [])) then
      let alignSize := alignTo (actual * baseBlockSize) larger in
      let aggregateWidth := Z.quot (aggregateSlotCapacity alignSize baseBlockSize) baseBlockSize in
      ceilDiv actual aggregateWidth * aggregateWidth
    else numBaseBlocks in
  let padded := slots ++ replicate (Z.to_nat numBaseBlocks - length slots)
                           (newEmptyBaseBlock baseBlockSize) in
  MkAggregate (bv_ID src) (BaseNode <$> padded) (Z.of_nat (length padded) * baseBlockSize).

(** The recursion follows the tree; [fuel] bounds its depth. *)
Fixpoint toDomainAggregate (fuel : nat) (src : option BlockVertex) (maxSiblingNodes : Z)
    (blockSizes : list Z) : option aggregateBlockNode :=
  match src, blockSizes with
  | Some v, baseBlockSize :: larger =>
      let lastBlockSize := default baseBlockSize (last blockSizes) in
      match Hosts v with
      | Some hosts =>
          let numBaseBlocks :=
            if lastBlockSize <? maxSiblingNodes then ceilDiv (ActualNodeCount v) baseBlockSize
            else Z.quot (aggregateSlotCapacity maxSiblingNodes baseBlockSize) baseBlockSize in
          Some (packHostsIntoAggregate (bv_ID v) (hostsSorted hosts)
                  (Z.max numBaseBlocks 1) baseBlockSize)
      | None =>
          match fuel with
          | O => None
          | S fuel =>
              let slot := aggregateSlotCapacity (Z.min lastBlockSize maxSiblingNodes) baseBlockSize in
              let numBaseBlocks := Z.max (Z.quot slot baseBlockSize) 1 in
              Some (recurseChildrenIntoAggregate (toDomainAggregate fuel) v numBaseBlocks
                      baseBlockSize larger)
          end
      end
  | _, _ => None
  end.

(** Domains and sub-domains: two levels below the root. *)
Definition domainTreeDepth : nat := 2.

Definition isSingleLevelDomainTree (root : BlockVertex) : bool :=
  if decide (Children root = ∅) then false
  else forallb (λ kv, bool_decide (is_Some (Hosts kv.2) ∧ Children kv.2 = ∅)) (range (Children root)).

(** ** The root *)

Record rootState := MkRoot {
  r_children : list aggregateBlockNode;
  r_nodeCount : Z;
  r_childCapacity : Z
}.

Definition addChild (st : rootState) (domainAgg : option aggregateBlockNode) : rootState :=
  match domainAgg with
  | None => st
  | Some a =>
      MkRoot (r_children st ++ [a]) (r_nodeCount st + nodeCount a)
        (if r_childCapacity st =? 0 then nodeCount a
         else blockTreeGCD (r_childCapacity st) (nodeCount a))
  end.

(** [for result.nodeCount < targetCount { append empty child; += childCapacity }] *)
Fixpoint padRoot (fuel : nat) (st : rootState) (targetCount baseBlockSize : Z) : rootState :=
  match fuel with
  | O => st
  | S fuel =>
      if r_nodeCount st <? targetCount then
        padRoot fuel
          (MkRoot (r_children st ++ [newEmptyChildAggregate (r_childCapacity st) baseBlockSize])
             (r_nodeCount st + r_childCapacity st) (r_childCapacity st))
          targetCount baseBlockSize
      else st
  end.

Definition rootTarget (st : rootState) (rootDesired : Z) : Z :=
  let g := blockTreeGCD (r_childCapacity st) rootDesired in
  let step := Z.quot (r_childCapacity st) g * rootDesired in
  ceilDiv (r_nodeCount st) step * step.

Definition toRootAggregate (root : BlockVertex) (blockSizes : list Z) : option aggregateBlockNode :=
  match blockSizes with
  | [] => None
  | baseBlockSize :: _ =>
      if baseBlockSize <=? 0 then None
      else
        let rootDesired := default baseBlockSize (last blockSizes) in
        let singleLevel := isSingleLevelDomainTree root in
        let st := foldl (λ st name,
          addChild st
            (let domain := ChildAt (Some root) name in
             if singleLevel
             then toSingleLevelDomainAggregate domain (MaxChildNodeCount root) blockSizes
             else toDomainAggregate domainTreeDepth domain (MaxChildNodeCount root) blockSizes))
          (MkRoot [] 0 0) (sorted_keys (Children root)) in
        let st :=
          if (0 <? r_nodeCount st) && (0 <? r_childCapacity st) &&
             negb (Z.rem (r_nodeCount st) rootDesired =? 0)
          then let target := rootTarget st rootDesired in
               padRoot (Z.to_nat target) st target baseBlockSize
          else st in
        Some (MkAggregate (bv_ID root) (AggregateNode <$> r_children st) (r_nodeCount st))
  end.

Definition buildBlockTree (domains : DomainMap) (blockSizes : list Z) : option aggregateBlockNode :=
  match blockSizes with
  | [] => None
  | b :: _ => if b <=? 0 then None else toRootAggregate (GetDomainTree domains) blockSizes
  end.
End Range.

(** ** Blocks of the tree *)

Definition isEmptyBlock (b : option blockInfo) : bool :=
  match b with
  | None => true
  | Some b => bool_decide (b_name b = "") && bool_decide (b_nodes b = [])
  end.

Definition blockDisplayName (blockID primarydomain : string) : string :=
  if decide (primarydomain = "") then blockID else primarydomain.

Definition hostNamesFromLeaves (ls : list hostNode) : list string :=
  omap (λ leaf, h ← host leaf; if decide (HostName h = "") then None else Some (HostName h)) ls.

Definition domainIDsFromLeaves (ls : list hostNode) : list string :=
  sort_strings (foldl (λ ids leaf,
    match host leaf with
    | None => ids
    | Some h => if decide (Domain h = "" ∨ Domain h ∈ ids) then ids else ids ++ [Domain h]
    end) [] ls).

Definition blockNumber (seq : Z) : string := "block" +:+ pad 3 seq.

Definition baseBlockToBlockInfo (bb : baseBlockNode) (byName : gmap string blockInfo) (seq : Z) :
    blockInfo :=
  let id := blockNumber seq in
  let domainID := bb_domain bb in
  let nodes := hostNamesFromLeaves (leaves bb) in
  if negb (bool_decide (nodes = [])) then
    MkBlockInfo id (blockDisplayName (bb_id bb) domainID) 0 nodes
  else match head (omap (λ domain, b ← byName !! domain; Some (domain, b))
                     (domainIDsFromLeaves (leaves bb))) with
       | Some (domain, b) => MkBlockInfo id (blockDisplayName (bb_id bb) domain) 0 (b_nodes b)
       | None =>
           if decide (domainID = "") then MkBlockInfo id "" 0 []
           else MkBlockInfo id (blockDisplayName (bb_id bb) domainID) 0 []
       end.

(** ** [block_complement.go] *)

Section Complement.
Context `{RangeOrder}.

Definition domainsForBlocks (all : DomainMap) (blocks : list blockInfo) : DomainMap :=
  foldl (λ loc b,
    if decide (b_name b = "") then loc
    else match all !! b_name b with
         | None => loc
         | Some hosts =>
             foldl (λ loc kv,
               if decide (HostName kv.2 ∈ b_nodes b) then AddHostInfo loc (Some kv.2) else loc)
               loc (range hosts)
         end) NewDomainMap blocks.

Definition blocksByName (blocks : list blockInfo) : gmap string blockInfo :=
  foldl (λ m b, if decide (b_name b = "") then m else <[b_name b := b]> m) ∅ blocks.

Definition numbered (slots : list baseBlockNode) (byName : gmap string blockInfo) : list blockInfo :=
  imap (λ i bb, baseBlockToBlockInfo bb byName (Z.of_nat i + 1)) slots.

(** [nt.domains] is [None] when the graph has no domains. *)
Definition complementBlocks (nt_domains : option DomainMap) (blocks : list blockInfo)
    (blockSizes : list Z) : list blockInfo * list Z :=
  match nt_domains with
  | None => (blocks, blockSizes)
  | Some all =>
      let domains := domainsForBlocks all blocks in
      if decide (domains = ∅) then (blocks, blockSizes)
      else
        let blockSizes :=
          if decide (blockSizes = []) then InferTwoLevelBlockSizes domains else blockSizes in
        if decide (blockSizes = []) then (blocks, blockSizes)
        else match buildBlockTree domains blockSizes with
             | None => (blocks, blockSizes)
             | Some tree =>
                 (numbered (collectBaseBlockSlots tree) (blocksByName blocks), blockSizes)
             end
  end.
End Complement.

Example complement_ex :
  let hi d s n := MkHostInfo d ("i" +:+ n) n s in
  let dm := foldl (λ m h, AddHostInfo m (Some h)) NewDomainMap
    [hi "d1" "s1" "n1"; hi "d1" "s1" "n2"; hi "d1" "s2" "n3"; hi "d2" "s3" "n4"] in
  complementBlocks (Some dm) [MkBlockInfo "b1" "d1" 0 ["n1"; "n2"; "n3"]; MkBlockInfo "b2" "d2" 1 ["n4"]] [] =
  ([MkBlockInfo "block001" "s1" 0 ["n1"; "n2"]; MkBlockInfo "block002" "s2" 0 ["n3"];
    MkBlockInfo "block003" "s3" 0 ["n4"]; MkBlockInfo "block004" "" 0 []], [2; 4]).
Proof. vm_compute. reflexivity. Qed.

(** ** Lemmas: what the slots hold *)

(** The hosts of a list of base blocks, in order. *)
Definition slotHosts (bs : list baseBlockNode) : list HostInfo :=
  omap host (concat (leaves <$> bs)).

Definition sized (baseBlockSize : Z) (b : baseBlockNode) : Prop :=
  Z.of_nat (length (leaves b)) = baseBlockSize.

Lemma omap_empty n : omap host (emptyLeaves n) = [].
Proof. by induction n. Qed.

Lemma slotHosts_app bs1 bs2 : slotHosts (bs1 ++ bs2) = slotHosts bs1 ++ slotHosts bs2.
Proof. unfold slotHosts. by rewrite fmap_app, concat_app, omap_app. Qed.

Lemma slotHosts_cons b bs : slotHosts (b :: bs) = omap host (leaves b) ++ slotHosts bs.
Proof. unfold slotHosts. csimpl. by rewrite omap_app. Qed.

Section Base.
Context (base : Z) (Hbase : 0 < base).

Lemma newBaseBlock_hosts id hosts :
  omap host (leaves (newBaseBlock id hosts base)) = take (Z.to_nat base) hosts.
Proof.
  unfold newBaseBlock. simpl. rewrite omap_app, omap_empty, app_nil_r.
  induction (take (Z.to_nat base) hosts); csimpl; [done|]. by f_equal.
Qed.

Lemma newBaseBlock_sized id hosts : sized base (newBaseBlock id hosts base).
Proof.
  unfold sized, newBaseBlock, emptyLeaves. simpl.
  rewrite length_app, length_fmap, length_replicate, length_take. lia.
Qed.

Lemma newEmptyBaseBlock_hosts : omap host (leaves (newEmptyBaseBlock base)) = [].
Proof. unfold newEmptyBaseBlock. case_match; simpl; [done|apply omap_empty]. Qed.

Lemma newEmptyBaseBlock_sized : sized base (newEmptyBaseBlock base).
Proof.
  unfold sized, newEmptyBaseBlock, emptyLeaves. destruct (Z.leb_spec base 0); [lia|].
  simpl. rewrite length_replicate. lia.
Qed.

Lemma empties_hosts n : slotHosts (replicate n (newEmptyBaseBlock base)) = [].
Proof.
  induction n; [done|]. cbn [replicate]. by rewrite slotHosts_cons, newEmptyBaseBlock_hosts.
Qed.

Lemma empties_sized n : Forall (sized base) (replicate n (newEmptyBaseBlock base)).
Proof. apply Forall_replicate, newEmptyBaseBlock_sized. Qed.

(** Splitting keeps every host once, in order, and fills whole blocks. *)
Lemma splitLoop_spec fuel id hosts n :
  (length hosts ≤ fuel)%nat →
  slotHosts (splitLoop fuel id hosts base n) = hosts ∧
  Forall (sized base) (splitLoop fuel id hosts base n).
Proof.
  revert hosts n. induction fuel as [|fuel IH]; intros hosts n Hlen; simpl.
  { destruct hosts; [done|simpl in *; lia]. }
  destruct hosts as [|h hosts]; [done|]. set (hs := h :: hosts) in *.
  destruct (IH (drop (Z.to_nat base) hs) (n + 1)) as [Heq Hsz].
  { rewrite length_drop. unfold hs. simpl in *. lia. }
  split.
  - rewrite slotHosts_cons, newBaseBlock_hosts, Heq.
    rewrite take_take, Nat.min_id. apply take_drop.
  - constructor; [apply newBaseBlock_sized|done].
Qed.

Lemma splitIntoBaseBlocks_spec id hosts :
  slotHosts (splitIntoBaseBlocks id hosts base) = hosts ∧
  Forall (sized base) (splitIntoBaseBlocks id hosts base).
Proof. by apply splitLoop_spec. Qed.

Lemma walk_base_all (bs : list baseBlockNode) id n :
  collectBaseBlockSlots (MkAggregate id (BaseNode <$> bs) n) = bs.
Proof. unfold collectBaseBlockSlots. simpl. induction bs; csimpl; [done|]. by f_equal. Qed.

Lemma walk_agg_all (l : list aggregateBlockNode) id n :
  collectBaseBlockSlots (MkAggregate id (AggregateNode <$> l) n) =
    concat (collectBaseBlockSlots <$> l).
Proof. unfold collectBaseBlockSlots. simpl. induction l; csimpl; [done|]. by f_equal. Qed.

(** What each packing routine guarantees of its aggregate: it holds [hosts],
    in whole blocks, at least one of them, and counts its slots. *)
Definition packed (hosts : list HostInfo) (a : aggregateBlockNode) : Prop :=
  slotHosts (collectBaseBlockSlots a) ≡ₚ hosts ∧
  Forall (sized base) (collectBaseBlockSlots a) ∧
  nodeCount a = Z.of_nat (length (collectBaseBlockSlots a)) * base ∧
  (0 < length (collectBaseBlockSlots a))%nat.

Lemma packed_padded id slots k hosts :
  slotHosts slots ≡ₚ hosts → Forall (sized base) slots → (0 < Z.to_nat k)%nat →
  packed hosts
    (let padded := slots ++ replicate (Z.to_nat k - length slots) (newEmptyBaseBlock base) in
     MkAggregate id (BaseNode <$> padded) (Z.of_nat (length padded) * base)).
Proof.
  intros Hs Hsz Hk. cbv zeta. unfold packed. rewrite walk_base_all. split_and!.
  - by rewrite slotHosts_app, empties_hosts, app_nil_r.
  - apply Forall_app. split; [done|apply empties_sized].
  - done.
  - rewrite length_app, length_replicate. lia.
Qed.

Lemma pack_packed id hosts k :
  1 ≤ k → packed hosts (packHostsIntoAggregate id hosts k base).
Proof.
  intros Hk. destruct (splitIntoBaseBlocks_spec id hosts) as [Heq Hsz].
  apply packed_padded; [by rewrite Heq|done|lia].
Qed.

Lemma newEmptyChildAggregate_packed cap :
  0 < cap → (base | cap) → packed [] (newEmptyChildAggregate cap base) ∧
  nodeCount (newEmptyChildAggregate cap base) = cap.
Proof.
  intros Hcap [k ->]. assert (0 < k) by nia. unfold newEmptyChildAggregate.
  rewrite Z.quot_mul by lia. unfold packed. rewrite walk_base_all, length_replicate. simpl.
  rewrite empties_hosts. split_and!; try done; [apply empties_sized|lia|lia].
Qed.

End Base.

(** ** Domains *)

Lemma ceilDiv_pos a b : 0 < a → 0 < b → 0 < ceilDiv a b ∧ a ≤ ceilDiv a b * b.
Proof.
  intros Ha Hb. unfold ceilDiv. rewrite Z.quot_div_nonneg by lia.
  pose proof (Z.div_mod (a + b - 1) b ltac:(lia)). pose proof (Z.mod_pos_bound (a + b - 1) b Hb).
  split; [apply Z.div_str_pos; lia|]. nia.
Qed.

Section Domains.
Context `{RangeOrder} (base : Z) (larger : list Z) (Hbase : 0 < base).

Definition hostList (hosts : gmap string HostInfo) : list HostInfo := (map_to_list hosts).*2.

Lemma hostsSorted_perm hosts : hostsSorted hosts ≡ₚ hostList hosts.
Proof.
  unfold hostsSorted, sortHostsByName, hostList. rewrite merge_sort_Permutation. by rewrite range_perm.
Qed.

Lemma packed_perm hosts hosts' a : hosts ≡ₚ hosts' → packed base hosts a → packed base hosts' a.
Proof. intros Hp (H1 & H2 & H3 & H4). split_and!; try done. by rewrite H1. Qed.

Lemma leaf_packed fuel g hosts maxSib :
  ∃ a, toDomainAggregate fuel (Some (leafVertex g hosts)) maxSib (base :: larger) = Some a ∧
       packed base (hostList hosts) a.
Proof.
  eexists. split; [by destruct fuel|].
  eapply packed_perm; [apply hostsSorted_perm|]. apply pack_packed; [done|lia].
Qed.

Lemma single_packed v maxSib hosts :
  Hosts v = Some hosts →
  ∃ a, toSingleLevelDomainAggregate (Some v) maxSib (base :: larger) = Some a ∧
       packed base (hostList hosts) a.
Proof.
  intros Hv. eexists. split; [done|]. rewrite Hv. simpl.
  eapply packed_perm; [apply hostsSorted_perm|]. apply pack_packed; [done|lia].
Qed.

(** The hosts of a domain are the hosts of its groups. *)
Lemma groups_perm domain hosts gs :
  NoDup gs → (∀ n hi, hosts !! n = Some hi → groupOf domain hi ∈ gs) →
  concat ((λ g, hostList (groupHosts domain g hosts)) <$> gs) ≡ₚ hostList hosts.
Proof.
  intros Hnd Hcov. transitivity
    (concat ((λ g, filter (λ hi, groupOf domain hi = g) (hostList hosts)) <$> gs)).
  - clear Hnd Hcov. induction gs as [|g gs IH]; csimpl; [done|]. rewrite IH.
    apply Permutation_app_tail. unfold hostList, groupHosts.
    assert (map_to_list (filter (λ kv, groupOf domain kv.2 = g) hosts) ≡ₚ
            filter (λ kv, groupOf domain kv.2 = g) (map_to_list hosts)) as ->.
    { apply NoDup_Permutation; [apply NoDup_map_to_list|apply NoDup_filter, NoDup_map_to_list|].
      intros [k hi]. rewrite elem_of_map_to_list, map_lookup_filter_Some, list_elem_of_filter,
        elem_of_map_to_list. simpl. naive_solver. }
    induction (map_to_list hosts) as [|[k hi] l IHl]; [done|]. csimpl.
    rewrite !filter_cons. simpl. case_decide; csimpl; by rewrite IHl.
  - apply partition_perm; [done|]. intros hi Hin. unfold hostList in Hin.
    apply list_elem_of_fmap in Hin as ([n hi'] & -> & Hin%elem_of_map_to_list). by eapply Hcov.
Qed.

Lemma aggregateSlotCapacity_spec n :
  ∃ k, 0 ≤ k ∧ aggregateSlotCapacity n base = base * 2 ^ k ∧ n ≤ aggregateSlotCapacity n base ∧
       Z.quot (aggregateSlotCapacity n base) base = 2 ^ k ∧
       (k = 0 ∨ base * 2 ^ (k - 1) < n).
Proof.
  unfold aggregateSlotCapacity. destruct (doubling_spec base n Hbase) as (k & Hk & -> & Hle & Hmin).
  exists k. split_and!; [done|done|done| |done]. rewrite Z.mul_comm. apply Z.quot_mul. lia.
Qed.

Lemma recurse_packed rec src k hostss :
  (∀ name, name ∈ sorted_keys (Children src) →
     ∃ a, rec (ChildAt (Some src) name) (MaxChildNodeCount src) (base :: larger) = Some a ∧
          packed base (hostss name) a) →
  1 ≤ k →
  packed base (concat (hostss <$> sorted_keys (Children src)))
    (recurseChildrenIntoAggregate rec src k base larger).
Proof.
  intros Hrec Hk. unfold recurseChildrenIntoAggregate.
  set (slotsOf := λ name, match rec (ChildAt (Some src) name) (MaxChildNodeCount src) (base :: larger)
    with None => [] | Some a => collectBaseBlockSlots a end).
  assert (slotHosts (concat (slotsOf <$> sorted_keys (Children src))) ≡ₚ
            concat (hostss <$> sorted_keys (Children src)) ∧
          Forall (sized base) (concat (slotsOf <$> sorted_keys (Children src)))) as [Hh Hs].
  { revert Hrec. induction (sorted_keys (Children src)) as [|name names IH]; intros Hrec; csimpl; [done|].
    destruct IH as [IH1 IH2]; [intros; apply Hrec; set_solver|].
    destruct (Hrec name) as (a & Ha & Hp & Hsz & _); [set_solver|].
    rewrite slotHosts_app, IH1. unfold slotsOf at 1 2. rewrite Ha. split; [by rewrite Hp|].
    by apply Forall_app. }
  set (slots := concat _) in *. apply packed_padded; [done|done|done|].
  destruct (Z.ltb_spec k (Z.of_nat (length slots))) as [Hlt|Hge]; simpl; [|lia].
  destruct (negb _); [|lia].
  destruct (aggregateSlotCapacity_spec (alignTo (Z.of_nat (length slots) * base) larger))
    as (e & He & _ & _ & -> & _).
  assert (0 < 2 ^ e) by (apply Z.pow_pos_nonneg; lia).
  pose proof (ceilDiv_pos (Z.of_nat (length slots)) (2 ^ e) ltac:(lia) ltac:(done)). nia.
Qed.

Lemma domain_packed fuel domain hosts maxSib :
  hosts_wf hosts →
  ∃ a, toDomainAggregate (S fuel) (Some (domainVertex domain hosts)) maxSib (base :: larger) = Some a ∧
       packed base (hostList hosts) a.
Proof.
  intros Hwf. destruct (domainVertex_spec domain hosts Hwf) as (_ & _ & Hone & Htwo).
  destruct (hasSubDomain hosts) eqn:Hs.
  2:{ rewrite Hone by done. apply leaf_packed. }
  destruct (Htwo eq_refl) as [Hnone Hch].
  eexists. split; [simpl; by rewrite Hnone|].
  eapply packed_perm; [|apply (recurse_packed _ _ _
    (λ g, hostList (groupHosts domain g hosts)))].
  - apply groups_perm; [apply sorted_keys_NoDup|].
    intros n hi Hn. apply elem_of_sorted_keys.
    by rewrite (domainVertex_leaf domain hosts n hi).
  - intros name [bv Hbv]%elem_of_sorted_keys. simpl. rewrite Hbv.
    rewrite Hch in Hbv. case_decide; [done|]. simplify_eq. apply leaf_packed.
  - lia.
Qed.

End Domains.

(** ** The root *)

Lemma gcdLoop_spec fuel a b :
  0 ≤ a → 0 ≤ b → b < Z.of_nat fuel → gcdLoop fuel a b = Z.gcd a b.
Proof.
  revert a b. induction fuel as [|fuel IH]; intros a b Ha Hb Hf; simpl; [lia|].
  destruct (Z.eqb_spec b 0) as [->|Hb0].
  - rewrite Z.gcd_0_r, Z.abs_eq by done. done.
  - rewrite Z.rem_mod_nonneg by lia. pose proof (Z.mod_pos_bound a b ltac:(lia)).
    rewrite IH by lia. rewrite Z.gcd_comm, Z.gcd_mod by done. apply Z.gcd_comm.
Qed.

(** Euclid's loop computes the greatest common divisor. *)
Lemma blockTreeGCD_spec a b : 0 ≤ a → 0 ≤ b → blockTreeGCD a b = Z.gcd a b.
Proof.
  intros Ha Hb. unfold blockTreeGCD. destruct (Z.eqb_spec a 0) as [->|Ha0].
  - by rewrite Z.gcd_0_l, Z.abs_eq.
  - apply gcdLoop_spec; lia.
Qed.

Section Root.
Context (base : Z) (Hbase : 0 < base).

Definition rootSlots (st : rootState) : list baseBlockNode :=
  concat (collectBaseBlockSlots <$> r_children st).

(** Between domains: the slots hold the hosts so far, and the capacity is a
    common divisor of the parts. *)
Definition root_inv (hosts : list HostInfo) (st : rootState) : Prop :=
  slotHosts (rootSlots st) ≡ₚ hosts ∧ Forall (sized base) (rootSlots st) ∧
  r_nodeCount st = Z.of_nat (length (rootSlots st)) * base ∧
  ((st = MkRoot [] 0 0) ∨
   (0 < r_childCapacity st ∧ (base | r_childCapacity st) ∧
    (r_childCapacity st | r_nodeCount st) ∧ 0 < r_nodeCount st)).

Lemma addChild_inv hosts hosts' st a :
  root_inv hosts st → packed base hosts' a → root_inv (hosts ++ hosts') (addChild st (Some a)).
Proof.
  intros (H1 & H2 & H3 & H4) (P1 & P2 & P3 & P4). unfold addChild, root_inv, rootSlots. simpl.
  rewrite fmap_app, concat_app. csimpl. rewrite app_nil_r. fold (rootSlots st).
  split_and!.
  - rewrite slotHosts_app. by rewrite H1, P1.
  - by apply Forall_app.
  - rewrite length_app, H3, P3. lia.
  - right. assert (0 < nodeCount a) as Ha by nia.
    assert (base | nodeCount a) as Hba by (rewrite P3; apply Z.divide_factor_r).
    destruct H4 as [->|(C1 & C2 & C3 & C4)]; simpl.
    + by split_and!.
    + destruct (Z.eqb_spec (r_childCapacity st) 0); [lia|].
      rewrite blockTreeGCD_spec by lia. split_and!.
      * pose proof (Z.gcd_nonneg (r_childCapacity st) (nodeCount a)).
        assert (Z.gcd (r_childCapacity st) (nodeCount a) ≠ 0); [|lia].
        intros ?%Z.gcd_eq_0_l. lia.
      * by apply Z.gcd_greatest.
      * apply Z.divide_add_r; [|apply Z.gcd_divide_r].
        etrans; [apply Z.gcd_divide_l|done].
      * lia.
Qed.

Lemma padRoot_spec fuel hosts st target :
  root_inv hosts st → 0 < r_childCapacity st → (r_childCapacity st | target) →
  r_nodeCount st ≤ target → target - r_nodeCount st ≤ Z.of_nat fuel →
  root_inv hosts (padRoot fuel st target base) ∧ r_nodeCount (padRoot fuel st target base) = target.
Proof.
  revert st. induction fuel as [|fuel IH]; intros st Hi Hcap Hdiv Hle Hf; simpl.
  { split; [done|lia]. }
  destruct (Z.ltb_spec (r_nodeCount st) target) as [Hlt|?]; [|split; [done|lia]].
  destruct Hi as (H1 & H2 & H3 & H4). destruct H4 as [->|(C1 & C2 & C3 & C4)]; [done|].
  destruct (newEmptyChildAggregate_packed base Hbase (r_childCapacity st) C1 C2)
    as [(P1 & P2 & P3 & P4) Pn].
  assert (r_nodeCount st + r_childCapacity st ≤ target) as Hle'.
  { destruct Hdiv as [x Hx], C3 as [y Hy]. assert (y < x) by nia. nia. }
  set (e := newEmptyChildAggregate (r_childCapacity st) base) in *. clearbody e.
  apply IH; simpl; [|done|done|done|lia].
  unfold root_inv, rootSlots. simpl. rewrite fmap_app, concat_app. csimpl. rewrite app_nil_r.
  fold (rootSlots st). split_and!.
  - rewrite slotHosts_app, P1, app_nil_r. done.
  - by apply Forall_app.
  - rewrite length_app, Nat2Z.inj_add, Z.mul_add_distr_r, <-H3, <-P3, Pn. done.
  - right. split_and!; try done; [|lia]. apply Z.divide_add_r; [done|reflexivity].
Qed.

Lemma rootTarget_spec hosts st desired :
  root_inv hosts st → 0 < r_childCapacity st → 0 < r_nodeCount st → 0 < desired →
  (desired | rootTarget st desired) ∧ (r_childCapacity st | rootTarget st desired) ∧
  r_nodeCount st ≤ rootTarget st desired.
Proof.
  intros Hi Hc Hn Hd. unfold rootTarget. rewrite blockTreeGCD_spec by lia.
  set (c := r_childCapacity st) in *. set (g := Z.gcd c desired).
  assert (0 < g) as Hg.
  { pose proof (Z.gcd_nonneg c desired). assert (g ≠ 0); [|unfold g in *; lia].
    intros ?%Z.gcd_eq_0_l. lia. }
  destruct (Z.gcd_divide_l c desired) as [x Hx]. destruct (Z.gcd_divide_r c desired) as [y Hy].
  fold g in Hx, Hy. assert (Z.quot c g = x) as -> by (rewrite Hx; apply Z.quot_mul; lia).
  assert (0 < x) by nia. assert (0 < x * desired) as Hstep by nia.
  pose proof (ceilDiv_pos (r_nodeCount st) (x * desired) Hn Hstep) as [_ Hle].
  split_and!; [| |done].
  - apply Z.divide_mul_r, Z.divide_factor_r.
  - apply Z.divide_mul_r. exists y. rewrite Hx, Hy at 1. lia.
Qed.
End Root.

(** The hosts of a domain map. *)
Definition allHosts `{RangeOrder} (m : DomainMap) : list HostInfo :=
  concat (hostList <$> (range m).*2).

Section Build.
Context `{RangeOrder} (base : Z) (larger : list Z) (Hbase : 0 < base).

Definition domainHosts (m : DomainMap) (name : string) : list HostInfo :=
  hostList (default ∅ (m !! name)).

Lemma domain_keys (m : DomainMap) :
  (∀ d, Children (GetDomainTree m) !! d = domainVertex d <$> m !! d) →
  sorted_keys (Children (GetDomainTree m)) = sorted_keys m.
Proof.
  intros Hch. apply sorted_keys_same. intros d. by rewrite Hch, fmap_is_Some.
Qed.

Lemma allHosts_keys (m : DomainMap) :
  concat (domainHosts m <$> sorted_keys m) ≡ₚ allHosts m.
Proof.
  unfold allHosts, sorted_keys. rewrite sort_strings_perm, range_perm, <-!list_fmap_compose.
  apply reflexive_eq. f_equal. apply Forall_fmap_ext_1, Forall_forall.
  intros [d hosts] Hd%elem_of_map_to_list. unfold domainHosts. simpl. by rewrite Hd.
Qed.

Definition domainAggregate (m : DomainMap) (single : bool) (name : string) :
    option aggregateBlockNode :=
  let domain := ChildAt (Some (GetDomainTree m)) name in
  if single
  then toSingleLevelDomainAggregate domain (MaxChildNodeCount (GetDomainTree m)) (base :: larger)
  else toDomainAggregate domainTreeDepth domain (MaxChildNodeCount (GetDomainTree m)) (base :: larger).

Lemma domainAggregate_packed m name hosts :
  wf m → m !! name = Some hosts →
  ∃ a, domainAggregate m (isSingleLevelDomainTree (GetDomainTree m)) name = Some a ∧
       packed base (hostList hosts) a.
Proof.
  intros Hm Hn. destruct (GetDomainTree_fold m) as (_ & _ & Hch & _).
  unfold domainAggregate, ChildAt. cbv zeta. rewrite Hch, Hn.
  change (domainVertex name <$> Some hosts) with (Some (domainVertex name hosts)).
  pose proof (wf_hosts m name hosts Hm Hn) as Hwf.
  destruct (isSingleLevelDomainTree (GetDomainTree m)) eqn:Hsingle; [|by apply domain_packed].
  apply single_packed; [done|]. destruct (domainVertex_spec name hosts Hwf) as (_ & _ & Hone & Htwo).
  destruct (hasSubDomain hosts); [exfalso|by rewrite Hone].
  destruct (Htwo eq_refl) as [Hnone _]. unfold isSingleLevelDomainTree in Hsingle.
  case_decide; [done|]. rewrite forallb_forall in Hsingle.
  specialize (Hsingle (name, domainVertex name hosts)).
  assert ((name, domainVertex name hosts) ∈ range (Children (GetDomainTree m))) as Hin.
  { apply elem_of_range. by rewrite Hch, Hn. }
  apply list_elem_of_In in Hin. specialize (Hsingle Hin). simpl in Hsingle.
  apply bool_decide_eq_true in Hsingle as [[? Hh] _]. congruence.
Qed.

Lemma root_fold m names :
  wf m → (∀ n, n ∈ names → is_Some (m !! n)) →
  root_inv base (concat (domainHosts m <$> names))
    (foldl (λ st name, addChild st
       (domainAggregate m (isSingleLevelDomainTree (GetDomainTree m)) name)) (MkRoot [] 0 0) names).
Proof.
  intros Hm Hdom.
  apply (foldl_prefix_inv (λ l st, root_inv base (concat (domainHosts m <$> l)) st)).
  { split_and!; try done. by left. }
  intros l1 name l2 st Hl Hi. destruct (Hdom name) as [hosts Hh]; [rewrite Hl; set_solver|].
  destruct (domainAggregate_packed m name hosts Hm Hh) as (a & -> & Hp).
  rewrite fmap_app, concat_app. csimpl. rewrite app_nil_r. apply addChild_inv; [done|done|].
  unfold domainHosts. by rewrite Hh.
Qed.

Lemma buildBlockTree_spec m :
  wf m → 0 < default base (last (base :: larger)) →
  ∃ tree, buildBlockTree m (base :: larger) = Some tree ∧
    slotHosts (collectBaseBlockSlots tree) ≡ₚ allHosts m ∧
    Forall (sized base) (collectBaseBlockSlots tree) ∧
    nodeCount tree = Z.of_nat (length (collectBaseBlockSlots tree)) * base ∧
    (default base (last (base :: larger)) | nodeCount tree).
Proof.
  intros Hm Hlast. destruct (GetDomainTree_fold m) as (_ & _ & Hch & _).
  unfold buildBlockTree, toRootAggregate. destruct (Z.leb_spec base 0); [lia|].
  eexists. split; [done|]. rewrite walk_agg_all.
  set (desired := default base (last (base :: larger))) in *.
  rewrite (domain_keys m Hch).
  pose proof (root_fold m (sorted_keys m) Hm) as Hi.
  specialize (Hi ltac:(intros n; by rewrite elem_of_sorted_keys)).
  unfold domainAggregate in Hi. cbv zeta in Hi. cbv zeta.
  set (st := foldl _ (MkRoot [] 0 0) (sorted_keys m)) in *.
  assert (∀ st', root_inv base (concat (domainHosts m <$> sorted_keys m)) st' →
    (desired | r_nodeCount st') →
    slotHosts (concat (collectBaseBlockSlots <$> r_children st')) ≡ₚ allHosts m ∧
    Forall (sized base) (concat (collectBaseBlockSlots <$> r_children st')) ∧
    r_nodeCount st' = Z.of_nat (length (concat (collectBaseBlockSlots <$> r_children st'))) * base ∧
    (desired | r_nodeCount st')) as Hfin.
  { intros st' (H1 & H2 & H3 & _) Hdiv. split_and!; try done.
    rewrite <-allHosts_keys. done. }
  simpl. apply Hfin.
  - case_match eqn:Hc; [|done]. apply andb_true_iff in Hc as [[Hc1 Hc2]%andb_true_iff Hc3].
    apply Z.ltb_lt in Hc1, Hc2.
    destruct (rootTarget_spec base _ st desired Hi Hc2 Hc1 Hlast) as (T1 & T2 & T3).
    apply padRoot_spec; [done|done|done|done|done|lia].
  - case_match eqn:Hc.
    + apply andb_true_iff in Hc as [[Hc1 Hc2]%andb_true_iff Hc3]. apply Z.ltb_lt in Hc1, Hc2.
      destruct (rootTarget_spec base _ st desired Hi Hc2 Hc1 Hlast) as (T1 & T2 & T3).
      destruct (padRoot_spec base Hbase (Z.to_nat (rootTarget st desired)) _ st _ Hi Hc2 T2 T3)
        as [_ ->]; [lia|done].
    + destruct Hi as (_ & _ & _ & [->|(C1 & _ & _ & C4)]); [apply Z.divide_0_r|].
      apply Z.ltb_lt in C1, C4. rewrite C1, C4 in Hc. simpl in Hc.
      apply negb_false_iff, Z.eqb_eq in Hc. by apply Z.rem_divide; [lia|].
Qed.
End Build.

(** ** Complementing *)

Definition lookup2 (m : DomainMap) (d n : string) : option HostInfo := m !! d ≫= lookup n.

Lemma AddHostInfo_lookup2 m hi d n :
  lookup2 (AddHostInfo m (Some hi)) d n =
    if decide (Domain hi ≠ "" ∧ d = Domain hi ∧ n = HostName hi) then Some hi else lookup2 m d n.
Proof.
  unfold AddHostInfo, lookup2. case_decide as Hd; [by rewrite decide_False by naive_solver|].
  destruct (m !! Domain hi) as [hosts|] eqn:Hm; rewrite lookup_insert.
  - case_decide as Heq; [subst d|by rewrite decide_False by naive_solver].
    rewrite Hm. simpl. rewrite lookup_insert. case_decide as Hn.
    + subst n. by rewrite decide_True by done.
    + by rewrite decide_False by naive_solver.
  - case_decide as Heq; [subst d|by rewrite decide_False by naive_solver].
    rewrite Hm. simpl. rewrite lookup_singleton. case_decide as Hn.
    + subst n. by rewrite decide_True by done.
    + by rewrite decide_False by naive_solver.
Qed.

Section ComplementSpec.
Context `{RangeOrder}.

Lemma domainsForBlocks_wf all blocks : wf (domainsForBlocks all blocks).
Proof.
  unfold domainsForBlocks. apply foldl_inv; [apply map_Forall_empty|].
  intros m b _ Hm. case_decide; [done|]. destruct (all !! b_name b) as [hosts|]; [|done].
  apply foldl_inv; [done|]. intros m' [n hi] _ Hm'. case_decide; [by apply AddHostInfo_wf|done].
Qed.

(** The inner loop adds the hosts of a domain that the block owns. *)
Lemma own_hosts_lookup hosts d (nodes : list string) m d' n hi :
  d ≠ "" → map_Forall (λ n hi, HostName hi = n ∧ Domain hi = d) hosts →
  lookup2 (foldl (λ loc kv, if decide (HostName kv.2 ∈ nodes) then AddHostInfo loc (Some kv.2) else loc)
             m (range hosts)) d' n = Some hi ↔
  (d' = d ∧ n ∈ nodes ∧ hosts !! n = Some hi) ∨
  (lookup2 m d' n = Some hi ∧ ¬ (d' = d ∧ n ∈ nodes ∧ is_Some (hosts !! n))).
Proof.
  intros Hd Hwf.
  assert (∀ l, (∀ k h, (k, h) ∈ l → HostName h = k ∧ Domain h = d) → NoDup l.*1 → ∀ m,
    lookup2 (foldl (λ loc kv, if decide (HostName kv.2 ∈ nodes) then AddHostInfo loc (Some kv.2) else loc)
               m l) d' n = Some hi ↔
    (d' = d ∧ n ∈ nodes ∧ (n, hi) ∈ l) ∨
    (lookup2 m d' n = Some hi ∧ ¬ (d' = d ∧ n ∈ nodes ∧ ∃ h, (n, h) ∈ l))) as Hl.
  { induction l as [|[k h] l IH]; intros Hl Hnd m'; cbn [foldl snd]; [set_solver|].
    csimpl in Hnd. apply NoDup_cons in Hnd as [Hk Hnd].
    assert (HostName h = k ∧ Domain h = d) as [Hn' Hdom] by (apply Hl; set_solver).
    assert (∀ h', (k, h') ∉ l) as Hkl.
    { intros h' Hin. apply Hk, list_elem_of_fmap. by exists (k, h'). }
    destruct (decide (HostName h ∈ nodes)) as [Hin|Hin];
      rewrite IH by (done || set_solver); clear IH.
    - rewrite AddHostInfo_lookup2, Hn', Hdom. rewrite Hn' in Hin. case_decide as Hc.
      + destruct Hc as (_ & -> & ->). set_solver.
      + assert (¬ (d' = d ∧ n = k)) by naive_solver. set_solver.
    - rewrite Hn' in Hin. destruct (decide (n = k)) as [->|?]; set_solver. }
  rewrite Hl.
  - rewrite elem_of_range. split.
    + intros [?|[? Hno]]; [by left|right]. split; [done|]. intros (? & ? & [h ?]). apply Hno.
      split_and!; [done|done|]. exists h. by apply elem_of_range.
    + intros [?|[? Hno]]; [by left|right]. split; [done|]. intros (? & ? & [h ?%elem_of_range]).
      apply Hno. eauto.
  - intros k h ?%elem_of_range. by apply Hwf.
  - apply range_NoDup.
Qed.

(** The partition's domain map: exactly the hosts of the cluster map that a
    block of that domain owns. *)
Lemma domainsForBlocks_lookup all blocks d n hi :
  wf all →
  lookup2 (domainsForBlocks all blocks) d n = Some hi ↔
  lookup2 all d n = Some hi ∧ ∃ b, b ∈ blocks ∧ b_name b = d ∧ n ∈ b_nodes b.
Proof.
  intros Hall. unfold domainsForBlocks.
  apply (foldl_prefix_inv (λ l m, lookup2 m d n = Some hi ↔
    lookup2 all d n = Some hi ∧ ∃ b, b ∈ l ∧ b_name b = d ∧ n ∈ b_nodes b)).
  { unfold lookup2 at 1, NewDomainMap. rewrite lookup_empty. set_solver. }
  intros l1 b l2 m _ IH. case_decide as Hb.
  { rewrite IH. split; [set_solver|]. intros [Hl (b' & Hin & Hn & ?)]. split; [done|].
    apply elem_of_app in Hin as [?|?%list_elem_of_singleton]; [by exists b'|subst b'].
    exfalso. unfold lookup2 in Hl. destruct (all !! d) as [hosts|] eqn:Hd; [|done].
    destruct (Hall d hosts Hd) as [? _]. congruence. }
  destruct (all !! b_name b) as [hosts|] eqn:Hd.
  - destruct (Hall _ _ Hd) as (Hne & _ & Hh). rewrite own_hosts_lookup by done. rewrite IH.
    split.
    + intros [(-> & Hin & Hn)|[[Hl (b' & ? & ? & ?)] _]].
      * unfold lookup2. rewrite Hd. set_solver.
      * split; [done|]. exists b'. set_solver.
    + intros [Hl (b' & Hin & Hn & Hin')].
      destruct (decide (d = b_name b ∧ n ∈ b_nodes b)) as [[-> Hnb]|Hno].
      * left. unfold lookup2 in Hl. rewrite Hd in Hl. done.
      * right. split; [|naive_solver]. split; [done|]. exists b'.
        apply elem_of_app in Hin as [?|?%list_elem_of_singleton]; [done|subst b'; naive_solver].
  - rewrite IH. split; [set_solver|]. intros [Hl (b' & Hin & Hn & ?)]. split; [done|].
    apply elem_of_app in Hin as [?|?%list_elem_of_singleton]; [by exists b'|subst b' d].
    unfold lookup2 in Hl. by rewrite Hd in Hl.
Qed.

Lemma elem_of_allHosts m hi :
  wf m → hi ∈ allHosts m ↔ lookup2 m (Domain hi) (HostName hi) = Some hi.
Proof.
  intros Hm. unfold allHosts, lookup2, hostList. rewrite elem_of_concat. split.
  - intros (l & (hosts & -> & Hin)%list_elem_of_fmap & Hl).
    apply list_elem_of_fmap in Hl as ([n hi'] & -> & Hn%elem_of_map_to_list). simpl.
    apply list_elem_of_fmap in Hin as ([d hosts'] & -> & Hd%elem_of_range). simpl in *.
    destruct (Hm d hosts' Hd) as (_ & _ & Hh). destruct (Hh n hi' Hn) as [-> ->]. by rewrite Hd.
  - intros Hl. destruct (m !! Domain hi) as [hosts|] eqn:Hd; [|done]. simpl in Hl.
    exists (map_to_list hosts).*2. split.
    + apply list_elem_of_fmap. exists hosts. split; [done|]. apply list_elem_of_fmap.
      exists (Domain hi, hosts). by rewrite elem_of_range.
    + apply list_elem_of_fmap. exists (HostName hi, hi). by rewrite elem_of_map_to_list.
Qed.

(** The names a slot emits are the names of its hosts, also when it is empty. *)
Lemma baseBlockToBlockInfo_nodes bb byName seq :
  Forall (λ h, HostName h ≠ "") (omap host (leaves bb)) →
  b_nodes (baseBlockToBlockInfo bb byName seq) = HostName <$> omap host (leaves bb).
Proof.
  intros Hne.
  assert (hostNamesFromLeaves (leaves bb) = HostName <$> omap host (leaves bb)) as Heq.
  { unfold hostNamesFromLeaves. induction (leaves bb) as [|[[h|]] ls IH]; csimpl in *; [done| |by apply IH].
    apply Forall_cons in Hne as [Hh Hne]. rewrite decide_False by done. by rewrite IH. }
  unfold baseBlockToBlockInfo. rewrite Heq. case_bool_decide as Hnil; simpl; [|done].
  assert (omap host (leaves bb) = []) as Hom by (by destruct (omap host (leaves bb))).
  assert (domainIDsFromLeaves (leaves bb) = []) as ->.
  { unfold domainIDsFromLeaves. replace (foldl _ [] (leaves bb)) with (@nil string); [done|].
    induction (leaves bb) as [|[[h|]] ls IH]; csimpl in *; [done|done|by apply IH]. }
  simpl. rewrite Hom. by case_decide.
Qed.

Lemma numbered_nodes slots byName :
  Forall (λ h, HostName h ≠ "") (slotHosts slots) →
  concat (b_nodes <$> numbered slots byName) = HostName <$> slotHosts slots.
Proof.
  intros Hne. unfold numbered. rewrite fmap_imap.
  rewrite (imap_ext _ (const (λ bb, HostName <$> omap host (leaves bb)))).
  - rewrite imap_const. clear Hne. induction slots as [|b slots IH]; [done|].
    rewrite slotHosts_cons, fmap_app, <-IH. done.
  - intros i bb Hi. simpl. apply baseBlockToBlockInfo_nodes.
    apply list_elem_of_lookup_2, list_elem_of_split in Hi as (s1 & s2 & ->).
    rewrite slotHosts_app, slotHosts_cons, !Forall_app in Hne. tauto.
Qed.
Lemma domainsForBlocks_names all blocks :
  wf all → (∀ d hosts, all !! d = Some hosts → hosts !! "" = None) →
  Forall (λ h, HostName h ≠ "") (allHosts (domainsForBlocks all blocks)).
Proof.
  intros Hall Hne. apply Forall_forall. intros hi Hhi%elem_of_allHosts Hn; [|apply domainsForBlocks_wf].
  apply domainsForBlocks_lookup in Hhi as [Hl _]; [|done]. unfold lookup2 in Hl. rewrite Hn in Hl.
  destruct (all !! Domain hi) as [hosts|] eqn:Hd; [|done]. simpl in Hl.
  rewrite (Hne _ _ Hd) in Hl. done.
Qed.

Lemma numbered_lookup slots byName i b :
  numbered slots byName !! i = Some b → ∃ bb, slots !! i = Some bb ∧
  b = baseBlockToBlockInfo bb byName (Z.of_nat i + 1).
Proof.
  unfold numbered. rewrite list_lookup_imap. destruct (slots !! i); intros [= <-]. eauto.
Qed.

Lemma baseBlockToBlockInfo_id bb byName seq :
  b_id (baseBlockToBlockInfo bb byName seq) = blockNumber seq.
Proof. unfold baseBlockToBlockInfo. repeat case_match; done. Qed.

Lemma length_omap_host (ls : list hostNode) : (length (omap host ls) ≤ length ls)%nat.
Proof. induction ls as [|[[h|]] ls IH]; csimpl; lia. Qed.

Lemma last_pos base larger :
  Forall (λ s, 0 < s) (base :: larger) → 0 < default base (last (base :: larger)).
Proof.
  intros Hp. destruct (last (base :: larger)) as [x|] eqn:Hl; [|by inversion Hp]. simpl.
  rewrite Forall_forall in Hp. apply Hp. by apply last_Some_elem_of.
Qed.

Lemma elem_of_partition_hosts all blocks n :
  wf all →
  n ∈ HostName <$> allHosts (domainsForBlocks all blocks) ↔
  ∃ b hi, b ∈ blocks ∧ n ∈ b_nodes b ∧ lookup2 all (b_name b) n = Some hi.
Proof.
  intros Hall. rewrite list_elem_of_fmap. split.
  - intros (hi & -> & Hhi%elem_of_allHosts); [|apply domainsForBlocks_wf].
    apply domainsForBlocks_lookup in Hhi as (Hl & b & ? & Hb & ?); [|done].
    exists b, hi. by rewrite Hb.
  - intros (b & hi & Hb & Hn & Hl).
    assert (HostName hi = n ∧ Domain hi = b_name b) as [<- Hd].
    { unfold lookup2 in Hl. destruct (all !! b_name b) as [hosts|] eqn:Hh; [|done].
      destruct (Hall _ _ Hh) as (_ & _ & Hw). by apply Hw. }
    exists hi. split; [done|]. apply elem_of_allHosts; [apply domainsForBlocks_wf|].
    apply domainsForBlocks_lookup; [done|]. rewrite Hd. eauto.
Qed.

(** C7: With positive block sizes the block tree exists; its base blocks hold
    every host of the domain map exactly once, each of them has exactly the
    base block size of slots, and the padded slot count is a multiple of the
    largest block size. *)
Theorem block_tree_conserves_hosts m base larger :
  wf m → Forall (λ s, 0 < s) (base :: larger) →
  ∃ tree, buildBlockTree m (base :: larger) = Some tree ∧
    slotHosts (collectBaseBlockSlots tree) ≡ₚ allHosts m ∧
    Forall (sized base) (collectBaseBlockSlots tree) ∧
    nodeCount tree = Z.of_nat (length (collectBaseBlockSlots tree)) * base ∧
    (default base (last (base :: larger)) | nodeCount tree).
Proof.
  intros Hm Hs. apply buildBlockTree_spec; [by inversion Hs|done|]. by apply last_pos.
Qed.

(** C3: Complementing a partition's blocks yields blocks [block001],
    [block002], … that each list at most the base block size of nodes; their
    number of slots is a multiple of the largest block size; together they
    list each host of the partition's domains once, and the nodes listed are
    exactly those that one of the partition's blocks owns in the domain the
    block is named after.  Here every host is filed under its name, which is not
    empty, and its domain, none of which is empty; the partition has a host, and the block sizes, given or inferred, are there
    and, when given, positive. *)
Theorem complement_blocks_spec all blocks sizes base larger :
  wf all → (∀ d hosts, all !! d = Some hosts → hosts !! "" = None) →
  domainsForBlocks all blocks ≠ ∅ → Forall (λ s, 0 < s) sizes →
  (if decide (sizes = []) then InferTwoLevelBlockSizes (domainsForBlocks all blocks) else sizes)
    = base :: larger →
  ∃ out, complementBlocks (Some all) blocks sizes = (out, base :: larger) ∧
    concat (b_nodes <$> out) ≡ₚ HostName <$> allHosts (domainsForBlocks all blocks) ∧
    (∀ i b, out !! i = Some b → b_id b = blockNumber (Z.of_nat i + 1) ∧
                                Z.of_nat (length (b_nodes b)) ≤ base) ∧
    (default base (last (base :: larger)) | Z.of_nat (length out) * base) ∧
    (∀ n, n ∈ concat (b_nodes <$> out) ↔
       ∃ b hi, b ∈ blocks ∧ n ∈ b_nodes b ∧ lookup2 all (b_name b) n = Some hi).
Proof.
  intros Hall Hne Hdom Hpos Hsizes.
  assert (Forall (λ s, 0 < s) (base :: larger)) as Hp.
  { rewrite <-Hsizes. case_decide; [apply inferred_pos|done]. }
  pose proof (domainsForBlocks_wf all blocks) as Hwf.
  assert (0 < base) as Hbase by (by inversion Hp).
  destruct (buildBlockTree_spec base larger Hbase _ Hwf (last_pos _ _ Hp))
    as (tree & Htree & Hhosts & Hsized & Hcount & Hdiv).
  pose proof (domainsForBlocks_names _ blocks Hall Hne) as Hnames.
  assert (Forall (λ h, HostName h ≠ "") (slotHosts (collectBaseBlockSlots tree))) as Hsn
    by (by rewrite Hhosts).
  pose proof (numbered_nodes _ (blocksByName blocks) Hsn) as Hnodes.
  exists (numbered (collectBaseBlockSlots tree) (blocksByName blocks)).
  split; [|split; [|split; [|split]]].
  - unfold complementBlocks. rewrite decide_False by done. rewrite Hsizes, decide_False by done.
    by rewrite Htree.
  - by rewrite Hnodes, Hhosts.
  - intros i b (bb & Hbb & ->)%numbered_lookup. rewrite baseBlockToBlockInfo_id. split; [done|].
    rewrite baseBlockToBlockInfo_nodes.
    + rewrite length_fmap. pose proof (Forall_lookup_1 _ _ _ _ Hsized Hbb) as Hb.
      unfold sized in Hb. pose proof (length_omap_host (leaves bb)). lia.
    + apply list_elem_of_lookup_2, list_elem_of_split in Hbb as (s1 & s2 & Heq).
      rewrite Heq, slotHosts_app, slotHosts_cons, !Forall_app in Hsn. tauto.
  - unfold numbered. rewrite length_imap. by rewrite <-Hcount.
  - intros n. rewrite Hnodes, Hhosts. apply elem_of_partition_hosts; done.
Qed.
End ComplementSpec.

(** ** Witnesses *)

Definition w_blocks : list blockInfo :=
  [MkBlockInfo "b1" "d1" 0 ["n1"; "n2"]; MkBlockInfo "b2" "d2" 1 ["n9"]].

Lemma block_tree_conserves_hosts_witness :
  ∃ tree, buildBlockTree w_map [2; 4] = Some tree ∧ nodeCount tree = 8 ∧
    slotHosts (collectBaseBlockSlots tree) ≡ₚ allHosts w_map.
Proof.
  destruct (block_tree_conserves_hosts w_map 2 [4]) as (tree & Ht & Hh & _).
  - apply (bool_decide_unpack _). vm_compute. exact I.
  - repeat constructor.
  - exists tree. split; [exact Ht|split; [|exact Hh]].
    revert Ht. vm_compute. intros [= <-]. reflexivity.
Defined.

Lemma complement_blocks_spec_witness :
  ∃ out, complementBlocks (Some w_map) w_blocks [] = (out, [1; 2]) ∧
    ("n2" ∈ concat (b_nodes <$> out) ↔
       ∃ b hi, b ∈ w_blocks ∧ "n2" ∈ b_nodes b ∧ lookup2 w_map (b_name b) "n2" = Some hi).
Proof.
  destruct (complement_blocks_spec w_map w_blocks [] 1 [2]) as (out & Ho & _ & _ & _ & Hn).
  - apply (bool_decide_unpack _). vm_compute. exact I.
  - assert (map_Forall (λ d hosts, hosts !! "" = None) w_map) as Hf
      by (apply (bool_decide_unpack _); vm_compute; exact I).
    exact Hf.
  - intros He. vm_compute in He. discriminate He.
  - constructor.
  - vm_compute. reflexivity.
  - exists out. split; [exact Ho|apply Hn].
Defined.

End BlockTree.
