(* ===== verification/Topology.v ===== *)
(** * The topology graph: [pkg/topology/topology.go], [graph.go], [instances.go]

    A provider reports, for each compute instance, the switches above it
    ([ClusterTopology]); [ToGraph] turns the list into the switch graph and
    the accelerator domains that the engines translate.  Vertices are shared
    and mutated through pointers while the graph is built, so a graph is a
    location in a heap of vertices. *)

From S2P Require Import Prelude GoStrings Domain.
Open Scope Z_scope.

(** ** Constants of [topology.go] *)

Definition TopologyTree : string := "topology/tree".
Definition TopologyBlock : string := "topology/block".
Definition TopologyFlat : string := "topology/flat".
Definition NoTopology : string := "no-topology".
Definition KeyFabricTierPrefix : string := "fabric.topograph.run/tier-".
Definition KeyTopologyXclrDomain : string := "accelerator.topograph.run/domain".
Definition KeyTopologyXclrSubDomain : string := "accelerator.topograph.run/sub-domain".

Definition FabricTierKey (tier : Z) : string := KeyFabricTierPrefix +:+ itoa tier.

(** ** Vertices

    [Vertices] maps a key to a pointer, [None] being [nil].  A nil map and an
    empty map are not told apart (the code never writes to a nil one). *)
Abbreviation loc := nat (only parsing).

Record Vertex := MkVertex {
  v_Name : string;
  v_ID : string;
  Vertices : gmap string (option loc)
}.
Abbreviation heap := (gmap loc Vertex).

(** Pointers of a program are never dangling; the zero vertex makes [deref]
    total. *)
Definition zeroVertex : Vertex := MkVertex "" "" ∅.
Definition deref (h : heap) (l : loc) : Vertex := default zeroVertex (h !! l).

#[global] Instance Vertex_eq_dec : EqDecision Vertex.
Proof. solve_decision. Defined.

(** ** Instances *)

Record Instance_ := MkInstance {
  i_ID : string;
  NetworkLayers : list string;
  Labels : option (gmap string string);
  NetLayers : list string
}.

Record FabricTier := MkTier { t_ID : string; t_Name : string }.
#[global] Instance FabricTier_eq_dec : EqDecision FabricTier.
Proof. solve_decision. Defined.

Record InstanceTopology := MkInst {
  it_InstanceID : string;
  FabricTiers : list FabricTier;
  XclrDomainID : string;
  XclrSubDomainID : string;
  it_Instance : option Instance_
}.

Record ComputeInstances := MkCI { Region : string; ci_Instances : gmap string string }.

(** [Tiers] is a pointer into the heap of the graph. *)
Record Graph := MkGraph {
  g_heap : heap;
  Tiers : option loc;
  Domains : option Domain.DomainMap;
  g_Instances : option (gmap string Instance_)
}.

Module Topo.
Import Domain.

(** ** [FabricTiers] *)

Definition ClosestFirstFabricTiers (ids : list string) : list FabricTier :=
  (λ id, MkTier id "") <$> ids.

(** [tiers[len(ids)-i-1].ID = id] for every [i]. *)
Definition RootFirstFabricTiers (ids : list string) : list FabricTier :=
  foldl (λ tiers '(i, id), <[(length ids - i - 1)%nat := MkTier id ""]> tiers)
    (replicate (length ids) (MkTier "" "")) (imap pair ids).

Definition InstanceTopology_String (inst : InstanceTopology) : string :=
  "Instance:" +:+ it_InstanceID inst +:+
  foldl (λ buf '(index, tier),
    if decide (t_ID tier = "") then buf
    else buf +:+ " Fabric-Tier-" +:+ itoa (Z.of_nat index) +:+ ":" +:+ t_ID tier +:+
         (if decide (t_Name tier = "") then "" else " (" +:+ t_Name tier +:+ ")"))
    "" (imap pair (FabricTiers inst)) +:+
  (if decide (XclrDomainID inst = "") then ""
   else " XclrDomain:" +:+ XclrDomainID inst +:+
        (if decide (XclrSubDomainID inst = "") then ""
         else " XclrSubDomain:" +:+ XclrSubDomainID inst)).

(** A cluster topology is the list of its instances. *)
Definition ClusterTopology : Type := list InstanceTopology.
Definition NewClusterTopology : ClusterTopology := [].
Definition Append (c : ClusterTopology) (inst : InstanceTopology) : ClusterTopology := c ++ [inst].
Definition Len (c : ClusterTopology) : Z := Z.of_nat (length c).

Definition AttachInstances (c : ClusterTopology) (instances : gmap string Instance_) :
    ClusterTopology :=
  (λ topo, match instances !! it_InstanceID topo with
           | None => topo
           | Some inst => MkInst (it_InstanceID topo) (FabricTiers topo) (XclrDomainID topo)
                            (XclrSubDomainID topo) (Some inst)
           end) <$> c.

Definition cloneStringMap (values : option (gmap string string)) : option (gmap string string) :=
  match values with
  | None => None
  | Some m => if decide (m = ∅) then None else Some m
  end.
Definition CloneForTopology (inst : Instance_) : Instance_ :=
  MkInstance (i_ID inst) (NetLayers inst) (cloneStringMap (Labels inst)) [].

(** ** [Normalize] *)

Definition tierID (tiers : list FabricTier) (level : nat) : string :=
  match tiers !! level with Some t => t_ID t | None => "" end.

(** The loop from level [n-1] down to 0: [Some b] when a level decides. *)
Fixpoint tiersLess (n : nat) (a b : list FabricTier) : option bool :=
  match n with
  | O => None
  | S level =>
      let aID := tierID a level in
      let bID := tierID b level in
      if decide (aID = bID) then tiersLess level a b else Some (String.ltb aID bID)
  end.

Definition less (a b : InstanceTopology) : bool :=
  let n := Nat.max (length (FabricTiers a)) (length (FabricTiers b)) in
  match tiersLess n (FabricTiers a) (FabricTiers b) with
  | Some r => r
  | None => String.ltb (it_InstanceID a) (it_InstanceID b)
  end.

(** [sort.Slice] with [less]: [a] may stay before [b] unless [b] is less. *)
Definition inst_le (a b : InstanceTopology) : Prop := less b a = false.
#[global] Instance inst_le_dec : RelDecision inst_le.
Proof. intros a b. unfold inst_le. apply _. Defined.

Definition sortInstances (c : ClusterTopology) : ClusterTopology := merge_sort inst_le c.

(** [switches] and [levelCounts] of the naming loop. *)
Record naming := MkNaming { levelCounts : gmap nat Z; switches : gmap nat (gmap string string) }.

Definition switchName (level : nat) (n : Z) : string :=
  "switch." +:+ itoa (Z.of_nat level + 1) +:+ "." +:+ itoa n.

Definition nameTier (st : naming) (level : nat) (tier : FabricTier) : naming * FabricTier :=
  if decide (t_ID tier = "") then (st, tier)
  else
    let names := default ∅ (switches st !! level) in
    match names !! t_ID tier with
    | Some name => (st, MkTier (t_ID tier) name)
    | None =>
        let n := default 0 (levelCounts st !! level) + 1 in
        let name := switchName level n in
        (MkNaming (<[level := n]> (levelCounts st))
           (<[level := <[t_ID tier := name]> names]> (switches st)),
         MkTier (t_ID tier) name)
    end.

Fixpoint nameTiers (st : naming) (level : nat) (tiers : list FabricTier) : naming * list FabricTier :=
  match tiers with
  | [] => (st, [])
  | tier :: tiers =>
      let '(st, tier) := nameTier st level tier in
      let '(st, tiers) := nameTiers st (S level) tiers in
      (st, tier :: tiers)
  end.

Definition setTiers (inst : InstanceTopology) (tiers : list FabricTier) : InstanceTopology :=
  MkInst (it_InstanceID inst) tiers (XclrDomainID inst) (XclrSubDomainID inst) (it_Instance inst).

Fixpoint nameInstances (st : naming) (c : ClusterTopology) : ClusterTopology :=
  match c with
  | [] => []
  | inst :: c =>
      let '(st, tiers) := nameTiers st 0 (FabricTiers inst) in
      setTiers inst tiers :: nameInstances st c
  end.

Definition Normalize (c : ClusterTopology) : ClusterTopology :=
  nameInstances (MkNaming ∅ ∅) (sortInstances c).

(** ** Trimming and instance export *)

Definition trimmedTiers (inst : InstanceTopology) (trimTiers : Z) : list FabricTier :=
  let len := Z.of_nat (length (FabricTiers inst)) in
  let trim := Z.min (Z.max 0 trimTiers) len in
  take (Z.to_nat (len - trim)) (FabricTiers inst).

Definition networkLayers (inst : InstanceTopology) (trimTiers : Z) : list string :=
  foldl (λ layers tier,
    if decide (t_ID tier = "") then layers
    else if decide (t_Name tier = "") then layers ++ [t_ID tier]
    else layers ++ [t_Name tier]) [] (trimmedTiers inst trimTiers).

(** [labels[key]] of a possibly nil map. *)
Definition label (labels : option (gmap string string)) (key : string) : string :=
  default "" (default ∅ labels !! key).

(** [src] is the instance's [*inst.Instance]. *)
Definition toInstance (inst : InstanceTopology) (src : Instance_) (trimTiers : Z) : Instance_ :=
  let id := if decide (i_ID src = "") then it_InstanceID inst else i_ID src in
  let labels :=
    if bool_decide (label (Labels src) KeyTopologyXclrDomain = "") &&
       negb (bool_decide (XclrDomainID inst = ""))
    then Some (<[KeyTopologyXclrDomain := XclrDomainID inst]> (default ∅ (Labels src)))
    else Labels src in
  let labels :=
    if negb (bool_decide (label labels KeyTopologyXclrDomain = "")) &&
       bool_decide (label labels KeyTopologyXclrSubDomain = "") &&
       negb (bool_decide (XclrSubDomainID inst = ""))
    then Some (<[KeyTopologyXclrSubDomain := XclrSubDomainID inst]> (default ∅ labels))
    else labels in
  MkInstance id (networkLayers inst trimTiers) labels (NetLayers src).

(** ** [ToGraph] *)

(** [maps.Copy(dst, src)]. *)
Definition copyMap {A} (dst src : gmap string A) : gmap string A := src ∪ dst.

Definition instanceNames (cis : list ComputeInstances) : gmap string string :=
  foldl (λ i2n ci, copyMap i2n (ci_Instances ci)) ∅ cis.

(** The heap and the next free location. *)
Record store := MkStore { cells : heap; next : loc }.

Definition new (s : store) (v : Vertex) : store * loc :=
  (MkStore (<[next s := v]> (cells s)) (S (next s)), next s).

Definition update (s : store) (l : loc) (f : Vertex → Vertex) : store :=
  MkStore (<[l := f (deref (cells s) l)]> (cells s)) (next s).

Definition addChild (key : string) (child : option loc) (v : Vertex) : Vertex :=
  MkVertex (v_Name v) (v_ID v) (<[key := child]> (Vertices v)).
Definition setName (name : string) (v : Vertex) : Vertex := MkVertex name (v_ID v) (Vertices v).

Section Range.
Context `{RangeOrder}.

(** [None]: the recursion is deeper than [fuel]. The entries of [src] are
    those it has when the loop starts; the graph built here has no nil
    children. *)
Fixpoint mergeVertices (fuel : nat) (s : store) (dst src : loc) : option store :=
  if decide (dst = src) then Some s
  else match fuel with
  | O => None
  | S fuel =>
      let s :=
        if decide (v_Name (deref (cells s) dst) = "")
        then update s dst (setName (v_Name (deref (cells s) src))) else s in
      foldl (λ os '(id, child),
        s ← os;
        match Vertices (deref (cells s) dst) !! id with
        | Some (Some existing) =>
            match child with
            | Some c => mergeVertices fuel s existing c
            | None => Some s
            end
        | Some None => Some s
        | None => Some (update s dst (addChild id child))
        end) (Some s) (range (Vertices (deref (cells s) src)))
  end.

(** State of the loop over [c.Instances]. *)
Record builder := MkBuilder {
  b_store : store;
  i2n : gmap string string;
  forest : gmap string loc;
  tierNodes : gmap (nat * string) loc;
  domainMap : DomainMap;
  instances : gmap string Instance_
}.

(** One iteration of the loop over the tiers; [cur] is the variable
    [instance], the vertex below. *)
Definition addTier (acc : store * gmap (nat * string) loc * loc) (lt : nat * FabricTier) :
    store * gmap (nat * string) loc * loc :=
  let '(s, tn, cur) := acc in
  let '(level, tier) := lt in
  let swID := t_ID tier in
  if decide (swID = "") then (s, tn, cur)
  else
    let '(s, tn, sw) :=
      match tn !! (level, swID) with
      | Some sw => (s, tn, sw)
      | None =>
          let '(s, sw) := new s (MkVertex (t_Name tier) swID ∅) in
          (s, <[(level, swID) := sw]> tn, sw)
      end in
    (update s sw (addChild (v_ID (deref (cells s) cur)) (Some cur)), tn, sw).

Definition addInstance (trimTiers : Z) (b : builder) (inst : InstanceTopology) : option builder :=
  match i2n b !! it_InstanceID inst with
  | None => Some b
  | Some nodeName =>
      let id := it_InstanceID inst in
      let i2n' := delete id (i2n b) in
      let '(s, leaf) := new (b_store b) (MkVertex nodeName id ∅) in
      let dm :=
        if decide (XclrDomainID inst = "") then domainMap b
        else AddHostInfo (domainMap b)
               (Some (MkHostInfo (XclrDomainID inst) id nodeName (XclrSubDomainID inst))) in
      let insts :=
        match it_Instance inst with
        | None => instances b
        | Some src => <[id := toInstance inst src trimTiers]> (instances b)
        end in
      let '(s, tn, top) := foldl addTier (s, tierNodes b, leaf) (imap pair (trimmedTiers inst trimTiers)) in
      let topID := v_ID (deref (cells s) top) in
      match forest b !! topID with
      | Some root =>
          s ← mergeVertices (S (size (cells s))) s root top;
          Some (MkBuilder s i2n' (forest b) tn dm insts)
      | None => Some (MkBuilder s i2n' (<[topID := top]> (forest b)) tn dm insts)
      end
  end.

(** The switch that collects the nodes without topology. *)
Definition addMissing (s : store) (i2n : gmap string string) : store * loc :=
  let '(s, sw) := new s (MkVertex "" NoTopology ∅) in
  (foldl (λ s '(instanceID, nodeName),
     let '(s, leaf) := new s (MkVertex nodeName instanceID ∅) in
     update s sw (addChild instanceID (Some leaf))) s (range i2n), sw).

Definition nonEmpty {A} (m : gmap string A) : option (gmap string A) :=
  if decide (size m = 0%nat) then None else Some m.

(** The final heap, the graph's root and its domains; [None] only if a merge
    runs out of fuel. *)
Definition ToGraph (c : ClusterTopology) (cis : list ComputeInstances) (trimTiers : Z)
    (normalize : bool) : option Graph :=
  let c := if normalize then Normalize c else c in
  b ← foldl (λ ob inst, b ← ob; addInstance trimTiers b inst)
        (Some (MkBuilder (MkStore ∅ 0%nat) (instanceNames cis) ∅ ∅ NewDomainMap ∅)) c;
  let '(s, forest) :=
    if decide (i2n b = ∅) then (b_store b, forest b)
    else let '(s, sw) := addMissing (b_store b) (i2n b) in (s, <[NoTopology := sw]> (forest b)) in
  let '(s, root) := new s (MkVertex "" "" (Some <$> forest)) in
  Some (MkGraph (cells s) (Some root) (nonEmpty (domainMap b)) (nonEmpty (instances b))).
End Range.


(** ** Examples *)

Definition ex_tiers (ids : list string) : list FabricTier := ClosestFirstFabricTiers ids.
Definition ex_inst (id : string) (ids : list string) : InstanceTopology :=
  MkInst id (ex_tiers ids) "" "" None.
Definition ex_cis (ids : list string) : list ComputeInstances :=
  [MkCI "r" (list_to_map ((λ id, (id, id)) <$> ids))].

(** Names and children by ID, along a path of keys from the root. *)
Fixpoint lookupPath (h : heap) (l : loc) (path : list string) : option loc :=
  match path with
  | [] => Some l
  | k :: path => match Vertices (deref h l) !! k with
                 | Some (Some l') => lookupPath h l' path
                 | _ => None
                 end
  end.
Definition hasPath (og : option Graph) (path : list string) : bool :=
  match og with
  | Some g => match Tiers g with
              | Some r => bool_decide (is_Some (lookupPath (g_heap g) r path))
              | None => false
              end
  | None => false
  end.

Example ToGraph_ex :
  let g := ToGraph [ex_inst "A" ["leaf1"; "spine"]; ex_inst "B" ["leaf2"; "spine"]; ex_inst "C" []]
             (ex_cis ["A"; "B"; "C"; "D"]) 0 true in
  forallb (hasPath g) [["spine"; "leaf1"; "A"]; ["spine"; "leaf2"; "B"]; ["C"]; [NoTopology; "D"]] = true.
Proof. vm_compute. reflexivity. Qed.

(** The same switch at two levels below one parent: the second branch replaces
    the first, and instance A is no longer in the graph. *)
Example ToGraph_loses_instance :
  let g := ToGraph [ex_inst "A" ["X"; ""; "Y"]; ex_inst "B" [""; "X"; "Y"]] (ex_cis ["A"; "B"]) 0 false in
  hasPath g ["Y"; "X"; "A"] = false ∧ hasPath g ["Y"; "X"; "B"] = true.
Proof. vm_compute. done. Qed.

(** Merging two branches in which a switch sits at two levels makes the switch
    its own child. *)
Example ToGraph_self_edge :
  let g := ToGraph [ex_inst "A" ["Y"; "X"]; ex_inst "B" ["Y"; "Y"; "X"]] (ex_cis ["A"; "B"]) 0 false in
  hasPath g ["X"; "Y"; "Y"; "Y"; "Y"; "A"] = true.
Proof. vm_compute. reflexivity. Qed.

(** ** [ToGraph] places every node *)

(** The switches of an instance, closest first. *)
Definition switchIDs (tiers : list FabricTier) : list string :=
  filter (λ id, id ≠ "") (t_ID <$> tiers).

(** The (level, ID) pairs of all switches. *)
Definition tierEntries (trimTiers : Z) (c : ClusterTopology) : list (nat * string) :=
  concat ((λ inst, filter (λ e, e.2 ≠ "") (imap (λ l t, (l, t_ID t)) (trimmedTiers inst trimTiers))) <$> c).

(** Every switch is at one level only, and switches, instances and the switch
    for missing nodes have different IDs. *)
Definition levelled (trimTiers : Z) (c : ClusterTopology) : Prop :=
  let es := tierEntries trimTiers c in
  let ids := it_InstanceID <$> c in
  Forall (λ x, Forall (λ y, x.2 = y.2 → x.1 = y.1) es) es ∧
  Forall (λ x, (x.2 ∉ ids) ∧ x.2 ≠ NoTopology) es ∧ NoTopology ∉ ids.
#[global] Instance levelled_dec trimTiers c : Decision (levelled trimTiers c).
Proof. unfold levelled. apply _. Defined.

Create Rewrite HintDb store.

Lemma deref_new s v l :
  deref (cells (new s v).1) l = if decide (l = next s) then v else deref (cells s) l.
Proof.
  unfold deref, new. cbn [fst cells]. rewrite lookup_insert. repeat case_decide; naive_solver.
Qed.

Lemma deref_update s l f l' :
  deref (cells (update s l f)) l' = if decide (l' = l) then f (deref (cells s) l) else deref (cells s) l'.
Proof.
  unfold deref at 1, update. cbn [cells]. rewrite lookup_insert. repeat case_decide; naive_solver.
Qed.

Lemma next_new s v : next (new s v).1 = S (next s).
Proof. done. Qed.
Lemma next_update s l f : next (update s l f) = next s.
Proof. done. Qed.
#[global] Arguments new : simpl never.
#[global] Arguments update : simpl never.
#[global] Arguments addTier : simpl never.
#[local] Hint Rewrite next_new next_update deref_new deref_update : store.

(** The first report of an instance. *)
Fixpoint first (c : ClusterTopology) (id : string) : option InstanceTopology :=
  match c with
  | [] => None
  | inst :: c => if decide (it_InstanceID inst = id) then Some inst else first c id
  end.

Lemma first_app c inst id :
  first (c ++ [inst]) id =
    match first c id with
    | Some i => Some i
    | None => if decide (it_InstanceID inst = id) then Some inst else None
    end.
Proof.
  induction c as [|i c IH]; simpl; [done|]. destruct (decide (it_InstanceID i = id)); [done|apply IH].
Qed.

Lemma first_None c id : first c id = None ↔ id ∉ it_InstanceID <$> c.
Proof.
  induction c as [|i c IH]; csimpl; [set_solver|]. case_decide as Heq; [|set_solver].
  split; [done|]. set_solver.
Qed.
Lemma first_Some c id inst : first c id = Some inst → it_InstanceID inst = id ∧ inst ∈ c.
Proof.
  induction c as [|i c IH]; simpl; [done|]. case_decide; [intros [= <-]; set_solver|].
  intros [? ?]%IH. set_solver.
Qed.

Lemma imap_pair_snd {A} (l : list A) : (imap pair l).*2 = l.
Proof. rewrite fmap_imap. rewrite (imap_ext _ (const id)) by done. rewrite imap_const. apply list_fmap_id. Qed.

Lemma addMissing_spec `{RangeOrder} s m :
  let '(s', sw) := addMissing s m in
  sw = next s ∧ (next s < next s')%nat ∧
  (∀ l, (l < next s)%nat → deref (cells s') l = deref (cells s) l) ∧
  ∀ id name, m !! id = Some name → ∃ leaf,
    Vertices (deref (cells s') sw) !! id = Some (Some leaf) ∧ (leaf < next s')%nat ∧
    deref (cells s') leaf = MkVertex name id ∅.
Proof.
  unfold addMissing. set (v := MkVertex "" NoTopology ∅).
  change (new s v) with ((new s v).1, next s). cbv beta iota. split; [done|].
  assert (∀ l, NoDup l.*1 →
    let s' := foldl (λ s0 '(instanceID, nodeName),
      let '(s1, leaf) := new s0 (MkVertex nodeName instanceID ∅) in
      update s1 (next s) (addChild instanceID (Some leaf))) (new s v).1 l in
    (next s < next s')%nat ∧ (∀ l, (l < next s)%nat → deref (cells s') l = deref (cells s) l) ∧
    ∀ id name, (id, name) ∈ l → ∃ leaf,
      Vertices (deref (cells s') (next s)) !! id = Some (Some leaf) ∧ (next s < leaf < next s')%nat ∧
      deref (cells s') leaf = MkVertex name id ∅) as Hloop.
  { intros l Hnd. cbv zeta. revert Hnd. apply (foldl_prefix_inv (λ l s', NoDup l.*1 → (next s < next s')%nat ∧
      (∀ l, (l < next s)%nat → deref (cells s') l = deref (cells s) l) ∧
      ∀ id name, (id, name) ∈ l → ∃ leaf,
        Vertices (deref (cells s') (next s)) !! id = Some (Some leaf) ∧ (next s < leaf < next s')%nat ∧
        deref (cells s') leaf = MkVertex name id ∅)).
    { intros _. rewrite next_new. split_and!; [lia| |set_solver].
      intros l' Hl. by rewrite deref_new, decide_False by lia. }
    intros l1 [id name] l2 s' _ IH Hnd. rewrite fmap_app in Hnd. csimpl in Hnd.
    apply NoDup_app in Hnd as (Hnd1 & Hdis & _). destruct (IH Hnd1) as (Hlt & Hold & Hent).
    set (w := MkVertex name id ∅).
    change (new s' w) with ((new s' w).1, next s'). cbv beta iota.
    rewrite next_update, next_new. split_and!; [lia| |].
    - intros l' Hl. by rewrite deref_update, decide_False, deref_new, decide_False, Hold by lia.
    - intros id' name'. rewrite elem_of_app, list_elem_of_singleton.
      setoid_rewrite deref_update. rewrite decide_True by done. unfold addChild; cbn [Vertices].
      setoid_rewrite deref_new. rewrite decide_False by lia.
      intros [Hin|[= -> ->]].
      + destruct (Hent _ _ Hin) as (leaf & Hk & Hleaf & Hv). exists leaf.
        rewrite lookup_insert_ne.
        2:{ intros ->. apply (Hdis id'); [|set_solver]. apply list_elem_of_fmap. by exists (id', name'). }
        rewrite decide_False, deref_new, decide_False by lia. split_and!; [done|lia|lia|done].
      + exists (next s'). rewrite lookup_insert_eq. rewrite decide_False, deref_new, decide_True by lia.
        split_and!; [done|lia|lia|done]. }
  destruct (Hloop (range m) (range_NoDup m)) as (H1 & H2 & H3). split_and!; [done|done|].
  intros id name Hin%elem_of_range. destruct (H3 _ _ Hin) as (leaf & Hk & Hlt & Hv). exists leaf.
  split; [exact Hk|]. split; [apply Hlt|exact Hv].
Qed.

Section Place.
Context (entries : list (nat * string)) (ids : list string).
Hypothesis Hlev : ∀ x y, x ∈ entries → y ∈ entries → x.2 = y.2 → x.1 = y.1.
Hypothesis Hdisj : ∀ x, x ∈ entries → x.2 ∉ ids.

(** Growth: vertices keep their identity and their children; those that are
    not switches do not change at all. *)
Definition ext (s s' : store) : Prop :=
  (next s ≤ next s')%nat ∧
  ∀ l, (l < next s)%nat →
    v_ID (deref (cells s') l) = v_ID (deref (cells s) l) ∧
    Vertices (deref (cells s) l) ⊆ Vertices (deref (cells s') l) ∧
    (v_ID (deref (cells s) l) ∉ entries.*2 → deref (cells s') l = deref (cells s) l).

Lemma ext_refl s : ext s s.
Proof. by split. Qed.
Lemma ext_trans s1 s2 s3 : ext s1 s2 → ext s2 s3 → ext s1 s3.
Proof.
  intros [Hn1 H1] [Hn2 H2]. split; [lia|]. intros l Hl.
  destruct (H1 l Hl) as (Hi1 & Hv1 & Hs1). destruct (H2 l ltac:(lia)) as (Hi2 & Hv2 & Hs2).
  split_and!; [congruence|by etrans|]. intros Hno. rewrite Hs2, Hs1; [done|done|congruence].
Qed.
Lemma ext_new s v : ext s (new s v).1.
Proof.
  split; [rewrite next_new; lia|]. intros l Hl. rewrite deref_new, decide_False by lia. done.
Qed.

(** Children are keyed by their ID; a child is the one vertex of its switch or
    an instance already placed. *)
Definition ok (s : store) (tn : gmap (nat * string) loc) (placed : list string) : Prop :=
  (∀ lv id l, tn !! (lv, id) = Some l →
     (l < next s)%nat ∧ v_ID (deref (cells s) l) = id ∧ (lv, id) ∈ entries) ∧
  (∀ l k oc, Vertices (deref (cells s) l) !! k = Some oc →
     (l < next s)%nat ∧ ∃ c, oc = Some c ∧ (c < next s)%nat ∧ v_ID (deref (cells s) c) = k ∧
       ((∃ lv, tn !! (lv, k) = Some c) ∨ k ∈ placed)).

(** The vertex [cur] is the only possible child with its key. *)
Definition only (s : store) (cur : loc) : Prop :=
  ∀ l oc, Vertices (deref (cells s) l) !! v_ID (deref (cells s) cur) = Some oc → oc = Some cur.

Lemma ok_new s tn placed v :
  ok s tn placed → Vertices v = ∅ → ok (new s v).1 tn placed.
Proof.
  intros [Htn Hk] Hv. split.
  - intros lv id l Hl. destruct (Htn _ _ _ Hl) as (? & ? & ?).
    rewrite deref_new, decide_False by lia. rewrite next_new. split_and!; [lia|done|done].
  - intros l k oc. rewrite deref_new. case_decide; [by rewrite Hv, lookup_empty|].
    intros Hl. destruct (Hk _ _ _ Hl) as (? & c & -> & Hc & Hid & ?). rewrite next_new. split; [lia|].
    exists c. rewrite deref_new, decide_False by lia. split_and!; [done|lia|done|done].
Qed.

Lemma ok_edge s tn placed sw cur lv :
  ok s tn placed → only s cur → (cur < next s)%nat → tn !! (lv, v_ID (deref (cells s) sw)) = Some sw →
  ((∃ lv', tn !! (lv', v_ID (deref (cells s) cur)) = Some cur) ∨ v_ID (deref (cells s) cur) ∈ placed) →
  let s' := update s sw (addChild (v_ID (deref (cells s) cur)) (Some cur)) in
  ok s' tn placed ∧ ext s s' ∧
  Vertices (deref (cells s') sw) !! v_ID (deref (cells s) cur) = Some (Some cur).
Proof.
  intros [Htn Hk] Honly Hcur Hsw Hkind s'.
  assert (∀ l, v_ID (deref (cells s') l) = v_ID (deref (cells s) l)) as Hid.
  { intros l. unfold s'. rewrite deref_update. case_decide; [by subst|done]. }
  destruct (Htn _ _ _ Hsw) as (Hlt & _ & Hent).
  split_and!; [split| |].
  - intros lv' id l Hl. rewrite Hid. by apply Htn in Hl.
  - intros l k oc. unfold s'. rewrite deref_update. intros Hl.
    assert ((l < next s)%nat ∧ ∃ c, oc = Some c ∧ (c < next s)%nat ∧ v_ID (deref (cells s) c) = k ∧
       ((∃ lv, tn !! (lv, k) = Some c) ∨ k ∈ placed)) as (? & c & -> & ? & Hc & ?).
    { case_decide; [subst l|by eapply Hk]. simpl in Hl. split; [done|].
      rewrite lookup_insert in Hl. case_decide as Hkey; [|by eapply Hk].
      injection Hl as <-. exists cur. rewrite <-Hkey. done. }
    split; [done|]. exists c. split_and!; [done|done| |done]. rewrite <-Hc. apply Hid.
  - split; [done|]. intros l Hl. split; [apply Hid|]. unfold s'. rewrite deref_update.
    case_decide as Heq; [|done]. subst l. split.
    + simpl. apply map_subseteq_spec. intros k oc Hkoc. rewrite lookup_insert.
      case_decide as Hkey; [|done]. subst k. by rewrite (Honly _ _ Hkoc).
    + intros Hno. exfalso. apply Hno. apply list_elem_of_fmap. by exists (lv, v_ID (deref (cells s) sw)).
  - unfold s'. rewrite deref_update, decide_True by done. simpl. apply lookup_insert_eq.
Qed.

Lemma ok_only s tn placed lv id sw :
  ok s tn placed → (∀ k, k ∈ placed → k ∈ ids) → tn !! (lv, id) = Some sw → only s sw.
Proof.
  intros [Htn Hk] Hp Hsw l oc Hl. destruct (Htn _ _ _ Hsw) as (_ & Hid & Hent). rewrite Hid in Hl.
  destruct (Hk _ _ _ Hl) as (_ & c & -> & _ & _ & [[lv' Hc]|Hin]).
  - destruct (Htn _ _ _ Hc) as (_ & _ & Hent').
    assert (lv' = lv) as -> by (apply (Hlev _ _ Hent' Hent); done). congruence.
  - exfalso. apply (Hdisj _ Hent), Hp, Hin.
Qed.

Lemma lookupPath_ext s s' l path leaf :
  ext s s' → (l < next s)%nat → (∀ l k c, Vertices (deref (cells s) l) !! k = Some (Some c) → (c < next s)%nat) →
  lookupPath (cells s) l path = Some leaf → lookupPath (cells s') l path = Some leaf.
Proof.
  intros [_ He] Hl Hlt. revert l Hl. induction path as [|k path IH]; intros l Hl; simpl; [done|].
  destruct (He l Hl) as (_ & Hsub & _). rewrite map_subseteq_spec in Hsub.
  destruct (Vertices (deref (cells s) l) !! k) as [[c|]|] eqn:Hk; [|done|done].
  rewrite (Hsub _ _ Hk). apply IH. eauto.
Qed.

(** What holds of [cur] between the iterations over the tiers. *)
Definition placing (s : store) (tn : gmap (nat * string) loc) (placed : list string) (cur : loc) : Prop :=
  ok s tn placed ∧ only s cur ∧ (cur < next s)%nat ∧
  ((∃ lv, tn !! (lv, v_ID (deref (cells s) cur)) = Some cur) ∨ v_ID (deref (cells s) cur) ∈ placed).

Lemma ok_child_lt s tn placed l k c :
  ok s tn placed → Vertices (deref (cells s) l) !! k = Some (Some c) → (c < next s)%nat.
Proof. intros [_ Hk] Hl. destruct (Hk _ _ _ Hl) as (_ & c' & [= <-] & ? & _). done. Qed.

(** The switch of a tier: found, or allocated. *)
Lemma getSwitch_spec s tn placed cur level tier :
  placing s tn placed cur → (level, t_ID tier) ∈ entries →
  let '(s', tn', sw) :=
    match tn !! (level, t_ID tier) with
    | Some sw => (s, tn, sw)
    | None => let '(s, sw) := new s (MkVertex (t_Name tier) (t_ID tier) ∅) in
              (s, <[(level, t_ID tier) := sw]> tn, sw)
    end in
  placing s' tn' placed cur ∧ ext s s' ∧ tn' !! (level, t_ID tier) = Some sw ∧
  v_ID (deref (cells s') sw) = t_ID tier ∧ v_ID (deref (cells s') cur) = v_ID (deref (cells s) cur).
Proof.
  intros (Hok & Honly & Hcur & Hkind) Hent.
  destruct (tn !! (level, t_ID tier)) as [sw|] eqn:Hsw.
  { destruct Hok as [Htn Hk]. destruct (Htn _ _ _ Hsw) as (_ & Hid & _).
    split_and!; [by split_and!|apply ext_refl|done|done|done]. }
  set (v := MkVertex (t_Name tier) (t_ID tier) ∅).
  pose proof (ok_new s tn placed v Hok eq_refl) as [Htn Hk].
  change (new s v) with ((new s v).1, next s). cbv beta iota.
  assert (∀ l, l ≠ next s → deref (cells (new s v).1) l = deref (cells s) l) as Hold.
  { intros l Hl. by rewrite deref_new, decide_False. }
  split_and!; [split_and!| | | |].
  - split.
    + intros lv id l. rewrite lookup_insert. case_decide as Heq; [|apply Htn].
      injection Heq as <- <-. intros [= <-]. rewrite deref_new, decide_True, next_new by done.
      split_and!; [lia|done|done].
    + intros l k oc Hl. destruct (Hk _ _ _ Hl) as (? & c & -> & ? & ? & [[lv Hc]|?]); split; [done| |done|].
      * exists c. split_and!; [done..|]. left. exists lv. rewrite lookup_insert_ne; [done|].
        intros [= <- <-]. congruence.
      * exists c. by split_and!; [..|right].
  - intros l oc. rewrite (Hold cur) by lia. rewrite deref_new.
    case_decide; [by unfold v; cbn; rewrite lookup_empty|]. apply Honly.
  - rewrite next_new. lia.
  - rewrite Hold by lia. destruct Hkind as [[lv Hc]|?]; [left; exists lv|by right].
    rewrite lookup_insert_ne; [done|]. intros [= <- Heq]. congruence.
  - apply ext_new.
  - apply lookup_insert_eq.
  - by rewrite deref_new, decide_True.
  - by rewrite Hold by lia.
Qed.

Lemma addTier_spec s tn placed cur level tier :
  placing s tn placed cur → (∀ k, k ∈ placed → k ∈ ids) →
  t_ID tier ≠ "" → (level, t_ID tier) ∈ entries →
  let '(s', tn', sw) := addTier (s, tn, cur) (level, tier) in
  placing s' tn' placed sw ∧ ext s s' ∧ v_ID (deref (cells s') sw) = t_ID tier ∧
  Vertices (deref (cells s') sw) !! v_ID (deref (cells s) cur) = Some (Some cur).
Proof.
  intros Hpl Hp Hne Hent. pose proof (getSwitch_spec _ _ _ _ _ _ Hpl Hent) as Hsw.
  unfold addTier. rewrite decide_False by done.
  destruct (match tn !! (level, t_ID tier) with Some sw => _ | None => _ end) as [[s' tn'] sw].
  destruct Hsw as ((Hok & Honly & Hcur & Hkind) & Hext & Hsw & Hid & Hidc).
  rewrite <-Hid in Hsw.
  destruct (ok_edge _ _ _ _ _ _ Hok Honly Hcur Hsw Hkind) as (Hok' & Hext' & Hedge).
  rewrite Hidc in Hok', Hext', Hedge |- *.
  assert (v_ID (deref (cells (update s' sw (addChild (v_ID (deref (cells s) cur)) (Some cur)))) sw) = t_ID tier) as Hid'.
  { by rewrite deref_update, decide_True. }
  destruct Hok as [Htn Hk]. destruct (Htn _ _ _ Hsw) as (Hlt & _).
  split_and!; [split_and!|by eapply ext_trans|done|done].
  - done.
  - by eapply ok_only.
  - by rewrite next_update.
  - left. exists level. rewrite Hid'. by rewrite <-Hid.
Qed.

(** The loop over the tiers of an instance leaves a path of switches down to
    its leaf. *)
Lemma addTiers_spec lts s tn placed cur leaf path :
  placing s tn placed cur → (∀ k, k ∈ placed → k ∈ ids) →
  (∀ lv t, (lv, t) ∈ lts → t_ID t ≠ "" → (lv, t_ID t) ∈ entries) →
  lookupPath (cells s) cur path = Some leaf →
  let '(s', tn', top) := foldl addTier (s, tn, cur) lts in
  placing s' tn' placed top ∧ ext s s' ∧ ∃ path',
    lookupPath (cells s') top path' = Some leaf ∧
    v_ID (deref (cells s') top) :: path' =
      reverse (switchIDs lts.*2) ++ v_ID (deref (cells s) cur) :: path.
Proof.
  revert s tn cur path. induction lts as [|[lv t] lts IH]; intros s tn cur path Hpl Hp Hin Hpath.
  { simpl. split_and!; [done|apply ext_refl|]. by exists path. }
  cbn [foldl]. unfold switchIDs. csimpl. rewrite filter_cons.
  destruct (decide (t_ID t = "")) as [He|Hne].
  - replace (addTier (s, tn, cur) (lv, t)) with (s, tn, cur) by (unfold addTier; by rewrite decide_True).
    rewrite decide_False by naive_solver.
    apply IH; [done|done| |done]. intros. apply Hin; [by right|done].
  - rewrite decide_True by done.
    pose proof (addTier_spec s tn placed cur lv t Hpl Hp Hne) as Hstep.
    destruct (addTier (s, tn, cur) (lv, t)) as [[s' tn'] sw].
    destruct Hstep as (Hpl' & Hext & Hid & Hedge); [apply Hin; [left|done]|].
    assert (lookupPath (cells s') sw (v_ID (deref (cells s) cur) :: path) = Some leaf) as Hpath'.
    { simpl. rewrite Hedge. destruct Hpl as (Hok & _ & Hcur & _).
      eapply lookupPath_ext; [done|done| |done]. intros. by eapply ok_child_lt. }
    pose proof (IH s' tn' sw _ Hpl' Hp ltac:(intros; apply Hin; [by right|done]) Hpath') as Hrest.
    destruct (foldl addTier (s', tn', sw) lts) as [[s2 tn2] top].
    destruct Hrest as (Hpl2 & Hext2 & path' & Hpath2 & Heq).
    split_and!; [done|by eapply ext_trans|]. exists path'. split; [done|].
    rewrite Heq, Hid, reverse_cons, <-app_assoc. done.
Qed.

Context `{RangeOrder} (trimTiers : Z) (names : gmap string string).

(** An instance of the input has its path below a root of the forest. *)
Definition located (s : store) (forest : gmap string loc) (inst : InstanceTopology) (name : string) : Prop :=
  ∃ leaf top k path,
    reverse (it_InstanceID inst :: switchIDs (trimmedTiers inst trimTiers)) = k :: path ∧
    forest !! k = Some top ∧ (top < next s)%nat ∧ lookupPath (cells s) top path = Some leaf ∧
    (leaf < next s)%nat ∧ deref (cells s) leaf = MkVertex name (it_InstanceID inst) ∅.

Definition binv (seen : ClusterTopology) (b : builder) : Prop :=
  ok (b_store b) (tierNodes b) (it_InstanceID <$> seen) ∧
  (∀ id, i2n b !! id = if decide (id ∈ it_InstanceID <$> seen) then None else names !! id) ∧
  (∀ k l, forest b !! k = Some l →
     (l < next (b_store b))%nat ∧ v_ID (deref (cells (b_store b)) l) = k ∧
     ((∃ lv, tierNodes b !! (lv, k) = Some l) ∨ k ∈ it_InstanceID <$> seen)) ∧
  (∀ id inst name, first seen id = Some inst → names !! id = Some name →
     located (b_store b) (forest b) inst name).

Lemma located_ext s s' tn placed f f' inst name :
  ok s tn placed → ext s s' → f ⊆ f' → it_InstanceID inst ∈ ids →
  located s f inst name → located s' f' inst name.
Proof.
  intros Hok Hext Hf Hid (leaf & top & k & path & Heq & Hk & Htop & Hpath & Hleaf & Hv).
  pose proof Hext as [Hnext He].
  exists leaf, top, k, path. rewrite map_subseteq_spec in Hf. split_and!; [done|by apply Hf|lia| |lia|].
  - eapply lookupPath_ext; [done|done| |done]. intros. by eapply ok_child_lt.
  - destruct (He leaf Hleaf) as (_ & _ & Hsame). rewrite Hsame; [done|]. rewrite Hv. simpl.
    intros (x & Hx & Hin)%list_elem_of_fmap. apply (Hdisj _ Hin). by rewrite <-Hx.
Qed.

(** A root of the forest with the ID of the new top is that very vertex. *)
Lemma forest_same s tn placed id top k root :
  ok s tn (id :: placed) → (∀ k, k ∈ id :: placed → k ∈ ids) → id ∉ placed →
  ((∃ lv, tn !! (lv, k) = Some top) ∨ k ∈ id :: placed) →
  k = id ∨ k ∈ entries.*2 →
  ((∃ lv, tn !! (lv, k) = Some root) ∨ k ∈ placed) → root = top.
Proof.
  intros [Htn _] Hp Hnew Htop Hk Hroot.
  assert (∀ lv l, tn !! (lv, k) = Some l → k ∉ ids) as Hno.
  { intros lv l Hl. destruct (Htn _ _ _ Hl) as (_ & _ & Hent). by apply (Hdisj _ Hent). }
  destruct Hk as [->|(e & -> & He)%list_elem_of_fmap].
  - destruct Hroot as [[lv Hl]|?]; [|done]. exfalso. eapply Hno; [done|]. apply Hp. left.
  - destruct Htop as [[lv Hl]|Hin]; [|by destruct (Hdisj _ He); apply Hp].
    destruct Hroot as [[lv' Hl']|Hin]; [|destruct (Hdisj _ He); apply Hp; by right].
    destruct (Htn _ _ _ Hl) as (_ & _ & H1). destruct (Htn _ _ _ Hl') as (_ & _ & H2).
    assert (lv = lv') as <- by (apply (Hlev _ _ H1 H2); done). congruence.
Qed.

Lemma mergeVertices_self fuel s l : mergeVertices (S fuel) s l l = Some s.
Proof. simpl. by rewrite decide_True. Qed.

Lemma ok_mono s tn placed placed' : placed ⊆ placed' → ok s tn placed → ok s tn placed'.
Proof.
  intros Hp [Htn Hk]. split; [done|]. intros l k oc Hl.
  destruct (Hk _ _ _ Hl) as (? & c & ? & ? & ? & [?|?]); (split; [done|]); exists c; split_and!; auto.
Qed.

Lemma skip_spec seen inst b :
  binv seen b → i2n b !! it_InstanceID inst = None → binv (seen ++ [inst]) b.
Proof.
  intros (Hok & Hi & Hf & Hl) Hnone. unfold binv. rewrite fmap_app. split_and!.
  - eapply ok_mono; [|done]. set_solver.
  - intros id. rewrite Hi. csimpl. destruct (decide (id = it_InstanceID inst)) as [->|Hne].
    + rewrite Hi in Hnone. rewrite Hnone. by rewrite decide_True by set_solver.
    + repeat case_decide; set_solver.
  - intros k l Hk. destruct (Hf k l Hk) as (? & ? & [?|?]); set_solver.
  - intros id i name. rewrite first_app. destruct (first seen id) eqn:Hfi; [intros [= <-]; by eapply Hl|].
    case_decide; [|done]. intros _ Hn. rewrite Hi in Hnone. subst id.
    apply first_None in Hfi. rewrite decide_False in Hnone by done. congruence.
Qed.

(** The new leaf, before the loop over the tiers. *)
Lemma leaf_placing seen b id nodeName :
  binv seen b → i2n b !! id = Some nodeName → (∀ k, k ∈ it_InstanceID <$> seen → k ∈ ids) → id ∈ ids →
  let v := MkVertex nodeName id ∅ in
  (id ∉ it_InstanceID <$> seen) ∧
  placing (new (b_store b) v).1 (tierNodes b) (id :: (it_InstanceID <$> seen)) (next (b_store b)).
Proof.
  intros (Hok & Hi & Hf & Hl) Hid Hseen Hin v.
  assert (id ∉ it_InstanceID <$> seen) as Hnew by (intros ?; rewrite Hi, decide_True in Hid by done; done).
  split; [done|].
  assert (ok (b_store b) (tierNodes b) (id :: (it_InstanceID <$> seen))) as Hok'
    by (eapply ok_mono; [|done]; set_solver).
  pose proof (ok_new _ _ _ v Hok' eq_refl) as Hokn.
  split_and!; [done| |rewrite next_new; lia|].
  - intros l oc. rewrite (deref_new _ _ (next _)), decide_True by done.
    change (v_ID v) with id. intros Hc. rewrite deref_new in Hc. case_decide; [unfold v in Hc; cbn in Hc; by rewrite lookup_empty in Hc|].
    destruct Hok as [Htn Hk]. destruct (Hk _ _ _ Hc) as (_ & c & _ & _ & _ & [[lv Htl]|?]); [|done].
    destruct (Htn _ _ _ Htl) as (_ & _ & Hent). by destruct (Hdisj _ Hent).
  - right. rewrite deref_new, decide_True by done. simpl. left.
Qed.

Lemma place_spec seen inst b nodeName :
  binv seen b → i2n b !! it_InstanceID inst = Some nodeName →
  (∀ k, k ∈ it_InstanceID <$> (seen ++ [inst]) → k ∈ ids) →
  (∀ lv t, (lv, t) ∈ imap pair (trimmedTiers inst trimTiers) → t_ID t ≠ "" → (lv, t_ID t) ∈ entries) →
  let '(s', tn', top) := foldl addTier
    ((new (b_store b) (MkVertex nodeName (it_InstanceID inst) ∅)).1, tierNodes b, next (b_store b))
    (imap pair (trimmedTiers inst trimTiers)) in
  ∃ path,
    let k := v_ID (deref (cells s') top) in
    ok s' tn' (it_InstanceID inst :: (it_InstanceID <$> seen)) ∧ ext (b_store b) s' ∧ (top < next s')%nat ∧
    ((∃ lv, tn' !! (lv, k) = Some top) ∨ k ∈ it_InstanceID inst :: (it_InstanceID <$> seen)) ∧
    (k = it_InstanceID inst ∨ k ∈ entries.*2) ∧
    reverse (it_InstanceID inst :: switchIDs (trimmedTiers inst trimTiers)) = k :: path ∧
    lookupPath (cells s') top path = Some (next (b_store b)) ∧
    (next (b_store b) < next s')%nat ∧
    deref (cells s') (next (b_store b)) = MkVertex nodeName (it_InstanceID inst) ∅.
Proof.
  intros Hb Hid Hids Hent. rewrite fmap_app in Hids.
  destruct (leaf_placing seen b _ nodeName Hb Hid ltac:(set_solver) ltac:(set_solver)) as [Hnew Hpl].
  set (v := MkVertex nodeName (it_InstanceID inst) ∅) in *.
  pose proof (addTiers_spec (imap pair (trimmedTiers inst trimTiers)) _ _ _ _ (next (b_store b)) []
    Hpl ltac:(set_solver) Hent eq_refl) as Hloop.
  destruct (foldl addTier _ _) as [[s' tn'] top].
  destruct Hloop as ((Hok & _ & Htop & Hkind) & Hext & path & Hpath & Heq).
  rewrite imap_pair_snd, deref_new, decide_True in Heq by done.
  exists path. split_and!; [done| |done|done| | |done| |].
  - eapply ext_trans; [apply ext_new|done].
  - simpl in Heq. destruct (reverse (switchIDs _)) as [|x xs] eqn:Hrev; [left; by injection Heq|right].
    injection Heq as -> _. assert (x ∈ switchIDs (trimmedTiers inst trimTiers)) as Hx.
    { rewrite <-elem_of_reverse, Hrev. left. }
    apply list_elem_of_filter in Hx as [Hne (t & -> & [lv Ht]%list_elem_of_lookup)%list_elem_of_fmap].
    apply list_elem_of_fmap. exists (lv, t_ID t). split; [done|]. apply Hent; [|done].
    apply elem_of_lookup_imap. eauto.
  - rewrite reverse_cons, Heq. done.
  - destruct Hext as [Hn _]. rewrite next_new in Hn. lia.
  - destruct Hext as [Hn He]. destruct (He (next (b_store b))) as (_ & _ & Hsame); [rewrite next_new; lia|].
    rewrite deref_new, decide_True in Hsame by done. apply Hsame. simpl.
    intros (x & Hx & Hin)%list_elem_of_fmap. apply (Hdisj _ Hin). rewrite <-Hx. set_solver.
Qed.

Lemma addTiers_tn acc lts : acc.1.2 ⊆ (foldl addTier acc lts).1.2.
Proof.
  apply (foldl_inv (λ a, acc.1.2 ⊆ a.1.2)); [done|]. intros [[s tn] cur] [lv t] _. simpl. intros Hsub.
  unfold addTier. case_decide; [done|]. destruct (tn !! (lv, t_ID t)) eqn:Ht; simpl; [done|].
  etrans; [exact Hsub|]. by apply insert_subseteq.
Qed.

Lemma addInstance_spec seen inst b :
  binv seen b → (∀ k, k ∈ it_InstanceID <$> (seen ++ [inst]) → k ∈ ids) →
  (∀ lv t, (lv, t) ∈ imap pair (trimmedTiers inst trimTiers) → t_ID t ≠ "" → (lv, t_ID t) ∈ entries) →
  ∃ b', addInstance trimTiers b inst = Some b' ∧ binv (seen ++ [inst]) b'.
Proof.
  intros Hb Hids Hent. unfold addInstance.
  destruct (i2n b !! it_InstanceID inst) as [nodeName|] eqn:Hname.
  2:{ exists b. split; [done|]. by apply skip_spec. }
  pose proof (place_spec seen inst b nodeName Hb Hname Hids Hent) as Hplace.
  pose proof (leaf_placing seen b _ nodeName Hb Hname) as [Hnew _]; [set_solver..|].
  set (v := MkVertex nodeName (it_InstanceID inst) ∅) in *.
  change (new (b_store b) v) with ((new (b_store b) v).1, next (b_store b)). cbv beta iota zeta.
  pose proof (addTiers_tn ((new (b_store b) v).1, tierNodes b, next (b_store b))
    (imap pair (trimmedTiers inst trimTiers))) as Htn.
  destruct (foldl addTier _ _) as [[s' tn'] top]. simpl in Htn.
  destruct Hplace as (path & Hok & Hext & Htop & Hkind & Hk & Hpath & Hlook & Hleaf & Hv).
  set (k := v_ID (deref (cells s') top)) in *. destruct Hb as (Hok0 & Hi & Hf & Hl).
  assert (ok s' tn' (it_InstanceID <$> (seen ++ [inst]))) as Hok'.
  { eapply ok_mono; [|exact Hok]. rewrite fmap_app. set_solver. }
  assert (∀ f', forest b ⊆ f' → f' !! k = Some top →
    (∀ k' l, f' !! k' = Some l → forest b !! k' = Some l ∨ (k' = k ∧ l = top)) →
    ∀ dm insts, binv (seen ++ [inst]) (MkBuilder s' (delete (it_InstanceID inst) (i2n b)) f' tn' dm insts)) as Hfin.
  { intros f' Hsub Hf' Hcase dm insts. unfold binv. simpl. split_and!.
    - done.
    - intros id. rewrite lookup_delete, Hi, fmap_app. csimpl.
      destruct (decide (it_InstanceID inst = id)); repeat case_decide; set_solver.
    - intros k' l Hkl. destruct (Hcase _ _ Hkl) as [Hold|[-> ->]].
      + destruct (Hf _ _ Hold) as (Hlt & Hid & Hkk). pose proof Hext as [Hn He].
        destruct (He _ Hlt) as (-> & _). rewrite fmap_app. split_and!; [lia|done|].
        rewrite map_subseteq_spec in Htn. destruct Hkk as [[lv ?]|?]; [left; eauto|right; set_solver].
      + rewrite fmap_app. split_and!; [done|done|]. destruct Hkind as [?|?]; [by left|right; set_solver].
    - intros id i name. rewrite first_app. destruct (first seen id) as [i'|] eqn:Hfi.
      + intros [= ->] Hn. destruct (first_Some _ _ _ Hfi) as [Hidi Hin].
        eapply located_ext; [exact Hok0|done|done| |by eapply Hl].
        apply Hids. rewrite fmap_app. apply elem_of_app. left. apply list_elem_of_fmap. eauto.
      + case_decide as Heq; [|done]. intros [= <-] Hn. rewrite Hi, decide_False in Hname by done.
        assert (nodeName = name) as <- by congruence.
        exists (next (b_store b)), top, k, path. by split_and!. }
  destruct (forest b !! k) as [root|] eqn:Hforest.
  - destruct (Hf _ _ Hforest) as (_ & _ & Hroot).
    assert (root = top) as ->.
    { eapply forest_same; [exact Hok| |exact Hnew|exact Hkind|exact Hk|].
      - rewrite fmap_app in Hids. set_solver.
      - destruct Hroot as [[lv Hr]|?]; [left|by right]. exists lv.
        by eapply map_subseteq_spec. }
    rewrite mergeVertices_self. simpl. eexists. split; [done|]. apply Hfin; [done|done|].
    intros. by left.
  - eexists. split; [done|]. apply Hfin.
    + by apply insert_subseteq.
    + apply lookup_insert_eq.
    + intros k' l. rewrite lookup_insert. case_decide; [intros [= <-]; by right|by left].
Qed.

Lemma instances_spec c :
  (∀ k, k ∈ it_InstanceID <$> c → k ∈ ids) →
  (∀ inst lv t, inst ∈ c → (lv, t) ∈ imap pair (trimmedTiers inst trimTiers) → t_ID t ≠ "" →
     (lv, t_ID t) ∈ entries) →
  ∃ b, foldl (λ ob inst, b ← ob; addInstance trimTiers b inst)
         (Some (MkBuilder (MkStore ∅ 0%nat) names ∅ ∅ NewDomainMap ∅)) c = Some b ∧ binv c b.
Proof.
  intros Hids Hent.
  apply (foldl_prefix_inv (λ l ob, ∃ b, ob = Some b ∧ binv l b)).
  - eexists. split; [done|]. unfold binv, ok. simpl. split_and!.
    + intros lv id l. by rewrite lookup_empty.
    + intros l k oc. unfold deref. rewrite lookup_empty. simpl. by rewrite lookup_empty.
    + done.
    + intros k l. by rewrite lookup_empty.
    + done.
  - intros l1 inst l2 ob -> (b & -> & Hb). simpl. apply addInstance_spec; [done| |].
    + intros k Hk. apply Hids. rewrite !fmap_app in *. csimpl in *. set_solver.
    + intros lv t. apply Hent. set_solver.
Qed.

(** The root above the forest, after growth that changes no old vertex. *)
Lemma root_spec b c s f :
  binv c b → ext (b_store b) s → forest b ⊆ f → (∀ k, k ∈ it_InstanceID <$> c → k ∈ ids) →
  let s' := (new s (MkVertex "" "" (Some <$> f))).1 in
  (∀ l, (l < next s)%nat → deref (cells s') l = deref (cells s) l) ∧
  ∀ id inst name, first c id = Some inst → names !! id = Some name → ∃ leaf,
    deref (cells s') leaf = MkVertex name id ∅ ∧
    lookupPath (cells s') (next s) (reverse (id :: switchIDs (trimmedTiers inst trimTiers))) = Some leaf.
Proof.
  intros (Hok & _ & _ & Hl) Hext Hf Hids s'.
  assert (∀ l, (l < next s)%nat → deref (cells s') l = deref (cells s) l) as Hold.
  { intros l Hlt. unfold s'. by rewrite deref_new, decide_False by lia. }
  split; [done|]. intros id inst name Hfi Hn. destruct (first_Some _ _ _ Hfi) as [Hid Hin].
  assert (located s' f inst name) as (leaf & top & k & path & Heq & Hk & Htop & Hpath & Hleaf & Hv).
  { eapply located_ext; [exact Hok| |exact Hf| |by eapply Hl].
    - eapply ext_trans; [done|apply ext_new].
    - apply Hids, list_elem_of_fmap. eauto. }
  subst id. exists leaf. split; [done|]. rewrite Heq. cbn [lookupPath].
  assert (deref (cells s') (next s) = MkVertex "" "" (Some <$> f)) as ->
    by (unfold s'; by rewrite deref_new, decide_True).
  cbn [Vertices]. by rewrite lookup_fmap, Hk.
Qed.
End Place.

Section Placed.
Context `{RangeOrder}.

Lemma levelled_spec trimTiers c : levelled trimTiers c →
  (∀ x y, x ∈ tierEntries trimTiers c → y ∈ tierEntries trimTiers c → x.2 = y.2 → x.1 = y.1) ∧
  (∀ x, x ∈ tierEntries trimTiers c → x.2 ∉ it_InstanceID <$> c) ∧
  (∀ inst lv t, inst ∈ c → (lv, t) ∈ imap pair (trimmedTiers inst trimTiers) → t_ID t ≠ "" →
     (lv, t_ID t) ∈ tierEntries trimTiers c).
Proof.
  intros (H1 & H2 & _). rewrite Forall_forall in H1, H2. split_and!.
  - intros x y Hx Hy. specialize (H1 x Hx). rewrite Forall_forall in H1. by apply H1.
  - intros x Hx. by apply H2.
  - intros inst lv t Hin Ht Hne. apply elem_of_concat. eexists. split.
    + apply list_elem_of_fmap. by exists inst.
    + apply list_elem_of_filter. split; [done|]. apply elem_of_lookup_imap in Ht as (i & t' & [= -> ->] & Ht).
      apply elem_of_lookup_imap. eauto.
Qed.

(** A root of the forest is a switch or an instance of the input. *)
Lemma forest_key trimTiers names c b k l :
  levelled trimTiers c → binv (tierEntries trimTiers c) trimTiers names c b → forest b !! k = Some l →
  k ≠ NoTopology.
Proof.
  intros (_ & Hne & Hnt) ((Htn & _) & _ & Hf & _) Hk ->.
  destruct (Hf _ _ Hk) as (_ & _ & [[lv Hl]|?]); [|done].
  destruct (Htn _ _ _ Hl) as (_ & _ & Hent). rewrite Forall_forall in Hne.
  by destruct (Hne _ Hent).
Qed.

Lemma ToGraph_places c cis trimTiers (normalize : bool) :
  levelled trimTiers (if normalize then Normalize c else c) →
  ∃ g root, ToGraph c cis trimTiers normalize = Some g ∧ Tiers g = Some root ∧
    ∀ id name, instanceNames cis !! id = Some name → ∃ leaf,
      deref (g_heap g) leaf = MkVertex name id ∅ ∧
      lookupPath (g_heap g) root
        (match first (if normalize then Normalize c else c) id with
         | Some inst => reverse (id :: switchIDs (trimmedTiers inst trimTiers))
         | None => [NoTopology; id]
         end) = Some leaf.
Proof.
  unfold ToGraph. set (c' := if normalize then _ else _). intros Hlv.
  destruct (levelled_spec _ _ Hlv) as (H1 & H2 & H3).
  destruct (instances_spec _ _ H1 H2 trimTiers (instanceNames cis) c' ltac:(done) H3) as (b & -> & Hb).
  cbn [mbind option_bind]. pose proof Hb as (_ & Hi & _).
  destruct (decide (i2n b = ∅)) as [Hemp|Hne].
  - destruct (root_spec _ _ H2 trimTiers _ b c' (b_store b) (forest b) Hb (ext_refl _ _) ltac:(done) ltac:(done))
      as [_ Hroot].
    eexists _, (next (b_store b)). split; [done|]. split; [done|]. cbn [g_heap].
    intros id name Hn. destruct (first c' id) as [inst|] eqn:Hf; [by eapply Hroot|].
    apply first_None in Hf. specialize (Hi id). rewrite Hemp, lookup_empty, decide_False in Hi by done.
    congruence.
  - pose proof (addMissing_spec (b_store b) (i2n b)) as Hm.
    destruct (addMissing (b_store b) (i2n b)) as [s sw]. destruct Hm as (-> & Hlt & Hold & Hmiss).
    assert (ext (tierEntries trimTiers c') (b_store b) s) as Hext.
    { split; [lia|]. intros l Hl. by rewrite Hold. }
    assert (forest b !! NoTopology = None) as Hno.
    { destruct (forest b !! NoTopology) eqn:Hk; [|done]. by destruct (forest_key _ _ _ _ _ _ Hlv Hb Hk). }
    destruct (root_spec _ _ H2 trimTiers _ b c' s (<[NoTopology := next (b_store b)]> (forest b)) Hb Hext
      ltac:(by apply insert_subseteq) ltac:(done)) as [Hkeep Hroot].
    eexists _, (next s). split; [done|]. split; [done|]. cbn [g_heap].
    intros id name Hn. destruct (first c' id) as [inst|] eqn:Hf; [by eapply Hroot|].
    apply first_None in Hf. specialize (Hi id). rewrite decide_False in Hi by done.
    destruct (Hmiss id name) as (leaf & Hk & Hleaf & Hv); [congruence|].
    exists leaf. split; [by rewrite Hkeep|]. cbn [lookupPath].
    set (v := MkVertex "" "" _) in *. pose proof (deref_new s v (next s)) as Hr.
    rewrite decide_True in Hr by done. cbn [lookupPath]. unfold new in *. cbn [fst cells] in *.
    rewrite Hr. unfold v at 1. cbn [Vertices]. rewrite lookup_fmap, lookup_insert_eq. cbn.
    rewrite Hkeep by done. by rewrite Hk.
Qed.

(** C2: [ToGraph] returns a graph in which every node of the request is a
    leaf: a node whose instance the provider reported hangs below the path of
    that instance's switches (outermost first, after trimming), and every
    other node below the switch [no-topology]; provided that a switch ID is
    used at one level only, is not also an instance ID and, like the instance
    IDs, is not [no-topology]. *)
Theorem ToGraph_places_nodes c cis trimTiers (normalize : bool) :
  levelled trimTiers (if normalize then Normalize c else c) →
  ∃ g root, ToGraph c cis trimTiers normalize = Some g ∧ Tiers g = Some root ∧
    ∀ id name, instanceNames cis !! id = Some name → ∃ leaf,
      deref (g_heap g) leaf = MkVertex name id ∅ ∧
      lookupPath (g_heap g) root
        (match first (if normalize then Normalize c else c) id with
         | Some inst => reverse (id :: switchIDs (trimmedTiers inst trimTiers))
         | None => [NoTopology; id]
         end) = Some leaf.
Proof. apply ToGraph_places. Qed.
End Placed.

Lemma ToGraph_places_nodes_witness :
  ∃ g root leaf, ToGraph [ex_inst "A" ["leaf1"; ""; "spine"]; ex_inst "B" ["leaf2"]]
      (ex_cis ["A"; "B"; "D"]) 0 true = Some g ∧ Tiers g = Some root ∧
    lookupPath (g_heap g) root ["spine"; "leaf1"; "A"] = Some leaf ∧
    deref (g_heap g) leaf = MkVertex "A" "A" ∅.
Proof.
  destruct (ToGraph_places_nodes [ex_inst "A" ["leaf1"; ""; "spine"]; ex_inst "B" ["leaf2"]]
    (ex_cis ["A"; "B"; "D"]) 0 true) as (g & root & Hg & Hr & Hall).
  - apply (bool_decide_unpack _). vm_compute. exact I.
  - destruct (Hall "A" "A") as (leaf & Hv & Hp); [vm_compute; reflexivity|].
    exists g, root, leaf. split; [exact Hg|split; [exact Hr|split; [exact Hp|exact Hv]]].
Defined.

End Topo.
