(* ===== verification/Normalize.v ===== *)
(** * Normalisation of switch names: [ClusterTopology.Normalize] of
    [pkg/topology/graph.go]

    The definitions are in [Topology]; this file proves what they do: the
    instances are reordered and their switches renamed, nothing else changes,
    and the generated names identify a switch by its level and ID. *)

From S2P Require Import Prelude GoStrings Domain Topology.
Open Scope Z_scope.

Module Normalization.
Import Topo.

(** ** Generated names *)

Lemma itoa_no_dot a : 0 ≤ a → contains_chr "." (itoa a) = false.
Proof.
  intros Ha. destruct (itoa_spec a Ha) as (_ & Hd & _).
  by eapply str_forallb_not_contains.
Qed.

Lemma switchName_split lv n : 0 ≤ n →
  split "." (switchName lv n) = ["switch"; itoa (Z.of_nat lv + 1); itoa n].
Proof.
  intros Hn. unfold switchName.
  change ("switch." +:+ ?s) with ("switch" +:+ String "." s).
  rewrite split_app by done. f_equal.
  change (itoa (Z.of_nat lv + 1) +:+ "." +:+ itoa n)
    with (itoa (Z.of_nat lv + 1) +:+ String "." (itoa n)).
  rewrite split_app by (apply itoa_no_dot; lia). f_equal.
  apply split_no_sep. by apply itoa_no_dot.
Qed.

Lemma switchName_inj lv lv' n n' :
  0 ≤ n → 0 ≤ n' → switchName lv n = switchName lv' n' → lv = lv' ∧ n = n'.
Proof.
  intros Hn Hn' Heq. apply (f_equal (split ".")) in Heq.
  rewrite !switchName_split in Heq by done. injection Heq as H1 H2.
  apply itoa_inj in H1, H2; lia.
Qed.

(** ** The naming state *)

Definition named (st : naming) (lv : nat) (id name : string) : Prop :=
  default ∅ (switches st !! lv) !! id = Some name.
Definition count (st : naming) (lv : nat) : Z := default 0 (levelCounts st !! lv).

(** Names are drawn from the numbers given out so far, one per switch. *)
Definition ninv (st : naming) : Prop :=
  (∀ lv, 0 ≤ count st lv) ∧
  (∀ lv id name, named st lv id name → ∃ n, 1 ≤ n ≤ count st lv ∧ name = switchName lv n) ∧
  (∀ lv id id' name, named st lv id name → named st lv id' name → id = id').

Definition grows (st st' : naming) : Prop := ∀ lv id name, named st lv id name → named st' lv id name.

Lemma grows_refl st : grows st st.
Proof. by intros ???. Qed.

Lemma nameTier_spec st lv tier :
  ninv st →
  let '(st', tier') := nameTier st lv tier in
  ninv st' ∧ grows st st' ∧ t_ID tier' = t_ID tier ∧
  (t_ID tier ≠ "" → named st' lv (t_ID tier') (t_Name tier')).
Proof.
  intros Hinv. unfold nameTier. case_decide as He; [split_and!; [done|apply grows_refl|done|done]|].
  destruct (default ∅ (switches st !! lv) !! t_ID tier) as [name|] eqn:Hn;
    [split_and!; [done|apply grows_refl|done|done]|].
  destruct Hinv as (Hpos & Hrange & Hinj). fold (count st lv).
  set (n := count st lv + 1). set (name := switchName lv n).
  set (st' := MkNaming _ _).
  assert (∀ lv', count st' lv' = if decide (lv = lv') then n else count st lv') as Hc.
  { intros lv'. unfold count, st'. simpl. rewrite lookup_insert. by case_decide. }
  assert (∀ lv' id nm, named st' lv' id nm ↔
    (lv = lv' ∧ t_ID tier = id ∧ name = nm) ∨ (¬ (lv = lv' ∧ t_ID tier = id) ∧ named st lv' id nm)) as Hnm.
  { intros lv' id nm. unfold named, st'. simpl. rewrite lookup_insert.
    case_decide as Hl; [subst lv'; simpl|naive_solver].
    rewrite lookup_insert. case_decide; naive_solver. }
  pose proof (Hpos lv) as Hplv.
  split_and!; [split_and!| |done|].
  - intros lv'. rewrite Hc. case_decide; [lia|apply Hpos].
  - intros lv' id nm [(<- & <- & <-)|[_ Hold]]%Hnm; rewrite Hc.
    + rewrite decide_True by done. exists n. split; [lia|done].
    + destruct (Hrange _ _ _ Hold) as (k & Hk & ->). exists k. split; [|done].
      case_decide; [subst; lia|lia].
  - intros lv' id id' nm H1%Hnm H2%Hnm.
    destruct H1 as [(Hl1 & Hi1 & Hm1)|[Hno1 Ho1]], H2 as [(Hl2 & Hi2 & Hm2)|[Hno2 Ho2]].
    + congruence.
    + destruct (Hrange _ _ _ Ho2) as (k & Hk & Heq). rewrite <-Hm1, <-Hl1 in *.
      apply switchName_inj in Heq as [_ Heq]; lia.
    + destruct (Hrange _ _ _ Ho1) as (k & Hk & Heq). rewrite <-Hm2, <-Hl2 in *.
      apply switchName_inj in Heq as [_ Heq]; lia.
    + by eapply Hinj.
  - intros lv' id nm Hold. apply Hnm. destruct (decide (lv = lv' ∧ t_ID tier = id)) as [[<- <-]|]; [|by right].
    exfalso. unfold named in Hold. congruence.
  - intros _. apply Hnm. by left.
Qed.

(** Every switch of a list of tiers, the first of them at level [lv0], is
    named. *)
Definition tiers_named (st : naming) (lv0 : nat) (tiers : list FabricTier) : Prop :=
  ∀ i t, tiers !! i = Some t → t_ID t ≠ "" → named st (lv0 + i) (t_ID t) (t_Name t).

Lemma tiers_named_grows st st' lv0 tiers :
  grows st st' → tiers_named st lv0 tiers → tiers_named st' lv0 tiers.
Proof. intros Hg Ht i t Hi Hne. apply Hg. by apply Ht. Qed.

Lemma nameTiers_spec tiers st lv0 :
  ninv st →
  let '(st', tiers') := nameTiers st lv0 tiers in
  ninv st' ∧ grows st st' ∧ t_ID <$> tiers' = t_ID <$> tiers ∧ tiers_named st' lv0 tiers'.
Proof.
  revert st lv0. induction tiers as [|tier tiers IH]; intros st lv0 Hinv; simpl.
  { split_and!; [done|apply grows_refl|done|done]. }
  pose proof (nameTier_spec st lv0 tier Hinv) as H1.
  destruct (nameTier st lv0 tier) as [st1 tier']. destruct H1 as (Hinv1 & Hg1 & Hid & Hn).
  pose proof (IH st1 (S lv0) Hinv1) as H2.
  destruct (nameTiers st1 (S lv0) tiers) as [st2 tiers']. destruct H2 as (Hinv2 & Hg2 & Hids & Hns).
  split_and!; [done|intros ????; by apply Hg2, Hg1| |].
  - csimpl. by rewrite Hid, Hids.
  - intros [|i] t; simpl.
    + intros [= <-] Hne. rewrite Nat.add_0_r. apply Hg2, Hn. by rewrite <-Hid.
    + intros Hi Hne. rewrite <-Nat.add_succ_comm. by apply Hns.
Qed.

(** An instance without its switch names. *)
Definition unnamed (inst : InstanceTopology) : InstanceTopology :=
  setTiers inst ((λ t, MkTier (t_ID t) "") <$> FabricTiers inst).

Lemma unnamed_setTiers inst tiers :
  t_ID <$> tiers = t_ID <$> FabricTiers inst → unnamed (setTiers inst tiers) = unnamed inst.
Proof.
  intros Heq. unfold unnamed, setTiers. simpl. f_equal.
  change ((λ t, MkTier (t_ID t) "") <$> ?l) with (((λ id, MkTier id "") ∘ t_ID) <$> l).
  by rewrite !list_fmap_compose, Heq.
Qed.

Lemma nameInstances_spec c st :
  ninv st → ∃ st', ninv st' ∧ grows st st' ∧ unnamed <$> nameInstances st c = unnamed <$> c ∧
    ∀ inst, inst ∈ nameInstances st c → tiers_named st' 0 (FabricTiers inst).
Proof.
  revert st. induction c as [|inst c IH]; intros st Hinv; simpl.
  { exists st. split_and!; [done|apply grows_refl|done|set_solver]. }
  pose proof (nameTiers_spec (FabricTiers inst) st 0 Hinv) as H1.
  destruct (nameTiers st 0 (FabricTiers inst)) as [st1 tiers]. destruct H1 as (Hinv1 & Hg1 & Hids & Hn1).
  destruct (IH st1 Hinv1) as (st2 & Hinv2 & Hg2 & Hun & Hn2). exists st2. split_and!.
  - done.
  - intros ????. by apply Hg2, Hg1.
  - csimpl. by rewrite unnamed_setTiers, Hun.
  - intros i [->|Hi]%elem_of_cons; [|by apply Hn2]. simpl. by eapply tiers_named_grows.
Qed.

(** ** The order *)

Lemma str_lt_asym a b : String.ltb a b = true → String.ltb b a = true → False.
Proof.
  unfold String.ltb. rewrite (String.compare_antisym b a).
  by destruct (String.compare a b).
Qed.

Lemma tiersLess_asym n a b : tiersLess n a b = Some true → tiersLess n b a = Some true → False.
Proof.
  induction n as [|n IH]; simpl; [done|]. repeat case_decide; [done|congruence|congruence|].
  intros [= Ha] [= Hb]. by eapply str_lt_asym.
Qed.
Lemma tiersLess_None n a b : tiersLess n a b = None → tiersLess n b a = None.
Proof. induction n as [|n IH]; simpl; [done|]. repeat case_decide; [done|congruence|done..]. Qed.

Lemma less_asym a b : less a b = true → less b a = true → False.
Proof.
  unfold less. rewrite Nat.max_comm. set (n := Nat.max _ _).
  destruct (tiersLess n (FabricTiers a) (FabricTiers b)) as [[]|] eqn:H1; [|done|].
  - destruct (tiersLess n (FabricTiers b) (FabricTiers a)) as [[]|] eqn:H2; [|done|].
    + intros _ _. by eapply tiersLess_asym.
    + apply tiersLess_None in H2. congruence.
  - rewrite (tiersLess_None _ _ _ H1). apply str_lt_asym.
Qed.

#[global] Instance inst_le_total : Total inst_le.
Proof.
  intros a b. unfold inst_le. destruct (less b a) eqn:H1; [|by left].
  destruct (less a b) eqn:H2; [|by right]. exfalso. by eapply less_asym.
Qed.

(** [Normalize] changes nothing but the order of the instances, which
    becomes the order of the network hierarchy, and the names of the switches;
    afterwards two switches have the same name exactly when they are at the
    same level and have the same ID. *)
Theorem Normalize_renames_switches c :
  (unnamed <$> Normalize c ≡ₚ unnamed <$> c) ∧
  Sorted inst_le (sortInstances c) ∧ (unnamed <$> Normalize c = unnamed <$> sortInstances c) ∧
  ∀ i1 i2 lv1 lv2 t1 t2,
    i1 ∈ Normalize c → i2 ∈ Normalize c →
    FabricTiers i1 !! lv1 = Some t1 → FabricTiers i2 !! lv2 = Some t2 →
    t_ID t1 ≠ "" → t_ID t2 ≠ "" →
    (t_Name t1 = t_Name t2 ↔ lv1 = lv2 ∧ t_ID t1 = t_ID t2).
Proof.
  unfold Normalize.
  destruct (nameInstances_spec (sortInstances c) (MkNaming ∅ ∅)) as (st & Hinv & _ & Hun & Hn).
  { split_and!; unfold named, count; simpl; [done|..]; intros ???; rewrite lookup_empty; done. }
  split_and!.
  - rewrite Hun. apply Permutation_map, merge_sort_Permutation.
  - apply Sorted_merge_sort, _.
  - done.
  - intros i1 i2 lv1 lv2 t1 t2 Hi1 Hi2 Ht1 Ht2 Hne1 Hne2.
    pose proof (Hn _ Hi1 _ _ Ht1 Hne1) as H1. pose proof (Hn _ Hi2 _ _ Ht2 Hne2) as H2. simpl in H1, H2.
    destruct Hinv as (_ & Hrange & Hinj). split.
    + intros Heq. destruct (Hrange _ _ _ H1) as (n1 & ? & Hs1). destruct (Hrange _ _ _ H2) as (n2 & ? & Hs2).
      assert (lv1 = lv2) as -> by (eapply (switchName_inj _ _ n1 n2); [lia|lia|congruence]).
      split; [done|]. eapply Hinj; [exact H1|]. by rewrite Heq.
    + intros [-> Heq]. unfold named in *. rewrite Heq in H1. congruence.
Qed.

Example Normalize_ex :
  (λ i, (it_InstanceID i, t_Name <$> FabricTiers i)) <$>
    Normalize [ex_inst "c" ["l2"; "s1"]; ex_inst "b" ["l1"; "s1"]; ex_inst "a" ["l2"; "s1"]] =
  [("b", ["switch.1.1"; "switch.2.1"]); ("a", ["switch.1.2"; "switch.2.1"]);
   ("c", ["switch.1.2"; "switch.2.1"])].
Proof. vm_compute. reflexivity. Qed.

End Normalization.
