(* ===== verification/Merger.v ===== *)
(** * Merging similar switches: [pkg/topology/merger.go]

    The tiers of a switch hierarchy are processed from the leaves up; the
    switches of a tier that connect to the same switches below are merged
    into one. *)

From S2P Require Import Prelude GoStrings Domain Topology.

Module Merging.
Import Topo.

(** [tiers] starts at the leaf level; [nodes] and [refs] hold pointers
    ([None] is nil). *)
Record Merger := MkMerger {
  tiers : list (list nat);
  m_nodes : gmap string nat;
  m_refs : gmap string (option nat)
}.

Definition id_le (h : heap) (a b : nat) : Prop := String.le (v_ID (deref h a)) (v_ID (deref h b)).
#[global] Instance id_le_dec h : RelDecision (id_le h).
Proof. intros a b. unfold id_le. apply _. Defined.

(** The children of a layer that are not in the layer, each ID once. *)
Definition nextLayer (h : heap) (layer : list nat) : list nat :=
  (foldl (λ acc v, foldl (λ '(visited, next) id,
      if decide (id ∈ visited) then (visited, next)
      else match Vertices (deref h v) !! id with
           | Some (Some w) => (id :: visited, next ++ [w])
           | _ => (id :: visited, next)
           end) acc (sorted_keys (Vertices (deref h v))))
    ((λ v, v_ID (deref h v)) <$> layer, []) layer).2.

Definition isLeaf (h : heap) (v : nat) : bool := bool_decide (Vertices (deref h v) = ∅).

(** [None]: the recursion is deeper than [fuel]. *)
Fixpoint traverse (fuel : nat) (h : heap) (m : Merger) (layer : list nat) : option Merger :=
  let m := MkMerger (tiers m)
    (foldl (λ nodes v, if isLeaf h v then <[v_ID (deref h v) := v]> nodes else nodes) (m_nodes m) layer)
    (m_refs m) in
  let push (m : Merger) := MkMerger (tiers m ++ [layer]) (m_nodes m) (m_refs m) in
  if existsb (isLeaf h) layer then Some (push m)
  else match fuel with
       | O => None
       | S fuel => push <$> traverse fuel h m (nextLayer h layer)
       end.

Definition NewMerger (fuel : nat) (h : heap) (top : list nat) : option Merger :=
  if decide (top = []) then Some (MkMerger [] ∅ ∅)
  else traverse fuel h (MkMerger [] ∅ ∅) (merge_sort (id_le h) top).

Definition TopTier (m : Merger) : list nat := default [] (last (tiers m)).

(** ** One layer *)

Record layerState := MkLayer {
  l_store : store;
  l_nodes : gmap string nat;
  l_refs : gmap string (option nat);
  filters : list (list string * string);
  l_result : list nat
}.

(** The ID a child is known by after the merges below. References are never
    nil: they are taken from nodes that exist. *)
Definition resolve (s : store) (refs : gmap string (option nat)) (id : string) : string :=
  match refs !! id with
  | Some (Some ref) => v_ID (deref (cells s) ref)
  | _ => id
  end.

Definition signature (s : store) (refs : gmap string (option nat)) (v : nat) : list string :=
  sort_strings (elements (set_map (resolve s refs) (dom (Vertices (deref (cells s) v))) : gset string)).

Definition mergeVertex (st : layerState) (v : nat) : layerState :=
  let s := l_store st in
  let id := v_ID (deref (cells s) v) in
  let sig := signature s (l_refs st) v in
  match list_find (λ f, f.1 = sig) (filters st) with
  | Some (_, f) =>
      MkLayer s (l_nodes st) (<[id := l_nodes st !! f.2]> (l_refs st)) (filters st) (l_result st)
  | None =>
      let '(s', merged) := new s (MkVertex (v_Name (deref (cells s) v)) id
                                    (list_to_map ((λ c, (c, l_nodes st !! c)) <$> sig))) in
      MkLayer s' (<[id := merged]> (l_nodes st)) (l_refs st) (filters st ++ [(sig, id)])
        (l_result st ++ [merged])
  end.

Definition mergeLayer (s : store) (m : Merger) (layer : list nat) : layerState :=
  foldl mergeVertex (MkLayer s (m_nodes m) (m_refs m) [] []) layer.

(** [for i := 1; i < len(m.tiers); i++]: [done] are the tiers before [i]. *)
Fixpoint mergeTiers (s : store) (m : Merger) (done rest : list (list nat)) : store * Merger :=
  match rest with
  | [] => (s, MkMerger done (m_nodes m) (m_refs m))
  | layer :: rest =>
      let st := mergeLayer s m layer in
      mergeTiers (l_store st) (MkMerger (tiers m) (l_nodes st) (l_refs st)) (done ++ [l_result st]) rest
  end.
Definition Merge (s : store) (m : Merger) : store * Merger :=
  match tiers m with
  | [] => (s, m)
  | leaves :: rest => mergeTiers s m [leaves] rest
  end.

(** ** What a layer's merge does *)

Definition ID (s : store) (v : nat) : string := v_ID (deref (cells s) v).

(** The representative of a vertex after its layer is merged. *)
Definition representative (st : layerState) (id : string) : option nat :=
  match l_refs st !! id with Some r => r | None => l_nodes st !! id end.

Definition keys (s : store) (v : nat) : list string := sort_strings (elements (dom (Vertices (deref (cells s) v)))).

Section Layer.
Context (s0 : store) (refs0 : gmap string (option nat)) (layer : list nat).
(** Vertices of the layer and the referenced ones are allocated, have
    different IDs and no edges inside the layer. *)
Hypothesis Halloc : ∀ v, v ∈ layer → (v < next s0)%nat.
Hypothesis Hrefs : ∀ id r, refs0 !! id = Some (Some r) → (r < next s0)%nat.
Hypothesis Hnew : ∀ v, v ∈ layer → refs0 !! ID s0 v = None.
Hypothesis Hedges : ∀ v w, v ∈ layer → w ∈ layer → Vertices (deref (cells s0) v) !! ID s0 w = None.
Hypothesis Hnodup : NoDup (ID s0 <$> layer).

Definition linv (seen : list nat) (st : layerState) : Prop :=
  (next s0 ≤ next (l_store st))%nat ∧
  (∀ v, (v < next s0)%nat → deref (cells (l_store st)) v = deref (cells s0) v) ∧
  (∀ id, id ∉ ID s0 <$> seen → l_refs st !! id = refs0 !! id) ∧
  (filters st = (λ r, (keys (l_store st) r, ID (l_store st) r)) <$> l_result st) ∧
  (∀ r, r ∈ l_result st → (r < next (l_store st))%nat ∧ l_nodes st !! ID (l_store st) r = Some r ∧
                          ID (l_store st) r ∈ ID s0 <$> seen) ∧
  NoDup (keys (l_store st) <$> l_result st) ∧
  (∀ v, v ∈ seen → ∃ r, r ∈ l_result st ∧ representative st (ID s0 v) = Some r ∧
     keys (l_store st) r = signature s0 refs0 v).

Lemma signature_stable seen st v :
  linv seen st → v ∈ layer → (∀ w, w ∈ seen → w ∈ layer) →
  signature (l_store st) (l_refs st) v = signature s0 refs0 v.
Proof.
  intros (_ & Hold & Href & _) Hv Hseen. unfold signature. rewrite Hold by auto. do 2 f_equal.
  apply set_eq. intros x. rewrite !elem_of_map.
  assert (∀ k, k ∈ dom (Vertices (deref (cells s0) v)) →
    resolve (l_store st) (l_refs st) k = resolve s0 refs0 k) as Heq; [|naive_solver].
  intros k [oc Hk]%elem_of_dom. unfold resolve. rewrite Href.
  - destruct (refs0 !! k) as [[r|]|] eqn:Hr; [|done|done]. rewrite Hold; [done|]. by eapply Hrefs.
  - intros (w & -> & Hw)%list_elem_of_fmap. rewrite Hedges in Hk by auto. done.
Qed.

Lemma keys_merged s name id (nodes : gmap string nat) (X : gset string) :
  let sig := sort_strings (elements X) in
  let v := MkVertex name id (list_to_map ((λ c, (c, nodes !! c)) <$> sig)) in
  keys (new s v).1 (next s) = sig.
Proof.
  intros sig v. unfold keys. rewrite deref_new, decide_True by done. unfold v; cbn [Vertices].
  unfold sig. f_equal. f_equal. rewrite dom_list_to_map_L, <-list_fmap_compose. apply set_eq.
  intros x. rewrite elem_of_list_to_set. change (fst ∘ _) with (@Datatypes.id string).
  rewrite list_fmap_id, elem_of_sort_strings. set_solver.
Qed.

Lemma linv_step seen st v :
  linv seen st → v ∈ layer → (∀ w, w ∈ seen → w ∈ layer) → ID s0 v ∉ ID s0 <$> seen →
  linv (seen ++ [v]) (mergeVertex st v).
Proof.
  intros Hinv Hv Hseen Hfresh. pose proof (signature_stable _ _ _ Hinv Hv Hseen) as Hsig.
  destruct Hinv as (Hnext & Hold & Href & Hfil & Hres & Hnd & Hrep).
  unfold mergeVertex. rewrite Hsig. rewrite (Hold v) by auto. fold (ID s0 v).
  set (sig := signature s0 refs0 v) in *. set (id := ID s0 v) in *.
  destruct (list_find (λ f, f.1 = sig) (filters st)) as [[i f]|] eqn:Hfind.
  - apply list_find_Some in Hfind as (Hi & Hf & _). rewrite Hfil in Hi.
    apply list_lookup_fmap_Some in Hi as (r & -> & Hr%list_elem_of_lookup_2). simpl in Hf.
    destruct (Hres r Hr) as (Hrlt & Hnode & Hrid). unfold linv, representative. simpl. rewrite fmap_app.
    split_and!; try done.
    + intros k Hk. rewrite lookup_insert_ne by set_solver. apply Href. set_solver.
    + intros r' Hr'. destruct (Hres r' Hr') as (? & ? & ?). split_and!; [done|done|set_solver].
    + intros w [Hw|Hw%list_elem_of_singleton]%elem_of_app; [|subst w].
      * destruct (Hrep w Hw) as (r' & ? & Hrr & ?). exists r'. split_and!; [done| |done].
        rewrite lookup_insert_ne; [exact Hrr|]. intros ->. apply Hfresh, list_elem_of_fmap. eauto.
      * exists r. fold id. rewrite lookup_insert_eq. done.
  - apply list_find_None in Hfind. rewrite Hfil, Forall_fmap, Forall_forall in Hfind.
    set (name := v_Name _). set (kids := list_to_map _). set (nv := MkVertex name id kids).
    change (new (l_store st) nv) with ((new (l_store st) nv).1, next (l_store st)). cbv beta iota.
    assert (∀ r, (r < next (l_store st))%nat →
      deref (cells (new (l_store st) nv).1) r = deref (cells (l_store st)) r) as Hkeep.
    { intros r Hr. by rewrite deref_new, decide_False by lia. }
    assert (keys (new (l_store st) nv).1 (next (l_store st)) = sig) as Hkeys
      by apply keys_merged.
    assert (ID (new (l_store st) nv).1 (next (l_store st)) = id) as Hid
      by (unfold ID; by rewrite deref_new, decide_True).
    assert (∀ r, r ∈ l_result st → keys (new (l_store st) nv).1 r = keys (l_store st) r ∧
      ID (new (l_store st) nv).1 r = ID (l_store st) r) as Hsame.
    { intros r Hr. unfold keys, ID. destruct (Hres r Hr) as (? & _). by rewrite Hkeep. }
    assert (l_refs st !! id = None) as Hnone by (rewrite Href by done; by apply Hnew).
    pose proof (next_new (l_store st) nv) as Hn1. set (s1 := (new (l_store st) nv).1) in *. clearbody s1.
    unfold linv, representative. cbn [l_store l_nodes l_refs filters l_result]. rewrite fmap_app, Hn1.
    split_and!.
    + lia.
    + intros w Hw. rewrite Hkeep by lia. by apply Hold.
    + intros k Hk. apply Href. set_solver.
    + rewrite fmap_app, Hfil. csimpl. rewrite Hkeys, Hid. f_equal.
      apply list_fmap_ext. intros i r Hr%list_elem_of_lookup_2. by destruct (Hsame r Hr) as [-> ->].
    + intros r [Hr|Hr%list_elem_of_singleton]%elem_of_app; [|subst r].
      * destruct (Hsame r Hr) as [_ ->]. destruct (Hres r Hr) as (? & ? & ?).
        split_and!; [lia| |set_solver]. rewrite lookup_insert_ne; [done|]. congruence.
      * rewrite Hid, lookup_insert_eq. split_and!; [lia|done|]. csimpl. set_solver.
    + rewrite fmap_app. csimpl. rewrite Hkeys.
      rewrite (list_fmap_ext _ (keys (l_store st)))
        by (intros i r Hr%list_elem_of_lookup_2; by apply Hsame).
      apply NoDup_app. split_and!; [done| |by apply NoDup_singleton].
      intros k (r & -> & Hr)%list_elem_of_fmap Hk%list_elem_of_singleton. by apply (Hfind r Hr).
    + intros w [Hw|Hw%list_elem_of_singleton]%elem_of_app; [|subst w].
      * destruct (Hrep w Hw) as (r & Hr & Hrr & Hk). exists r. split_and!; [set_solver| |].
        -- unfold representative in Hrr. destruct (l_refs st !! ID s0 w); [done|].
           rewrite lookup_insert_ne; [done|]. intros Heq. apply Hfresh, list_elem_of_fmap. eauto.
        -- by destruct (Hsame r Hr) as [-> _].
      * exists (next (l_store st)). fold id. rewrite Hnone, lookup_insert_eq.
        split_and!; [set_solver|done|done].
Qed.
End Layer.

(** C35: Merging a layer leaves one switch per set of switches below: the
    result's switches have pairwise different children, and every switch of
    the layer is represented by a switch of the result whose children are its
    own, up to the merges of the layer below.  The switches of the layer exist, have
    different IDs, and are neither merged already nor children of one another. *)
Theorem mergeLayer_spec s m layer :
  Forall (λ v, (v < next s)%nat ∧ m_refs m !! ID s v = None ∧
               Forall (λ w, Vertices (deref (cells s) v) !! ID s w = None) layer) layer →
  map_Forall (λ id r, match r with Some r => (r < next s)%nat | None => True end) (m_refs m) →
  NoDup (ID s <$> layer) →
  let st := mergeLayer s m layer in
  NoDup (keys (l_store st) <$> l_result st) ∧
  ∀ v, v ∈ layer → ∃ r, r ∈ l_result st ∧ representative st (ID s v) = Some r ∧
    keys (l_store st) r = signature s (m_refs m) v.
Proof.
  intros Hl Hr Hnd st. rewrite Forall_forall in Hl.
  assert (linv s (m_refs m) layer st) as Hinv.
  { unfold st, mergeLayer. apply (foldl_prefix_inv (linv s (m_refs m))).
    - unfold linv. simpl. split_and!; [done|done|done|done|set_solver|constructor|set_solver].
    - intros l1 v l2 t Heq Hinv. pose proof Hnd as Hnd'.
      rewrite Heq, fmap_app, NoDup_app in Hnd'. destruct Hnd' as (_ & Hd & _).
      apply (linv_step s (m_refs m) layer); try done.
      + intros w Hw. by apply Hl.
      + intros id r Hid. by apply Hr in Hid.
      + intros w Hw. by apply Hl.
      + intros w w' Hw Hw'. destruct (Hl w Hw) as (_ & _ & He). rewrite Forall_forall in He. by apply He.
      + rewrite Heq. apply elem_of_app. right. left.
      + intros w Hw. rewrite Heq. apply elem_of_app. by left.
      + intros Hin. apply (Hd _ Hin). csimpl. set_solver. }
  destruct Hinv as (_ & _ & _ & _ & _ & ? & ?). done.
Qed.

(** Two spines over the same leaf switches become one. *)
Definition w_store : store :=
  MkStore {[ 0%nat := MkVertex "" "l1" ∅; 1%nat := MkVertex "" "l2" ∅;
             2%nat := MkVertex "" "s1" {[ "l1" := Some 0%nat; "l2" := Some 1%nat ]};
             3%nat := MkVertex "" "s2" {[ "l1" := Some 0%nat; "l2" := Some 1%nat ]} ]} 4.

Lemma mergeLayer_spec_witness :
  let st := mergeLayer w_store (MkMerger [] {[ "l1" := 0%nat; "l2" := 1%nat ]} ∅) [2; 3]%nat in
  length (l_result st) = 1%nat ∧
  ∃ r, r ∈ l_result st ∧ representative st "s2" = Some r ∧ keys (l_store st) r = ["l1"; "l2"].
Proof.
  destruct (mergeLayer_spec w_store (MkMerger [] {[ "l1" := 0%nat; "l2" := 1%nat ]} ∅) [2; 3]%nat)
    as [_ Hrep].
  - apply (bool_decide_unpack _). vm_compute. exact I.
  - apply map_Forall_empty.
  - apply (bool_decide_unpack _). vm_compute. exact I.
  - split; [vm_compute; reflexivity|].
    destruct (Hrep 3%nat) as (r & Hr & Hrr & Hk); [apply (bool_decide_unpack _); vm_compute; exact I|].
    exists r. split; [exact Hr|split; [exact Hrr|]]. rewrite Hk. vm_compute. reflexivity.
Defined.

End Merging.
