(* ===== verification/Network.v ===== *)
(** * The network topology: [pkg/translate/topology.go]

    [NewNetworkTopology] checks the configuration, walks the switch graph
    breadth first, rejects anything that is not a tree, records every vertex,
    adjacency list and node, and orders the accelerator blocks by the first
    appearance of their nodes in the tree. *)

From S2P Require Import Prelude GoStrings Domain BlockTree Topology.
Open Scope Z_scope.

(** ** Regular expressions

    The patterns come from the configuration.  What the code uses of
    [regexp]: compilation, the source text, and the expansion of a template
    with the submatches of the first match ([None]: no match). *)
Class Regexp := {
  regexp : Type;
  re_compile : string → option regexp;
  re_String : regexp → string;
  re_expand : regexp → string → string → option string;
  (** [Regexp.String] returns the source text used to compile. *)
  re_compile_String : ∀ s r, re_compile s = Some r → re_String r = s
}.

Section Data.
Context `{Regexp}.

Record BlockNameConfig := MkBlockName {
  NodeNameRegexp : string;
  Format : string;
  compiledRegexp : option regexp
}.

Record TopologySpec := MkSpec {
  ts_Plugin : string;
  ts_BlockSizes : list Z;
  ts_BlockName : option BlockNameConfig;
  ClusterDefault : bool;
  ts_Nodes : list string
}.

Record Config := MkConfig {
  Plugin : string;
  BlockSizes : list Z;
  BlockName : option BlockNameConfig;
  Topologies : gmap string TopologySpec
}.

Record nodeInfo := MkNodeInfo {
  instanceID : string;
  blockID : string;
  blockIndx : option Z;
  ni_switches : list string
}.

(** The graph's heap is kept beside the pointers into it. *)
Record NetworkTopology := MkNT {
  config : Config;
  tree : gmap string (list string);
  nt_domains : option Domain.DomainMap;
  blocks : list blockInfo;
  vertices : gmap string nat;
  nt_nodeInfo : gmap string nodeInfo;
  nt_heap : heap
}.
End Data.

Module Network.
Import Domain BlockTree Topo.

Section Network.
Context `{Regexp} `{RangeOrder}.

(** ** Block names *)

Record blockNameFormatter := MkFormatter { f_re : option regexp; f_format : string }.

Definition compileBlockNameFormatter (cfg : option BlockNameConfig) : option blockNameFormatter :=
  match cfg with
  | None => None
  | Some c => Some (MkFormatter (compiledRegexp c) (Format c))
  end.

(** The messages of the errors are represented by their arguments. A formatter
    without a regular expression would be a nil dereference; [Validate] leaves
    none. *)
Inductive nameErr :=
| ErrNoMatch (node : string)
| ErrEmptyName (node : string)
| ErrDifferent (first second : string)
| ErrNilRegexp.

Definition nameOfNode (re : regexp) (format : string) (blockName : string) (node : string) :
    result nameErr string :=
  match re_expand re format node with
  | None => Err (ErrNoMatch node)
  | Some nodeBlockName =>
      if decide (nodeBlockName = "") then Err (ErrEmptyName node)
      else if decide (blockName = "") then Ok nodeBlockName
      else if decide (nodeBlockName = blockName) then Ok blockName
      else Err (ErrDifferent blockName nodeBlockName)
  end.

Definition formatBlockName (f : option blockNameFormatter) (defaultName : string)
    (nodes : list string) : result nameErr string :=
  match f with
  | None => Ok defaultName
  | Some f =>
      if decide (nodes = []) then Ok defaultName
      else match f_re f with
           | None => Err ErrNilRegexp
           | Some re => foldM (nameOfNode re (f_format f)) "" nodes
           end
  end.

(** [kept], [names], [dropped] and [seen] of the loop. *)
Record naming := MkNames {
  kept : list blockInfo;
  names : list string;
  dropped : list blockInfo;
  n_seen : gmap string string
}.
Inductive duplicateErr := ErrDuplicate (previous block name : string).

Definition formatBlock (f : option blockNameFormatter) (st : naming) (block : blockInfo) :
    result duplicateErr naming :=
  match formatBlockName f (b_id block) (b_nodes block) with
  | Err _ => Ok (MkNames (kept st) (names st) (dropped st ++ [block]) (n_seen st))
  | Ok name =>
      match n_seen st !! name with
      | Some previousBlock => Err (ErrDuplicate previousBlock (b_id block) name)
      | None => Ok (MkNames (kept st ++ [block]) (names st ++ [name]) (dropped st)
                      (<[name := b_id block]> (n_seen st)))
      end
  end.

Definition formatBlockNames (blocks : list blockInfo) (f : option blockNameFormatter) :
    result duplicateErr naming :=
  foldM (formatBlock f) (MkNames [] [] [] ∅) blocks.

(** ** Configuration *)

Inductive validateErr :=
| ErrBlockNamePlugin (topo : option string)
| ErrEmptyRegexp (topo : option string)
| ErrEmptyFormat (topo : option string)
| ErrInvalidRegexp (topo : option string) (re : string)
| ErrExclusive
| ErrMissingTree (topo : option string)
| ErrMissingBlock (topo : option string)
| ErrNoDomains (topo : option string)
| ErrUnsupportedPlugin (plugin : string) (topo : option string)
| ErrNoNodes (topo : string).

(** The compiled expression is stored in the configuration. *)
Definition ValidateBlockNameConfig (topo : option string) (cfg : option BlockNameConfig) :
    result validateErr (option BlockNameConfig) :=
  match cfg with
  | None => Ok None
  | Some c =>
      if decide (NodeNameRegexp c = "") then Err (ErrEmptyRegexp topo)
      else if decide (Format c = "") then Err (ErrEmptyFormat topo)
      else if bool_decide (re_String <$> compiledRegexp c = Some (NodeNameRegexp c)) then Ok (Some c)
      else match re_compile (NodeNameRegexp c) with
           | None => Err (ErrInvalidRegexp topo (NodeNameRegexp c))
           | Some r => Ok (Some (MkBlockName (NodeNameRegexp c) (Format c) (Some r)))
           end
  end.

(** The data a plugin needs; [topo] is [None] for the cluster-wide plugin,
    which cannot be flat. *)
Definition checkPlugin (topo : option string) (plugin : string) (graph : option Graph) :
    result validateErr unit :=
  if decide (plugin = TopologyTree) then
    match graph ≫= Tiers with None => Err (ErrMissingTree topo) | Some _ => Ok () end
  else if decide (plugin = TopologyBlock) then
    match graph ≫= Domains with
    | None => Err (ErrMissingBlock topo)
    | Some domains => if decide (domains = ∅) then Err (ErrNoDomains topo) else Ok ()
    end
  else if bool_decide (plugin = TopologyFlat) && bool_decide (is_Some topo) then Ok ()
  else Err (ErrUnsupportedPlugin plugin topo).

Definition validateSpec (graph : option Graph) (topologies : gmap string TopologySpec)
    (ts : string * TopologySpec) : result validateErr (gmap string TopologySpec) :=
  let '(topo, spec) := ts in
  if bool_decide (is_Some (ts_BlockName spec)) && negb (bool_decide (ts_Plugin spec = TopologyBlock))
  then Err (ErrBlockNamePlugin (Some topo))
  else
    bn ← ValidateBlockNameConfig (Some topo) (ts_BlockName spec);
    _ ← checkPlugin (Some topo) (ts_Plugin spec) graph;
    if bool_decide (ts_Nodes spec = []) && negb (bool_decide (ts_Plugin spec = TopologyFlat))
    then Err (ErrNoNodes topo)
    else Ok (<[topo := MkSpec (ts_Plugin spec) (ts_BlockSizes spec) bn (ClusterDefault spec) (ts_Nodes spec)]>
               topologies).

Definition Validate (cfg : Config) (graph : option Graph) : result validateErr Config :=
  if bool_decide (is_Some (BlockName cfg)) && negb (bool_decide (Plugin cfg = TopologyBlock))
  then Err (ErrBlockNamePlugin None)
  else
    bn ← ValidateBlockNameConfig None (BlockName cfg);
    if decide (Topologies cfg = ∅) then
      _ ← checkPlugin None (Plugin cfg) graph;
      Ok (MkConfig (Plugin cfg) (BlockSizes cfg) bn (Topologies cfg))
    else if decide (Plugin cfg = "") then
      topologies ← foldM (validateSpec graph) (Topologies cfg) (range (Topologies cfg));
      Ok (MkConfig (Plugin cfg) (BlockSizes cfg) bn topologies)
    else Err ErrExclusive.

(** ** [initTree] *)

Record treeState := MkTree {
  t_tree : gmap string (list string);
  t_vertices : gmap string nat;
  t_nodeInfo : gmap string nodeInfo;
  parentMap : gmap string (list string);
  t_seen : gset string
}.

Inductive treeErr :=
| ErrNilChild (id key : string)
| ErrSelfEdge (id : string)
| ErrNotTree (id : string).

Definition parents (st : treeState) (id : string) : list string := default [] (parentMap st !! id).

(** The part of an iteration before the loop over the children. *)
Definition enter (h : heap) (st : treeState) (l : nat) : treeState :=
  let v := deref h l in
  match t_tree st !! v_ID v with
  | Some _ => st
  | None =>
      MkTree (<[v_ID v := []]> (t_tree st)) (<[v_ID v := l]> (t_vertices st))
        (if decide (Vertices v = ∅)
         then <[v_Name v := MkNodeInfo (v_ID v) "" None (parents st (v_ID v))]> (t_nodeInfo st)
         else t_nodeInfo st)
        (parentMap st) (t_seen st)
  end.

Definition visitChild (h : heap) (v : Vertex) (acc : treeState * list nat) (kv : string * option nat) :
    result treeErr (treeState * list nat) :=
  let '(st, queue) := acc in
  let '(id, ow) := kv in
  match ow with
  | None => Err (ErrNilChild (v_ID v) id)
  | Some w =>
      let wID := v_ID (deref h w) in
      if decide (id = v_ID v ∨ wID = v_ID v) then Err (ErrSelfEdge (v_ID v))
      else if decide (wID ∈ t_seen st) then Err (ErrNotTree wID)
      else
        Ok (MkTree (<[v_ID v := default [] (t_tree st !! v_ID v) ++ [id]]> (t_tree st))
              (t_vertices st) (t_nodeInfo st)
              (if decide (v_ID v = "") then parentMap st
               else <[wID := parents st (v_ID v) ++ [v_ID v]]> (parentMap st))
              ({[wID]} ∪ t_seen st),
            queue ++ [w])
  end.

(** [None]: more iterations than [fuel]. *)
Fixpoint initLoop (fuel : nat) (h : heap) (st : treeState) (queue : list nat) :
    option (result treeErr treeState) :=
  match queue with
  | [] => Some (Ok st)
  | l :: queue =>
      match fuel with
      | O => None
      | S fuel =>
          let v := deref h l in
          match foldM (visitChild h v) (enter h st l, queue) (range (Vertices v)) with
          | Err e => Some (Err e)
          | Ok (st, queue) => initLoop fuel h st queue
          end
      end
  end.

Definition emptyTree : treeState := MkTree ∅ ∅ ∅ ∅ ∅.

(** One iteration per vertex of the heap suffices (one more for the zero
    vertex that stands for a dangling pointer). *)
Definition initFuel (h : heap) : nat := S (S (size h)).

Definition initTree (graph : option Graph) : option (result treeErr treeState) :=
  match graph with
  | None => Some (Ok emptyTree)
  | Some g =>
      match Tiers g with
      | None => Some (Ok emptyTree)
      | Some root =>
          let h := g_heap g in
          r ← initLoop (initFuel h) h (MkTree ∅ ∅ ∅ ∅ {[v_ID (deref h root)]}) [root];
          match r with
          | Err e => Some (Err e)
          | Ok st => Some (Ok (MkTree (sort_strings <$> t_tree st) (t_vertices st) (t_nodeInfo st)
                                 (parentMap st) (t_seen st)))
          end
      end
  end.

(** ** [initBlocks] *)

Definition toBlockInfos (domains : DomainMap) : list blockInfo :=
  imap (λ i domainName,
    MkBlockInfo ("block" +:+ pad 3 (Z.of_nat i + 1)) domainName 0
      (sorted_keys (default ∅ (domains !! domainName)))) (sorted_keys domains).

Definition setBlockID (info : nodeInfo) (id : string) : nodeInfo :=
  MkNodeInfo (instanceID info) id (blockIndx info) (ni_switches info).
Definition setBlockIndx (info : nodeInfo) (indx : Z) : nodeInfo :=
  MkNodeInfo (instanceID info) (blockID info) (Some indx) (ni_switches info).

(** [if info, ok := nt.nodeInfo[node]; ok { f(info) }] for each node. *)
Definition updateNodes (f : nodeInfo → nodeInfo) (infos : gmap string nodeInfo) (nodes : list string) :
    gmap string nodeInfo :=
  foldl (λ infos node, alter f node infos) infos nodes.

Definition withIndx (b : blockInfo) (indx : Z) : blockInfo :=
  MkBlockInfo (b_id b) (b_name b) indx (b_nodes b).

(** Without tree data every host of a domain gets its node record here. *)
Definition blocksWithoutTree (domains : DomainMap) (infos : gmap string nodeInfo) :
    gmap string nodeInfo * list blockInfo :=
  foldl (λ '(infos, bs) b,
    let indx := Z.of_nat (length bs) in
    (foldl (λ infos node,
       match default ∅ (domains !! b_name b) !! node with
       | None => infos
       | Some hostInfo => <[node := MkNodeInfo (InstanceID hostInfo) (b_id b) (Some indx) []]> infos
       end) infos (b_nodes b),
     bs ++ [withIndx b indx])) (infos, []) (toBlockInfos domains).

Definition markBlockNodes (infos : gmap string nodeInfo) (block : blockInfo) (indx : Z) :
    gmap string nodeInfo * blockInfo :=
  (updateNodes (λ info, setBlockIndx info indx) infos (b_nodes block), withIndx block indx).

(** The leaf case: a node whose block has no index yet gives it the next one. *)
Definition visitLeaf (blockMap : gmap string blockInfo) (acc : gmap string nodeInfo * list blockInfo)
    (name : string) : gmap string nodeInfo * list blockInfo :=
  let '(infos, bs) := acc in
  match infos !! name with
  | Some nInfo =>
      if bool_decide (blockID nInfo ≠ "") && bool_decide (blockIndx nInfo = None) then
        match blockMap !! blockID nInfo with
        | Some block =>
            let '(infos, bInfo) := markBlockNodes infos block (Z.of_nat (length bs)) in
            (infos, bs ++ [bInfo])
        | None => acc
        end
      else acc
  | None => acc
  end.

Definition childrenInOrder (v : Vertex) : list nat :=
  omap (λ key, mjoin (Vertices v !! key)) (sorted_keys (Vertices v)).

Fixpoint blocksLoop (fuel : nat) (h : heap) (blockMap : gmap string blockInfo)
    (acc : gmap string nodeInfo * list blockInfo) (queue : list nat) :
    option (gmap string nodeInfo * list blockInfo) :=
  match queue with
  | [] => Some acc
  | l :: queue =>
      match fuel with
      | O => None
      | S fuel =>
          let v := deref h l in
          if decide (Vertices v = ∅)
          then blocksLoop fuel h blockMap (visitLeaf blockMap acc (v_Name v)) queue
          else blocksLoop fuel h blockMap acc (queue ++ childrenInOrder v)
      end
  end.

Definition assignBlockIDs (infos : gmap string nodeInfo) (domainBlocks : list blockInfo) :
    gmap string nodeInfo :=
  foldl (λ infos block, updateNodes (λ info, setBlockID info (b_id block)) infos (b_nodes block))
    infos domainBlocks.

Definition blocksByID (domainBlocks : list blockInfo) : gmap string blockInfo :=
  foldl (λ m block, <[b_id block := block]> m) ∅ domainBlocks.

(** The domains, blocks and node records of the topology. *)
Definition initBlocks (graph : option Graph) (infos : gmap string nodeInfo) :
    option (option DomainMap * list blockInfo * gmap string nodeInfo) :=
  match graph with
  | None => Some (None, [], infos)
  | Some g =>
      match Domains g with
      | None => Some (None, [], infos)
      | Some domains =>
          if decide (domains = ∅) then Some (None, [], infos)
          else match Tiers g with
               | None => let '(infos, bs) := blocksWithoutTree domains infos in
                         Some (Some domains, bs, infos)
               | Some root =>
                   let domainBlocks := toBlockInfos domains in
                   '(infos, bs) ← blocksLoop (initFuel (g_heap g)) (g_heap g) (blocksByID domainBlocks)
                     (assignBlockIDs infos domainBlocks, []) [root];
                   Some (Some domains, bs, infos)
               end
      end
  end.

Inductive newErr := ErrValidate (e : validateErr) | ErrTree (e : treeErr).

(** [None] would be a loop that runs out of fuel. *)
Definition NewNetworkTopology (graph : option Graph) (cfg : Config) :
    option (result newErr NetworkTopology) :=
  match Validate cfg graph with
  | Err e => Some (Err (ErrValidate e))
  | Ok cfg =>
      r ← initTree graph;
      match r with
      | Err e => Some (Err (ErrTree e))
      | Ok st =>
          '(domains, bs, infos) ← initBlocks graph (t_nodeInfo st);
          Some (Ok (MkNT cfg (t_tree st) domains bs (t_vertices st) infos
                      (default ∅ (g_heap <$> graph))))
      end
  end.
End Network.

End Network.
