(* ===== verification/NetworkTree.v ===== *)
(** * What [initTree] accepts and records

    The breadth-first walk of [initTree] always ends; it succeeds exactly on
    graphs that are trees with distinct IDs, and then records every vertex of
    the graph, its adjacency list, and for every node the switches above it.
    The second walk, in [initBlocks], then ends as well. *)

From S2P Require Import Prelude GoStrings Domain BlockTree Topology Network.

Module NetworkTree.
Import Domain BlockTree Topo Network.

(** A vertex found by the walk: its location, the keys that lead to it from
    the root, and the switches recorded above it. *)
Record item := MkItem { it_loc : nat; it_keys : list string; it_path : list string }.

Section Walk.
Context `{RangeOrder} (h : heap) (root : nat).

Definition ID (l : nat) : string := v_ID (deref h l).
Definition kidsOfLoc (l : nat) : gmap string (option nat) := Vertices (deref h l).

Definition below (x : item) : list string :=
  if decide (ID (it_loc x) = "") then [] else it_path x ++ [ID (it_loc x)].

(** The items of some entries of a vertex. *)
Definition kids (x : item) (entries : list (string * option nat)) : list item :=
  omap (λ kv, (λ w, MkItem w (it_keys x ++ [kv.1]) (below x)) <$> kv.2) entries.

Lemma kids_app x es1 es2 : kids x (es1 ++ es2) = kids x es1 ++ kids x es2.
Proof. apply omap_app. Qed.

Lemma elem_of_kids x es y :
  y ∈ kids x es ↔ ∃ k w, (k, Some w) ∈ es ∧ y = MkItem w (it_keys x ++ [k]) (below x).
Proof.
  unfold kids. rewrite list_elem_of_omap. split.
  - intros ([k [w|]] & Hin & [= <-]). eauto.
  - intros (k & w & Hin & ->). by exists (k, Some w).
Qed.

(** [E]: the vertices entered so far, each with the entries visited; [Q]: the
    queue. *)
Definition found (E : list (item * list (string * option nat))) (Q : list item) : list item :=
  E.*1 ++ Q.

Definition tinv (E : list (item * list (string * option nat))) (Q : list item) (st : treeState) : Prop :=
  NoDup (ID ∘ it_loc <$> found E Q) ∧
  (∀ id, id ∈ t_seen st ↔ id ∈ ID ∘ it_loc <$> found E Q) ∧
  (found E Q = MkItem root [] [] :: concat ((λ e, kids e.1 e.2) <$> E)) ∧
  (∀ x, x ∈ found E Q → parents st (ID (it_loc x)) = it_path x) ∧
  (∀ id, id ∉ ID ∘ it_loc <$> found E Q → parentMap st !! id = None) ∧
  (∀ e, e ∈ E → t_tree st !! ID (it_loc e.1) = Some e.2.*1 ∧
                t_vertices st !! ID (it_loc e.1) = Some (it_loc e.1) ∧
                e.2 `prefix_of` range (kidsOfLoc (it_loc e.1)) ∧
                Forall (λ kv, is_Some kv.2 ∧ kv.1 ≠ ID (it_loc e.1)) e.2) ∧
  (∀ id, is_Some (t_tree st !! id) ∨ is_Some (t_vertices st !! id) → id ∈ ID ∘ it_loc <$> E.*1) ∧
  (∀ name info, t_nodeInfo st !! name = Some info → ∃ e, e ∈ E ∧ kidsOfLoc (it_loc e.1) = ∅ ∧
     v_Name (deref h (it_loc e.1)) = name ∧
     info = MkNodeInfo (ID (it_loc e.1)) "" None (it_path e.1)) ∧
  (∀ e, e ∈ E → kidsOfLoc (it_loc e.1) = ∅ →
     is_Some (t_nodeInfo st !! v_Name (deref h (it_loc e.1)))) ∧
  (∀ x, x ∈ found E Q → lookupPath h root (it_keys x) = Some (it_loc x)).

Lemma found_enter E x Q es : found (E ++ [(x, es)]) Q = found E (x :: Q).
Proof. unfold found. rewrite fmap_app. csimpl. by rewrite <-app_assoc. Qed.

(** ** The start *)

Lemma tinv_start : tinv [] [MkItem root [] []] (MkTree ∅ ∅ ∅ ∅ {[ID root]}).
Proof.
  unfold tinv, found. csimpl. split_and!.
  - apply NoDup_singleton.
  - intros id. set_solver.
  - done.
  - intros x ->%list_elem_of_singleton. unfold parents. simpl. by rewrite lookup_empty.
  - intros id _. apply lookup_empty.
  - set_solver.
  - intros id. rewrite !lookup_empty. by intros [[? ?]|[? ?]].
  - intros name info. by rewrite lookup_empty.
  - set_solver.
  - by intros x ->%list_elem_of_singleton.
Qed.

(** ** Entering a vertex *)

Lemma enter_spec E x Q st :
  tinv E (x :: Q) st → tinv (E ++ [(x, [])]) Q (enter h st (it_loc x)).
Proof.
  intros (Hnd & Hseen & Hfound & Hpar & Hnew & HE & Hdom & Hni & Hleaf & Hlk).
  assert (ID (it_loc x) ∉ ID ∘ it_loc <$> E.*1) as Hx.
  { unfold found in Hnd. rewrite fmap_app in Hnd. apply NoDup_app in Hnd as (_ & Hd & _).
    intros Hin. apply (Hd _ Hin). csimpl. left. }
  assert (t_tree st !! ID (it_loc x) = None) as Htree.
  { destruct (t_tree st !! ID (it_loc x)) eqn:Ht; [|done]. destruct Hx. apply Hdom. left. eauto. }
  unfold enter. fold (ID (it_loc x)). rewrite Htree.
  unfold tinv. rewrite !found_enter. simpl.
  split; [done|]. split; [done|]. split.
  { rewrite Hfound, fmap_app, concat_app. simpl. by rewrite !app_nil_r. }
  split; [done|]. split; [done|]. split; [|split; [|split; [|split; [|done]]]].
  - intros e [He|He%list_elem_of_singleton]%elem_of_app.
    + destruct (HE e He) as (H1 & H2 & H3).
      assert (ID (it_loc x) ≠ ID (it_loc e.1)).
      { intros Heq. apply Hx. rewrite Heq. apply list_elem_of_fmap. exists e.1. split; [done|].
        apply list_elem_of_fmap. eauto. }
      rewrite !lookup_insert_ne by done. done.
    + subst e. simpl. rewrite !lookup_insert_eq. split_and!; [done|done|apply prefix_nil|constructor].
  - intros id. rewrite !lookup_insert_is_Some, fmap_app, fmap_app. csimpl. intros Hid.
    apply elem_of_app. destruct (decide (ID (it_loc x) = id)) as [<-|Hne]; [right; left|left].
    apply Hdom. naive_solver.
  - intros name info Hin. destruct (decide (kidsOfLoc (it_loc x) = ∅)) as [Hk|Hk];
      unfold kidsOfLoc in Hk.
    + rewrite decide_True in Hin by done. rewrite lookup_insert in Hin. case_decide as Hname.
      * injection Hin as <-. exists (x, []). split; [set_solver|]. split_and!; [done|done|].
        simpl. rewrite Hpar; [done|]. unfold found. set_solver.
      * destruct (Hni _ _ Hin) as (e & ? & ?). exists e. split; [set_solver|done].
    + rewrite decide_False in Hin by done. destruct (Hni _ _ Hin) as (e & ? & ?).
      exists e. split; [set_solver|done].
  - intros e [He|He%list_elem_of_singleton]%elem_of_app Hk.
    + specialize (Hleaf e He Hk). case_decide; [|done]. rewrite lookup_insert_is_Some'. tauto.
    + subst e. simpl in *. rewrite decide_True by done. rewrite lookup_insert_is_Some'. tauto.
Qed.

(** ** Trees

    Every vertex reachable from the root has its own ID, no nil child and no
    child under its own ID; two key paths to one ID are the same path. *)
Definition is_tree : Prop :=
  (∀ ks l, lookupPath h root ks = Some l →
     (∀ k, kidsOfLoc l !! k ≠ Some None) ∧ kidsOfLoc l !! ID l = None) ∧
  (∀ ks1 ks2 l1 l2, lookupPath h root ks1 = Some l1 → lookupPath h root ks2 = Some l2 →
     ID l1 = ID l2 → ks1 = ks2).

Lemma lookupPath_snoc l ks k :
  lookupPath h l (ks ++ [k]) = lookupPath h l ks ≫= λ l', mjoin (kidsOfLoc l' !! k).
Proof.
  revert l. induction ks as [|k' ks IH]; intros l; simpl.
  - unfold kidsOfLoc. by destruct (Vertices (deref h l) !! k) as [[w|]|].
  - destruct (Vertices (deref h l) !! k') as [[w|]|]; [apply IH|done|done].
Qed.

(** ** Visiting a child *)

Lemma tinv_edge E x pre Q st id w :
  tinv (E ++ [(x, pre)]) Q st → (pre ++ [(id, Some w)]) `prefix_of` range (kidsOfLoc (it_loc x)) →
  x ∈ found (E ++ [(x, pre)]) Q ∧ ((id, Some w) ∉ pre) ∧ (id ∉ pre.*1) ∧
  lookupPath h root (it_keys x ++ [id]) = Some w.
Proof.
  intros (_ & _ & _ & _ & _ & _ & _ & _ & _ & Hlk) [rest Hpre].
  assert (x ∈ found (E ++ [(x, pre)]) Q) as Hx.
  { unfold found. rewrite fmap_app. csimpl. set_solver. }
  pose proof (range_NoDup (kidsOfLoc (it_loc x))) as Hnd. rewrite Hpre in Hnd.
  rewrite <-app_assoc, fmap_app in Hnd. apply NoDup_app in Hnd as (_ & Hd & _). csimpl in Hd.
  assert (id ∉ pre.*1) as Hid by (intros Hin; apply (Hd _ Hin); left).
  split; [done|]. split.
  { intros Hin. apply Hid, list_elem_of_fmap. by exists (id, Some w). }
  split; [done|]. rewrite lookupPath_snoc, (Hlk x Hx). simpl.
  assert ((id, Some w) ∈ range (kidsOfLoc (it_loc x))) as Hin by (rewrite Hpre; set_solver).
  apply elem_of_range in Hin. by rewrite Hin.
Qed.

Lemma found_visit E x pre Q y : found (E ++ [(x, pre)]) (Q ++ [y]) = found (E ++ [(x, pre)]) Q ++ [y].
Proof. unfold found. by rewrite app_assoc. Qed.
Lemma found_pre E x pre pre' Q : found (E ++ [(x, pre)]) Q = found (E ++ [(x, pre')]) Q.
Proof. unfold found. by rewrite !fmap_app. Qed.

Definition child (x : item) (id : string) (w : nat) : item := MkItem w (it_keys x ++ [id]) (below x).

(** A new child keeps the invariant. *)
Lemma visit_ok E x pre Q st id w :
  tinv (E ++ [(x, pre)]) Q st → (pre ++ [(id, Some w)]) `prefix_of` range (kidsOfLoc (it_loc x)) →
  id ≠ ID (it_loc x) → ID w ∉ t_seen st →
  tinv (E ++ [(x, pre ++ [(id, Some w)])]) (Q ++ [child x id w])
    (MkTree (<[ID (it_loc x) := default [] (t_tree st !! ID (it_loc x)) ++ [id]]> (t_tree st))
       (t_vertices st) (t_nodeInfo st)
       (if decide (ID (it_loc x) = "") then parentMap st
        else <[ID w := parents st (ID (it_loc x)) ++ [ID (it_loc x)]]> (parentMap st))
       ({[ID w]} ∪ t_seen st)).
Proof.
  intros Hinv Hpre Hne Hfresh. pose proof (tinv_edge _ _ _ _ _ _ _ Hinv Hpre) as (Hx & _ & _ & Hlkw).
  destruct Hinv as (Hnd & Hseen & Hfound & Hpar & Hnew & HE & Hdom & Hni & Hleaf & Hlk).
  assert (ID w ∉ ID ∘ it_loc <$> found (E ++ [(x, pre)]) Q) as Hw by (by rewrite <-Hseen).
  assert (∀ z, z ∈ found (E ++ [(x, pre)]) Q → ID w ≠ ID (it_loc z)) as Hdiff.
  { intros z Hz Heq. apply Hw. rewrite Heq. apply list_elem_of_fmap. eauto. }
  assert (∀ e, e ∈ E → ID (it_loc x) ≠ ID (it_loc e.1)) as HdiffE.
  { intros e He Heq. unfold found in Hnd. rewrite !fmap_app in Hnd. csimpl in Hnd.
    apply NoDup_app in Hnd as (Hnd & _). apply NoDup_app in Hnd as (_ & Hd & _).
    apply (Hd (ID (it_loc e.1))); [|rewrite <-Heq; left]. apply list_elem_of_fmap. exists e.1.
    split; [done|]. apply list_elem_of_fmap. eauto. }
  destruct (HE (x, pre)) as (Htree & Hvert & _ & Hall); [set_solver|]. simpl in Htree, Hvert, Hall.
  unfold tinv. rewrite found_visit, (found_pre E x _ pre). split; [|split; [|split]].
  { rewrite fmap_app. csimpl. apply NoDup_app. split_and!; [done| |apply NoDup_singleton].
    intros k Hk ->%list_elem_of_singleton. done. }
  { intros k. simpl. rewrite fmap_app, elem_of_app, elem_of_union, Hseen. csimpl.
    rewrite list_elem_of_singleton, elem_of_singleton. naive_solver. }
  { rewrite Hfound, !fmap_app, !concat_app. csimpl. rewrite !app_nil_r, kids_app. csimpl.
    by rewrite app_assoc. }
  split; [|split; [|split; [|split; [|split; [|split]]]]].
  - intros z [Hz|Hz%list_elem_of_singleton]%elem_of_app; unfold parents; simpl.
    + case_decide; [by apply Hpar|]. rewrite lookup_insert_ne by auto. by apply Hpar.
    + subst z. simpl. unfold below. case_decide as He.
      * by rewrite Hnew.
      * rewrite lookup_insert_eq. simpl. fold (parents st (ID (it_loc x))). by rewrite Hpar.
  - intros k. rewrite fmap_app, not_elem_of_app. intros [Hk1 Hk2]. csimpl in Hk2. simpl.
    case_decide; [by apply Hnew|]. rewrite lookup_insert_ne by set_solver. by apply Hnew.
  - intros e [He|He%list_elem_of_singleton]%elem_of_app; simpl.
    + rewrite lookup_insert_ne by auto. apply HE. set_solver.
    + subst e. simpl. rewrite lookup_insert_eq, Htree, fmap_app. split_and!; [done|done|done|].
      apply Forall_app. split; [done|]. repeat constructor; [by eexists|done].
  - intros k Hk. simpl in Hk. rewrite lookup_insert_is_Some' in Hk.
    rewrite !fmap_app in *. csimpl in *. destruct Hk as [[<-|?]|?]; [set_solver|apply Hdom; auto..].
  - simpl. intros name info Hin. destruct (Hni _ _ Hin) as (e & [He|He%list_elem_of_singleton]%elem_of_app & Hr).
    + exists e. split; [set_solver|done].
    + subst e. exists (x, pre ++ [(id, Some w)]). split; [set_solver|done].
  - simpl. intros e [He|He%list_elem_of_singleton]%elem_of_app Hk.
    + apply Hleaf; [set_solver|done].
    + subst e. apply (Hleaf (x, pre)); [set_solver|done].
  - intros z [Hz|Hz%list_elem_of_singleton]%elem_of_app; [by apply Hlk|]. by subst z.
Qed.

(** An ID seen before that belongs to a new child has two key paths. *)
Lemma visit_seen E x pre Q st id w :
  tinv (E ++ [(x, pre)]) Q st → (pre ++ [(id, Some w)]) `prefix_of` range (kidsOfLoc (it_loc x)) →
  ID w ∈ t_seen st → ¬ is_tree.
Proof.
  intros Hinv Hpre Hw [_ Htree].
  pose proof (tinv_edge _ _ _ _ _ _ _ Hinv Hpre) as (Hx & _ & Hid & Hlkw).
  destruct Hinv as (Hnd & Hseen & Hfound & _ & _ & _ & _ & _ & _ & Hlk).
  apply Hseen in Hw. apply list_elem_of_fmap in Hw as (z & Hz & Hin).
  pose proof (Htree _ _ _ _ Hlkw (Hlk z Hin) Hz) as Hkeys.
  rewrite Hfound in Hin. apply elem_of_cons in Hin as [->|Hin]; [simpl in Hkeys; by destruct (it_keys x)|].
  apply elem_of_concat in Hin as (ks & (e & -> & He)%list_elem_of_fmap & Hk).
  apply elem_of_kids in Hk as (k & w' & Hk & ->). simpl in Hkeys.
  apply app_inj_tail in Hkeys as [Hkeys <-].
  assert (e.1 ∈ found (E ++ [(x, pre)]) Q) as Hfe.
  { unfold found. apply elem_of_app. left. apply list_elem_of_fmap. eauto. }
  assert (it_loc x = it_loc e.1) as Hloc.
  { pose proof (Hlk x Hx) as H1. pose proof (Hlk _ Hfe) as H2. rewrite Hkeys in H1. congruence. }
  apply elem_of_app in He as [He|He%list_elem_of_singleton].
  - unfold found in Hnd. rewrite !fmap_app in Hnd. csimpl in Hnd.
    apply NoDup_app in Hnd as (Hnd & _). apply NoDup_app in Hnd as (_ & Hd & _).
    apply (Hd (ID (it_loc e.1))); [|rewrite <-Hloc; left]. apply list_elem_of_fmap. exists e.1.
    split; [done|]. apply list_elem_of_fmap. eauto.
  - subst e. simpl in Hk. apply Hid, list_elem_of_fmap. by exists (id, Some w').
Qed.

Lemma visits_spec E x rest pre Q st :
  tinv (E ++ [(x, pre)]) Q st → pre ++ rest = range (kidsOfLoc (it_loc x)) →
  match foldM (visitChild h (deref h (it_loc x))) (st, it_loc <$> Q) rest with
  | Ok (st', q') => ∃ Q', q' = it_loc <$> Q' ∧ tinv (E ++ [(x, pre ++ rest)]) Q' st'
  | Err e => ¬ is_tree
  end.
Proof.
  revert pre Q st. induction rest as [|[id ow] rest IH]; intros pre Q st Hinv Hpre; simpl.
  { exists Q. by rewrite app_nil_r. }
  fold (ID (it_loc x)).
  assert (x ∈ found (E ++ [(x, pre)]) Q) as Hx.
  { unfold found. rewrite fmap_app. csimpl. set_solver. }
  pose proof Hinv as (_ & _ & _ & _ & _ & _ & _ & _ & _ & Hlk).
  assert (kidsOfLoc (it_loc x) !! id = Some ow) as Hkey.
  { apply elem_of_range. rewrite <-Hpre. set_solver. }
  destruct ow as [w|].
  2:{ intros [Ht _]. destruct (Ht _ _ (Hlk x Hx)) as [Hnil _]. by apply (Hnil id). }
  assert ((pre ++ [(id, Some w)]) `prefix_of` range (kidsOfLoc (it_loc x))) as Hpref.
  { rewrite <-Hpre. exists rest. by rewrite <-app_assoc. }
  fold (ID w). case_decide as Hself.
  { intros [Ht1 Ht2]. destruct Hself as [->|Heq].
    - destruct (Ht1 _ _ (Hlk x Hx)) as [_ Hown]. congruence.
    - pose proof (tinv_edge _ _ _ _ _ _ _ Hinv Hpref) as (_ & _ & _ & Hlkw).
      pose proof (Ht2 _ _ _ _ Hlkw (Hlk x Hx) Heq) as Hk.
      apply (f_equal length) in Hk. rewrite length_app in Hk. simpl in Hk. lia. }
  apply Decidable.not_or in Hself as [Hid _].
  case_decide as Hseen; [by eapply visit_seen|].
  pose proof (visit_ok _ _ _ _ _ _ _ Hinv Hpref Hid Hseen) as Hinv'.
  specialize (IH _ _ _ Hinv'). rewrite <-app_assoc in IH. specialize (IH Hpre).
  rewrite fmap_app in IH. csimpl in IH. exact IH.
Qed.

(** ** The loop *)

Definition complete (E : list (item * list (string * option nat))) : Prop :=
  Forall (λ e, e.2 = range (kidsOfLoc (it_loc e.1))) E.

(** Distinct IDs: at most one location outside the heap. *)
Lemma distinct_bound (ls : list nat) : NoDup (ID <$> ls) → (length ls ≤ S (size h))%nat.
Proof.
  intros Hnd.
  assert (ls ≡ₚ filter (λ l, l ∈ dom h) ls ++ filter (λ l, l ∉ dom h) ls) as Hsplit
    by (symmetry; apply filter_app_complement).
  rewrite Hsplit in Hnd |- *. rewrite fmap_app in Hnd. apply NoDup_app in Hnd as (H1 & _ & H2).
  rewrite length_app.
  assert (length (filter (λ l, l ∈ dom h) ls) ≤ size h)%nat.
  { rewrite <-size_dom. apply NoDup_fmap_1 in H1.
    rewrite <-(size_list_to_set (C := gset nat)) by done. apply subseteq_size. intros l.
    rewrite elem_of_list_to_set, list_elem_of_filter. tauto. }
  assert (length (filter (λ l, l ∉ dom h) ls) ≤ 1)%nat; [|lia].
  destruct (filter (λ l, l ∉ dom h) ls) as [|a [|b l]] eqn:Hf; simpl; [lia|lia|exfalso].
  assert (∀ l, l ∈ filter (λ l, l ∉ dom h) ls → ID l = "") as Hout.
  { intros l' [Hl _]%list_elem_of_filter. unfold ID, deref. apply not_elem_of_dom in Hl. by rewrite Hl. }
  rewrite Hf in Hout. csimpl in H2. apply NoDup_cons in H2 as [H2 _]. apply H2.
  rewrite !Hout by set_solver. left.
Qed.

Lemma initLoop_spec fuel E Q st :
  tinv E Q st → complete E → (S (S (size h)) ≤ length E + fuel)%nat →
  ∃ r, initLoop fuel h st (it_loc <$> Q) = Some r ∧
    match r with
    | Ok st' => ∃ E', tinv E' [] st' ∧ complete E'
    | Err _ => ¬ is_tree
    end.
Proof.
  revert E Q st. induction fuel as [|fuel IH]; intros E Q st Hinv HE Hfuel.
  - destruct Q as [|x Q]; [eexists; split; [done|]; by exists E|exfalso].
    destruct Hinv as (Hnd & _).
    assert (length (it_loc <$> found E (x :: Q)) ≤ S (size h))%nat as Hb.
    { apply distinct_bound. by rewrite <-list_fmap_compose. }
    rewrite length_fmap in Hb. unfold found in Hb. rewrite length_app, length_fmap in Hb. simpl in Hb. lia.
  - destruct Q as [|x Q]; [eexists; split; [done|]; by exists E|].
    csimpl. pose proof (enter_spec E x Q st Hinv) as Hent.
    pose proof (visits_spec E x (range (kidsOfLoc (it_loc x))) [] Q _ Hent eq_refl) as Hvis.
    unfold kidsOfLoc in Hvis at 1. destruct (foldM _ _ _) as [[st' q']|e]; [|by eexists].
    destruct Hvis as (Q' & -> & Hinv'). apply IH with (E := E ++ [(x, range (kidsOfLoc (it_loc x)))]).
    + done.
    + apply Forall_app. split; [done|]. by constructor.
    + rewrite length_app. simpl. lia.
Qed.

(** The IDs of the switches above the vertex at the end of a key path; an
    unnamed vertex starts afresh. *)
Fixpoint above (l : nat) (p : list string) (ks : list string) : list string :=
  match ks with
  | [] => p
  | k :: ks =>
      match kidsOfLoc l !! k with
      | Some (Some w) => above w (if decide (ID l = "") then [] else p ++ [ID l]) ks
      | _ => p
      end
  end.

Lemma above_snoc l p ks k l' w :
  lookupPath h l ks = Some l' → mjoin (kidsOfLoc l' !! k) = Some w →
  above l p (ks ++ [k]) = below (MkItem l' ks (above l p ks)).
Proof.
  revert l p. induction ks as [|k' ks IH]; intros l p; simpl.
  - intros [= <-]. destruct (kidsOfLoc l !! k) as [[?|]|]; [done|done|done].
  - fold (kidsOfLoc l). destruct (kidsOfLoc l !! k') as [[w'|]|]; [|done|done].
    intros Hl Hk. rewrite (IH _ _ Hl Hk). done.
Qed.

(** At the end everything reachable has been found. *)
Lemma found_all E st ks l :
  tinv E [] st → complete E → lookupPath h root ks = Some l →
  (MkItem l ks (above root [] ks), range (kidsOfLoc l)) ∈ E.
Proof.
  intros (_ & _ & Hfound & _) HE. unfold found in Hfound. rewrite app_nil_r in Hfound.
  assert (∀ x, x ∈ E.*1 → (x, range (kidsOfLoc (it_loc x))) ∈ E) as HEx.
  { intros x (e & -> & He)%list_elem_of_fmap. unfold complete in HE. rewrite Forall_forall in HE.
    rewrite <-(HE e He). by destruct e. }
  revert l. induction ks as [|k ks IH] using rev_ind; intros l.
  - simpl. intros [= <-]. apply (HEx (MkItem root [] [])). rewrite Hfound. left.
  - intros Hl. pose proof Hl as Hl0. rewrite lookupPath_snoc in Hl. apply bind_Some in Hl as (l' & Hl' & Hk).
    pose proof (IH _ Hl') as Hp. rewrite (above_snoc _ _ _ _ _ _ Hl' Hk).
    apply (HEx (MkItem l (ks ++ [k]) (below (MkItem l' ks (above root [] ks))))). rewrite Hfound. right.
    apply elem_of_concat. eexists. split; [apply list_elem_of_fmap; eauto|]. simpl.
    apply elem_of_kids. exists k, l. split; [|done]. apply elem_of_range.
    by destruct (kidsOfLoc l' !! k) as [[?|]|]; simplify_eq/=.
Qed.

Lemma found_tree E st : tinv E [] st → complete E → is_tree.
Proof.
  intros Hinv HE. pose proof Hinv as (Hnd & _ & _ & _ & _ & Hent & _). split.
  - intros ks l Hl. pose proof (found_all _ _ _ _ Hinv HE Hl) as Hp.
    destruct (Hent _ Hp) as (_ & _ & _ & Hall). simpl in Hall. rewrite Forall_forall in Hall. split.
    + intros k Hk%elem_of_range. destruct (Hall _ Hk) as [[? ?] _]. done.
    + destruct (kidsOfLoc l !! ID l) as [oc|] eqn:Hk; [|done]. apply elem_of_range in Hk.
      by destruct (Hall _ Hk) as [_ ?].
  - intros ks1 ks2 l1 l2 H1 H2 Hid.
    pose proof (found_all _ _ _ _ Hinv HE H1) as Hp1. pose proof (found_all _ _ _ _ Hinv HE H2) as Hp2.
    unfold found in Hnd. rewrite app_nil_r in Hnd.
    assert (MkItem l1 ks1 (above root [] ks1) = MkItem l2 ks2 (above root [] ks2)) as Heq; [|by injection Heq].
    assert (∀ a, (a, range (kidsOfLoc (it_loc a))) ∈ E → a ∈ E.*1) as Hmem.
    { intros a Ha. apply list_elem_of_fmap. by exists (a, range (kidsOfLoc (it_loc a))). }
    eapply (NoDup_fmap_eq (ID ∘ it_loc)); [exact Hnd|by apply Hmem|by apply Hmem|done].
Qed.

(** ** The number of vertices below a queue *)

Definition childLocs (l : nat) : list nat := omap snd (map_to_list (kidsOfLoc l)).

Inductive tsize : list nat → nat → Prop :=
| tsize_nil : tsize [] 0
| tsize_cons l ws q n m :
    ws ≡ₚ childLocs l → tsize ws n → tsize q m → tsize (l :: q) (S (n + m)).

Lemma tsize_perm q q' n : q ≡ₚ q' → tsize q n → tsize q' n.
Proof.
  intros Hp. revert n. induction Hp as [|l q q' _ IH|a b q|q1 q2 q3 _ IH1 _ IH2]; intros n Hn.
  - done.
  - inversion Hn; subst. econstructor; eauto.
  - inversion Hn as [|? ws1 ? n1 m1 Hw1 Hn1 Hq]; subst.
    inversion Hq as [|? ws2 ? n2 m2 Hw2 Hn2 Hm]; subst.
    replace (S (n1 + S (n2 + m2))) with (S (n2 + S (n1 + m2))) by lia.
    by repeat (econstructor; [done|done|]).
  - eauto.
Qed.

Lemma tsize_app q1 q2 n : tsize (q1 ++ q2) n ↔ ∃ a b, tsize q1 a ∧ tsize q2 b ∧ n = (a + b)%nat.
Proof.
  revert n. induction q1 as [|l q1 IH]; intros n; simpl.
  - split; [intros Hn; exists 0%nat, n; by split_and!; [constructor|..]|].
    intros (a & b & Ha & Hb & ->). by inversion Ha.
  - split.
    + intros Hn. inversion Hn as [|? ws ? k m Hw Hk Hm]; subst. apply IH in Hm as (a & b & Ha & Hb & ->).
      exists (S (k + a)), b. split_and!; [by econstructor|done|lia].
    + intros (a & b & Ha & Hb & ->). inversion Ha as [|? ws ? k m Hw Hk Hm]; subst. simpl.
      rewrite <-Nat.add_assoc. econstructor; [done|done|]. apply IH. eauto.
Qed.

Lemma visits_queue v st q es st' q' :
  foldM (visitChild h v) (st, q) es = Ok (st', q') → q' = q ++ omap snd es.
Proof.
  revert st q. induction es as [|[id [w|]] es IH]; intros st q; simpl.
  - intros [= _ <-]. by rewrite app_nil_r.
  - case_decide; [done|]. case_decide; [done|]. intros Hr%IH. by rewrite Hr, <-app_assoc.
  - done.
Qed.

Lemma initLoop_tsize fuel st q st' :
  initLoop fuel h st q = Some (Ok st') → ∃ n, (n ≤ fuel)%nat ∧ tsize q n.
Proof.
  revert st q. induction fuel as [|fuel IH]; intros st q Hrun; destruct q as [|l q]; simpl in Hrun.
  - exists 0%nat. split; [lia|constructor].
  - done.
  - exists 0%nat. split; [lia|constructor].
  - destruct (foldM _ _ _) as [[st1 q1]|e] eqn:Hf; [|done]. apply visits_queue in Hf as ->.
    destruct (IH _ _ Hrun) as (n & Hn & (a & b & Ha & Hb & ->)%tsize_app).
    exists (S (b + a)). split; [lia|]. econstructor; [|done|done].
    unfold childLocs. by rewrite range_perm.
Qed.

Lemma childrenInOrder_perm l : childrenInOrder (deref h l) ≡ₚ childLocs l.
Proof.
  unfold childrenInOrder, childLocs, sorted_keys. rewrite sort_strings_perm. fold (kidsOfLoc l).
  assert (∀ es, (∀ k oc, (k, oc) ∈ es → kidsOfLoc l !! k = Some oc) →
    omap (λ key, mjoin (kidsOfLoc l !! key)) es.*1 = omap snd es) as Heq.
  { induction es as [|[k oc] es IH]; intros Hes; csimpl; [done|].
    rewrite (Hes k oc) by set_solver. simpl. rewrite IH by set_solver. done. }
  rewrite Heq; [done|]. intros k oc. by rewrite elem_of_map_to_list.
Qed.

Lemma blocksLoop_total fuel blockMap acc q n :
  tsize q n → (n ≤ fuel)%nat → is_Some (blocksLoop fuel h blockMap acc q).
Proof.
  revert acc q n. induction fuel as [|fuel IH]; intros acc q n Hn Hle; destruct q as [|l q]; simpl; eauto.
  - inversion Hn; lia.
  - inversion Hn as [|? ws ? k m Hw Hk Hm]; subst. case_decide as Hleaf.
    + eapply IH; [done|lia].
    + apply (IH _ _ (m + k)%nat); [|lia]. apply tsize_app. exists m, k. split_and!; [done| |done].
      eapply tsize_perm; [|done]. by rewrite Hw, childrenInOrder_perm.
Qed.
End Walk.

(** ** Properties of [initTree] *)

Section Properties.
Context `{RangeOrder}.

Lemma initTree_run g root :
  Tiers g = Some root → ∃ r, initTree (Some g) = Some r ∧
    match r with
    | Ok st' => ∃ E st, tinv (g_heap g) root E [] st ∧ complete (g_heap g) E ∧
        (∃ n, (n ≤ initFuel (g_heap g))%nat ∧ tsize (g_heap g) [root] n) ∧
        st' = MkTree (sort_strings <$> t_tree st) (t_vertices st) (t_nodeInfo st) (parentMap st) (t_seen st)
    | Err _ => ¬ is_tree (g_heap g) root
    end.
Proof.
  intros Hroot. unfold initTree. rewrite Hroot.
  destruct (initLoop_spec (g_heap g) root (initFuel (g_heap g)) [] [MkItem root [] []]
    (MkTree ∅ ∅ ∅ ∅ {[ID (g_heap g) root]})) as (r & Hr & Hspec).
  - apply tinv_start.
  - constructor.
  - done.
  - change (it_loc <$> [MkItem root [] []]) with [root] in Hr. unfold ID in Hr. cbv zeta.
    rewrite Hr. cbn [mbind option_bind].
    destruct r as [st|e]; eexists; (split; [done|]); [|done].
    destruct Hspec as (E & HE & Hc). exists E, st. split_and!; [done|done| |done].
    by eapply initLoop_tsize.
Qed.

(** C5: [initTree] always returns, and it succeeds exactly on trees: graphs in
    which no reachable vertex has a nil child or a child under its own ID and
    no ID is reached along two different paths. *)
Theorem initTree_accepts_trees g root :
  Tiers g = Some root →
  ∃ r, initTree (Some g) = Some r ∧ (is_ok r = true ↔ is_tree (g_heap g) root).
Proof.
  intros Hroot. destruct (initTree_run g root Hroot) as (r & Hr & Hspec). exists r. split; [done|].
  destruct r as [st'|e]; simpl; [|by split].
  destruct Hspec as (E & st & HE & Hc & _ & _). split; [|done]. intros _. by eapply found_tree.
Qed.

Lemma initTree_recorded g root st :
  Tiers g = Some root → initTree (Some g) = Some (Ok st) →
  let h := g_heap g in
  (∀ id l, t_vertices st !! id = Some l ↔ ID h l = id ∧ ∃ ks, lookupPath h root ks = Some l) ∧
  (∀ id keys, t_tree st !! id = Some keys ↔ ∃ l, t_vertices st !! id = Some l ∧
     keys = sorted_keys (Vertices (deref h l))) ∧
  (∀ ks l, lookupPath h root ks = Some l → Vertices (deref h l) = ∅ →
     is_Some (t_nodeInfo st !! v_Name (deref h l))) ∧
  (∀ name info, t_nodeInfo st !! name = Some info → ∃ ks l,
     lookupPath h root ks = Some l ∧ Vertices (deref h l) = ∅ ∧ v_Name (deref h l) = name ∧
     info = MkNodeInfo (ID h l) "" None (above h root [] ks)).
Proof.
  intros Hroot Hok h. destruct (initTree_run g root Hroot) as (r & Hr & Hspec). rewrite Hr in Hok.
  injection Hok as ->. destruct Hspec as (E & st0 & HE & Hc & _ & ->). simpl.
  pose proof (λ ks l, found_all (g_heap g) root E st0 ks l HE Hc) as Hall.
  pose proof HE as (_ & _ & _ & _ & _ & Hent & Hdom & Hni & Hleaf & Hlk). fold h in Hall, Hent, Hdom, Hni, Hleaf, Hlk, HE, Hc.
  assert (∀ e, e ∈ E → lookupPath h root (it_keys e.1) = Some (it_loc e.1)) as Hek.
  { intros e He. apply Hlk. unfold found. rewrite app_nil_r. apply list_elem_of_fmap. eauto. }
  assert (∀ e, e ∈ E → e.1 = MkItem (it_loc e.1) (it_keys e.1) (above h root [] (it_keys e.1))) as Hpath.
  { intros e He. pose proof (Hall _ _ (Hek e He)) as Hin.
    destruct HE as (Hnd & _). unfold found in Hnd. rewrite app_nil_r in Hnd.
    eapply (NoDup_fmap_eq (ID h ∘ it_loc)); [exact Hnd|apply list_elem_of_fmap; eauto| |done].
    apply list_elem_of_fmap. eexists. split; [|exact Hin]. done. }
  assert (∀ id, id ∈ ID h ∘ it_loc <$> E.*1 → ∃ e, e ∈ E ∧ id = ID h (it_loc e.1)) as HinE.
  { intros id (x & -> & (e & -> & He)%list_elem_of_fmap)%list_elem_of_fmap. eauto. }
  split_and!.
  - intros id l. split.
    + intros Hv. destruct (HinE id) as (e & He & ->); [apply Hdom; eauto|].
      destruct (Hent e He) as (_ & Hv' & _). rewrite Hv' in Hv. injection Hv as <-. eauto.
    + intros [<- [ks Hks]]. by destruct (Hent _ (Hall _ _ Hks)) as (_ & ? & _).
  - intros id keys. rewrite lookup_fmap, fmap_Some. split.
    + intros (ks & Ht & ->). destruct (HinE id) as (e & He & ->); [apply Hdom; eauto|].
      destruct (Hent e He) as (Ht' & Hv' & _). exists (it_loc e.1). split; [done|].
      unfold complete in Hc. rewrite Forall_forall in Hc. rewrite Ht' in Ht. injection Ht as <-.
      rewrite (Hc e He). apply sorted_keys_range.
    + intros (l & Hv & ->). destruct (HinE id) as (e & He & ->); [apply Hdom; eauto|].
      destruct (Hent e He) as (Ht' & Hv' & _). rewrite Hv' in Hv. injection Hv as <-.
      exists e.2.*1. split; [done|]. unfold complete in Hc. rewrite Forall_forall in Hc.
      rewrite (Hc e He). symmetry. apply sorted_keys_range.
  - intros ks l Hks Hl. by apply (Hleaf _ (Hall _ _ Hks)).
  - intros name info Hinfo. destruct (Hni _ _ Hinfo) as (e & He & Hl & Hn & ->).
    exists (it_keys e.1), (it_loc e.1). split_and!; [by apply Hek|done|done|].
    by rewrite (Hpath e He).
Qed.

(** When [initTree] succeeds, [vertices] maps exactly the IDs of the
    reachable vertices to them, [tree] holds the sorted child keys of each, and
    every leaf has a node record; a node record is that of a leaf with that
    name and lists the switches on the path from the root down to it. *)
Theorem initTree_records_graph g root st :
  Tiers g = Some root → initTree (Some g) = Some (Ok st) →
  let h := g_heap g in
  (∀ id l, t_vertices st !! id = Some l ↔ ID h l = id ∧ ∃ ks, lookupPath h root ks = Some l) ∧
  (∀ id keys, t_tree st !! id = Some keys ↔ ∃ l, t_vertices st !! id = Some l ∧
     keys = sorted_keys (Vertices (deref h l))) ∧
  (∀ ks l, lookupPath h root ks = Some l → Vertices (deref h l) = ∅ →
     is_Some (t_nodeInfo st !! v_Name (deref h l))) ∧
  (∀ name info, t_nodeInfo st !! name = Some info → ∃ ks l,
     lookupPath h root ks = Some l ∧ Vertices (deref h l) = ∅ ∧ v_Name (deref h l) = name ∧
     info = MkNodeInfo (ID h l) "" None (above h root [] ks)).
Proof. apply initTree_recorded. Qed.

Context `{Regexp}.

(** What a successful construction is made of. *)
Lemma NewNetworkTopology_ok graph cfg nt :
  NewNetworkTopology graph cfg = Some (Ok nt) →
  ∃ cfg' st domains bs infos, Validate cfg graph = Ok cfg' ∧ initTree graph = Some (Ok st) ∧
    initBlocks graph (t_nodeInfo st) = Some (domains, bs, infos) ∧
    nt = MkNT cfg' (t_tree st) domains bs (t_vertices st) infos (default ∅ (g_heap <$> graph)).
Proof.
  unfold NewNetworkTopology. destruct (Validate cfg graph) as [cfg'|e]; [|done].
  intros (r & Hr & Hrun)%bind_Some. destruct r as [st|e]; [|done].
  apply bind_Some in Hrun as ([[ds bs] infos] & Hb & [= <-]). by exists cfg', st, ds, bs, infos.
Qed.

(** [NewNetworkTopology] returns for every graph, cyclic ones included,
    and every configuration: neither of its two walks runs for ever. *)
Theorem NewNetworkTopology_returns graph cfg :
  ∃ r, NewNetworkTopology graph cfg = Some r.
Proof.
  unfold NewNetworkTopology. destruct (Validate cfg graph) as [cfg'|e]; [|eauto].
  destruct graph as [g|]; [|simpl; eauto].
  destruct (Tiers g) as [root|] eqn:Hroot.
  - destruct (initTree_run g root Hroot) as (r & Hr & Hspec). rewrite Hr. cbn [mbind option_bind].
    destruct r as [st|e]; [|eauto]. destruct Hspec as (_ & _ & _ & _ & (n & Hn & Hsz) & _).
    unfold initBlocks. rewrite Hroot. destruct (Domains g) as [ds|]; [|simpl; eauto].
    case_decide; [simpl; eauto|].
    edestruct (blocksLoop_total (g_heap g) (initFuel (g_heap g))) as [[infos bs] Hb]; [done|done|].
    cbv zeta. rewrite Hb. simpl. eauto.
  - unfold initTree. rewrite Hroot. cbn [mbind option_bind]. unfold initBlocks. rewrite Hroot.
    destruct (Domains g) as [ds|]; [|simpl; eauto]. case_decide; [simpl; eauto|].
    destruct (blocksWithoutTree _ _). simpl. eauto.
Qed.
End Properties.

(** ** Witnesses *)

Definition w_heap : heap :=
  {[ 0%nat := MkVertex "" "" {[ "s1" := Some 1%nat ]};
     1%nat := MkVertex "" "s1" {[ "i1" := Some 2%nat; "i2" := Some 3%nat ]};
     2%nat := MkVertex "n1" "i1" ∅; 3%nat := MkVertex "n2" "i2" ∅ ]}.
Definition w_graph : Graph := MkGraph w_heap (Some 0%nat) None None.
(** A graph with a cycle. *)
Definition w_cyclic : Graph :=
  MkGraph {[ 0%nat := MkVertex "" "" {[ "s1" := Some 1%nat ]};
             1%nat := MkVertex "" "s1" {[ "s2" := Some 2%nat ]};
             2%nat := MkVertex "" "s2" {[ "s1" := Some 1%nat ]} ]} (Some 0%nat) None None.

Lemma initTree_accepts_trees_witness : is_tree w_heap 0 ∧ ¬ is_tree (g_heap w_cyclic) 0.
Proof.
  split.
  - destruct (initTree_accepts_trees w_graph 0 eq_refl) as (r & Hr & Hiff). apply Hiff.
    vm_compute in Hr. injection Hr as <-. reflexivity.
  - destruct (initTree_accepts_trees w_cyclic 0 eq_refl) as (r & Hr & Hiff).
    intros Ht%Hiff. vm_compute in Hr. injection Hr as <-. discriminate Ht.
Defined.

Definition w_state : treeState :=
  match initTree (Some w_graph) with Some (Ok st) => st | _ => emptyTree end.

Lemma initTree_records_graph_witness :
  t_nodeInfo w_state !! "n2" = Some (MkNodeInfo "i2" "" None ["s1"]) ∧
  (∀ id l, t_vertices w_state !! id = Some l ↔ ID w_heap l = id ∧ ∃ ks, lookupPath w_heap 0 ks = Some l).
Proof.
  split; [vm_compute; reflexivity|].
  apply (initTree_records_graph w_graph 0 w_state eq_refl). vm_compute. reflexivity.
Defined.

End NetworkTree.
