(* ===== verification/TreeWalk.v ===== *)
(** * Depth-first walks over a tree

    Several engines walk the graph recursively.  On the graphs that
    [initTree] accepts such a walk ends: a path from the root visits different
    vertices.  [leafPaths] lists the leaves with the keys that lead to them, in
    the order of a recursive walk; the walks of the engines are compared with
    it. *)

From S2P Require Import Prelude GoStrings Domain Topology Network NetworkTree.

Module TreeWalk.
Import Domain Topo Network NetworkTree.

Section Walk.
Context `{RangeOrder} (h : heap).

(** The leaves below a vertex, each with its keys; [None] when the fuel does
    not reach them or a child is nil. *)
Fixpoint leafPaths (fuel : nat) (l : nat) : option (list (list string * nat)) :=
  match fuel with
  | O => None
  | S fuel =>
      if decide (Vertices (deref h l) = ∅) then Some [([], l)]
      else @concat _ <$> mapM (λ kv : string * option nat,
        kv.2 ≫= λ w, fmap (λ p : list string * nat, (kv.1 :: p.1, p.2)) <$> leafPaths fuel w)
        (range (Vertices (deref h l)))
  end.

Lemma lookupPath_app l ks1 ks2 :
  lookupPath h l (ks1 ++ ks2) = lookupPath h l ks1 ≫= λ l', lookupPath h l' ks2.
Proof.
  revert l. induction ks1 as [|k ks1 IH]; intros l; simpl; [done|].
  destruct (Vertices (deref h l) !! k) as [[w|]|]; [apply IH|done|done].
Qed.

(** The vertices on a path, its end left out. *)
Fixpoint pathLocs (l : nat) (ks : list string) : list nat :=
  match ks with
  | [] => []
  | k :: ks => match Vertices (deref h l) !! k with
               | Some (Some w) => l :: pathLocs w ks
               | _ => []
               end
  end.

Lemma pathLocs_spec l ks l' :
  lookupPath h l ks = Some l' →
  length (pathLocs l ks) = length ks ∧
  ∀ i x, pathLocs l ks !! i = Some x → is_Some (h !! x) ∧ lookupPath h l (take i ks) = Some x.
Proof.
  revert l. induction ks as [|k ks IH]; intros l; simpl; [by split|].
  destruct (Vertices (deref h l) !! k) as [[w|]|] eqn:Hk; [|done|done].
  intros Hl. destruct (IH _ Hl) as [Hlen Hin]. split; [simpl; lia|].
  intros [|i] x; simpl.
  - intros [= <-]. split; [|done]. unfold deref in Hk. destruct (h !! l) eqn:Hh; [by eexists|].
    simpl in Hk. by rewrite lookup_empty in Hk.
  - intros [Hx Hpath]%Hin. split; [done|]. by rewrite Hk.
Qed.

Lemma path_length root ks l :
  is_tree h root → lookupPath h root ks = Some l → (length ks ≤ size h)%nat.
Proof.
  intros [_ Huniq] Hl. destruct (pathLocs_spec _ _ _ Hl) as [Hlen Hin].
  rewrite <-Hlen, <-size_dom. rewrite <-(size_list_to_set (C := gset nat) (pathLocs root ks)).
  - apply subseteq_size. intros x (i & Hi)%elem_of_list_to_set%list_elem_of_lookup.
    apply elem_of_dom. by destruct (Hin _ _ Hi).
  - apply NoDup_alt. intros i j x Hi Hj.
    destruct (Hin _ _ Hi) as [_ Pi], (Hin _ _ Hj) as [_ Pj].
    pose proof (Huniq _ _ _ _ Pi Pj eq_refl) as Htake.
    apply lookup_lt_Some in Hi, Hj. apply (f_equal length) in Htake.
    rewrite !length_take in Htake. lia.
Qed.

(** Below every vertex of a tree the enumeration ends, and it lists exactly
    the leaves. *)
Lemma leafPaths_total root fuel ks l :
  is_tree h root → lookupPath h root ks = Some l → (S (size h) ≤ fuel + length ks)%nat →
  is_Some (leafPaths fuel l).
Proof.
  intros Htree. revert ks l. induction fuel as [|fuel IH]; intros ks l Hl Hfuel; simpl.
  { pose proof (path_length _ _ _ Htree Hl). lia. }
  case_decide; [by eexists|]. apply fmap_is_Some, mapM_is_Some_2, Forall_forall.
  intros [k oc] Hin%elem_of_range. destruct Htree as [Hnil Huniq].
  destruct oc as [w|]; [|by destruct (proj1 (Hnil _ _ Hl) k)]. simpl.
  apply fmap_is_Some. apply (IH (ks ++ [k])).
  - rewrite lookupPath_app, Hl. simpl. by rewrite Hin.
  - rewrite length_app. simpl. lia.
Qed.

Lemma leafPaths_elem fuel l ps ks w :
  leafPaths fuel l = Some ps →
  (ks, w) ∈ ps ↔ lookupPath h l ks = Some w ∧ Vertices (deref h w) = ∅.
Proof.
  revert l ps ks. induction fuel as [|fuel IH]; intros l ps ks; simpl; [done|].
  case_decide as Hleaf.
  { intros [= <-]. rewrite list_elem_of_singleton. split; [by intros [= -> ->]|].
    intros [Hl _]. destruct ks as [|k ks]; simpl in Hl; [by simplify_eq|].
    by rewrite Hleaf, lookup_empty in Hl. }
  intros (pss & Hm & ->)%fmap_Some. rewrite elem_of_concat. apply mapM_Some in Hm.
  split.
  - intros (ps' & Hps' & Hin). apply list_elem_of_lookup in Hps' as [i Hi].
    destruct (Forall2_lookup_r _ _ _ _ _ Hm Hi) as ([k oc] & Hk & Hrec). simpl in Hrec.
    apply bind_Some in Hrec as (c & -> & (qs & Hq & ->)%fmap_Some).
    apply list_elem_of_fmap in Hin as ([ks' w'] & [= -> ->] & Hin).
    apply (IH _ _ _ Hq) in Hin as [Hl Hw]. split; [|done]. simpl.
    apply list_elem_of_lookup_2, elem_of_range in Hk. by rewrite Hk.
  - intros [Hl Hw]. destruct ks as [|k ks]; simpl in Hl; [by simplify_eq|].
    destruct (Vertices (deref h l) !! k) as [[c|]|] eqn:Hk; [|done|done].
    apply elem_of_range, list_elem_of_lookup in Hk as [i Hi].
    destruct (Forall2_lookup_l _ _ _ _ _ Hm Hi) as (ps' & Hps' & Hrec). simpl in Hrec.
    apply fmap_Some in Hrec as (qs & Hq & ->).
    eexists. split; [by eapply list_elem_of_lookup_2|]. apply list_elem_of_fmap.
    exists (ks, w). split; [done|]. by apply (IH _ _ _ Hq).
Qed.

Lemma mapM_NoDup_keys (f : string * option nat → option (list (list string * nat))) es pss :
  NoDup es.*1 → mapM f es = Some pss →
  (∀ kv ps, f kv = Some ps → NoDup ps.*1 ∧ ∀ p, p ∈ ps → ∃ ks, p.1 = kv.1 :: ks) →
  NoDup (concat pss).*1.
Proof.
  intros Hnd Hm Hf. revert pss Hm. induction es as [|kv es IH]; intros pss Hm; simpl in Hm.
  { injection Hm as <-. constructor. }
  apply bind_Some in Hm as (ps & Hps & (pss' & Hm & [= <-])%bind_Some). simpl.
  apply NoDup_cons in Hnd as [Hkv Hnd]. destruct (Hf _ _ Hps) as [Hnp Hkeys].
  rewrite fmap_app. apply NoDup_app. split_and!; [done| |by apply IH].
  intros ks (p & -> & Hp)%list_elem_of_fmap (q & Heq & Hq)%list_elem_of_fmap.
  destruct (Hkeys _ Hp) as [ks1 H1].
  apply elem_of_concat in Hq as (qs & [i Hi]%list_elem_of_lookup & Hq).
  apply mapM_Some in Hm. destruct (Forall2_lookup_r _ _ _ _ _ Hm Hi) as (kv' & Hk' & Hf').
  destruct (Hf _ _ Hf') as [_ Hkeys']. destruct (Hkeys' _ Hq) as [ks2 H2].
  apply Hkv. assert (kv.1 = kv'.1) as -> by congruence.
  apply list_elem_of_fmap. eexists. split; [done|]. by eapply list_elem_of_lookup_2.
Qed.

Lemma leafPaths_NoDup fuel l ps : leafPaths fuel l = Some ps → NoDup ps.*1.
Proof.
  revert l ps. induction fuel as [|fuel IH]; intros l ps; simpl; [done|].
  case_decide as Hleaf; [intros [= <-]; apply NoDup_singleton|].
  intros (pss & Hm & ->)%fmap_Some. eapply mapM_NoDup_keys; [apply range_NoDup|done|].
  intros [k [w|]] qs; simpl; [|done]. intros (ps' & Hps & ->)%fmap_Some. split.
  - apply IH in Hps. apply (NoDup_fmap_2 (cons k)) in Hps.
    by rewrite <-!list_fmap_compose in *.
  - intros p (q & -> & _)%list_elem_of_fmap. by eexists.
Qed.

(** Names that differ in the enumeration belong to different paths. *)
Lemma leafNames_unique fuel root ps ks1 ks2 l1 l2 :
  leafPaths fuel root = Some ps → NoDup ((λ p, v_Name (deref h p.2)) <$> ps) →
  lookupPath h root ks1 = Some l1 → lookupPath h root ks2 = Some l2 →
  Vertices (deref h l1) = ∅ → Vertices (deref h l2) = ∅ →
  v_Name (deref h l1) = v_Name (deref h l2) → ks1 = ks2.
Proof.
  intros Hps Hnd H1 H2 E1 E2 Heq.
  assert ((ks1, l1) = (ks2, l2)) as [= -> ->]; [|done].
  eapply NoDup_fmap_eq; [done|by apply (leafPaths_elem _ _ _ _ _ Hps)..|done].
Qed.
End Walk.

Lemma initTree_tree `{RangeOrder} g root st :
  Tiers g = Some root → initTree (Some g) = Some (Ok st) → is_tree (g_heap g) root.
Proof.
  intros Hroot Hrun. destruct (initTree_run g root Hroot) as (r & Hr & Hspec).
  rewrite Hrun in Hr. simplify_eq. destruct Hspec as (E & st0 & HE & Hc & _). by eapply found_tree.
Qed.

End TreeWalk.
