(* ===== verification/Output.v ===== *)
(** * Slurm topology output: [pkg/translate/tree.go], [block.go], [yaml.go]
    and the generators of [topology.go]

    Text is written to a buffer that never fails; it is the string returned.
    Error values stand for their messages; [status] is the HTTP status. *)

From S2P Require Import Prelude GoStrings Cluset Domain BlockTree Topology Network.
Open Scope Z_scope.

(** ** Data of [yaml.go] *)

Record Switch := MkSwitch { sw_Name : string; sw_Children : string; sw_Nodes : string }.
Record TreeTopo := MkTreeTopo {
  Switches : list Switch;
  tt_parents : gmap string (list string);
  topLevel : gset string
}.
Record Block := MkBlock { bl_Name : string; bl_Nodes : string }.
Record BlockTopo := MkBlockTopo {
  bt_BlockSizes : list Z;
  Blocks : list Block;
  bt_parents : gmap string string
}.
Record TopologyUnit := MkUnit {
  tu_Name : string;
  tu_Default : bool;
  Flat : bool;
  tu_Tree : option TreeTopo;
  tu_Block : option BlockTopo
}.

Module Output.
Import Domain BlockTree Topo Network.

(** ** Errors *)

Inductive unitErr :=
| ErrExpansion (limit : Z)
| ErrDuplicateName (e : duplicateErr)
| ErrNoBlocks
| ErrNilVertex (id : string).  (* a nil dereference: a switch without a vertex *)

Inductive genErr :=
| ErrMissingVertex (id : string)
| ErrNames (e : duplicateErr)
| ErrAllDropped
| ErrSizes
| ErrUnit (topo : string) (e : unitErr)
| ErrPlugin (plugin : string)
| ErrMarshal.

Definition status (e : genErr) : Z :=
  match e with
  | ErrMissingVertex _ => 502
  | ErrMarshal => 500
  | _ => 400
  end.

(** ** The breadth-first loops over IDs

    [visit] is the body for an ID dequeued for the first time; it returns the
    IDs to enqueue.  [None]: more iterations than [fuel]. *)
Fixpoint bfs {S E} (fuel : nat) (visit : S → string → result E (S * list string)) (st : S)
    (visited : gset string) (queue : list string) : option (result E S) :=
  match queue with
  | [] => Some (Ok st)
  | id :: queue =>
      match fuel with
      | O => None
      | Datatypes.S fuel =>
          if decide (id ∈ visited) then bfs fuel visit st visited queue
          else match visit st id with
               | Err e => Some (Err e)
               | Ok (st, next) => bfs fuel visit st ({[id]} ∪ visited) (queue ++ next)
               end
      end
  end.

(** The root and every edge of an adjacency list. *)
Definition edges (adj : gmap string (list string)) : nat :=
  sum_list (length <$> (map_to_list adj).*2).
Definition bfsFuel (adj : gmap string (list string)) : nat := S (edges adj).

Section Output.
Context `{Regexp} `{RangeOrder}.

(** ** [tree.go] *)

(** [switches] and [nodes] of a vertex, in the order of the map. *)
Definition childLists (h : heap) (v : Vertex) : list string * list string :=
  foldl (λ '(switches, nodes) '(_, ow),
    match ow with
    | None => (switches, nodes)
    | Some w =>
        let w := deref h w in
        if decide (Vertices w = ∅) then (switches, nodes ++ [v_Name w])
        else if decide (v_Name w = "") then (switches ++ [v_ID w], nodes)
        else (switches ++ [v_Name w], nodes)
    end) ([], []) (range (Vertices v)).

Definition writeVertex (h : heap) (v : Vertex) (skeletonOnly : bool) : string :=
  if decide (v_ID v = "") then ""
  else
    let comment := if decide (v_Name v = "") then ""
                   else "# " +:+ v_Name v +:+ "=" +:+ v_ID v +:+ newline in
    let name := if decide (v_Name v = "") then v_ID v else v_Name v in
    if skeletonOnly then
      if decide (Vertices v = ∅) then ""
      else comment +:+ "SwitchName=" +:+ name +:+ newline
    else
      let '(switches, nodes) := childLists h v in
      (if decide (switches = []) then ""
       else comment +:+ "SwitchName=" +:+ name +:+ " Switches=" +:+
              join "," (Cluset.Compact switches) +:+ newline) +:+
      (if decide (nodes = []) then ""
       else comment +:+ "SwitchName=" +:+ name +:+ " Nodes=" +:+
              join "," (Cluset.Compact nodes) +:+ newline).

Definition visitSwitch (nt : NetworkTopology) (skeletonOnly : bool) (out : string) (id : string) :
    result genErr (string * list string) :=
  match vertices nt !! id with
  | None => Err (ErrMissingVertex id)
  | Some l =>
      let out := out +:+ writeVertex (nt_heap nt) (deref (nt_heap nt) l) skeletonOnly in
      if skeletonOnly && negb (bool_decide (id = "")) then Ok (out, [])
      else Ok (out, default [] (tree nt !! id))
  end.

Definition toTreeTopology (nt : NetworkTopology) (skeletonOnly : bool) : option (result genErr string) :=
  bfs (bfsFuel (tree nt)) (visitSwitch nt skeletonOnly) "" ∅ [""].

(** ** [block.go] *)

Definition anyBlockHasNodes (bs : list blockInfo) : bool :=
  existsb (λ b, negb (bool_decide (b_nodes b = []))) bs.

Definition findMinDomainSize (bs : list blockInfo) : option Z :=
  match bs with
  | [] => None
  | b :: bs => Some (foldl (λ m b, if Z.of_nat (length (b_nodes b)) <? m
                                   then Z.of_nat (length (b_nodes b)) else m)
                       (Z.of_nat (length (b_nodes b))) bs)
  end.

(** [int(math.Log2(float64(n)))] is the integer logarithm for the lengths of
    slices (it is exact below 2^47), and [math.Pow(2, i)] is exact. *)
Definition getBlockSizes (bs : list blockInfo) (requestedBlockSizes : list Z) : option (list Z) :=
  if decide (requestedBlockSizes = []) then
    minDomainSize ← findMinDomainSize bs;
    let maxnumbs := Z.log2 (Z.of_nat (length bs)) in
    Some (minDomainSize ::
            ((λ i, 2 ^ i * minDomainSize) <$> seqZ 1 maxnumbs))
  else Some requestedBlockSizes.

Definition setNodeInfo (nt : NetworkTopology) (infos : gmap string nodeInfo) : NetworkTopology :=
  MkNT (config nt) (tree nt) (nt_domains nt) (blocks nt) (vertices nt) infos (nt_heap nt).

(** The blocks kept, renamed. *)
Definition namedBlocks (n : naming) : list blockInfo :=
  zip_with (λ b name, MkBlockInfo name (b_name b) (b_indx b) (b_nodes b)) (kept n) (names n).

(** [info.blockID = id] for the nodes of a block that have a record. *)
Definition setBlockIDs (infos : gmap string nodeInfo) (id : string) (nodes : list string) :
    gmap string nodeInfo :=
  updateNodes (λ info, setBlockID info id) infos nodes.

Definition writeBlock (skeletonOnly : bool) (b : blockInfo) : string :=
  let comment := if decide (b_name b = "") then ""
                 else "# " +:+ b_id b +:+ "=" +:+ b_name b +:+ newline in
  if skeletonOnly || bool_decide (b_nodes b = [])
  then comment +:+ "BlockName=" +:+ b_id b +:+ newline
  else comment +:+ "BlockName=" +:+ b_id b +:+ " Nodes=" +:+
         join "," (Cluset.Compact (b_nodes b)) +:+ newline.

Definition writeBlocks (skeletonOnly : bool) (bs : list blockInfo) (sizes : list Z) : string :=
  foldl (λ out b, out +:+ writeBlock skeletonOnly b) "" bs +:+
  "BlockSizes=" +:+ join "," (itoa <$> sizes) +:+ newline.

(** The node records are updated also when an error is returned later. *)
Definition toBlockTopology (nt : NetworkTopology) (skeletonOnly : bool) :
    NetworkTopology * result genErr string :=
  let '(bs, effectiveBlockSizes) := complementBlocks (nt_domains nt) (blocks nt) (BlockSizes (config nt)) in
  match formatBlockNames bs (compileBlockNameFormatter (BlockName (config nt))) with
  | Err e => (nt, Err (ErrNames e))
  | Ok n =>
      let infos := foldl (λ infos b, setBlockIDs infos "" (b_nodes b)) (nt_nodeInfo nt) (dropped n) in
      if anyBlockHasNodes bs && negb (anyBlockHasNodes (kept n))
      then (setNodeInfo nt infos, Err ErrAllDropped)
      else
        let named := namedBlocks n in
        let infos := foldl (λ infos b, setBlockIDs infos (b_id b) (b_nodes b)) infos named in
        let nt := setNodeInfo nt infos in
        match getBlockSizes named effectiveBlockSizes with
        | None => (nt, Err ErrSizes)
        | Some sizes => (nt, Ok (writeBlocks skeletonOnly named sizes))
        end
  end.

(** ** [yaml.go]: units *)

(** Group the partition's nodes by the index of their block. *)
Definition addToBlock (nt : NetworkTopology) (blockMap : gmap Z blockInfo) (nodeName : string) :
    gmap Z blockInfo :=
  match nt_nodeInfo nt !! nodeName with
  | None => blockMap
  | Some info =>
      match blockIndx info with
      | None => blockMap
      | Some indx =>
          match blockMap !! indx with
          | None =>
              let name := if indx <? Z.of_nat (length (blocks nt))
                          then default "" (b_name <$> (blocks nt !! Z.to_nat indx)) else "" in
              <[indx := MkBlockInfo "" name indx [nodeName]]> blockMap
          | Some b =>
              <[indx := MkBlockInfo (b_id b) (b_name b) (b_indx b) (b_nodes b ++ [nodeName])]> blockMap
          end
      end
  end.

Definition indx_le (a b : blockInfo) : Prop := b_indx a ≤ b_indx b.
#[global] Instance indx_le_dec : RelDecision indx_le.
Proof. intros a b. unfold indx_le. apply _. Defined.

Definition sortByIndx (blockMap : gmap Z blockInfo) : list blockInfo :=
  merge_sort indx_le (map_to_list blockMap).*2.

Definition renumber (bs : list blockInfo) : list blockInfo :=
  imap (λ i b, MkBlockInfo ("block" +:+ itoa (Z.of_nat i + 1)) (b_name b) (b_indx b) (b_nodes b)) bs.

Definition unitBlock (b : blockInfo) : Block :=
  MkBlock (b_id b) (if decide (b_nodes b = []) then "" else join "," (Cluset.Compact (b_nodes b))).

Definition unitParents (bs : list blockInfo) : gmap string string :=
  foldl (λ m b, foldl (λ m node, <[node := b_id b]> m) m (b_nodes b)) ∅ bs.

Definition getBlockTopologyUnit (nt : NetworkTopology) (topoName : string) (topoSpec : TopologySpec) :
    result unitErr TopologyUnit :=
  match Cluset.ExpandWithLimit (ts_Nodes topoSpec) with
  | Err (Cluset.ErrExceeds limit) => Err (ErrExpansion limit)
  | Ok nodeNames =>
      let blockMap := foldl (addToBlock nt) ∅ nodeNames in
      let flat := MkUnit topoName (ClusterDefault topoSpec) true None None in
      if decide (blockMap = ∅) then Ok flat
      else
        let '(bInfos, effectiveBlockSizes) :=
          complementBlocks (nt_domains nt) (sortByIndx blockMap) (ts_BlockSizes topoSpec) in
        let bInfos := renumber bInfos in
        match formatBlockNames bInfos (compileBlockNameFormatter (ts_BlockName topoSpec)) with
        | Err e => Err (ErrDuplicateName e)
        | Ok n =>
            if anyBlockHasNodes bInfos && negb (anyBlockHasNodes (kept n)) then Ok flat
            else
              let named := namedBlocks n in
              match getBlockSizes (kept n) effectiveBlockSizes with
              | None => Err ErrNoBlocks
              | Some sizes =>
                  Ok (MkUnit topoName (ClusterDefault topoSpec) false None
                        (Some (MkBlockTopo sizes (unitBlock <$> named) (unitParents named))))
              end
        end
  end.

(** ** [yaml.go]: the partition's tree *)

(** The depth-first search; [None]: deeper than [fuel]. *)
Fixpoint dfs (fuel : nat) (adj : gmap string (list string)) (leaves : gset string)
    (required : gset string) (node : string) : option (gset string * bool) :=
  match fuel with
  | O => None
  | S fuel =>
      '(required, keep) ← foldl (λ acc child,
          '(required, keep) ← acc;
          '(required, k) ← dfs fuel adj leaves required child;
          Some (required, keep || k))
        (Some (required, bool_decide (node ∈ leaves))) (default [] (adj !! node));
      Some (if keep : bool then {[node]} ∪ required else required, keep)
  end.

Definition findRequiredNodes (nt : NetworkTopology) (leaves : gset string) : option (gset string) :=
  fst <$> dfs (S (S (size (tree nt)))) (tree nt) leaves ∅ "".

Definition buildSubTree (nt : NetworkTopology) (required : gset string) : gmap string (list string) :=
  map_imap (λ parent children,
    if decide (parent ∈ required) then
      let cs := filter (λ c, c ∈ required) children in
      if decide (cs = []) then None else Some cs
    else None) (tree nt).

Definition getPartitionTree (nt : NetworkTopology) (nodes : list string) :
    option (gmap string (list string)) :=
  buildSubTree nt <$> findRequiredNodes nt (list_to_set nodes).

(** One entry of [v.Vertices] in the loop of [getTreeTopologyUnit]:
    [children], [leaves] and [parents]. *)
Definition addChildEntry (h : heap) (v : Vertex) (nodeSelector switchSelector : gset string)
    (acc : list string * list string * gmap string (list string)) (kv : string * option nat) :
    list string * list string * gmap string (list string) :=
  let '(children, leaves, parents) := acc in
  match kv.2 with
  | None => acc
  | Some w =>
      let w := deref h w in
      let isNode := bool_decide (Vertices w = ∅) in
      let key := if isNode then v_Name w else v_ID w in
      (if negb isNode && bool_decide (v_ID w ∈ switchSelector) then children ++ [v_ID w] else children,
       if isNode && bool_decide (v_Name w ∈ nodeSelector) then leaves ++ [v_Name w] else leaves,
       <[key := default [] (parents !! v_ID v) ++ [v_ID v]]> parents)
  end.

Definition visitTree (nt : NetworkTopology) (nodeSelector : gset string)
    (ptree : gmap string (list string)) (t : TreeTopo) (switchID : string) :
    result unitErr (TreeTopo * list string) :=
  match ptree !! switchID with
  | None => Ok (t, [])
  | Some connects =>
      if decide (switchID = "") then
        Ok (MkTreeTopo (Switches t) (tt_parents t) (list_to_set connects ∪ topLevel t), connects)
      else
        match vertices nt !! switchID with
        | None => Err (ErrNilVertex switchID)
        | Some l =>
            let v := deref (nt_heap nt) l in
            let '(children, leaves, parents) :=
              foldl (addChildEntry (nt_heap nt) v nodeSelector (list_to_set connects))
                ([], [], tt_parents t) (range (Vertices v)) in
            let sws :=
              if bool_decide (children = []) && bool_decide (leaves = []) then Switches t
              else Switches t ++ [MkSwitch (v_ID v)
                     (if decide (children = []) then "" else join "," (Cluset.Compact children))
                     (if decide (leaves = []) then "" else join "," (Cluset.Compact leaves))] in
            Ok (MkTreeTopo sws parents (topLevel t), connects)
        end
  end.

Definition getTreeTopologyUnit (nt : NetworkTopology) (topoName : string) (topoSpec : TopologySpec) :
    option (result unitErr TopologyUnit) :=
  match Cluset.ExpandWithLimit (ts_Nodes topoSpec) with
  | Err (Cluset.ErrExceeds limit) => Some (Err (ErrExpansion limit))
  | Ok nodeNames =>
      let known := filter (λ n, is_Some (nt_nodeInfo nt !! n)) nodeNames in
      let nodeSelector : gset string := list_to_set known in
      let nodeIDs : list string := omap (λ n, instanceID <$> nt_nodeInfo nt !! n) nodeNames in
      match getPartitionTree nt nodeIDs with
      | None => None
      | Some ptree =>
          if decide (ptree = ∅)
          then Some (Ok (MkUnit topoName (ClusterDefault topoSpec) true None None))
          else match bfs (bfsFuel ptree) (visitTree nt nodeSelector ptree) (MkTreeTopo [] ∅ ∅) ∅ [""] with
               | None => None
               | Some (Err e) => Some (Err e)
               | Some (Ok t) =>
                   Some (Ok (MkUnit topoName (ClusterDefault topoSpec) false (Some t) None))
               end
      end
  end.

(** ** [yaml.go]: all units *)

Definition getUnit (nt : NetworkTopology) (topoName : string) (topoSpec : TopologySpec) :
    option (result genErr TopologyUnit) :=
  if decide (ts_Plugin topoSpec = TopologyTree) then
    map_err (ErrUnit topoName) <$> getTreeTopologyUnit nt topoName topoSpec
  else if decide (ts_Plugin topoSpec = TopologyBlock) then
    Some (map_err (ErrUnit topoName) (getBlockTopologyUnit nt topoName topoSpec))
  else if decide (ts_Plugin topoSpec = TopologyFlat) then
    Some (Ok (MkUnit topoName (ClusterDefault topoSpec) true None None))
  else Some (Err (ErrPlugin (ts_Plugin topoSpec))).

(** The units made before an error are returned beside it. *)
Fixpoint getUnits (nt : NetworkTopology) (units : list TopologyUnit) (topoNames : list string) :
    option (list TopologyUnit * option genErr) :=
  match topoNames with
  | [] => Some (units, None)
  | topoName :: topoNames =>
      match Topologies (config nt) !! topoName with
      | None => getUnits nt units topoNames
      | Some topoSpec =>
          r ← getUnit nt topoName topoSpec;
          match r with
          | Err e => Some (units, Some e)
          | Ok tu => getUnits nt (units ++ [tu]) topoNames
          end
      end
  end.

Definition GetTopologies (nt : NetworkTopology) : option (list TopologyUnit * option genErr) :=
  getUnits nt [] (sorted_keys (Topologies (config nt))).

Definition skeletonUnit (tu : TopologyUnit) : TopologyUnit :=
  MkUnit (tu_Name tu) (tu_Default tu) (Flat tu)
    ((λ t, MkTreeTopo ((λ sw, MkSwitch (sw_Name sw) "" "") <$>
                         filter (λ sw, sw_Name sw ∈ topLevel t) (Switches t)) ∅ ∅) <$> tu_Tree tu)
    ((λ b, MkBlockTopo (bt_BlockSizes b) ((λ bl, MkBlock (bl_Name bl) "") <$> Blocks b) ∅) <$> tu_Block tu).
Definition copySkeleton (topologies : list TopologyUnit) : list TopologyUnit :=
  skeletonUnit <$> topologies.

(** [yaml.Marshal]: the text, or [None] for an error. *)
Context (Marshal : list TopologyUnit → option string).

Definition toYamlTopology (topologies : list TopologyUnit) (skeletonOnly : bool) : result genErr string :=
  match Marshal (if skeletonOnly then copySkeleton topologies else topologies) with
  | None => Err ErrMarshal
  | Some data => Ok data
  end.

(** The units, the topology after the refresh of its node records, and the
    text or error. *)
Definition GenerateTopologyConfig (nt : NetworkTopology) (skeletonOnly : bool) :
    option (list TopologyUnit * NetworkTopology * result genErr string) :=
  '(topologies, err) ← GetTopologies nt;
  match err with
  | Some e => Some (topologies, nt, Err e)
  | None =>
      if decide (Topologies (config nt) = ∅) then
        if decide (Plugin (config nt) = TopologyBlock) then
          let '(nt, r) := toBlockTopology nt skeletonOnly in Some (topologies, nt, r)
        else
          r ← toTreeTopology nt skeletonOnly; Some (topologies, nt, r)
      else Some (topologies, nt, toYamlTopology topologies skeletonOnly)
  end.

(** ** Node specs *)

Definition unitParent (tu : TopologyUnit) (node : string) : string :=
  match tu_Tree tu with
  | Some t => join ":" (default [] (tt_parents t !! node))
  | None => match tu_Block tu with
            | Some b => default "" (bt_parents b !! node)
            | None => ""
            end
  end.

Definition getTopologySpec (node : string) (topologies : list TopologyUnit) : string :=
  foldl (λ buf tu,
    let parent := unitParent tu node in
    if decide (parent = "") then buf
    else (if decide (buf = "") then "" else buf +:+ ",") +:+ tu_Name tu +:+ ":" +:+ parent)
    "" topologies.

Definition GetNodeTopologySpec (nt : NetworkTopology) (node : string) (topologies : list TopologyUnit) :
    string :=
  match nt_nodeInfo nt !! node with
  | None => ""
  | Some info =>
      if decide (Topologies (config nt) = ∅) then
        if decide (Plugin (config nt) = TopologyBlock) then
          if decide (blockID info = "") then "" else "default:" +:+ blockID info
        else if decide (Plugin (config nt) = TopologyTree) then
          "default:" +:+ join ":" (ni_switches info)
        else ""
      else getTopologySpec node topologies
  end.
End Output.

(** ** Examples *)

(** Patterns are literal prefixes: enough to run the definitions. *)
#[global] Instance prefix_regexp : Regexp := {|
  regexp := string;
  re_compile s := Some s;
  re_String r := r;
  re_expand r format node := if has_prefix r node then Some format else None;
  re_compile_String s r Hs := eq_sym (f_equal (default "") Hs)
|}.

Definition ex_heap : heap :=
  {[ 0%nat := MkVertex "" "" {[ "S1" := Some 1%nat ]};
     1%nat := MkVertex "" "S1" {[ "S2" := Some 2%nat; "S3" := Some 3%nat ]};
     2%nat := MkVertex "" "S2" {[ "I21" := Some 4%nat; "I22" := Some 5%nat ]};
     3%nat := MkVertex "x" "S3" {[ "I34" := Some 6%nat ]};
     4%nat := MkVertex "Node201" "I21" ∅; 5%nat := MkVertex "Node202" "I22" ∅;
     6%nat := MkVertex "Node304" "I34" ∅ ]}.
Definition ex_domains : DomainMap :=
  AddHost (AddHost (AddHost NewDomainMap "B1" "I21" "Node201") "B1" "I22" "Node202") "B2" "I34" "Node304".
Definition ex_graph : Graph := MkGraph ex_heap (Some 0%nat) (Some ex_domains) None.

Definition run (cfg : Config) (skeletonOnly : bool) : option string :=
  r ← NewNetworkTopology (Some ex_graph) cfg;
  match r with
  | Ok nt => '(_, _, out) ← GenerateTopologyConfig (λ _, Some "yaml") nt skeletonOnly;
             match out with Ok s => Some s | Err _ => None end
  | Err _ => None
  end.

Definition lines (l : list string) : string := foldl (λ s x, s +:+ x +:+ newline) "" l.

Example tree_output :
  run (MkConfig TopologyTree [] None ∅) false =
  Some (lines ["SwitchName=S1 Switches=S2,x"; "SwitchName=S2 Nodes=Node[201-202]"; "# x=S3";
               "SwitchName=x Nodes=Node304"]).
Proof. vm_compute. reflexivity. Qed.

Example tree_skeleton :
  run (MkConfig TopologyTree [] None ∅) true = Some (lines ["SwitchName=S1"]).
Proof. vm_compute. reflexivity. Qed.

Example block_output :
  run (MkConfig TopologyBlock [] None ∅) false =
  Some (lines ["# block001=B1"; "BlockName=block001 Nodes=Node[201-202]"; "# block002=B2";
               "BlockName=block002 Nodes=Node304"; "BlockSizes=1,2"]).
Proof. vm_compute. reflexivity. Qed.

Definition ex_partition : gmap string TopologySpec :=
  {[ "p1" := MkSpec TopologyTree [] None true ["Node[201-202]"];
     "p2" := MkSpec TopologyBlock [] None false ["Node201"; "Node304"] ]}.

Example units_ex :
  (r ← NewNetworkTopology (Some ex_graph) (MkConfig "" [] None ex_partition);
   match r with
   | Ok nt => '(us, err) ← GetTopologies nt;
              Some ((λ u, (Switches <$> tu_Tree u, Blocks <$> tu_Block u)) <$> us,
                    GetNodeTopologySpec nt "Node201" us, err)
   | Err _ => None
   end) =
  Some ([(Some [MkSwitch "S1" "S2" ""; MkSwitch "S2" "" "Node[201-202]"], None);
         (None, Some [MkBlock "block1" "Node201"; MkBlock "block2" "Node304"])],
        "p1:S1:S2,p2:block1", None).
Proof. vm_compute. reflexivity. Qed.

End Output.
