(* ===== verification/OutputProps.v ===== *)
(** * What the Slurm output contains

    The breadth-first loops end and visit everything once; the tree output
    has the lines of every switch; block names are unique and the node specs
    agree with the file. *)

From S2P Require Import Prelude GoStrings Cluset Domain BlockTree Topology Network NetworkTree Output.
Open Scope Z_scope.

Module OutputProps.
Import Domain BlockTree Topo Network NetworkTree Output.

(** ** The breadth-first loop *)

Section Pending.
Context (adj : gmap string (list string)).

(** The edges that leave unvisited IDs. *)
Definition pending (visited : gset string) : nat :=
  sum_list (length <$> (map_to_list (filter (λ kv, kv.1 ∉ visited) adj)).*2).

Lemma pending_visit visited id :
  id ∉ visited →
  (pending ({[id]} ∪ visited) + length (default [] (adj !! id)) ≤ pending visited)%nat.
Proof.
  intros Hid. unfold pending.
  destruct (adj !! id) as [l|] eqn:Hl; simpl.
  - assert (filter (λ kv, kv.1 ∉ visited) adj =
      <[id := l]> (filter (λ kv, kv.1 ∉ {[id]} ∪ visited) adj)) as ->.
    { apply map_eq. intros k. rewrite lookup_insert. case_decide as Hk.
      - subst k. apply map_lookup_filter_Some. done.
      - apply option_eq. intros x. rewrite !map_lookup_filter_Some. simpl. set_solver. }
    rewrite map_to_list_insert; [csimpl; lia|].
    apply map_lookup_filter_None. right. intros x _. simpl. set_solver.
  - replace (filter (λ kv, kv.1 ∉ {[id]} ∪ visited) adj) with (filter (λ kv, kv.1 ∉ visited) adj); [lia|].
    apply map_eq. intros k. apply option_eq. intros x. rewrite !map_lookup_filter_Some. simpl.
    split; [|set_solver]. intros [Hx Hv]. split; [done|].
    intros [->%elem_of_singleton|?]%elem_of_union; [congruence|done].
Qed.

Lemma pending_start : pending ∅ = edges adj.
Proof.
  unfold pending, edges. replace (filter (λ kv, kv.1 ∉ ∅) adj) with adj; [done|].
  symmetry. apply map_filter_id. set_solver.
Qed.

End Pending.

Section Bfs.
Context {S E : Type} (visit : S → string → result E (S * list string)) (adj : gmap string (list string)).
Hypothesis Hvisit : ∀ st id st' next,
  visit st id = Ok (st', next) → (length next ≤ length (default [] (adj !! id)))%nat.

Lemma bfs_total fuel st visited queue :
  (length queue + pending adj visited ≤ fuel)%nat → is_Some (bfs fuel visit st visited queue).
Proof.
  revert st visited queue. induction fuel as [|fuel IH]; intros st visited queue Hf;
    destruct queue as [|id queue]; simpl in *; [eauto|lia|eauto|].
  case_decide as Hid; [apply IH; lia|].
  destruct (visit st id) as [[st' next]|e] eqn:Hv; [|eauto].
  apply IH. rewrite length_app. pose proof (pending_visit adj visited id Hid).
  pose proof (Hvisit _ _ _ _ Hv). lia.
Qed.

Lemma bfs_returns st x : is_Some (bfs (bfsFuel adj) visit st ∅ [x]).
Proof. apply bfs_total. rewrite pending_start. unfold bfsFuel. simpl. lia. Qed.

End Bfs.

(** What a loop whose body never fails has done: it visited a closed set of
    IDs, each once. *)
Section Visits.
Context {S E : Type} (visit : S → string → result E (S * list string)).
Context (ok : string → Prop) (f : S → string → S) (succ : string → list string).
Hypothesis Hok : ∀ st id, ok id → visit st id = Ok (f st id, succ id).
Hypothesis Hsucc : ∀ id c, ok id → c ∈ succ id → ok c.

Lemma bfs_visits fuel st visited queue r :
  bfs fuel visit st visited queue = Some r → Forall ok queue →
  ∃ order, r = Ok (foldl f st order) ∧ NoDup order ∧
    (∀ id, id ∈ order → (id ∉ visited) ∧ ok id) ∧
    (∀ id, id ∈ queue → id ∈ visited ∨ id ∈ order) ∧
    (∀ id c, id ∈ order → c ∈ succ id → c ∈ visited ∨ c ∈ order).
Proof.
  revert st visited queue. induction fuel as [|fuel IH]; intros st visited queue Hrun Hq;
    destruct queue as [|id queue]; simpl in Hrun; [..|]; try done.
  1,2: injection Hrun as <-; exists []; split_and!; [done|constructor|set_solver..].
  apply Forall_cons in Hq as [Hid Hq]. case_decide as Hv.
  - destruct (IH _ _ _ Hrun Hq) as (order & -> & Hnd & Hin & Hall & Hcl). exists order.
    split_and!; [done|done|done| |done]. intros k [->|Hk]%elem_of_cons; [by left|by apply Hall].
  - rewrite (Hok _ _ Hid) in Hrun.
    destruct (IH _ _ _ Hrun) as (order & -> & Hnd & Hin & Hall & Hcl).
    { apply Forall_app. split; [done|]. apply Forall_forall. intros c. by apply Hsucc. }
    exists (id :: order). simpl. split_and!.
    + done.
    + apply NoDup_cons. split; [|done]. intros Hi. destruct (Hin _ Hi) as [Hn _]. set_solver.
    + intros k [->|Hk]%elem_of_cons; [done|]. destruct (Hin _ Hk) as [Hn ?]. set_solver.
    + intros k [->|Hk]%elem_of_cons; [right; left|]. destruct (Hall k) as [?|?]; [set_solver..].
    + intros k c [->|Hk]%elem_of_cons Hc.
      * destruct (Hall c) as [?|?]; [set_solver..].
      * destruct (Hcl k c Hk Hc) as [?|?]; set_solver.
Qed.
End Visits.

(** ** Tree output *)

Section Tree.
Context `{Regexp} `{RangeOrder}.

(** Children are stored under their own IDs. *)
Definition keyed (h : heap) (root : nat) : Prop :=
  ∀ ks l k w, lookupPath h root ks = Some l → Vertices (deref h l) !! k = Some (Some w) →
    v_ID (deref h w) = k.

Definition vertexText (nt : NetworkTopology) (id : string) : string :=
  match vertices nt !! id with
  | Some l => writeVertex (nt_heap nt) (deref (nt_heap nt) l) false
  | None => ""
  end.

(** The edges of a topology lead to vertices of it, and every vertex is
    reached from the root ID. *)
Lemma nt_edges g root cfg nt :
  NewNetworkTopology (Some g) cfg = Some (Ok nt) → Tiers g = Some root → keyed (g_heap g) root →
  nt_heap nt = g_heap g ∧
  (∀ id c, is_Some (vertices nt !! id) → c ∈ default [] (tree nt !! id) → is_Some (vertices nt !! c)) ∧
  (∀ P : string → Prop, P (v_ID (deref (g_heap g) root)) →
     (∀ id c, P id → c ∈ default [] (tree nt !! id) → P c) → ∀ id, is_Some (vertices nt !! id) → P id).
Proof.
  intros (cfg' & st & ds & bs & infos & _ & Hst & _ & ->)%NewNetworkTopology_ok Hroot Hkey. simpl.
  pose proof (initTree_recorded g root st Hroot Hst) as (Hv & Ht & _).
  destruct (initTree_run g root Hroot) as (r & Hr & Hspec). rewrite Hst in Hr. injection Hr as <-.
  destruct Hspec as (E & st0 & HE & Hc & _). pose proof (found_tree _ _ _ _ HE Hc) as [Hnil _].
  assert (∀ id l, t_vertices st !! id = Some l → t_tree st !! id = Some (sorted_keys (Vertices (deref (g_heap g) l)))) as Htree.
  { intros id l Hl. apply Ht. eauto. }
  assert (∀ ks l c, lookupPath (g_heap g) root ks = Some l → c ∈ sorted_keys (Vertices (deref (g_heap g) l)) →
    ∃ w, lookupPath (g_heap g) root (ks ++ [c]) = Some w ∧ v_ID (deref (g_heap g) w) = c) as Hchild.
  { intros ks l c Hl [oc Hoc]%elem_of_sorted_keys. destruct (Hnil _ _ Hl) as [Hn _].
    destruct oc as [w|]; [|by destruct (Hn c)]. exists w. split; [|by eapply Hkey].
    rewrite lookupPath_snoc, Hl. simpl. unfold kidsOfLoc. by rewrite Hoc. }
  split; [done|]. split.
  - intros id c [l Hl]. rewrite (Htree _ _ Hl). simpl. apply Hv in Hl as [_ [ks Hks]].
    intros Hin. destruct (Hchild _ _ _ Hks Hin) as (w & Hw & Hid). exists w. apply Hv. eauto.
  - intros P Hroot0 Hstep id [l Hl]. apply Hv in Hl as [<- [ks Hks]]. revert l Hks.
    induction ks as [|c ks IH] using rev_ind; intros l Hks; [simpl in Hks; by injection Hks as <-|].
    rewrite lookupPath_snoc in Hks. apply bind_Some in Hks as (l' & Hl' & Hc').
    assert (Vertices (deref (g_heap g) l') !! c = Some (Some l)) as Hedge.
    { unfold kidsOfLoc in Hc'. by destruct (Vertices (deref (g_heap g) l') !! c) as [[?|]|]; simplify_eq/=. }
    unfold ID. rewrite (Hkey _ _ _ _ Hl' Hedge). apply (Hstep _ _ (IH _ Hl')).
    rewrite (Htree (ID (g_heap g) l') l'); [|apply Hv; eauto]. simpl.
    apply elem_of_sorted_keys. eauto.
Qed.

(** C6: For a graph whose root has the empty ID and whose children are stored
    under their IDs, [toTreeTopology] succeeds, and its output is the text of
    every vertex of the tree, each written exactly once. *)
Theorem tree_output_complete g root cfg nt :
  NewNetworkTopology (Some g) cfg = Some (Ok nt) → Tiers g = Some root →
  v_ID (deref (g_heap g) root) = "" → keyed (g_heap g) root →
  ∃ order, order ≡ₚ (map_to_list (vertices nt)).*1 ∧
    toTreeTopology nt false = Some (Ok (foldl (λ out id, out +:+ vertexText nt id) "" order)).
Proof.
  intros Hnt Hroot Hempty Hkey. destruct (nt_edges _ _ _ _ Hnt Hroot Hkey) as (Hheap & Hedge & Hreach).
  rewrite Hempty in Hreach.
  assert (is_Some (vertices nt !! "")) as Hstart.
  { apply NewNetworkTopology_ok in Hnt as (cfg' & st & ds & bs & infos & _ & Hst & _ & ->). simpl.
    destruct (initTree_recorded g root st Hroot Hst) as (Hv & _). exists root. apply Hv.
    split; [done|]. by exists []. }
  assert (is_Some (toTreeTopology nt false)) as [r Hr].
  { apply bfs_returns. intros st id st' next. unfold visitSwitch.
    destruct (vertices nt !! id); [|done]. simpl. by intros [= _ <-]. }
  unfold toTreeTopology in *.
  destruct (bfs_visits (visitSwitch nt false) (λ id, is_Some (vertices nt !! id))
    (λ out id, out +:+ vertexText nt id) (λ id, default [] (tree nt !! id))) with
    (fuel := bfsFuel (tree nt)) (st := "") (visited := ∅ : gset string) (queue := [""]) (r := r)
    as (order & -> & Hnd & Hin & Hall & Hcl); [|done|done|by constructor|].
  { intros st id [l Hl]. unfold visitSwitch, vertexText. by rewrite Hl. }
  exists order. split; [|done]. apply NoDup_Permutation; [done|apply NoDup_fst_map_to_list|].
  intros id. rewrite elem_of_keys. split; [intros Hid; by apply Hin|].
  apply (Hreach (λ id, id ∈ order)).
  - destruct (Hall "") as [?|?]; [left|set_solver|done].
  - intros p c Hp Hc. destruct (Hcl p c Hp Hc); [set_solver|done].
Qed.
End Tree.

(** ** Block names *)

Section Names.
Context `{Regexp}.

Lemma foldM_nameOfNode re format cur nodes name :
  foldM (nameOfNode re format) cur nodes = Ok name ↔
  if decide (nodes = []) then name = cur
  else name ≠ "" ∧ Forall (λ n, re_expand re format n = Some name) nodes ∧ (cur = "" ∨ cur = name).
Proof.
  revert cur. induction nodes as [|n nodes IH]; intros cur; simpl; [naive_solver|].
  unfold nameOfNode at 1. destruct (re_expand re format n) as [x|] eqn:Hx.
  2:{ split; [done|]. intros (_ & Hf & _). apply Forall_cons in Hf as [? _]. congruence. }
  destruct (decide (x = "")) as [Hx0|Hx0].
  { split; [done|]. intros (? & [? _]%Forall_cons & _). congruence. }
  destruct (decide (cur = "")) as [Hc|Hc]; [|destruct (decide (x = cur)) as [Hxc|Hxc]].
  - rewrite IH. rewrite Forall_cons, Hx. case_decide; naive_solver.
  - rewrite IH. rewrite Forall_cons, Hx. case_decide; naive_solver.
  - split; [done|]. intros (? & [? _]%Forall_cons & ?). naive_solver.
Qed.

Definition formatted (f : option blockNameFormatter) (b : blockInfo) : result nameErr string :=
  formatBlockName f (b_id b) (b_nodes b).
Definition goodName (f : option blockNameFormatter) (b : blockInfo) : option string :=
  match formatted f b with Ok name => Some name | Err _ => None end.

(** The loop from any state whose [seen] holds the names given out. *)
Lemma formatBlocks_spec f bs st :
  dom (n_seen st) = (list_to_set (names st) : gset string) → NoDup (names st) →
  match foldM (formatBlock f) st bs with
  | Ok n =>
      kept n = kept st ++ filter (λ b, is_Some (goodName f b)) bs ∧
      names n = names st ++ omap (goodName f) bs ∧
      dropped n = dropped st ++ filter (λ b, ¬ is_Some (goodName f b)) bs ∧
      NoDup (names n)
  | Err _ => ¬ NoDup (names st ++ omap (goodName f) bs)
  end.
Proof.
  revert st. induction bs as [|b bs IH]; intros st Hdom Hnd; csimpl.
  { by rewrite !app_nil_r. }
  unfold formatBlock at 1. fold (formatted f b). rewrite !filter_cons.
  assert (goodName f b = match formatted f b with Ok n => Some n | Err _ => None end) as Hg by done.
  destruct (formatted f b) as [name|e].
  - rewrite Hg. rewrite decide_True by eauto. rewrite decide_False by naive_solver.
    destruct (n_seen st !! name) as [prev|] eqn:Hs.
    + intros Hnd'. apply NoDup_app in Hnd' as (_ & Hd & _). apply (Hd name); [|left].
      apply (elem_of_list_to_set (C := gset string)). rewrite <-Hdom. apply elem_of_dom. eauto.
    + assert (name ∉ names st) as Hnew.
      { intros Hin. apply (elem_of_list_to_set (C := gset string)) in Hin. rewrite <-Hdom in Hin.
        apply elem_of_dom in Hin as [? ?]. congruence. }
      specialize (IH (MkNames (kept st ++ [b]) (names st ++ [name]) (dropped st)
                        (<[name := b_id b]> (n_seen st)))). simpl in IH.
      rewrite <-!app_assoc in IH. apply IH.
      * rewrite dom_insert_L, Hdom, list_to_set_app_L. set_solver.
      * apply NoDup_app. split_and!; [done|set_solver|apply NoDup_singleton].
  - rewrite Hg. rewrite decide_False by (intros [? ?]; done). rewrite decide_True by (intros [? ?]; done).
    specialize (IH (MkNames (kept st) (names st) (dropped st ++ [b]) (n_seen st))). simpl in IH.
    rewrite <-!app_assoc in IH. by apply IH.
Qed.

Lemma formatBlockNames_spec f bs :
  match formatBlockNames bs f with
  | Ok n =>
      kept n = filter (λ b, is_Some (goodName f b)) bs ∧ names n = omap (goodName f) bs ∧
      dropped n = filter (λ b, ¬ is_Some (goodName f b)) bs ∧ NoDup (names n)
  | Err _ => ¬ NoDup (omap (goodName f) bs)
  end.
Proof. apply (formatBlocks_spec f bs (MkNames [] [] [] ∅)); [done|constructor]. Qed.

(** With a formatter, the name of a block with nodes is the one name that
    every node of the block expands to; there is an error when a node does not
    match, expands to nothing, or disagrees with the others. [formatBlockNames]
    keeps, in order, exactly the blocks that have a name and drops the others,
    and fails exactly when two of the names are equal. *)
Theorem block_names_spec bs re format :
  let f := Some (MkFormatter (Some re) format) in
  (∀ b name, b_nodes b ≠ [] →
     formatted f b = Ok name ↔ name ≠ "" ∧ Forall (λ n, re_expand re format n = Some name) (b_nodes b)) ∧
  match formatBlockNames bs f with
  | Ok n =>
      kept n = filter (λ b, is_Some (goodName f b)) bs ∧ names n = omap (goodName f) bs ∧
      dropped n = filter (λ b, ¬ is_Some (goodName f b)) bs ∧ NoDup (names n)
  | Err _ => ¬ NoDup (omap (goodName f) bs)
  end.
Proof.
  intros f. split; [|apply formatBlockNames_spec]. intros b name Hne. unfold formatted, f. simpl.
  rewrite decide_False by done. rewrite foldM_nameOfNode, decide_False by done. naive_solver.
Qed.
End Names.

(** ** Node specs of the block output *)

Section BlockSpecs.
Context `{Regexp} `{RangeOrder}.

Lemma setBlockIDs_lookup infos id nodes n :
  setBlockIDs infos id nodes !! n =
    if decide (n ∈ nodes) then (λ info, setBlockID info id) <$> infos !! n else infos !! n.
Proof.
  unfold setBlockIDs, updateNodes. 
  pose (P := λ (l : list string) (m : gmap string nodeInfo), m !! n =
    if decide (n ∈ l) then (λ info, setBlockID info id) <$> infos !! n else infos !! n).
  apply (foldl_prefix_inv P); unfold P.
  { by rewrite decide_False by set_solver. }
  intros l1 x l2 m _ IH. rewrite lookup_alter, IH. destruct (decide (x = n)) as [->|Hne].
  - rewrite (decide_True (P := n ∈ l1 ++ [n])) by set_solver.
    destruct (decide (n ∈ l1)); rewrite IH; by destruct (infos !! n).
  - destruct (decide (n ∈ l1)); [rewrite decide_True by set_solver|rewrite decide_False by set_solver]; done.
Qed.

(** The last block of a list that lists a node. *)
Definition lastBlock (bs : list blockInfo) (node : string) : option blockInfo :=
  last (filter (λ b, node ∈ b_nodes b) bs).

Lemma setAll_lookup (id : blockInfo → string) bs infos n :
  foldl (λ infos b, setBlockIDs infos (id b) (b_nodes b)) infos bs !! n =
    match lastBlock bs n with
    | Some b => (λ info, setBlockID info (id b)) <$> infos !! n
    | None => infos !! n
    end.
Proof.
  unfold lastBlock. apply (foldl_prefix_inv (λ (l : list blockInfo) (m : gmap string nodeInfo), m !! n =
    match last (filter (λ b, n ∈ b_nodes b) l) with
    | Some b => (λ info, setBlockID info (id b)) <$> infos !! n | None => infos !! n end)); [done|].
  intros l1 b l2 m _ IH. rewrite setBlockIDs_lookup, IH, filter_app. rewrite filter_cons, filter_nil.
  case_decide; [|by rewrite app_nil_r]. rewrite last_snoc.
  destruct (last _); [|done]. by destruct (infos !! n).
Qed.

(** The blocks that have a name, in order, each under its name, and the blocks
    that have none. *)
Definition emitted (f : option blockNameFormatter) (bs : list blockInfo) : list blockInfo :=
  omap (λ b, (λ name, MkBlockInfo name (b_name b) (b_indx b) (b_nodes b)) <$> goodName f b) bs.
Definition unnamed (f : option blockNameFormatter) (bs : list blockInfo) : list blockInfo :=
  filter (λ b, goodName f b = None) bs.

Lemma named_emitted f bs n :
  formatBlockNames bs f = Ok n →
  namedBlocks n = emitted f bs ∧ dropped n = unnamed f bs ∧ NoDup (b_id <$> emitted f bs).
Proof.
  intros Hn. pose proof (formatBlockNames_spec f bs) as Hs. rewrite Hn in Hs.
  destruct Hs as (Hk & Hnm & Hd & Hnd). unfold namedBlocks, emitted, unnamed. rewrite Hk, Hd.
  assert (b_id <$> omap (λ b, (λ name, MkBlockInfo name (b_name b) (b_indx b) (b_nodes b)) <$> goodName f b) bs = names n) as ->.
  { rewrite Hnm. clear. induction bs as [|b bs IH]; csimpl; [done|]. destruct (goodName f b); csimpl; by rewrite IH. }
  split_and!; [|apply list_filter_iff; intros b; by rewrite eq_None_not_Some|done].
  rewrite Hnm. clear. induction bs as [|b bs IH]; csimpl; [done|]. rewrite filter_cons.
  destruct (goodName f b) as [x|] eqn:Hg.
  - rewrite decide_True by eauto. csimpl. by rewrite IH.
  - rewrite decide_False by (intros [? ?]; done). apply IH.
Qed.

(** C8: When the block output is written, the emitted blocks are exactly those
    of the complemented list that have a name, in order, under distinct names,
    and the sizes are theirs.  Afterwards the spec of a node names the emitted
    block that lists it (the last one, if several do); a node that only blocks
    without a name list has an empty spec, and no other spec changes. *)
Theorem block_specs_match_file nt skeletonOnly nt' out :
  toBlockTopology nt skeletonOnly = (nt', Ok out) →
  Topologies (config nt) = ∅ → Plugin (config nt) = TopologyBlock →
  let '(bs, eff) := complementBlocks (nt_domains nt) (blocks nt) (BlockSizes (config nt)) in
  let f := compileBlockNameFormatter (BlockName (config nt)) in
  (∃ sizes, getBlockSizes (emitted f bs) eff = Some sizes ∧ out = writeBlocks skeletonOnly (emitted f bs) sizes) ∧
  NoDup (b_id <$> emitted f bs) ∧
  ∀ node units, is_Some (nt_nodeInfo nt !! node) →
    GetNodeTopologySpec nt' node units =
      match lastBlock (emitted f bs) node with
      | Some b => if decide (b_id b = "") then "" else "default:" +:+ b_id b
      | None => match lastBlock (unnamed f bs) node with
                | Some _ => ""
                | None => GetNodeTopologySpec nt node units
                end
      end.
Proof.
  unfold toBlockTopology. intros Hrun Htop Hplug.
  destruct (complementBlocks _ _ _) as [bs eff]. cbv zeta. set (f := compileBlockNameFormatter _) in *.
  destruct (formatBlockNames bs f) as [n|e] eqn:Hn; [|done].
  destruct (anyBlockHasNodes bs && _); [done|]. destruct (named_emitted _ _ _ Hn) as (Hnamed & Hdropped & Hnd).
  rewrite Hnamed, Hdropped in Hrun. destruct (getBlockSizes (emitted f bs) eff) as [sizes|] eqn:Hs; [|done].
  injection Hrun as <- <-. split; [by exists sizes|]. split; [done|]. intros node units [info Hinfo].
  unfold GetNodeTopologySpec. simpl. rewrite (setAll_lookup b_id), (setAll_lookup (λ _, "")), Htop, Hplug.
  destruct (lastBlock (emitted f bs) node) as [b|], (lastBlock (unnamed f bs) node) as [d|];
    rewrite Hinfo; simpl; by rewrite ?(decide_True (P := ∅ = ∅)) by done.
Qed.

(** ** Block sizes *)

(** Without requested sizes [getBlockSizes] fails exactly when there are no
    blocks; otherwise it returns [D], [2D], [4D], …, [2^k*D], where [D] is the
    number of nodes of the smallest block and [2^k] is the largest power of two
    that is at most the number of blocks. *)
Theorem block_sizes_spec bs :
  (getBlockSizes bs [] = None ↔ bs = []) ∧
  ∀ sizes, getBlockSizes bs [] = Some sizes → ∃ D k,
    sizes = (λ i, 2 ^ i * D) <$> seqZ 0 (k + 1) ∧
    0 ≤ k ∧ 2 ^ k ≤ Z.of_nat (length bs) < 2 ^ (k + 1) ∧
    (∀ b, b ∈ bs → D ≤ Z.of_nat (length (b_nodes b))) ∧
    ∃ b, b ∈ bs ∧ D = Z.of_nat (length (b_nodes b)).
Proof.
  unfold getBlockSizes. rewrite decide_True by done. destruct bs as [|b bs];
    cbn [findMinDomainSize mbind option_bind]; [by split|].
  split; [done|]. set (n := Z.of_nat (length (b :: bs))). intros sizes Hs. apply (inj Some) in Hs as <-.
  set (D := foldl _ _ bs). assert (0 < n) as Hn by (unfold n; simpl; lia).
  pose proof (Z.log2_nonneg n) as Hk. pose proof (Z.log2_spec n Hn) as Hspec.
  set (k := Z.log2 n) in *. clearbody k. exists D, k.
  split; [|split; [done|split]].
  - rewrite (seqZ_cons 0) by lia. csimpl. rewrite Z.mul_1_l. f_equal.
    by replace (Z.pred (k + 1)) with k by lia.
  - by rewrite Z.add_1_r.
  - assert ((∀ b', b' ∈ b :: bs → D ≤ Z.of_nat (length (b_nodes b'))) ∧
      ∃ b', b' ∈ b :: bs ∧ D = Z.of_nat (length (b_nodes b'))); [|done].
    unfold D. apply (foldl_prefix_inv (λ l m, (∀ b', b' ∈ b :: l → m ≤ Z.of_nat (length (b_nodes b'))) ∧
      ∃ b', b' ∈ b :: l ∧ m = Z.of_nat (length (b_nodes b')))).
    + split; [|exists b; split; [left|done]]. intros b' ->%list_elem_of_singleton. lia.
    + intros l1 x l2 m _ [Hmin (b0 & Hb0 & Hm)]. destruct (Z.ltb_spec (Z.of_nat (length (b_nodes x))) m); split.
      * intros b' [->|[Hb'|Hb'%list_elem_of_singleton]%elem_of_app]%elem_of_cons.
        -- specialize (Hmin b ltac:(left)). lia.
        -- specialize (Hmin b' ltac:(by right)). lia.
        -- subst. lia.
      * exists x. split; [set_solver|done].
      * intros b' [->|[Hb'|Hb'%list_elem_of_singleton]%elem_of_app]%elem_of_cons.
        -- apply Hmin. left.
        -- apply Hmin. by right.
        -- by subst.
      * exists b0. split; [set_solver|done].
Qed.
End BlockSpecs.

(** ** Indices of blocks *)

Section Indices.
Context `{Regexp} `{RangeOrder}.

(** Blocks carry their position, and the index of a node record leads to a
    block that lists the node. *)
Definition indexed (infos : gmap string nodeInfo) (bs : list blockInfo) : Prop :=
  (∀ i b, bs !! i = Some b → b_indx b = Z.of_nat i) ∧
  (∀ node info i, infos !! node = Some info → blockIndx info = Some i →
     ∃ j b, i = Z.of_nat j ∧ bs !! j = Some b ∧ node ∈ b_nodes b).

Lemma indexed_snoc infos infos' bs b :
  indexed infos bs → b_indx b = Z.of_nat (length bs) →
  (∀ node info i, infos' !! node = Some info → blockIndx info = Some i →
     (∃ info', infos !! node = Some info' ∧ blockIndx info' = Some i) ∨
     (node ∈ b_nodes b ∧ i = Z.of_nat (length bs))) →
  indexed infos' (bs ++ [b]).
Proof.
  intros [Hb Hi] Hindx Hnew. split.
  - intros i b' [Hl|[Hge Hl]]%lookup_app_Some; [by apply Hb|].
    apply list_lookup_singleton_Some in Hl as [Hz <-]. rewrite Hindx. lia.
  - intros node info i Hn Hbi. destruct (Hnew _ _ _ Hn Hbi) as [(info' & Hn' & Hbi')|[Hin ->]].
    + destruct (Hi _ _ _ Hn' Hbi') as (j & b' & -> & Hj & Hin). exists j, b'.
      split_and!; [done|by apply lookup_app_l_Some|done].
    + exists (length bs), b. split_and!; [done|by apply list_lookup_middle|done].
Qed.

Lemma updateNodes_lookup f infos nodes n info :
  updateNodes f infos nodes !! n = Some info →
  (n ∈ nodes ∧ ∃ info', info = f info') ∨ infos !! n = Some info.
Proof.
  unfold updateNodes. revert info.
  apply (foldl_prefix_inv (λ l m, ∀ info, m !! n = Some info →
    (n ∈ l ∧ ∃ info', info = f info') ∨ infos !! n = Some info)); [by right|].
  intros l1 x l2 m _ IH info. destruct (decide (x = n)) as [->|Hne].
  - rewrite lookup_alter_eq. intros (i & _ & ->)%fmap_Some. left. split; [set_solver|eauto].
  - rewrite lookup_alter_ne by done. intros Hm. destruct (IH _ Hm) as [[? ?]|?]; [left|by right].
    split; [set_solver|done].
Qed.

Lemma visitLeaf_indexed blockMap infos bs name :
  indexed infos bs →
  indexed (visitLeaf blockMap (infos, bs) name).1 (visitLeaf blockMap (infos, bs) name).2.
Proof.
  intros Hi. unfold visitLeaf. destruct (infos !! name) as [nInfo|]; [|done].
  destruct (_ && _); [|done]. destruct (blockMap !! blockID nInfo) as [block|]; [|done]. simpl.
  apply (indexed_snoc infos); [done|done|]. intros node info i Hn Hbi.
  apply updateNodes_lookup in Hn as [[Hin (info' & ->)]|Hold]; [right|left; eauto].
  simpl in *. by injection Hbi as <-.
Qed.

Lemma blocksLoop_indexed fuel h blockMap acc queue r :
  indexed acc.1 acc.2 → blocksLoop fuel h blockMap acc queue = Some r → indexed r.1 r.2.
Proof.
  revert acc queue. induction fuel as [|fuel IH]; intros [infos bs] queue Hi;
    destruct queue as [|l queue]; simpl; [by intros [= <-]|done|by intros [= <-]|].
  case_decide; [|by apply IH]. apply IH. by apply visitLeaf_indexed.
Qed.

Lemma blocksWithoutTree_indexed domains infos :
  indexed infos [] → (∀ node info, infos !! node = Some info → blockIndx info = None) →
  indexed (blocksWithoutTree domains infos).1 (blocksWithoutTree domains infos).2.
Proof.
  intros Hi Hnone. unfold blocksWithoutTree.
  apply (foldl_inv (λ acc, indexed acc.1 acc.2)); [done|].
  intros [infos' bs] b _. simpl. intros Hacc. apply (indexed_snoc infos'); [done|done|].
  apply (foldl_prefix_inv (λ l m, ∀ node info i, m !! node = Some info → blockIndx info = Some i →
    (∃ info', infos' !! node = Some info' ∧ blockIndx info' = Some i) ∨
    (node ∈ l ∧ i = Z.of_nat (length bs)))).
  - intros node info i Hn Hbi. left. eauto.
  - intros l1 x l2 m _ IH node info i. destruct (default ∅ (domains !! b_name b) !! x).
    + rewrite lookup_insert. case_decide as Hx.
      * subst x. intros [= <-]. simpl. intros [= <-]. right. split; [set_solver|done].
      * intros Hn Hbi. destruct (IH _ _ _ Hn Hbi) as [?|[? ->]]; [by left|right]. split; [set_solver|done].
    + intros Hn Hbi. destruct (IH _ _ _ Hn Hbi) as [?|[? ->]]; [by left|right]. split; [set_solver|done].
Qed.

(** The node records of [initTree] have no block index, and giving them block
    IDs does not add one. *)
Lemma assignBlockIDs_none infos bs :
  (∀ node info, infos !! node = Some info → blockIndx info = None) →
  ∀ node info, assignBlockIDs infos bs !! node = Some info → blockIndx info = None.
Proof.
  intros Hn. unfold assignBlockIDs.
  apply (foldl_inv (λ m, ∀ node info, m !! node = Some info → blockIndx info = None)); [done|].
  intros m b _ IH node info Hm. revert info Hm. unfold updateNodes.
  apply (foldl_inv (λ m, ∀ info, m !! node = Some info → blockIndx info = None)); [apply IH|].
  intros m' x _ IH' info. rewrite lookup_alter. case_decide; [subst|apply IH'].
  intros (i & Hi & ->)%fmap_Some. simpl. by eapply IH'.
Qed.

(** In a network topology every block carries its own position in the
    list, and the block index of a node leads to a block that lists that
    node, so the look-up [nt.blocks[indx]] never fails or hits another
    domain. *)
Theorem block_indices_sound graph cfg nt :
  NewNetworkTopology graph cfg = Some (Ok nt) → indexed (nt_nodeInfo nt) (blocks nt).
Proof.
  intros (cfg' & st & ds & bs & infos & _ & Hst & Hb & ->)%NewNetworkTopology_ok. simpl.
  assert (∀ node info, t_nodeInfo st !! node = Some info → blockIndx info = None) as Hnone.
  { destruct graph as [g|]; simpl in Hst; [|injection Hst as <-; by intros ??].
    destruct (Tiers g) as [root|] eqn:Hroot; [|injection Hst as <-; by intros ??].
    intros node info Hn. destruct (initTree_recorded g root st Hroot) as (_ & _ & _ & Hrec).
    { unfold initTree. by rewrite Hroot. }
    by destruct (Hrec _ _ Hn) as (ks & l & _ & _ & _ & ->). }
  assert (indexed (t_nodeInfo st) []) as H0i.
  { split; [done|]. intros node info i Hn Hi. rewrite (Hnone _ _ Hn) in Hi. done. }
  unfold initBlocks in Hb. destruct graph as [g|]; [|by injection Hb as <- <- <-].
  destruct (Domains g) as [domains|]; [|by injection Hb as <- <- <-].
  case_decide; [by injection Hb as <- <- <-|]. destruct (Tiers g) as [root|].
  - apply bind_Some in Hb as ([infos' bs'] & Hloop & [= <- <- <-]).
    refine (blocksLoop_indexed _ _ _ _ _ _ _ Hloop). simpl. split; [done|].
    intros node info i Hn Hi. rewrite (assignBlockIDs_none _ _ Hnone _ _ Hn) in Hi. done.
  - pose proof (blocksWithoutTree_indexed domains _ H0i Hnone) as Hi.
    destruct (blocksWithoutTree _ _) as [infos' bs']. by injection Hb as <- <- <-.
Qed.
End Indices.

(** ** Witnesses *)

Definition keyedb (h : heap) : bool :=
  forallb (λ lv, forallb (λ kv, match kv.2 with
    | Some w => bool_decide (v_ID (deref h w) = kv.1)
    | None => true
    end) (map_to_list (Vertices lv.2))) (map_to_list h).

Lemma keyedb_spec h root : keyedb h = true → keyed h root.
Proof.
  intros Hb ks l k w _ Hk. unfold keyedb in Hb. rewrite forallb_forall in Hb.
  unfold deref in Hk at 1. destruct (h !! l) as [v|] eqn:Hl; simpl in Hk; [|by rewrite lookup_empty in Hk].
  assert (In (l, v) (map_to_list h)) as Hin by (by apply list_elem_of_In, elem_of_map_to_list).
  specialize (Hb _ Hin). simpl in Hb. rewrite forallb_forall in Hb.
  assert (In (k, Some w) (map_to_list (Vertices v))) as Hin' by (by apply list_elem_of_In, elem_of_map_to_list).
  specialize (Hb _ Hin'). simpl in Hb. by apply bool_decide_eq_true in Hb.
Qed.

Definition w_tree_cfg : Config := MkConfig TopologyTree [] None ∅.
Definition w_block_cfg : Config := MkConfig TopologyBlock [] (Some (MkBlockName "Node" "rack" None)) ∅.
Definition w_nt (cfg : Config) : NetworkTopology :=
  match NewNetworkTopology (Some ex_graph) cfg with
  | Some (Ok nt) => nt
  | _ => MkNT cfg ∅ None [] ∅ ∅ ∅
  end.

Lemma tree_output_complete_witness :
  ∃ order, order ≡ₚ (map_to_list (vertices (w_nt w_tree_cfg))).*1 ∧ length order = 7%nat ∧
    toTreeTopology (w_nt w_tree_cfg) false =
      Some (Ok (foldl (λ out id, out +:+ vertexText (w_nt w_tree_cfg) id) "" order)).
Proof.
  destruct (tree_output_complete ex_graph 0 w_tree_cfg (w_nt w_tree_cfg)) as (order & Hp & Hout).
  - vm_compute. reflexivity.
  - reflexivity.
  - vm_compute. reflexivity.
  - apply keyedb_spec. vm_compute. reflexivity.
  - exists order. split; [exact Hp|split; [|exact Hout]]. rewrite Hp. vm_compute. reflexivity.
Defined.

(** The nodes of the first block have no name that matches, and its block is
    dropped. *)
Definition w_drop_cfg : Config := MkConfig TopologyBlock [] (Some (MkBlockName "Node30" "rack" None)) ∅.
Definition w_written : NetworkTopology * result genErr string := toBlockTopology (w_nt w_drop_cfg) false.
Definition w_out : string := match w_written.2 with Ok s => s | Err _ => "" end.

Lemma block_specs_match_file_witness :
  w_written.2 = Ok w_out ∧
  GetNodeTopologySpec (w_nt w_drop_cfg) "Node201" [] = "default:block001" ∧
  GetNodeTopologySpec w_written.1 "Node201" [] = "" ∧ GetNodeTopologySpec w_written.1 "Node304" [] = "default:rack".
Proof.
  pose proof (block_specs_match_file (w_nt w_drop_cfg) false w_written.1 w_out) as H.
  destruct (complementBlocks _ _ _) as [bs eff] eqn:Hc. destruct H as (_ & _ & Hall).
  - vm_compute. reflexivity.
  - vm_compute. reflexivity.
  - vm_compute. reflexivity.
  - vm_compute in Hc. injection Hc as <- <-.
    split; [vm_compute; reflexivity|]. split; [vm_compute; reflexivity|]. split.
    + rewrite Hall by (vm_compute; by eexists). vm_compute. reflexivity.
    + rewrite Hall by (vm_compute; by eexists). vm_compute. reflexivity.
Defined.

Lemma block_indices_sound_witness :
  blockIndx <$> nt_nodeInfo (w_nt w_block_cfg) !! "Node304" = Some (Some 1) ∧
  indexed (nt_nodeInfo (w_nt w_block_cfg)) (blocks (w_nt w_block_cfg)).
Proof.
  split; [vm_compute; reflexivity|].
  apply (block_indices_sound (Some ex_graph) w_block_cfg). vm_compute. reflexivity.
Defined.

End OutputProps.
