(* ===== verification/Partition.v ===== *)
(** * The tree of a partition

    A per-partition tree topology holds the switches that lead to the
    partition's nodes: [getPartitionTree] prunes the adjacency lists of the
    whole tree by a depth-first search, and [getTreeTopologyUnit] writes a
    switch for each vertex that is left. *)

From S2P Require Import Prelude GoStrings Cluset Domain BlockTree Topology Network NetworkTree.
From S2P Require Import TreeWalk Output OutputProps.

Module Partition.
Import Domain BlockTree Topo Network NetworkTree TreeWalk Output OutputProps.

(** ** The depth-first search *)

Section Dfs.
Context (adj : gmap string (list string)) (leaves : gset string).

Definition edge (a b : string) : Prop := b ∈ default [] (adj !! a).

(** A vertex leads to a leaf that is asked for. *)
Definition leads (x : string) : Prop := ∃ t, t ∈ leaves ∧ rtc edge x t.

(** [depth]: a bound on the length of the paths below an ID. *)
Inductive depth : string → nat → Prop :=
| depth_intro a n : (∀ b, edge a b → ∃ m, (m < n)%nat ∧ depth b m) → depth a n.

Lemma rtc_edge_inv a x : rtc edge a x ↔ x = a ∨ ∃ b, edge a b ∧ rtc edge b x.
Proof.
  split.
  - intros Hax. inversion Hax; subst; [by left|right; eauto].
  - intros [->|(b & Hab & Hbx)]; [constructor|by eapply rtc_l].
Qed.

(** The loop over the children of a vertex. *)
Lemma dfs_children fuel cs req keep0 :
  (∀ c, c ∈ cs → ∀ req, ∃ req' keep, dfs fuel adj leaves req c = Some (req', keep) ∧
     (keep = true ↔ leads c) ∧ ∀ x, x ∈ req' ↔ x ∈ req ∨ (rtc edge c x ∧ leads x)) →
  ∃ req' keep, foldl (λ acc child, '(required, keep) ← acc;
      '(required, k) ← dfs fuel adj leaves required child; Some (required, keep || k))
    (Some (req, keep0)) cs = Some (req', keep) ∧
    (keep = true ↔ keep0 = true ∨ ∃ c, c ∈ cs ∧ leads c) ∧
    ∀ x, x ∈ req' ↔ x ∈ req ∨ ∃ c, c ∈ cs ∧ rtc edge c x ∧ leads x.
Proof.
  revert req keep0. induction cs as [|c cs IH]; intros req keep0 Hcs; simpl.
  { exists req, keep0. split_and!; [done|set_solver|set_solver]. }
  destruct (Hcs c ltac:(left) req) as (req1 & k & -> & Hk & Hreq1). simpl.
  destruct (IH req1 (keep0 || k)) as (req' & keep & Hrun & Hkeep & Hreq'); [intros; apply Hcs; by right|].
  exists req', keep. split_and!; [done| |].
  - rewrite Hkeep, orb_true_iff, Hk. clear. set_solver.
  - intros x. rewrite Hreq', Hreq1. clear. set_solver.
Qed.

Lemma dfs_spec fuel a n req :
  depth a n → (n < fuel)%nat →
  ∃ req' keep, dfs fuel adj leaves req a = Some (req', keep) ∧ (keep = true ↔ leads a) ∧
    ∀ x, x ∈ req' ↔ x ∈ req ∨ (rtc edge a x ∧ leads x).
Proof.
  revert a n req. induction fuel as [|fuel IH]; intros a n req Hd Hn; [lia|]. simpl.
  inversion Hd as [? ? Hch]; subst.
  destruct (dfs_children fuel (default [] (adj !! a)) req (bool_decide (a ∈ leaves)))
    as (req1 & keep & -> & Hkeep & Hreq1).
  { intros c Hc req0. destruct (Hch c Hc) as (m & Hm & Hdm). apply (IH c m); [done|lia]. }
  assert (keep = true ↔ leads a) as Hleads.
  { rewrite Hkeep, bool_decide_eq_true. split.
    - intros [Ha|(c & Hc & t & Ht & Hct)]; [by exists a|]. exists t. split; [done|]. by eapply rtc_l.
    - intros (t & Ht & [->|(c & Hc & Hct)]%rtc_edge_inv); [by left|right]. exists c. split; [done|]. by exists t. }
  simpl. exists (if keep then {[a]} ∪ req1 else req1), keep. split_and!; [done|done|].
  intros x. rewrite rtc_edge_inv. destruct keep.
  - rewrite elem_of_union, elem_of_singleton, Hreq1. pose proof (proj1 Hleads eq_refl). naive_solver.
  - assert (¬ leads a) by (intros ?%Hleads; done). rewrite Hreq1. naive_solver.
Qed.
End Dfs.

(** ** The instance IDs of the node records *)

Section Ids.
Context `{RangeOrder}.

Lemma updateNodes_ids f infos nodes :
  (∀ info, instanceID (f info) = instanceID info) →
  instanceID <$> updateNodes f infos nodes = instanceID <$> infos.
Proof.
  intros Hf. unfold updateNodes. revert infos. induction nodes as [|n nodes IH]; intros infos; simpl; [done|].
  rewrite IH. apply map_eq. intros k. rewrite !lookup_fmap, lookup_alter.
  case_decide as Hk; [|done]. subst k. destruct (infos !! n); simpl; [by rewrite Hf|done].
Qed.

Lemma visitLeaf_ids blockMap acc name :
  instanceID <$> (visitLeaf blockMap acc name).1 = instanceID <$> acc.1.
Proof.
  destruct acc as [infos bs]. unfold visitLeaf. destruct (infos !! name) as [nInfo|]; [|done].
  destruct (bool_decide _ && bool_decide _); [|done]. destruct (blockMap !! _); [|done]. simpl.
  by apply updateNodes_ids.
Qed.

Lemma blocksLoop_ids fuel h blockMap acc queue r :
  blocksLoop fuel h blockMap acc queue = Some r → instanceID <$> r.1 = instanceID <$> acc.1.
Proof.
  revert acc queue. induction fuel as [|fuel IH]; intros acc [|l queue]; simpl; try done;
    [by intros [= <-]..|]. case_decide; intros Hr%IH; [|done]. by rewrite Hr, visitLeaf_ids.
Qed.

Lemma assignBlockIDs_ids infos bs : instanceID <$> assignBlockIDs infos bs = instanceID <$> infos.
Proof.
  unfold assignBlockIDs. revert infos. induction bs as [|b bs IH]; intros infos; simpl; [done|].
  rewrite IH. by apply updateNodes_ids.
Qed.

Lemma initBlocks_ids g root infos ds bs infos' :
  Tiers g = Some root → initBlocks (Some g) infos = Some (ds, bs, infos') →
  instanceID <$> infos' = instanceID <$> infos.
Proof.
  unfold initBlocks. intros -> Hb. destruct (Domains g) as [domains|]; [|by simplify_eq].
  case_decide; [by simplify_eq|]. apply bind_Some in Hb as ([infos1 bs1] & Hloop & [= _ _ <-]).
  apply blocksLoop_ids in Hloop. simpl in Hloop. by rewrite Hloop, assignBlockIDs_ids.
Qed.
End Ids.

(** ** The pruned tree *)

Section Tree.
Context `{Regexp} `{RangeOrder} (g : Graph) (root : nat) (cfg : Config) (nt : NetworkTopology).
Hypothesis Hnt : NewNetworkTopology (Some g) cfg = Some (Ok nt).
Hypothesis Hroot : Tiers g = Some root.
Hypothesis Hempty : v_ID (deref (g_heap g) root) = "".
Hypothesis Hkey : keyed (g_heap g) root.

Local Abbreviation h := (g_heap g).

(** What [NewNetworkTopology] has recorded of the graph. *)
Lemma recorded :
  is_tree h root ∧ nt_heap nt = h ∧
  (∀ ks l, lookupPath h root ks = Some l →
     vertices nt !! ID h l = Some l ∧ tree nt !! ID h l = Some (sorted_keys (Vertices (deref h l)))) ∧
  (∀ id, is_Some (tree nt !! id) → ∃ ks l, lookupPath h root ks = Some l ∧ ID h l = id) ∧
  (∀ name info, nt_nodeInfo nt !! name = Some info → ∃ ks l,
     lookupPath h root ks = Some l ∧ Vertices (deref h l) = ∅ ∧ v_Name (deref h l) = name ∧
     instanceID info = ID h l).
Proof.
  pose proof Hnt as (cfg' & st & ds & bs & infos & _ & Hst & Hb & ->)%NewNetworkTopology_ok. simpl.
  pose proof (initTree_recorded g root st Hroot Hst) as (Hv & Ht & _ & Hn).
  split_and!; [by eapply initTree_tree|done| | |].
  - intros ks l Hl. assert (t_vertices st !! ID h l = Some l) as Hl' by (apply Hv; eauto).
    split; [done|]. apply Ht. eauto.
  - intros id [keys (l & Hl & _)%Ht]. apply Hv in Hl as [<- [ks Hks]]. eauto.
  - intros name info Hi. apply (initBlocks_ids _ _ _ _ _ _ Hroot) in Hb.
    apply (f_equal (lookup name)) in Hb. rewrite !lookup_fmap, Hi in Hb. simpl in Hb.
    destruct (t_nodeInfo st !! name) as [info0|] eqn:Hi0; simplify_eq/=.
    destruct (Hn _ _ Hi0) as (ks & l & Hl & Hleaf & Hname & ->). simpl in *. exists ks, l. by rewrite Hb.
Qed.

Lemma edge_child ks l c :
  lookupPath h root ks = Some l → edge (tree nt) (ID h l) c ↔
  ∃ w, Vertices (deref h l) !! c = Some (Some w) ∧ lookupPath h root (ks ++ [c]) = Some w ∧ ID h w = c.
Proof.
  destruct recorded as ([Hnil _] & _ & Hrec & _). intros Hl. destruct (Hrec _ _ Hl) as [_ Htree].
  unfold edge. rewrite Htree. simpl. rewrite elem_of_sorted_keys. split.
  - intros [[w|] Hc]; [|by destruct (proj1 (Hnil _ _ Hl) c)]. exists w. split; [done|].
    split; [|by eapply Hkey]. rewrite lookupPath_snoc, Hl. simpl. unfold kidsOfLoc. by rewrite Hc.
  - intros (w & Hc & _). eauto.
Qed.

Lemma path_below_tree ks l : lookupPath h root ks = Some l → (length ks < size (tree nt))%nat.
Proof.
  destruct recorded as ([_ Huniq] & _ & Hrec & _). intros Hl.
  destruct (pathLocs_spec h _ _ _ Hl) as [Hlen Hin].
  assert (∀ i x, (pathLocs h root ks ++ [l]) !! i = Some x → lookupPath h root (take i ks) = Some x ∧ (i ≤ length ks)%nat) as Hpre.
  { intros i x [Hx|[Hge Hx]]%lookup_app_Some.
    - destruct (Hin _ _ Hx). apply lookup_lt_Some in Hx. split; [done|lia].
    - apply list_lookup_singleton_Some in Hx as [Hi <-]. rewrite Hlen in *. rewrite take_ge by lia. split; [done|lia]. }
  assert (length (ID h <$> (pathLocs h root ks ++ [l])) = S (length ks)) as Hlen'
    by (rewrite length_fmap, length_app; simpl; lia).
  enough (length (ID h <$> (pathLocs h root ks ++ [l])) ≤ size (tree nt))%nat by lia.
  rewrite <-size_dom, <-(size_list_to_set (C := gset string)).
  - apply subseteq_size. intros x (y & -> & [i Hi]%list_elem_of_lookup)%elem_of_list_to_set%list_elem_of_fmap.
    apply elem_of_dom. destruct (Hpre _ _ Hi) as [Hy _]. destruct (Hrec _ _ Hy) as [_ ->]. eauto.
  - apply NoDup_alt. intros i j x Hi Hj. rewrite list_lookup_fmap in Hi, Hj.
    apply fmap_Some in Hi as (a & Ha & ->). apply fmap_Some in Hj as (b & Hb & Heq).
    destruct (Hpre _ _ Ha) as [Pa La], (Hpre _ _ Hb) as [Pb Lb].
    pose proof (Huniq _ _ _ _ Pa Pb Heq) as Htake. apply (f_equal length) in Htake.
    rewrite !length_take in Htake. lia.
Qed.

Lemma tree_depth n ks l :
  lookupPath h root ks = Some l → (size (tree nt) ≤ S n + length ks)%nat → depth (tree nt) (ID h l) n.
Proof.
  revert ks l. induction n as [|n IH]; intros ks l Hl Hn; constructor; intros c Hc;
    apply (edge_child _ _ _ Hl) in Hc as (w & _ & Hw & <-); pose proof (path_below_tree _ _ Hw) as Hlt;
    rewrite length_app in Hlt; simpl in Hlt; [lia|].
  exists n. split; [lia|]. eapply IH; [exact Hw|]. rewrite length_app. simpl. lia.
Qed.

Lemma required_spec (leaves : gset string) :
  ∃ required, findRequiredNodes nt leaves = Some required ∧
    ∀ x, is_Some (tree nt !! x) → x ∈ required ↔ leads (tree nt) leaves x.
Proof.
  destruct recorded as (_ & _ & Hrec & Hall & _).
  destruct (dfs_spec (tree nt) leaves (S (S (size (tree nt)))) (ID h root) (size (tree nt)) ∅)
    as (req & keep & Hrun & _ & Hreq); [apply (tree_depth _ []); [done|simpl; lia]|lia|].
  exists req. unfold findRequiredNodes. unfold ID in Hrun. rewrite Hempty in Hrun. rewrite Hrun. split; [done|].
  intros x (ks & l & Hl & <-)%Hall. rewrite Hreq.
  assert (rtc (edge (tree nt)) (ID h root) (ID h l)) as Hreach; [|set_solver].
  revert l Hl. induction ks as [|c ks IH] using rev_ind; intros l Hl; [simpl in Hl; by simplify_eq|].
  pose proof Hl as Hl0. rewrite lookupPath_snoc in Hl0. apply bind_Some in Hl0 as (l' & Hl' & Hc).
  eapply rtc_r; [by apply IH|]. apply (edge_child _ _ _ Hl').
  assert (Vertices (deref h l') !! c = Some (Some l)) as Hedge.
  { unfold kidsOfLoc in Hc. by destruct (Vertices (deref h l') !! c) as [[?|]|]; simplify_eq/=. }
  assert (ID h l = c) as -> by (by eapply Hkey). exists l. split_and!; [done|done|by eapply Hkey].
Qed.

Lemma lookup_subTree required p :
  default [] (buildSubTree nt required !! p) =
    (if decide (p ∈ required) then filter (λ c, c ∈ required) (default [] (tree nt !! p)) else []) ∧
  buildSubTree nt required !! p ≠ Some [].
Proof.
  unfold buildSubTree. rewrite map_lookup_imap. destruct (tree nt !! p) as [cs|]; simpl.
  - destruct (decide (p ∈ required)); [|done].
    destruct (decide (filter (λ c, c ∈ required) cs = [])) as [Hcs|Hcs]; simpl; [by rewrite Hcs|].
    split; [done|]. by intros [= ?].
  - by destruct (decide (p ∈ required)).
Qed.

Lemma partition_lookup nodes :
  ∃ ptree, getPartitionTree nt nodes = Some ptree ∧ ∀ p,
    default [] (ptree !! p) `sublist_of` default [] (tree nt !! p) ∧ ptree !! p ≠ Some [] ∧
    ∀ c, c ∈ default [] (ptree !! p) ↔ edge (tree nt) p c ∧ leads (tree nt) (list_to_set nodes) c.
Proof.
  destruct (required_spec (list_to_set nodes)) as (req & Hreq & Hin).
  destruct recorded as (_ & _ & Hrec & Hall & _).
  exists (buildSubTree nt req). unfold getPartitionTree. rewrite Hreq. split; [done|]. intros p.
  destruct (lookup_subTree req p) as [-> Hne]. split_and!; [|done|].
  - case_decide; [apply sublist_filter|apply sublist_nil_l].
  - intros c. assert (edge (tree nt) p c → (p ∈ req ↔ leads (tree nt) (list_to_set nodes) p) ∧
      (c ∈ req ↔ leads (tree nt) (list_to_set nodes) c)) as Hboth.
    { intros Hc. assert (is_Some (tree nt !! p)) as Hp.
      { unfold edge in Hc. destruct (tree nt !! p); [eauto|]. by apply elem_of_nil in Hc. }
      split; [by apply Hin|]. apply Hin. destruct (Hall _ Hp) as (ks & l & Hl & Heq). rewrite <-Heq in Hc.
      apply (edge_child _ _ _ Hl) in Hc as (w & _ & Hw & <-). destruct (Hrec _ _ Hw) as [_ ->]. eauto. }
    split.
    + case_decide; [|by intros ?%elem_of_nil]. rewrite list_elem_of_filter. unfold edge in *. naive_solver.
    + intros [Hc Hl]. destruct (Hboth Hc) as [Hp Hcr]. rewrite decide_True.
      * apply list_elem_of_filter. split; [by apply Hcr|done].
      * apply Hp. destruct Hl as (t & Ht & Hct). exists t. split; [done|]. by eapply rtc_l.
Qed.

(** ** The switches of a unit *)

Definition listOf (l : list string) : string := if decide (l = []) then "" else join "," (Cluset.Compact l).

Definition kidIDs (selected : gset string) (es : list (string * option nat)) : list string :=
  omap (λ kv, w ← kv.2; if decide (Vertices (deref h w) ≠ ∅ ∧ v_ID (deref h w) ∈ selected)
                         then Some (v_ID (deref h w)) else None) es.
Definition kidNodes (selected : gset string) (es : list (string * option nat)) : list string :=
  omap (λ kv, w ← kv.2; if decide (Vertices (deref h w) = ∅ ∧ v_Name (deref h w) ∈ selected)
                         then Some (v_Name (deref h w)) else None) es.

Lemma fold_entries v nodeSel swSel es cs ls ps :
  ∃ ps', foldl (addChildEntry h v nodeSel swSel) (cs, ls, ps) es = (cs ++ kidIDs swSel es, ls ++ kidNodes nodeSel es, ps').
Proof.
  revert cs ls ps. induction es as [|[k [w|]] es IH]; intros cs ls ps; csimpl.
  { exists ps. by rewrite !app_nil_r. }
  - edestruct IH as [ps' ->]. exists ps'. unfold kidIDs, kidNodes. csimpl.
    destruct (decide (Vertices (deref h w) = ∅)) as [Hl|Hl].
    + rewrite (bool_decide_eq_true_2 _ Hl). simpl. rewrite (decide_False (P := _ ∧ _ ∈ swSel)) by naive_solver.
      destruct (decide (v_Name (deref h w) ∈ nodeSel)) as [Hs|Hs].
      * rewrite bool_decide_eq_true_2, decide_True by done. by rewrite <-(app_assoc ls).
      * rewrite bool_decide_eq_false_2, decide_False by naive_solver. done.
    + rewrite (bool_decide_eq_false_2 _ Hl). simpl. rewrite (decide_False (P := _ ∧ _ ∈ nodeSel)) by naive_solver.
      destruct (decide (v_ID (deref h w) ∈ swSel)) as [Hs|Hs].
      * rewrite bool_decide_eq_true_2, decide_True by done. by rewrite <-(app_assoc cs).
      * rewrite bool_decide_eq_false_2, decide_False by naive_solver. done.
  - edestruct IH as [ps' ->]. by exists ps'.
Qed.

Context (names : list string) (ptree : gmap string (list string)).
Local Abbreviation nodeSelector := (list_to_set (filter (λ n, is_Some (nt_nodeInfo nt !! n)) names) : gset string).
Local Abbreviation nodeIDs := (omap (λ n, instanceID <$> nt_nodeInfo nt !! n) names).

(** The switch written for an ID. *)
Definition entryOf (id : string) : list Switch :=
  match ptree !! id, vertices nt !! id with
  | Some connects, Some l =>
      if decide (id = "") then []
      else
        let cs := kidIDs (list_to_set connects) (range (Vertices (deref h l))) in
        let ls := kidNodes nodeSelector (range (Vertices (deref h l))) in
        if decide (cs = [] ∧ ls = []) then [] else [MkSwitch (v_ID (deref h l)) (listOf cs) (listOf ls)]
  | _, _ => []
  end.

Definition visited (t : TreeTopo) (id : string) : TreeTopo :=
  match visitTree nt nodeSelector ptree t id with Ok (t', _) => t' | Err _ => t end.

Lemma visitTree_ok t id :
  is_Some (vertices nt !! id) →
  visitTree nt nodeSelector ptree t id = Ok (visited t id, default [] (ptree !! id)) ∧
  Switches (visited t id) = Switches t ++ entryOf id.
Proof.
  intros [l Hl]. unfold visited, visitTree, entryOf. rewrite Hl.
  destruct (ptree !! id) as [connects|]; simpl; [|by rewrite app_nil_r].
  destruct (decide (id = "")) as [->|Hid]; simpl; [by rewrite app_nil_r|].
  destruct recorded as (_ & Hheap & _). rewrite Hheap.
  destruct (fold_entries (deref h l) nodeSelector (list_to_set connects) (range (Vertices (deref h l))) [] [] (tt_parents t))
    as [ps' ->]. simpl. split; [done|].
  set (cs := kidIDs _ _). set (ls := kidNodes _ _). unfold listOf.
  destruct (decide (cs = [])) as [Hc|Hc], (decide (ls = [])) as [Hs|Hs].
  - rewrite Hc, Hs. simpl. by rewrite app_nil_r.
  - rewrite (bool_decide_eq_true_2 (cs = [])), (bool_decide_eq_false_2 (ls = [])) by done. simpl.
    by rewrite decide_False by naive_solver.
  - rewrite (bool_decide_eq_false_2 (cs = [])) by done. simpl. by rewrite decide_False by naive_solver.
  - rewrite (bool_decide_eq_false_2 (cs = [])) by done. simpl. by rewrite decide_False by naive_solver.
Qed.

Lemma elem_of_kidIDs selected l c :
  c ∈ kidIDs selected (range (Vertices (deref h l))) ↔
  ∃ k w, Vertices (deref h l) !! k = Some (Some w) ∧ Vertices (deref h w) ≠ ∅ ∧ v_ID (deref h w) ∈ selected ∧
    c = v_ID (deref h w).
Proof.
  unfold kidIDs. rewrite list_elem_of_omap. split.
  - intros ([k [w|]] & Hin & Hw); simpl in Hw; [|done]. apply elem_of_range in Hin. case_decide; naive_solver.
  - intros (k & w & Hk & Hl & Hs & ->). exists (k, Some w). rewrite elem_of_range. split; [done|]. simpl.
    by rewrite decide_True.
Qed.

Lemma elem_of_kidNodes selected l n :
  n ∈ kidNodes selected (range (Vertices (deref h l))) ↔
  ∃ k w, Vertices (deref h l) !! k = Some (Some w) ∧ Vertices (deref h w) = ∅ ∧ v_Name (deref h w) ∈ selected ∧
    n = v_Name (deref h w).
Proof.
  unfold kidNodes. rewrite list_elem_of_omap. split.
  - intros ([k [w|]] & Hin & Hw); simpl in Hw; [|done]. apply elem_of_range in Hin. case_decide; naive_solver.
  - intros (k & w & Hk & Hl & Hs & ->). exists (k, Some w). rewrite elem_of_range. split; [done|]. simpl.
    by rewrite decide_True.
Qed.

(** A vertex whose ID is asked for is a node of the partition. *)
Lemma asked_leaf ks l :
  lookupPath h root ks = Some l → ID h l ∈ (list_to_set nodeIDs : gset string) →
  Vertices (deref h l) = ∅ ∧ v_Name (deref h l) ∈ nodeSelector.
Proof.
  destruct recorded as ([_ Huniq] & _ & _ & _ & Hinfo).
  intros Hl (n & Hn & Hid)%elem_of_list_to_set%list_elem_of_omap.
  apply fmap_Some in Hid as (info & Hi & Hid). destruct (Hinfo _ _ Hi) as (ks' & l' & Hl' & Hleaf & Hname & Heq).
  assert (ks = ks') as <- by (eapply Huniq; [done|done|congruence]). simplify_eq. split; [done|].
  apply elem_of_list_to_set, list_elem_of_filter. by split; [eexists|].
Qed.

Local Abbreviation leadsTo := (leads (tree nt) (list_to_set nodeIDs)).
Hypothesis Hptree : getPartitionTree nt nodeIDs = Some ptree.

Lemma ptree_child p c :
  c ∈ default [] (ptree !! p) ↔ edge (tree nt) p c ∧ leadsTo c.
Proof. destruct (partition_lookup nodeIDs) as (pt & Hpt & Hspec). rewrite Hptree in Hpt. simplify_eq. apply Hspec. Qed.

Lemma ptree_nonempty p connects : ptree !! p = Some connects → connects ≠ [].
Proof.
  destruct (partition_lookup nodeIDs) as (pt & Hpt & Hspec). rewrite Hptree in Hpt. simplify_eq.
  intros Hp ->. destruct (Hspec p) as (_ & Hne & _). done.
Qed.

(** A vertex that leads to a node of the partition is that node or a switch
    of the pruned tree. *)
Lemma leads_cases ks l :
  lookupPath h root ks = Some l → leadsTo (ID h l) →
  (Vertices (deref h l) = ∅ ∧ v_Name (deref h l) ∈ nodeSelector) ∨ is_Some (ptree !! ID h l).
Proof.
  intros Hl (t & Ht & [->|(c & Hc & Hct)]%rtc_edge_inv); [left; by eapply asked_leaf|right].
  assert (c ∈ default [] (ptree !! ID h l)) as Hin by (apply ptree_child; split; [done|by exists t]).
  destruct (ptree !! ID h l); [eauto|]. by apply elem_of_nil in Hin.
Qed.

Lemma nonroot_ID ks k l : lookupPath h root (ks ++ [k]) = Some l → ID h l ≠ "".
Proof.
  destruct recorded as ([_ Huniq] & _). intros Hl Heq.
  assert (ks ++ [k] = []) as Hnil; [|by destruct ks].
  apply (Huniq _ _ l root); [done|done|]. unfold ID in *. by rewrite Hempty.
Qed.

(** Every switch of the pruned tree is written. *)
Lemma entryOf_switch ks l connects :
  lookupPath h root ks = Some l → ID h l ≠ "" → ptree !! ID h l = Some connects →
  entryOf (ID h l) = [MkSwitch (ID h l) (listOf (kidIDs (list_to_set connects) (range (Vertices (deref h l)))))
                        (listOf (kidNodes nodeSelector (range (Vertices (deref h l)))))].
Proof.
  intros Hl Hid Hp. destruct recorded as (_ & _ & Hrec & _). destruct (Hrec _ _ Hl) as [Hv _].
  unfold entryOf. rewrite Hp, Hv, decide_False by done. simpl. rewrite decide_False; [done|].
  intros [Hcs Hls]. destruct connects as [|c connects]; [by eapply ptree_nonempty|].
  assert (c ∈ default [] (ptree !! ID h l)) as Hin by (rewrite Hp; left).
  apply ptree_child in Hin as [Hc Hlead]. apply (edge_child _ _ _ Hl) in Hc as (w & Hk & Hw & Heq).
  rewrite <-Heq in Hlead. destruct (decide (Vertices (deref h w) = ∅)) as [Hleaf|Hnode].
  - destruct (leads_cases _ _ Hw Hlead) as [[_ Hsel]|[cs' Hcs']].
    + assert (v_Name (deref h w) ∈ kidNodes nodeSelector (range (Vertices (deref h l)))) as Hin
        by (apply elem_of_kidNodes; naive_solver). rewrite Hls in Hin. by apply elem_of_nil in Hin.
    + destruct cs' as [|c' cs']; [by eapply ptree_nonempty|].
      assert (c' ∈ default [] (ptree !! ID h w)) as Hc' by (rewrite Hcs'; left).
      apply ptree_child in Hc' as [Hc' _]. apply (edge_child _ _ _ Hw) in Hc' as (w' & Hw' & _).
      by rewrite Hleaf, lookup_empty in Hw'.
  - assert (ID h w ∈ kidIDs (list_to_set (c :: connects)) (range (Vertices (deref h l)))) as Hin.
    { apply elem_of_kidIDs. exists c, w. split_and!; [done|done| |done]. apply elem_of_list_to_set.
      unfold ID in Heq. rewrite Heq. left. }
    rewrite Hcs in Hin. by apply elem_of_nil in Hin.
Qed.

(** The walk over the pruned tree. *)
Lemma unit_walk :
  ∃ order t, bfs (bfsFuel ptree) (visitTree nt nodeSelector ptree) (MkTreeTopo [] ∅ ∅) ∅ [""] = Some (Ok t) ∧
    Switches t = concat (entryOf <$> order) ∧ NoDup order ∧ "" ∈ order ∧
    (∀ id, id ∈ order → ∃ ks l, lookupPath h root ks = Some l ∧ ID h l = id) ∧
    (∀ id c, id ∈ order → c ∈ default [] (ptree !! id) → c ∈ order).
Proof.
  destruct recorded as (_ & _ & Hrec & _).
  set (ok := λ id, ∃ ks l, lookupPath h root ks = Some l ∧ ID h l = id).
  assert (∀ id, ok id → is_Some (vertices nt !! id)) as Hok.
  { intros id (ks & l & Hl & <-). destruct (Hrec _ _ Hl) as [-> _]. eauto. }
  assert (is_Some (bfs (bfsFuel ptree) (visitTree nt nodeSelector ptree) (MkTreeTopo [] ∅ ∅) ∅ [""])) as [r Hr].
  { apply bfs_returns. intros t id t' next Hv. unfold visitTree in Hv.
    destruct (ptree !! id) as [connects|]; simpl; [|by simplify_eq].
    case_decide; [by simplify_eq|]. destruct (vertices nt !! id); [|done].
    destruct (foldl _ _ _) as [[? ?] ?]. by simplify_eq. }
  destruct (bfs_visits (visitTree nt nodeSelector ptree) ok visited (λ id, default [] (ptree !! id)))
    with (fuel := bfsFuel ptree) (st := MkTreeTopo [] ∅ ∅) (visited := ∅ : gset string) (queue := [""]) (r := r)
    as (order & -> & Hnd & Hin & Hall & Hcl).
  { intros t id Hid. by apply visitTree_ok, Hok. }
  { intros id c (ks & l & Hl & <-) [Hc _]%ptree_child.
    apply (edge_child _ _ _ Hl) in Hc as (w & _ & Hw & <-). unfold ok. eauto. }
  { done. }
  { constructor; [|constructor]. exists [], root. by split. }
  exists order, (foldl visited (MkTreeTopo [] ∅ ∅) order). split_and!; [done| |done| | |].
  - apply (foldl_prefix_inv (λ done t, Switches t = concat (entryOf <$> done))); [done|].
    intros l1 x l2 t -> Ht. destruct (visitTree_ok t x) as [_ ->].
    { apply Hok, Hin. set_solver. }
    rewrite Ht, fmap_app, concat_app. simpl. by rewrite app_nil_r.
  - destruct (Hall "") as [?|?]; [left|set_solver|done].
  - intros id Hid. by apply Hin.
  - intros id c Hid Hc. destruct (Hcl id c Hid Hc); [set_solver|done].
Qed.

(** Every vertex that leads to a node of the partition is visited. *)
Lemma walk_reaches (order : list string) ks l :
  "" ∈ order → (∀ id c, id ∈ order → c ∈ default [] (ptree !! id) → c ∈ order) →
  lookupPath h root ks = Some l → leadsTo (ID h l) → ID h l ∈ order.
Proof.
  intros Hstart Hcl. revert l. induction ks as [|k ks IH] using rev_ind; intros l Hl Hlead.
  { simpl in Hl. injection Hl as <-. unfold ID. by rewrite Hempty. }
  pose proof Hl as Hl0. rewrite lookupPath_snoc in Hl0. apply bind_Some in Hl0 as (p & Hp & Hk).
  assert (Vertices (deref h p) !! k = Some (Some l)) as Hedge.
  { unfold kidsOfLoc in Hk. by destruct (Vertices (deref h p) !! k) as [[?|]|]; simplify_eq/=. }
  assert (ID h l = k) as Hid by (by eapply Hkey).
  assert (edge (tree nt) (ID h p) (ID h l)) as Hpl by (rewrite Hid; apply (edge_child _ _ _ Hp); eauto).
  apply (Hcl (ID h p)).
  - apply IH; [done|]. destruct Hlead as (t & Ht & Hlt). exists t. split; [done|]. by eapply rtc_l.
  - by apply ptree_child.
Qed.

(** A node of the partition below a vertex. *)
Lemma asked_node n info ks k p l :
  n ∈ names → nt_nodeInfo nt !! n = Some info → lookupPath h root ks = Some p →
  lookupPath h root (ks ++ [k]) = Some l → ID h l = instanceID info →
  Vertices (deref h p) !! k = Some (Some l) ∧ Vertices (deref h l) = ∅ ∧ v_Name (deref h l) = n ∧
  n ∈ nodeSelector ∧ leadsTo (ID h p) ∧ is_Some (ptree !! ID h p).
Proof.
  intros Hn Hi Hp Hl Hid. destruct recorded as ([_ Huniq] & _ & _ & _ & Hinfo).
  destruct (Hinfo _ _ Hi) as (ks' & l' & Hl' & Hleaf & Hname & Heq).
  assert (ks ++ [k] = ks') as <- by (eapply Huniq; [done|done|congruence]). simplify_eq.
  assert (Vertices (deref h p) !! k = Some (Some l)) as Hedge.
  { rewrite lookupPath_snoc, Hp in Hl. simpl in Hl. unfold kidsOfLoc in Hl.
    by destruct (Vertices (deref h p) !! k) as [[?|]|]; simplify_eq/=. }
  assert (ID h l = k) as Hk by exact (Hkey _ _ _ _ Hp Hedge).
  assert (edge (tree nt) (ID h p) (ID h l)) as Hpl.
  { rewrite Hk. apply (edge_child _ _ _ Hp). exists l. by split_and!. }
  assert (leadsTo (ID h l)) as Hlead.
  { exists (ID h l). split; [|constructor]. apply elem_of_list_to_set, list_elem_of_omap.
    eexists. split; [exact Hn|]. rewrite Hi. simpl. by rewrite Hid. }
  split_and!; [done|done|done| | |].
  - apply elem_of_list_to_set, list_elem_of_filter. by split; [eexists|].
  - destruct Hlead as (t & Ht & Hlt). exists t. split; [done|]. by eapply rtc_l.
  - assert (ID h l ∈ default [] (ptree !! ID h p)) as Hin by (by apply ptree_child).
    destruct (ptree !! ID h p); [eauto|]. by apply elem_of_nil in Hin.
Qed.

(** The switches that the walk has written refer to one another. *)
Lemma written_closed (order : list string) sw :
  "" ∈ order → (∀ id c, id ∈ order → c ∈ default [] (ptree !! id) → c ∈ order) →
  (∀ id, id ∈ order → ∃ ks l, lookupPath h root ks = Some l ∧ ID h l = id) →
  sw ∈ concat (entryOf <$> order) →
  ∃ cs ls, sw_Children sw = listOf cs ∧ sw_Nodes sw = listOf ls ∧
    (∀ c, c ∈ cs → c ∈ sw_Name <$> concat (entryOf <$> order)) ∧
    (∀ n, n ∈ ls → n ∈ names ∧ is_Some (nt_nodeInfo nt !! n)).
Proof.
  intros Hstart Hcl Hord (es & Hes & Hsw)%elem_of_concat.
  apply list_elem_of_fmap in Hes as (id & -> & Hid). destruct (Hord _ Hid) as (ks & l & Hl & <-).
  destruct (ptree !! ID h l) as [connects|] eqn:Hp.
  2:{ unfold entryOf in Hsw. rewrite Hp in Hsw. by apply elem_of_nil in Hsw. }
  destruct (decide (ID h l = "")) as [He|He].
  { unfold entryOf in Hsw. destruct recorded as (_ & _ & Hrec & _). destruct (Hrec _ _ Hl) as [Hv _].
    rewrite Hp, Hv, decide_True in Hsw by done. by apply elem_of_nil in Hsw. }
  rewrite (entryOf_switch _ _ _ Hl He Hp) in Hsw. apply list_elem_of_singleton in Hsw as ->.
  do 2 eexists. split_and!; [done|done| |].
  - intros c (k & w & Hk & Hnode & Hin%elem_of_list_to_set & ->)%elem_of_kidIDs.
    assert (lookupPath h root (ks ++ [k]) = Some w) as Hw.
    { rewrite lookupPath_snoc, Hl. simpl. unfold kidsOfLoc. by rewrite Hk. }
    assert (v_ID (deref h w) ∈ order) as Hw' by (apply (Hcl _ _ Hid); by rewrite Hp).
    assert (leadsTo (ID h w)) as Hlead.
    { assert (ID h w ∈ default [] (ptree !! ID h l)) as Hc by (by rewrite Hp). by apply ptree_child in Hc as [_ ?]. }
    destruct (leads_cases _ _ Hw Hlead) as [[? _]|[connects' Hp']]; [done|].
    apply list_elem_of_fmap. eexists. split; [|apply elem_of_concat; eexists; split;
      [apply list_elem_of_fmap; by exists (ID h w)|]].
    2:{ rewrite (entryOf_switch _ _ _ Hw (nonroot_ID _ _ _ Hw) Hp'). left. }
    done.
  - intros n (k & w & _ & _ & Hsel & ->)%elem_of_kidNodes.
    apply elem_of_list_to_set, list_elem_of_filter in Hsel as [? ?]. done.
Qed.
End Tree.

(** ** The unit of a partition *)

Lemma entry_names `{Regexp} `{RangeOrder} g root cfg nt names ptree order :
  NewNetworkTopology (Some g) cfg = Some (Ok nt) → Tiers g = Some root →
  (∀ id, id ∈ order → ∃ ks l, lookupPath (g_heap g) root ks = Some l ∧ ID (g_heap g) l = id) →
  NoDup order → NoDup (sw_Name <$> concat (entryOf g nt names ptree <$> order)).
Proof.
  intros Hnt Hroot Hord Hnd. destruct (recorded g root cfg nt Hnt Hroot) as (_ & _ & Hrec & _).
  assert (∀ id sw, id ∈ order → sw ∈ entryOf g nt names ptree id → sw_Name sw = id) as Hname.
  { intros id sw Hid. unfold entryOf. destruct (Hord _ Hid) as (ks & l & Hl & <-).
    destruct (Hrec _ _ Hl) as [-> _]. destruct (ptree !! _); [|by intros ?%elem_of_nil].
    case_decide; [by intros ?%elem_of_nil|]. simpl. case_decide; [by intros ?%elem_of_nil|].
    by intros ->%list_elem_of_singleton. }
  clear Hord. induction order as [|id order IH]; csimpl; [constructor|].
  apply NoDup_cons in Hnd as [Hid Hnd]. rewrite fmap_app. apply NoDup_app. split_and!.
  - unfold entryOf. destruct (ptree !! id), (vertices nt !! id); simpl; try constructor.
    case_decide; [constructor|]. case_decide; [constructor|apply NoDup_singleton].
  - intros x (sw & -> & Hsw)%list_elem_of_fmap (sw' & Heq & (es & Hes & Hsw')%elem_of_concat)%list_elem_of_fmap.
    apply list_elem_of_fmap in Hes as (id' & -> & Hid'). apply Hid.
    rewrite <-(Hname id sw), Heq, (Hname id' sw'); [done|by right|done|by left|done].
  - apply IH; [done|]. intros id' sw Hid'. apply Hname. by right.
Qed.

(** C27: A partition with a tree topology gets a unit whenever its node list
    expands within the limit.  No switch of it is declared twice, every child
    switch that a switch names is declared, every node that a switch lists
    belongs to the partition, and every node of the partition that hangs below
    a switch is listed by that switch. *)
Theorem partition_unit_spec `{Regexp} `{RangeOrder} g root cfg nt topoName topoSpec names :
  NewNetworkTopology (Some g) cfg = Some (Ok nt) → Tiers g = Some root →
  v_ID (deref (g_heap g) root) = "" → keyed (g_heap g) root →
  Cluset.ExpandWithLimit (ts_Nodes topoSpec) = Ok names →
  ∃ tu, getTreeTopologyUnit nt topoName topoSpec = Some (Ok tu) ∧
    let sws := default [] (Switches <$> tu_Tree tu) in
    NoDup (sw_Name <$> sws) ∧
    (∀ sw, sw ∈ sws → ∃ cs ls, sw_Children sw = listOf cs ∧ sw_Nodes sw = listOf ls ∧
       (∀ c, c ∈ cs → c ∈ sw_Name <$> sws) ∧ (∀ n, n ∈ ls → n ∈ names ∧ is_Some (nt_nodeInfo nt !! n))) ∧
    (∀ n info ks k p l, n ∈ names → nt_nodeInfo nt !! n = Some info →
       lookupPath (g_heap g) root ks = Some p → ID (g_heap g) p ≠ "" →
       lookupPath (g_heap g) root (ks ++ [k]) = Some l → ID (g_heap g) l = instanceID info →
       ∃ sw ls, sw ∈ sws ∧ sw_Name sw = ID (g_heap g) p ∧ sw_Nodes sw = listOf ls ∧ n ∈ ls).
Proof.
  intros Hnt Hroot Hempty Hkey Hexp. unfold getTreeTopologyUnit. rewrite Hexp.
  set (nodeIDs := omap _ names).
  destruct (partition_lookup g root cfg nt Hnt Hroot Hempty Hkey nodeIDs) as (ptree & Hpt & _). rewrite Hpt.
  pose proof (asked_node g root cfg nt Hnt Hroot Hempty Hkey names ptree Hpt) as Hasked.
  case_decide as Hflat.
  { eexists. split; [done|]. simpl. split_and!; [constructor|by intros ? ?%elem_of_nil|].
    intros n info ks k p l Hn Hi Hp _ Hl Hid.
    destruct (Hasked n info ks k p l Hn Hi Hp Hl Hid) as (_ & _ & _ & _ & _ & [cs Hcs]).
    by rewrite Hflat, lookup_empty in Hcs. }
  destruct (unit_walk g root cfg nt Hnt Hroot Hempty Hkey names ptree Hpt)
    as (order & t & -> & Hsws & Hnd & Hstart & Hord & Hcl).
  eexists. split; [done|]. simpl. rewrite Hsws. split_and!.
  - by eapply entry_names.
  - intros sw. by eapply written_closed.
  - intros n info ks k p l Hn Hi Hp Hne Hl Hid.
    destruct (Hasked n info ks k p l Hn Hi Hp Hl Hid) as (Hk & Hleaf & Hname & Hsel & Hlead & [cs Hcs]).
    pose proof (walk_reaches g root cfg nt Hnt Hroot Hempty Hkey names ptree Hpt order ks p Hstart Hcl Hp Hlead) as Hin.
    eexists _, _. split_and!; [apply elem_of_concat; eexists; split; [apply list_elem_of_fmap; by exists (ID (g_heap g) p)|]| | |].
    + erewrite entryOf_switch; [left|done..].
    + done.
    + done.
    + apply elem_of_kidNodes. exists k, l. split_and!; [done|done|by rewrite Hname|done].
Qed.

(** ** Examples *)

Definition w_spec : TopologySpec := MkSpec TopologyTree [] None false ["Node[201,304]"].

Lemma partition_unit_spec_witness :
  ∃ tu, getTreeTopologyUnit (w_nt w_tree_cfg) "p" w_spec = Some (Ok tu) ∧
    NoDup (sw_Name <$> default [] (Switches <$> tu_Tree tu)) ∧
    ∃ sw ls, sw ∈ default [] (Switches <$> tu_Tree tu) ∧ sw_Name sw = "S2" ∧ sw_Nodes sw = listOf ls ∧ "Node201" ∈ ls.
Proof.
  destruct (partition_unit_spec ex_graph 0 w_tree_cfg (w_nt w_tree_cfg) "p" w_spec ["Node201"; "Node304"])
    as (tu & Htu & Hnd & _ & Hin).
  - vm_compute. reflexivity.
  - reflexivity.
  - vm_compute. reflexivity.
  - apply keyedb_spec. vm_compute. reflexivity.
  - vm_compute. reflexivity.
  - exists tu. split; [exact Htu|]. split; [exact Hnd|].
    apply (Hin "Node201" (MkNodeInfo "I21" "block001" (Some 0%Z) ["S1"; "S2"]) ["S1"; "S2"] "I21" 2%nat 4%nat).
    + apply (bool_decide_unpack _). vm_compute. exact I.
    + vm_compute. reflexivity.
    + vm_compute. reflexivity.
    + vm_compute. discriminate.
    + vm_compute. reflexivity.
    + vm_compute. reflexivity.
Defined.

(** A node outside the partition that shares a switch with one of its nodes
    gets a spec for the partition's topology; the unit does not list it. *)
Example tree_spec_outside_partition :
  match getTreeTopologyUnit (w_nt w_tree_cfg) "p" w_spec with
  | Some (Ok tu) => (Switches <$> tu_Tree tu, getTopologySpec "Node202" [tu])
  | _ => (None, "")
  end = (Some [MkSwitch "S1" "S[2-3]" ""; MkSwitch "S2" "" "Node201"; MkSwitch "S3" "" "Node304"], "p:S1:S2").
Proof. vm_compute. reflexivity. Qed.

End Partition.
