(* ===== verification/Slurm.v ===== *)
(** * The Slurm engine: [pkg/engines/slurm/slurm.go]

    The engine checks the parameters of a request, asks [scontrol] for the
    nodes of the partitions, and returns or installs the topology file.
    Commands, the file system and the YAML encoder are parameters. *)

From S2P Require Import Prelude GoStrings Cluset Domain BlockTree Topology Network Output.
Open Scope Z_scope.

Module Slurm.
Import Topo Network Output.

(** ** Parameters *)

Section Data.
Context `{Regexp}.

Record BaseParams := MkBase {
  p_Plugin : string;
  p_BlockSizes : list Z;
  p_BlockName : option BlockNameConfig
}.
(** [Nodes] is [None] when the list is nil. *)
Record Topology := MkTopology {
  Partition : string;
  s_Plugin : string;
  s_BlockSizes : list Z;
  s_BlockName : option BlockNameConfig;
  s_Nodes : option (list string);
  s_Default : bool
}.
Record Params := MkParams {
  p_base : BaseParams;
  p_Topologies : gmap string Topology;
  TopoConfigPath : string;
  Reconfigure : bool
}.
End Data.

(** ** Block sizes *)

Definition maxBlockSizesLen : Z := 20.
Definition maxBlockSizeValue : Z := 65536.

Inductive sizeErr :=
| ErrTooMany (n : Z)
| ErrNotPositive (i : nat) (v : Z)
| ErrTooLarge (i : nat) (v : Z)
| ErrNotGreater (i : nat) (v prev : Z)
| ErrNotMultiple (i : nat) (v prev : Z)
| ErrNotPowerOfTwo (i : nat) (v prev : Z).

(** The checks of one entry; [prev] is the entry before. *)
Definition checkSize (i : nat) (prev cur : Z) : result sizeErr Z :=
  if cur <=? 0 then Err (ErrNotPositive i cur)
  else if maxBlockSizeValue <? cur then Err (ErrTooLarge i cur)
  else if cur <=? prev then Err (ErrNotGreater i cur prev)
  else if negb (Z.rem cur prev =? 0) then Err (ErrNotMultiple i cur prev)
  else let ratio := Z.quot cur prev in
       if negb (Z.land ratio (ratio - 1) =? 0) then Err (ErrNotPowerOfTwo i cur prev)
       else Ok cur.

Fixpoint checkSizes (i : nat) (prev : Z) (l : list Z) : result sizeErr unit :=
  match l with
  | [] => Ok ()
  | cur :: l => prev ← checkSize i prev cur; checkSizes (S i) prev l
  end.

Definition validateBlockSizes (blockSizes : list Z) : result sizeErr unit :=
  match blockSizes with
  | [] => Ok ()
  | first :: rest =>
      if maxBlockSizesLen <? Z.of_nat (length blockSizes) then Err (ErrTooMany (Z.of_nat (length blockSizes)))
      else if first <=? 0 then Err (ErrNotPositive 0 first)
      else if maxBlockSizeValue <? first then Err (ErrTooLarge 0 first)
      else checkSizes 1 first rest
  end.

(** ** Output of [scontrol] *)

(** [\s] of Go's regular expressions. *)
Definition re_space (c : ascii) : bool :=
  bool_decide (c = "009"%char) || bool_decide (c = "010"%char) || bool_decide (c = "012"%char) ||
  bool_decide (c = "013"%char) || bool_decide (c = " "%char).

Fixpoint takeNonSpace (s : string) : string :=
  match s with
  | "" => ""
  | String c s => if re_space c then "" else String c (takeNonSpace s)
  end.

(** [\sNodes=([^\s]+)]: the submatch of the leftmost match. *)
Fixpoint partitionNodesRe (s : string) : option string :=
  match s with
  | "" => None
  | String c rest =>
      if re_space c then
        match cut_prefix "Nodes=" rest with
        | Some r => if decide (takeNonSpace r = "") then partitionNodesRe rest
                    else Some (takeNonSpace r)
        | None => partitionNodesRe rest
        end
      else partitionNodesRe rest
  end.

Inductive slurmErr :=
| ErrNoPartition
| ErrNoPartitionNodes (partition : string)
| ErrExec (msg : string)
| ErrScan.

(** [None]: the expansion of the list does not return. *)
Definition parsePartitionNodes (partition data : string) : option (result slurmErr (list string)) :=
  match partitionNodesRe data with
  | Some nodes =>
      if decide (nodes = "NONE") then Some (Ok [])
      else match Cluset.ExpandList nodes with
           | Some l => Some (Ok (Cluset.Compact l))
           | None => None
           end
  | None => Some (Err (ErrNoPartitionNodes partition))
  end.

Definition parseNodeList (stdout : string) : result slurmErr (list string) :=
  match scan_lines stdout with
  | None => Err ErrScan
  | Some ls =>
      Ok (foldl (λ nodes l,
         match head (split " " l) with
         | Some w => match cut_prefix "NodeName=" w with Some n => nodes ++ [n] | None => nodes end
         | None => nodes
         end) [] ls)
  end.

Section Engine.
Context `{Regexp} `{RangeOrder}.
(** [scontrol] with its arguments: the output or an error. *)
Context (scontrol : list string → result string string).

Definition GetNodeList : result slurmErr (list string) :=
  match scontrol ["show"; "nodes"; "-o"] with
  | Err e => Err (ErrExec e)
  | Ok stdout => parseNodeList stdout
  end.

(** [GetPartitionNodes] with the finder of the engine: the shell command, or
    the one another engine passes. *)
Definition getPartitionNodes (partition : string) : result string string :=
  scontrol ["show"; "partition"; partition].

Definition GetPartitionNodes (finder : string → result string string) (partition : string) :
    option (result slurmErr (list string)) :=
  if decide (partition = "") then Some (Err ErrNoPartition)
  else match finder partition with
       | Err e => Some (Err (ErrExec e))
       | Ok out => parsePartitionNodes partition out
       end.

(** ** Configuration *)

Inductive engineErr :=
| EngSizes (topo : option string) (e : sizeErr)
| EngConfig (e : validateErr)
| EngNodes (e : slurmErr)
| EngNew (e : newErr)
| EngGen (e : genErr)
| EngFile (msg : string)
| EngReconfigure (msg : string)
| EngEnvironment
| EngMapper (msg : string).

Definition eng_status (e : engineErr) : Z :=
  match e with
  | EngSizes _ _ | EngConfig _ | EngNew _ | EngEnvironment => 400
  | EngGen e => status e
  | EngNodes _ | EngFile _ | EngReconfigure _ | EngMapper _ => 500
  end.

(** The nodes of a partition topology, [None] if they are left unset. *)
Definition specNodes (finder : string → result string string) (sect : Topology) :
    option (result slurmErr (list string)) :=
  match s_Nodes sect with
  | Some nodes => Some (Ok nodes)
  | None =>
      if s_Default sect && bool_decide (s_Plugin sect = TopologyFlat) && bool_decide (Partition sect = "")
      then Some (Ok [])
      else GetPartitionNodes finder (Partition sect)
  end.

Definition addSpec (finder : string → result string string)
    (acc : option (result engineErr (gmap string TopologySpec))) (ts : string * Topology) :
    option (result engineErr (gmap string TopologySpec)) :=
  match acc with
  | Some (Ok specs) =>
      let '(topo, sect) := ts in
      match validateBlockSizes (s_BlockSizes sect) with
      | Err e => Some (Err (EngSizes (Some topo) e))
      | Ok _ =>
          match ValidateBlockNameConfig (Some topo) (s_BlockName sect) with
          | Err e => Some (Err (EngConfig e))
          | Ok bn =>
              match specNodes finder sect with
              | None => None
              | Some (Err e) => Some (Err (EngNodes e))
              | Some (Ok nodes) =>
                  Some (Ok (<[topo := MkSpec (s_Plugin sect) (s_BlockSizes sect) bn (s_Default sect) nodes]>
                              specs))
              end
          end
      end
  | _ => acc
  end.

Definition GetTranslateConfig (params : BaseParams) (topologies : gmap string Topology)
    (finder : string → result string string) : option (result engineErr Config) :=
  match validateBlockSizes (p_BlockSizes params) with
  | Err e => Some (Err (EngSizes None e))
  | Ok _ =>
      match ValidateBlockNameConfig None (p_BlockName params) with
      | Err e => Some (Err (EngConfig e))
      | Ok bn =>
          match foldl (addSpec finder) (Some (Ok ∅)) (range topologies) with
          | None => None
          | Some (Err e) => Some (Err e)
          | Some (Ok specs) => Some (Ok (MkConfig (p_Plugin params) (p_BlockSizes params) bn specs))
          end
      end
  end.

(** ** Output *)

(** [yaml.Marshal], and [files.Create] with path and data: the error, if any. *)
Context (Marshal : list TopologyUnit → option string) (Create : string → string → option string).

Definition TopologyHeader (plugin : string) : string :=
  newline +:+ "###############################################################" +:+ newline +:+
  "# Slurm's network topology configuration file for use with the" +:+ newline +:+
  "# " +:+ plugin +:+ " plugin" +:+ newline +:+
  "###############################################################" +:+ newline.

Definition reconfigure : option string :=
  match scontrol ["reconfigure"] with Ok _ => None | Err e => Some e end.

Definition Generate (nt : NetworkTopology) : option (result genErr string) :=
  snd <$> GenerateTopologyConfig Marshal nt false.

(** The legacy default plugin. *)
Definition defaultPlugin (params : Params) : BaseParams :=
  let base := p_base params in
  if bool_decide (p_Plugin base = "") && bool_decide (p_Topologies params = ∅)
  then MkBase TopologyTree (p_BlockSizes base) (p_BlockName base) else base.

Definition GenerateOutputParams (graph : option Graph) (params : Params) : option (result engineErr string) :=
  let base := defaultPlugin params in
  rcfg ← GetTranslateConfig base (p_Topologies params) getPartitionNodes;
  match rcfg with
  | Err e => Some (Err e)
  | Ok cfg =>
      rnt ← NewNetworkTopology graph cfg;
      match rnt with
      | Err e => Some (Err (EngNew e))
      | Ok nt =>
          rout ← Generate nt;
          match rout with
          | Err e => Some (Err (EngGen e))
          | Ok out =>
              if decide (TopoConfigPath params = "") then Some (Ok out)
              else match Create (TopoConfigPath params) (TopologyHeader (p_Plugin base) +:+ out) with
                   | Some msg => Some (Err (EngFile msg))
                   | None =>
                       if Reconfigure params then
                         match reconfigure with
                         | Some msg => Some (Err (EngReconfigure msg))
                         | None => Some (Ok ("OK" +:+ newline))
                         end
                       else Some (Ok ("OK" +:+ newline))
                   end
          end
      end
  end.

(** [environment.(instanceMapper)]: [None] when the provider has no mapper. *)
Definition ResolveComputeInstances (instances : list ComputeInstances)
    (mapper : option (list string → result string (list ComputeInstances))) :
    result engineErr (list ComputeInstances) :=
  if decide (instances = []) then
    match mapper with
    | None => Err EngEnvironment
    | Some getNodeInstances =>
        match GetNodeList with
        | Err e => Err (EngNodes e)
        | Ok nodes =>
            if decide (nodes = []) then Ok []
            else match getNodeInstances nodes with
                 | Err e => Err (EngMapper e)
                 | Ok cis => Ok cis
                 end
        end
    end
  else Ok instances.
End Engine.

Example partition_ex :
  parsePartitionNodes "p" (" AllowNodes=ALL" +:+ newline +:+ "  Nodes=n[1-3],m" +:+ newline) =
    Some (Ok ["m"; "n[1-3]"]) ∧
  parsePartitionNodes "p" " Nodes=NONE" = Some (Ok []) ∧
  parsePartitionNodes "p" " Nodes= " = Some (Err (ErrNoPartitionNodes "p")).
Proof. vm_compute. done. Qed.

Example nodes_ex :
  parseNodeList ("NodeName=a Arch=x" +:+ newline +:+ "NodeName=b" +:+ newline +:+ "junk") = Ok ["a"; "b"].
Proof. vm_compute. reflexivity. Qed.

(** ** Valid block sizes *)

(** [r & (r-1) == 0] tests for a power of two. *)
Lemma land_pred_pow2 r : 0 < r → (Z.land r (r - 1) = 0 ↔ ∃ k, 0 ≤ k ∧ r = 2 ^ k).
Proof.
  intros Hr. assert (0 ≤ r) as H0 by lia. revert Hr.
  revert r H0. refine (Z_lt_induction (λ r, 0 < r → (Z.land r (r - 1) = 0 ↔ ∃ k, 0 ≤ k ∧ r = 2 ^ k)) _).
  intros r IH Hr.
  destruct (Z.Even_or_Odd r) as [[q Hq]|[q Hq]]; subst r.
  - assert (Z.land (2 * q) (2 * q - 1) = 2 * Z.land q (q - 1)) as ->.
    { apply Z.bits_inj'. intros n Hn. rewrite Z.land_spec.
      destruct (decide (n = 0)) as [->|].
      - by rewrite !Z.testbit_even_0.
      - replace n with (Z.succ (n - 1)) by lia. rewrite !Z.testbit_even_succ by lia.
        rewrite Z.land_spec. replace (2 * q - 1) with (2 * (q - 1) + 1) by lia.
        by rewrite Z.testbit_odd_succ by lia. }
    specialize (IH q ltac:(lia) ltac:(lia)). split.
    + intros Hz. destruct IH as [IH _]. destruct IH as (k & Hk & ->); [lia|].
      exists (k + 1). rewrite Z.pow_add_r by lia. lia.
    + intros (k & Hk & Heq). destruct (decide (k = 0)) as [->|]; [simpl in Heq; lia|].
      destruct IH as [_ IH]. rewrite IH; [done|]. exists (k - 1). split; [lia|].
      replace k with (k - 1 + 1) in Heq by lia. rewrite Z.pow_add_r in Heq by lia. lia.
  - replace (2 * q + 1 - 1) with (2 * q) by lia.
    assert (Z.land (2 * q + 1) (2 * q) = 2 * q) as ->.
    { apply Z.bits_inj'. intros n Hn. rewrite Z.land_spec. destruct (decide (n = 0)) as [->|].
      - rewrite Z.testbit_even_0. by rewrite andb_false_r.
      - replace n with (Z.succ (n - 1)) by lia. rewrite Z.testbit_even_succ, Z.testbit_odd_succ by lia.
        apply andb_diag. }
    split.
    + intros. exists 0. simpl. lia.
    + intros (k & Hk & Heq). destruct (decide (k = 0)) as [->|]; [simpl in Heq; lia|].
      replace k with (k - 1 + 1) in Heq by lia. rewrite Z.pow_add_r in Heq by lia. lia.
Qed.

(** Each entry is the one before times a power of two, at least two. *)
Fixpoint doubles (prev : Z) (l : list Z) : Prop :=
  match l with
  | [] => True
  | cur :: l => (∃ k, 1 ≤ k ∧ cur = prev * 2 ^ k) ∧ doubles cur l
  end.
Definition validSizes (l : list Z) : Prop :=
  Z.of_nat (length l) ≤ maxBlockSizesLen ∧ Forall (λ x, 0 < x ≤ maxBlockSizeValue) l ∧
  match l with [] => True | first :: rest => doubles first rest end.

Lemma checkSize_spec i prev cur r :
  0 < prev → checkSize i prev cur = Ok r ↔
  r = cur ∧ 0 < cur ≤ maxBlockSizeValue ∧ ∃ k, 1 ≤ k ∧ cur = prev * 2 ^ k.
Proof.
  intros Hp. unfold checkSize, maxBlockSizeValue.
  assert (∀ k, 1 ≤ k → 2 ≤ 2 ^ k) as Hpow.
  { intros k Hk. replace k with (k - 1 + 1) by lia. rewrite Z.pow_add_r by lia.
    pose proof (Z.pow_pos_nonneg 2 (k - 1)). lia. }
  destruct (Z.leb_spec cur 0); [split; [done|lia]|]. destruct (Z.ltb_spec 65536 cur); [split; [done|lia]|].
  destruct (Z.leb_spec cur prev).
  { split; [done|]. intros (_ & _ & k & Hk & ->). specialize (Hpow k Hk). nia. }
  destruct (Z.eqb_spec (Z.rem cur prev) 0) as [Hrem|Hrem]; simpl.
  2:{ split; [done|]. intros (_ & _ & k & Hk & ->). destruct Hrem.
      rewrite Z.mul_comm. apply Z.rem_mul. lia. }
  assert (cur = prev * Z.quot cur prev) as Hcur by (pose proof (Z.quot_rem' cur prev); lia).
  set (q := Z.quot cur prev) in *. assert (1 < q) as Hq by nia.
  pose proof (land_pred_pow2 q ltac:(lia)) as Hland.
  destruct (Z.eqb_spec (Z.land q (q - 1)) 0) as [Hz|Hz]; simpl.
  - split; [|by intros [-> _]]. intros [= <-]. split_and!; [done|lia|lia|].
    destruct (proj1 Hland Hz) as (k & Hk & Hqk). exists k. rewrite <-Hqk. split; [|done].
    destruct (decide (k = 0)) as [->|]; [simpl in Hqk; lia|lia].
  - split; [done|]. intros (_ & _ & k & Hk & Heq). destruct Hz. apply Hland. exists k. split; [lia|].
    rewrite Heq in Hcur. apply Z.mul_cancel_l in Hcur; [done|lia].
Qed.

Lemma checkSizes_spec l i prev :
  0 < prev → checkSizes i prev l = Ok () ↔ Forall (λ x, 0 < x ≤ maxBlockSizeValue) l ∧ doubles prev l.
Proof.
  revert i prev. induction l as [|cur l IH]; intros i prev Hp; simpl; [by repeat split|].
  rewrite Forall_cons. pose proof (checkSize_spec i prev cur) as Hc.
  destruct (checkSize i prev cur) as [r|e]; simpl.
  - destruct (proj1 (Hc r Hp) eq_refl) as (-> & Hr & Hk). rewrite IH by lia. tauto.
  - split; [done|]. intros [[Hr _] [Hk _]].
    assert (Err e = Ok cur) by (by apply (Hc cur Hp)). done.
Qed.

Lemma validateBlockSizes_spec l : validateBlockSizes l = Ok () ↔ validSizes l.
Proof.
  unfold validSizes, validateBlockSizes. destruct l as [|first rest]; [by repeat split|].
  rewrite Forall_cons. unfold maxBlockSizesLen, maxBlockSizeValue at 1 2.
  destruct (Z.ltb_spec 20 (Z.of_nat (length (first :: rest)))); [split; [done|lia]|].
  destruct (Z.leb_spec first 0); [split; [done|lia]|].
  destruct (Z.ltb_spec 65536 first); [split; [done|lia]|].
  rewrite checkSizes_spec by done. unfold maxBlockSizeValue. tauto.
Qed.

(** [validateBlockSizes] accepts exactly the lists of at most 20 sizes
    between 1 and 65536 in which each size is the one before times a power of
    two that is at least two. *)
Theorem validate_block_sizes_spec l : validateBlockSizes l = Ok () ↔ validSizes l.
Proof. apply validateBlockSizes_spec. Qed.

Section Config.
Context `{Regexp} `{RangeOrder}.

Lemma addSpec_sizes finder acc ts specs' :
  (∀ specs, acc = Some (Ok specs) → map_Forall (λ _ s, validSizes (ts_BlockSizes s)) specs) →
  addSpec finder acc ts = Some (Ok specs') → map_Forall (λ _ s, validSizes (ts_BlockSizes s)) specs'.
Proof.
  intros Hacc. unfold addSpec. destruct acc as [[specs|e]|]; [|done|done]. destruct ts as [topo sect].
  destruct (validateBlockSizes (s_BlockSizes sect)) as [[]|] eqn:Hv; [|done].
  destruct (ValidateBlockNameConfig _ _); [|done]. destruct (specNodes finder sect) as [[nodes|]|]; [|done|done].
  intros [= <-]. apply map_Forall_insert_2; [|by apply Hacc]. simpl. by apply validateBlockSizes_spec.
Qed.

(** Every configuration that [GetTranslateConfig] returns has valid block
    sizes, cluster-wide and per partition: the sizes handed to the block tree
    are positive, increasing and bounded. *)
Theorem translate_config_sizes params topologies finder cfg :
  GetTranslateConfig params topologies finder = Some (Ok cfg) →
  validSizes (BlockSizes cfg) ∧ map_Forall (λ _ s, validSizes (ts_BlockSizes s)) (Topologies cfg).
Proof.
  unfold GetTranslateConfig. destruct (validateBlockSizes (p_BlockSizes params)) as [[]|] eqn:Hv; [|done].
  destruct (ValidateBlockNameConfig _ _); [|done].
  destruct (foldl _ _ _) as [[specs|]|] eqn:Hf; [|done|done]. intros [= <-]. simpl.
  split; [by apply validateBlockSizes_spec|]. revert specs Hf.
  apply (foldl_inv (λ acc, ∀ specs, acc = Some (Ok specs) →
    map_Forall (λ _ s, validSizes (ts_BlockSizes s)) specs)).
  - intros specs [= <-]. apply map_Forall_empty.
  - intros acc ts _ IH specs' Hs. by eapply addSpec_sizes.
Qed.
End Config.

Lemma translate_config_sizes_witness :
  ∃ cfg, GetTranslateConfig (MkBase "" [] None)
      {["t" := MkTopology "part" TopologyBlock [4; 16] None None false]}
      (λ _, Ok " Nodes=n[1-4]") = Some (Ok cfg) ∧
    (ts_Nodes <$> Topologies cfg !! "t") = Some ["n[1-4]"] ∧
    map_Forall (λ _ s, validSizes (ts_BlockSizes s)) (Topologies cfg).
Proof.
  eexists. split; [vm_compute; reflexivity|]. split; [vm_compute; reflexivity|].
  apply (translate_config_sizes (MkBase "" [] None)
    {["t" := MkTopology "part" TopologyBlock [4; 16] None None false]} (λ _, Ok " Nodes=n[1-4]")).
  vm_compute. reflexivity.
Defined.

End Slurm.
