(* ===== verification/Request.v ===== *)
(** * Topology requests: [pkg/topology/request.go]

    Request payloads, their log form and their hash.  Values of the JSON
    object type are abstract: the code prints them with [%v] and encodes them
    with [encoding/json]. *)

From S2P Require Import Prelude GoStrings Topology.
Open Scope Z_scope.

Module Requests.

Section Data.
Context {any : Type}.

(** A nil map is [None]. *)
Abbreviation params := (option (gmap string any)).

Record Provider := MkProvider { pr_Name : string; Creds : params; pr_Params : params }.
Record Engine := MkEngine { en_Name : string; en_Params : params }.
Record Request := MkRequest {
  r_Provider : Provider;
  r_Engine : Engine;
  r_Nodes : list ComputeInstances
}.
Definition NewRequest (prv : Provider) (eng : Engine) : Request := MkRequest prv eng [].
End Data.
Arguments Provider : clear implicits.
Arguments Engine : clear implicits.
Arguments Request : clear implicits.

(** ** Log form *)

Definition cr : ascii := "013"%char.

(** [strings.ReplaceAll] of one byte. *)
Fixpoint replace_chr (c : ascii) (r s : string) : string :=
  match s with
  | "" => ""
  | String x s => if bool_decide (x = c) then r +:+ replace_chr c r s else String x (replace_chr c r s)
  end.

Definition escapeLineBreaks (s : string) : string :=
  replace_chr cr "\r" (replace_chr nl "\n" s).

Definition spacer (value : string) : string :=
  if decide (value = "") then "" else " " +:+ value.

(** [show]: the text of [%v]. *)
Definition map2string {T} (show : T → string) (m : option (gmap string T)) (prefix : string)
    (hide : bool) (suffix : string) : string :=
  let m := default ∅ m in
  escapeLineBreaks prefix +:+ ": [" +:+
  join " " ((λ key,
    if hide then escapeLineBreaks key +:+ ":***"
    else escapeLineBreaks (key +:+ ":" +:+ from_option show "" (m !! key))) <$> sorted_keys m) +:+
  "]" +:+ suffix.

Section String.
Context {any : Type} (show : any → string).

Definition Request_String (p : Request any) : string :=
  "TopologyRequest:" +:+ newline +:+
  "  Provider:" +:+ spacer (escapeLineBreaks (pr_Name (r_Provider p))) +:+ newline +:+
  map2string show (Creds (r_Provider p)) "  Credentials" true newline +:+
  map2string show (pr_Params (r_Provider p)) "  Parameters" false newline +:+
  "  Engine:" +:+ spacer (escapeLineBreaks (en_Name (r_Engine p))) +:+ newline +:+
  map2string show (en_Params (r_Engine p)) "  Parameters" false newline +:+
  "  Nodes:" +:+
  foldl (λ sb nodes,
    sb +:+ " " +:+ map2string id (Some (ci_Instances nodes)) (Region nodes) false "") "" (r_Nodes p) +:+
  newline.
End String.

(** ** Node names *)

Section Nodes.
Context `{RangeOrder}.

Definition GetNodeNameList (cis : list ComputeInstances) : list string :=
  foldl (λ nodes ci, nodes ++ (range (ci_Instances ci)).*2) [] cis.

Definition GetNodeNameMap (cis : list ComputeInstances) : gset string :=
  foldl (λ nodes ci, foldl (λ nodes kv, {[kv.2]} ∪ nodes) nodes (range (ci_Instances ci))) ∅ cis.
End Nodes.

(** ** Hash *)

Definition fnv_offset : Z := 14695981039346656037.
Definition fnv_prime : Z := 1099511628211.

(** FNV-1a, 64 bits. *)
Fixpoint fnv64a (h : Z) (data : string) : Z :=
  match data with
  | "" => h
  | String c data => fnv64a (Z.lxor h (chr_code c) * fnv_prime mod 2 ^ 64) data
  end.

Definition hex_digit (d : Z) : ascii :=
  ascii_of_nat (Z.to_nat (if d <? 10 then 48 + d else 87 + d)).
Fixpoint hex_go (fuel : nat) (z : Z) (acc : string) : string :=
  match fuel with
  | O => acc
  | S fuel =>
      let acc := String (hex_digit (z mod 16)) acc in
      if z <? 16 then acc else hex_go fuel (z / 16) acc
  end.
(** [%x] of a 64-bit unsigned integer. *)
Definition hex (z : Z) : string := hex_go 16 z "".

Section Hash.
Context {any : Type}.
(** [json.Marshal] of a request, [None] for an error. *)
Context (Marshal : Request any → option string).
(** [json.Unmarshal] into a zero request. *)
Context (Unmarshal : string → result string (Request any)).

Definition GetHash (obj : Request any) : option string :=
  data ← Marshal obj; Some (hex (fnv64a fnv_offset data)).

Definition Request_Hash (p : Request any) : option string :=
  GetHash (MkRequest (MkProvider (pr_Name (r_Provider p)) None (pr_Params (r_Provider p)))
                     (MkEngine (en_Name (r_Engine p)) (en_Params (r_Engine p))) []).

Definition GetTopologyRequest (body : string) : result string (Request any) :=
  if decide (body = "") then Ok (MkRequest (MkProvider "" None None) (MkEngine "" None) [])
  else map_err (λ e, "failed to parse payload: " +:+ e) (Unmarshal body).
End Hash.

(** The published test vector of FNV-1a. *)
Example fnv_ex : hex (fnv64a fnv_offset "foobar") = "85944171f73967e8".
Proof. vm_compute. reflexivity. Qed.

(** ** One line per field *)

Fixpoint count_chr (c : ascii) (s : string) : nat :=
  match s with "" => 0 | String x s => (if bool_decide (x = c) then 1 else 0) + count_chr c s end.

Lemma count_chr_app c a b : count_chr c (a +:+ b) = (count_chr c a + count_chr c b)%nat.
Proof. induction a as [|x a IH]; simpl; [done|]. rewrite IH. lia. Qed.

Lemma count_replace_eq c r s : count_chr c r = 0%nat → count_chr c (replace_chr c r s) = 0%nat.
Proof.
  intros Hr. induction s as [|x s IH]; simpl; [done|]. case_bool_decide as Hx; simpl.
  - rewrite count_chr_app. lia.
  - rewrite IH. by rewrite bool_decide_eq_false_2.
Qed.
Lemma count_replace_other c c' r s :
  count_chr c r = 0%nat → count_chr c s = 0%nat → count_chr c (replace_chr c' r s) = 0%nat.
Proof.
  intros Hr. induction s as [|x s IH]; simpl; [done|]. intros Hs. destruct (bool_decide (x = c')); simpl.
  - rewrite count_chr_app. lia.
  - rewrite IH by lia. lia.
Qed.

Definition breaks (s : string) : nat := (count_chr nl s + count_chr cr s)%nat.

Lemma breaks_app a b : breaks (a +:+ b) = (breaks a + breaks b)%nat.
Proof. unfold breaks. rewrite !count_chr_app. lia. Qed.

Lemma breaks_escape s : breaks (escapeLineBreaks s) = 0%nat.
Proof.
  unfold breaks, escapeLineBreaks. rewrite (count_replace_eq cr) by done.
  rewrite count_replace_other; [done|done|]. by apply count_replace_eq.
Qed.

Lemma breaks_spacer s : breaks (spacer (escapeLineBreaks s)) = 0%nat.
Proof. unfold spacer. case_decide; [done|]. by rewrite breaks_app, breaks_escape. Qed.

Lemma breaks_join l : Forall (λ s, breaks s = 0%nat) l → breaks (join " " l) = 0%nat.
Proof.
  induction 1 as [|x l Hx Hl IH]; [done|]. destruct l as [|y l]; [done|].
  change (join " " (x :: y :: l)) with (x +:+ " " +:+ join " " (y :: l)).
  rewrite !breaks_app, Hx, IH. done.
Qed.

Lemma breaks_map2string {T} (show : T → string) m prefix hide suffix :
  breaks (map2string show m prefix hide suffix) = breaks suffix.
Proof.
  unfold map2string. rewrite !breaks_app, breaks_escape, breaks_join; [done|].
  apply Forall_fmap, Forall_forall. intros key _. simpl. destruct hide; [|apply breaks_escape].
  by rewrite breaks_app, breaks_escape.
Qed.

Lemma map2string_hidden {T} (show : T → string) (m m' : gmap string T) prefix suffix :
  dom m = dom m' →
  map2string show (Some m) prefix true suffix = map2string show (Some m') prefix true suffix.
Proof.
  intros Hd. unfold map2string. simpl. rewrite (sorted_keys_same m m'); [done|].
  intros k. by rewrite <-!elem_of_dom, Hd.
Qed.

(** Whatever a client sends, the log form of a request has exactly seven
    line breaks, those of its own fields, so a request cannot forge a log
    line; and it does not depend on the values of the credentials. *)
Theorem request_log_safe {any} (show : any → string) (p : Request any) (creds : gmap string any) :
  breaks (Request_String show p) = 7%nat ∧
  ∀ creds', dom creds = dom creds' →
    let with_creds c := MkRequest (MkProvider (pr_Name (r_Provider p)) (Some c) (pr_Params (r_Provider p)))
                          (r_Engine p) (r_Nodes p) in
    Request_String show (with_creds creds) = Request_String show (with_creds creds').
Proof.
  split.
  - unfold Request_String. rewrite !breaks_app, !breaks_spacer, !breaks_map2string.
    assert (breaks (foldl (λ sb nodes, sb +:+ " " +:+
      map2string id (Some (ci_Instances nodes)) (Region nodes) false "") "" (r_Nodes p)) = 0%nat) as ->; [|done].
    apply (foldl_inv (λ sb, breaks sb = 0%nat)); [done|]. intros sb ci _ Hsb.
    by rewrite !breaks_app, Hsb, breaks_map2string.
  - intros creds' Hd with_creds. unfold Request_String, with_creds.
    cbn [r_Provider Creds pr_Name pr_Params r_Engine r_Nodes].
    by rewrite (map2string_hidden show creds creds' _ _ Hd).
Qed.

Example request_string_ex :
  Request_String id (MkRequest (MkProvider ("aws" +:+ newline +:+ "fake") (Some {["key" := "secret"]}) None)
      (MkEngine "slurm" None) []) =
  "TopologyRequest:" +:+ newline +:+ "  Provider: aws\nfake" +:+ newline +:+ "  Credentials: [key:***]" +:+
  newline +:+ "  Parameters: []" +:+ newline +:+ "  Engine: slurm" +:+ newline +:+ "  Parameters: []" +:+
  newline +:+ "  Nodes:" +:+ newline.
Proof. vm_compute. reflexivity. Qed.

End Requests.
