(* ===== verification/Infiniband.v ===== *)
(** * InfiniBand fabrics: [pkg/ib/ib.go]

    The output of [ibnetdiscover] lists the switches of a fabric with what
    their ports are connected to, and the host adapters.  The switches that
    connect to nodes of the cluster are the leaves of a tree that is completed
    level by level; switches with the same children are then merged. *)

From S2P Require Import Prelude GoStrings GoNet Domain Topology Merger Request Slurm.

Module Infiniband.
Import Domain Topo Merging Requests.

(** ** Lines of the listing

    The regular expressions of the package.  In each of them a repeated class
    is followed by a character outside the class, so that taking as many
    characters as possible finds the match. *)

Definition skip1 (f : ascii → bool) (s : string) : option string :=
  let '(a, rest) := span_chr f s in if decide (a = "") then None else Some rest.

Definition quote : ascii := "034"%char.
Definition not_quote (c : ascii) : bool := negb (bool_decide (c = quote)).

(** A quoted string of at least one character, and what follows it. *)
Definition quoted (s : string) : option (string * string) :=
  match s with
  | String q s =>
      if negb (bool_decide (q = quote)) then None
      else match span_chr not_quote s with
           | ("", _) => None
           | (_, "") => None
           | (name, String _ rest) => Some (name, rest)
           end
  | "" => None
  end.

(** Blanks, [#], a blank and a quoted string: the comment of a line. *)
Definition comment (s : string) : option string :=
  match skip1 Slurm.re_space s with
  | None => None
  | Some s => match cut_prefix "# " s with
              | None => None
              | Some s => fst <$> quoted s
              end
  end.

(** A word, [Ca] or [Switch], the number of ports, the quoted ID and the
    comment. *)
Definition reEntry (word line : string) : option (string * string) :=
  s ← cut_prefix word line;
  s ← skip1 Slurm.re_space s;
  s ← skip1 is_digit s;
  s ← skip1 Slurm.re_space s;
  id ← quoted s;
  name ← comment id.2;
  Some (id.1, name).
Definition reHCA : string → option (string * string) := reEntry "Ca".
Definition reSwitch : string → option (string * string) := reEntry "Switch".

(** A port number in brackets. *)
Definition port (s : string) : option string :=
  s ← cut_prefix "[" s;
  s ← skip1 is_digit s;
  cut_prefix "]" s.

Definition is_lower_hex (c : ascii) : bool :=
  is_digit c || ((97 <=? chr_code c) && (chr_code c <=? 102))%Z.

(** An optional GUID in parentheses. *)
Definition guid (s : string) : option string :=
  match cut_prefix "(" s with
  | None => Some s
  | Some s => s ← skip1 is_lower_hex s; cut_prefix ")" s
  end.

Definition reConn (line : string) : option (string * string) :=
  s ← port line;
  s ← skip1 Slurm.re_space s;
  id ← quoted s;
  s ← port id.2;
  s ← guid s;
  name ← comment s;
  Some (id.1, name).

Definition reEmptyLine (line : string) : bool := str_forallb Slurm.re_space line.

(** [<host>;<switch>:<rest>]. *)
Definition name_chr (c : ascii) : bool := negb (bool_decide (c = ";"%char) || bool_decide (c = ":"%char)).
Definition reSwitchName (name : string) : option string :=
  s ← skip1 name_chr name;
  s ← cut_prefix ";" s;
  let '(sw, s) := span_chr name_chr s in
  s ← (if decide (sw = "") then None else cut_prefix ":" s);
  s ← skip1 name_chr s;
  if decide (s = "") then Some sw else None.

(** Two words: the node and its adapter. *)
Definition non_space (c : ascii) : bool := negb (Slurm.re_space c).
Definition reNodeName (name : string) : option string :=
  let '(node, s) := span_chr non_space name in
  match s with
  | "" => None
  | String _ s => s ← skip1 non_space s;
                  if decide (s = "" ∧ node ≠ "") then Some node else None
  end.

Definition extractSwitchName (name : string) : string :=
  match reSwitchName name with
  | Some sw => sw
  | None => if contains_chr " " name || contains_chr ";" name || contains_chr ":" name then "" else name
  end.

Definition extractNodeName (name : string) : string := default "" (reNodeName name).

(** ** The listing *)

Record Switch := MkSwitch {
  sw_ID : string;
  sw_Name : string;
  Conn : gmap string string;
  Nodes : gmap string string
}.

Record listing := MkListing {
  switches : gmap string Switch;
  hca : gmap string string;
  entry : option Switch
}.

Definition parseLine (st : listing) (line : string) : listing :=
  if has_prefix "#" line then st
  else if reEmptyLine line then
    match entry st with
    | Some e => MkListing (<[sw_ID e := e]> (switches st)) (hca st) None
    | None => st
    end
  else match reHCA line with
  | Some (id, desc) =>
      let nodeName := extractNodeName desc in
      if decide (nodeName = "") then st
      else MkListing (switches st) (<[id := nodeName]> (hca st)) (entry st)
  | None =>
      match reSwitch line with
      | Some (id, desc) =>
          MkListing (switches st) (hca st) (Some (MkSwitch id (extractSwitchName desc) ∅ ∅))
      | None =>
          match reConn line, entry st with
          | Some (id, destName), Some e =>
              MkListing (switches st) (hca st)
                (Some (MkSwitch (sw_ID e) (sw_Name e) (<[id := destName]> (Conn e)) (Nodes e)))
          | _, _ => st
          end
      end
  end.

Inductive ibErr := ErrScan.

Definition ParseIbnetdiscoverFile (data : string) :
    result ibErr (gmap string Switch * gmap string string) :=
  match scan_lines data with
  | None => Err ErrScan
  | Some ls => let st := foldl parseLine (MkListing ∅ ∅ None) ls in Ok (switches st, hca st)
  end.

(** ** Host names *)

Definition shortHostName (name : string) : string :=
  if ParseIP name then name else default "" (head (split "." name)).

Definition isShortHostName (name : string) : bool := bool_decide (shortHostName name = name).

Definition addReported (reported : gmap string (gset string)) (node name : string) :
    gmap string (gset string) :=
  <[node := {[name]} ∪ default ∅ (reported !! node)]> reported.

Record resolution := MkResolution {
  resolved : gmap string string;
  reported : gmap string (gset string);
  fallback : gmap string string
}.

Section Fabric.
Context `{RangeOrder}.

(** A set is a map with the value [true]; so is its iteration. *)
Definition set_range (X : gset string) : list string := (range (gset_to_gmap true X)).*1.

Definition byShortName (nodesInCluster : gset string) : gmap string (list string) :=
  foldl (λ m node, let short := shortHostName node in
                   <[short := default [] (m !! short) ++ [node]]> m) ∅ (set_range nodesInCluster).

Definition candidates (nodesInCluster : gset string) (name : string) : list string :=
  filter (λ node, isShortHostName name = true ∨ isShortHostName node = true)
    (default [] (byShortName nodesInCluster !! shortHostName name)).

Definition resolveHCA (nodesInCluster : gset string) (st : resolution) (kv : string * string) : resolution :=
  let '(id, name) := kv in
  let rs := <[id := name]> (resolved st) in
  if decide (name ∈ nodesInCluster) then MkResolution rs (addReported (reported st) name name) (fallback st)
  else match candidates nodesInCluster name with
       | [node] => MkResolution rs (addReported (reported st) node name) (<[id := node]> (fallback st))
       | _ => MkResolution rs (reported st) (fallback st)
       end.

Definition resolveNodeNames (hca : gmap string string) (nodesInCluster : gset string) : gmap string string :=
  let st := foldl (resolveHCA nodesInCluster) (MkResolution ∅ ∅ ∅) (range hca) in
  foldl (λ rs kv, if (1 <? size (default ∅ (reported st !! kv.2)))%nat then rs
                  else <[kv.1 := kv.2]> rs) (resolved st) (range (fallback st)).

(** ** The tree *)

Record treeState := MkTree {
  t_store : store;
  t_switches : gmap string Switch;
  t_vertices : gset string;
  t_level : gmap string nat
}.

(** The ports of a switch that lead to host adapters. *)
Definition takeNodes (hca : gmap string string) (nodesInCluster : gset string) (sw : Switch) : Switch :=
  foldl (λ sw kv, match hca !! kv.1 with
                  | Some nodeName =>
                      MkSwitch (sw_ID sw) (sw_Name sw) (delete kv.1 (Conn sw))
                        (if decide (nodeName ≠ "" ∧ nodeName ∈ nodesInCluster)
                         then <[kv.1 := nodeName]> (Nodes sw) else Nodes sw)
                  | None => sw
                  end) sw (range (Conn sw)).

(** A vertex per port, so that the last port of a node has its vertex. *)
Definition newNodes (s : store) (nodes : gmap string string) : store * gmap string (option nat) :=
  foldl (λ acc kv, let '(s, children) := acc in
                   let '(s, l) := new s (MkVertex kv.2 kv.2 ∅) in
                   (s, <[kv.2 := Some l]> children)) (s, ∅) (range nodes).

Definition noConn (sw : Switch) : Switch := MkSwitch (sw_ID sw) (sw_Name sw) ∅ (Nodes sw).

Definition leafStep (hca : gmap string string) (nodesInCluster : gset string) (st : treeState)
    (kv : string * Switch) : treeState :=
  let '(swID, sw) := kv in
  let sw := takeNodes hca nodesInCluster sw in
  if decide (Nodes sw = ∅)
  then MkTree (t_store st) (<[swID := sw]> (t_switches st)) (t_vertices st) (t_level st)
  else
    let '(s, children) := newNodes (t_store st) (Nodes sw) in
    let '(s, v) := new s (MkVertex "" swID children) in
    MkTree s (<[swID := noConn sw]> (t_switches st)) ({[swID]} ∪ t_vertices st) (<[swID := v]> (t_level st)).

(** The switches of the level below that a switch connects to. *)
Definition children (level : gmap string nat) (sw : Switch) : gmap string (option nat) :=
  foldl (λ cs kv, match level !! kv.1 with
                  | Some child => <[kv.1 := Some child]> cs
                  | None => cs
                  end) ∅ (range (Conn sw)).

(** [t_level] is the level under construction, [level] the one below it. *)
Definition upperStep (level : gmap string nat) (st : treeState) (kv : string * Switch) : treeState :=
  let '(swID, sw) := kv in
  if decide (swID ∈ t_vertices st) then st
  else
    let cs := children level sw in
    if decide (cs = ∅) then st
    else
      let '(s, v) := new (t_store st) (MkVertex "" swID cs) in
      MkTree s (<[swID := noConn sw]> (t_switches st)) ({[swID]} ∪ t_vertices st) (<[swID := v]> (t_level st)).

Fixpoint levelLoop (fuel : nat) (st : treeState) : option treeState :=
  match fuel with
  | O => None
  | S fuel =>
      let up := foldl (upperStep (t_level st)) (MkTree (t_store st) (t_switches st) (t_vertices st) ∅)
                  (range (t_switches st)) in
      if decide (t_level up = ∅)
      then Some (MkTree (t_store up) (t_switches up) (t_vertices up) (t_level st))
      else levelLoop fuel up
  end.

(** Every level but the last has a switch of its own. *)
Definition buildTree (s : store) (sws : gmap string Switch) (hca : gmap string string)
    (nodesInCluster : gset string) : option treeState :=
  let leaves := foldl (leafStep hca nodesInCluster) (MkTree s sws ∅ ∅) (range sws) in
  levelLoop (S (size sws)) leaves.

(** [None]: one of the loops does not end, which the model bounds by the
    number of switches. *)
Definition GenerateTopologyConfig (s : store) (data : string) (instances : list ComputeInstances) :
    option (result ibErr (store * list nat * gmap string string)) :=
  match ParseIbnetdiscoverFile data with
  | Err e => Some (Err e)
  | Ok (sws, hca) =>
      let nodes := GetNodeNameMap instances in
      let hca := resolveNodeNames hca nodes in
      st ← buildTree s sws hca nodes;
      merger ← NewMerger (S (size sws)) (cells (t_store st)) (range (t_level st)).*2;
      let '(s, merger) := Merge (t_store st) merger in
      Some (Ok (s, TopTier merger, hca))
  end.
End Fabric.

(** ** Resolution of host names *)

Section Names.
Context `{RangeOrder} (nodes : gset string).

(** A cluster node that a reported host name may stand for. *)
Definition matches (name node : string) : Prop :=
  node ∈ nodes ∧ shortHostName node = shortHostName name ∧
  (isShortHostName name = true ∨ isShortHostName node = true).

Definition onlyMatch (name node : string) : Prop := ∀ x, matches name x ↔ x = node.

(** The node an adapter claims by its host name: the node of that name, or the
    only one it may stand for. *)
Definition claims (name node : string) : Prop :=
  (name ∈ nodes ∧ node = name) ∨ ((name ∉ nodes) ∧ onlyMatch name node).

Lemma elem_of_set_range X x : x ∈ set_range X ↔ x ∈ X.
Proof.
  unfold set_range. rewrite list_elem_of_fmap. split.
  - intros ([k b] & -> & Hin%elem_of_range). by apply lookup_gset_to_gmap_Some in Hin as [? _].
  - intros Hx. exists (x, true). rewrite elem_of_range, lookup_gset_to_gmap_Some. done.
Qed.

Lemma byShortName_spec short :
  let l := default [] (byShortName nodes !! short) in
  NoDup l ∧ ∀ node, node ∈ l ↔ node ∈ nodes ∧ shortHostName node = short.
Proof.
  unfold byShortName. set (f := λ (m : gmap string (list string)) node, _).
  cut (∀ es m, NoDup es → (∀ x, x ∈ es → ∀ k, x ∉ default [] (m !! k)) → NoDup (default [] (m !! short)) →
    let l := default [] (foldl f m es !! short) in
    NoDup l ∧ ∀ node, node ∈ l ↔ node ∈ default [] (m !! short) ∨ (node ∈ es ∧ shortHostName node = short)).
  { intros Hcut. destruct (Hcut (set_range nodes) ∅) as [H1 H2].
    - apply range_NoDup.
    - intros x _ k. rewrite lookup_empty. apply not_elem_of_nil.
    - rewrite lookup_empty. constructor.
    - split; [done|]. intros node. rewrite H2, elem_of_set_range, lookup_empty. simpl.
      rewrite elem_of_nil. naive_solver. }
  induction es as [|x es IH]; intros m Hnd Hnew Hm; simpl.
  { split; [done|]. intros node. rewrite elem_of_nil. naive_solver. }
  apply NoDup_cons in Hnd as [Hx Hnd].
  assert (∀ k, default [] (f m x !! k) =
    default [] (m !! k) ++ if decide (shortHostName x = k) then [x] else []) as Hf.
  { intros k. unfold f. case_decide as Hk; [subst k; by rewrite lookup_insert_eq|].
    by rewrite lookup_insert_ne, app_nil_r. }
  destruct (IH (f m x)) as [H1 H2]; [done| | |].
  - intros y Hy k. rewrite Hf, not_elem_of_app. split; [apply Hnew; by right|].
    case_decide; [|apply not_elem_of_nil]. rewrite list_elem_of_singleton. congruence.
  - rewrite Hf. apply NoDup_app. split_and!; [done| |].
    + intros y Hy. case_decide; [|apply not_elem_of_nil]. rewrite list_elem_of_singleton. intros ->.
      by apply (Hnew x ltac:(left) short).
    + case_decide; [apply NoDup_singleton|constructor].
  - split; [done|]. intros node. rewrite H2, Hf, elem_of_app, elem_of_cons. clear.
    case_decide; rewrite ?list_elem_of_singleton, ?elem_of_nil; naive_solver.
Qed.

Lemma candidates_only name node : candidates nodes name = [node] ↔ onlyMatch name node.
Proof.
  unfold candidates, onlyMatch, matches.
  destruct (byShortName_spec (shortHostName name)) as [Hnd Hin].
  set (l := default [] _) in *. set (P := λ node : string, _ ∨ _).
  assert (∀ x, x ∈ filter P l ↔ x ∈ nodes ∧ shortHostName x = shortHostName name ∧ P x) as Hf.
  { intros x. rewrite list_elem_of_filter, Hin. tauto. }
  pose proof (NoDup_filter P l Hnd) as Hnf. split.
  - intros Heq x. pose proof (Hf x) as Hfx. rewrite Heq, list_elem_of_singleton in Hfx.
    symmetry. exact Hfx.
  - intros Hx. assert (∀ x, x ∈ filter P l ↔ x = node) as Hx' by (intros x; rewrite Hf; apply Hx).
    destruct (filter P l) as [|y [|z t]].
    + exfalso. by apply (not_elem_of_nil node), Hx'.
    + f_equal. apply Hx'. by left.
    + exfalso. apply NoDup_cons in Hnf as [Hn _]. apply Hn.
      rewrite (proj1 (Hx' y)), <-(proj1 (Hx' z)); [by left|by right; left|by left].
Qed.

Definition rinv (seen : list (string * string)) (st : resolution) : Prop :=
  (∀ id name, resolved st !! id = Some name ↔ (id, name) ∈ seen) ∧
  (∀ id node, fallback st !! id = Some node ↔
     ∃ name, (id, name) ∈ seen ∧ (name ∉ nodes) ∧ onlyMatch name node) ∧
  (∀ node name, name ∈ default ∅ (reported st !! node) ↔ ∃ id, (id, name) ∈ seen ∧ claims name node).

Lemma reported_add rep node name node' name' :
  name' ∈ default ∅ (addReported rep node name !! node') ↔
    name' ∈ default ∅ (rep !! node') ∨ (node' = node ∧ name' = name).
Proof.
  unfold addReported. destruct (decide (node = node')) as [->|Hne].
  - rewrite lookup_insert_eq. simpl. set_solver.
  - rewrite lookup_insert_ne by done. naive_solver.
Qed.

Lemma rinv_step seen st id name :
  rinv seen st → (∀ name', (id, name') ∉ seen) → rinv (seen ++ [(id, name)]) (resolveHCA nodes st (id, name)).
Proof.
  intros (Hres & Hfall & Hrep) Hnew.
  assert (∀ n, <[id := name]> (resolved st) !! n = if decide (id = n) then Some name else resolved st !! n) as Hr.
  { intros n. case_decide; subst; [apply lookup_insert_eq|by apply lookup_insert_ne]. }
  assert (∀ id' name', <[id := name]> (resolved st) !! id' = Some name' ↔ (id', name') ∈ seen ++ [(id, name)]) as H1.
  { intros id' name'. rewrite Hr, elem_of_app, list_elem_of_singleton.
    case_decide as Hid; [subst id'|by rewrite Hres; naive_solver].
    split; [intros [= ->]; by right|]. intros [?%Hnew|[= ->]]; done. }
  unfold resolveHCA. case_decide as Hin.
  - split_and!; cbn [resolved reported fallback]; [done| |].
    + intros id' node. rewrite Hfall. setoid_rewrite elem_of_app. setoid_rewrite list_elem_of_singleton.
      naive_solver.
    + intros node name'. rewrite reported_add, Hrep. setoid_rewrite elem_of_app.
      setoid_rewrite list_elem_of_singleton. unfold claims. naive_solver.
  - assert ((∃ node, onlyMatch name node ∧ candidates nodes name = [node]) ∨
      (∀ node, ¬ onlyMatch name node) ∧ ∀ node, candidates nodes name ≠ [node]) as Hcase.
    { destruct (candidates nodes name) as [|y [|z t]] eqn:Hc.
      - right. split; [|done]. intros node Ho%candidates_only. by rewrite Hc in Ho.
      - left. exists y. split; [by apply candidates_only|done].
      - right. split; [|done]. intros node Ho%candidates_only. by rewrite Hc in Ho. }
    destruct Hcase as [(node & Ho & ->)|[Hno Hc]].
    + assert (∀ x, onlyMatch name x → x = node) as Huniq by (intros x Hx; by apply Ho, Hx).
      split_and!; cbn [resolved reported fallback]; [done| |].
      * intros id' node'. setoid_rewrite elem_of_app. setoid_rewrite list_elem_of_singleton.
        destruct (decide (id = id')) as [<-|Hne].
        { rewrite lookup_insert_eq. split; [intros [= <-]; eauto 6|].
          intros (name' & [?%Hnew|[= ->]] & _ & Hx); [done|]. by rewrite (Huniq _ Hx). }
        rewrite lookup_insert_ne, Hfall by done. naive_solver.
      * intros node' name'. rewrite reported_add, Hrep. setoid_rewrite elem_of_app.
        setoid_rewrite list_elem_of_singleton. unfold claims. naive_solver.
    + assert (match candidates nodes name with
              | [node] => MkResolution (<[id := name]> (resolved st)) (addReported (reported st) node name)
                            (<[id := node]> (fallback st))
              | _ => MkResolution (<[id := name]> (resolved st)) (reported st) (fallback st)
              end = MkResolution (<[id := name]> (resolved st)) (reported st) (fallback st)) as ->.
      { destruct (candidates nodes name) as [|y [|z t]]; [done|by destruct (Hc y)|done]. }
      split_and!; cbn [resolved reported fallback]; [done| |].
      * intros id' node. rewrite Hfall. setoid_rewrite elem_of_app. setoid_rewrite list_elem_of_singleton.
        naive_solver.
      * intros node name'. rewrite Hrep. setoid_rewrite elem_of_app.
        setoid_rewrite list_elem_of_singleton. unfold claims. naive_solver.
Qed.

Lemma rinv_all hca : rinv (range hca) (foldl (resolveHCA nodes) (MkResolution ∅ ∅ ∅) (range hca)).
Proof.
  apply (foldl_prefix_inv rinv).
  - split_and!; simpl.
    + intros id name. rewrite lookup_empty, elem_of_nil. done.
    + intros id node. rewrite lookup_empty. split; [done|]. by intros (? & ?%elem_of_nil & _).
    + intros node name. rewrite lookup_empty. simpl. split; [set_solver|]. by intros (? & ?%elem_of_nil & _).
  - intros l1 [id name] l2 st Hl Hst. apply rinv_step; [done|]. intros name' Hin.
    pose proof (range_NoDup hca) as Hnd. rewrite Hl, fmap_app in Hnd. apply NoDup_app in Hnd as (_ & Hd & _).
    apply (Hd id); [by apply list_elem_of_fmap; exists (id, name')|by left].
Qed.

(** A name is replaced by a node: it is not a node itself, it may stand for
    that node only, and no adapter claims the node under another name. *)
Definition replaced (hca : gmap string string) (name node : string) : Prop :=
  (name ∉ nodes) ∧ onlyMatch name node ∧
  ∀ id' name', hca !! id' = Some name' → claims name' node → name' = name.

Lemma list_to_map_range (m : gmap string string) : list_to_map (range m) = m.
Proof.
  transitivity (list_to_map (M := gmap string string) (map_to_list m)); [|apply list_to_map_to_list].
  apply list_to_map_proper; [apply range_NoDup|apply range_perm].
Qed.

Lemma fallbacks_lookup (P : string → bool) (es : list (string * string)) (rs : gmap string string) id :
  NoDup es.*1 →
  foldl (λ rs kv, if P kv.2 then rs else <[kv.1 := kv.2]> rs) rs es !! id =
    match list_to_map (M := gmap string string) es !! id with
    | Some node => if P node then rs !! id else Some node
    | None => rs !! id
    end.
Proof.
  revert rs. induction es as [|[k v] es IH]; intros rs Hnd; [done|].
  apply NoDup_cons in Hnd as [Hk Hnd]. simpl. rewrite IH by done.
  destruct (decide (k = id)) as [->|Hne].
  - rewrite lookup_insert_eq. rewrite not_elem_of_list_to_map_1 by done.
    destruct (P v); [done|apply lookup_insert_eq].
  - rewrite lookup_insert_ne by done. destruct (P v); [done|]. by rewrite lookup_insert_ne.
Qed.

Lemma resolve_lookup hca id name :
  hca !! id = Some name →
  ∃ node, resolveNodeNames hca nodes !! id = Some node ∧
    (replaced hca name node ∨ node = name ∧ ∀ x, ¬ replaced hca name x).
Proof.
  intros Hid. destruct (rinv_all hca) as (Hres & Hfall & Hrep). unfold resolveNodeNames. cbv zeta.
  set (st := foldl _ _ (range hca)) in *.
  rewrite (fallbacks_lookup (λ node, 1 <? size (default ∅ (reported st !! node)))%nat) by apply range_NoDup.
  rewrite list_to_map_range.
  assert (resolved st !! id = Some name) as Hname by (by apply Hres, elem_of_range).
  destruct (fallback st !! id) as [node|] eqn:Hf.
  - apply Hfall in Hf as (name' & Hin & Hnot & Ho). apply elem_of_range in Hin. simplify_eq.
    assert (name ∈ default ∅ (reported st !! node)) as Hself.
    { apply Hrep. exists id. rewrite elem_of_range. split; [done|]. by right. }
    destruct (1 <? _)%nat eqn:Hsize; [apply Nat.ltb_lt in Hsize|apply Nat.ltb_ge in Hsize].
    + exists name. split; [done|]. right. split; [done|]. intros x (_ & Hx & Hall).
      assert (x = node) as -> by (by apply Ho, Hx).
      assert (default ∅ (reported st !! node) ⊆ {[name]}) as Hsub%subseteq_size.
      { intros y (id' & Hy%elem_of_range & Hc)%Hrep. apply elem_of_singleton. by eapply Hall. }
      rewrite size_singleton in Hsub. lia.
    + exists node. split; [done|]. left. split_and!; [done|done|]. intros id' name' Hid' Hc.
      assert (name' ∈ default ∅ (reported st !! node)) as Hin' by (apply Hrep; exists id'; by rewrite elem_of_range).
      destruct (decide (name' = name)) as [|Hne]; [done|]. exfalso.
      assert (({[name; name']} : gset string) ⊆ default ∅ (reported st !! node)) as Hsub%subseteq_size by set_solver.
      rewrite size_union, !size_singleton in Hsub by set_solver. lia.
  - exists name. split; [done|]. right. split; [done|]. intros x (Hnot & Hx & _).
    assert (fallback st !! id = Some x); [|congruence]. apply Hfall. exists name. by rewrite elem_of_range.
Qed.

(** [resolveNodeNames] gives every adapter a host name.  The name reported
    by the adapter is replaced by a cluster node exactly when it is not a node
    itself, may stand for that node only (same short name, one of the two
    short), and no adapter claims the node under another name.  So a node is
    never given to adapters that report different host names. *)
Theorem resolve_names_spec hca :
  let r := resolveNodeNames hca nodes in
  (∀ id, is_Some (r !! id) ↔ is_Some (hca !! id)) ∧
  (∀ id name node, hca !! id = Some name →
     r !! id = Some node ↔ replaced hca name node ∨ node = name ∧ ∀ x, ¬ replaced hca name x) ∧
  (∀ id1 id2 node, node ∈ nodes → r !! id1 = Some node → r !! id2 = Some node → hca !! id1 = hca !! id2).
Proof.
  intros r.
  assert (∀ id, is_Some (r !! id) ↔ is_Some (hca !! id)) as Hdom.
  { intros id. split; [|intros [name (node & Hn & _)%resolve_lookup]; by exists node].
    intros [node Hnode]. destruct (hca !! id) as [name|] eqn:Hid; [by eexists|]. exfalso.
    destruct (rinv_all hca) as (Hres & Hfall & _). unfold r, resolveNodeNames in Hnode. cbv zeta in Hnode.
    set (st := foldl _ _ (range hca)) in *.
    rewrite (fallbacks_lookup (λ node, 1 <? size (default ∅ (reported st !! node)))%nat) in Hnode by apply range_NoDup.
    assert (resolved st !! id = None) as Hr.
    { apply eq_None_not_Some. intros [x Hx%Hres%elem_of_range]. congruence. }
    rewrite Hr in Hnode. case_match eqn:Hl; [|done].
    apply elem_of_list_to_map_2, elem_of_range, Hfall in Hl as (x & Hx%elem_of_range & _). congruence. }
  assert (∀ id name node, hca !! id = Some name →
     r !! id = Some node ↔ replaced hca name node ∨ node = name ∧ ∀ x, ¬ replaced hca name x) as Hspec.
  { intros id name node Hid. destruct (resolve_lookup hca id name Hid) as (x & Hx & Hor). fold r in Hx.
    rewrite Hx. split; [intros [= <-]; done|]. intros Hnode. f_equal.
    destruct Hor as [Hrx|[-> Hno]], Hnode as [Hrn|[-> Hno']]; [|by destruct (Hno' _ Hrx)|by destruct (Hno _ Hrn)|done].
    destruct Hrx as (_ & Hox & _), Hrn as (_ & Hon & _). by apply Hon, Hox. }
  split_and!; [done|done|]. intros id1 id2 node Hnode H1 H2.
  destruct (proj1 (Hdom id1)) as [n1 Hn1]; [by eexists|]. destruct (proj1 (Hdom id2)) as [n2 Hn2]; [by eexists|].
  rewrite Hn1, Hn2. f_equal. apply (Hspec _ _ _ Hn1) in H1. apply (Hspec _ _ _ Hn2) in H2.
  destruct H1 as [(Hx1 & Ho1 & Hall1)|[-> _]], H2 as [(Hx2 & Ho2 & Hall2)|[-> _]]; [| | |done].
  - apply (Hall2 id1 n1 Hn1). by right.
  - symmetry. apply (Hall1 id2 n2 Hn2). by left.
  - apply (Hall2 id1 n1 Hn1). by left.
Qed.
End Names.

(** ** The levels of the tree *)

Section Levels.
Context `{RangeOrder} (hca : gmap string string) (nodes : gset string) (sws : gmap string Switch).

(** The nodes of the cluster and the switches that a switch connects to. *)
Definition hostsOf (sw : Switch) : gset string :=
  list_to_set (omap (λ kv, match hca !! kv.1 with
                           | Some n => if decide (n ≠ "" ∧ n ∈ nodes) then Some n else None
                           | None => None
                           end) (map_to_list (Conn sw))).
Definition linksOf (sw : Switch) : gset string := dom (Conn sw) ∖ dom hca.

(** A level, and the switches up to that level: the switches with nodes, then
    those that connect to the level below. *)
Fixpoint levels (k : nat) : gset string * gset string :=
  match k with
  | O => let leaves := dom (filter (λ kv, hostsOf kv.2 ≠ ∅) sws) in (leaves, leaves)
  | S k => let '(level, seen) := levels k in
           let upper := dom (filter (λ kv, (kv.1 ∉ seen) ∧ linksOf kv.2 ∩ level ≠ ∅) sws) in
           (upper, upper ∪ seen)
  end.

(** The vertex at [l] is the tree of the switch [id] of level [k]. *)
Fixpoint placed (s : store) (k : nat) (id : string) (l : nat) : Prop :=
  ∃ sw, sws !! id = Some sw ∧ (l < next s)%nat ∧
    v_Name (deref (cells s) l) = "" ∧ v_ID (deref (cells s) l) = id ∧
    dom (Vertices (deref (cells s) l)) =
      match k with O => hostsOf sw | S k => linksOf sw ∩ (levels k).1 end ∧
    ∀ c ol, Vertices (deref (cells s) l) !! c = Some ol →
      ∃ l', ol = Some l' ∧
        match k with
        | O => (l' < next s)%nat ∧ deref (cells s) l' = MkVertex c c ∅
        | S k => placed s k c l'
        end.

Definition below (s s' : store) : Prop :=
  (next s ≤ next s')%nat ∧ ∀ l, (l < next s)%nat → deref (cells s') l = deref (cells s) l.

Lemma below_refl s : below s s.
Proof. by split. Qed.
Lemma below_trans s1 s2 s3 : below s1 s2 → below s2 s3 → below s1 s3.
Proof. intros [? H1] [? H2]. split; [lia|]. intros l Hl. rewrite H2, H1 by lia. done. Qed.
Lemma below_new s v : below s (new s v).1.
Proof. split; [rewrite next_new; lia|]. intros l Hl. by rewrite deref_new, decide_False by lia. Qed.

Lemma placed_below s s' k id l : below s s' → placed s k id l → placed s' k id l.
Proof.
  intros [Hn Hs]. revert id l. induction k as [|k IH]; intros id l (sw & Hsw & Hl & Hname & Hid & Hdom & Hcs);
    exists sw; rewrite !Hs by done; split_and!; try done; try lia; intros c ol Hc;
    destruct (Hcs c ol Hc) as (l' & -> & Hl').
  - destruct Hl' as [Hlt Hv]. exists l'. split_and!; [done|lia|]. by rewrite Hs.
  - exists l'. split; [done|]. by apply IH.
Qed.

Lemma takeNodes_spec sw :
  Nodes sw = ∅ →
  (∀ c n, Nodes (takeNodes hca nodes sw) !! c = Some n ↔
     is_Some (Conn sw !! c) ∧ hca !! c = Some n ∧ n ≠ "" ∧ n ∈ nodes) ∧
  dom (Conn (takeNodes hca nodes sw)) = linksOf sw.
Proof.
  intros Hempty. unfold takeNodes.
  set (f := λ (sw : Switch) (kv : string * string), _).
  assert (∀ es sw, NoDup es.*1 →
    (∀ c n, Nodes (foldl f sw es) !! c = Some n ↔
       (c ∈ es.*1 ∧ hca !! c = Some n ∧ n ≠ "" ∧ n ∈ nodes) ∨
       (Nodes sw !! c = Some n ∧ ¬ (c ∈ es.*1 ∧ ∃ n', hca !! c = Some n' ∧ n' ≠ "" ∧ n' ∈ nodes))) ∧
    dom (Conn (foldl f sw es)) = dom (Conn sw) ∖ (list_to_set es.*1 ∩ dom hca)) as Hgen.
  { clear. induction es as [|[k v] es IH]; intros sw Hnd.
    { simpl. split; [|set_solver]. intros c n. rewrite elem_of_nil. naive_solver. }
    apply NoDup_cons in Hnd as [Hk Hnd]. destruct (IH (f sw (k, v)) Hnd) as [H1 H2].
    cbn [foldl]. split.
    - intros c n. rewrite H1. csimpl. rewrite elem_of_cons. unfold f. cbn [fst snd].
      destruct (decide (c = k)) as [->|Hne].
      + destruct (hca !! k) as [n'|] eqn:Hh; cbn [Nodes]; [|naive_solver].
        case_decide; [rewrite lookup_insert_eq|]; naive_solver.
      + destruct (hca !! k) as [n'|] eqn:Hh; cbn [Nodes]; [|naive_solver].
        case_decide; [rewrite lookup_insert_ne by done|]; naive_solver.
    - rewrite H2. csimpl. unfold f. cbn [fst snd]. destruct (hca !! k) as [n'|] eqn:Hh; cbn [Conn].
      + assert (k ∈ dom hca) by (by eapply elem_of_dom_2). rewrite dom_delete_L. set_solver.
      + assert (k ∉ dom hca) by (by apply not_elem_of_dom). set_solver. }
  destruct (Hgen (range (Conn sw)) sw) as [H1 H2]; [apply range_NoDup|].
  assert (∀ c, c ∈ (range (Conn sw)).*1 ↔ is_Some (Conn sw !! c)) as Hkeys.
  { intros c. rewrite range_perm. apply elem_of_keys. }
  split.
  - intros c n. rewrite H1, Hempty, lookup_empty, Hkeys. naive_solver.
  - rewrite H2. unfold linksOf. apply set_eq. intros c.
    rewrite !elem_of_difference, elem_of_intersection, elem_of_list_to_set, Hkeys, elem_of_dom. tauto.
Qed.

Lemma hostsOf_spec sw n :
  n ∈ hostsOf sw ↔ ∃ c, is_Some (Conn sw !! c) ∧ hca !! c = Some n ∧ n ≠ "" ∧ n ∈ nodes.
Proof.
  unfold hostsOf. rewrite elem_of_list_to_set, list_elem_of_omap. split.
  - intros ([c d] & Hin%elem_of_map_to_list & Heq). cbn [fst] in Heq.
    destruct (hca !! c) as [n'|] eqn:Hh; [|done]. case_decide; [|done]. simplify_eq. exists c.
    split_and!; [by eexists|naive_solver..].
  - intros (c & [d Hd] & Hh & Hn & Hin). exists (c, d). rewrite elem_of_map_to_list. split; [done|].
    cbn [fst]. rewrite Hh. by rewrite decide_True.
Qed.

Lemma newNodes_spec s (ns : gmap string string) :
  let '(s', cs) := newNodes s ns in
  below s s' ∧
  (∀ n, is_Some (cs !! n) ↔ ∃ c, ns !! c = Some n) ∧
  ∀ n ol, cs !! n = Some ol → ∃ l, ol = Some l ∧ (l < next s')%nat ∧ deref (cells s') l = MkVertex n n ∅.
Proof.
  unfold newNodes. set (f := λ (acc : store * gmap string (option nat)) (kv : string * string), _).
  assert (∀ es, let '(s', cs) := foldl f (s, ∅) es in
    below s s' ∧ (∀ n, is_Some (cs !! n) ↔ n ∈ es.*2) ∧
    ∀ n ol, cs !! n = Some ol → ∃ l, ol = Some l ∧ (l < next s')%nat ∧ deref (cells s') l = MkVertex n n ∅) as Hgen.
  { intros es. induction es as [|[c n] es IH] using rev_ind.
    { simpl. split_and!; [apply below_refl| |].
      - intros n. rewrite lookup_empty, elem_of_nil. split; [by intros [? ?]|done].
      - intros n ol. by rewrite lookup_empty. }
    rewrite foldl_snoc. destruct (foldl f (s, ∅) es) as [s1 cs1]. destruct IH as (Hb & Hdom & Hcs).
    unfold f. cbn [snd]. pose proof (below_new s1 (MkVertex n n ∅)) as Hnew.
    pose proof (next_new s1 (MkVertex n n ∅)) as Hnext.
    pose proof (deref_new s1 (MkVertex n n ∅) (next s1)) as Hderef. rewrite decide_True in Hderef by done.
    change (new s1 (MkVertex n n ∅)) with ((new s1 (MkVertex n n ∅)).1, next s1) in *. cbn [fst] in *.
    set (s2 := (new s1 (MkVertex n n ∅)).1) in *. split_and!.
    - by eapply below_trans.
    - intros n'. rewrite lookup_insert_is_Some', Hdom, fmap_app, elem_of_app. csimpl.
      rewrite list_elem_of_singleton. naive_solver.
    - intros n' ol. destruct (decide (n = n')) as [<-|Hne].
      + rewrite lookup_insert_eq. intros [= <-]. exists (next s1). split_and!; [done|lia|done].
      + rewrite lookup_insert_ne by done. intros (l & -> & Hl & Hv)%Hcs. exists l.
        split_and!; [done|lia|]. destruct Hnew as [_ Hnew]. by rewrite Hnew. }
  specialize (Hgen (range ns)). destruct (foldl f (s, ∅) (range ns)) as [s' cs].
  destruct Hgen as (Hb & Hdom & Hcs). split_and!; [done| |done].
  intros n. rewrite Hdom, list_elem_of_fmap. split.
  - intros ([c n'] & -> & Hin%elem_of_range). eauto.
  - intros [c Hc]. exists (c, n). by rewrite elem_of_range.
Qed.

(** A fresh vertex on top of a store. *)
Lemma new_vertex s v :
  let '(s', l) := new s v in below s s' ∧ l = next s ∧ (l < next s')%nat ∧ deref (cells s') l = v.
Proof.
  pose proof (below_new s v) as Hb. pose proof (deref_new s v (next s)) as Hd.
  rewrite decide_True in Hd by done. pose proof (next_new s v) as Hn.
  change (new s v) with ((new s v).1, next s). cbn [fst] in *. split_and!; [done|done|lia|done].
Qed.

(** What a pass leaves behind. *)
Record built (s0 : store) (k : nat) (st : treeState) : Prop := {
  b_below : below s0 (t_store st);
  b_seen : t_vertices st = (levels k).2;
  b_level : dom (t_level st) = (levels k).1;
  b_dom : dom (t_switches st) = dom sws;
  b_conn : ∀ id sw, sws !! id = Some sw → id ∉ (levels k).2 →
    ∃ sw', t_switches st !! id = Some sw' ∧ dom (Conn sw') = linksOf sw;
  b_placed : ∀ id l, t_level st !! id = Some l → placed (t_store st) k id l
}.

Lemma levels_0 id : id ∈ (levels 0).1 ↔ ∃ sw, sws !! id = Some sw ∧ hostsOf sw ≠ ∅.
Proof.
  simpl. rewrite elem_of_dom. unfold is_Some. setoid_rewrite map_lookup_filter_Some. naive_solver.
Qed.
Lemma levels_S k id :
  id ∈ (levels (S k)).1 ↔
    ∃ sw, sws !! id = Some sw ∧ (id ∉ (levels k).2) ∧ linksOf sw ∩ (levels k).1 ≠ ∅.
Proof.
  simpl. destruct (levels k) as [lv seen]. simpl. rewrite elem_of_dom. unfold is_Some.
  setoid_rewrite map_lookup_filter_Some. naive_solver.
Qed.
Lemma levels_seen k : (levels (S k)).2 = (levels (S k)).1 ∪ (levels k).2.
Proof. simpl. by destruct (levels k). Qed.

(** Above an empty level there is none. *)
Lemma levels_empty k : (levels k).1 = ∅ → (levels (S k)).1 = ∅.
Proof.
  intros He. apply elem_of_equiv_empty_L. intros id (sw & _ & _ & Hne)%levels_S.
  apply Hne. rewrite He. apply intersection_empty_r_L.
Qed.

Record leafInv (s0 : store) (seen : list (string * Switch)) (st : treeState) : Prop := {
  l_below : below s0 (t_store st);
  l_seen : ∀ id, id ∈ t_vertices st ↔ id ∈ seen.*1 ∧ id ∈ (levels 0).1;
  l_level : dom (t_level st) = t_vertices st;
  l_dom : dom (t_switches st) = dom sws;
  l_conn : ∀ id sw, sws !! id = Some sw → id ∈ seen.*1 → id ∉ (levels 0).1 →
    ∃ sw', t_switches st !! id = Some sw' ∧ dom (Conn sw') = linksOf sw;
  l_placed : ∀ id l, t_level st !! id = Some l → placed (t_store st) 0 id l
}.

Lemma leafInv_step s0 seen st id sw :
  leafInv s0 seen st → sws !! id = Some sw → Nodes sw = ∅ → id ∉ seen.*1 →
  leafInv s0 (seen ++ [(id, sw)]) (leafStep hca nodes st (id, sw)).
Proof.
  intros Hinv Hsw Hempty Hnew. destruct (takeNodes_spec sw Hempty) as [Hnodes Hconn].
  unfold leafStep. set (sw' := takeNodes hca nodes sw) in *.
  assert (∀ x, x ∈ (seen ++ [(id, sw)]).*1 ↔ x ∈ seen.*1 ∨ x = id) as Happ.
  { intros x. rewrite fmap_app, elem_of_app. csimpl. by rewrite list_elem_of_singleton. }
  assert (∀ n, n ∈ hostsOf sw ↔ ∃ c, Nodes sw' !! c = Some n) as Hhosts.
  { intros n. rewrite hostsOf_spec. by setoid_rewrite Hnodes. }
  assert (id ∈ (levels 0).1 ↔ Nodes sw' ≠ ∅) as Hleaf.
  { rewrite levels_0. split.
    - intros (x & Hx & Hh) He. simplify_eq. apply Hh. apply set_eq. intros n. rewrite Hhosts, He.
      setoid_rewrite lookup_empty. set_solver.
    - intros (c & n & Hc)%map_choose. exists sw. split; [done|].
      assert (n ∈ hostsOf sw) by (apply Hhosts; eauto). set_solver. }
  destruct Hinv as [Hbel Hseen Hlev Hdom Hcn Hpl]. case_decide as He.
  - split; cbn [t_store t_switches t_vertices t_level]; [done| |done| | |done].
    + intros x. rewrite Hseen, Happ. naive_solver.
    + rewrite dom_insert_L, Hdom. assert (id ∈ dom sws) by (by eapply elem_of_dom_2). set_solver.
    + intros x sx Hx Hin Hnot. destruct (decide (id = x)) as [<-|Hne].
      * simplify_eq. exists sw'. by rewrite lookup_insert_eq.
      * rewrite lookup_insert_ne by done. apply Hcn; [done| |done]. apply Happ in Hin. naive_solver.
  - pose proof (newNodes_spec (t_store st) (Nodes sw')) as Hn.
    destruct (newNodes (t_store st) (Nodes sw')) as [s1 cs]. destruct Hn as (Hb1 & Hcs & Hnv).
    pose proof (new_vertex s1 (MkVertex "" id cs)) as Hv.
    destruct (new s1 (MkVertex "" id cs)) as [s2 v]. destruct Hv as (Hb2 & _ & Hlt & Hv).
    split; cbn [t_store t_switches t_vertices t_level].
    + eauto using below_trans.
    + intros x. rewrite elem_of_union, elem_of_singleton, Hseen, Happ. naive_solver.
    + rewrite dom_insert_L, Hlev. done.
    + rewrite dom_insert_L, Hdom. assert (id ∈ dom sws) by (by eapply elem_of_dom_2). set_solver.
    + intros x sx Hx Hin Hnot. destruct (decide (id = x)) as [<-|Hne]; [naive_solver|].
      rewrite lookup_insert_ne by done. apply Hcn; [done| |done]. apply Happ in Hin. naive_solver.
    + intros x l. destruct (decide (id = x)) as [<-|Hne].
      2: { rewrite lookup_insert_ne by done. intros Hx%Hpl. eapply placed_below; [|done]. eauto using below_trans. }
      rewrite lookup_insert_eq. intros [= <-]. exists sw. rewrite Hv. cbn [v_Name v_ID Vertices].
      split_and!; [done|done|done|done| |].
      * apply set_eq. intros n. by rewrite elem_of_dom, Hcs, Hhosts.
      * intros c ol (l' & -> & Hl' & Hd)%Hnv. exists l'. destruct Hb2 as [Hb2n Hb2].
        split_and!; [done|lia|]. by rewrite Hb2.
Qed.

Lemma leaves_built s0 :
  (∀ id sw, sws !! id = Some sw → Nodes sw = ∅) →
  built s0 0 (foldl (leafStep hca nodes) (MkTree s0 sws ∅ ∅) (range sws)).
Proof.
  intros Hempty.
  assert (leafInv s0 (range sws) (foldl (leafStep hca nodes) (MkTree s0 sws ∅ ∅) (range sws))) as [].
  { apply (foldl_prefix_inv (leafInv s0)).
    - split; cbn [t_store t_switches t_vertices t_level]; [apply below_refl|set_solver|by rewrite dom_empty_L|done| |].
      + intros id sw _ Hin. by apply elem_of_nil in Hin.
      + intros id l. by rewrite lookup_empty.
    - intros l1 [id sw] l2 st Hl Hst.
      assert (sws !! id = Some sw) as Hsw by (apply elem_of_range; rewrite Hl; set_solver).
      apply leafInv_step; [done|done|by eapply Hempty|].
      pose proof (range_NoDup sws) as Hnd. rewrite Hl, fmap_app in Hnd. apply NoDup_app in Hnd as (_ & Hd & _).
      intros Hin. apply (Hd id Hin). by left. }
  assert (∀ id, id ∈ (range sws).*1 ↔ is_Some (sws !! id)) as Hkeys.
  { intros id. rewrite range_perm. apply elem_of_keys. }
  assert (t_vertices (foldl (leafStep hca nodes) (MkTree s0 sws ∅ ∅) (range sws)) = (levels 0).1) as Hv.
  { apply set_eq. intros id. rewrite l_seen0, Hkeys. split; [naive_solver|]. intros Hid. split; [|done].
    apply levels_0 in Hid as (sw & -> & _). by eexists. }
  split; [done|done|congruence|done| |done].
  intros id sw Hsw Hnot. apply l_conn0; [done| |done]. apply Hkeys. by eexists.
Qed.

Lemma children_lookup level sw c :
  children level sw !! c =
    if decide (is_Some (Conn sw !! c)) then Some <$> level !! c else None.
Proof.
  unfold children. set (f := λ (cs : gmap string (option nat)) (kv : string * string), _).
  assert (∀ es m, foldl f m es !! c =
    if decide (c ∈ es.*1) then match level !! c with Some l => Some (Some l) | None => m !! c end else m !! c) as Hgen.
  { induction es as [|[k v] es IH]; intros m; [by rewrite decide_False by apply not_elem_of_nil|].
    cbn [foldl]. rewrite IH. unfold f. cbn [fst]. csimpl.
    destruct (decide (c = k)) as [->|Hne].
    - rewrite (decide_True (P := k ∈ k :: es.*1)) by (by left).
      destruct (level !! k); [rewrite lookup_insert_eq|]; by destruct (decide (k ∈ es.*1)).
    - assert (match level !! k with Some child => <[k := Some child]> m | None => m end !! c = m !! c) as ->.
      { destruct (level !! k); [by rewrite lookup_insert_ne|done]. }
      destruct (decide (c ∈ es.*1)) as [Hin|Hin].
      + rewrite (decide_True (P := c ∈ k :: es.*1)) by (by right). done.
      + rewrite (decide_False (P := c ∈ k :: es.*1)); [done|]. by intros [|]%elem_of_cons. }
  rewrite Hgen, lookup_empty.
  assert (c ∈ (range (Conn sw)).*1 ↔ is_Some (Conn sw !! c)) as Hkeys by (rewrite range_perm; apply elem_of_keys).
  repeat case_decide; try tauto; by destruct (level !! c).
Qed.

Record upperInv (s0 : store) (k : nat) (seen : list (string * Switch)) (st : treeState) : Prop := {
  u_below : below s0 (t_store st);
  u_seen : ∀ id, id ∈ t_vertices st ↔ id ∈ (levels k).2 ∨ id ∈ seen.*1 ∧ id ∈ (levels (S k)).1;
  u_level : ∀ id, id ∈ dom (t_level st) ↔ id ∈ seen.*1 ∧ id ∈ (levels (S k)).1;
  u_dom : dom (t_switches st) = dom sws;
  u_conn : ∀ id sw, sws !! id = Some sw → id ∉ (levels (S k)).2 →
    ∃ sw', t_switches st !! id = Some sw' ∧ dom (Conn sw') = linksOf sw;
  u_placed : ∀ id l, t_level st !! id = Some l → placed (t_store st) (S k) id l
}.

Lemma upperInv_step s1 k level seen st id sw sw' :
  upperInv s1 k seen st → dom level = (levels k).1 →
  (∀ c l, level !! c = Some l → placed s1 k c l) →
  sws !! id = Some sw → (id ∉ (levels k).2 → dom (Conn sw') = linksOf sw) → id ∉ seen.*1 →
  upperInv s1 k (seen ++ [(id, sw')]) (upperStep level st (id, sw')).
Proof.
  intros [Hbel Hseen Hlev Hdom Hcn Hpl] Hlevel Hplaced Hsw Hconn Hnew. unfold upperStep.
  assert (∀ x, x ∈ (seen ++ [(id, sw')]).*1 ↔ x ∈ seen.*1 ∨ x = id) as Happ.
  { intros x. rewrite fmap_app, elem_of_app. csimpl. by rewrite list_elem_of_singleton. }
  assert (id ∈ (levels (S k)).1 → id ∉ (levels k).2) as Hdisj by (intros (? & _ & ? & _)%levels_S; done).
  case_decide as Hin.
  { apply Hseen in Hin as [Hin|[? _]]; [|done].
    split; [done| | |done|done|done]; intros x; rewrite ?Hseen, ?Hlev, Happ; naive_solver. }
  assert (id ∉ (levels k).2) as Hnot by (intros ?; apply Hin, Hseen; by left).
  specialize (Hconn Hnot). set (cs := children level sw').
  assert (dom cs = linksOf sw ∩ (levels k).1) as Hcs.
  { apply set_eq. intros c. unfold cs. rewrite elem_of_dom, children_lookup, elem_of_intersection, <-Hconn, <-Hlevel.
    rewrite !elem_of_dom. case_decide; [rewrite fmap_is_Some; tauto|]. split; [by intros [? ?]|tauto]. }
  assert (id ∈ (levels (S k)).1 ↔ cs ≠ ∅) as Hup.
  { rewrite levels_S, <-dom_empty_iff_L, Hcs. naive_solver. }
  case_decide as He.
  { split; [done| | |done|done|done]; intros x; rewrite ?Hseen, ?Hlev, Happ; naive_solver. }
  pose proof (new_vertex (t_store st) (MkVertex "" id cs)) as Hv.
  destruct (new (t_store st) (MkVertex "" id cs)) as [s2 v]. destruct Hv as (Hb2 & _ & Hlt & Hv).
  split; cbn [t_store t_switches t_vertices t_level].
  - eauto using below_trans.
  - intros x. rewrite elem_of_union, elem_of_singleton, Hseen, Happ. naive_solver.
  - intros x. rewrite dom_insert_L, elem_of_union, elem_of_singleton, Hlev, Happ. naive_solver.
  - rewrite dom_insert_L, Hdom. assert (id ∈ dom sws) by (by eapply elem_of_dom_2). set_solver.
  - intros x sx Hx Hnx. destruct (decide (id = x)) as [<-|Hne].
    + exfalso. apply Hnx. rewrite levels_seen. apply elem_of_union_l. by apply Hup.
    + rewrite lookup_insert_ne by done. by apply Hcn.
  - intros x l. destruct (decide (id = x)) as [<-|Hne].
    2: { rewrite lookup_insert_ne by done. intros Hx%Hpl. by eapply placed_below. }
    rewrite lookup_insert_eq. intros [= <-]. exists sw. rewrite Hv. cbn [v_Name v_ID Vertices].
    split_and!; [done|done|done|done|done|].
    intros c ol. unfold cs. rewrite children_lookup. case_decide; [|done].
    intros (l' & Hl' & ->)%fmap_Some. exists l'. split; [done|].
    eapply placed_below; [|by apply Hplaced]. by eapply below_trans.
Qed.

Lemma upper_built s0 k st :
  built s0 k st →
  let up := foldl (upperStep (t_level st)) (MkTree (t_store st) (t_switches st) (t_vertices st) ∅)
              (range (t_switches st)) in
  built s0 (S k) up ∧ below (t_store st) (t_store up).
Proof.
  intros [Hbel Hseen Hlev Hdom Hconn Hpl] up.
  assert (upperInv (t_store st) k (range (t_switches st)) up) as Hup.
  { unfold up. apply (foldl_prefix_inv (upperInv (t_store st) k)).
    - split; cbn [t_store t_switches t_vertices t_level]; [apply below_refl| | |done| |].
      + intros id. rewrite Hseen. csimpl. rewrite elem_of_nil. naive_solver.
      + intros id. rewrite dom_empty_L. csimpl. rewrite elem_of_nil. set_solver.
      + intros id sw Hsw Hn. apply Hconn; [done|]. rewrite levels_seen in Hn. set_solver.
      + intros id l. by rewrite lookup_empty.
    - intros l1 [id sw'] l2 t Hl Ht.
      assert (t_switches st !! id = Some sw') as Hsw' by (apply elem_of_range; rewrite Hl; set_solver).
      assert (is_Some (sws !! id)) as [sw Hsw] by (apply elem_of_dom; rewrite <-Hdom; by eapply elem_of_dom_2).
      apply (upperInv_step _ _ _ _ _ _ sw); [done|done|done|done| |].
      + intros Hn. destruct (Hconn _ _ Hsw Hn) as (? & ? & ?). by simplify_eq.
      + pose proof (range_NoDup (t_switches st)) as Hnd. rewrite Hl, fmap_app in Hnd.
        apply NoDup_app in Hnd as (_ & Hd & _). intros Hin. apply (Hd id Hin). by left. }
  assert (∀ id, id ∈ (levels (S k)).1 → id ∈ (range (t_switches st)).*1) as Hkeys.
  { intros id (sw & Hsw & _)%levels_S. rewrite range_perm. apply elem_of_keys, elem_of_dom.
    rewrite Hdom. by eapply elem_of_dom_2. }
  destruct Hup as [Ub Us Ul Ud Uc Up]. split; [|done]. split; [by eapply below_trans| | |done|done|done].
  - apply set_eq. intros id. rewrite Us, levels_seen, elem_of_union. naive_solver.
  - apply set_eq. intros id. rewrite Ul. naive_solver.
Qed.

Lemma levels_subset k : (levels k).2 ⊆ dom sws.
Proof.
  induction k as [|k IH].
  - change ((levels 0).2) with ((levels 0).1). intros id (sw & Hsw & _)%levels_0. by eapply elem_of_dom_2.
  - rewrite levels_seen. apply union_subseteq. split; [|done].
    intros id (sw & Hsw & _)%levels_S. by eapply elem_of_dom_2.
Qed.

Lemma levelLoop_spec s0 fuel k st :
  built s0 k st → (size sws < fuel + size (levels k).2)%nat →
  ∃ st' m, levelLoop fuel st = Some st' ∧ (k ≤ m)%nat ∧ (k < m → (levels m).1 ≠ ∅)%nat ∧
    (levels (S m)).1 = ∅ ∧ below s0 (t_store st') ∧ dom (t_level st') = (levels m).1 ∧
    ∀ id l, t_level st' !! id = Some l → placed (t_store st') m id l.
Proof.
  revert k st. induction fuel as [|fuel IH]; intros k st Hst Hfuel.
  { pose proof (subseteq_size _ _ (levels_subset k)) as Hle. rewrite size_dom in Hle. lia. }
  destruct (upper_built _ _ _ Hst) as [Hup Hbel]. cbn [levelLoop]. cbv zeta.
  set (up := foldl _ _ _) in *. case_decide as He.
  - eexists _, k. split; [done|]. cbn [t_store t_level].
    assert ((levels (S k)).1 = ∅) as Hnone by (rewrite <-(b_level _ _ _ Hup), He; apply dom_empty_L).
    split_and!; [lia|lia|done|apply Hup|apply Hst|]. intros id l Hl.
    eapply placed_below; [done|]. by apply Hst.
  - assert ((levels (S k)).1 ≠ ∅) as Hne by (rewrite <-(b_level _ _ _ Hup); by rewrite dom_empty_iff_L).
    destruct (IH (S k) up Hup) as (st' & m & -> & Hm & Hpos & Hrest).
    + rewrite levels_seen, size_union.
      * assert (size (levels (S k)).1 ≠ 0%nat) by (by intros ?%size_empty_inv%leibniz_equiv). lia.
      * intros id (sw & _ & Hn & _)%levels_S. done.
    + exists st', m. split_and!; [done|lia| |apply Hrest..]. intros _.
      destruct (decide (m = S k)) as [->|]; [done|]. apply Hpos. lia.
Qed.
End Levels.

(** The parser leaves the nodes of a switch to the first pass. *)
Lemma parsed_no_nodes data sws h id sw :
  ParseIbnetdiscoverFile data = Ok (sws, h) → sws !! id = Some sw → Nodes sw = ∅.
Proof.
  unfold ParseIbnetdiscoverFile. destruct (scan_lines data) as [ls|]; [|done]. intros [= <- _].
  assert (map_Forall (λ _ sw, Nodes sw = ∅) (switches (foldl parseLine (MkListing ∅ ∅ None) ls)) ∧
    (∀ e, entry (foldl parseLine (MkListing ∅ ∅ None) ls) = Some e → Nodes e = ∅)) as [Hall _];
    [|by apply Hall].
  apply (foldl_inv (λ st, map_Forall (λ _ sw, Nodes sw = ∅) (switches st) ∧ (∀ e, entry st = Some e → Nodes e = ∅))).
  { split; [apply map_Forall_empty|done]. }
  intros st line _ [Hs He]. unfold parseLine. destruct (has_prefix _ _); [done|]. destruct (reEmptyLine line).
  { destruct (entry st) as [e|] eqn:Hent; [|by rewrite Hent].
    split; [|done]. apply map_Forall_insert_2; [by apply He|done]. }
  destruct (reHCA line) as [[? ?]|]; [by case_decide|].
  destruct (reSwitch line) as [[? ?]|]; [split; [done|]; by intros e [= <-]|].
  destruct (reConn line) as [[? ?]|], (entry st) as [e|] eqn:Hent; rewrite ?Hent; try done.
  split; [done|]. intros e' [= <-]. simpl. by apply He.
Qed.

(** C29: From any parsed listing [buildTree] returns a tree level by level.  The
    lowest level are the switches connected to nodes of the cluster, the
    children of each being exactly those nodes; a switch is on the next level
    when it is on none before and connects to a switch of the level below, and
    its children are exactly the switches of that level it connects to.  The
    roots are the switches of the last level that is not empty. *)
Theorem ib_tree_levels `{RangeOrder} data sws h nodes s :
  let hca := resolveNodeNames h nodes in
  let level k := (levels hca nodes sws k).1 in
  ParseIbnetdiscoverFile data = Ok (sws, h) →
  ∃ st m, buildTree s sws hca nodes = Some st ∧
    dom (t_level st) = level m ∧ (m ≠ O → level m ≠ ∅) ∧ level (S m) = ∅ ∧
    ∀ id l, t_level st !! id = Some l → placed hca nodes sws (t_store st) m id l.
Proof.
  intros hca level Hparse. unfold buildTree.
  assert (built hca nodes sws s 0 (foldl (leafStep hca nodes) (MkTree s sws ∅ ∅) (range sws))) as Hst.
  { apply leaves_built. intros id sw. by eapply parsed_no_nodes. }
  destruct (levelLoop_spec hca nodes sws s (S (size sws)) 0 _ Hst)
    as (st & m & Hrun & _ & Hpos & Hlast & _ & Hdom & Hpl); [lia|].
  exists st, m. split_and!; [done|done| |done|done]. intros Hm. apply Hpos. lia.
Qed.

(** ** Example: two leaf switches, one of them below a spine *)

Definition q (s : string) : string := String quote (s +:+ String quote "").
Definition w_listing : string :=
  join newline
    ["# Topology file: generated";
     "Switch  36 " +:+ q "S-1" +:+ "  # " +:+ q "MF0;leaf1:MQM/U1" +:+ " enhanced port 0";
     "[1]  " +:+ q "H-1" +:+ "[1](ab0)  # " +:+ q "n1 mlx5_0" +:+ " lid 1";
     "[2]  " +:+ q "S-3" +:+ "[1]  # " +:+ q "spine" +:+ " lid 1"; "";
     "Switch  36 " +:+ q "S-2" +:+ "  # " +:+ q "leaf2";
     "[1]  " +:+ q "H-2" +:+ "[1](ab0)  # " +:+ q "n2 mlx5_0" +:+ " lid 1"; "";
     "Switch  36 " +:+ q "S-3" +:+ "  # " +:+ q "spine";
     "[1]  " +:+ q "S-1" +:+ "[2]  # " +:+ q "leaf1" +:+ " lid 1"; "";
     "Ca  2 " +:+ q "H-1" +:+ "  # " +:+ q "n1 mlx5_0"; "";
     "Ca  2 " +:+ q "H-2" +:+ "  # " +:+ q "n2 mlx5_0"; ""].

Definition w_parsed : gmap string Switch * gmap string string :=
  match ParseIbnetdiscoverFile w_listing with Ok p => p | Err _ => (∅, ∅) end.
Definition w_nodes : gset string := {["n1.cluster"; "n2"]}.

Lemma ib_tree_levels_witness :
  ∃ st, buildTree (MkStore ∅ 0) w_parsed.1 (resolveNodeNames w_parsed.2 w_nodes) w_nodes = Some st ∧
    dom (t_level st) = {["S-3"]}.
Proof.
  destruct (ib_tree_levels w_listing w_parsed.1 w_parsed.2 w_nodes (MkStore ∅ 0))
    as (st & m & Hst & Hdom & Hpos & Hlast & _).
  { vm_compute. reflexivity. }
  exists st. split; [done|]. rewrite Hdom. destruct m as [|[|[|m]]].
  - exfalso. revert Hlast. apply (bool_decide_unpack _). vm_compute. exact I.
  - apply (bool_decide_unpack _). vm_compute. exact I.
  - exfalso. apply Hpos; [done|]. apply (bool_decide_unpack _). vm_compute. exact I.
  - exfalso. apply Hpos; [done|]. clear. induction m as [|m IH].
    + apply (bool_decide_unpack _). vm_compute. exact I.
    + by apply levels_empty.
Defined.

(** The node [n2] is below a leaf switch that no other switch of the fabric
    connects to: it is not in the tree. *)
Example ib_loses_leaf_switch :
  let r := GenerateTopologyConfig (MkStore ∅ 0) w_listing [MkCI "local" {[ "n1" := "n1"; "n2" := "n2" ]}] in
  match r with
  | Some (Ok (s, roots, _)) =>
      let below (v : nat) := dom (Vertices (deref (cells s) v)) in
      ((λ v, v_ID (deref (cells s) v)) <$> roots, below <$> roots)
  | _ => ([], [])
  end = (["S-3"], [{["S-1"]}]).
Proof. by vm_compute. Qed.

(** A switch at the end of the listing without an empty line after it is not
    recorded. *)
Example ib_last_switch_needs_empty_line :
  (λ p, dom p.1) <$> ParseIbnetdiscoverFile ("Switch 36 " +:+ q "S-1" +:+ " # " +:+ q "leaf" +:+ newline) = Ok ∅.
Proof. by vm_compute. Qed.

End Infiniband.
