(* ===== verification/K8sLabels.v ===== *)
(** * Kubernetes node labels: [pkg/engines/k8s/labeler.go]

    The labeler turns a graph into the labels each Kubernetes node should
    carry: one label per switch above the node, closest first, and the
    accelerator domain and sub-domain.  Label values are limited to 63
    characters; longer ones are replaced by a hash, remembered in a map. *)

From S2P Require Import Prelude GoStrings Domain Topology Network NetworkTree TreeWalk Request.
Open Scope Z_scope.

Module K8sLabels.
Import Domain Topo NetworkTree TreeWalk Requests.

(** ** Label keys *)

Record TopologyLabelKeys := MkKeys {
  Fabric : list string;
  XclrDomain : string;
  XclrSubDomain : string
}.

Definition NewTopologyLabelKeys (fabric : list string) (xclrDomain : string) : TopologyLabelKeys :=
  MkKeys fabric (if decide (xclrDomain = "") then KeyTopologyXclrDomain else xclrDomain)
    KeyTopologyXclrSubDomain.

Inductive keyErr :=
| InvalidKey (location key : string) (errs : list string)
| DuplicateKey (key previous location : string).

Section Validate.
(** [validation.IsQualifiedName] of the Kubernetes API machinery: the reasons
    why a string is not a label key. *)
Context (IsQualifiedName : string → list string).

Definition ValidateLabelKey (location key : string) : result keyErr () :=
  if decide (IsQualifiedName key = []) then Ok () else Err (InvalidKey location key (IsQualifiedName key)).

Definition validateKey (seen : gmap string string) (lk : string * string) :
    result keyErr (gmap string string) :=
  let '(location, key) := lk in
  _ ← ValidateLabelKey location key;
  match seen !! key with
  | Some previous => Err (DuplicateKey key previous location)
  | None => Ok (<[key := location]> seen)
  end.

Definition Validate (keys : TopologyLabelKeys) : result keyErr () :=
  seen ← foldM validateKey ∅
    (imap (λ tier key, ("fabricLabels[" +:+ itoa (Z.of_nat tier) +:+ "]", key)) (Fabric keys));
  seen ← validateKey seen ("acceleratorLabel", XclrDomain keys);
  _ ← validateKey seen ("xclrSubDomainLabel", XclrSubDomain keys);
  Ok ().
End Validate.

Definition FabricKey (keys : TopologyLabelKeys) (tier : Z) : string :=
  if decide (Fabric keys = []) then FabricTierKey tier
  else if (0 <=? tier) && (tier <? Z.of_nat (length (Fabric keys)))
  then default "" (Fabric keys !! Z.to_nat tier)
  else "".

(** ** The labeler

    [mapper] remembers the label value of every string seen. *)
Record labelState := MkLabels {
  mapper : gmap string string;
  nodeMap : gmap string (gmap string string)
}.

Definition checkLabel (m : gmap string string) (val : string) : gmap string string * string :=
  match m !! val with
  | Some v => (m, v)
  | None =>
      let v := if Z.of_nat (String.length val) <=? 63 then val
               else "x" +:+ hex (fnv64a fnv_offset val) in
      (<[val := v]> m, v)
  end.

Inductive labelErr :=
| MultipleDomains (val domainName nodeName : string)
| InstanceMismatch (expected got : string)
| NilVertex.

Section Labeler.
Context `{RangeOrder} (keys : TopologyLabelKeys).

(** The body of the loop over the hosts of a domain. *)
Definition domainLabel (domainName : string) (st : labelState) (kv : string * HostInfo) :
    result labelErr labelState :=
  let '(nodeName, hostInfo) := kv in
  if decide (nodeName = "") then Ok st
  else
    let labels := default ∅ (nodeMap st !! nodeName) in
    match labels !! XclrDomain keys with
    | Some val => Err (MultipleDomains val domainName nodeName)
    | None =>
        let '(m, v) := checkLabel (mapper st) domainName in
        let labels := <[XclrDomain keys := v]> labels in
        let '(m, labels) :=
          if decide (SubDomain hostInfo = "") then (m, labels)
          else let '(m, v) := checkLabel m (SubDomain hostInfo) in
               (m, <[XclrSubDomain keys := v]> labels) in
        Ok (MkLabels m (<[nodeName := labels]> (nodeMap st)))
    end.

Definition getDomainLabels (domains : DomainMap) (st : labelState) : result labelErr labelState :=
  foldM (λ st d, foldM (domainLabel d.1) st (range d.2)) st (range domains).

(** The labels of the switches above a node, until an unnamed switch or a
    tier without a key. *)
Fixpoint tierLoop (i : Z) (m labels : gmap string string) (sws : list string) :
    gmap string string * gmap string string :=
  match sws with
  | [] => (m, labels)
  | sw :: sws =>
      let labelKey := FabricKey keys i in
      if decide (sw = "" ∨ labelKey = "") then (m, labels)
      else let '(m, v) := checkLabel m sw in
           tierLoop (i + 1) m (<[labelKey := v]> labels) sws
  end.

(** A compute node below [layers], the node itself first. *)
Definition leafLabels (v : Vertex) (layers : list string) (st : labelState) :
    result labelErr labelState :=
  match layers with
  | [] => Ok st
  | id :: sws =>
      if decide (v_ID v ≠ id) then Err (InstanceMismatch (v_ID v) id)
      else if decide (v_Name v = "") then Ok st
      else
        let '(m, labels) := tierLoop 0 (mapper st) (default ∅ (nodeMap st !! v_Name v)) sws in
        Ok (MkLabels m (<[v_Name v := labels]> (nodeMap st)))
  end.

(** [None]: the recursion does not end within [fuel] calls.  A nil child is
    dereferenced and panics. *)
Fixpoint getTierLabels (fuel : nat) (h : heap) (l : nat) (layers : list string) (st : labelState) :
    option (result labelErr labelState) :=
  match fuel with
  | O => None
  | S fuel =>
      let v := deref h l in
      if decide (Vertices v = ∅) then Some (leafLabels v layers st)
      else foldl (λ acc kv, match acc with
                            | Some (Ok st) =>
                                match kv.2 with
                                | Some w => getTierLabels fuel h w (v_ID (deref h w) :: layers) st
                                | None => Some (Err NilVertex)
                                end
                            | _ => acc
                            end)
             (Some (Ok st)) (range (Vertices v))
  end.

(** A path of a tree has at most as many vertices as the heap. *)
Definition labelFuel (h : heap) : nat := S (size h).

Definition BuildNodeLabels (graph : option Graph) :
    option (result labelErr (gmap string (gmap string string))) :=
  match graph with
  | None => Some (Ok ∅)
  | Some g =>
      match (match Domains g with
             | Some domains => getDomainLabels domains (MkLabels ∅ ∅)
             | None => Ok (MkLabels ∅ ∅)
             end) with
      | Err e => Some (Err e)
      | Ok st =>
          match Tiers g with
          | None => Some (Ok (nodeMap st))
          | Some root =>
              let id := v_ID (deref (g_heap g) root) in
              fmap (M := result labelErr) nodeMap <$>
                getTierLabels (labelFuel (g_heap g)) (g_heap g) root (if decide (id = "") then [] else [id]) st
          end
      end
  end.
End Labeler.

(** ** Label values *)

Definition labelValue (val : string) : string :=
  if Z.of_nat (String.length val) <=? 63 then val else "x" +:+ hex (fnv64a fnv_offset val).

Definition mapper_ok (m : gmap string string) : Prop := map_Forall (λ val v, v = labelValue val) m.

Lemma checkLabel_spec m val :
  mapper_ok m → (checkLabel m val).2 = labelValue val ∧ mapper_ok (checkLabel m val).1.
Proof.
  intros Hm. unfold checkLabel. destruct (m !! val) as [v|] eqn:Hv; simpl.
  - split; [by apply (Hm val)|done].
  - split; [done|]. by apply map_Forall_insert_2.
Qed.

Lemma hex_go_length fuel z acc :
  (String.length (hex_go fuel z acc) ≤ fuel + String.length acc)%nat.
Proof.
  revert z acc. induction fuel as [|fuel IH]; intros z acc; simpl; [lia|].
  case_match; simpl; [lia|]. etrans; [apply IH|]. simpl. lia.
Qed.

Lemma labelValue_length val : (String.length (labelValue val) ≤ 63)%nat.
Proof.
  unfold labelValue. destruct (Z.leb_spec (Z.of_nat (String.length val)) 63); [lia|].
  rewrite str_length_app. unfold hex. pose proof (hex_go_length 16 (fnv64a fnv_offset val) "").
  simpl in *. lia.
Qed.

(** ** Distinct keys *)

Section KeysDistinct.
Context (IsQualifiedName : string → list string).
(** The empty string is not a qualified name. *)
Hypothesis empty_unqualified : IsQualifiedName "" ≠ [].

Lemma validateKey_ok seen lk seen' :
  validateKey IsQualifiedName seen lk = Ok seen' →
  lk.2 ≠ "" ∧ seen !! lk.2 = None ∧ seen' = <[lk.2 := lk.1]> seen.
Proof.
  destruct lk as [loc key]. unfold validateKey, ValidateLabelKey. intros Hv. simpl.
  case_decide as Hq; simpl in Hv; [|done]. destruct (seen !! key); simplify_eq. by split; [intros ->|].
Qed.

Lemma validateKeys_ok lks seen seen' :
  foldM (validateKey IsQualifiedName) seen lks = Ok seen' →
  NoDup lks.*2 ∧ Forall (λ key, key ≠ "" ∧ seen !! key = None) lks.*2 ∧
  ∀ key, is_Some (seen' !! key) ↔ is_Some (seen !! key) ∨ key ∈ lks.*2.
Proof.
  revert seen. induction lks as [|lk lks IH]; intros seen Hf; simpl in Hf.
  { simplify_eq/=. split_and!; [constructor..|]. set_solver. }
  destruct (validateKey _ seen lk) as [s1|] eqn:Hv; [|done].
  apply validateKey_ok in Hv as (Hne & Hnew & ->). destruct (IH _ Hf) as (Hnd & Hall & Hdom).
  csimpl. rewrite Forall_forall in Hall. split_and!.
  - apply NoDup_cons. split; [|done]. intros Hin. destruct (Hall _ Hin) as [_ Hl].
    by rewrite lookup_insert_eq in Hl.
  - constructor; [done|]. apply Forall_forall. intros key Hin. destruct (Hall _ Hin) as [? Hl].
    split; [done|]. by apply lookup_insert_None in Hl as [].
  - intros key. rewrite Hdom, lookup_insert_is_Some', elem_of_cons. naive_solver.
Qed.

Lemma Validate_ok keys :
  Validate IsQualifiedName keys = Ok () →
  NoDup (Fabric keys ++ [XclrDomain keys; XclrSubDomain keys]) ∧
  Forall (λ key, key ≠ "") (Fabric keys).
Proof.
  unfold Validate. set (lks := imap _ _). intros Hv.
  assert (lks.*2 = Fabric keys) as Hlks.
  { unfold lks. rewrite fmap_imap. apply list_eq. intros i. rewrite list_lookup_imap. by destruct (_ !! i). }
  apply bind_Ok in Hv as (s0 & H0 & (s1 & H1 & (s2 & H2 & _)%bind_Ok)%bind_Ok).
  apply validateKeys_ok in H0 as (Hnd & Hall & Hdom). rewrite Hlks in *.
  apply validateKey_ok in H1 as (_ & H1 & ->). apply validateKey_ok in H2 as (_ & H2 & _). simpl in *.
  apply lookup_insert_None in H2 as [H2 Hne].
  assert (∀ key, s0 !! key = None → key ∉ Fabric keys) as Hnot.
  { intros key Hk Hin. destruct (proj2 (Hdom key)); [by right|congruence]. }
  split.
  - apply NoDup_app. split_and!; [done| |].
    + intros key Hin [->|[->|[]%elem_of_nil]%elem_of_cons]%elem_of_cons;
        by apply Hnot in Hin.
    + apply NoDup_cons. split; [|apply NoDup_singleton]. rewrite list_elem_of_singleton. done.
  - eapply Forall_impl; [done|]. naive_solver.
Qed.

(** Different tiers have different keys, which are not the accelerator keys. *)
Definition keys_distinct (keys : TopologyLabelKeys) : Prop :=
  XclrDomain keys ≠ XclrSubDomain keys ∧
  (∀ i, FabricKey keys i ≠ "" → FabricKey keys i ≠ XclrDomain keys ∧ FabricKey keys i ≠ XclrSubDomain keys) ∧
  (∀ i j, 0 ≤ i → 0 ≤ j → FabricKey keys i = FabricKey keys j → FabricKey keys i ≠ "" → i = j) ∧
  (∀ i j, 0 ≤ i ≤ j → FabricKey keys j ≠ "" → FabricKey keys i ≠ "").

Lemma keys_distinct_default : keys_distinct (NewTopologyLabelKeys [] "").
Proof.
  unfold NewTopologyLabelKeys, keys_distinct, FabricKey. simpl. split_and!; try done.
  intros i j Hi Hj Heq _. injection Heq as Heq. by apply itoa_inj.
Qed.

Lemma FabricKey_custom keys i :
  Fabric keys ≠ [] → FabricKey keys i ≠ "" →
  Fabric keys !! Z.to_nat i = Some (FabricKey keys i) ∧ 0 ≤ i < Z.of_nat (length (Fabric keys)).
Proof.
  intros Hne. unfold FabricKey. rewrite decide_False by done.
  destruct (Z.leb_spec 0 i), (Z.ltb_spec i (Z.of_nat (length (Fabric keys)))); simpl; try done.
  intros _. split; [|lia]. destruct (lookup_lt_is_Some_2 (Fabric keys) (Z.to_nat i)) as [k ->]; [lia|done].
Qed.

Lemma keys_distinct_custom keys :
  Validate IsQualifiedName keys = Ok () → Fabric keys ≠ [] → keys_distinct keys.
Proof.
  intros [Hnd Hne]%Validate_ok Hcustom. apply NoDup_app in Hnd as (Hnd & Hdisj & Hx).
  rewrite Forall_forall in Hne. split_and!.
  - apply NoDup_cons in Hx as [Hx _]. by rewrite list_elem_of_singleton in Hx.
  - intros i [Hi _]%FabricKey_custom; [|done]. apply list_elem_of_lookup_2, Hdisj in Hi.
    by rewrite !not_elem_of_cons in Hi; destruct Hi as (? & ? & _).
  - intros i j Hi Hj Heq Hk. destruct (FabricKey_custom _ _ Hcustom Hk) as [Hi' _].
    rewrite Heq in Hk, Hi'. destruct (FabricKey_custom _ _ Hcustom Hk) as [Hj' _].
    pose proof (NoDup_lookup _ _ _ _ Hnd Hi' Hj'). lia.
  - intros i j Hij [_ Hj]%FabricKey_custom; [|done]. unfold FabricKey. rewrite decide_False by done.
    destruct (Z.leb_spec 0 i), (Z.ltb_spec i (Z.of_nat (length (Fabric keys)))); simpl; try lia.
    destruct (lookup_lt_is_Some_2 (Fabric keys) (Z.to_nat i)) as [k Hk]; [lia|]. rewrite Hk. simpl.
    by eapply Hne, list_elem_of_lookup_2.
Qed.
End KeysDistinct.

(** ** The labels of one node *)

Section Node.
Context (keys : TopologyLabelKeys).

Lemma tierLoop_mapper i m labels sws :
  mapper_ok m → mapper_ok (tierLoop keys i m labels sws).1.
Proof.
  revert i m labels. induction sws as [|sw sws IH]; intros i m labels Hm; simpl; [done|].
  case_decide; [done|]. destruct (checkLabel m sw) as [m' v] eqn:Hc.
  apply IH. by pose proof (checkLabel_spec m sw Hm) as [_ Hok]; rewrite Hc in Hok.
Qed.

(** The value of tier [i]: the switch at that distance, if it and the switches
    below it have an ID. *)
Definition tierValue (sws : list string) (i : nat) : option string :=
  if decide (Forall (λ sw, sw ≠ "") (take (S i) sws)) then labelValue <$> sws !! i else None.

Lemma tierLoop_other i m labels sws k :
  (∀ j, i ≤ j → k ≠ FabricKey keys j) → (tierLoop keys i m labels sws).2 !! k = labels !! k.
Proof.
  revert i m labels. induction sws as [|sw sws IH]; intros i m labels Hk; simpl; [done|].
  case_decide; [done|]. destruct (checkLabel m sw) as [m' v]. rewrite IH.
  - apply lookup_insert_ne. intros Heq. by apply (Hk i); [lia|].
  - intros j Hj. apply Hk. lia.
Qed.

Lemma tierLoop_tier i m labels sws n :
  keys_distinct keys → mapper_ok m → 0 ≤ i →
  FabricKey keys (i + Z.of_nat n) ≠ "" →
  (tierLoop keys i m labels sws).2 !! FabricKey keys (i + Z.of_nat n) =
    match tierValue sws n with Some v => Some v | None => labels !! FabricKey keys (i + Z.of_nat n) end.
Proof.
  intros (Hx & Hdx & Hinj & Hmono). revert i m labels n.
  induction sws as [|sw sws IH]; intros i m labels n Hm Hi Hk; unfold tierValue; csimpl.
  { done. }
  assert (FabricKey keys i ≠ "") as Hki by (eapply (Hmono _ (i + Z.of_nat n)); [lia|done]).
  destruct (decide (sw = "")) as [->|Hsw].
  { rewrite decide_True by (by left). rewrite decide_False; [done|]. inversion 1; done. }
  rewrite decide_False by naive_solver. destruct (checkLabel m sw) as [m' v] eqn:Hc.
  pose proof (checkLabel_spec m sw Hm) as [Hv Hm']. rewrite Hc in Hv, Hm'. simpl in *. subst v.
  destruct n as [|n].
  - rewrite Z.add_0_r. simpl. rewrite decide_True by (by repeat constructor).
    rewrite tierLoop_other by (intros j Hj Heq; assert (i = j) by (apply Hinj; auto; lia); lia).
    by rewrite lookup_insert_eq.
  - replace (i + Z.of_nat (S n)) with ((i + 1) + Z.of_nat n) in * by lia.
    rewrite IH by (done || lia). unfold tierValue.
    change (take (S (S n)) (sw :: sws)) with (sw :: take (S n) sws). simpl (_ !! S n).
    assert (FabricKey keys i ≠ FabricKey keys (i + 1 + Z.of_nat n)) as Hne
      by (intros Heq; assert (i = i + 1 + Z.of_nat n) by (apply Hinj; auto; lia); lia).
    rewrite lookup_insert_ne by done.
    destruct (decide (Forall (λ sw0, sw0 ≠ "") (take (S n) sws))) as [HF|HF].
    + by rewrite decide_True by (by constructor).
    + by rewrite decide_False by (by intros [_ ?]%Forall_cons).
Qed.
End Node.

(** ** The labels of the accelerator domains *)

#[local] Arguments domainLabel : simpl never.

Section Domains.
Context `{RangeOrder} (keys : TopologyLabelKeys).

(** The accelerator labels of a host. *)
Definition hostLabels (d : string) (hi : HostInfo) : gmap string string :=
  let labels := {[XclrDomain keys := labelValue d]} in
  if decide (SubDomain hi = "") then labels else <[XclrSubDomain keys := labelValue (SubDomain hi)]> labels.

Abbreviation entry := (string * (string * HostInfo))%type.

Definition domainEntries (domains : DomainMap) : list entry :=
  range domains ≫= λ d, pair d.1 <$> range d.2.

Lemma foldM_pair {E S A B} (f : B → S → A → result E S) (b : B) (l : list A) s :
  foldM (λ s e, f e.1 s e.2) s (pair b <$> l) = foldM (f b) s l.
Proof. revert s. induction l as [|x l IH]; intros s; csimpl; [done|]. by destruct (f b s x). Qed.

Lemma getDomainLabels_entries domains st :
  getDomainLabels keys domains st = foldM (λ st e, domainLabel keys e.1 st e.2) st (domainEntries domains).
Proof.
  unfold getDomainLabels, domainEntries. generalize (range domains). intros l. revert st.
  induction l as [|d l IH]; intros st; csimpl; [done|].
  rewrite foldM_app, (foldM_pair (domainLabel keys)). by destruct (foldM _ st _) as [st'|e]; simpl.
Qed.

Lemma elem_of_domainEntries domains d n hi :
  (d, (n, hi)) ∈ domainEntries domains ↔ ∃ hosts, domains !! d = Some hosts ∧ hosts !! n = Some hi.
Proof.
  unfold domainEntries. rewrite list_elem_of_bind. split.
  - intros ([d' hosts] & ([n' hi'] & [= -> -> ->] & Hn)%list_elem_of_fmap & Hd). simpl in *.
    apply elem_of_range in Hn, Hd. eauto.
  - intros (hosts & Hd & Hn). exists (d, hosts). rewrite elem_of_range. split; [|done].
    apply list_elem_of_fmap. exists (n, hi). by rewrite elem_of_range.
Qed.

Lemma domainEntries_NoDup domains : NoDup (domainEntries domains).
Proof.
  assert (∀ A (m : gmap string A), NoDup (range m)) as Hr
    by (intros A m; apply (NoDup_fmap_1 fst), range_NoDup).
  apply NoDup_bind; [|intros d _; apply (NoDup_fmap_2 _), Hr|apply Hr].
  intros [d1 h1] [d2 h2] [d e] H1 H2 (e1 & [= -> _] & _)%list_elem_of_fmap (e2 & [= -> _] & _)%list_elem_of_fmap.
  simpl in *. apply elem_of_range in H1, H2. by simplify_eq.
Qed.

Lemma domainLabel_new d st n hi :
  n ≠ "" → mapper_ok (mapper st) → nodeMap st !! n = None →
  ∃ m, domainLabel keys d st (n, hi) = Ok (MkLabels m (<[n := hostLabels d hi]> (nodeMap st))) ∧ mapper_ok m.
Proof.
  intros Hn Hm Hnew. unfold domainLabel. rewrite decide_False, Hnew by done. simpl. rewrite lookup_empty.
  pose proof (checkLabel_spec _ d Hm) as Hc. destruct (checkLabel _ d) as [m v]. simpl in Hc.
  destruct Hc as [-> Hm1]. rewrite insert_empty. unfold hostLabels. case_decide; [eauto|].
  pose proof (checkLabel_spec _ (SubDomain hi) Hm1) as Hc. destruct (checkLabel m _) as [m2 v2].
  simpl in Hc. destruct Hc as [-> Hm2]. eauto.
Qed.

Lemma domainLabels_run (es : list entry) st :
  NoDup es → (∀ e1 e2, e1 ∈ es → e2 ∈ es → e1.2.1 = e2.2.1 → e1.2.1 ≠ "" → e1 = e2) →
  mapper_ok (mapper st) → (∀ e, e ∈ es → nodeMap st !! e.2.1 = None) →
  ∃ st', foldM (λ st e, domainLabel keys e.1 st e.2) st es = Ok st' ∧ mapper_ok (mapper st') ∧
    (∀ d n hi, (d, (n, hi)) ∈ es → n ≠ "" → nodeMap st' !! n = Some (hostLabels d hi)) ∧
    (∀ n, n = "" ∨ n ∉ (λ e : entry, e.2.1) <$> es → nodeMap st' !! n = nodeMap st !! n).
Proof.
  revert st. induction es as [|[d [n hi]] es IH]; intros st Hnd Huniq Hm Hnew; simpl.
  { exists st. split_and!; [done|done| |done]. set_solver. }
  apply NoDup_cons in Hnd as [Hnin Hnd].
  assert (∀ e, e ∈ es → n ≠ "" → e.2.1 ≠ n) as Hother.
  { intros e He Hn Heq. apply Hnin. rewrite (Huniq (d, (n, hi)) e); set_solver. }
  destruct (decide (n = "")) as [->|Hn].
  { destruct (IH st) as (st' & Hrun & Hm' & Hin & Hout); [done|set_solver|done|set_solver|].
    exists st'. split_and!; [done|done| |].
    - intros d' n' hi' [[= -> -> ->]|Hin']%elem_of_cons Hn'; [done|]. eauto.
    - intros n'. csimpl. set_solver. }
  destruct (domainLabel_new d st n hi) as (m & -> & Hm1); [done|done|by apply (Hnew (d, (n, hi))), list_elem_of_here|].
  destruct (IH (MkLabels m (<[n := hostLabels d hi]> (nodeMap st)))) as (st' & Hrun & Hm' & Hin & Hout);
    [done|set_solver|done| |].
  { intros e He. simpl. rewrite lookup_insert_ne by (intros ->; by eapply Hother). set_solver. }
  exists st'. split_and!; [done|done| |].
  - intros d' n' hi' [[= -> -> ->]|Hin']%elem_of_cons Hn'; [|eauto]. rewrite Hout; simpl.
    + by rewrite lookup_insert_eq.
    + right. intros (e & ? & He)%list_elem_of_fmap. by eapply Hother.
  - intros n' Hn'. csimpl in Hn'. rewrite Hout; simpl; [|set_solver]. apply lookup_insert_ne. set_solver.
Qed.
End Domains.

(** ** The labels of the tiers *)

Section Tiers.
Context `{RangeOrder} (keys : TopologyLabelKeys) (h : heap).

(** The layers at the end of a key path. *)
Fixpoint layersAt (l : nat) (ks layers : list string) : list string :=
  match ks with
  | [] => layers
  | k :: ks => match Vertices (deref h l) !! k with
               | Some (Some w) => layersAt w ks (v_ID (deref h w) :: layers)
               | _ => layers
               end
  end.

Definition addLeaf (l : nat) (layers : list string) (st : labelState) (p : list string * nat) :
    result labelErr labelState :=
  leafLabels keys (deref h p.2) (layersAt l p.1 layers) st.

Lemma addLeaf_below l layers k w st ps :
  Vertices (deref h l) !! k = Some (Some w) →
  foldM (addLeaf l layers) st ((λ p, (k :: p.1, p.2)) <$> ps) =
  foldM (addLeaf w (v_ID (deref h w) :: layers)) st ps.
Proof.
  intros Hk. revert st. induction ps as [|p ps IH]; intros st; csimpl; [done|].
  unfold addLeaf at 1 3. simpl. rewrite Hk. by destruct (leafLabels _ _ _ _).
Qed.

(** The recursive walk visits the leaves one after the other. *)
Lemma getTierLabels_leaves fuel l layers st ps :
  leafPaths h fuel l = Some ps →
  getTierLabels keys fuel h l layers st = Some (foldM (addLeaf l layers) st ps).
Proof.
  revert l layers st ps. induction fuel as [|fuel IH]; intros l layers st ps; simpl; [done|].
  case_decide as Hleaf.
  { intros [= <-]. unfold addLeaf. simpl. by destruct (leafLabels _ _ _ _). }
  intros (pss & Hm & ->)%fmap_Some.
  assert (∀ k oc, (k, oc) ∈ range (Vertices (deref h l)) → Vertices (deref h l) !! k = Some oc) as Hin
    by (intros k oc; by rewrite elem_of_range).
  revert Hm Hin. generalize (range (Vertices (deref h l))) as es. intros es. revert pss st.
  induction es as [|[k oc] es IHes]; intros pss st Hm Hin; simpl in Hm.
  { injection Hm as <-. done. }
  apply bind_Some in Hm as (qs & Hq & (pss' & Hm & [= <-])%bind_Some).
  destruct oc as [w|]; simpl in Hq; [|done]. apply fmap_Some in Hq as (ps & Hps & ->). simpl.
  rewrite (IH _ _ _ _ Hps), foldM_app, (addLeaf_below l layers k w) by (apply Hin; left).
  destruct (foldM _ st ps) as [st'|e]; simpl.
  - apply IHes; [done|]. intros k' oc' Hk'. apply Hin. by right.
  - clear. by induction es.
Qed.

Lemma layersAt_head l ks layers w :
  lookupPath h l ks = Some w → (layers = [] ∨ head layers = Some (v_ID (deref h l))) →
  layersAt l ks layers = [] ∨ head (layersAt l ks layers) = Some (v_ID (deref h w)).
Proof.
  revert l layers. induction ks as [|k ks IH]; intros l layers; simpl; [by intros [= <-]|].
  destruct (Vertices (deref h l) !! k) as [[w'|]|]; [|done|done]. intros Hl _. apply IH; [done|by right].
Qed.

Definition labelsOf (st : labelState) (n : string) : gmap string string := default ∅ (nodeMap st !! n).

Definition leafName (p : list string * nat) : string := v_Name (deref h p.2).

(** The keys of a map are keys of this labeler and its values short. *)
Definition label_ok (labels : gmap string string) : Prop :=
  map_Forall (λ k v, (String.length v ≤ 63)%nat ∧
    (k = XclrDomain keys ∨ k = XclrSubDomain keys ∨ ∃ i, 0 ≤ i ∧ k = FabricKey keys i)) labels.

Lemma tierLoop_ok i m labels sws :
  0 ≤ i → mapper_ok m → label_ok labels → label_ok (tierLoop keys i m labels sws).2.
Proof.
  revert i m labels. induction sws as [|sw sws IH]; intros i m labels Hi Hm Hl; simpl; [done|].
  case_decide; [done|]. pose proof (checkLabel_spec m sw Hm) as Hc.
  destruct (checkLabel m sw) as [m' v]. simpl in Hc. destruct Hc as [-> Hm'].
  apply IH; [lia|done|]. apply map_Forall_insert_2; [|done]. split; [apply labelValue_length|eauto].
Qed.

(** A leaf with a name that was not met before. *)
Lemma leafLabels_spec v layers st :
  keys_distinct keys → mapper_ok (mapper st) → label_ok (labelsOf st (v_Name v)) →
  (∀ i, FabricKey keys i ≠ "" → labelsOf st (v_Name v) !! FabricKey keys i = None) →
  (layers = [] ∨ head layers = Some (v_ID v)) →
  ∃ st', leafLabels keys v layers st = Ok st' ∧ mapper_ok (mapper st') ∧
    (∀ n, n = "" ∨ n ≠ v_Name v → labelsOf st' n = labelsOf st n) ∧
    label_ok (labelsOf st' (v_Name v)) ∧
    (∀ k, (∀ i, 0 ≤ i → k ≠ FabricKey keys i) →
       labelsOf st' (v_Name v) !! k = labelsOf st (v_Name v) !! k) ∧
    (v_Name v ≠ "" → ∀ i, FabricKey keys (Z.of_nat i) ≠ "" →
       labelsOf st' (v_Name v) !! FabricKey keys (Z.of_nat i) = tierValue (tail layers) i).
Proof.
  intros Hd Hm Hok Hnone Hlayers. destruct layers as [|id sws]; simpl.
  { exists st. split_and!; try done. intros _ i Hi. rewrite Hnone by done. unfold tierValue.
    by rewrite decide_True by constructor. }
  destruct Hlayers as [?|[= ->]]; [done|]. rewrite decide_False by naive_solver.
  case_decide as Hn; [exists st; by split_and!|].
  fold (labelsOf st (v_Name v)).
  pose proof (tierLoop_mapper keys 0 _ (labelsOf st (v_Name v)) sws Hm) as Hm'.
  pose proof (tierLoop_ok 0 _ (labelsOf st (v_Name v)) sws ltac:(done) Hm Hok) as Hok'.
  pose proof (λ k, tierLoop_other keys 0 (mapper st) (labelsOf st (v_Name v)) sws k) as Hother.
  pose proof (λ n, tierLoop_tier keys 0 (mapper st) (labelsOf st (v_Name v)) sws n Hd Hm) as Htier.
  destruct (tierLoop _ _ _ _ _) as [m labels]. simpl in *. eexists. split; [done|]. unfold labelsOf in *. simpl.
  rewrite lookup_insert_eq. simpl. split_and!; [done| |done|done|].
  - intros n Hn'. rewrite lookup_insert_ne by naive_solver. done.
  - intros _ i Hi. pose proof (Htier i) as Ht. rewrite Z.add_0_l in Ht.
    rewrite Ht by (done || lia). rewrite Hnone by done. by destruct (tierValue sws i).
Qed.

(** All the leaves below a vertex. *)
Lemma addLeaves_spec l layers ps st :
  keys_distinct keys → NoDup ps.*1 →
  (∀ p1 p2, p1 ∈ ps → p2 ∈ ps → leafName p1 = leafName p2 → leafName p1 ≠ "" → p1 = p2) →
  (∀ p, p ∈ ps → lookupPath h l p.1 = Some p.2) →
  (layers = [] ∨ head layers = Some (v_ID (deref h l))) →
  mapper_ok (mapper st) → (∀ n, label_ok (labelsOf st n)) →
  (∀ p i, p ∈ ps → FabricKey keys i ≠ "" → labelsOf st (leafName p) !! FabricKey keys i = None) →
  ∃ st', foldM (addLeaf l layers) st ps = Ok st' ∧ (∀ n, label_ok (labelsOf st' n)) ∧
    (∀ n k, (∀ i, 0 ≤ i → k ≠ FabricKey keys i) → labelsOf st' n !! k = labelsOf st n !! k) ∧
    (∀ n, n ∉ leafName <$> ps → labelsOf st' n = labelsOf st n) ∧
    (∀ p i, p ∈ ps → leafName p ≠ "" → FabricKey keys (Z.of_nat i) ≠ "" →
       labelsOf st' (leafName p) !! FabricKey keys (Z.of_nat i) = tierValue (tail (layersAt l p.1 layers)) i).
Proof.
  intros Hd Hnd Huniq Hpath Hlayers. revert st.
  induction ps as [|p ps IH]; intros st Hm Hok Hnone; simpl.
  { exists st. split_and!; try done. set_solver. }
  csimpl in Hnd. apply NoDup_cons in Hnd as [Hnin Hnd].
  assert (p ∉ ps) as Hp by (intros Hin; by apply Hnin, list_elem_of_fmap_2).
  destruct (leafLabels_spec (deref h p.2) (layersAt l p.1 layers) st)
    as (st1 & Hrun & Hm1 & Hsame & Hok1 & Hother & Htier); [done|done|apply Hok| | |].
  { intros i Hi. by apply (Hnone p); [left|]. }
  { eapply layersAt_head; [apply Hpath; by left|done]. }
  fold (leafName p) in *.
  assert (∀ q, q ∈ ps → leafName q ≠ "" → leafName q ≠ leafName p) as Hne.
  { intros q Hq Hn Heq. apply Hp. rewrite <-(Huniq q p); [done|by right|by left|done|done]. }
  destruct (IH Hnd ltac:(set_solver) ltac:(set_solver) st1) as (st' & Hrun' & Hok' & Hother' & Hsame' & Htier').
  { done. }
  { intros n. destruct (decide (n = leafName p)) as [->|Hn]; [done|]. rewrite Hsame by naive_solver. done. }
  { intros q i Hq Hi. rewrite Hsame; [apply Hnone; [by right|done]|].
    destruct (decide (leafName q = "")); [by left|right]. by apply Hne. }
  exists st'. unfold addLeaf at 1. rewrite Hrun. split_and!; [done|done| | |].
  - intros n k Hk. rewrite Hother' by done. destruct (decide (n = leafName p)) as [->|Hn]; [by apply Hother|].
    by rewrite Hsame by naive_solver.
  - intros n. csimpl. intros [Hn1 Hn2]%not_elem_of_cons. rewrite Hsame' by done. apply Hsame. by right.
  - intros q i [->|Hq]%elem_of_cons Hn Hi; [|by apply Htier'].
    rewrite Hsame'; [by apply Htier|]. intros (q & Heq & Hq)%list_elem_of_fmap.
    eapply (Hne q); [done|congruence|done].
Qed.
End Tiers.

(** ** The labels of a graph *)

Section Graph.
Context `{RangeOrder} (IsQualifiedName : string → list string).

(** The switches above the end of a key path, closest first. *)
Definition switchesAbove (h : heap) (root : nat) (ks : list string) : list string :=
  tail (layersAt h root ks (if decide (v_ID (deref h root) = "") then [] else [v_ID (deref h root)])).

Lemma hostLabels_fabric keys d hi i :
  keys_distinct keys → FabricKey keys i ≠ "" → hostLabels keys d hi !! FabricKey keys i = None.
Proof.
  intros (_ & Hx & _) Hi. destruct (Hx i Hi) as [H1 H2]. unfold hostLabels.
  case_decide; rewrite ?lookup_insert_ne, lookup_singleton_ne by done; done.
Qed.

Lemma hostLabels_lookup keys d hi :
  keys_distinct keys →
  hostLabels keys d hi !! XclrDomain keys = Some (labelValue d) ∧
  hostLabels keys d hi !! XclrSubDomain keys =
    if decide (SubDomain hi = "") then None else Some (labelValue (SubDomain hi)).
Proof.
  intros (Hne & _). unfold hostLabels. case_decide; split.
  - apply lookup_singleton_eq.
  - by apply lookup_singleton_ne.
  - rewrite lookup_insert_ne by congruence. apply lookup_singleton_eq.
  - apply lookup_insert_eq.
Qed.

Lemma hostLabels_ok keys d hi : label_ok keys (hostLabels keys d hi).
Proof.
  assert (label_ok keys {[XclrDomain keys := labelValue d]}) as H1.
  { apply map_Forall_singleton. split; [apply labelValue_length|by left]. }
  unfold hostLabels. case_decide; [done|]. apply map_Forall_insert_2; [|done].
  split; [apply labelValue_length|by right; left].
Qed.

(** The state after the accelerator domains. *)
Lemma domains_labelled keys domains :
  keys_distinct keys →
  (∀ d1 d2 hosts1 hosts2 n, domains !! d1 = Some hosts1 → domains !! d2 = Some hosts2 →
     is_Some (hosts1 !! n) → is_Some (hosts2 !! n) → n ≠ "" → d1 = d2) →
  ∃ st, getDomainLabels keys domains (MkLabels ∅ ∅) = Ok st ∧ mapper_ok (mapper st) ∧
    (∀ d hosts n hi, domains !! d = Some hosts → hosts !! n = Some hi → n ≠ "" →
       labelsOf st n = hostLabels keys d hi) ∧
    (∀ n, label_ok keys (labelsOf st n)) ∧
    (∀ n i, FabricKey keys i ≠ "" → labelsOf st n !! FabricKey keys i = None).
Proof.
  intros Hd Hdoms.
  destruct (domainLabels_run keys (domainEntries domains) (MkLabels ∅ ∅)) as (st & Hst & Hm & Hin & Hout).
  { apply domainEntries_NoDup. }
  { intros [d1 [n1 h1]] [d2 [n2 h2]] (hosts1 & H1 & H1')%elem_of_domainEntries
      (hosts2 & H2 & H2')%elem_of_domainEntries. simpl. intros <- Hn.
    assert (d1 = d2) as <- by (eapply (Hdoms d1 d2 _ _ n1); eauto). by simplify_eq. }
  { apply map_Forall_empty. }
  { intros e _. apply lookup_empty. }
  assert (∀ n, labelsOf st n = ∅ ∨ ∃ d hi, labelsOf st n = hostLabels keys d hi) as Hcases.
  { intros n. unfold labelsOf.
    destruct (decide (n = "" ∨ n ∉ (λ e, e.2.1) <$> domainEntries domains)) as [Hn|[Hn Hes]%Decidable.not_or].
    - rewrite Hout by done. left. done.
    - apply dec_stable, list_elem_of_fmap in Hes as ([d [n' hi]] & -> & He). right. exists d, hi.
      simpl in *. by rewrite (Hin _ _ _ He). }
  exists st. rewrite getDomainLabels_entries. split_and!; [done|done| | |].
  - intros d hosts n hi H1 H2 Hn. unfold labelsOf. rewrite (Hin d n hi); [done| |done].
    apply elem_of_domainEntries. eauto.
  - intros n. destruct (Hcases n) as [->|(d & hi & ->)]; [apply map_Forall_empty|apply hostLabels_ok].
  - intros n i Hi. destruct (Hcases n) as [->|(d & hi & ->)]; [apply lookup_empty|by apply hostLabels_fabric].
Qed.

Lemma keys_distinct_new fabric accel :
  IsQualifiedName "" ≠ [] → Validate IsQualifiedName (NewTopologyLabelKeys fabric accel) = Ok () →
  (fabric ≠ [] ∨ accel = "") → keys_distinct (NewTopologyLabelKeys fabric accel).
Proof.
  intros Hq Hval Hkeys. destruct (decide (fabric = [])) as [->|Hf].
  - destruct Hkeys as [?| ->]; [done|apply keys_distinct_default].
  - by eapply keys_distinct_custom.
Qed.

(** On a tree in which no two nodes share a name and no node is in two
    accelerator domains, [BuildNodeLabels] succeeds: the label of each tier of
    a node is the switch at that distance above it (as long as no switch below
    is unnamed), the accelerator labels are the node's domain and sub-domain,
    and there are no others; every value is at most 63 characters long. *)
Theorem node_labels_spec fabric accel g root :
  let keys := NewTopologyLabelKeys fabric accel in
  let h := g_heap g in
  let domains := default ∅ (Domains g) in
  IsQualifiedName "" ≠ [] → Validate IsQualifiedName keys = Ok () → (fabric ≠ [] ∨ accel = "") →
  Tiers g = Some root → is_tree h root →
  (∀ ks1 ks2 l1 l2, lookupPath h root ks1 = Some l1 → lookupPath h root ks2 = Some l2 →
     Vertices (deref h l1) = ∅ → Vertices (deref h l2) = ∅ →
     v_Name (deref h l1) = v_Name (deref h l2) → v_Name (deref h l1) ≠ "" → ks1 = ks2) →
  (∀ d1 d2 hosts1 hosts2 n, domains !! d1 = Some hosts1 → domains !! d2 = Some hosts2 →
     is_Some (hosts1 !! n) → is_Some (hosts2 !! n) → n ≠ "" → d1 = d2) →
  ∃ nm, BuildNodeLabels keys (Some g) = Some (Ok nm) ∧
    let labels n := default ∅ (nm !! n) in
    (∀ ks l i, lookupPath h root ks = Some l → Vertices (deref h l) = ∅ → v_Name (deref h l) ≠ "" →
       FabricKey keys (Z.of_nat i) ≠ "" →
       labels (v_Name (deref h l)) !! FabricKey keys (Z.of_nat i) = tierValue (switchesAbove h root ks) i) ∧
    (∀ d hosts n hi, domains !! d = Some hosts → hosts !! n = Some hi → n ≠ "" →
       labels n !! XclrDomain keys = Some (labelValue d) ∧
       labels n !! XclrSubDomain keys = if decide (SubDomain hi = "") then None else Some (labelValue (SubDomain hi))) ∧
    (∀ n, label_ok keys (labels n)).
Proof.
  intros keys h domains Hq Hval Hkeys Hroot Htree Hnames Hdoms.
  pose proof (keys_distinct_new _ _ Hq Hval Hkeys) as Hd. fold keys in Hd.
  destruct (domains_labelled keys domains Hd Hdoms) as (st & Hst & Hm & Hhosts & Hok & Hnone).
  destruct (leafPaths_total h root (labelFuel h) [] root) as [ps Hps]; [done|done|unfold labelFuel; simpl; lia|].
  set (id := v_ID (deref h root)).
  destruct (addLeaves_spec keys h root (if decide (id = "") then [] else [id]) ps st)
    as (st' & Hrun & Hok' & Hother & _ & Htier); try done.
  { by eapply leafPaths_NoDup. }
  { intros [ks1 l1] [ks2 l2] [H1 H1']%(leafPaths_elem _ _ _ _ _ _ Hps)
      [H2 H2']%(leafPaths_elem _ _ _ _ _ _ Hps) Heq Hn.
    assert (ks1 = ks2) as <- by (by eapply Hnames). by simplify_eq. }
  { intros [ks l] [Hl _]%(leafPaths_elem _ _ _ _ _ _ Hps). done. }
  { case_decide; [by left|by right]. }
  { intros p i _. apply Hnone. }
  exists (nodeMap st'). split.
  { unfold BuildNodeLabels. replace (match Domains g with Some d => _ | None => _ end) with (Ok (E := labelErr) st).
    - rewrite Hroot. fold h id. by rewrite (getTierLabels_leaves _ _ _ _ _ _ _ Hps), Hrun.
    - symmetry. unfold domains in Hst. destruct (Domains g); [done|]. simpl in Hst.
      unfold getDomainLabels in Hst. by rewrite range_empty in Hst. }
  assert (XclrDomain keys ≠ "" ∧ XclrSubDomain keys ≠ "") as [Hx1 Hx2].
  { split; [|done]. unfold keys, NewTopologyLabelKeys. simpl. by destruct (decide (accel = "")) as [->|]. }
  assert (∀ k, k ≠ "" → (k = XclrDomain keys ∨ k = XclrSubDomain keys) → ∀ i, 0 ≤ i → k ≠ FabricKey keys i) as Hx.
  { intros k Hk Hkx i _ ->. destruct Hd as (_ & Hd & _). destruct (Hd i Hk). naive_solver. }
  simpl. split_and!.
  - intros ks l i Hl Hleaf Hn Hi. apply (Htier (ks, l)); [|done|done].
    by apply (leafPaths_elem _ _ _ _ _ _ Hps).
  - intros d hosts n hi Hdom Hhost Hn. fold (labelsOf st' n).
    rewrite !Hother by (apply Hx; auto). rewrite (Hhosts _ _ _ _ Hdom Hhost Hn).
    by apply hostLabels_lookup.
  - apply Hok'.
Qed.
End Graph.

(** ** Examples *)

Definition w_heap : heap :=
  {[ 0%nat := MkVertex "" "" {[ "spine" := Some 1%nat ]};
     1%nat := MkVertex "" "spine" {[ "leaf" := Some 2%nat; "i2" := Some 3%nat ]};
     2%nat := MkVertex "" "leaf" {[ "i1" := Some 4%nat ]};
     3%nat := MkVertex "n2" "i2" ∅; 4%nat := MkVertex "n1" "i1" ∅ ]}.
Definition w_domains : DomainMap :=
  AddHostInfo (AddHost NewDomainMap "d1" "i1" "n1") (Some (MkHostInfo "d2" "i2" "n2" "s2")).
Definition w_graph : Graph := MkGraph w_heap (Some 0%nat) (Some w_domains) None.
Definition w_qualified (s : string) : list string := if decide (s = "") then ["empty"] else [].

Example w_labels :
  BuildNodeLabels (NewTopologyLabelKeys ["t0"; "t1"] "") (Some w_graph) =
    Some (Ok {[ "n1" := {[ "t0" := "leaf"; "t1" := "spine"; KeyTopologyXclrDomain := "d1" ]};
                "n2" := {[ "t0" := "spine"; KeyTopologyXclrDomain := "d2"; KeyTopologyXclrSubDomain := "s2" ]} ]}).
Proof. vm_eq. Qed.

(** Without configured fabric keys the default ones are not compared with the
    accelerator key: here both are the key of tier 0, and the domain of a node
    is overwritten by its switch. *)
Example Validate_default_collision :
  let keys := NewTopologyLabelKeys [] (FabricTierKey 0) in
  Validate w_qualified keys = Ok () ∧
  BuildNodeLabels keys (Some (MkGraph w_heap (Some 0%nat) (Some (AddHost NewDomainMap "d1" "i1" "n1")) None)) =
    Some (Ok {[ "n1" := {[ FabricTierKey 0 := "leaf"; FabricTierKey 1 := "spine" ]};
                "n2" := {[ FabricTierKey 0 := "spine" ]} ]}).
Proof. split; vm_eq. Qed.

Lemma w_tree : is_tree w_heap 0.
Proof.
  assert (∃ st, Network.initTree (Some w_graph) = Some (Ok st)) as [st Hst] by (by vm_compute; eexists).
  by apply (initTree_tree w_graph 0 st).
Qed.

Lemma w_one_domain d1 d2 hosts1 hosts2 n :
  w_domains !! d1 = Some hosts1 → w_domains !! d2 = Some hosts2 →
  is_Some (hosts1 !! n) → is_Some (hosts2 !! n) → n ≠ "" → d1 = d2.
Proof.
  intros H1 H2 [h1 E1] [h2 E2] _.
  assert ((d1, (n, h1)) ∈ domainEntries w_domains) as I1 by (apply elem_of_domainEntries; eauto).
  assert ((d2, (n, h2)) ∈ domainEntries w_domains) as I2 by (apply elem_of_domainEntries; eauto).
  assert ((d1, (n, h1)) = (d2, (n, h2))) as Heq; [|by injection Heq].
  eapply (NoDup_fmap_eq (λ e, e.2.1)); [|exact I1|exact I2|done].
  apply (bool_decide_unpack _). by vm_compute.
Qed.

Lemma node_labels_spec_witness :
  let keys := NewTopologyLabelKeys ["t0"; "t1"] "" in
  ∃ nm, BuildNodeLabels keys (Some w_graph) = Some (Ok nm) ∧
    default ∅ (nm !! "n1") !! "t1" = Some "spine" ∧
    default ∅ (nm !! "n2") !! KeyTopologyXclrSubDomain = Some "s2".
Proof.
  intros keys.
  destruct (node_labels_spec w_qualified ["t0"; "t1"] "" w_graph 0) as (nm & Hnm & Ht & Hd & _).
  - done.
  - reflexivity.
  - by left.
  - done.
  - exact w_tree.
  - intros ks1 ks2 l1 l2 H1 H2 E1 E2 Heq _.
    eapply (leafNames_unique w_heap 6 0); [vm_compute; reflexivity| |exact H1|exact H2|done|done|done].
    apply (bool_decide_unpack _). by vm_compute.
  - exact w_one_domain.
  - exists nm. split; [done|]. split.
    + apply (Ht ["spine"; "leaf"; "i1"] 4%nat 1%nat); done.
    + apply (Hd "d2" {[ "n2" := MkHostInfo "d2" "i2" "n2" "s2" ]} "n2" (MkHostInfo "d2" "i2" "n2" "s2")); done.
Defined.

End K8sLabels.
