(* ===== verification/K8sEngine.v ===== *)
(** * The k8s engine: [pkg/engines/k8s/kubernetes.go], [engine.go], and the
    node helpers of [internal/k8s]

    The engine reconciles the topology labels of Kubernetes nodes with the
    labels built from the graph.  The cluster is a parameter: an interface
    with the three API calls the engine makes and what the API promises of
    them.  The engine keeps a cache of nodes, filled when the compute
    instances of a request are resolved. *)

From S2P Require Import Prelude GoStrings Domain Topology Queue Request K8sLabels.
Open Scope Z_scope.

(** ** Nodes and the cluster *)

Abbreviation labelMap := (gmap string string).

(** The parts of a Node object that the engine reads. *)
Record Node := MkNode {
  n_Name : string;
  n_Labels : labelMap;
  n_Annotations : labelMap
}.

(** What [Nodes().Get] returns. *)
Inductive getResult :=
| NodeFound (node : Node)
| NodeNotFound
| NodeGetError (msg : string).

(** A strategic merge patch of labels: a null value removes the key. *)
Definition applyPatch (labels : labelMap) (changes : gmap string (option string)) : labelMap :=
  merge (λ cur ch, match ch with Some v => v | None => cur end) labels changes.

(** The Kubernetes API as the engine uses it.  [stored] is the labels the API
    server holds for each node; a list or a get returns them, and a patch that
    succeeds changes those of its node only. *)
Class Cluster (W : Type) := {
  listNodes : W → labelMap → result string (list Node);
  getNode : W → string → getResult;
  patchNode : W → string → gmap string (option string) → W * option string;
  stored : W → gmap string labelMap;
  listNodes_stored : ∀ w sel nodes node,
    listNodes w sel = Ok nodes → node ∈ nodes → stored w !! n_Name node = Some (n_Labels node);
  getNode_stored : ∀ w name node,
    getNode w name = NodeFound node → n_Name node = name ∧ stored w !! name = Some (n_Labels node);
  patchNode_stored : ∀ w name changes w',
    patchNode w name changes = (w', None) →
    ∃ cur, stored w !! name = Some cur ∧ stored w' = <[name := applyPatch cur changes]> (stored w)
}.

Module K8sEngine.
Import Domain K8sLabels.

(** ** Node metadata: [internal/k8s/node_metadata.go] *)

Definition KeyNodeInstance : string := "topograph.run/instance".
Definition KeyNodeRegion : string := "topograph.run/region".

Record MetadataSource := MkSource { s_Type : string; s_Key : string }.
Record NodeMetadata := MkMetadata { m_InstanceID : option MetadataSource; m_Region : option MetadataSource }.

Inductive metaErr :=
| SourceRequired (field : string)
| BadSourceType (field : string)
| BadSourceKey (field key : string) (errs : list string).

Definition validateSource (IsQualifiedName : string → list string) (field : string)
    (source : option MetadataSource) : result metaErr () :=
  match source with
  | None => Err (SourceRequired field)
  | Some s =>
      if decide (s_Type s ≠ "label" ∧ s_Type s ≠ "annotation") then Err (BadSourceType field)
      else if decide (IsQualifiedName (s_Key s) = []) then Ok ()
      else Err (BadSourceKey field (s_Key s) (IsQualifiedName (s_Key s)))
  end.

Definition NodeMetadata_Validate (IsQualifiedName : string → list string) (m : option NodeMetadata) :
    result metaErr () :=
  match m with
  | None => Ok ()
  | Some m => _ ← validateSource IsQualifiedName "instanceID" (m_InstanceID m);
              validateSource IsQualifiedName "region" (m_Region m)
  end.

Definition metadataValue (node : Node) (source : option MetadataSource) : string :=
  match source with
  | None => ""
  | Some s =>
      trim_space (default "" ((if decide (s_Type s = "label") then n_Labels node else n_Annotations node) !! s_Key s))
  end.

Definition setMetadata (annotations : labelMap) (source : option MetadataSource) (key value : string) : labelMap :=
  match source with
  | None => annotations
  | Some _ => if decide (value = "") then delete key annotations else <[key := value]> annotations
  end.

(** Both values are read before either annotation is written. *)
Definition resolveNode (metadata : NodeMetadata) (node : Node) : Node :=
  let instance := metadataValue node (m_InstanceID metadata) in
  let region := metadataValue node (m_Region metadata) in
  MkNode (n_Name node) (n_Labels node)
    (setMetadata (setMetadata (n_Annotations node) (m_InstanceID metadata) KeyNodeInstance instance)
       (m_Region metadata) KeyNodeRegion region).

Definition resolveNodeMetadata (metadata : option NodeMetadata) (nodes : list Node) : list Node :=
  match metadata with None => nodes | Some m => resolveNode m <$> nodes end.

(** ** Compute instances of nodes: [internal/k8s/utils.go] *)

(** [regions] and [regionNames]. *)
Record regionState := MkRegions { regions : gmap string labelMap; regionNames : list string }.

Definition addNodeRegion (st : regionState) (node : Node) : regionState :=
  match n_Annotations node !! KeyNodeInstance, n_Annotations node !! KeyNodeRegion with
  | Some instance, Some region =>
      match regions st !! region with
      | None => MkRegions (<[region := {[instance := n_Name node]}]> (regions st)) (regionNames st ++ [region])
      | Some m => MkRegions (<[region := <[instance := n_Name node]> m]> (regions st)) (regionNames st)
      end
  | _, _ => st
  end.

Definition GetComputeInstances (nodes : list Node) : list ComputeInstances :=
  let st := foldl addNodeRegion (MkRegions ∅ []) nodes in
  (λ region, MkCI region (default ∅ (regions st !! region))) <$> regionNames st.

(** ** Labels of a node *)

Definition isManagedLevelLabel (key : string) (keys : TopologyLabelKeys) : bool :=
  bool_decide (key = KeyTopologyXclrDomain ∨ key = KeyTopologyXclrSubDomain) ||
  existsb (λ configured, negb (bool_decide (configured = "")) && bool_decide (key = configured))
    (Fabric keys ++ [XclrDomain keys; XclrSubDomain keys]) ||
  match cut_prefix KeyFabricTierPrefix key with
  | Some levelValue => match Atoi levelValue with Ok level => 0 <=? level | Err _ => false end
  | None => false
  end.

Definition skipAcceleratorLabelsWhenSourceExists (currentLabels labels : labelMap)
    (keys : TopologyLabelKeys) (source : string) : labelMap :=
  if decide (source = "" ∨ trim_space (default "" (currentLabels !! source)) = "") then labels
  else delete (XclrSubDomain keys) (delete (XclrDomain keys) labels).

(** Deleting the entries of a map while ranging over it. *)
Definition removeManagedTopologyLabels (labels : labelMap) (keys : TopologyLabelKeys) (source : string) :
    labelMap :=
  filter (λ kv, (source ≠ "" ∧ kv.1 = source) ∨ isManagedLevelLabel kv.1 keys = false) labels.

Definition mergeNodeLabels (current labels : labelMap) (keys : TopologyLabelKeys) (source : string) : labelMap :=
  let labels := skipAcceleratorLabelsWhenSourceExists current labels keys source in
  let desired := removeManagedTopologyLabels current keys source in
  labels ∪ desired.

(** The changes of the patch; encoding them as JSON cannot fail. *)
Definition nodeLabelPatch (current desired : labelMap) : gmap string (option string) :=
  merge (λ cur des, match cur, des with
                    | Some _, None => Some None
                    | Some c, Some d => if decide (c = d) then None else Some (Some d)
                    | None, Some d => Some (Some d)
                    | None, None => None
                    end) current desired.

(** ** The engine *)

Record Params := MkParams {
  NodeSelector : labelMap;
  AcceleratorDomainSourceLabel : string;
  labelKeys : TopologyLabelKeys
}.

(** A cached [None] is a requested node that the list did not return. *)
Record K8sEngine := MkEngine { params : Params; cachedNodeMap : option (gmap string (option Node)) }.

Inductive paramsErr :=
| LabelAndSource
| BadSource (e : keyErr)
| BadKeys (e : keyErr).

(** [getParameters], after the parameters have been decoded. *)
Definition getParameters (IsQualifiedName : string → list string) (nodeSelector : labelMap)
    (fabricLabels : list string) (acceleratorLabel source : string) : result paramsErr Params :=
  if decide (acceleratorLabel ≠ "" ∧ source ≠ "") then Err LabelAndSource
  else
    _ ← (if decide (source = "") then Ok ()
         else map_err BadSource (ValidateLabelKey IsQualifiedName "acceleratorDomainSourceLabel" source));
    let keys := NewTopologyLabelKeys fabricLabels acceleratorLabel in
    _ ← map_err BadKeys (Validate IsQualifiedName keys);
    Ok (MkParams nodeSelector source keys).

Inductive engErr :=
| ListFailed (msg : string)
| NotFoundInKubernetes (nodeName : string)
| GetFailed (nodeName msg : string)
| PatchFailed (nodeName msg : string)
| LabelsFailed (e : labelErr).

Section Engine.
Context `{RangeOrder} {W : Type} `{Cluster W}.
(** [labels.SelectorFromSet(sel).Matches]. *)
Context (selectorMatches : labelMap → labelMap → bool).
(** The node metadata sources of the request's context. *)
Context (metadata : option NodeMetadata).

Definition GetNodes (w : W) (sel : labelMap) : result engErr (list Node) :=
  match listNodes w sel with
  | Ok nodes => Ok (resolveNodeMetadata metadata nodes)
  | Err e => Err (ListFailed e)
  end.

Definition cacheNodes (nodes : list Node) : gmap string (option Node) :=
  foldl (λ m node, <[n_Name node := Some node]> m) ∅ nodes.

Definition cacheRequestedNodes (instances : list ComputeInstances) (nodes : list Node) :
    gmap string (option Node) :=
  let requested := foldl (λ m region, foldl (λ m kv, <[kv.2 := None]> m) m (range (ci_Instances region)))
                     ∅ instances in
  foldl (λ m node, match m !! n_Name node with
                   | Some _ => <[n_Name node := Some node]> m
                   | None => m
                   end) requested nodes.

Definition ResolveComputeInstances (eng : K8sEngine) (w : W) (instances : list ComputeInstances) :
    result engErr (K8sEngine * list ComputeInstances) :=
  nodes ← GetNodes w (NodeSelector (params eng));
  let instances := if decide (instances = []) then GetComputeInstances nodes else instances in
  Ok (MkEngine (params eng) (Some (cacheRequestedNodes instances nodes)), instances).

Definition loadNodes (eng : K8sEngine) (w : W) : result engErr (gmap string (option Node)) :=
  match cachedNodeMap eng with
  | Some m => Ok m
  | None => cacheNodes <$> GetNodes w (NodeSelector (params eng))
  end.

Definition matchesNodeSelector (p : Params) (node : Node) : bool :=
  if decide (NodeSelector p = ∅) then true else selectorMatches (NodeSelector p) (n_Labels node).

(** The state that a call changes: the cache and the cluster. *)
Definition setLabels (node : Node) (labels : labelMap) : Node :=
  MkNode (n_Name node) labels (n_Annotations node).

(** The part of [AddNodeLabels] after the node has been looked up. *)
Definition reconcileNode (p : Params) (cache : gmap string (option Node)) (w : W)
    (nodeName : string) (labels : labelMap) (node : Node) :
    gmap string (option Node) * W * option engErr :=
  if matchesNodeSelector p node then
    let desired := mergeNodeLabels (n_Labels node) labels (labelKeys p) (AcceleratorDomainSourceLabel p) in
    if decide (n_Labels node = desired) then (cache, w, None)
    else match patchNode w nodeName (nodeLabelPatch (n_Labels node) desired) with
         | (w', Some msg) => (cache, w', Some (PatchFailed nodeName msg))
         | (w', None) => (<[nodeName := Some (setLabels node desired)]> cache, w', None)
         end
  else (cache, w, None).

Definition addLabels (p : Params) (cache : gmap string (option Node)) (w : W)
    (nodeName : string) (labels : labelMap) : gmap string (option Node) * W * option engErr :=
  match cache !! nodeName with
  | None => (cache, w, None)
  | Some (Some node) => reconcileNode p cache w nodeName labels node
  | Some None =>
      match getNode w nodeName with
      | NodeNotFound => (cache, w, Some (NotFoundInKubernetes nodeName))
      | NodeGetError msg => (cache, w, Some (GetFailed nodeName msg))
      | NodeFound node => reconcileNode p (<[nodeName := Some node]> cache) w nodeName labels node
      end
  end.

Definition AddNodeLabels (eng : K8sEngine) (w : W) (nodeName : string) (labels : labelMap) :
    K8sEngine * W * option engErr :=
  match loadNodes eng w with
  | Err e => (eng, w, Some e)
  | Ok cache =>
      let '(cache, w, err) := addLabels (params eng) cache w nodeName labels in
      (MkEngine (params eng) (Some cache), w, err)
  end.

(** The loop over the desired labels. *)
Fixpoint applyAll (eng : K8sEngine) (w : W) (todo : list (string * labelMap)) :
    K8sEngine * W * option engErr :=
  match todo with
  | [] => (eng, w, None)
  | (nodeName, labels) :: todo =>
      match AddNodeLabels eng w nodeName labels with
      | (eng, w, None) => applyAll eng w todo
      | (eng, w, Some e) => (eng, w, Some e)
      end
  end.

(** The nodes to reconcile: those of the graph and, with no labels, the cached
    nodes that the graph omits. *)
Definition omitStep (m : gmap string labelMap) (kv : string * option Node) : gmap string labelMap :=
  match kv.2 with
  | Some _ => match m !! kv.1 with Some _ => m | None => <[kv.1 := ∅]> m end
  | None => m
  end.
Definition withOmitted (cache : gmap string (option Node)) (nodeLabels : gmap string labelMap) :
    gmap string labelMap :=
  foldl omitStep nodeLabels (range cache).

(** [None]: the labeler does not return. *)
Definition GenerateOutput (eng : K8sEngine) (w : W) (graph : option Graph) :
    option (K8sEngine * W * result engErr string) :=
  let ok := "OK" +:+ newline in
  match graph with
  | None => Some (eng, w, Ok ok)
  | Some g =>
      if decide (Tiers g = None ∧ Domains g = None) then Some (eng, w, Ok ok)
      else
        r ← BuildNodeLabels (labelKeys (params eng)) graph;
        match r with
        | Err e => Some (eng, w, Err (LabelsFailed e))
        | Ok nodeLabels =>
            match loadNodes eng w with
            | Err e => Some (eng, w, Err e)
            | Ok cache =>
                let '(eng, w, err) :=
                  applyAll (MkEngine (params eng) (Some cache)) w (range (withOmitted cache nodeLabels)) in
                Some (eng, w, match err with Some e => Err e | None => Ok ok end)
            end
        end
  end.
End Engine.

(** ** Merging labels *)

Lemma applyPatch_roundtrip current desired :
  applyPatch current (nodeLabelPatch current desired) = desired.
Proof.
  apply map_eq. intros k. unfold applyPatch, nodeLabelPatch. rewrite lookup_merge, lookup_merge.
  destruct (current !! k) as [c|] eqn:Hc, (desired !! k) as [d|] eqn:Hd; simpl; try done.
  by destruct (decide (c = d)) as [->|]; simpl.
Qed.

Lemma lookup_removeManaged labels keys source k :
  removeManagedTopologyLabels labels keys source !! k =
    if decide ((source ≠ "" ∧ k = source) ∨ isManagedLevelLabel k keys = false) then labels !! k else None.
Proof.
  unfold removeManagedTopologyLabels. rewrite map_lookup_filter.
  destruct (labels !! k) as [v|]; simpl; case_decide as Hk; try done.
  - by rewrite option_guard_True.
  - by rewrite option_guard_False.
Qed.

Lemma lookup_merged cur labels keys source k :
  mergeNodeLabels cur labels keys source !! k =
    match skipAcceleratorLabelsWhenSourceExists cur labels keys source !! k with
    | Some v => Some v
    | None => if decide ((source ≠ "" ∧ k = source) ∨ isManagedLevelLabel k keys = false) then cur !! k else None
    end.
Proof.
  unfold mergeNodeLabels. rewrite lookup_union, lookup_removeManaged.
  destruct (skipAcceleratorLabelsWhenSourceExists _ _ _ _ !! k); simpl; [by destruct (if decide _ then _ else _)|].
  by destruct (if decide _ then _ else _).
Qed.

Lemma skip_None cur labels keys source k :
  labels !! k = None → skipAcceleratorLabelsWhenSourceExists cur labels keys source !! k = None.
Proof.
  intros Hk. unfold skipAcceleratorLabelsWhenSourceExists. case_decide; [done|].
  by rewrite !lookup_delete_None, Hk; auto.
Qed.

(** The source label has a value that replaces the provider's domain. *)
Definition suppressed (cur : labelMap) (source : string) : Prop :=
  source ≠ "" ∧ trim_space (default "" (cur !! source)) ≠ "".
#[global] Instance suppressed_dec cur source : Decision (suppressed cur source).
Proof. unfold suppressed. apply _. Defined.

Lemma lookup_skip cur labels keys source k :
  skipAcceleratorLabelsWhenSourceExists cur labels keys source !! k =
    if decide (suppressed cur source ∧ (k = XclrDomain keys ∨ k = XclrSubDomain keys)) then None else labels !! k.
Proof.
  unfold skipAcceleratorLabelsWhenSourceExists, suppressed. case_decide as Hs.
  - rewrite decide_False by naive_solver. done.
  - apply Decidable.not_or in Hs as [Hs1 Hs2]. case_decide as Hk.
    + destruct Hk as [_ Hk]. apply lookup_delete_None. rewrite lookup_delete_None. naive_solver.
    + rewrite !lookup_delete_ne; naive_solver.
Qed.

(** For the labels a node should carry, merging keeps every label that
    the engine does not manage and the accelerator source label, replaces the
    managed labels by the desired ones, leaves out the accelerator labels when
    the node has a source value, and changes nothing when repeated; the patch
    sent to the API server turns the current labels into the merged ones. *)
Theorem label_merge_spec cur labels keys source :
  let merged := mergeNodeLabels cur labels keys source in
  (∀ k, isManagedLevelLabel k keys = false → labels !! k = None → merged !! k = cur !! k) ∧
  (source ≠ "" → labels !! source = None → merged !! source = cur !! source) ∧
  (∀ k, isManagedLevelLabel k keys = true → k ≠ source →
     merged !! k = if decide (suppressed cur source ∧ (k = XclrDomain keys ∨ k = XclrSubDomain keys))
                   then None else labels !! k) ∧
  (labels !! source = None → mergeNodeLabels merged labels keys source = merged) ∧
  applyPatch cur (nodeLabelPatch cur merged) = merged.
Proof.
  intros merged. unfold merged. split_and!.
  - intros k Hk Hl. rewrite lookup_merged, skip_None by done. by rewrite decide_True by (by right).
  - intros Hs Hl. rewrite lookup_merged, skip_None by done. by rewrite decide_True by (by left).
  - intros k Hk Hne. rewrite lookup_merged. rewrite (decide_False (P := (_ ∧ k = source) ∨ _)) by naive_solver congruence.
    rewrite lookup_skip. by destruct (if decide _ then _ else _).
  - intros Hl. assert (∀ k, skipAcceleratorLabelsWhenSourceExists (mergeNodeLabels cur labels keys source)
      labels keys source !! k = skipAcceleratorLabelsWhenSourceExists cur labels keys source !! k) as Hskip.
    { intros k. rewrite !lookup_skip. apply decide_ext. unfold suppressed.
      destruct (decide (source = "")) as [->|Hs]; [naive_solver|].
      replace (mergeNodeLabels cur labels keys source !! source) with (cur !! source); [done|].
      rewrite lookup_merged, skip_None by done. by rewrite decide_True by (by left). }
    apply map_eq. intros k. rewrite lookup_merged, Hskip, lookup_merged.
    destruct (skipAcceleratorLabelsWhenSourceExists cur labels keys source !! k); [done|]. by case_decide.
  - apply applyPatch_roundtrip.
Qed.

(** ** Reconciling the nodes of a cluster *)

Section Reconcile.
Context `{RangeOrder} {W : Type} `{Cluster W}.
Context (selectorMatches : labelMap → labelMap → bool) (metadata : option NodeMetadata).

(** The labels of the cached nodes are those the API server holds. *)
Definition coherent (cache : gmap string (option Node)) (w : W) : Prop :=
  ∀ n node, cache !! n = Some (Some node) → stored w !! n = Some (n_Labels node).

Definition selects (p : Params) (labels : labelMap) : bool :=
  if decide (NodeSelector p = ∅) then true else selectorMatches (NodeSelector p) labels.

(** The labels of a node after the engine has handled it. *)
Definition reconciled (p : Params) (labels cur : labelMap) : labelMap :=
  if selects p cur then mergeNodeLabels cur labels (labelKeys p) (AcceleratorDomainSourceLabel p) else cur.

Lemma reconcileNode_spec p cache w n labels node cache' w' :
  reconcileNode selectorMatches p cache w n labels node = (cache', w', None) →
  coherent cache w → cache !! n = Some (Some node) →
  coherent cache' w' ∧ is_Some (cache' !! n) ∧ (∀ m, m ≠ n → cache' !! m = cache !! m) ∧
  stored w' = <[n := reconciled p labels (n_Labels node)]> (stored w).
Proof.
  unfold reconcileNode, reconciled, matchesNodeSelector. fold (selects p (n_Labels node)).
  intros Hrun Hco Hn. pose proof (Hco _ _ Hn) as Hst.
  destruct (selects p (n_Labels node)); [|simplify_eq; split_and!; [done|by rewrite Hn|done|by rewrite insert_id]].
  case_decide as Heq; [injection Hrun as <- <-; split_and!; [done|by rewrite Hn|done|by rewrite <-Heq, insert_id]|].
  destruct (patchNode w n _) as [w1 [msg|]] eqn:Hp; simplify_eq.
  apply patchNode_stored in Hp as (cur & Hcur & Hw). rewrite Hst in Hcur. injection Hcur as <-.
  rewrite applyPatch_roundtrip in Hw. rewrite Hw. split_and!; [|by rewrite lookup_insert_eq| |done].
  - intros m node' Hm. rewrite Hw. destruct (decide (m = n)) as [->|Hne].
    + rewrite lookup_insert_eq in Hm. injection Hm as <-. apply lookup_insert_eq.
    + rewrite lookup_insert_ne in Hm by done. rewrite lookup_insert_ne by done. by apply Hco.
  - intros m Hm. by apply lookup_insert_ne.
Qed.

Lemma addLabels_spec p cache w n labels cache' w' :
  addLabels selectorMatches p cache w n labels = (cache', w', None) → coherent cache w →
  coherent cache' w' ∧ (∀ m, is_Some (cache' !! m) ↔ is_Some (cache !! m)) ∧
  (∀ m, m ≠ n → stored w' !! m = stored w !! m) ∧
  ∀ cur, stored w !! n = Some cur →
    stored w' !! n = Some (if decide (is_Some (cache !! n)) then reconciled p labels cur else cur).
Proof.
  unfold addLabels. intros Hrun Hco.
  destruct (cache !! n) as [[node|]|] eqn:Hn.
  - pose proof (Hco _ _ Hn) as Hst. apply reconcileNode_spec in Hrun as (Hco' & Hin & Hout & Hw); [|done|done].
    rewrite Hw. split_and!; [done| | |].
    + intros m. destruct (decide (m = n)) as [->|Hm]; [by rewrite Hn|by rewrite Hout].
    + intros m Hm. by rewrite lookup_insert_ne.
    + intros cur Hcur. rewrite lookup_insert_eq, decide_True by eauto. by simplify_eq.
  - destruct (getNode w n) as [node| |] eqn:Hg; [|done|done].
    apply getNode_stored in Hg as [_ Hst].
    apply reconcileNode_spec in Hrun as (Hco' & Hin & Hout & Hw).
    + rewrite Hw. split_and!; [done| | |].
      * intros m. destruct (decide (m = n)) as [->|Hm]; [by rewrite Hn|]. by rewrite Hout, lookup_insert_ne.
      * intros m Hm. by rewrite lookup_insert_ne.
      * intros cur Hcur. rewrite lookup_insert_eq, decide_True by eauto. by simplify_eq.
    + intros m node' Hm. destruct (decide (m = n)) as [->|Hne].
      * rewrite lookup_insert_eq in Hm. by simplify_eq.
      * rewrite lookup_insert_ne in Hm by done. by apply Hco.
    + by rewrite lookup_insert_eq.
  - simplify_eq. split_and!; [done|done|done|]. intros cur Hcur.
    rewrite decide_False; [done|]. by intros [].
Qed.

Lemma applyAll_spec p todo cache w eng' w' :
  applyAll selectorMatches metadata (MkEngine p (Some cache)) w todo = (eng', w', None) →
  NoDup todo.*1 → coherent cache w →
  ∃ cache', eng' = MkEngine p (Some cache') ∧ coherent cache' w' ∧
  ∀ n cur, stored w !! n = Some cur →
    stored w' !! n = Some (match list_to_map (M := gmap string labelMap) todo !! n with
                           | Some labels => if decide (is_Some (cache !! n)) then reconciled p labels cur else cur
                           | None => cur
                           end).
Proof.
  revert cache w. induction todo as [|[n labels] todo IH]; intros cache w; simpl.
  { intros [= <- <-] _ Hco. exists cache. split_and!; [done|done|]. intros n cur Hcur. done. }
  unfold AddNodeLabels. simpl.
  destruct (addLabels selectorMatches p cache w n labels) as [[cache1 w1] [e|]] eqn:Hadd; [done|].
  intros Hrun [Hn Hnd]%NoDup_cons Hco. csimpl in *.
  apply addLabels_spec in Hadd as (Hco1 & Hdom & Hother & Hthis); [|done].
  destruct (IH _ _ Hrun Hnd Hco1) as (cache' & -> & Hco' & Hall). exists cache'. split_and!; [done|done|].
  intros m cur Hm. destruct (decide (m = n)) as [->|Hne].
  - rewrite lookup_insert_eq. pose proof (Hall n _ (Hthis _ Hm)) as Hw'.
    rewrite (not_elem_of_list_to_map_1 todo n) in Hw' by done. done.
  - rewrite lookup_insert_ne by done. rewrite <-(Hother m Hne) in Hm. rewrite (Hall _ _ Hm).
    destruct (list_to_map todo !! m); [|done]. f_equal. by apply decide_ext.
Qed.

Lemma lookup_withOmitted cache nodeLabels n :
  withOmitted cache nodeLabels !! n =
    match nodeLabels !! n with
    | Some labels => Some labels
    | None => match cache !! n with Some (Some _) => Some ∅ | _ => None end
    end.
Proof.
  unfold withOmitted.
  cut (∀ es m, (∀ k oc, (k, oc) ∈ es → cache !! k = Some oc) →
    foldl omitStep m es !! n =
    match m !! n with
    | Some labels => Some labels
    | None => if decide (n ∈ es.*1) then match cache !! n with Some (Some _) => Some (∅ : labelMap) | _ => None end else None
    end).
  { intros Hcut. rewrite Hcut by (intros k oc; by rewrite elem_of_range).
    destruct (nodeLabels !! n); [done|]. case_decide as Hin; [done|].
    destruct (cache !! n) as [oc|] eqn:Hc; [|done]. exfalso. apply Hin, list_elem_of_fmap.
    exists (n, oc). by rewrite elem_of_range. }
  induction es as [|[k oc] es IH]; intros m Hes; csimpl.
  { by destruct (m !! n). }
  rewrite IH by set_solver. pose proof (Hes k oc ltac:(left)) as Hk.
  unfold omitStep. simpl. destruct oc as [node|].
  - destruct (m !! k) as [l|] eqn:Hmk.
    + destruct (m !! n) eqn:Hmn; [done|]. assert (n ≠ k) by congruence. by apply decide_ext; set_solver.
    + destruct (decide (n = k)) as [->|Hne].
      * by rewrite lookup_insert_eq, Hmk, decide_True, Hk by left.
      * rewrite lookup_insert_ne by done. destruct (m !! n); [done|]. apply decide_ext. set_solver.
  - destruct (m !! n); [done|]. destruct (decide (n = k)) as [->|Hne]; [|apply decide_ext; set_solver].
    rewrite Hk. by repeat case_decide.
Qed.

Lemma generate_reconciles eng w g eng' w' out cache :
  GenerateOutput selectorMatches metadata eng w (Some g) = Some (eng', w', Ok out) →
  ¬ (Tiers g = None ∧ Domains g = None) →
  cachedNodeMap eng = Some cache → coherent cache w →
  ∃ nodeLabels, BuildNodeLabels (labelKeys (params eng)) (Some g) = Some (Ok nodeLabels) ∧
  ∀ n cur, stored w !! n = Some cur →
    stored w' !! n = Some (match cache !! n, nodeLabels !! n with
                           | Some _, Some labels => reconciled (params eng) labels cur
                           | Some (Some _), None => reconciled (params eng) ∅ cur
                           | _, _ => cur
                           end).
Proof.
  unfold GenerateOutput. intros Hrun Hg Hcache Hco. rewrite decide_False in Hrun by done.
  destruct (BuildNodeLabels _ _) as [[nodeLabels|e]|]; simpl in Hrun; [|done|done].
  unfold loadNodes in Hrun. rewrite Hcache in Hrun.
  destruct (applyAll _ _ _ _ _) as [[eng1 w1] [e|]] eqn:Hall; simplify_eq.
  exists nodeLabels. split; [done|]. apply applyAll_spec in Hall as (cache' & _ & _ & Hall); [|apply range_NoDup|done].
  intros n cur Hcur. rewrite (Hall n cur Hcur).
  rewrite (list_to_map_proper _ (map_to_list (withOmitted cache nodeLabels))); [|apply range_NoDup|apply range_perm].
  rewrite list_to_map_to_list, lookup_withOmitted.
  destruct (nodeLabels !! n) as [labels|], (cache !! n) as [[node|]|]; simpl; try done.
Qed.

(** The names of the nodes of a request. *)
Definition requestedNames (instances : list ComputeInstances) : list string :=
  instances ≫= λ ci, (map_to_list (ci_Instances ci)).*2.

Lemma lookup_inserts (kvs : list (string * string)) (m : gmap string (option Node)) n :
  foldl (λ m kv, <[kv.2 := None]> m) m kvs !! n = if decide (n ∈ kvs.*2) then Some None else m !! n.
Proof.
  revert m. induction kvs as [|[id name] kvs IH]; intros m; csimpl; [done|]. rewrite IH.
  destruct (decide (n = name)) as [->|Hne].
  - rewrite (decide_True (P := name ∈ _ :: _)) by left. case_decide; [done|]. apply lookup_insert_eq.
  - rewrite lookup_insert_ne by done. apply decide_ext. rewrite elem_of_cons. naive_solver.
Qed.

Lemma lookup_requested instances (m : gmap string (option Node)) n :
  foldl (λ m region, foldl (λ m kv, <[kv.2 := None]> m) m (range (ci_Instances region))) m instances !! n =
    if decide (n ∈ requestedNames instances) then Some None else m !! n.
Proof.
  revert m. induction instances as [|ci instances IH]; intros m; csimpl; [done|]. rewrite IH, lookup_inserts.
  assert (n ∈ (range (ci_Instances ci)).*2 ↔ n ∈ (map_to_list (ci_Instances ci)).*2) as Hr by (by rewrite range_perm).
  destruct (decide (n ∈ requestedNames instances)) as [H1|H1].
  - rewrite decide_True; [done|]. apply elem_of_app. by right.
  - apply decide_ext. rewrite elem_of_app, Hr. naive_solver.
Qed.

Lemma cacheRequested_spec instances nodes n :
  match cacheRequestedNodes instances nodes !! n with
  | Some (Some node) => node ∈ nodes ∧ n_Name node = n ∧ n ∈ requestedNames instances
  | Some None => n ∈ requestedNames instances ∧ n ∉ n_Name <$> nodes
  | None => n ∉ requestedNames instances
  end.
Proof.
  unfold cacheRequestedNodes.
  apply (foldl_prefix_inv (λ l m, match m !! n with
    | Some (Some node) => node ∈ l ∧ n_Name node = n ∧ n ∈ requestedNames instances
    | Some None => n ∈ requestedNames instances ∧ n ∉ n_Name <$> l
    | None => n ∉ requestedNames instances
    end)).
  - rewrite lookup_requested. case_decide; simpl; [set_solver|by rewrite lookup_empty].
  - intros l1 node l2 m _ Hinv. destruct (m !! n_Name node) as [o|] eqn:Hm.
    + destruct (decide (n_Name node = n)) as [<-|Hne].
      * rewrite lookup_insert_eq. rewrite Hm in Hinv. destruct o; set_solver.
      * rewrite lookup_insert_ne by done. destruct (m !! n) as [[node'|]|]; [set_solver| |done].
        rewrite fmap_app. set_solver.
    + destruct (m !! n) as [[node'|]|] eqn:Hn; [set_solver| |done].
      rewrite fmap_app. assert (n ≠ n_Name node) by congruence. set_solver.
Qed.

Lemma resolve_nodes sel w nodes :
  GetNodes metadata w sel = Ok nodes →
  ∃ listed, listNodes w sel = Ok listed ∧ n_Name <$> nodes = n_Name <$> listed ∧
    ∀ node, node ∈ nodes → stored w !! n_Name node = Some (n_Labels node).
Proof.
  unfold GetNodes. destruct (listNodes w sel) as [listed|] eqn:Hl; [|done]. intros [= <-].
  exists listed. split; [done|]. unfold resolveNodeMetadata. destruct metadata as [md|].
  - split; [by rewrite <-list_fmap_compose|]. intros node (node' & -> & Hin)%list_elem_of_fmap. simpl.
    by eapply listNodes_stored.
  - split; [done|]. intros node Hin. by eapply listNodes_stored.
Qed.

(** C9: When the compute instances of a request have been resolved and the
    labels of the cluster have not changed since, a successful run of the k8s
    engine leaves the cluster as follows: a requested node that the graph
    labels, or that the graph omits but the selector listed, has its labels
    merged with those of the graph if it matches the selector; every other
    node keeps its labels. *)
Theorem k8s_labels_reconciled eng0 w0 insts0 eng insts w g eng' w' out :
  ResolveComputeInstances metadata eng0 w0 insts0 = Ok (eng, insts) → stored w = stored w0 →
  GenerateOutput selectorMatches metadata eng w (Some g) = Some (eng', w', Ok out) →
  ¬ (Tiers g = None ∧ Domains g = None) →
  ∃ nodeLabels listed, BuildNodeLabels (labelKeys (params eng)) (Some g) = Some (Ok nodeLabels) ∧
  listNodes w0 (NodeSelector (params eng)) = Ok listed ∧
  ∀ n cur, stored w !! n = Some cur →
    stored w' !! n = Some (
      if decide (n ∈ requestedNames insts ∧ (is_Some (nodeLabels !! n) ∨ n ∈ n_Name <$> listed))
      then reconciled (params eng) (default ∅ (nodeLabels !! n)) cur else cur).
Proof.
  intros Hres Hsame Hrun Hg. unfold ResolveComputeInstances in Hres.
  apply bind_Ok in Hres as (nodes & Hnodes & Hres). injection Hres as <- <-.
  set (insts := if decide (insts0 = []) then _ else _) in *.
  apply resolve_nodes in Hnodes as (listed & Hl & Hnames & Hst).
  apply (generate_reconciles _ _ _ _ _ _ (cacheRequestedNodes insts nodes)) in Hrun
    as (nodeLabels & Hbuild & Hall); [|done|done|].
  - exists nodeLabels, listed. split_and!; [done|done|]. intros n cur Hcur. rewrite (Hall _ _ Hcur), <-Hnames.
    f_equal. pose proof (cacheRequested_spec insts nodes n) as Hc.
    destruct (cacheRequestedNodes insts nodes !! n) as [[node|]|]; simpl.
    + destruct Hc as (Hin & <- & Hreq). apply (list_elem_of_fmap_2 n_Name) in Hin.
      rewrite decide_True by auto. by destruct (nodeLabels !! _).
    + destruct Hc as [Hreq Hout]. destruct (nodeLabels !! n); [by rewrite decide_True by eauto|].
      by rewrite decide_False by (by intros [_ [[]|]]).
    + rewrite decide_False by naive_solver. by destruct (nodeLabels !! n).
  - intros n node Hn. pose proof (cacheRequested_spec insts nodes n) as Hc. rewrite Hn in Hc.
    destruct Hc as (Hin & <- & _). rewrite Hsame. by apply Hst.
Qed.
End Reconcile.

(** ** A cluster in memory *)

Abbreviation memCluster := (gmap string (labelMap * labelMap)).
Definition memMatches (sel labels : labelMap) : bool :=
  forallb (λ kv, bool_decide (labels !! kv.1 = Some kv.2)) (map_to_list sel).
Definition memNode (kv : string * (labelMap * labelMap)) : Node := MkNode kv.1 kv.2.1 kv.2.2.
Definition memList (w : memCluster) (sel : labelMap) : result string (list Node) :=
  Ok (filter (λ node, memMatches sel (n_Labels node) = true) (memNode <$> map_to_list w)).
Definition memGet (w : memCluster) (name : string) : getResult :=
  match w !! name with Some la => NodeFound (memNode (name, la)) | None => NodeNotFound end.
Definition memPatch (w : memCluster) (name : string) (changes : gmap string (option string)) :
    memCluster * option string :=
  match w !! name with
  | Some la => (<[name := (applyPatch la.1 changes, la.2)]> w, None)
  | None => (w, Some "not found")
  end.

#[export] Program Instance memory : Cluster memCluster := {|
  listNodes := memList;
  getNode := memGet;
  patchNode := memPatch;
  stored w := fst <$> w
|}.
Next Obligation.
  intros w sel nodes node [= <-] [_ ([n la] & -> & Hin)%list_elem_of_fmap]%list_elem_of_filter. simpl.
  apply elem_of_map_to_list in Hin. by rewrite lookup_fmap, Hin.
Qed.
Next Obligation.
  unfold memGet. intros w name node Hg. rewrite lookup_fmap. by destruct (w !! name) as [[l a]|]; simplify_eq/=.
Qed.
Next Obligation.
  unfold memPatch. intros w name changes w' Hp. rewrite lookup_fmap.
  destruct (w !! name) as [[l a]|]; simplify_eq. exists l. split; [done|]. by rewrite fmap_insert.
Qed.

(** Node n1 has a stale tier label, n3 is not part of the request. *)
Definition w_cluster : memCluster :=
  {[ "n1" := ({[ "role" := "gpu"; FabricTierKey 5 := "gone" ]}, ∅);
     "n2" := (∅, ∅); "n3" := ({[ FabricTierKey 0 := "x" ]}, ∅) ]}.
Definition w_eng : K8sEngine := MkEngine (MkParams ∅ "" (NewTopologyLabelKeys [] "")) None.
Definition w_insts : list ComputeInstances := [MkCI "r" {[ "i1" := "n1"; "i2" := "n2" ]}].
Definition w_resolved : K8sEngine :=
  match ResolveComputeInstances None w_eng w_cluster w_insts with Ok (e, _) => e | Err _ => w_eng end.
Definition w_run := GenerateOutput memMatches None w_resolved w_cluster (Some w_graph).
Definition w_after : K8sEngine * memCluster :=
  match w_run with Some (e, w, _) => (e, w) | None => (w_eng, ∅) end.

Example w_after_labels :
  stored w_after.2 = {[ "n1" := {[ "role" := "gpu"; FabricTierKey 0 := "leaf"; FabricTierKey 1 := "spine";
                                   KeyTopologyXclrDomain := "d1" ]};
                        "n2" := {[ FabricTierKey 0 := "spine"; KeyTopologyXclrDomain := "d2";
                                   KeyTopologyXclrSubDomain := "s2" ]};
                        "n3" := {[ FabricTierKey 0 := "x" ]} ]}.
Proof. vm_eq. Qed.

Definition w_listed : list Node := match memList w_cluster ∅ with Ok l => l | Err _ => [] end.
#[local] Instance Ok_inj {E A} : Inj (=) (=) (@Ok E A).
Proof. by intros ?? [= ->]. Qed.

Lemma k8s_labels_reconciled_witness :
  stored w_after.2 !! "n3" = Some {[ FabricTierKey 0 := "x" ]} ∧
  ∃ labels, stored w_after.2 !! "n1" =
    Some (reconciled memMatches (params w_resolved) labels {[ "role" := "gpu"; FabricTierKey 5 := "gone" ]}).
Proof.
  destruct (k8s_labels_reconciled memMatches None w_eng w_cluster w_insts w_resolved w_insts w_cluster
    w_graph w_after.1 w_after.2 ("OK" +:+ newline)) as (nl & listed & Hb & Hl & Hall).
  - vm_eq.
  - reflexivity.
  - vm_eq.
  - intros [? _]. discriminate.
  - split.
    + rewrite (Hall "n3" {[ FabricTierKey 0 := "x" ]}) by vm_eq.
      rewrite decide_False; [reflexivity|]. intros [Hd _].
      assert (bool_decide ("n3" ∈ requestedNames w_insts) = true) as Hb' by (by apply bool_decide_eq_true_2).
      vm_compute in Hb'. discriminate.
    + exists (default ∅ (nl !! "n1")).
      rewrite (Hall "n1" {[ "role" := "gpu"; FabricTierKey 5 := "gone" ]}) by vm_eq.
      rewrite decide_True; [reflexivity|]. split; [apply (bool_decide_unpack _); vm_compute; exact I|].
      right. assert (listed = w_listed) as -> by (apply (inj (Ok (E := string))); rewrite <-Hl; vm_eq). apply (bool_decide_unpack _). vm_compute. exact I.
Defined.

(** A source label that is also the key of a tier is accepted, and then
    overwritten. *)
Example source_label_overwritten :
  is_ok (getParameters w_qualified ∅ [] "" (FabricTierKey 0)) = true ∧
  mergeNodeLabels {[ FabricTierKey 0 := "external" ]} {[ FabricTierKey 0 := "leaf" ]}
    (NewTopologyLabelKeys [] "") (FabricTierKey 0) = {[ FabricTierKey 0 := "leaf" ]}.
Proof. split; vm_eq. Qed.

End K8sEngine.
