(* ===== verification/Slinky.v ===== *)
(** * The Slinky engine: [pkg/engines/slinky/engine.go]

    Slinky runs Slurm on Kubernetes.  The engine maps Kubernetes nodes to Slurm
    nodes through the slurmd pods, generates the topology file with the Slurm
    translation, keeps it in a config map and, for dynamic nodes, records the
    position of each node in an annotation of the Kubernetes node. *)

From S2P Require Import Prelude GoStrings Domain Topology Network Output Slurm K8sLabels K8sEngine.
Open Scope Z_scope.

(** ** Kubernetes objects *)

Record Pod := MkPod {
  pod_Name : string;
  pod_Namespace : string;
  pod_Labels : gmap string string;
  NodeName : string;
  Hostname : string;
  Running : bool;
  (** Types and statuses of the conditions. *)
  Conditions : list (string * string)
}.

(** The nil and the empty map are not told apart. *)
Record ConfigMap := MkConfigMap {
  cm_Data : gmap string string;
  cm_Annotations : gmap string string
}.

Inductive getConfigMap :=
| CMFound (cm : ConfigMap)
| CMNotFound
| CMError (msg : string).

(** The Kubernetes API as the engine uses it: [annotations] and [configMaps] are
    what the API server holds.  Selectors are strings; objects are written
    under a namespace and a name; the last component of a write is its error. *)
Class SlinkyCluster (W : Type) := {
  cl_nodes : W → option string → result string (list Node);
  cl_pods : W → string → string → result string (list Pod);
  cl_getConfigMap : W → string → string → getConfigMap;
  cl_updateConfigMap : W → string → string → ConfigMap → W * option string;
  cl_createConfigMap : W → string → string → ConfigMap → W * option string;
  cl_annotate : W → string → string → string → W * option string;
  annotations : W → gmap string labelMap;
  configMaps : W → gmap (string * string) ConfigMap;
  cl_nodes_stored : ∀ w sel nodes, cl_nodes w sel = Ok nodes →
    NoDup (n_Name <$> nodes) ∧ ∀ node, node ∈ nodes → annotations w !! n_Name node = Some (n_Annotations node);
  cl_get_stored : ∀ w ns name,
    match cl_getConfigMap w ns name with
    | CMFound cm => configMaps w !! (ns, name) = Some cm
    | CMNotFound => configMaps w !! (ns, name) = None
    | CMError _ => True
    end;
  cl_update_stored : ∀ w ns name cm w', cl_updateConfigMap w ns name cm = (w', None) →
    configMaps w' = <[(ns, name) := cm]> (configMaps w) ∧ annotations w' = annotations w;
  cl_create_stored : ∀ w ns name cm w', cl_createConfigMap w ns name cm = (w', None) →
    configMaps w' = <[(ns, name) := cm]> (configMaps w) ∧ annotations w' = annotations w;
  cl_annotate_stored : ∀ w name key value w', cl_annotate w name key value = (w', None) →
    configMaps w' = configMaps w ∧
    ∃ cur, annotations w !! name = Some cur ∧ annotations w' = <[name := <[key := value]> cur]> (annotations w)
}.

Module Slinky.
Import Domain Topo Network Output.

(** ** Parameters *)

Definition NAME : string := "slinky".
Definition ConfigUpdateModeNone : string := "none".
Definition ConfigUpdateModeSkeletonOnly : string := "skeleton-only".
Definition dynamicShowPartitionNodes : string := String "009" "Nodes=NONE".
Definition slurmComponentLabelKey : string := "app.kubernetes.io/component".
Definition slurmComponentController : string := "controller".
Definition slurmComponentLogin : string := "login".

Definition KeyNamespace : string := "namespace".
Definition KeyPodSelector : string := "podSelector".
Definition KeyTopoConfigPath : string := "topologyConfigPath".
Definition KeyTopoConfigmapName : string := "topologyConfigmapName".
Definition KeyConfigMapEngine : string := "topograph.run/engine".
Definition KeyConfigMapTopologyManagedBy : string := "topograph.run/topology-managed-by".
Definition KeyConfigMapLastUpdated : string := "topograph.run/last-updated".
Definition KeyConfigMapPlugin : string := "topograph.run/plugin".
Definition KeyConfigMapBlockSizes : string := "topograph.run/block-sizes".
Definition KeyConfigMapNamespace : string := "topograph.run/slurm-namespace".
Definition KeySlinkyTopologySpec : string := "topology.slinky.slurm.net/spec".
Definition KeySlurmNodeName : string := "slurm.node.name".

(** Expressions are opaque. *)
Record LabelSelector := MkSelector { MatchLabels : labelMap; MatchExpressions : list string }.

Section Data.
Context `{Regexp}.

Record STopology := MkSTopology { st_base : Slurm.Topology; st_PodSelector : LabelSelector }.

(** [podListOpt] and [nodeListOpt] are derived: the selectors as strings. *)
Record Params := MkParams {
  base : Slurm.BaseParams;
  Namespace : string;
  PodSelector : LabelSelector;
  NodeSelector : labelMap;
  ConfigMapName : string;
  ConfigPath : string;
  UseDynamicNodes : bool;
  AcceleratorDomainSourceLabel : string;
  ConfigUpdateMode : string;
  s_Topologies : gmap string (option STopology);
  podListOpt : string;
  nodeListOpt : option string
}.

Record clusterNodes := MkCluster { nodes : list Node; nodeMap : gmap string string }.

Record SlinkyEngine := MkEngine { params : Params; cachedClusterNodes : option clusterNodes }.
End Data.

Inductive paramsErr :=
| ParamsLabelKey (e : K8sLabels.keyErr)
| ParamsUpdateMode (mode : string)
| ParamsSelector (msg : string)
| ParamsMissing (key : string)
| ParamsNilTopology (name : string)
| ParamsNodesAndSelector (name : string).

Inductive slinkyErr :=
| ErrTopology (name msg : string)
| ErrTranslate (e : Slurm.engineErr)
| ErrGetNodes (msg : string)
| ErrListPods (msg : string)
| ErrNoNodes
| ErrNoDomains (total noSlurmName noSourceLabel : Z) (missingAnnotation : string)
| ErrNew (e : newErr)
| ErrGen (e : genErr)
| ErrConfigMap (verb msg : string)
| ErrPatch (node msg : string).

Definition isEmptySelector (sel : LabelSelector) : bool :=
  bool_decide (MatchLabels sel = ∅) && bool_decide (MatchExpressions sel = []).

Section Engine.
Context `{Regexp} `{RangeOrder}.
(** [metav1.LabelSelectorAsSelector] and the strings of label sets, of the
    Kubernetes API machinery. *)
Context (AsSelector : LabelSelector → result string string) (SetString : labelMap → string).

Definition checkTopology (acc : ()) (kv : string * option STopology) : result paramsErr () :=
  match kv.2 with
  | None => Err (ParamsNilTopology kv.1)
  | Some t => if decide (Slurm.s_Nodes (st_base t) ≠ None ∧ isEmptySelector (st_PodSelector t) = false)
              then Err (ParamsNodesAndSelector kv.1) else Ok ()
  end.

(** The parameters after decoding; [IsQualifiedName] is the API machinery's. *)
Definition getParameters (IsQualifiedName : string → list string) (p : Params) : result paramsErr Params :=
  _ ← (if decide (AcceleratorDomainSourceLabel p = "") then Ok ()
       else map_err ParamsLabelKey
              (K8sLabels.ValidateLabelKey IsQualifiedName "acceleratorDomainSourceLabel" (AcceleratorDomainSourceLabel p)));
  if decide (ConfigUpdateMode p ≠ "" ∧ ConfigUpdateMode p ≠ ConfigUpdateModeNone ∧
             ConfigUpdateMode p ≠ ConfigUpdateModeSkeletonOnly)
  then Err (ParamsUpdateMode (ConfigUpdateMode p))
  else
    sel ← map_err ParamsSelector (AsSelector (PodSelector p));
    let p := MkParams (base p) (Namespace p) (PodSelector p) (NodeSelector p) (ConfigMapName p) (ConfigPath p)
               (UseDynamicNodes p) (AcceleratorDomainSourceLabel p) (ConfigUpdateMode p) (s_Topologies p) sel
               (if decide (NodeSelector p = ∅) then None else Some (SetString (NodeSelector p))) in
    _ ← foldM (λ (_ : ()) (kv : string * string), if decide (kv.2 = "") then Err (ParamsMissing kv.1) else Ok ()) ()
          (range ({[ KeyNamespace := Namespace p; KeyPodSelector := podListOpt p;
                     KeyTopoConfigPath := ConfigPath p; KeyTopoConfigmapName := ConfigMapName p ]} : gmap string string));
    _ ← foldM checkTopology () (range (s_Topologies p));
    Ok p.

(** ** Nodes and pods *)

Definition IsPodReady (pod : Pod) : bool :=
  bool_decide (("Ready", "True") ∈ Conditions pod).

Definition resolveSlurmNodeName (pod : Pod) : string :=
  match pod_Labels pod !! KeySlurmNodeName with
  | Some name => name
  | None => Hostname pod
  end.

Definition mapPod (nodeMap : gmap string string) (pod : Pod) : gmap string string :=
  if negb (IsPodReady pod) then nodeMap
  else let host := resolveSlurmNodeName pod in
       if decide (host = "") then nodeMap else <[NodeName pod := host]> nodeMap.

Section Cluster.
Context `{SlinkyCluster W}.
(** The node metadata sources of the request's context. *)
Context (metadata : option K8sEngine.NodeMetadata).

Definition getClusterNodes (eng : SlinkyEngine) (w : W) : SlinkyEngine * result slinkyErr clusterNodes :=
  match cachedClusterNodes eng with
  | Some c => (eng, Ok c)
  | None =>
      match cl_nodes w (nodeListOpt (params eng)) with
      | Err msg => (eng, Err (ErrGetNodes msg))
      | Ok listed =>
          match cl_pods w (Namespace (params eng)) (podListOpt (params eng)) with
          | Err msg => (eng, Err (ErrListPods msg))
          | Ok pods =>
              let nodes := K8sEngine.resolveNodeMetadata metadata listed in
              let c := MkCluster nodes (foldl mapPod ∅ pods) in
              (MkEngine (params eng) (Some c), Ok c)
          end
      end
  end.

(** The instances per region and the regions in the order of first use. *)
Definition addNodeInstance (nodeMap : gmap string string)
    (acc : gmap string (gmap string string) * list string) (node : Node) :
    gmap string (gmap string string) * list string :=
  match nodeMap !! n_Name node, n_Annotations node !! K8sEngine.KeyNodeInstance,
        n_Annotations node !! K8sEngine.KeyNodeRegion with
  | Some hostName, Some instance, Some region =>
      let '(regions, names) := acc in
      (<[region := <[instance := hostName]> (default ∅ (regions !! region))]> regions,
       match regions !! region with Some _ => names | None => names ++ [region] end)
  | _, _, _ => acc
  end.

Definition getComputeInstances (nodes : list Node) (nodeMap : gmap string string) : list ComputeInstances :=
  let '(regions, names) := foldl (addNodeInstance nodeMap) (∅, []) nodes in
  (λ region, MkCI region (default ∅ (regions !! region))) <$> names.

Definition ResolveComputeInstances (eng : SlinkyEngine) (w : W) (instances : list ComputeInstances) :
    SlinkyEngine * result slinkyErr (list ComputeInstances) :=
  if bool_decide (instances ≠ []) && negb (UseDynamicNodes (params eng)) then (eng, Ok instances)
  else
    let '(eng, r) := getClusterNodes eng w in
    (eng, c ← r;
          if decide (instances ≠ []) then Ok instances
          else Ok (getComputeInstances (nodes c) (nodeMap c))).

(** ** Domains from node labels *)

Record scan := MkScan {
  sc_domains : DomainMap;
  noSlurmName : Z;
  noSourceLabel : Z;
  missingAnnotation : list string
}.

Definition scanNode (nodeMap : gmap string string) (sourceLabel : string) (sc : scan) (node : Node) : scan :=
  let slurmName := default "" (nodeMap !! n_Name node) in
  let acceleratorDomain := trim_space (default "" (n_Labels node !! sourceLabel)) in
  let instance := trim_space (default "" (n_Annotations node !! K8sEngine.KeyNodeInstance)) in
  if decide (slurmName = "") then MkScan (sc_domains sc) (noSlurmName sc + 1) (noSourceLabel sc) (missingAnnotation sc)
  else if decide (acceleratorDomain = "")
  then MkScan (sc_domains sc) (noSlurmName sc) (noSourceLabel sc + 1) (missingAnnotation sc)
  else if decide (instance = "")
  then MkScan (sc_domains sc) (noSlurmName sc) (noSourceLabel sc) (missingAnnotation sc ++ [n_Name node])
  else MkScan (AddHost (sc_domains sc) acceleratorDomain instance slurmName) (noSlurmName sc) (noSourceLabel sc)
         (missingAnnotation sc).

Definition formatMissingAnnotationNodes (nodes : list string) : string :=
  if decide (nodes = []) then ""
  else if decide (length nodes ≤ 10)%nat
  then " (nodes missing annotation: " +:+ join ", " nodes +:+ ")"
  else " (nodes missing annotation: " +:+ join ", " (take 10 nodes) +:+ ", and " +:+
       itoa (Z.of_nat (length nodes) - 10) +:+ " more)".

Definition withLabelBackedDomains (graph : option Graph) (c : clusterNodes) (sourceLabel : string) :
    result slinkyErr Graph :=
  if decide (nodes c = []) then Err ErrNoNodes
  else
    let sc := foldl (scanNode (nodeMap c) sourceLabel) (MkScan NewDomainMap 0 0 []) (nodes c) in
    if decide (sc_domains sc = ∅)
    then Err (ErrNoDomains (Z.of_nat (length (nodes c))) (noSlurmName sc) (noSourceLabel sc)
                (formatMissingAnnotationNodes (missingAnnotation sc)))
    else match graph with
         | None => Ok (MkGraph ∅ None (Some (sc_domains sc)) None)
         | Some g => Ok (MkGraph (g_heap g) (Tiers g) (Some (sc_domains sc)) (g_Instances g))
         end.

Definition usesBlockTopology (cfg : Config) : bool :=
  bool_decide (Plugin cfg = TopologyBlock) ||
  existsb (λ kv, bool_decide (ts_Plugin kv.2 = TopologyBlock)) (range (Topologies cfg)).

(** ** Partitions *)

Definition listPartitionNodes (w : W) (eng : SlinkyEngine) (sel : LabelSelector) : result string (list string) :=
  match AsSelector sel with
  | Err msg => Err msg
  | Ok s =>
      match cl_pods w (Namespace (params eng)) s with
      | Err msg => Err msg
      | Ok pods =>
          Ok (filter (λ host : string, host ≠ "")
                (resolveSlurmNodeName <$> filter (λ pod : Pod, IsPodReady pod = true) pods))
      end
  end.

(** Nil entries are refused by [getParameters]. *)
Definition resolveTopology (w : W) (eng : SlinkyEngine) (out : gmap string Slurm.Topology)
    (kv : string * option STopology) : result slinkyErr (gmap string Slurm.Topology) :=
  match kv.2 with
  | None => Ok out
  | Some t =>
      let st := st_base t in
      nodes ← (if decide (default [] (Slurm.s_Nodes st) = [] ∧ isEmptySelector (st_PodSelector t) = false)
               then map_err (ErrTopology kv.1) (Some <$> listPartitionNodes w eng (st_PodSelector t))
               else Ok (Slurm.s_Nodes st));
      Ok (<[kv.1 := Slurm.MkTopology (Slurm.Partition st) (Slurm.s_Plugin st) (Slurm.s_BlockSizes st)
                      (Slurm.s_BlockName st) nodes (Slurm.s_Default st)]> out)
  end.

Definition resolveTopologies (w : W) (eng : SlinkyEngine) : result slinkyErr (gmap string Slurm.Topology) :=
  foldM (resolveTopology w eng) ∅ (range (s_Topologies (params eng))).

(** [execInPod]: the output of a command in a pod. *)
Context (exec : string → string → list string → result string string).

(** The first pod that answers; the errors before it are collected. *)
Definition tryPod (component partition : string) (acc : result (list string) string) (pod : Pod) :
    result (list string) string :=
  match acc with
  | Ok _ => acc
  | Err errs =>
      if negb (Running pod) then acc
      else match exec (pod_Name pod) (pod_Namespace pod) ["scontrol"; "show"; "partition"; partition] with
           | Ok out => Ok out
           | Err msg => Err (errs ++ ["exec on " +:+ component +:+ " pod " +:+ pod_Name pod +:+ ": " +:+ msg])
           end
  end.

Definition tryComponent (w : W) (namespace partition : string) (acc : result (list string) string)
    (component : string) : result (list string) string :=
  match acc with
  | Ok _ => acc
  | Err errs =>
      match cl_pods w namespace (SetString {[ slurmComponentLabelKey := component ]}) with
      | Err msg => Err (errs ++ ["list " +:+ component +:+ " pods: " +:+ msg])
      | Ok pods => foldl (tryPod component partition) acc pods
      end
  end.

(** The errors of all pods, without the message that introduces them. *)
Definition getPartitionNodes (w : W) (eng : SlinkyEngine) (partition : string) : result string string :=
  if UseDynamicNodes (params eng) then Ok dynamicShowPartitionNodes
  else map_err (λ errs, if decide (errs = []) then "no running controller or login pods" else join "; " errs)
         (foldl (tryComponent w (Namespace (params eng)) partition) (Err [])
            [slurmComponentController; slurmComponentLogin]).

(** ** The config map *)

Definition intToStr (input : list Z) : string := join "," (itoa <$> input).

Definition generateConfigMapAnnotations (eng : SlinkyEngine) (now : string) : labelMap :=
  let p := params eng in
  let m : labelMap := {[ KeyConfigMapEngine := NAME; KeyConfigMapTopologyManagedBy := "topograph";
                         KeyConfigMapLastUpdated := now; KeyConfigMapNamespace := Namespace p ]} in
  let m := if decide (Slurm.p_Plugin (base p) = "") then m
           else <[KeyConfigMapPlugin := Slurm.p_Plugin (base p)]> m in
  if decide (Slurm.p_BlockSizes (base p) = []) then m
  else <[KeyConfigMapBlockSizes := intToStr (Slurm.p_BlockSizes (base p))]> m.

Definition UpdateTopologyConfigmap (eng : SlinkyEngine) (w : W) (now name namespace : string) (data : labelMap) :
    W * result slinkyErr () :=
  let annotations := generateConfigMapAnnotations eng now in
  match cl_getConfigMap w namespace name with
  | CMError msg => (w, Err (ErrConfigMap "get" msg))
  | CMFound cm =>
      if forallb (λ kv, bool_decide (default "" (cm_Data cm !! kv.1) = kv.2)) (range data) then (w, Ok ())
      else
        let cm := MkConfigMap (data ∪ cm_Data cm) (annotations ∪ cm_Annotations cm) in
        let '(w, err) := cl_updateConfigMap w namespace name cm in
        (w, match err with Some msg => Err (ErrConfigMap "update" msg) | None => Ok () end)
  | CMNotFound =>
      let '(w, err) := cl_createConfigMap w namespace name (MkConfigMap data annotations) in
      (w, match err with Some msg => Err (ErrConfigMap "create" msg) | None => Ok () end)
  end.

(** ** Node annotations *)

Definition updateNodeAnnotation (w : W) (node : Node) (slurmName : string) (nt : NetworkTopology)
    (topologies : list TopologyUnit) : W * result slinkyErr Node :=
  let desiredSpec := GetNodeTopologySpec nt slurmName topologies in
  if decide (desiredSpec = "") then (w, Ok node)
  else if decide (n_Annotations node !! KeySlinkyTopologySpec = Some desiredSpec) then (w, Ok node)
  else
    let '(w, err) := cl_annotate w (n_Name node) KeySlinkyTopologySpec desiredSpec in
    (w, match err with
        | Some msg => Err (ErrPatch (n_Name node) msg)
        | None => Ok (MkNode (n_Name node) (n_Labels node)
                        (<[KeySlinkyTopologySpec := desiredSpec]> (n_Annotations node)))
        end).

(** The nodes are updated in place: the cached list changes. *)
Fixpoint performReconciliation (w : W) (nodes : list Node) (nodeMap : gmap string string) (nt : NetworkTopology)
    (topologies : list TopologyUnit) : W * list Node * option slinkyErr :=
  match nodes with
  | [] => (w, [], None)
  | node :: rest =>
      let '(w, r) := match nodeMap !! n_Name node with
                     | None => (w, Ok node)
                     | Some slurmName => updateNodeAnnotation w node slurmName nt topologies
                     end in
      match r with
      | Err e => (w, node :: rest, Some e)
      | Ok node => let '(w, rest, err) := performReconciliation w rest nodeMap nt topologies in (w, node :: rest, err)
      end
  end.

(** ** Output *)

Context (Marshal : list TopologyUnit → option string).

(** The graph whose domains come from the node labels, when configured. *)
Definition labelledGraph (eng : SlinkyEngine) (w : W) (graph : option Graph) (cfg : Config) :
    SlinkyEngine * result slinkyErr (option Graph) :=
  if bool_decide (AcceleratorDomainSourceLabel (params eng) ≠ "") && usesBlockTopology cfg then
    let '(eng', r) := getClusterNodes eng w in
    (eng', c ← r; Some <$> withLabelBackedDomains graph c (AcceleratorDomainSourceLabel (params eng)))
  else (eng, Ok graph).

(** The end of [GenerateOutput]: the writes to the cluster. *)
Definition writeOutput (eng : SlinkyEngine) (w : W) (now : string) (nt : NetworkTopology)
    (topologies : list TopologyUnit) (desiredTopology : string) : SlinkyEngine * W * result slinkyErr string :=
  let p := params eng in
  let '(w, r) := if decide (ConfigUpdateMode p = ConfigUpdateModeNone) then (w, Ok ())
                 else UpdateTopologyConfigmap eng w now (ConfigMapName p) (Namespace p)
                        {[ ConfigPath p := desiredTopology ]} in
  match r with
  | Err e => (eng, w, Err e)
  | Ok _ =>
      if negb (UseDynamicNodes p) then (eng, w, Ok ("OK" +:+ newline))
      else
        let '(eng, r) := getClusterNodes eng w in
        match r with
        | Err e => (eng, w, Err e)
        | Ok c =>
            let '(w, ns, err) := performReconciliation w (nodes c) (nodeMap c) nt topologies in
            let eng := MkEngine (params eng) (Some (MkCluster ns (nodeMap c))) in
            (eng, w, match err with Some e => Err e | None => Ok ("OK" +:+ newline) end)
        end
  end.

Definition GenerateOutput (eng : SlinkyEngine) (w : W) (now : string) (graph : option Graph) :
    option (SlinkyEngine * W * result slinkyErr string) :=
  let p := params eng in
  match resolveTopologies w eng with
  | Err e => Some (eng, w, Err e)
  | Ok resolved =>
      rcfg ← Slurm.GetTranslateConfig (base p) resolved (getPartitionNodes w eng);
      match rcfg with
      | Err e => Some (eng, w, Err (ErrTranslate e))
      | Ok cfg =>
          let '(eng, rg) := labelledGraph eng w graph cfg in
          match rg with
          | Err e => Some (eng, w, Err e)
          | Ok graph =>
              rnt ← NewNetworkTopology graph cfg;
              match rnt with
              | Err e => Some (eng, w, Err (ErrNew e))
              | Ok nt =>
                  '(topologies, nt, rout) ← GenerateTopologyConfig Marshal nt
                    (bool_decide (ConfigUpdateMode p = ConfigUpdateModeSkeletonOnly));
                  match rout with
                  | Err e => Some (eng, w, Err (ErrGen e))
                  | Ok desired => Some (writeOutput eng w now nt topologies desired)
                  end
              end
          end
      end
  end.

(** ** What an output leaves in the cluster *)

Definition withSpec (spec : string) (cur : labelMap) : labelMap :=
  if decide (spec = "") then cur else <[KeySlinkyTopologySpec := spec]> cur.

(** The annotations a node ends with. *)
Definition reconciled (c : clusterNodes) (nt : NetworkTopology) (units : list TopologyUnit)
    (name : string) (cur : labelMap) : labelMap :=
  if decide (name ∈ n_Name <$> nodes c) then
    match nodeMap c !! name with
    | None => cur
    | Some slurmName => withSpec (GetNodeTopologySpec nt slurmName units) cur
    end
  else cur.

(** A node that was read has the topology spec of the stored one; its identity
    annotations may come from a metadata source. *)
Definition node_agrees (w : W) (node : Node) : Prop :=
  ∃ cur, annotations w !! n_Name node = Some cur ∧ cur !! KeySlinkyTopologySpec = n_Annotations node !! KeySlinkyTopologySpec.

Definition nodes_agree (w : W) (ns : list Node) : Prop :=
  NoDup (n_Name <$> ns) ∧ ∀ node, node ∈ ns → node_agrees w node.

Definition cache_agrees (eng : SlinkyEngine) (w : W) : Prop :=
  match cachedClusterNodes eng with Some c => nodes_agree w (nodes c) | None => True end.

(** The config map under [key] has the topology at [path], the rest of its data
    and every other config map are as before. *)
Definition config_map_holds (w w' : W) (key : string * string) (path desired : string) : Prop :=
  (∃ cm, configMaps w' !! key = Some cm ∧ default "" (cm_Data cm !! path) = desired ∧
     ∀ k, k ≠ path → cm_Data cm !! k = (cm ← configMaps w !! key; cm_Data cm !! k)) ∧
  ∀ k, k ≠ key → configMaps w' !! k = configMaps w !! k.

Lemma alter_insert_lookup {A} (f : A → A) k (m : gmap string A) x :
  m !! k = Some x → alter f k m = <[k := f x]> m.
Proof.
  intros Hk. apply map_eq. intros i. destruct (decide (k = i)) as [->|].
  - by rewrite lookup_alter_eq, lookup_insert_eq, Hk.
  - by rewrite lookup_alter_ne, lookup_insert_ne.
Qed.

Lemma updateNodeAnnotation_spec w node s nt units w' node' :
  node_agrees w node → updateNodeAnnotation w node s nt units = (w', Ok node') →
  configMaps w' = configMaps w ∧ n_Name node' = n_Name node ∧ node_agrees w' node' ∧
  annotations w' = alter (withSpec (GetNodeTopologySpec nt s units)) (n_Name node) (annotations w).
Proof.
  unfold updateNodeAnnotation, withSpec. intros (cur & Hcur & Hspec).
  rewrite (alter_insert_lookup _ _ _ _ Hcur).
  destruct (decide (GetNodeTopologySpec nt s units = "")) as [E|E]; [|case_decide as E2].
  - intros [= <- <-]. rewrite insert_id by done. split_and!; try done. by exists cur.
  - intros [= <- <-]. rewrite (insert_id cur), insert_id by congruence. split_and!; try done. by exists cur.
  - destruct (cl_annotate _ _ _ _) as [w1 [msg|]] eqn:Hw; intros [= <- <-]; simpl.
    apply cl_annotate_stored in Hw as (? & cur' & Hcur' & Hw). simplify_eq. split_and!; try done.
    eexists. split; [by rewrite Hw, lookup_insert_eq|]. simpl. by rewrite !lookup_insert_eq.
Qed.

Lemma nodes_agree_ne w w' name ns :
  (∀ n, n ≠ name → annotations w' !! n = annotations w !! n) → name ∉ n_Name <$> ns →
  nodes_agree w ns → nodes_agree w' ns.
Proof.
  intros Hw Hn [Hnd Hall]. split; [done|]. intros node Hin. destruct (Hall node Hin) as (cur & Hcur & ?).
  exists cur. rewrite Hw; [done|]. intros <-. by apply Hn, list_elem_of_fmap_2.
Qed.

Lemma reconciled_ne node ns m nt units name cur :
  name ≠ n_Name node →
  reconciled (MkCluster (node :: ns) m) nt units name cur = reconciled (MkCluster ns m) nt units name cur.
Proof.
  intros Hne. unfold reconciled; simpl. apply decide_ext. rewrite elem_of_cons. naive_solver.
Qed.

Lemma reconciled_notin c nt units name cur : name ∉ n_Name <$> nodes c → reconciled c nt units name cur = cur.
Proof. intros. unfold reconciled. by rewrite decide_False. Qed.

Lemma reconciled_head node ns m nt units cur :
  reconciled (MkCluster (node :: ns) m) nt units (n_Name node) cur =
  match m !! n_Name node with
  | None => cur
  | Some s => withSpec (GetNodeTopologySpec nt s units) cur
  end.
Proof. unfold reconciled; simpl. by rewrite decide_True by (by left). Qed.

(** One node of the loop. *)
Lemma reconcileOne_spec m nt units node w w1 node1 :
  node_agrees w node →
  match m !! n_Name node with
  | None => (w, Ok node)
  | Some slurmName => updateNodeAnnotation w node slurmName nt units
  end = (w1, Ok node1) →
  configMaps w1 = configMaps w ∧ n_Name node1 = n_Name node ∧ node_agrees w1 node1 ∧
  (∀ n, n ≠ n_Name node → annotations w1 !! n = annotations w !! n) ∧
  annotations w1 !! n_Name node = reconciled (MkCluster [node] m) nt units (n_Name node) <$> annotations w !! n_Name node.
Proof.
  intros Hcur. pose proof (reconciled_head node [] m nt units) as Hh. destruct (m !! n_Name node) as [s|].
  - intros (-> & -> & ? & ->)%updateNodeAnnotation_spec; [|done]. split_and!; [done..| |].
    + intros. by apply lookup_alter_ne.
    + rewrite lookup_alter_eq. destruct (annotations w !! n_Name node); simpl; [|done]. by rewrite Hh.
  - intros [= <- <-]. split_and!; try done. destruct (annotations w !! n_Name node); simpl; [|done]. by rewrite Hh.
Qed.

Lemma performReconciliation_spec m nt units ns : ∀ w w' ns',
  nodes_agree w ns → performReconciliation w ns m nt units = (w', ns', None) →
  configMaps w' = configMaps w ∧ n_Name <$> ns' = n_Name <$> ns ∧ nodes_agree w' ns' ∧
  ∀ name, annotations w' !! name = reconciled (MkCluster ns m) nt units name <$> annotations w !! name.
Proof.
  induction ns as [|node ns IH]; intros w w' ns' Hag; simpl.
  - intros [= <- <-]. split_and!; try done. intros name. by destruct (annotations w !! name).
  - destruct Hag as [[Hn Hnd]%NoDup_cons Hall].
    destruct (match m !! n_Name node with None => _ | Some _ => _ end) as [w1 [node1|e]] eqn:Hone; [|done].
    apply reconcileOne_spec in Hone as (Hc1 & Hn1 & Ha1 & Hne1 & Hw1); [|apply Hall; by left].
    destruct (performReconciliation w1 ns m nt units) as [[w2 ns2] err] eqn:Htwo. intros [= <- <- ->].
    apply IH in Htwo as (Hc2 & Hn2 & [Hnd2 Hall2] & Hw2);
      [|eapply nodes_agree_ne; [done..|split; [done|]; intros; apply Hall; by right]].
    split_and!; [congruence|by rewrite !fmap_cons, Hn1, Hn2|split|].
    + rewrite fmap_cons, Hn2, Hn1. by constructor.
    + intros node' [->|Hin]%elem_of_cons; [|by apply Hall2]. destruct Ha1 as (cur & Hcur & Hspec).
      exists cur. rewrite Hw2, Hcur. simpl. by rewrite reconciled_notin by (simpl; by rewrite Hn1).
    + intros name. rewrite Hw2. destruct (decide (name = n_Name node)) as [->|Hne].
      * rewrite Hw1. destruct (annotations w !! n_Name node); simpl; [|done].
        rewrite (reconciled_notin (MkCluster ns m)) by done. by rewrite !reconciled_head.
      * rewrite Hne1 by done. destruct (annotations w !! name); simpl; [|done]. by rewrite reconciled_ne.
Qed.

Lemma resolveNode_agrees w md node :
  annotations w !! n_Name node = Some (n_Annotations node) → node_agrees w (K8sEngine.resolveNode md node).
Proof.
  intros Hcur. exists (n_Annotations node). split; [done|]. simpl. unfold K8sEngine.setMetadata.
  repeat case_match; rewrite ?lookup_insert_ne, ?lookup_delete_ne, ?lookup_insert_ne, ?lookup_delete_ne by done; done.
Qed.

Lemma resolveNodeMetadata_agrees w ns :
  NoDup (n_Name <$> ns) → (∀ node, node ∈ ns → annotations w !! n_Name node = Some (n_Annotations node)) →
  nodes_agree w (K8sEngine.resolveNodeMetadata metadata ns).
Proof.
  intros Hnd Hall. destruct metadata as [md|]; simpl.
  - split; [by rewrite <-list_fmap_compose|]. intros node (n & -> & Hin)%list_elem_of_fmap.
    by apply resolveNode_agrees, Hall.
  - split; [done|]. intros node Hin. exists (n_Annotations node). split; [by apply Hall|done].
Qed.

Lemma getClusterNodes_spec eng w eng' r :
  cache_agrees eng w → getClusterNodes eng w = (eng', r) →
  params eng' = params eng ∧ cache_agrees eng' w ∧
  ∀ c, r = Ok c → cachedClusterNodes eng' = Some c.
Proof.
  unfold getClusterNodes, cache_agrees. intros Hag.
  destruct (cachedClusterNodes eng) as [c|] eqn:Hc.
  - intros [= <- <-]. rewrite Hc. naive_solver.
  - destruct (cl_nodes _ _) as [ns|msg] eqn:Hns; [|intros [= <- <-]; by rewrite Hc].
    destruct (cl_pods _ _ _) as [pods|msg]; intros [= <- <-]; [|by rewrite Hc].
    apply cl_nodes_stored in Hns as [Hnd Hall]. split_and!; simpl; [done| |naive_solver].
    by apply resolveNodeMetadata_agrees.
Qed.

Lemma cache_agrees_annotations eng w w' : annotations w' = annotations w → cache_agrees eng w → cache_agrees eng w'.
Proof. unfold cache_agrees, nodes_agree, node_agrees. intros ->. done. Qed.

Lemma UpdateTopologyConfigmap_spec eng w now name ns path desired w' :
  UpdateTopologyConfigmap eng w now name ns {[ path := desired ]} = (w', Ok ()) →
  annotations w' = annotations w ∧ config_map_holds w w' (ns, name) path desired.
Proof.
  unfold UpdateTopologyConfigmap, config_map_holds.
  assert (Hget := cl_get_stored w ns name). destruct (cl_getConfigMap w ns name) as [cm| |msg]; [|..|done].
  - destruct (forallb _ _) eqn:Hall.
    + intros [= <-]. split; [done|]. split; [|done]. exists cm. rewrite Hget. split_and!; [done| |done].
      rewrite forallb_forall in Hall.
      assert (Hin : (path, desired) ∈ range ({[ path := desired ]} : labelMap)) by (apply elem_of_range, lookup_singleton_eq).
      apply list_elem_of_In, Hall, bool_decide_eq_true in Hin. done.
    + destruct (cl_updateConfigMap _ _ _ _) as [w1 [msg|]] eqn:Hu; intros [= <-].
      apply cl_update_stored in Hu as [-> ->]. split; [done|]. split; [|by intros; apply lookup_insert_ne].
      eexists. rewrite lookup_insert_eq, Hget. split_and!; [done|..]; simpl.
      * by erewrite lookup_union_Some_l by apply lookup_singleton_eq.
      * intros k Hk. by rewrite lookup_union_r by by apply lookup_singleton_ne.
  - destruct (cl_createConfigMap _ _ _ _) as [w1 [msg|]] eqn:Hu; intros [= <-].
    apply cl_create_stored in Hu as [-> ->]. split; [done|]. split; [|by intros; apply lookup_insert_ne].
    eexists. rewrite lookup_insert_eq, Hget. split_and!; [done|..]; simpl.
    + by rewrite lookup_singleton_eq.
    + intros k Hk. by rewrite lookup_singleton_ne.
Qed.

(** The state of the cluster after a generated topology, in the mode of the
    engine. *)
Definition output_written (eng eng' : SlinkyEngine) (w w' : W) (nt : NetworkTopology) (units : list TopologyUnit)
    (desired : string) : Prop :=
  (if decide (ConfigUpdateMode (params eng) = ConfigUpdateModeNone) then configMaps w' = configMaps w
   else config_map_holds w w' (Namespace (params eng), ConfigMapName (params eng)) (ConfigPath (params eng)) desired) ∧
  (if UseDynamicNodes (params eng) then
     ∃ c, cachedClusterNodes eng' = Some c ∧
       ∀ name, annotations w' !! name = reconciled c nt units name <$> annotations w !! name
   else annotations w' = annotations w).

Lemma reconciled_names ns ns' m nt units name cur :
  n_Name <$> ns' = n_Name <$> ns →
  reconciled (MkCluster ns' m) nt units name cur = reconciled (MkCluster ns m) nt units name cur.
Proof. intros E. unfold reconciled; simpl. by rewrite E. Qed.

Lemma writeOutput_spec eng w now nt units desired eng' w' out :
  cache_agrees eng w → writeOutput eng w now nt units desired = (eng', w', Ok out) →
  params eng' = params eng ∧ cache_agrees eng' w' ∧ output_written eng eng' w w' nt units desired.
Proof.
  unfold writeOutput. intros Hag.
  destruct (if decide (ConfigUpdateMode (params eng) = _) then _ else _) as [w1 [u|e]] eqn:Hcm; [destruct u|done].
  assert (H1' : annotations w1 = annotations w ∧
    (if decide (ConfigUpdateMode (params eng) = ConfigUpdateModeNone) then configMaps w1 = configMaps w
     else config_map_holds w w1 (Namespace (params eng), ConfigMapName (params eng)) (ConfigPath (params eng)) desired)).
  { case_decide; [by simplify_eq|by apply UpdateTopologyConfigmap_spec in Hcm]. }
  destruct H1' as [Han Hmap]. apply (cache_agrees_annotations _ _ w1) in Hag; [|done].
  unfold output_written. destruct (UseDynamicNodes (params eng)); simpl; [|intros [= <- <- _]; done].
  destruct (getClusterNodes eng w1) as [eng1 [c|e]] eqn:Hc; [|done].
  apply getClusterNodes_spec in Hc as (Hp & Hag1 & Hcache); [|done]. specialize (Hcache c eq_refl).
  unfold cache_agrees in Hag1. rewrite Hcache in Hag1.
  destruct (performReconciliation w1 (nodes c) (nodeMap c) nt units) as [[w2 ns'] [e|]] eqn:Hrec; [done|].
  apply performReconciliation_spec in Hrec as (Hcm2 & Hnames & Hag2 & Hann); [|done].
  intros [= <- <- _]. split_and!; [done|done| |].
  - unfold config_map_holds in *. by rewrite Hcm2.
  - eexists; split; [done|]. intros name. rewrite Hann, Han. destruct (annotations w !! name); [|done]. simpl.
    f_equal. destruct c. symmetry. by apply reconciled_names.
Qed.

Lemma labelledGraph_spec eng w graph cfg eng' r :
  cache_agrees eng w → labelledGraph eng w graph cfg = (eng', r) →
  params eng' = params eng ∧ cache_agrees eng' w.
Proof.
  unfold labelledGraph. intros Hag. case_match; [|by intros [= <- <-]].
  destruct (getClusterNodes eng w) as [eng1 r1] eqn:Hc. intros [= <- <-].
  by apply getClusterNodes_spec in Hc as (? & ? & _).
Qed.

(** C10: when the Slinky engine reports success, the topology of the cluster is
    in place.  There are partition assignments, a translation configuration and
    a network topology from which the text was generated; unless updates are
    off, the config map of the engine holds that text under the configured path,
    its other entries and all other config maps are unchanged; for dynamic
    nodes, every selected node with a Slurm name and a topology spec is
    annotated with that spec, and no other annotation of any node differs from
    before; without dynamic nodes no annotation changes.  The cached nodes
    still agree with the cluster. *)
Theorem slinky_reconciled eng w now graph eng' w' out :
  cache_agrees eng w → GenerateOutput eng w now graph = Some (eng', w', Ok out) →
  params eng' = params eng ∧ cache_agrees eng' w' ∧
  ∃ resolved cfg eng1 graph' nt0 nt units desired,
    resolveTopologies w eng = Ok resolved ∧
    Slurm.GetTranslateConfig (base (params eng)) resolved (getPartitionNodes w eng) = Some (Ok cfg) ∧
    labelledGraph eng w graph cfg = (eng1, Ok graph') ∧
    NewNetworkTopology graph' cfg = Some (Ok nt0) ∧
    GenerateTopologyConfig Marshal nt0 (bool_decide (ConfigUpdateMode (params eng) = ConfigUpdateModeSkeletonOnly)) =
      Some (units, nt, Ok desired) ∧
    output_written eng eng' w w' nt units desired.
Proof.
  intros Hag. unfold GenerateOutput. destruct (resolveTopologies w eng) as [resolved|e] eqn:Hr; [|done].
  destruct (Slurm.GetTranslateConfig _ _ _) as [[cfg|e]|] eqn:Hcfg; simpl; [|done..].
  destruct (labelledGraph eng w graph cfg) as [eng1 [graph'|e]] eqn:Hg; [|done].
  destruct (NewNetworkTopology graph' cfg) as [[nt0|e]|] eqn:Hnt; simpl; [|done..].
  destruct (GenerateTopologyConfig _ _ _) as [[[units nt] [desired|e]]|] eqn:Hgen; simpl; [|done..].
  intros [= Hw]. apply labelledGraph_spec in Hg as Hg1; [|done]. destruct Hg1 as [Hp Hag1].
  apply writeOutput_spec in Hw as (Hp2 & Hag2 & Hout); [|done].
  unfold output_written in *. rewrite Hp in Hout. split_and!; [by rewrite Hp2, Hp|done|].
  exists resolved, cfg, eng1, graph', nt0, nt, units, desired. do 5 (split; [done|]). exact Hout.
Qed.

End Cluster.
End Engine.

(** ** A cluster in memory *)

Record memCluster := MkMem {
  mem_nodes : gmap string (labelMap * labelMap);
  mem_pods : list (string * Pod);
  mem_cms : gmap (string * string) ConfigMap
}.
Definition memNode (kv : string * (labelMap * labelMap)) : Node := MkNode kv.1 kv.2.1 kv.2.2.
Definition memAnnotate (w : memCluster) (name key value : string) : memCluster * option string :=
  match mem_nodes w !! name with
  | Some la => (MkMem (<[name := (la.1, <[key := value]> la.2)]> (mem_nodes w)) (mem_pods w) (mem_cms w), None)
  | None => (w, Some "not found")
  end.
Definition memWrite (w : memCluster) (ns name : string) (cm : ConfigMap) : memCluster * option string :=
  (MkMem (mem_nodes w) (mem_pods w) (<[(ns, name) := cm]> (mem_cms w)), None).

(** Selectors of nodes are ignored, those of pods are the names of sets of pods. *)
#[export] Program Instance memory : SlinkyCluster memCluster := {|
  cl_nodes w _ := Ok (memNode <$> map_to_list (mem_nodes w));
  cl_pods w _ sel := Ok (snd <$> filter (λ kv, kv.1 = sel) (mem_pods w));
  cl_getConfigMap w ns name := match mem_cms w !! (ns, name) with Some cm => CMFound cm | None => CMNotFound end;
  cl_updateConfigMap := memWrite;
  cl_createConfigMap := memWrite;
  cl_annotate := memAnnotate;
  annotations w := snd <$> mem_nodes w;
  configMaps := mem_cms
|}.
Next Obligation.
  intros w sel nodes [= <-]. split.
  - rewrite <-list_fmap_compose. apply NoDup_fst_map_to_list.
  - intros node ([n la] & -> & Hin)%list_elem_of_fmap. simpl.
    apply elem_of_map_to_list in Hin. by rewrite lookup_fmap, Hin.
Qed.
Next Obligation. intros w ns name. simpl. by destruct (mem_cms w !! (ns, name)). Qed.
Next Obligation. by intros w ns name cm w' [= <-]. Qed.
Next Obligation. by intros w ns name cm w' [= <-]. Qed.
Next Obligation.
  unfold memAnnotate. intros w name key value w' Hw. rewrite lookup_fmap.
  destruct (mem_nodes w !! name) as [[l a]|]; simplify_eq. split; [done|]. exists a. split; [done|].
  simpl. by rewrite fmap_insert.
Qed.

Definition w_ready : list (string * string) := [("Initialized", "True"); ("Ready", "True")].
Definition w_cluster : memCluster :=
  MkMem {[ "n1" := (∅, {[ "a" := "b"; KeySlinkyTopologySpec := "stale" ]}); "n2" := (∅, ∅); "n3" := (∅, ∅) ]}
    [("slurmd", MkPod "p1" "slurm" ∅ "n1" "Node201" true w_ready);
     ("slurmd", MkPod "p2" "slurm" {[ KeySlurmNodeName := "Node304" ]} "n2" "h" true w_ready);
     ("slurmd", MkPod "p3" "slurm" ∅ "n3" "Node202" true [("Ready", "False")])]
    {[ ("slurm", "topo") := MkConfigMap {[ "slurm.conf" := "x" ]} ∅ ]}.
Definition w_engine : SlinkyEngine :=
  MkEngine (MkParams (Slurm.MkBase TopologyTree [] None) "slurm" (MkSelector {[ "app" := "slurmd" ]} []) ∅
              "topo" "topology.conf" true "" "" ∅ "slurmd" None) None.

Definition w_run :=
  GenerateOutput (λ _, Ok "sel") (λ _, "controller") None (λ _ _ _, Err "no exec") (λ _, Some "yaml")
    w_engine w_cluster "now" (Some ex_graph).
(** What is left of the run in the cluster. *)
Definition w_observe {A} (f : memCluster → A) : option A :=
  match w_run with Some (_, w, Ok _) => Some (f w) | _ => None end.

Example w_after_annotations :
  w_observe annotations = Some {[ "n1" := {[ "a" := "b"; KeySlinkyTopologySpec := "default:S1:S2" ]};
                                  "n2" := {[ KeySlinkyTopologySpec := "default:S1:S3" ]}; "n3" := ∅ ]}.
Proof. vm_eq. Qed.

(** The file of the tree of [ex_graph]. *)
Definition w_desired : string :=
  lines ["SwitchName=S1 Switches=S2,x"; "SwitchName=S2 Nodes=Node[201-202]"; "# x=S3"; "SwitchName=x Nodes=Node304"].

Lemma slinky_reconciled_witness :
  ∃ eng w out, w_run = Some (eng, w, Ok out) ∧
    config_map_holds w_cluster w ("slurm", "topo") "topology.conf" w_desired ∧
    ∃ c nt units, cachedClusterNodes eng = Some c ∧
      annotations w !! "n1" = Some (reconciled c nt units "n1" {[ "a" := "b"; KeySlinkyTopologySpec := "stale" ]}).
Proof.
  assert (Hcms : w_observe (λ w, default "" (cm ← mem_cms w !! ("slurm", "topo"); cm_Data cm !! "topology.conf")) =
                 Some w_desired) by vm_eq.
  unfold w_observe in Hcms. destruct w_run as [[[eng w] [out|e]]|] eqn:Hrun; [|discriminate..].
  exists eng, w, out. split; [reflexivity|].
  destruct (slinky_reconciled (λ _, Ok "sel") (λ _, "controller") None (λ _ _ _, Err "no exec") (λ _, Some "yaml")
    w_engine w_cluster "now" (Some ex_graph) eng w out I Hrun) as (_ & _ & Hw).
  destruct Hw as (resolved & cfg & eng1 & graph' & nt0 & nt & units & desired & _ & _ & _ & _ & _ & Hcm & c & Hc & Ha).
  split.
  - rewrite decide_False in Hcm by discriminate.
    assert (desired = w_desired) as <-; [|exact Hcm]. destruct Hcm as [(cm & Hl & Hd & _) _]. rewrite <-Hd.
    change (mem_cms w !! ("slurm", "topo") = Some cm) in Hl. rewrite Hl in Hcms. by injection Hcms.
  - exists c, nt, units. split; [exact Hc|]. rewrite Ha. reflexivity.
Defined.

End Slinky.
