(* ===== verification/NfdObjects.v ===== *)
(** * NFD objects: [pkg/engines/nfd/objects.go]

    Node Feature Discovery reads the topology of a cluster from two kinds of
    objects: a NodeFeature per node, with the topology values of the node, and
    a NodeFeatureGroup per value, that matches the nodes with it.  This file
    holds the objects, their construction from node labels and their names. *)

From S2P Require Import Prelude GoStrings GoSha Topology.
Open Scope Z_scope.

Module NfdObjects.

Definition NAME : string := "nfd".
Definition nfdAPIGroup : string := "nfd.k8s-sigs.io".
Definition nfdAPIVersion : string := "v1alpha1".
Definition nfdFeatureSet : string := "topograph.network".
Definition nfdSystemName : string := "system.name".
Definition nfdNodeName : string := "nodename".
Definition nfdNodeFeatureKind : string := "NodeFeature".
Definition nfdNodeFeatureGroupKind : string := "NodeFeatureGroup".
Definition topologyTypeFabric : string := "fabric-tier-".
Definition topologyTypeAcceleratorDomain : string := "accelerator-domain".
Definition topologyTypeAcceleratorSubDomain : string := "accelerator-sub-domain".
Definition labelNFDNodeName : string := "nfd.node.kubernetes.io/node-name".
Definition labelManagedBy : string := "app.kubernetes.io/managed-by".
Definition labelEngine : string := "topograph.run/engine".
Definition labelResource : string := "topograph.run/resource".
Definition labelGroupType : string := "topograph.run/group-type".
Definition managedByTopograph : string := "topograph".
Definition resourceNodeFeature : string := "nodefeature".
Definition resourceNodeFeatureGroup : string := "nodefeaturegroup".
Definition annotationNodeName : string := "topograph.run/node-name".
Definition annotationTopologyLabelKey : string := "topograph.run/label-key".
Definition annotationTopologyValue : string := "topograph.run/label-value".

(** ** Names *)

Fixpoint trim_left_chr (c : ascii) (s : string) : string :=
  match s with
  | "" => ""
  | String d r => if bool_decide (c = d) then trim_left_chr c r else s
  end.
Fixpoint trim_right_chr (c : ascii) (s : string) : string :=
  match s with
  | "" => ""
  | String d r => match trim_right_chr c r with
                  | "" => if bool_decide (c = d) then "" else String d ""
                  | r' => String d r'
                  end
  end.
(** [strings.Trim] with a cut set of one character. *)
Definition Trim (c : ascii) (s : string) : string := trim_right_chr c (trim_left_chr c s).

(** The first [n] bytes. *)
Fixpoint str_take (n : nat) (s : string) : string :=
  match n, s with S n, String c s => String c (str_take n s) | _, _ => "" end.

Definition dash : ascii := "-"%char.

(** The loop of [dnsLabelPart], byte by byte: each byte of a rune outside ASCII
    is invalid, and a run of invalid ones yields one dash. *)
Fixpoint dnsLoop (lastDash : bool) (s : string) : string :=
  match s with
  | "" => ""
  | String c s =>
      if is_lower_alnum c then String c (dnsLoop false s)
      else if lastDash then dnsLoop true s else String dash (dnsLoop true s)
  end.

Definition dnsLabelPart (value : string) : string := Trim dash (dnsLoop false (to_lower value)).

Definition shortHash (value : string) : string := str_take 8 (EncodeToString (Sum256 (str_bytes value))).

Definition stableObjectName (prefix value : string) : string :=
  let prefix := dnsLabelPart prefix in
  let prefix := if decide (prefix = "") then "topograph" else prefix in
  let hash := shortHash value in
  let part := dnsLabelPart value in
  let part := if decide (part = "") then "value" else part in
  let len s := Z.of_nat (String.length s) in
  let maxPartLen := 63 - len prefix - len hash - 2 in
  let maxPartLen := if maxPartLen <? 1 then 1 else maxPartLen in
  let part :=
    if maxPartLen <? len part then
      let part := Trim dash (str_take (Z.to_nat maxPartLen) part) in
      if decide (part = "") then "value" else part
    else part in
  prefix +:+ "-" +:+ part +:+ "-" +:+ hash.

(** ** Objects *)

Inductive MatchOp := MatchIn.

Record FeatureMatcherTerm := MkTerm {
  Feature : string;
  MatchExpressions : gmap string (MatchOp * list string)
}.
Record GroupRule := MkRule { r_Name : string; MatchFeatures : list FeatureMatcherTerm }.

Inductive spec :=
| FeatureSpec (Attributes : gmap string (gmap string string))
| GroupSpec (Rules : list GroupRule).

(** A NodeFeature or a NodeFeatureGroup. *)
Record object := MkObject {
  APIVersion : string;
  Kind : string;
  o_Namespace : string;
  o_Name : string;
  o_Labels : gmap string string;
  o_Annotations : gmap string string;
  Spec : spec
}.

Definition nodeFeature (nodeName : string) (elements : gmap string string) : object :=
  MkObject (nfdAPIGroup +:+ "/" +:+ nfdAPIVersion) nfdNodeFeatureKind "" (stableObjectName "topograph-node" nodeName)
    {[ labelNFDNodeName := nodeName; labelManagedBy := managedByTopograph; labelEngine := NAME;
       labelResource := resourceNodeFeature ]}
    {[ annotationNodeName := nodeName ]}
    (FeatureSpec {[ nfdSystemName := {[ nfdNodeName := nodeName ]}; nfdFeatureSet := elements ]}).

Definition nodeFeatureGroup (kind value labelKey : string) : object :=
  MkObject (nfdAPIGroup +:+ "/" +:+ nfdAPIVersion) nfdNodeFeatureGroupKind ""
    (stableObjectName ("topograph-" +:+ kind) value)
    {[ labelManagedBy := managedByTopograph; labelEngine := NAME; labelResource := resourceNodeFeatureGroup;
       labelGroupType := kind ]}
    {[ annotationTopologyLabelKey := labelKey; annotationTopologyValue := value ]}
    (GroupSpec [MkRule (kind +:+ " equals " +:+ value)
                  [MkTerm nfdFeatureSet {[ kind := (MatchIn, [value]) ]}]]).

Definition topologyKind (labelKey : string) : option string :=
  if decide (labelKey = KeyTopologyXclrDomain) then Some topologyTypeAcceleratorDomain
  else if decide (labelKey = KeyTopologyXclrSubDomain) then Some topologyTypeAcceleratorSubDomain
  else match cut_prefix KeyFabricTierPrefix labelKey with
       | Some level => if is_ok (Atoi level) then Some (topologyTypeFabric +:+ level) else None
       | None => None
       end.

Inductive objectErr :=
| BadNodeName (nodeName : string) (errs : list string)
| ConvertFailed (msg : string).

(** [elements] of a node, and [groupValues]. *)
Record building := MkBuilding {
  elements : gmap string string;
  groupValues : gmap string (gmap string string)
}.

Section Build.
(** [validation.IsValidLabelValue], and the conversion of a typed object for
    the dynamic client: the error, if any. *)
Context (IsValidLabelValue : string → list string) (ToUnstructured : object → option string).

Definition toUnstructured (obj : object) : result objectErr object :=
  match ToUnstructured obj with Some msg => Err (ConvertFailed msg) | None => Ok obj end.

Definition makeNodeFeature (nodeName : string) (elements : gmap string string) : result objectErr object :=
  toUnstructured (nodeFeature nodeName elements).

Definition makeNodeFeatureGroup (kind value labelKey : string) : result objectErr object :=
  toUnstructured (nodeFeatureGroup kind value labelKey).

(** The body of the loop over the label keys of a node. *)
Definition addLabel (labels : gmap string string) (sourceValue sourceLabel : string) (st : building)
    (labelKey : string) : building :=
  match topologyKind labelKey with
  | None => st
  | Some kind =>
      if decide ((kind = topologyTypeAcceleratorDomain ∨ kind = topologyTypeAcceleratorSubDomain) ∧ sourceValue ≠ "")
      then st
      else
        let value := trim_space (default "" (labels !! labelKey)) in
        if decide (value = "") then st
        else
          let group := default ∅ (groupValues st !! kind) in
          let keep := bool_decide (kind = topologyTypeAcceleratorDomain ∧ sourceLabel ≠ "" ∧
                                   default "" (group !! value) = sourceLabel) in
          MkBuilding (<[kind := value]> (elements st))
            (<[kind := if keep then group else <[value := labelKey]> group]> (groupValues st))
  end.

Definition addSource (sourceValue sourceLabel : string) (st : building) : building :=
  if decide (sourceValue = "") then st
  else
    let kind := topologyTypeAcceleratorDomain in
    MkBuilding (<[kind := sourceValue]> (elements st))
      (<[kind := <[sourceValue := sourceLabel]> (default ∅ (groupValues st !! kind))]> (groupValues st)).

Context (nodeLabels : gmap string (gmap string string)) (sourceValues : gmap string string) (sourceLabel : string).

Definition sourceOf (nodeName : string) : string := trim_space (default "" (sourceValues !! nodeName)).

(** The elements of a node, and the group values with those of the node. *)
Definition buildNode (groups : gmap string (gmap string string)) (nodeName : string) : building :=
  let labels := default ∅ (nodeLabels !! nodeName) in
  addSource (sourceOf nodeName) sourceLabel
    (foldl (addLabel labels (sourceOf nodeName) sourceLabel) (MkBuilding ∅ groups) (sorted_keys labels)).

Definition addNode (acc : gmap string (gmap string string) * list object) (nodeName : string) :
    result objectErr (gmap string (gmap string string) * list object) :=
  let '(groups, features) := acc in
  if decide (IsValidLabelValue nodeName ≠ []) then Err (BadNodeName nodeName (IsValidLabelValue nodeName))
  else
    let st := buildNode groups nodeName in
    if decide (elements st = ∅) then Ok (groupValues st, features)
    else feature ← makeNodeFeature nodeName (elements st); Ok (groupValues st, features ++ [feature]).

(** The kinds, values and label keys of [groupValues], in sorted order. *)
Definition groupEntries (groups : gmap string (gmap string string)) : list (string * string * string) :=
  kind ← sorted_keys groups;
  let values := default ∅ (groups !! kind) in
  (λ value, (kind, value, default "" (values !! value))) <$> sorted_keys values.

Definition addGroup (acc : list object) (entry : string * string * string) : result objectErr (list object) :=
  group ← makeNodeFeatureGroup entry.1.1 entry.1.2 entry.2; Ok (acc ++ [group]).

Definition buildNFDObjects : result objectErr (list object * list object) :=
  '(groups, features) ← foldM addNode (∅, []) (sorted_keys nodeLabels);
  groupObjects ← foldM addGroup [] (groupEntries groups);
  Ok (features, groupObjects).
End Build.

(** ** Kinds *)

Lemma cut_prefix_Some p s r : cut_prefix p s = Some r → s = p +:+ r.
Proof.
  revert s. induction p as [|a p IH]; intros [|b s]; simpl; intros E; simplify_eq/=; try done.
  case_bool_decide; [|done]. subst. by rewrite (IH _ E).
Qed.

Lemma topologyKind_inj k1 k2 kind :
  topologyKind k1 = Some kind → topologyKind k2 = Some kind → k1 = k2.
Proof.
  unfold topologyKind. intros H1 H2.
  repeat case_decide; simplify_eq; try done;
    repeat match goal with
    | H : match cut_prefix ?p ?s with _ => _ end = _ |- _ =>
        destruct (cut_prefix p s) as [?r|] eqn:?Hc; [apply cut_prefix_Some in Hc; subst|done]
    | H : (if ?b then _ else _) = _ |- _ => destruct b; simplify_eq
    end; try done.
Qed.

(** ** The elements of a node *)

Section Spec.
Context (sourceLabel : string).

(** The label [key] of a node gives its element [kind] the value [v]. *)
Definition labelled (labels : gmap string string) (src key kind v : string) : Prop :=
  topologyKind key = Some kind ∧
  ¬ ((kind = topologyTypeAcceleratorDomain ∨ kind = topologyTypeAcceleratorSubDomain) ∧ src ≠ "") ∧
  v = trim_space (default "" (labels !! key)) ∧ v ≠ "".

(** What a node publishes: its source value as its domain, and its labels. *)
Definition published (labels : gmap string string) (src kind v : string) : Prop :=
  (src ≠ "" ∧ kind = topologyTypeAcceleratorDomain ∧ v = src) ∨ ∃ key, labelled labels src key kind v.

Definition in_group (gv : gmap string (gmap string string)) (kind v : string) : option string := gv !! kind ≫= (.!! v).

Definition group_key_ok (kind key : string) : Prop :=
  topologyKind key = Some kind ∨ (kind = topologyTypeAcceleratorDomain ∧ key = sourceLabel).

Definition groups_ok (gv : gmap string (gmap string string)) : Prop :=
  ∀ kind v key, in_group gv kind v = Some key → group_key_ok kind key.

Lemma in_group_insert gv kind m kind' v :
  in_group (<[kind := m]> gv) kind' v = if decide (kind = kind') then m !! v else in_group gv kind' v.
Proof. unfold in_group. rewrite lookup_insert. by case_decide. Qed.

Lemma in_group_default gv kind v : default ∅ (gv !! kind) !! v = in_group gv kind v.
Proof. unfold in_group. by destruct (gv !! kind). Qed.

(** One label: either it gives nothing, or it sets its kind. *)
Lemma addLabel_cases labels src st key :
  (addLabel labels src sourceLabel st key = st ∧ ∀ kind v, ¬ labelled labels src key kind v) ∨
  ∃ kind v, labelled labels src key kind v ∧
    elements (addLabel labels src sourceLabel st key) = <[kind := v]> (elements st) ∧
    (groups_ok (groupValues st) → groups_ok (groupValues (addLabel labels src sourceLabel st key))) ∧
    ∀ kind' v', is_Some (in_group (groupValues (addLabel labels src sourceLabel st key)) kind' v') ↔
      is_Some (in_group (groupValues st) kind' v') ∨ (kind' = kind ∧ v' = v).
Proof.
  unfold addLabel, labelled. destruct (topologyKind key) as [kind|] eqn:Hk; [|left; naive_solver].
  destruct (decide ((kind = _ ∨ _) ∧ src ≠ "")) as [Hs|Hs]; [left; naive_solver|].
  destruct (decide (trim_space _ = "")) as [Hv|Hv]; [left; naive_solver|].
  right. set (v := trim_space (default "" (labels !! key))) in *. exists kind, v.
  split; [done|]. simpl. split; [done|].
  case_bool_decide as Hkeep; (split; [intros Hok kind' v' key'|intros kind' v']);
    rewrite !in_group_insert; case_decide; subst; rewrite ?in_group_default.
  - apply Hok.
  - apply Hok.
  - rewrite in_group_default in Hkeep. destruct Hkeep as (_ & Hne & Hd). split; [tauto|].
    intros [?|[_ ->]]; [done|]. destruct (in_group _ kind' v) eqn:E; [by eexists|]. simpl in Hd. by subst.
  - naive_solver.
  - rewrite lookup_insert, in_group_default. case_decide; [|apply Hok]. intros [= <-]. by left.
  - apply Hok.
  - rewrite lookup_insert, in_group_default. case_decide; subst; naive_solver.
  - naive_solver.
Qed.

Lemma exists_snoc (P : string → Prop) ks k :
  (∃ x, x ∈ ks ++ [k] ∧ P x) ↔ (∃ x, x ∈ ks ∧ P x) ∨ P k.
Proof. setoid_rewrite elem_of_app. setoid_rewrite list_elem_of_singleton. naive_solver. Qed.

Lemma labels_spec labels src groups ks :
  let st := foldl (addLabel labels src sourceLabel) (MkBuilding ∅ groups) ks in
  (∀ kind v, elements st !! kind = Some v ↔ ∃ key, key ∈ ks ∧ labelled labels src key kind v) ∧
  (groups_ok groups → groups_ok (groupValues st)) ∧
  ∀ kind v, is_Some (in_group (groupValues st) kind v) ↔
    is_Some (in_group groups kind v) ∨ ∃ key, key ∈ ks ∧ labelled labels src key kind v.
Proof.
  induction ks as [|key ks (IHe & IHok & IHg)] using rev_ind; simpl.
  - split_and!; [|done|]; intros kind v; rewrite ?lookup_empty; set_solver.
  - rewrite foldl_snoc. set (st := foldl _ _ ks) in *.
    destruct (addLabel_cases labels src st key) as [[-> Hno]|(k & v & Hl & He & Hok & Hg)].
    + split_and!; [|done|]; intros kind v; specialize (Hno kind v); rewrite exists_snoc; [rewrite IHe|rewrite IHg]; tauto.
    + assert (Hone : ∀ kind' v', labelled labels src key kind' v' ↔ kind' = k ∧ v' = v).
      { intros kind' v'. destruct Hl as (Hk & Hn & Hv & Hne). split.
        - intros (Hk' & _ & Hv' & _). split; congruence.
        - intros [-> ->]. by split_and!. }
      split_and!; [|tauto|]; intros kind' v'; rewrite exists_snoc, Hone.
      * rewrite He, lookup_insert. case_decide as Hkk; [subst kind'|rewrite IHe; naive_solver].
        split; [intros [= <-]; tauto|]. intros [(key' & _ & Hl')|[_ ->]]; [|done].
        assert (key' = key) as -> by (eapply topologyKind_inj; [apply Hl'|apply Hl]).
        apply Hone in Hl' as [_ ->]. done.
      * rewrite Hg, IHg. tauto.
Qed.

Lemma labelled_key labels src key kind v : labelled labels src key kind v → key ∈ sorted_keys labels.
Proof.
  intros (_ & _ & -> & Hne). apply elem_of_sorted_keys. destruct (labels !! key); [by eexists|]. by destruct Hne.
Qed.

Lemma addSource_spec src st :
  (∀ kind v, elements (addSource src sourceLabel st) !! kind = Some v ↔
    if decide (src ≠ "" ∧ kind = topologyTypeAcceleratorDomain) then v = src else elements st !! kind = Some v) ∧
  (groups_ok (groupValues st) → groups_ok (groupValues (addSource src sourceLabel st))) ∧
  ∀ kind v, is_Some (in_group (groupValues (addSource src sourceLabel st)) kind v) ↔
    is_Some (in_group (groupValues st) kind v) ∨ (src ≠ "" ∧ kind = topologyTypeAcceleratorDomain ∧ v = src).
Proof.
  unfold addSource. destruct (decide (src = "")) as [E|E]; simpl.
  - split_and!; [|done|]; intros; [case_decide|]; naive_solver.
  - split_and!.
    + intros kind v. rewrite lookup_insert. repeat case_decide; naive_solver.
    + intros Hok kind v key. rewrite in_group_insert. case_decide as Hk; [|apply Hok].
      rewrite lookup_insert, in_group_default. subst kind. case_decide; [|apply Hok]. intros [= <-]. by right.
    + intros kind v. rewrite in_group_insert. case_decide as Hk; [|naive_solver].
      rewrite lookup_insert, in_group_default. subst kind. case_decide; naive_solver.
Qed.

Section Nodes.
Context (nodeLabels : gmap string (gmap string string)) (sourceValues : gmap string string).

Abbreviation labelsOf n := (default ∅ (nodeLabels !! n)).
Definition elementsOf (n : string) : gmap string string :=
  elements (buildNode nodeLabels sourceValues sourceLabel ∅ n).

Lemma buildNode_spec groups n :
  let st := buildNode nodeLabels sourceValues sourceLabel groups n in
  (∀ kind v, elements st !! kind = Some v ↔ published (labelsOf n) (sourceOf sourceValues n) kind v) ∧
  (groups_ok groups → groups_ok (groupValues st)) ∧
  ∀ kind v, is_Some (in_group (groupValues st) kind v) ↔
    is_Some (in_group groups kind v) ∨ published (labelsOf n) (sourceOf sourceValues n) kind v.
Proof.
  unfold buildNode. set (src := sourceOf sourceValues n).
  destruct (labels_spec (labelsOf n) src groups (sorted_keys (labelsOf n))) as (He & Hok & Hg).
  set (st := foldl _ _ _) in *. destruct (addSource_spec src st) as (He' & Hok' & Hg'). simpl.
  assert (Hkeys : ∀ kind v, (∃ key, key ∈ sorted_keys (labelsOf n) ∧ labelled (labelsOf n) src key kind v) ↔
                            ∃ key, labelled (labelsOf n) src key kind v).
  { intros. split; [naive_solver|]. intros [key Hl]. exists key. split; [by eapply labelled_key|done]. }
  unfold published. split_and!; [|tauto|]; intros kind v.
  - rewrite He'. destruct (decide (src ≠ "" ∧ kind = _)) as [Hd|Hd]; [|generalize (He kind v) (Hkeys kind v); tauto]. split; [tauto|].
    intros [?|[key (_ & Hnot & _)]]; [tauto|]. destruct Hnot. tauto.
  - rewrite Hg'. generalize (Hg kind v) (Hkeys kind v). tauto.
Qed.

Lemma elements_buildNode groups n :
  elements (buildNode nodeLabels sourceValues sourceLabel groups n) = elementsOf n.
Proof.
  apply map_eq. intros kind. apply option_eq. intros v. unfold elementsOf.
  by rewrite (proj1 (buildNode_spec groups n)), (proj1 (buildNode_spec ∅ n)).
Qed.

Definition featureOf (n : string) : option object :=
  if decide (elementsOf n = ∅) then None else Some (nodeFeature n (elementsOf n)).

Context (IsValidLabelValue : string → list string) (ToUnstructured : object → option string).
Hypothesis Hvalid : ∀ n, is_Some (nodeLabels !! n) → IsValidLabelValue n = [].
Hypothesis Hconvert : ∀ obj, ToUnstructured obj = None.

Lemma addNodes_spec ns : ∀ groups features, (∀ n, n ∈ ns → is_Some (nodeLabels !! n)) → groups_ok groups →
  ∃ groups', foldM (addNode IsValidLabelValue ToUnstructured nodeLabels sourceValues sourceLabel) (groups, features) ns =
      Ok (groups', features ++ omap featureOf ns) ∧ groups_ok groups' ∧
    ∀ kind v, is_Some (in_group groups' kind v) ↔
      is_Some (in_group groups kind v) ∨ ∃ n, n ∈ ns ∧ elementsOf n !! kind = Some v.
Proof.
  induction ns as [|n ns IH]; intros groups features Hns Hok.
  - exists groups. rewrite app_nil_r. split_and!; [done..|]. set_solver.
  - destruct (buildNode_spec groups n) as (He & Hok' & Hg). specialize (Hok' Hok).
    destruct (IH (groupValues (buildNode nodeLabels sourceValues sourceLabel groups n))
                (features ++ omap featureOf [n])) as (groups' & Hf & Hok2 & Hg2); [set_solver|done|].
    exists groups'. split_and!; [|done|].
    + replace (features ++ omap featureOf (n :: ns)) with ((features ++ omap featureOf [n]) ++ omap featureOf ns)
        by (rewrite <-app_assoc; f_equal; simpl; by destruct (featureOf n)).
      rewrite <-Hf. simpl. rewrite decide_False by (rewrite Hvalid; [naive_solver|apply Hns; by left]).
      unfold featureOf. rewrite elements_buildNode. unfold makeNodeFeature, toUnstructured. rewrite Hconvert.
      case_decide; simpl; [by rewrite app_nil_r|done].
    + intros kind v. rewrite Hg2, Hg, <-He, elements_buildNode. set_solver.
Qed.

Lemma addGroups_spec es : ∀ acc,
  foldM (addGroup ToUnstructured) acc es = Ok (acc ++ ((λ e, nodeFeatureGroup e.1.1 e.1.2 e.2) <$> es)).
Proof.
  induction es as [|e es IH]; intros acc; simpl; [by rewrite app_nil_r|].
  unfold addGroup at 1, makeNodeFeatureGroup, toUnstructured. rewrite Hconvert. simpl. by rewrite IH, <-app_assoc.
Qed.
End Nodes.

Lemma elem_of_groupEntries gv kind v key :
  (kind, v, key) ∈ groupEntries gv ↔ in_group gv kind v = Some key.
Proof.
  unfold groupEntries. rewrite list_elem_of_bind. setoid_rewrite elem_of_sorted_keys.
  setoid_rewrite list_elem_of_fmap. setoid_rewrite elem_of_sorted_keys. unfold in_group. split.
  - intros (k & (v' & [= -> -> ->] & [x Hx]) & [m Hm]). rewrite Hm in *. simpl in *. by rewrite Hx.
  - intros E. destruct (gv !! kind) as [m|] eqn:Hm; [|done]. simpl in E. exists kind. split; [|by eexists].
    exists v. rewrite Hm. simpl. rewrite E. split; [done|by eexists].
Qed.

Lemma groupEntries_NoDup gv : NoDup (groupEntries gv).*1.
Proof.
  unfold groupEntries. generalize (sorted_keys_NoDup gv). generalize (sorted_keys gv) as ks.
  induction ks as [|k ks IH]; intros Hnd; [constructor|]. apply NoDup_cons in Hnd as [Hk Hnd]. simpl.
  rewrite fmap_app. apply NoDup_app. split_and!; [| |by apply IH].
  - rewrite <-list_fmap_compose. apply NoDup_fmap; [intros ?? [=]; done|apply sorted_keys_NoDup].
  - intros kv ([[? ?] ?] & -> & (v & [= -> -> ->] & _)%list_elem_of_fmap)%list_elem_of_fmap.
    intros ([[? ?] ?] & [= -> ->] & (k3 & (v3 & [= -> _ _] & _)%list_elem_of_fmap & Hin)%list_elem_of_bind)%list_elem_of_fmap.
    done.
Qed.

(** C12: when every node name is a label value and the conversion accepts the
    objects, [buildNFDObjects] publishes exactly the topology of the labels: one
    NodeFeature per node that has an element, in the order of the node names;
    the elements of a node are its trimmed non-empty topology labels, or, when
    it has a source value, that value as its accelerator domain and no
    sub-domain; one NodeFeatureGroup for each kind and value that some node
    publishes, for no other and never twice; a group names a label key of its
    kind, or the source label. *)
Theorem nfd_objects_spec IsValidLabelValue ToUnstructured nodeLabels sourceValues :
  (∀ n, is_Some (nodeLabels !! n) → IsValidLabelValue n = []) → (∀ obj, ToUnstructured obj = None) →
  ∃ entries,
    buildNFDObjects IsValidLabelValue ToUnstructured nodeLabels sourceValues sourceLabel =
      Ok (omap (featureOf nodeLabels sourceValues) (sorted_keys nodeLabels),
          (λ e, nodeFeatureGroup e.1.1 e.1.2 e.2) <$> entries) ∧
    (∀ n kind v, elementsOf nodeLabels sourceValues n !! kind = Some v ↔
       published (default ∅ (nodeLabels !! n)) (sourceOf sourceValues n) kind v) ∧
    NoDup entries.*1 ∧
    (∀ kind v, (kind, v) ∈ entries.*1 ↔
       ∃ n, is_Some (nodeLabels !! n) ∧ elementsOf nodeLabels sourceValues n !! kind = Some v) ∧
    ∀ kind v key, (kind, v, key) ∈ entries → group_key_ok kind key.
Proof.
  intros Hvalid Hconvert.
  destruct (addNodes_spec nodeLabels sourceValues IsValidLabelValue ToUnstructured Hvalid Hconvert
    (sorted_keys nodeLabels) ∅ []) as (gv & Hf & Hok & Hg);
    [by intros n ?%elem_of_sorted_keys|by intros ???; unfold in_group; rewrite lookup_empty|].
  exists (groupEntries gv). split_and!.
  - unfold buildNFDObjects. rewrite Hf. simpl. by rewrite addGroups_spec.
  - intros n kind v. apply buildNode_spec.
  - apply groupEntries_NoDup.
  - intros kind v. setoid_rewrite <-elem_of_sorted_keys. trans (is_Some (in_group gv kind v)).
    + rewrite list_elem_of_fmap. split.
      * intros ([[k v'] key] & [= <- <-] & Hin). apply elem_of_groupEntries in Hin. by eexists.
      * intros [key Hk]. exists (kind, v, key). by rewrite elem_of_groupEntries.
    + rewrite Hg. unfold in_group at 1. rewrite lookup_empty. split; [intros [[]|?]; done|by right].
  - intros kind v key. rewrite elem_of_groupEntries. apply Hok.
Qed.
End Spec.

(** ** Names *)

Definition dns_chr (c : ascii) : bool := is_lower_alnum c || bool_decide (c = dash).

Lemma dnsLoop_chars b s : str_forallb dns_chr (dnsLoop b s) = true.
Proof.
  revert b. induction s as [|c s IH]; intros b; simpl; [done|].
  destruct (is_lower_alnum c) eqn:Hc; [|destruct b]; simpl; unfold dns_chr at 1; rewrite ?Hc; simpl; done.
Qed.

Lemma trim_left_chr_forallb f c s : str_forallb f s = true → str_forallb f (trim_left_chr c s) = true.
Proof.
  induction s as [|d s IH]; simpl; [done|]. intros H. case_bool_decide; [|done].
  apply andb_true_iff in H as [_ H]. auto.
Qed.

Lemma trim_right_chr_forallb f c s : str_forallb f s = true → str_forallb f (trim_right_chr c s) = true.
Proof.
  induction s as [|d s IH]; simpl; [done|]. intros [Hd Hs]%andb_true_iff. specialize (IH Hs).
  destruct (trim_right_chr c s); [case_bool_decide; simpl; by rewrite ?Hd|]. simpl in *. by rewrite Hd, IH.
Qed.

Lemma Trim_forallb f c s : str_forallb f s = true → str_forallb f (Trim c s) = true.
Proof. intros. by apply trim_right_chr_forallb, trim_left_chr_forallb. Qed.

Lemma str_take_forallb f n s : str_forallb f s = true → str_forallb f (str_take n s) = true.
Proof.
  revert s. induction n as [|n IH]; intros [|c s]; simpl; try done.
  intros [Hc Hs]%andb_true_iff. rewrite Hc. by apply IH.
Qed.

Lemma str_take_length n s : (String.length (str_take n s) ≤ n)%nat.
Proof. revert s. induction n as [|n IH]; intros [|c s]; simpl; try lia. specialize (IH s). lia. Qed.

Lemma trim_length c s : (String.length (Trim c s) ≤ String.length s)%nat.
Proof.
  assert (Hr : ∀ s, (String.length (trim_right_chr c s) ≤ String.length s)%nat).
  { induction s0 as [|d s0 IH]; simpl; [lia|]. destruct (trim_right_chr c s0); [case_bool_decide|]; simpl in *; lia. }
  assert (Hl : ∀ s, (String.length (trim_left_chr c s) ≤ String.length s)%nat).
  { induction s0 as [|d s0 IH]; simpl; [lia|]. case_bool_decide; simpl; lia. }
  unfold Trim. specialize (Hr (trim_left_chr c s)). specialize (Hl s). lia.
Qed.

(** The first character, and the rest without trailing [c]. *)
Lemma trim_left_chr_head c s : trim_left_chr c s = "" ∨ ∃ d r, trim_left_chr c s = String d r ∧ d ≠ c.
Proof.
  induction s as [|d s IH]; simpl; [by left|]. case_bool_decide; [done|]. right. eauto.
Qed.

Lemma trim_right_chr_head c d s : d ≠ c → trim_right_chr c (String d s) = String d (trim_right_chr c s).
Proof. intros. simpl. destruct (trim_right_chr c s); [|done]. by rewrite bool_decide_false. Qed.

(** A string that starts and ends with a letter or a digit. *)
Fixpoint last_ok (s : string) : bool :=
  match s with "" => false | String c "" => is_lower_alnum c | String _ s => last_ok s end.
Definition dns_label (s : string) : Prop :=
  str_forallb dns_chr s = true ∧ (∃ c r, s = String c r ∧ is_lower_alnum c = true) ∧ last_ok s = true.

Lemma trim_right_chr_last s :
  str_forallb dns_chr s = true → trim_right_chr dash s = "" ∨ last_ok (trim_right_chr dash s) = true.
Proof.
  induction s as [|d s IH]; simpl; [by left|]. intros [Hd Hs]%andb_true_iff. specialize (IH Hs).
  destruct (trim_right_chr dash s) as [|e r].
  - case_bool_decide as Hdash; [by left|]. right. simpl. unfold dns_chr in Hd.
    rewrite bool_decide_false in Hd by done. by rewrite orb_false_r in Hd.
  - right. destruct IH as [?|IH]; [done|]. exact IH.
Qed.

Lemma Trim_label s : str_forallb dns_chr s = true → Trim dash s = "" ∨ dns_label (Trim dash s).
Proof.
  intros Hs. unfold Trim. apply (trim_left_chr_forallb _ dash) in Hs.
  destruct (trim_left_chr_head dash s) as [E|(d & r & E & Hd)]; rewrite E in *; [by left|]. right.
  split_and!.
  - by apply trim_right_chr_forallb.
  - rewrite trim_right_chr_head by done. do 2 eexists. split; [done|]. simpl in Hs.
    apply andb_true_iff in Hs as [Hs _]. unfold dns_chr in Hs. rewrite bool_decide_false in Hs by congruence.
    by rewrite orb_false_r in Hs.
  - destruct (trim_right_chr_last (String d r) Hs) as [E2|?]; [|done].
    by rewrite trim_right_chr_head in E2.
Qed.

Lemma dnsLabelPart_label s : dnsLabelPart s = "" ∨ dns_label (dnsLabelPart s).
Proof. apply Trim_label, dnsLoop_chars. Qed.

Lemma take_label n s : (0 < n)%nat → dns_label s → dns_label (Trim dash (str_take n s)).
Proof.
  intros Hn (Hc & (c & r & -> & Ha) & _).
  destruct (Trim_label (str_take n (String c r))) as [E|?]; [by apply str_take_forallb| |done].
  exfalso. destruct n as [|n]; [lia|]. unfold Trim in E. simpl in E.
  rewrite bool_decide_false in E by (by intros <-). rewrite trim_right_chr_head in E; [done|by intros ->].
Qed.

Lemma last_ok_app a b : b ≠ "" → last_ok (a +:+ b) = last_ok b.
Proof.
  intros Hb. induction a as [|c a IH]; [done|]. simpl. rewrite IH. destruct (a +:+ b) eqn:E; [|done].
  by destruct a, b.
Qed.

Lemma shortHash_facts v : String.length (shortHash v) = 8%nat ∧ str_forallb is_lower_alnum (shortHash v) = true.
Proof.
  unfold shortHash. pose proof (length_EncodeToString (Sum256 (str_bytes v))) as Hl. rewrite length_Sum256 in Hl.
  split; [|apply str_take_forallb, EncodeToString_alnum].
  revert Hl. generalize (EncodeToString (Sum256 (str_bytes v))) as s. intros s Hl.
  do 8 (destruct s as [|? s]; [done|]). done.
Qed.

Lemma alnum_dns s : str_forallb is_lower_alnum s = true → str_forallb dns_chr s = true.
Proof.
  induction s as [|c s IH]; simpl; [done|]. unfold dns_chr at 1. intros [-> ?]%andb_true_iff. simpl. auto.
Qed.

Lemma alnum_last s : s ≠ "" → str_forallb is_lower_alnum s = true → last_ok s = true.
Proof.
  induction s as [|c s IH]; [done|]. intros _. simpl. intros [Hc Hs]%andb_true_iff. destruct s; [done|]. by apply IH.
Qed.

Lemma joined_label p part h :
  dns_label p → dns_label part → h ≠ "" → str_forallb is_lower_alnum h = true →
  dns_label (p +:+ "-" +:+ part +:+ "-" +:+ h).
Proof.
  intros (Hp & (c & r & -> & Hc) & _) (Hpart & _) Hne Hh. split_and!.
  - rewrite !str_forallb_app, Hp, Hpart, (alnum_dns h) by done. done.
  - by exists c, (r +:+ "-" +:+ part +:+ "-" +:+ h).
  - rewrite last_ok_app by (destruct part; done). rewrite last_ok_app by (destruct part; done).
    rewrite last_ok_app by done. rewrite last_ok_app by done. by apply alnum_last.
Qed.

(** The part of a name between prefix and hash. *)
Lemma name_part (limit : Z) part :
  1 ≤ limit → dns_label part →
  let part' := if limit <? Z.of_nat (String.length part) then
                 let t := Trim dash (str_take (Z.to_nat limit) part) in if decide (t = "") then "value" else t
               else part in
  dns_label part' ∧ Z.of_nat (String.length part') ≤ limit.
Proof.
  intros Hlim Hpart. simpl. destruct (Z.ltb_spec limit (Z.of_nat (String.length part))); [|done].
  pose proof (take_label (Z.to_nat limit) part ltac:(lia) Hpart) as Ht.
  rewrite decide_False by (intros E; rewrite E in Ht; by destruct Ht as (_ & (? & ? & ? & _) & _)).
  split; [done|]. pose proof (trim_length dash (str_take (Z.to_nat limit) part)).
  pose proof (str_take_length (Z.to_nat limit) part). lia.
Qed.

(** for a prefix whose normal form has at most 52 characters, the name of
    an object is a DNS label: at most 63 characters, lower-case letters, digits
    and dashes only, with a letter or digit at both ends. *)
Theorem stable_name_dns prefix value :
  (String.length (dnsLabelPart prefix) ≤ 52)%nat →
  dns_label (stableObjectName prefix value) ∧ (String.length (stableObjectName prefix value) ≤ 63)%nat.
Proof.
  intros Hlen. unfold stableObjectName.
  set (p := if decide (dnsLabelPart prefix = "") then _ else _).
  set (part := if decide (dnsLabelPart value = "") then _ else _).
  assert (Hp : dns_label p ∧ (String.length p ≤ 52)%nat).
  { subst p. case_decide as E; [|by destruct (dnsLabelPart_label prefix)].
    split; [|simpl; lia]. repeat split. by do 2 eexists. }
  assert (Hpart : dns_label part).
  { subst part. case_decide as E; [|by destruct (dnsLabelPart_label value)]. repeat split. by do 2 eexists. }
  destruct (shortHash_facts value) as [Hh Hha]. destruct Hp as [Hp Hpl]. rewrite Hh.
  destruct (Z.ltb_spec (63 - Z.of_nat (String.length p) - Z.of_nat 8 - 2) 1); [lia|].
  destruct (name_part (63 - Z.of_nat (String.length p) - Z.of_nat 8 - 2) part) as [Hl1 Hl2]; [lia|done|].
  split; [apply joined_label; [done..| |done]; by intros E; rewrite E in Hh|].
  rewrite !str_length_app, Hh. change (String.length "-") with 1%nat. cbv zeta in *. lia.
Qed.

(** ** Witnesses *)

Definition w_labels : gmap string (gmap string string) :=
  {[ "n1" := {[ FabricTierKey 0 := "leaf1"; KeyTopologyXclrDomain := "d1"; "role" := "gpu" ]};
     "n2" := {[ FabricTierKey 0 := " leaf1 "; KeyTopologyXclrDomain := "old"; KeyTopologyXclrSubDomain := "s" ]};
     "n3" := {[ "role" := "login" ]} ]}.

Definition w_sources : gmap string string := {[ "n2" := "rack" ]}.

Lemma nfd_objects_spec_witness :
  ∃ entries,
    buildNFDObjects (λ _, []) (λ _, None) w_labels w_sources "src" =
      Ok (omap (featureOf "src" w_labels w_sources) ["n1"; "n2"; "n3"],
          (λ e, nodeFeatureGroup e.1.1 e.1.2 e.2) <$> entries) ∧
    (topologyTypeAcceleratorDomain, "rack") ∈ entries.*1 ∧ (topologyTypeFabric +:+ "0", "leaf1") ∈ entries.*1.
Proof.
  destruct (nfd_objects_spec "src" (λ _, []) (λ _, None) w_labels w_sources) as (es & Hb & _ & _ & Hg & _); [done..|].
  exists es. split; [rewrite Hb; reflexivity|]. rewrite !Hg. split.
  - exists "n2". split; [by eexists|vm_eq].
  - exists "n1". split; [by eexists|vm_eq].
Defined.

(** Group names of the values of these nodes; a value without usable characters. *)
Example w_names :
  (stableObjectName (topologyTypeFabric +:+ "0") "Leaf_A", stableObjectName "x" "??") =
  ("fabric-tier-0-leaf-a-72566cc9", "x-value-e270aeb3").
Proof. vm_eq. Qed.

Lemma stable_name_dns_witness :
  dns_label (stableObjectName "topograph-accelerator-sub-domain" "GPU.Block.7") ∧
  (String.length (stableObjectName "topograph-accelerator-sub-domain" "GPU.Block.7") ≤ 63)%nat.
Proof. apply (stable_name_dns "topograph-accelerator-sub-domain" "GPU.Block.7"). vm_compute. lia. Defined.

End NfdObjects.
