(* ===== verification/NfdEngine.v ===== *)
(** * The nfd engine: [pkg/engines/nfd/engine.go], [kubernetes.go] and the
    writes of [objects.go]

    The engine publishes the objects of [NfdObjects] through the dynamic
    client.  Features and groups are applied by two goroutines, and stale
    objects deleted by two more: the calls of a pair interleave, so applying
    and cleaning up are step relations over the cluster and the work left to
    each goroutine.  The API server is an interface with its promises. *)

From S2P Require Import Prelude GoStrings Topology K8sLabels K8sEngine NfdObjects.
Open Scope Z_scope.

(** [nodeFeatureGVR] and [nodeFeatureGroupGVR]. *)
Inductive resource := nodeFeatureGVR | nodeFeatureGroupGVR.
#[export] Instance resource_eq_dec : EqDecision resource.
Proof. solve_decision. Defined.

(** ** The API server *)

(** An operation [add] of a JSON patch. *)
Inductive patchValue := ValueSpec (s : NfdObjects.spec) | ValueString (s : string).
Record patchOp := MkOp { path : string; value : patchValue }.

(** A token of a JSON pointer (RFC 6901): [~1] is a slash and [~0] a tilde. *)
Fixpoint unescapeToken (s : string) : string :=
  match s with
  | "" => ""
  | String "~" (String "1" s) => String "/" (unescapeToken s)
  | String "~" (String "0" s) => String "~" (unescapeToken s)
  | String c s => String c (unescapeToken s)
  end.

Definition labelsPath : string := "/metadata/labels/".
Definition annotationsPath : string := "/metadata/annotations/".

(** Adding a member of an object (RFC 6902) sets or replaces it. *)
Definition applyOp (obj : NfdObjects.object) (op : patchOp) : NfdObjects.object :=
  let '(NfdObjects.MkObject api kind ns name labels annotations sp) := obj in
  match value op with
  | ValueSpec s =>
      NfdObjects.MkObject api kind ns name labels annotations (if decide (path op = "/spec") then s else sp)
  | ValueString v =>
      match cut_prefix labelsPath (path op), cut_prefix annotationsPath (path op) with
      | Some key, _ => NfdObjects.MkObject api kind ns name (<[unescapeToken key := v]> labels) annotations sp
      | None, Some key => NfdObjects.MkObject api kind ns name labels (<[unescapeToken key := v]> annotations) sp
      | None, None => obj
      end
  end.

Inductive patchResult := PatchOk | PatchNotFound | PatchFailed (msg : string).
Inductive createResult := CreateOk | AlreadyExists | CreateFailed (msg : string).
Inductive deleteResult := DeleteOk | DeleteNotFound | DeleteFailed (msg : string).

(** A selector that requires labels. *)
Definition selected (selector labels : labelMap) : bool := bool_decide (selector ⊆ labels).

(** The calls of the dynamic client on a resource in a namespace, and what the
    API server promises of the objects it stores. *)
Class NfdCluster (W : Type) := {
  nfd_nodes : W → option string → result string (list Node);
  nfd_list : W → resource → string → labelMap → result string (list string);
  nfd_patch : W → resource → string → string → list patchOp → W * patchResult;
  nfd_create : W → resource → string → NfdObjects.object → W * createResult;
  nfd_delete : W → resource → string → string → W * deleteResult;
  objects : W → resource → string → gmap string NfdObjects.object;
  nfd_list_stored : ∀ w r ns sel names, nfd_list w r ns sel = Ok names →
    NoDup names ∧ ∀ name, name ∈ names ↔
      ∃ obj, objects w r ns !! name = Some obj ∧ selected sel (NfdObjects.o_Labels obj) = true;
  nfd_patch_stored : ∀ w r ns name ops w' res, nfd_patch w r ns name ops = (w', res) →
    match res with
    | PatchOk => ∃ cur, objects w r ns !! name = Some cur ∧
                   objects w' r ns = <[name := foldl applyOp cur ops]> (objects w r ns)
    | PatchNotFound => objects w r ns !! name = None ∧ objects w' r ns = objects w r ns
    | PatchFailed _ => True
    end;
  nfd_create_stored : ∀ w r ns obj w' res, nfd_create w r ns obj = (w', res) →
    match res with
    | CreateOk => objects w r ns !! NfdObjects.o_Name obj = None ∧
                  objects w' r ns = <[NfdObjects.o_Name obj := obj]> (objects w r ns)
    | AlreadyExists => is_Some (objects w r ns !! NfdObjects.o_Name obj) ∧ objects w' r ns = objects w r ns
    | CreateFailed _ => True
    end;
  nfd_delete_stored : ∀ w r ns name w' res, nfd_delete w r ns name = (w', res) →
    match res with
    | DeleteFailed _ => True
    | _ => objects w' r ns = delete name (objects w r ns)
    end;
  (** A call only concerns the objects of its resource and namespace. *)
  nfd_patch_other : ∀ w r ns name ops w' res r' ns', nfd_patch w r ns name ops = (w', res) →
    (r', ns') ≠ (r, ns) → objects w' r' ns' = objects w r' ns';
  nfd_create_other : ∀ w r ns obj w' res r' ns', nfd_create w r ns obj = (w', res) →
    (r', ns') ≠ (r, ns) → objects w' r' ns' = objects w r' ns';
  nfd_delete_other : ∀ w r ns name w' res r' ns', nfd_delete w r ns name = (w', res) →
    (r', ns') ≠ (r, ns) → objects w' r' ns' = objects w r' ns'
}.

Module NfdEngine.
Import Domain K8sLabels NfdObjects.

Record Params := MkParams {
  NodeSelector : labelMap;
  Cleanup : bool;
  AcceleratorDomainSourceLabel : string;
  nodeListOpt : option string
}.

Record NfdEngine := MkEngine {
  params : Params;
  namespace : string;
  cachedNodes : option (list Node)
}.

(** The parameters after decoding; [SetString] is the string of a label set. *)
Definition getParameters (IsQualifiedName : string → list string) (SetString : labelMap → string) (p : Params) :
    result K8sLabels.keyErr Params :=
  _ ← (if decide (AcceleratorDomainSourceLabel p = "") then Ok ()
       else K8sLabels.ValidateLabelKey IsQualifiedName "acceleratorDomainSourceLabel" (AcceleratorDomainSourceLabel p));
  Ok (MkParams (NodeSelector p) (Cleanup p) (AcceleratorDomainSourceLabel p)
        (if decide (NodeSelector p = ∅) then nodeListOpt p else Some (SetString (NodeSelector p)))).

(** From the value of the environment variable. *)
Definition getNFDNamespace (env : string) : option string :=
  if decide (trim_space env = "") then None else Some (trim_space env).

Definition acceleratorDomainSourceValues (nodes : list Node) (sourceLabel : string) : labelMap :=
  if decide (sourceLabel = "") then ∅
  else foldl (λ out node,
         let value := trim_space (default "" (n_Labels node !! sourceLabel)) in
         if decide (value = "") then out else <[n_Name node := value]> out) ∅ nodes.

(** [strings.NewReplacer(~, ~0, /, ~1)]. *)
Fixpoint jsonPointerToken (s : string) : string :=
  match s with
  | "" => ""
  | String c s =>
      if bool_decide (c = "~"%char) then "~0" +:+ jsonPointerToken s
      else if bool_decide (c = "/"%char) then "~1" +:+ jsonPointerToken s
      else String c (jsonPointerToken s)
  end.

Definition objectNames (objects : list object) : gset string := list_to_set (o_Name <$> objects).

Section Engine.
Context `{RangeOrder} `{NfdCluster W} (eng : NfdEngine).

(** ** One object *)

Definition upsertPatch (obj : object) : list patchOp :=
  MkOp "/spec" (ValueSpec (Spec obj)) ::
  ((λ kv, MkOp (labelsPath +:+ jsonPointerToken kv.1) (ValueString kv.2)) <$> range (o_Labels obj)) ++
  ((λ kv, MkOp (annotationsPath +:+ jsonPointerToken kv.1) (ValueString kv.2)) <$> range (o_Annotations obj)).

Definition setNamespace (ns : string) (obj : object) : object :=
  MkObject (APIVersion obj) (Kind obj) ns (o_Name obj) (o_Labels obj) (o_Annotations obj) (Spec obj).

Definition patchError (res : patchResult) : option string :=
  match res with PatchOk => None | PatchNotFound => Some "not found" | PatchFailed msg => Some msg end.

Definition upsertObject (w : W) (gvr : resource) (obj : object) : W * option string :=
  let ns := namespace eng in
  let obj := setNamespace ns obj in
  let '(w, res) := nfd_patch w gvr ns (o_Name obj) (upsertPatch obj) in
  match res with
  | PatchNotFound =>
      let '(w, res) := nfd_create w gvr ns obj in
      match res with
      | CreateOk => (w, None)
      | CreateFailed msg => (w, Some msg)
      | AlreadyExists =>
          let '(w, res) := nfd_patch w gvr ns (o_Name obj) (upsertPatch obj) in (w, patchError res)
      end
  | res => (w, patchError res)
  end.

(** ** Applying: two goroutines *)

(** What is left to apply to each resource, and the first error, which also
    cancels the context. *)
Record applying := MkApplying {
  a_world : W;
  a_left : resource → list object;
  a_err : option string
}.

Definition setLeft {A} (f : resource → A) (r : resource) (x : A) : resource → A :=
  λ r', if decide (r' = r) then x else f r'.

(** The next call of the goroutine of [r]; an error ends the goroutine. *)
Definition applyNext (r : resource) (st : applying) : option applying :=
  match a_left st r with
  | [] => None
  | obj :: rest =>
      let '(w, err) := upsertObject (a_world st) r obj in
      Some (match err with
            | None => MkApplying w (setLeft (a_left st) r rest) (a_err st)
            | Some msg => MkApplying w (setLeft (a_left st) r []) (Some (default msg (a_err st)))
            end)
  end.

Inductive apply_step : applying → applying → Prop :=
| apply_call r st st' : applyNext r st = Some st' → apply_step st st'
| apply_cancelled r st msg :
    a_err st = Some msg → a_left st r ≠ [] → apply_step st (MkApplying (a_world st) (setLeft (a_left st) r []) (a_err st)).

Definition applied_objects (features groups : list object) (r : resource) : list object :=
  match r with nodeFeatureGVR => features | nodeFeatureGroupGVR => groups end.

Definition applyObjects (w : W) (features groups : list object) (w' : W) (err : option string) : Prop :=
  ∃ left, rtc apply_step (MkApplying w (applied_objects features groups) None) (MkApplying w' left err) ∧
    ∀ r, left r = [].

(** ** Cleanup: two goroutines *)

Definition resourceKind (r : resource) : string :=
  match r with nodeFeatureGVR => resourceNodeFeature | nodeFeatureGroupGVR => resourceNodeFeatureGroup end.

Definition managedSelector (r : resource) : labelMap :=
  {[ labelManagedBy := managedByTopograph; labelEngine := NAME; labelResource := resourceKind r ]}.

Inductive cleaning := Listing | Deleting (names : list string) | Cleaned.

Record cleanup := MkCleanup {
  c_world : W;
  c_left : resource → cleaning;
  c_err : option string
}.

(** The next call of [cleanupResource]: the list, or one deletion. *)
Definition cleanupNext (desired : resource → gset string) (r : resource) (st : cleanup) : option cleanup :=
  let fail w msg := Some (MkCleanup w (setLeft (c_left st) r Cleaned) (Some (default msg (c_err st)))) in
  match c_left st r with
  | Listing =>
      match nfd_list (c_world st) r (namespace eng) (managedSelector r) with
      | Err msg => fail (c_world st) msg
      | Ok names => Some (MkCleanup (c_world st) (setLeft (c_left st) r (Deleting names)) (c_err st))
      end
  | Deleting [] => Some (MkCleanup (c_world st) (setLeft (c_left st) r Cleaned) (c_err st))
  | Deleting (name :: rest) =>
      if decide (name ∈ desired r)
      then Some (MkCleanup (c_world st) (setLeft (c_left st) r (Deleting rest)) (c_err st))
      else
        let '(w, res) := nfd_delete (c_world st) r (namespace eng) name in
        match res with
        | DeleteFailed msg => fail w msg
        | _ => Some (MkCleanup w (setLeft (c_left st) r (Deleting rest)) (c_err st))
        end
  | Cleaned => None
  end.

Inductive cleanup_step (desired : resource → gset string) : cleanup → cleanup → Prop :=
| cleanup_call r st st' : cleanupNext desired r st = Some st' → cleanup_step desired st st'
| cleanup_cancelled r st msg :
    c_err st = Some msg → c_left st r ≠ Cleaned →
    cleanup_step desired st (MkCleanup (c_world st) (setLeft (c_left st) r Cleaned) (c_err st)).

Definition cleanupObjects (w : W) (features groups : list object) (w' : W) (err : option string) : Prop :=
  ∃ left, rtc (cleanup_step (λ r, objectNames (applied_objects features groups r)))
            (MkCleanup w (λ _, Listing) None) (MkCleanup w' left err) ∧ ∀ r, left r = Cleaned.

(** ** Output *)

Inductive nfdErr :=
| ErrGetNodes (msg : string)
| ErrLabels (e : labelErr)
| ErrObjects (e : objectErr)
| ErrNothing
| ErrApply (msg : string)
| ErrCleanup (msg : string).

Context (metadata : option K8sEngine.NodeMetadata).
Context (IsValidLabelValue : string → list string) (ToUnstructured : object → option string).

Definition GetNodes (w : W) : result nfdErr (list Node) :=
  match nfd_nodes w (nodeListOpt (params eng)) with
  | Ok nodes => Ok (K8sEngine.resolveNodeMetadata metadata nodes)
  | Err msg => Err (ErrGetNodes msg)
  end.

Definition ResolveComputeInstances (w : W) (instances : list ComputeInstances) :
    result nfdErr (NfdEngine * list ComputeInstances) :=
  nodes ← GetNodes w;
  Ok (MkEngine (params eng) (namespace eng) (Some nodes),
      if decide (instances = []) then K8sEngine.GetComputeInstances nodes else instances).

(** [GenerateOutput] until it writes: the objects to publish.  [None]: the
    labels of a cyclic graph. *)
Definition desiredObjects (w : W) (graph : option Graph) : option (result nfdErr (list object * list object)) :=
  let p := params eng in
  match (match cachedNodes eng with Some nodes => Ok nodes | None => GetNodes w end) with
  | Err e => Some (Err e)
  | Ok nodes =>
      match BuildNodeLabels (NewTopologyLabelKeys [] "") graph with
      | None => None
      | Some (Err e) => Some (Err (ErrLabels e))
      | Some (Ok nodeLabels) =>
          match buildNFDObjects IsValidLabelValue ToUnstructured nodeLabels
                  (acceleratorDomainSourceValues nodes (AcceleratorDomainSourceLabel p))
                  (AcceleratorDomainSourceLabel p) with
          | Err e => Some (Err (ErrObjects e))
          | Ok (features, groups) =>
              if Cleanup p && bool_decide (features = []) && bool_decide (groups = []) then Some (Err ErrNothing)
              else Some (Ok (features, groups))
          end
      end
  end.

Definition okMessage (features groups : list object) : string :=
  "OK nodeFeatures=" +:+ itoa (Z.of_nat (length features)) +:+ " nodeFeatureGroups=" +:+
  itoa (Z.of_nat (length groups)) +:+ newline.

(** The outcomes of [GenerateOutput]. *)
Inductive GenerateOutput (w : W) (graph : option Graph) : W → result nfdErr string → Prop :=
| outputs_nothing e :
    desiredObjects w graph = Some (Err e) → GenerateOutput w graph w (Err e)
| outputs_apply_failed features groups w1 msg :
    desiredObjects w graph = Some (Ok (features, groups)) → applyObjects w features groups w1 (Some msg) →
    GenerateOutput w graph w1 (Err (ErrApply msg))
| outputs_applied features groups w1 :
    desiredObjects w graph = Some (Ok (features, groups)) → applyObjects w features groups w1 None →
    Cleanup (params eng) = false → GenerateOutput w graph w1 (Ok (okMessage features groups))
| outputs_cleanup_failed features groups w1 w2 msg :
    desiredObjects w graph = Some (Ok (features, groups)) → applyObjects w features groups w1 None →
    Cleanup (params eng) = true → cleanupObjects w1 features groups w2 (Some msg) →
    GenerateOutput w graph w2 (Err (ErrCleanup msg))
| outputs_cleaned features groups w1 w2 :
    desiredObjects w graph = Some (Ok (features, groups)) → applyObjects w features groups w1 None →
    Cleanup (params eng) = true → cleanupObjects w1 features groups w2 None →
    GenerateOutput w graph w2 (Ok (okMessage features groups)).

(** ** One object *)

Lemma unescape_token s : unescapeToken (jsonPointerToken s) = s.
Proof.
  induction s as [|c s IH]; [done|]. simpl. case_bool_decide as H1; [subst; simpl; by rewrite IH|].
  case_bool_decide as H2; [subst; simpl; by rewrite IH|].
  assert (Hc : ∀ t, unescapeToken (String c t) = String c (unescapeToken t)); [|by rewrite Hc, IH].
  intros t. destruct c as [[] [] [] [] [] [] [] []]; try reflexivity. done.
Qed.

Lemma cut_prefix_app p s : cut_prefix p (p +:+ s) = Some s.
Proof. induction p as [|a p IH]; [by destruct s|]. simpl. by rewrite bool_decide_true. Qed.

(** An object with labels, annotations and spec set. *)
Definition patched (obj cur : object) : object :=
  MkObject (APIVersion cur) (Kind cur) (o_Namespace cur) (o_Name cur)
    (o_Labels obj ∪ o_Labels cur) (o_Annotations obj ∪ o_Annotations cur) (Spec obj).

Lemma foldl_insert_union (l : list (string * string)) (m : labelMap) :
  NoDup l.*1 → foldl (λ m kv, <[kv.1 := kv.2]> m) m l = list_to_map l ∪ m.
Proof.
  revert m. induction l as [|[k v] l IH]; intros m; csimpl; [by rewrite (left_id_L ∅ (∪))|].
  intros [Hk Hnd]%NoDup_cons. rewrite IH by done.
  rewrite <-insert_union_r by (by apply not_elem_of_list_to_map_1). by rewrite insert_union_l.
Qed.

Lemma foldl_insert_range (m1 m2 : labelMap) : foldl (λ m kv, <[kv.1 := kv.2]> m) m2 (range m1) = m1 ∪ m2.
Proof.
  rewrite foldl_insert_union by apply range_NoDup. f_equal.
  rewrite (list_to_map_proper (range m1) (map_to_list m1)); [apply list_to_map_to_list|apply range_NoDup|apply range_perm].
Qed.

Lemma applyOp_label api kind ns name labels annotations sp k v :
  applyOp (MkObject api kind ns name labels annotations sp) (MkOp (labelsPath +:+ jsonPointerToken k) (ValueString v)) =
  MkObject api kind ns name (<[k := v]> labels) annotations sp.
Proof. unfold applyOp. cbn [value path]. by rewrite cut_prefix_app, unescape_token. Qed.

Lemma applyOp_annotation api kind ns name labels annotations sp k v :
  applyOp (MkObject api kind ns name labels annotations sp)
    (MkOp (annotationsPath +:+ jsonPointerToken k) (ValueString v)) =
  MkObject api kind ns name labels (<[k := v]> annotations) sp.
Proof.
  unfold applyOp. cbn [value path]. rewrite cut_prefix_app, unescape_token.
  assert (cut_prefix labelsPath (annotationsPath +:+ jsonPointerToken k) = None) as -> by reflexivity. done.
Qed.

Lemma applyOp_labels api kind ns name labels annotations sp l :
  foldl applyOp (MkObject api kind ns name labels annotations sp)
    ((λ kv, MkOp (labelsPath +:+ jsonPointerToken kv.1) (ValueString kv.2)) <$> l) =
  MkObject api kind ns name (foldl (λ m kv, <[kv.1 := kv.2]> m) labels l) annotations sp.
Proof.
  revert labels. induction l as [|[k v] l IH]; intros labels; [done|].
  rewrite fmap_cons. cbn [foldl fst snd]. by rewrite applyOp_label, IH.
Qed.

Lemma applyOp_annotations api kind ns name labels annotations sp l :
  foldl applyOp (MkObject api kind ns name labels annotations sp)
    ((λ kv, MkOp (annotationsPath +:+ jsonPointerToken kv.1) (ValueString kv.2)) <$> l) =
  MkObject api kind ns name labels (foldl (λ m kv, <[kv.1 := kv.2]> m) annotations l) sp.
Proof.
  revert annotations. induction l as [|[k v] l IH]; intros annotations; [done|].
  rewrite fmap_cons. cbn [foldl fst snd]. by rewrite applyOp_annotation, IH.
Qed.

Lemma applyOps_patched obj cur : foldl applyOp cur (upsertPatch obj) = patched obj cur.
Proof.
  unfold upsertPatch, patched. destruct cur as [api kind ns name labels annotations sp]. simpl.
  by rewrite foldl_app, applyOp_labels, applyOp_annotations, !foldl_insert_range.
Qed.

(** The object stored after an upsert, from the one stored before. *)
Definition upserted (obj : object) (old : option object) : object :=
  match old with
  | Some cur => patched obj cur
  | None => setNamespace (namespace eng) obj
  end.

Abbreviation stored w r := (objects w r (namespace eng)).

Lemma patched_namespace ns obj cur : patched (setNamespace ns obj) cur = patched obj cur.
Proof. done. Qed.

Lemma upsertObject_spec w r obj w' :
  upsertObject w r obj = (w', None) →
  stored w' r = <[o_Name obj := upserted obj (stored w r !! o_Name obj)]> (stored w r).
Proof.
  unfold upsertObject. simpl.
  destruct (nfd_patch w r _ _ _) as [w1 res1] eqn:Hp. pose proof (nfd_patch_stored _ _ _ _ _ _ _ Hp) as Hs.
  destruct res1; simpl.
  - intros [= <-]. destruct Hs as (cur & Hcur & ->). by rewrite applyOps_patched, patched_namespace, Hcur.
  - destruct Hs as [Hnone Hw1]. destruct (nfd_create w1 r _ _) as [w2 res2] eqn:Hc.
    pose proof (nfd_create_stored _ _ _ _ _ _ Hc) as Hs2. simpl in Hs2. destruct res2; [|destruct Hs2 as [[x Hx] _]; by rewrite Hw1, Hnone in Hx|done].
    intros [= <-]. destruct Hs2 as [_ ->]. by rewrite Hw1, Hnone.
  - done.
Qed.

Lemma upsertObject_other w r obj w' err r' ns :
  upsertObject w r obj = (w', err) → (r', ns) ≠ (r, namespace eng) → objects w' r' ns = objects w r' ns.
Proof.
  unfold upsertObject. simpl. intros Hu Hne.
  destruct (nfd_patch w r _ _ _) as [w1 res1] eqn:Hp. pose proof (nfd_patch_other _ _ _ _ _ _ _ _ _ Hp Hne) as <-.
  destruct res1; simplify_eq; try done. destruct (nfd_create w1 r _ _) as [w2 res2] eqn:Hc.
  pose proof (nfd_create_other _ _ _ _ _ _ _ _ Hc Hne) as <-. destruct res2; simplify_eq; try done.
  destruct (nfd_patch w2 r _ _ _) as [w3 res3] eqn:Hp3. simplify_eq.
  by apply (nfd_patch_other _ _ _ _ _ _ _ _ _ Hp3).
Qed.

(** ** Applying *)

Definition applyAll (m : gmap string object) (l : list object) : gmap string object :=
  foldl (λ m obj, <[o_Name obj := upserted obj (m !! o_Name obj)]> m) m l.

Lemma applyAll_lookup l : ∀ m name, NoDup (o_Name <$> l) →
  applyAll m l !! name =
  match find (λ obj, bool_decide (o_Name obj = name)) l with
  | Some obj => Some (upserted obj (m !! name))
  | None => m !! name
  end.
Proof.
  unfold applyAll. induction l as [|obj l IH]; intros m name; [done|].
  rewrite fmap_cons. intros [Hn Hnd]%NoDup_cons. simpl. rewrite IH by done. case_bool_decide as E.
  - subst name. rewrite lookup_insert_eq.
    destruct (find _ l) as [obj'|] eqn:Hf; [|done]. exfalso.
    apply find_some in Hf as [Hin Hb%bool_decide_eq_true]. apply Hn. rewrite <-Hb.
    by apply list_elem_of_fmap_2, list_elem_of_In.
  - by rewrite lookup_insert_ne by done.
Qed.

Lemma setLeft_eq {A} (f : resource → A) r x : setLeft f r x r = x.
Proof. unfold setLeft. by rewrite decide_True. Qed.
Lemma setLeft_ne {A} (f : resource → A) r r' x : r' ≠ r → setLeft f r x r' = f r'.
Proof. intros. unfold setLeft. by rewrite decide_False. Qed.

Lemma rtc_inv {A} (R : relation A) (P : A → Prop) x y :
  (∀ a b, R a b → P a → P b) → rtc R x y → P x → P y.
Proof. intros HR. induction 1; eauto. Qed.

(** Without an error so far, each resource has its first objects applied. *)
Definition apply_inv (w0 : W) (l : resource → list object) (st : applying) : Prop :=
  (a_err st = None → ∀ r, ∃ pre, l r = pre ++ a_left st r ∧ stored (a_world st) r = applyAll (stored w0 r) pre) ∧
  ∀ r ns, ns ≠ namespace eng → objects (a_world st) r ns = objects w0 r ns.

Lemma apply_inv_step w0 l st st' : apply_step st st' → apply_inv w0 l st → apply_inv w0 l st'.
Proof.
  intros Hstep [Hok Hother]. destruct Hstep as [r st st' Hnext|r st msg Herr _]; [|split; [simpl; congruence|done]].
  unfold applyNext in Hnext. destruct (a_left st r) as [|obj rest] eqn:Hl; [done|].
  destruct (upsertObject (a_world st) r obj) as [w1 err] eqn:Hu. injection Hnext as <-.
  assert (Hother' : ∀ r' ns, ns ≠ namespace eng → objects w1 r' ns = objects w0 r' ns).
  { intros r' ns Hns. rewrite <-(Hother r' ns Hns). eapply upsertObject_other; [done|]. by intros [= _ ?]. }
  destruct err as [msg|]; (split; [|done]); simpl; [done|].
  intros Herr r'. destruct (Hok Herr r') as (pre & Hpre & Hst). destruct (decide (r' = r)) as [->|Hne].
  - exists (pre ++ [obj]). rewrite setLeft_eq, <-app_assoc. split; [by rewrite Hpre, Hl|].
    rewrite (upsertObject_spec _ _ _ _ Hu), Hst. unfold applyAll. by rewrite foldl_snoc.
  - exists pre. rewrite setLeft_ne by done. split; [done|]. rewrite <-Hst.
    eapply upsertObject_other; [done|]. by intros [= ?].
Qed.

Lemma applyObjects_spec w features groups w' :
  applyObjects w features groups w' None →
  (∀ r, stored w' r = applyAll (stored w r) (applied_objects features groups r)) ∧
  ∀ r ns, ns ≠ namespace eng → objects w' r ns = objects w r ns.
Proof.
  intros (left & Hsteps & Hleft).
  assert (Hinv : apply_inv w (applied_objects features groups) (MkApplying w' left None)).
  { refine (rtc_inv _ _ _ _ _ Hsteps _).
    - intros st st' Hs Hi. by eapply apply_inv_step.
    - split; [|done]. intros _ r. by exists []. }
  destruct Hinv as [Hok Hother]. split; [|done]. intros r. destruct (Hok eq_refl r) as (pre & Hl & Hst). simpl in Hl, Hst. rewrite Hst, Hl, Hleft. by rewrite app_nil_r.
Qed.

(** ** Cleanup *)

(** The objects of [r] without those among [names] that are not desired. *)
Definition swept (m : gmap string object) (desired : gset string) (names : list string) (name : string) : option object :=
  if decide (name ∈ names ∧ name ∉ desired) then None else m !! name.

Definition listed (m : gmap string object) (r : resource) (names : list string) : Prop :=
  ∀ name, name ∈ names ↔ ∃ obj, m !! name = Some obj ∧ selected (managedSelector r) (o_Labels obj) = true.

Definition cleanup_inv (w0 : W) (desired : resource → gset string) (st : cleanup) : Prop :=
  (c_err st = None → ∀ r, match c_left st r with
    | Listing => stored (c_world st) r = stored w0 r
    | Deleting rest => ∃ pre, listed (stored w0 r) r (pre ++ rest) ∧
                         ∀ name, stored (c_world st) r !! name = swept (stored w0 r) (desired r) pre name
    | Cleaned => ∃ pre, listed (stored w0 r) r pre ∧
                   ∀ name, stored (c_world st) r !! name = swept (stored w0 r) (desired r) pre name
    end) ∧
  ∀ r ns, ns ≠ namespace eng → objects (c_world st) r ns = objects w0 r ns.

Lemma swept_delete m desired pre name n :
  name ∉ desired → (if decide (n = name) then None else swept m desired pre n) = swept m desired (pre ++ [name]) n.
Proof.
  intros Hd. unfold swept. destruct (decide (n = name)) as [->|Hne].
  - rewrite decide_True; [done|]. split; [|done]. apply elem_of_app. right. by apply list_elem_of_singleton.
  - apply decide_ext. rewrite elem_of_app, list_elem_of_singleton. tauto.
Qed.

Lemma swept_keep m desired pre name n :
  name ∈ desired → swept m desired pre n = swept m desired (pre ++ [name]) n.
Proof.
  intros Hd. unfold swept. apply decide_ext. rewrite elem_of_app, list_elem_of_singleton. naive_solver.
Qed.

Lemma cleanup_inv_step w0 desired st st' :
  cleanup_step desired st st' → cleanup_inv w0 desired st → cleanup_inv w0 desired st'.
Proof.
  intros Hstep [Hok Hother]. destruct Hstep as [r st st' Hnext|r st msg Herr _]; [|split; [simpl; congruence|done]].
  unfold cleanupNext in Hnext. destruct (c_left st r) as [|[|name rest]|] eqn:Hl; [| | |done].
  - destruct (nfd_list _ _ _ _) as [names|msg] eqn:Hlist; simplify_eq; (split; [|done]); simpl; [|done].
    intros Herr r'. destruct (decide (r' = r)) as [->|Hne].
    + specialize (Hok Herr r). rewrite Hl in Hok. rewrite setLeft_eq. exists []. split.
      * intros name. rewrite <-Hok. by apply (nfd_list_stored _ _ _ _ _ Hlist).
      * intros name. rewrite Hok. unfold swept. rewrite decide_False; [done|]. intros [[]%elem_of_nil _].
    + rewrite setLeft_ne by done. by apply Hok.
  - simplify_eq. split; [|done]. simpl. intros Herr r'. destruct (decide (r' = r)) as [->|Hne].
    + specialize (Hok Herr r). rewrite Hl in Hok. rewrite setLeft_eq. by setoid_rewrite app_nil_r in Hok.
    + rewrite setLeft_ne by done. by apply Hok.
  - case_decide as Hd.
    + simplify_eq. split; [|done]. simpl. intros Herr r'. destruct (decide (r' = r)) as [->|Hne].
      * specialize (Hok Herr r). rewrite Hl in Hok. destruct Hok as (pre & Hlisted & Hst). rewrite setLeft_eq.
        exists (pre ++ [name]). rewrite <-app_assoc. split; [done|]. intros n. by rewrite Hst, <-swept_keep.
      * rewrite setLeft_ne by done. by apply Hok.
    + destruct (nfd_delete _ _ _ _) as [w1 res] eqn:Hdel.
      pose proof (λ r' ns Hne, nfd_delete_other _ _ _ _ _ _ r' ns Hdel Hne) as Ho.
      pose proof (nfd_delete_stored _ _ _ _ _ _ Hdel) as Hs.
      assert (Hother' : ∀ r' ns, ns ≠ namespace eng → objects w1 r' ns = objects w0 r' ns).
      { intros r' ns Hns. rewrite <-(Hother r' ns Hns). apply Ho. by intros [= _ ?]. }
      assert (Hgoal : res = DeleteOk ∨ res = DeleteNotFound →
        cleanup_inv w0 desired (MkCleanup w1 (setLeft (c_left st) r (Deleting rest)) (c_err st))).
      { intros Hres. split; [|done]. simpl. intros Herr r'. destruct (decide (r' = r)) as [->|Hne].
        - specialize (Hok Herr r). rewrite Hl in Hok. destruct Hok as (pre & Hlisted & Hst). rewrite setLeft_eq.
          exists (pre ++ [name]). rewrite <-app_assoc. split; [done|]. intros n.
          rewrite <-swept_delete, <-Hst by done.
          assert (stored w1 r = delete name (stored (c_world st) r)) as -> by (destruct Hres; by subst).
          rewrite lookup_delete. case_decide; case_decide; congruence.
        - rewrite setLeft_ne by done. rewrite (Ho r' (namespace eng)) by (by intros [= ?]). by apply Hok. }
      destruct res; simplify_eq; [apply Hgoal; tauto..|]. split; [done|]. done.
Qed.

Lemma cleanupObjects_spec w features groups w' :
  cleanupObjects w features groups w' None →
  (∀ r name, stored w' r !! name =
     match stored w r !! name with
     | Some old => if decide (name ∉ o_Name <$> applied_objects features groups r) then
                     if selected (managedSelector r) (o_Labels old) then None else Some old
                   else Some old
     | None => None
     end) ∧
  ∀ r ns, ns ≠ namespace eng → objects w' r ns = objects w r ns.
Proof.
  intros (left & Hsteps & Hleft).
  assert (Hinv : cleanup_inv w (λ r, objectNames (applied_objects features groups r)) (MkCleanup w' left None)).
  { refine (rtc_inv _ _ _ _ _ Hsteps _).
    - intros st st' Hs Hi. by eapply cleanup_inv_step.
    - split; done. }
  destruct Hinv as [Hok Hother]. split; [|done]. intros r name. specialize (Hok eq_refl r). simpl in Hok.
  rewrite Hleft in Hok. destruct Hok as (pre & Hlisted & ->). unfold swept, objectNames.
  specialize (Hlisted name).
  pose proof (elem_of_list_to_set (C := gset string) name (o_Name <$> applied_objects features groups r)) as Hset.
  destruct (stored w r !! name) as [old|]; [|by case_decide].
  assert (Hin : name ∈ pre ↔ selected (managedSelector r) (o_Labels old) = true) by (rewrite Hlisted; naive_solver).
  clear Hlisted. destruct (selected (managedSelector r) (o_Labels old)); repeat case_decide; tauto || intuition congruence.
Qed.

(** C11: when the nfd engine reports success, whatever the interleaving of its
    calls, the objects of its namespace are those of the topology: an object
    of the topology is stored with its spec, labels and annotations (over those
    it had before); when cleanup is on, every other object that carries the
    labels of the engine and of the resource is gone; all other objects of the
    namespace, and those of other namespaces, are unchanged.  The objects of
    one resource are to have different names. *)
Theorem nfd_topology_published w graph w' out :
  GenerateOutput w graph w' (Ok out) →
  ∃ features groups,
    desiredObjects w graph = Some (Ok (features, groups)) ∧ out = okMessage features groups ∧
    (∀ r, NoDup (o_Name <$> applied_objects features groups r) → ∀ name,
       stored w' r !! name =
       match find (λ obj, bool_decide (o_Name obj = name)) (applied_objects features groups r) with
       | Some obj => Some (upserted obj (stored w r !! name))
       | None => match stored w r !! name with
                 | Some old => if Cleanup (params eng) && selected (managedSelector r) (o_Labels old) then None
                               else Some old
                 | None => None
                 end
       end) ∧
    ∀ r ns, ns ≠ namespace eng → objects w' r ns = objects w r ns.
Proof.
  intros Hgen. remember (Ok out) as r eqn:Hr. destruct Hgen as [e|?????|fs gs w1 Hd Ha Hc|??????|fs gs w1 w2 Hd Ha Hc Hcl];
    simplify_eq; exists fs, gs; (split; [done|]); (split; [done|]).
  - apply applyObjects_spec in Ha as [Ha Ho]. split; [|done]. intros r Hnd name.
    rewrite Ha, applyAll_lookup, Hc by done. by repeat case_match.
  - apply applyObjects_spec in Ha as [Ha Ho]. apply cleanupObjects_spec in Hcl as [Hcl Ho2].
    split; [|intros; by rewrite Ho2, Ho]. intros r Hnd name. rewrite Hcl, Ha, applyAll_lookup, Hc by done. simpl.
    destruct (find _ _) as [obj|] eqn:Hf.
    + rewrite decide_False; [done|]. intros []. apply find_some in Hf as [Hin Hb%bool_decide_eq_true]. subst name.
      by apply list_elem_of_fmap_2, list_elem_of_In.
    + destruct (stored w r !! name); [|done]. rewrite decide_True; [done|].
      intros (obj & -> & Hin)%list_elem_of_fmap.
      eapply find_none in Hf; [|by apply list_elem_of_In]. by apply bool_decide_eq_false in Hf.
Qed.

(** ** Termination *)

Definition leftCount (st : applying) : nat :=
  length (a_left st nodeFeatureGVR) + length (a_left st nodeFeatureGroupGVR).

Lemma apply_step_decreases st st' : apply_step st st' → (leftCount st' < leftCount st)%nat.
Proof.
  unfold leftCount. destruct 1 as [r st st' Hnext|r st msg _ Hne]; [unfold applyNext in Hnext|];
    (destruct (a_left st r) as [|obj rest] eqn:Hl; [done|]).
  - destruct (upsertObject _ _ _) as [w1 err]. injection Hnext as <-.
    destruct err, r; simpl; unfold setLeft; simpl; rewrite ?Hl; simpl; lia.
  - destruct r; simpl; unfold setLeft; simpl; rewrite ?Hl; simpl; lia.
Qed.

(** applying always ends: no sequence of calls of the two goroutines is
    longer than the number of objects, in any state with objects left some
    goroutine can go on, and so every cluster has an outcome. *)
Theorem nfd_apply_terminates :
  (∀ st, Acc (flip apply_step) st) ∧
  (∀ st, (∀ r, a_left st r = []) ∨ ∃ st', apply_step st st') ∧
  (∀ n st st', nsteps apply_step n st st' → (n ≤ leftCount st)%nat) ∧
  ∀ w features groups, ∃ w' err, applyObjects w features groups w' err.
Proof.
  assert (Hacc : ∀ st, Acc (flip apply_step) st).
  { intros st. remember (leftCount st) as n eqn:Hn. revert st Hn. induction n as [n IH] using lt_wf_ind.
    intros st ->. constructor. intros st' Hs. eapply IH; [by apply apply_step_decreases|done]. }
  assert (Hprog : ∀ st, (∀ r, a_left st r = []) ∨ ∃ st', apply_step st st').
  { intros st. assert (Hr : ∀ r, a_left st r = [] ∨ ∃ st', apply_step st st').
    { intros r. destruct (a_left st r) as [|obj rest] eqn:Hl; [by left|right].
      destruct (applyNext r st) as [st'|] eqn:Hn; [exists st'; by econstructor|].
      unfold applyNext in Hn. rewrite Hl in Hn. by destruct (upsertObject _ _ _). }
    destruct (Hr nodeFeatureGVR) as [Hf|?]; [|by right]. destruct (Hr nodeFeatureGroupGVR) as [Hg|?]; [|by right].
    left. by intros []. }
  split_and!; [done|done| |].
  - intros n st st' Hn. induction Hn as [st|n st st1 st2 Hs _ IH]; [lia|]. apply apply_step_decreases in Hs. lia.
  - intros w features groups. unfold applyObjects.
    generalize (MkApplying w (applied_objects features groups) None) as st. intros st.
    induction (Hacc st) as [st _ IH]. destruct (Hprog st) as [Hleft|[st' Hs]].
    + exists (a_world st), (a_err st), (a_left st). split; [|done]. by destruct st.
    + destruct (IH st' Hs) as (w' & err & left & Hrtc & Hleft). exists w', err, left. split; [|done]. by eapply rtc_l.
Qed.

End Engine.

(** ** A cluster in memory *)

Abbreviation namespaces := (gmap string (gmap string object)).
Record memCluster := MkMem { mem_nodes : list Node; mem_features : namespaces; mem_groups : namespaces }.

Definition memObjects (w : memCluster) (r : resource) (ns : string) : gmap string object :=
  default ∅ (match r with nodeFeatureGVR => mem_features w | nodeFeatureGroupGVR => mem_groups w end !! ns).
Definition memWrite (w : memCluster) (r : resource) (ns : string) (m : gmap string object) : memCluster :=
  match r with
  | nodeFeatureGVR => MkMem (mem_nodes w) (<[ns := m]> (mem_features w)) (mem_groups w)
  | nodeFeatureGroupGVR => MkMem (mem_nodes w) (mem_features w) (<[ns := m]> (mem_groups w))
  end.
Definition memList (w : memCluster) (r : resource) (ns : string) (sel : labelMap) : result string (list string) :=
  Ok (filter (λ kv, selected sel (o_Labels kv.2) = true) (map_to_list (memObjects w r ns))).*1.
Definition memPatch (w : memCluster) (r : resource) (ns name : string) (ops : list patchOp) : memCluster * patchResult :=
  match memObjects w r ns !! name with
  | Some cur => (memWrite w r ns (<[name := foldl applyOp cur ops]> (memObjects w r ns)), PatchOk)
  | None => (w, PatchNotFound)
  end.
Definition memCreate (w : memCluster) (r : resource) (ns : string) (obj : object) : memCluster * createResult :=
  match memObjects w r ns !! o_Name obj with
  | Some _ => (w, AlreadyExists)
  | None => (memWrite w r ns (<[o_Name obj := obj]> (memObjects w r ns)), CreateOk)
  end.
Definition memDelete (w : memCluster) (r : resource) (ns name : string) : memCluster * deleteResult :=
  match memObjects w r ns !! name with
  | Some _ => (memWrite w r ns (delete name (memObjects w r ns)), DeleteOk)
  | None => (w, DeleteNotFound)
  end.

Lemma memObjects_write w r ns m r' ns' :
  memObjects (memWrite w r ns m) r' ns' = if decide ((r', ns') = (r, ns)) then m else memObjects w r' ns'.
Proof.
  unfold memObjects. destruct (decide ((r', ns') = (r, ns))) as [[= -> ->]|Hne].
  - by destruct r; simpl; rewrite lookup_insert_eq.
  - destruct r, r'; simpl; try done; (rewrite lookup_insert_ne; [done|congruence]).
Qed.
Lemma memObjects_write_eq w r ns m : memObjects (memWrite w r ns m) r ns = m.
Proof. rewrite memObjects_write. by rewrite decide_True. Qed.
Lemma memObjects_write_ne w r ns m r' ns' :
  (r', ns') ≠ (r, ns) → memObjects (memWrite w r ns m) r' ns' = memObjects w r' ns'.
Proof. intros. rewrite memObjects_write. by rewrite decide_False. Qed.

#[export] Program Instance memory : NfdCluster memCluster := {|
  nfd_nodes w _ := Ok (mem_nodes w);
  nfd_list := memList;
  nfd_patch := memPatch;
  nfd_create := memCreate;
  nfd_delete := memDelete;
  objects := memObjects
|}.
Next Obligation.
  intros w r ns sel names [= <-]. split.
  - apply (sublist_NoDup _ (map_to_list (memObjects w r ns)).*1); [apply NoDup_fst_map_to_list|apply fmap_sublist, sublist_filter].
  - intros name. rewrite list_elem_of_fmap. setoid_rewrite list_elem_of_filter. split.
    + intros ([n obj] & -> & Hs & Hin%elem_of_map_to_list). by exists obj.
    + intros (obj & Hobj & Hs). exists (name, obj). by rewrite elem_of_map_to_list.
Qed.
Next Obligation.
  unfold memPatch. intros w r ns name ops w' res Hp. destruct (memObjects w r ns !! name) as [cur|] eqn:Hc; simplify_eq.
  - exists cur. by rewrite memObjects_write_eq.
  - done.
Qed.
Next Obligation.
  unfold memCreate. intros w r ns obj w' res Hp. destruct (memObjects w r ns !! o_Name obj) eqn:Hc; simplify_eq; [by eauto|].
  by rewrite memObjects_write_eq.
Qed.
Next Obligation.
  unfold memDelete. intros w r ns name w' res Hp. destruct (memObjects w r ns !! name) eqn:Hc; simplify_eq.
  - by rewrite memObjects_write_eq.
  - by rewrite delete_id.
Qed.
Next Obligation. unfold memPatch. intros ????????? Hp Hne. case_match; simplify_eq; [by apply memObjects_write_ne|done]. Qed.
Next Obligation. unfold memCreate. intros ???????? Hp Hne. case_match; simplify_eq; [done|by apply memObjects_write_ne]. Qed.
Next Obligation. unfold memDelete. intros ???????? Hp Hne. case_match; simplify_eq; [by apply memObjects_write_ne|done]. Qed.

(** The calls in the order of a schedule. *)
Definition runApply `{RangeOrder} (eng : NfdEngine) (schedule : list resource) (st : applying (W := memCluster)) :=
  foldl (λ st r, default st (applyNext eng r st)) st schedule.
Definition runCleanup (eng : NfdEngine) (desired : resource → gset string) (schedule : list resource)
    (st : cleanup (W := memCluster)) :=
  foldl (λ st r, default st (cleanupNext eng desired r st)) st schedule.

Lemma runApply_steps `{RangeOrder} eng schedule st : rtc (apply_step eng) st (runApply eng schedule st).
Proof.
  revert st. induction schedule as [|r schedule IH]; intros st; simpl; [done|].
  destruct (applyNext eng r st) as [st'|] eqn:Hn; simpl; [|apply IH].
  eapply rtc_l; [by econstructor|apply IH].
Qed.
Lemma runCleanup_steps eng desired schedule st : rtc (cleanup_step eng desired) st (runCleanup eng desired schedule st).
Proof.
  revert st. induction schedule as [|r schedule IH]; intros st; simpl; [done|].
  destruct (cleanupNext eng desired r st) as [st'|] eqn:Hn; simpl; [|apply IH].
  eapply rtc_l; [by econstructor|apply IH].
Qed.

Definition w_engine : NfdEngine := MkEngine (MkParams ∅ true "" None) "nfd" (Some []).
Definition w_old : object := nodeFeature "gone" {[ "accelerator-domain" := "d0" ]}.
Definition w_foreign : object := MkObject "nfd.k8s-sigs.io/v1alpha1" "NodeFeature" "nfd" "other" ∅ ∅ (FeatureSpec ∅).
Definition w_cluster : memCluster :=
  MkMem [] {[ "nfd" := {[ "stale" := w_old; "other" := w_foreign ]} ]} ∅.
Definition w_graph : Graph := MkGraph ∅ None (Some {[ "d1" := {[ "n1" := MkHostInfo "d1" "i1" "n1" "" ]} ]}) None.

Definition w_objects : list object * list object :=
  match desiredObjects w_engine None (λ _, []) (λ _, None) w_cluster (Some w_graph) with
  | Some (Ok l) => l
  | _ => ([], [])
  end.

(** The group is written first, and the features are cleaned up last. *)
Definition w_applied : applying :=
  runApply w_engine [nodeFeatureGroupGVR; nodeFeatureGVR]
    (MkApplying w_cluster (applied_objects w_objects.1 w_objects.2) None).
Definition w_cleaned : cleanup :=
  runCleanup w_engine (λ r, objectNames (applied_objects w_objects.1 w_objects.2 r))
    [nodeFeatureGroupGVR; nodeFeatureGVR; nodeFeatureGroupGVR; nodeFeatureGroupGVR; nodeFeatureGVR; nodeFeatureGVR;
     nodeFeatureGVR; nodeFeatureGVR]
    (MkCleanup (a_world w_applied) (λ _, Listing) None).

(** Names are hashes: both runs are evaluated once. *)
Lemma w_desired : desiredObjects w_engine None (λ _, []) (λ _, None) w_cluster (Some w_graph) =
  Some (Ok (w_objects.1, w_objects.2)).
Proof. vm_eq. Qed.

Lemma w_apply : applyObjects w_engine w_cluster w_objects.1 w_objects.2 (a_world w_applied) None.
Proof.
  exists (a_left w_applied). split.
  - assert (Hst : ∀ st : applying (W := memCluster), a_err st = None → MkApplying (a_world st) (a_left st) None = st)
      by (intros [] ?; simpl in *; by subst).
    rewrite (Hst w_applied) by vm_eq. apply runApply_steps.
  - assert (H1 : length (a_left w_applied nodeFeatureGVR) = 0%nat) by vm_eq.
    assert (H2 : length (a_left w_applied nodeFeatureGroupGVR) = 0%nat) by vm_eq.
    intros []; by apply nil_length_inv.
Qed.

Lemma w_cleanup : cleanupObjects w_engine (a_world w_applied) w_objects.1 w_objects.2 (c_world w_cleaned) None.
Proof.
  exists (c_left w_cleaned). split.
  - assert (Hst : ∀ st : cleanup (W := memCluster), c_err st = None → MkCleanup (c_world st) (c_left st) None = st)
      by (intros [] ?; simpl in *; by subst).
    rewrite (Hst w_cleaned) by vm_eq. apply runCleanup_steps.
  - assert (H1 : c_left w_cleaned nodeFeatureGVR = Cleaned) by vm_eq.
    assert (H2 : c_left w_cleaned nodeFeatureGroupGVR = Cleaned) by vm_eq.
    intros []; assumption.
Qed.

Lemma nfd_topology_published_witness :
  ∃ w' out, GenerateOutput w_engine None (λ _, []) (λ _, None) w_cluster (Some w_graph) w' (Ok out) ∧
    objects w' nodeFeatureGVR (namespace w_engine) !! "stale" = None ∧
    objects w' nodeFeatureGVR (namespace w_engine) !! "other" = Some w_foreign.
Proof.
  exists (c_world w_cleaned), (okMessage w_objects.1 w_objects.2).
  assert (Hgen : GenerateOutput w_engine None (λ _, []) (λ _, None) w_cluster (Some w_graph) (c_world w_cleaned)
                   (Ok (okMessage w_objects.1 w_objects.2))).
  { eapply outputs_cleaned; [exact w_desired|exact w_apply|reflexivity|exact w_cleanup]. }
  split; [exact Hgen|].
  destruct (nfd_topology_published _ _ _ _ _ _ _ _ Hgen) as (fs & gs & Hd & _ & Hall & _).
  assert (Hnames : o_Name <$> w_objects.1 = ["topograph-node-n1-676b8bb8"]) by vm_eq.
  assert (fs = w_objects.1) as -> by (pose proof w_desired; congruence). clear Hd.
  specialize (Hall nodeFeatureGVR). unfold applied_objects in Hall.
  revert Hall Hnames. generalize w_objects.1 as l. intros l Hall Hnames.
  assert (Hfind : ∀ name, name ≠ "topograph-node-n1-676b8bb8" → find (λ obj, bool_decide (o_Name obj = name)) l = None).
  { intros name Hne. clear Hall Hgen. destruct l as [|obj [|obj2 l]]; simpl in Hnames |- *; try discriminate.
    injection Hnames as Hn. rewrite bool_decide_false; [reflexivity|congruence]. }
  assert (Hnd : NoDup (o_Name <$> l)) by (rewrite Hnames; apply NoDup_singleton).
  split; [rewrite (Hall Hnd "stale")|rewrite (Hall Hnd "other")]; rewrite Hfind by discriminate; vm_eq.
Defined.

End NfdEngine.
