(* ===== verification/NodeLabels.v ===== *)
(** * The node-label provider: [pkg/providers/nodelabels/provider.go]

    The provider builds the topology of a Kubernetes cluster from node labels,
    one label key per tier, closest first.  A switch is named by a hash of the
    label values from its tier upwards, so that equal values under different
    ancestors stay apart. *)

From S2P Require Import Prelude GoStrings GoSha Topology K8sLabels K8sEngine NfdObjects.
Import NfdObjects.
Open Scope Z_scope.

Module NodeLabels.
Import Topo K8sLabels.

Definition NAME : string := "k8s-node-labels".

Record Params := MkParams {
  TopologyLabels : list string;
  NodeSelector : labelMap;
  RequireReady : bool;
  OnMissingLabel : string
}.

(** ** Parameters *)

(** What the untyped value of [topologyLabels] is: nil or a list of strings; a
    list of any values, [None] for those that are not strings; anything else. *)
Inductive anyLabels :=
| NilOrStrings
| AnyList (l : list (option string))
| OtherType.

Inductive paramsErr :=
| NotStrings
| DecodeFailed (msg : string)
| BadOnMissingLabel
| NoLabels
| BadLabelKey (e : keyErr)
| DuplicateLabel (key : string)
| BadSelectorValue (key : string) (errs : list string).

Section Params.
Context `{RangeOrder} (IsQualifiedName IsValidLabelValue : string → list string).

Definition checkLabelKey (seen : gmap string bool) (key : string) : result paramsErr (gmap string bool) :=
  _ ← map_err BadLabelKey (ValidateLabelKey IsQualifiedName "topologyLabels" key);
  if default false (seen !! key) then Err (DuplicateLabel key) else Ok (<[key := true]> seen).

Definition checkSelector (acc : ()) (kv : string * string) : result paramsErr () :=
  _ ← map_err BadLabelKey (ValidateLabelKey IsQualifiedName "nodeSelector" kv.1);
  if decide (IsValidLabelValue kv.2 = []) then Ok () else Err (BadSelectorValue kv.1 (IsValidLabelValue kv.2)).

(** [decoded]: what [config.Decode] makes of the values. *)
Definition ParseParams (topologyLabels : anyLabels) (decoded : result string Params) : result paramsErr Params :=
  _ ← match topologyLabels with
      | NilOrStrings => Ok ()
      | AnyList l => if decide (None ∈ l) then Err NotStrings else Ok ()
      | OtherType => Err NotStrings
      end;
  p ← map_err DecodeFailed decoded;
  let p := MkParams (TopologyLabels p) (NodeSelector p) (RequireReady p)
             (if decide (OnMissingLabel p = "") then "skip" else OnMissingLabel p) in
  if decide (OnMissingLabel p ≠ "skip" ∧ OnMissingLabel p ≠ "fail") then Err BadOnMissingLabel
  else if decide (TopologyLabels p = []) then Err NoLabels
  else
    _ ← foldM checkLabelKey ∅ (TopologyLabels p);
    _ ← foldM checkSelector () (range (NodeSelector p));
    Ok p.

Definition NodeTopologyLabels (topologyLabels : anyLabels) (decoded : result string Params) :
    result paramsErr (list string) :=
  params ← ParseParams topologyLabels decoded; Ok (TopologyLabels params).
End Params.

(** ** Switch names *)

(** [strings.TrimRight] with a cut set. *)
Fixpoint TrimRight (cut : ascii → bool) (s : string) : string :=
  match s with
  | "" => ""
  | String c r => match TrimRight cut r with
                  | "" => if cut c then "" else String c ""
                  | r' => String c r'
                  end
  end.
Definition separator (c : ascii) : bool := existsb (λ d, bool_decide (c = d)) ["-"; "_"; "."]%char.

Definition switchPrefix (values : list string) : string :=
  TrimRight separator (str_take 23 (default "" (head values))).

(** The name for one salt. *)
Definition saltedID (values : list string) (salt : nat) : string :=
  let digest := Sum256 (str_bytes (join "/" values +:+ "#" +:+ itoa (Z.of_nat salt))) in
  "switch_" +:+ switchPrefix values +:+ "-" +:+ EncodeToString (take 16 digest).

(** The loop over the salts, at most [fuel] of them. *)
Fixpoint saltLoop (fuel : nat) (values : list string) (nodeIDs : gmap string string) (salt : nat) : option string :=
  match fuel with
  | O => None
  | S fuel =>
      let id := saltedID values salt in
      match nodeIDs !! id with
      | None => Some id
      | Some _ => saltLoop fuel values nodeIDs (S salt)
      end
  end.

(** One salt more than there are reserved names. *)
Definition switchID (values : list string) (nodeIDs : gmap string string) : option string :=
  saltLoop (S (size nodeIDs)) values nodeIDs 0.

(** ** The topology *)

(** A Kubernetes node with its deletion time and conditions. *)
Record LNode := MkLNode {
  ln_Node : Node;
  ln_Deleting : bool;
  ln_Conditions : list (string * string)
}.

Fixpoint readyIn (conditions : list (string * string)) : bool :=
  match conditions with
  | [] => false
  | c :: rest => if decide (c.1 = "Ready") then bool_decide (c.2 = "True") else readyIn rest
  end.

Definition IsNodeEligible (node : LNode) : bool :=
  if ln_Deleting node then false else readyIn (ln_Conditions node).

Inductive providerErr :=
| ErrGetNodes (msg : string)
| ErrMissingLabel (node key value : string)
| ErrNoUsableNodes.

Section Provider.
Context (IsValidLabelValue : string → list string) (params : Params).

Definition instanceID (node : LNode) : string :=
  let id := trim_space (default "" (n_Annotations (ln_Node node) !! K8sEngine.KeyNodeInstance)) in
  if decide (id = "") then n_Name (ln_Node node) else id.

(** The values of the labels, or the first key without a valid one. *)
Fixpoint labelValues (labels : labelMap) (keys : list string) : result (string * string) (list string) :=
  match keys with
  | [] => Ok []
  | key :: rest =>
      let value := default "" (labels !! key) in
      if decide (value = "" ∨ IsValidLabelValue value ≠ []) then Err (key, value)
      else values ← labelValues labels rest; Ok (value :: values)
  end.

(** The tiers of [values]; a tier is named by the values from it upwards. *)
Fixpoint tiersOf (nodeIDs : gmap string string) (values : list string) : option (list FabricTier) :=
  match values with
  | [] => Some []
  | _ :: rest =>
      match switchID values nodeIDs, tiersOf nodeIDs rest with
      | Some id, Some tiers => Some (MkTier id "" :: tiers)
      | _, _ => None
      end
  end.

Definition skipNode (requested : gmap string string) (node : LNode) : bool :=
  bool_decide (requested !! instanceID node = None) || ln_Deleting node ||
  (RequireReady params && negb (IsNodeEligible node)).

(** The body of the loop over the nodes; [None]: the salts did not suffice. *)
Definition addNode (requested : gmap string string) (acc : ClusterTopology * gmap string string) (node : LNode) :
    option (result providerErr (ClusterTopology * gmap string string)) :=
  let '(topo, eligible) := acc in
  let id := instanceID node in
  if skipNode requested node then Some (Ok acc)
  else
    match labelValues (n_Labels (ln_Node node)) (TopologyLabels params) with
    | Err (key, value) =>
        if decide (OnMissingLabel params = "fail") then Some (Err (ErrMissingLabel (n_Name (ln_Node node)) key value))
        else Some (Ok acc)
    | Ok values =>
        match tiersOf requested values with
        | None => None
        | Some tiers => Some (Ok (Append topo (MkInst id tiers "" "" None), <[id := default "" (requested !! id)]> eligible))
        end
    end.

Fixpoint addNodes (requested : gmap string string) (acc : ClusterTopology * gmap string string) (nodes : list LNode) :
    option (result providerErr (ClusterTopology * gmap string string)) :=
  match nodes with
  | [] => Some (Ok acc)
  | node :: rest =>
      match addNode requested acc node with
      | Some (Ok acc) => addNodes requested acc rest
      | r => r
      end
  end.

Definition resolveLNode (metadata : option K8sEngine.NodeMetadata) (node : LNode) : LNode :=
  match metadata with
  | None => node
  | Some m => MkLNode (K8sEngine.resolveNode m (ln_Node node)) (ln_Deleting node) (ln_Conditions node)
  end.

(** [listed]: the nodes that match the selector, as the API returns them. *)
Definition GenerateTopologyConfig (metadata : option K8sEngine.NodeMetadata) (listed : result string (list LNode))
    (cis : list ComputeInstances) : option (result providerErr Graph) :=
  match listed with
  | Err msg => Some (Err (ErrGetNodes msg))
  | Ok nodes =>
      let requested := instanceNames cis in
      match addNodes requested (NewClusterTopology, ∅) (resolveLNode metadata <$> nodes) with
      | None => None
      | Some (Err e) => Some (Err e)
      | Some (Ok (topo, eligible)) =>
          if decide (requested ≠ ∅ ∧ eligible = ∅) then Some (Err ErrNoUsableNodes)
          else match ToGraph topo [MkCI "" eligible] 0 false with
               | None => None
               | Some g => Some (Ok g)
               end
      end
  end.

(** ** Names of switches *)

Lemma saltLoop_Some fuel values nodeIDs : ∀ salt id, saltLoop fuel values nodeIDs salt = Some id →
  nodeIDs !! id = None ∧ ∃ k, id = saltedID values k ∧ (k < salt + fuel)%nat.
Proof.
  induction fuel as [|fuel IH]; intros salt id; simpl; [done|].
  destruct (nodeIDs !! saltedID values salt) eqn:E.
  - intros (? & k & ? & ?)%IH. split; [done|]. exists k. split; [done|lia].
  - intros [= <-]. split; [done|]. exists salt. split; [done|lia].
Qed.

Lemma saltLoop_None fuel values nodeIDs : ∀ salt, saltLoop fuel values nodeIDs salt = None →
  ∀ k, (salt ≤ k < salt + fuel)%nat → is_Some (nodeIDs !! saltedID values k).
Proof.
  induction fuel as [|fuel IH]; intros salt; simpl; [lia|].
  destruct (nodeIDs !! saltedID values salt) eqn:E; [|done]. intros Hn k Hk.
  destruct (decide (k = salt)) as [->|]; [by rewrite E|]. apply (IH (S salt)); [done|lia].
Qed.

(** A name is found when the hashes of the salts differ: there are fewer
    reserved names than salts. *)
Lemma switchID_total values nodeIDs :
  NoDup (saltedID values <$> seq 0 (S (size nodeIDs))) →
  ∃ id, switchID values nodeIDs = Some id ∧ nodeIDs !! id = None ∧
    ∃ k, id = saltedID values k ∧ (k ≤ size nodeIDs)%nat.
Proof.
  intros Hnd. unfold switchID. destruct (saltLoop _ _ _ _) as [id|] eqn:E.
  { exists id. split; [done|]. destruct (saltLoop_Some _ _ _ _ _ E) as (? & k & ? & ?).
    split; [done|]. exists k. split; [done|lia]. }
  exfalso. assert (Hsub : list_to_set (saltedID values <$> seq 0 (S (size nodeIDs))) ⊆ dom nodeIDs).
  { intros id (k & -> & Hk%elem_of_seq)%elem_of_list_to_set%list_elem_of_fmap.
    apply elem_of_dom. eapply saltLoop_None; [done|lia]. }
  apply subseteq_size in Hsub. rewrite size_list_to_set, length_fmap, length_seq, size_dom in Hsub by done. lia.
Qed.

(** *** What the hash is given *)

(** The characters of a label value. *)
Definition label_chr (c : ascii) : bool := is_lower_alnum (lower_chr c) || separator c.
Definition label_value (v : string) : Prop := str_forallb label_chr v = true.

(** The text that is hashed for a path and a salt. *)
Definition saltedText (path : list string) (salt : nat) : string :=
  join "/" path +:+ "#" +:+ itoa (Z.of_nat salt).

Lemma join_no_hash path : Forall label_value path → contains_chr "#" (join "/" path) = false.
Proof.
  induction 1 as [|v path Hv Hpath IH]; [done|].
  assert (Hv' : contains_chr "#" v = false) by by eapply str_forallb_not_contains.
  destruct path as [|v' path]; [done|]. change (join "/" (v :: v' :: path)) with (v +:+ "/" +:+ join "/" (v' :: path)).
  by rewrite !contains_chr_app, Hv', IH.
Qed.

(** The text tells the path and the salt: no label value has a slash or a hash
    sign. *)
Lemma saltedText_inj path1 path2 k1 k2 :
  path1 ≠ [] → path2 ≠ [] → Forall label_value path1 → Forall label_value path2 →
  saltedText path1 k1 = saltedText path2 k2 → path1 = path2 ∧ k1 = k2.
Proof.
  intros Hne1 Hne2 H1 H2 Heq.
  assert (Hdigits : ∀ k, contains_chr "#" (itoa (Z.of_nat k)) = false).
  { intros k. destruct (itoa_spec (Z.of_nat k)) as (_ & Hd & _); [lia|]. by eapply str_forallb_not_contains. }
  assert (Hsplit : ∀ path k, Forall label_value path →
    split "#" (saltedText path k) = [join "/" path; itoa (Z.of_nat k)]).
  { intros path k Hp. unfold saltedText. change ("#" +:+ itoa (Z.of_nat k)) with (String "#" (itoa (Z.of_nat k))).
    by rewrite split_app, split_no_sep by (done || by apply join_no_hash). }
  apply (f_equal (split "#")) in Heq. rewrite !Hsplit in Heq by done. injection Heq as Hj Hk.
  assert (Hjoin : ∀ path, path ≠ [] → Forall label_value path → split "/" (join "/" path) = path).
  { intros path Hne Hp. apply split_join; [done|]. eapply Forall_impl; [exact Hp|].
    intros v Hv. by eapply str_forallb_not_contains. }
  split; [by rewrite <-(Hjoin path1), <-(Hjoin path2), Hj|]. apply itoa_inj in Hk; lia.
Qed.

(** Equal names have equal digests. *)
Lemma saltedID_digest path1 path2 k1 k2 : saltedID path1 k1 = saltedID path2 k2 →
  take 16 (Sum256 (str_bytes (saltedText path1 k1))) = take 16 (Sum256 (str_bytes (saltedText path2 k2))).
Proof.
  unfold saltedID. cbn zeta. fold (saltedText path1 k1) (saltedText path2 k2).
  pose proof (length_Sum256 (str_bytes (saltedText path1 k1))) as Hl1.
  pose proof (length_Sum256 (str_bytes (saltedText path2 k2))) as Hl2.
  pose proof (Sum256_bytes (str_bytes (saltedText path1 k1))) as Hb1.
  pose proof (Sum256_bytes (str_bytes (saltedText path2 k2))) as Hb2.
  revert Hl1 Hl2 Hb1 Hb2. generalize (Sum256 (str_bytes (saltedText path1 k1))) as d1.
  generalize (Sum256 (str_bytes (saltedText path2 k2))) as d2. intros d2 d1 Hl1 Hl2 Hb1 Hb2 Heq.
  apply (inj (String.append "switch_")), str_app_inj_r in Heq as [_ Heq].
  - apply (inj (String.append "-")), EncodeToString_inj in Heq; [done|by apply Forall_take..].
  - by rewrite !str_length_app, !length_EncodeToString, !length_take, Hl1, Hl2.
Qed.

Lemma saltedID_neq values k : saltedID values k ≠ "" ∧ saltedID values k ≠ NoTopology.
Proof. done. Qed.

(** ** The reported instances *)

Definition tierID (requested : gmap string string) (values : list string) : string :=
  default "" (switchID values requested).

Definition usable (requested : gmap string string) (node : LNode) (values : list string) : Prop :=
  skipNode requested node = false ∧ labelValues (n_Labels (ln_Node node)) (TopologyLabels params) = Ok values.

(** The switches of a node with label values [values], closest first. *)
Definition nodeSwitches (requested : gmap string string) (values : list string) : list string :=
  imap (λ i _, tierID requested (drop i values)) values.

Definition instanceOf (requested : gmap string string) (node : LNode) : option InstanceTopology :=
  if skipNode requested node then None
  else match labelValues (n_Labels (ln_Node node)) (TopologyLabels params) with
       | Ok values => Some (MkInst (instanceID node) (ClosestFirstFabricTiers (nodeSwitches requested values)) "" "" None)
       | Err _ => None
       end.

Lemma instanceOf_Some requested node inst :
  instanceOf requested node = Some inst ↔
  ∃ values, usable requested node values ∧
    inst = MkInst (instanceID node) (ClosestFirstFabricTiers (nodeSwitches requested values)) "" "" None.
Proof.
  unfold instanceOf, usable. destruct (skipNode requested node); [naive_solver|].
  destruct (labelValues _ _); naive_solver.
Qed.

Lemma labelValues_length labels keys values : labelValues labels keys = Ok values → length values = length keys.
Proof.
  revert values. induction keys as [|key keys IH]; intros values; simpl; [by intros [= <-]|].
  case_decide; [done|]. destruct (labelValues labels keys) as [vs|]; [|done]. simpl. intros [= <-]. simpl. by rewrite (IH vs).
Qed.

Section Spec.
Context (requested : gmap string string) (nodes : list LNode).

(** The label values that name the switches. *)
Definition named (path : list string) : Prop :=
  ∃ node values i, node ∈ nodes ∧ usable requested node values ∧ (i < length values)%nat ∧ path = drop i values.

(** The texts that are hashed at most: a salt more than there are reserved
    names. *)
Definition hashed (text : string) : Prop :=
  ∃ path k, named path ∧ (k ≤ size requested)%nat ∧ text = join "/" path +:+ "#" +:+ itoa (Z.of_nat k).

(** What is assumed: of a label value that the Kubernetes library accepts, that
    it is made of letters, digits, dashes, underscores and dots; of SHA-256, that
    the part of the digest that is used separates the texts that are hashed. *)
Hypothesis Hvalid : ∀ v, IsValidLabelValue v = [] → label_value v.
Hypothesis Hsha : collision_free 16 hashed.

Lemma labelValues_valid labels keys values : labelValues labels keys = Ok values → Forall label_value values.
Proof.
  revert values. induction keys as [|key keys IH]; intros values; simpl; [intros [= <-]; constructor|].
  case_decide as Hv; [done|]. destruct (labelValues labels keys) as [vs|]; [|done]. intros [= <-].
  constructor; [|by apply IH]. apply Hvalid. destruct (decide (IsValidLabelValue (default "" (labels !! key)) = [])); tauto.
Qed.

Lemma named_values path : named path → path ≠ [] ∧ Forall label_value path.
Proof.
  intros (node & values & i & _ & [_ Hv] & Hi & ->). split.
  - intros Hd%(f_equal length). rewrite length_drop in Hd. simpl in Hd. lia.
  - by apply Forall_drop, (labelValues_valid _ _ _ Hv).
Qed.

Lemma named_salted path1 path2 k1 k2 : named path1 → named path2 →
  (k1 ≤ size requested)%nat → (k2 ≤ size requested)%nat →
  saltedID path1 k1 = saltedID path2 k2 → path1 = path2 ∧ k1 = k2.
Proof.
  intros Hn1 Hn2 Hk1 Hk2 Heq%saltedID_digest. destruct (named_values _ Hn1), (named_values _ Hn2).
  apply saltedText_inj; [done..|]. apply Hsha; [by exists path1, k1|by exists path2, k2|done].
Qed.

Lemma named_id path : named path →
  switchID path requested = Some (tierID requested path) ∧ requested !! tierID requested path = None ∧
  ∃ k, tierID requested path = saltedID path k ∧ (k ≤ size requested)%nat.
Proof.
  intros Hn. destruct (switchID_total path requested) as (id & Hid & Hr).
  - apply NoDup_fmap_2_strong; [|apply NoDup_seq]. intros k1 k2 Hk1%elem_of_seq Hk2%elem_of_seq Heq.
    apply (named_salted path path k1 k2); [done..|lia|lia|done].
  - unfold tierID. by rewrite Hid.
Qed.

Lemma tierID_inj path1 path2 : named path1 → named path2 →
  tierID requested path1 = tierID requested path2 → path1 = path2.
Proof.
  intros Hn1 Hn2. destruct (named_id _ Hn1) as (_ & _ & k1 & -> & Hk1), (named_id _ Hn2) as (_ & _ & k2 & -> & Hk2).
  intros Heq. by apply (named_salted path1 path2 k1 k2).
Qed.

Lemma tiersOf_spec values :
  (∀ i, (i < length values)%nat → named (drop i values)) →
  tiersOf requested values = Some (ClosestFirstFabricTiers (nodeSwitches requested values)).
Proof.
  induction values as [|v values IH]; intros Hn; [done|]. cbn [tiersOf].
  destruct (named_id (v :: values)) as (-> & _); [apply (Hn 0%nat); simpl; lia|].
  rewrite IH by (intros i Hi; apply (Hn (S i)); simpl; lia). done.
Qed.

Lemma skipNode_requested node : skipNode requested node = false → is_Some (requested !! instanceID node).
Proof. unfold skipNode. destruct (requested !! instanceID node); [by eexists|]. by rewrite bool_decide_true. Qed.

Lemma addNode_usable topo eligible node inst : node ∈ nodes → instanceOf requested node = Some inst →
  ∃ name, requested !! it_InstanceID inst = Some name ∧
    addNode requested (topo, eligible) node = Some (Ok (topo ++ [inst], <[it_InstanceID inst := name]> eligible)).
Proof.
  intros Hnode (values & [Hsk Hv] & ->)%instanceOf_Some. destruct (skipNode_requested _ Hsk) as [name Hreq].
  exists name. split; [done|]. unfold addNode. rewrite Hsk, Hv, tiersOf_spec; [by rewrite Hreq|].
  intros i Hlt. exists node, values, i. by split_and!.
Qed.

Lemma addNode_other topo eligible node : OnMissingLabel params ≠ "fail" → instanceOf requested node = None →
  addNode requested (topo, eligible) node = Some (Ok (topo, eligible)).
Proof.
  intros Hskip. unfold instanceOf, addNode. destruct (skipNode requested node); [done|].
  destruct (labelValues _ _) as [|[key value]]; [done|]. by rewrite decide_False.
Qed.

Lemma addNodes_placed ns : ∀ topo eligible, OnMissingLabel params ≠ "fail" → ns ⊆ nodes →
  ∃ eligible', addNodes requested (topo, eligible) ns = Some (Ok (topo ++ omap (instanceOf requested) ns, eligible')) ∧
    ∀ id, eligible' !! id = if decide (id ∈ it_InstanceID <$> omap (instanceOf requested) ns) then requested !! id
                            else eligible !! id.
Proof.
  induction ns as [|node ns IH]; intros topo eligible Hskip Hns.
  { exists eligible. rewrite app_nil_r. by split. }
  assert (Hnode : node ∈ nodes) by (apply Hns; by left).
  assert (Hrest : ns ⊆ nodes) by (intros n ?; apply Hns; by right).
  change (omap (instanceOf requested) (node :: ns)) with
    (match instanceOf requested node with Some i => i :: omap (instanceOf requested) ns | None => omap (instanceOf requested) ns end).
  cbn [addNodes]. destruct (instanceOf requested node) as [inst|] eqn:Hi.
  - destruct (addNode_usable topo eligible node inst Hnode Hi) as (name & Hreq & ->). cbv beta iota.
    destruct (IH (topo ++ [inst]) (<[it_InstanceID inst := name]> eligible) Hskip Hrest) as (eligible' & Hadd & He).
    exists eligible'. split; [etransitivity; [exact Hadd|by rewrite <-app_assoc]|]. intros id. rewrite He, fmap_cons.
    destruct (decide (id = it_InstanceID inst)) as [->|Hne].
    + rewrite lookup_insert_eq, (decide_True (P := it_InstanceID inst ∈ _ :: _)) by (by left). by case_decide.
    + rewrite lookup_insert_ne by done. apply decide_ext. rewrite elem_of_cons. naive_solver.
  - rewrite (addNode_other topo eligible node Hskip Hi). cbv beta iota. by apply IH.
Qed.

(** ** The levels of the switches *)

Lemma trimmed_all inst : trimmedTiers inst 0 = FabricTiers inst.
Proof. unfold trimmedTiers. rewrite Z.max_id, Z.min_l, Z.sub_0_r, Nat2Z.id by lia. by rewrite firstn_all. Qed.

Lemma tierEntry_named c l id :
  c = omap (instanceOf requested) nodes → (l, id) ∈ tierEntries 0 c →
  ∃ path, named path ∧ id = tierID requested path ∧ (l + length path = length (TopologyLabels params))%nat.
Proof.
  intros ->. unfold tierEntries. intros (inner & (inst & -> & Hinst)%list_elem_of_fmap & Hin)%elem_of_concat.
  apply list_elem_of_filter in Hin as [_ Hin]. rewrite trimmed_all in Hin.
  apply list_elem_of_omap in Hinst as (node & Hnode & (values & Hu & ->)%instanceOf_Some).
  apply elem_of_lookup_imap in Hin as (i & t & [= -> ->] & Ht). simpl in Ht. unfold ClosestFirstFabricTiers in Ht.
  rewrite list_lookup_fmap in Ht. unfold nodeSwitches in Ht. rewrite list_lookup_imap in Ht.
  destruct (values !! i) as [v|] eqn:Hi; [|done]. simplify_eq/=. apply lookup_lt_Some in Hi.
  exists (drop i values). split; [by exists node, values, i|]. split; [done|].
  destruct Hu as [_ Hu%labelValues_length]. rewrite length_drop. lia.
Qed.

Lemma provider_levelled c :
  c = omap (instanceOf requested) nodes → requested !! NoTopology = None → levelled 0 c.
Proof.
  intros Hc Hnt. assert (Hids : ∀ id, id ∈ it_InstanceID <$> c → is_Some (requested !! id)).
  { subst c. intros id (inst & -> & (node & _ & (values & [Hsk _] & ->)%instanceOf_Some)%list_elem_of_omap)%list_elem_of_fmap.
    by apply skipNode_requested. }
  split_and!.
  - apply Forall_forall. intros [l1 id1] H1. apply Forall_forall. intros [l2 id2] H2. simpl. intros <-.
    apply (tierEntry_named _ _ _ Hc) in H1 as (p1 & Hn1 & -> & Hl1).
    apply (tierEntry_named _ _ _ Hc) in H2 as (p2 & Hn2 & Heq & Hl2). apply tierID_inj in Heq; [|done..]. subst. lia.
  - apply Forall_forall. intros [l id] Hin. simpl. apply (tierEntry_named _ _ _ Hc) in Hin as (p & Hn & -> & _).
    destruct (named_id _ Hn) as (_ & Hnone & k & Hk & _). split.
    + intros [x Hx]%Hids. congruence.
    + rewrite Hk. apply saltedID_neq.
  - intros [x Hx]%Hids. congruence.
Qed.
End Spec.

Lemma first_omap requested nodes node inst :
  NoDup (instanceID <$> nodes) → node ∈ nodes → instanceOf requested node = Some inst →
  first (omap (instanceOf requested) nodes) (instanceID node) = Some inst.
Proof.
  intros Hnd Hin Hi. assert (Hid : ∀ n i, instanceOf requested n = Some i → it_InstanceID i = instanceID n)
    by (intros n i (vs & _ & ->)%instanceOf_Some; done).
  induction nodes as [|n nodes IH]; [by apply elem_of_nil in Hin|]. rewrite fmap_cons in Hnd.
  apply NoDup_cons in Hnd as [Hn Hnd]. simpl. apply elem_of_cons in Hin as [<-|Hin].
  - rewrite Hi. simpl. by rewrite decide_True by (by apply Hid).
  - destruct (instanceOf requested n) as [i|] eqn:Hin'; [simpl; rewrite decide_False|]; [by apply IH| |by apply IH].
    rewrite (Hid _ _ Hin'). intros E. apply Hn. rewrite E. by apply list_elem_of_fmap_2.
Qed.

Lemma switchIDs_all ids : Forall (λ id, id ≠ "") ids → switchIDs (ClosestFirstFabricTiers ids) = ids.
Proof.
  induction 1 as [|id ids Hid Hids IH]; [done|]. unfold switchIDs, ClosestFirstFabricTiers in *.
  rewrite !fmap_cons, filter_cons. simpl. rewrite decide_True by done. f_equal. apply IH.
Qed.

(** C26: for a request and the nodes that the API lists, with distinct instance
    IDs, the labels of some requested node usable and missing labels skipped, the
    provider returns a graph in which every usable node hangs below its switches,
    outermost first.  A switch is named by the label values from its tier upwards:
    two tiers get one name exactly when they agree on all of those, and no switch
    gets the ID of a requested node.  What is assumed: a label value that the
    Kubernetes library calls valid is made of letters, digits, dashes, underscores
    and dots, and SHA-256, cut to 16 bytes, has no collision among the texts that
    are hashed, the values of a path joined by slashes with the salt after a hash
    sign; no instance is called like the root of unplaced nodes. *)
Theorem node_labels_place_nodes metadata listed cis :
  let requested := instanceNames cis in
  let nodes := resolveLNode metadata <$> listed in
  OnMissingLabel params ≠ "fail" → requested !! NoTopology = None → NoDup (instanceID <$> nodes) →
  (∃ node values, node ∈ nodes ∧ usable requested node values) →
  (∀ v, IsValidLabelValue v = [] → label_value v) →
  collision_free 16 (hashed requested nodes) →
  (∀ path1 path2, named requested nodes path1 → named requested nodes path2 →
     requested !! tierID requested path1 = None ∧
     (tierID requested path1 = tierID requested path2 ↔ path1 = path2)) ∧
  ∃ g root, GenerateTopologyConfig metadata (Ok listed) cis = Some (Ok g) ∧ Tiers g = Some root ∧
    ∀ node values, node ∈ nodes → usable requested node values →
      ∃ leaf name, requested !! instanceID node = Some name ∧
        deref (g_heap g) leaf = MkVertex name (instanceID node) ∅ ∧
        lookupPath (g_heap g) root (reverse (instanceID node :: nodeSwitches requested values)) = Some leaf.
Proof.
  intros requested nodes Hskip Hnt Hnd (node0 & values0 & Hin0 & Hu0) Hvalid Hsha. split.
  { intros path1 path2 Hn1 Hn2. split; [by destruct (named_id requested nodes Hvalid Hsha path1 Hn1) as (_ & ? & _)|].
    split; [by apply (tierID_inj requested nodes Hvalid Hsha)|by intros ->]. }
  destruct (addNodes_placed requested nodes Hvalid Hsha nodes [] ∅ Hskip ltac:(done)) as (eligible & Hadd & Hel).
  assert (Hinst : ∀ node values, node ∈ nodes → usable requested node values →
    ∃ inst, first (omap (instanceOf requested) nodes) (instanceID node) = Some inst ∧
      FabricTiers inst = ClosestFirstFabricTiers (nodeSwitches requested values) ∧
      eligible !! instanceID node = requested !! instanceID node).
  { intros node values Hin Hu. eexists. split; [apply first_omap; [done..|]; apply instanceOf_Some; by eauto|].
    split; [done|]. rewrite Hel, decide_True; [done|]. apply list_elem_of_fmap. eexists.
    split; [|apply list_elem_of_omap; exists node; split; [done|apply instanceOf_Some; by eauto]]. done. }
  assert (Hne : eligible ≠ ∅).
  { destruct (Hinst node0 values0 Hin0 Hu0) as (_ & _ & _ & He0).
    destruct (skipNode_requested requested node0 (proj1 Hu0)) as [name0 Hn0]. intros ->.
    rewrite Hn0 in He0. by rewrite lookup_empty in He0. }
  destruct (ToGraph_places (omap (instanceOf requested) nodes) [MkCI "" eligible] 0 false) as (g & root & Hg & Hr & Hall);
    [by eapply provider_levelled|].
  exists g, root. split; [|split; [done|]].
  - unfold GenerateTopologyConfig. fold requested nodes. unfold NewClusterTopology. cbn zeta. rewrite Hadd.
    cbv beta iota. rewrite decide_False by tauto. cbn [app]. by rewrite Hg.
  - intros node values Hin Hu. destruct (Hinst node values Hin Hu) as (inst & Hfirst & Htiers & He).
    destruct (skipNode_requested requested node (proj1 Hu)) as [name Hname].
    destruct (Hall (instanceID node) name) as (leaf & Hleaf & Hpath).
    { unfold instanceNames, copyMap. simpl. rewrite (right_id_L ∅ (∪)). congruence. }
    exists leaf, name. split_and!; [done..|]. cbv iota in Hpath. rewrite Hfirst in Hpath.
    rewrite trimmed_all, Htiers, switchIDs_all in Hpath; [done|].
    apply Forall_lookup. intros i id. unfold nodeSwitches. rewrite list_lookup_imap.
    destruct (values !! i) as [v|] eqn:Hi; [|done]. intros [= <-]. apply lookup_lt_Some in Hi.
    destruct (named_id requested nodes Hvalid Hsha (drop i values)) as (_ & _ & k & -> & _); [by exists node, values, i|].
    apply saltedID_neq.
Qed.

End Provider.

(** ** Two racks in one row *)

Definition w_params : Params := MkParams ["rack"; "row"] ∅ true "skip".
Definition w_node (name rack row ready : string) : LNode :=
  MkLNode (MkNode name {[ "rack" := rack; "row" := row ]} ∅) false [("Ready", ready)].
Definition w_nodes : list LNode :=
  [w_node "n1" "a" "r1" "True"; w_node "n2" "b" "r1" "True"; w_node "n3" "b" "r1" "False"].
Definition w_cis : list ComputeInstances := [MkCI "" {[ "n1" := "node1"; "n2" := "node2"; "n3" := "node3" ]}].
Definition w_valid (v : string) : list string := if str_forallb label_chr v then [] else ["a valid label must ..."].
Definition w_paths : list (list string) := [["a"; "r1"]; ["b"; "r1"]; ["r1"]].
Definition w_texts : list string := path ← w_paths; saltedText path <$> seq 0 4.

Lemma node_labels_place_nodes_witness :
  tierID (instanceNames w_cis) ["a"; "r1"] ≠ tierID (instanceNames w_cis) ["b"; "r1"] ∧
  ∃ g root leaf, GenerateTopologyConfig w_valid w_params None (Ok w_nodes) w_cis = Some (Ok g) ∧ Tiers g = Some root ∧
    deref (g_heap g) leaf = MkVertex "node1" "n1" ∅ ∧
    lookupPath (g_heap g) root
      (reverse ["n1"; tierID (instanceNames w_cis) ["a"; "r1"]; tierID (instanceNames w_cis) ["r1"]]) = Some leaf.
Proof.
  assert (Husable : ∀ node values, node ∈ w_nodes → usable w_valid w_params (instanceNames w_cis) node values →
    values = ["a"; "r1"] ∨ values = ["b"; "r1"]).
  { intros node values Hin [Hsk Hv]. unfold w_nodes in Hin. rewrite !elem_of_cons in Hin.
    destruct Hin as [->|[->|[->|[]%elem_of_nil]]]; [| |vm_compute in Hsk; discriminate];
      vm_compute in Hv; injection Hv as <-; [by left|by right]. }
  assert (Hnamed : ∀ path, named w_valid w_params (instanceNames w_cis) w_nodes path → path ∈ w_paths).
  { intros path (node & values & i & Hin & Hu & Hi & ->). unfold w_paths. rewrite !elem_of_cons.
    destruct (Husable _ _ Hin Hu) as [-> | ->], i as [|[|i]]; simpl in Hi; try lia; tauto. }
  destruct (node_labels_place_nodes w_valid w_params None w_nodes w_cis) as (Hnames & g & root & Hg & Hr & Hall).
  - discriminate.
  - reflexivity.
  - apply (bool_decide_unpack _). vm_compute. exact I.
  - exists (w_node "n1" "a" "r1" "True"), ["a"; "r1"]. split; [by left|]. split; vm_eq.
  - intros v. unfold w_valid, label_value. by destruct (str_forallb label_chr v).
  - apply (collision_free_list _ _ w_texts); [|apply (bool_decide_unpack _); vm_compute; exact I].
    intros s (path & k & Hn & Hk & ->). apply list_elem_of_bind. exists path. split; [|by apply Hnamed].
    apply list_elem_of_fmap. exists k. split; [reflexivity|]. change (size (instanceNames w_cis)) with 3%nat in Hk.
    apply elem_of_seq. lia.
  - split.
    { destruct (Hnames ["a"; "r1"] ["b"; "r1"]) as [_ Hiff].
      - exists (w_node "n1" "a" "r1" "True"), ["a"; "r1"], 0%nat. split; [by left|]. split; [split; vm_eq|]. split; [simpl; lia|reflexivity].
      - exists (w_node "n2" "b" "r1" "True"), ["b"; "r1"], 0%nat. split; [right; by left|]. split; [split; vm_eq|]. split; [simpl; lia|reflexivity].
      - intros Heq%Hiff. discriminate. }
    destruct (Hall (w_node "n1" "a" "r1" "True") ["a"; "r1"]) as (leaf & name & Hname & Hleaf & Hpath);
      [by left|split; vm_eq|].
    exists g, root, leaf. split; [exact Hg|]. split; [exact Hr|]. split; [|exact Hpath].
    rewrite Hleaf. assert (instanceNames w_cis !! "n1" = Some "node1") as Hn by vm_eq.
    change (instanceNames w_cis !! "n1" = Some name) in Hname. rewrite Hn in Hname. by injection Hname as <-.
Defined.

Example w_switch : switchID ["Rack-A._"; "row"] ∅ = Some "switch_Rack-A-8dade4f1bed9cbc027dd0860671db334".
Proof. vm_eq. Qed.
End NodeLabels.
