(* ===== verification/NodeObserver.v ===== *)
(** * The node observer: [pkg/node_observer/status_informer.go], [config.go]

    The observer turns Kubernetes events into topology requests.  Event
    handlers count the events that matter in a generation and add the only key
    of a rate-limited work queue; one worker takes the key, compares
    generations and sends a request, now or after a delay.  The handlers run
    in the goroutines of the informers, so the increment of the counter, the
    addition to the queue and the actions of the worker are separate steps. *)

From S2P Require Import Prelude GoStrings K8sLabels K8sEngine NodeLabels.
Open Scope Z_scope.

(** ** The work queue

    The queue of the Kubernetes client library, for one key.  [dirty]: the key
    is to be handed out; [processing]: it has been handed out and is not done;
    [waiting]: when a delayed addition is due.  [q_tick] is the library's own
    goroutine, which adds a key that is due. *)

Inductive getKey (Q : Type) :=
| GotKey (q : Q)
| GotShutdown
| Blocked.
Arguments GotKey {Q} q. Arguments GotShutdown {Q}. Arguments Blocked {Q}.

Class WorkQueue (Q : Type) := {
  q_new : Q;
  q_add : Q → Q;
  q_get : Q → getKey Q;
  q_done : Q → Q;
  q_forget : Q → Q;
  q_add_after : Q → Z → Z → Q;
  q_add_rate_limited : Q → Z → Q;
  q_tick : Q → Z → Q;
  q_shutdown : Q → Q;
  dirty : Q → bool;
  processing : Q → bool;
  shutting : Q → bool;
  waiting : Q → option Z;
  q_new_empty : dirty q_new = false ∧ processing q_new = false ∧ shutting q_new = false ∧ waiting q_new = None;
  q_shutting_kept : ∀ q now d, shutting (q_add q) = shutting q ∧ shutting (q_add_after q now d) = shutting q ∧
    shutting (q_add_rate_limited q now) = shutting q ∧ shutting (q_tick q now) = shutting q;
  q_add_spec : ∀ q, shutting q = false →
    dirty (q_add q) = true ∧ processing (q_add q) = processing q ∧ waiting (q_add q) = waiting q;
  q_get_spec : ∀ q, match q_get q with
    | GotKey q' => dirty q = true ∧ processing q = false ∧
                   dirty q' = false ∧ processing q' = true ∧ shutting q' = shutting q ∧ waiting q' = waiting q
    | GotShutdown => shutting q = true
    | Blocked => dirty q = false ∨ processing q = true
    end;
  q_done_spec : ∀ q, dirty (q_done q) = dirty q ∧ processing (q_done q) = false ∧
    shutting (q_done q) = shutting q ∧ waiting (q_done q) = waiting q;
  q_forget_spec : ∀ q, dirty (q_forget q) = dirty q ∧ processing (q_forget q) = processing q ∧
    shutting (q_forget q) = shutting q ∧ waiting (q_forget q) = waiting q;
  q_add_after_spec : ∀ q now d, shutting q = false →
    processing (q_add_after q now d) = processing q ∧
    (dirty q = true → dirty (q_add_after q now d) = true) ∧
    if d <=? 0 then dirty (q_add_after q now d) = true
    else ∃ t, waiting (q_add_after q now d) = Some t ∧ t ≤ now + d;
  q_add_rate_limited_spec : ∀ q now, shutting q = false →
    processing (q_add_rate_limited q now) = processing q ∧
    (dirty q = true → dirty (q_add_rate_limited q now) = true) ∧
    (dirty (q_add_rate_limited q now) = true ∨ is_Some (waiting (q_add_rate_limited q now)));
  q_tick_spec : ∀ q now, shutting q = false →
    processing (q_tick q now) = processing q ∧
    match waiting q with
    | Some t => if t <=? now then dirty (q_tick q now) = true
                else dirty (q_tick q now) = dirty q ∧ waiting (q_tick q now) = Some t
    | None => dirty (q_tick q now) = dirty q ∧ waiting (q_tick q now) = None
    end;
  q_shutdown_spec : ∀ q, shutting (q_shutdown q) = true
}.

Module NodeObserver.

(** ** Configuration: [config.go] *)

Definition defaultRetryDelay : Z := 300.
Definition defaultBrokerRetryDelay : Z := 10.
Definition defaultAPIServerContainerName : string := "topograph".

Section Config.
(** Label selectors are opaque. *)
Context {selector : Type}.

(** [NodeLabels] is [None] when the list is nil. *)
Record Trigger := MkTrigger {
  NodeLabels : option (list string);
  NodeReadiness : bool;
  NodeSelector : labelMap;
  t_PodSelector : option selector
}.

Record APIServer := MkAPIServer { Namespace : string; a_PodSelector : option selector; ContainerName : string }.

(** The parameters of the provider: the untyped [topologyLabels], and what
    decoding makes of all of them. *)
Record Provider := MkProvider {
  Name : string;
  topologyLabels : NodeLabels.anyLabels;
  decoded : result string NodeLabels.Params
}.

(** Durations in seconds. *)
Record Config := MkConfig {
  GenerateTopologyURL : string;
  HealthzPort : Z;
  cfg_Trigger : Trigger;
  cfg_APIServer : APIServer;
  cfg_Provider : Provider;
  RetryDelay : Z
}.

Inductive configErr :=
| NoURL
| BadProviderParams (e : NodeLabels.paramsErr)
| BadTriggerLabel (e : K8sLabels.keyErr)
| SelectorMismatch
| NothingToWatch
| NegativePort.

Context `{RangeOrder} (IsQualifiedName IsValidLabelValue : string → list string).

(** The only provider with default labels is [nodelabels]. *)
Definition nodeTrigger (cfg : Config) : result configErr Trigger :=
  let trigger := cfg_Trigger cfg in
  let provider := cfg_Provider cfg in
  let isNodeLabels := bool_decide (Name provider = NodeLabels.NAME) in
  let parse := map_err BadProviderParams
    (NodeLabels.ParseParams IsQualifiedName IsValidLabelValue (topologyLabels provider) (decoded provider)) in
  labels ← match NodeLabels trigger with
           | Some l => Ok (Some l)
           | None => if isNodeLabels then params ← parse; Ok (Some (NodeLabels.TopologyLabels params)) else Ok None
           end;
  _ ← foldM (λ (_ : ()) key, map_err BadTriggerLabel
               (K8sLabels.ValidateLabelKey IsQualifiedName "trigger.nodeLabels" key)) () (default [] labels);
  if isNodeLabels then
    params ← parse;
    if decide (NodeSelector trigger ≠ ∅ ∧ NodeSelector trigger ≠ NodeLabels.NodeSelector params) then Err SelectorMismatch
    else Ok (MkTrigger labels (NodeReadiness trigger || NodeLabels.RequireReady params) (NodeLabels.NodeSelector params)
               (t_PodSelector trigger))
  else Ok (MkTrigger labels (NodeReadiness trigger) (NodeSelector trigger) (t_PodSelector trigger)).

(** [NewConfigFromFile], after the file is decoded. *)
Definition NewConfigFromFile (cfg : Config) : result configErr Config :=
  if decide (GenerateTopologyURL cfg = "") then Err NoURL
  else
    let api := cfg_APIServer cfg in
    let api := match a_PodSelector api with
               | Some _ => if decide (ContainerName api = "")
                           then MkAPIServer (Namespace api) (a_PodSelector api) defaultAPIServerContainerName else api
               | None => api
               end in
    let cfg := MkConfig (GenerateTopologyURL cfg) (HealthzPort cfg) (cfg_Trigger cfg) api (cfg_Provider cfg) (RetryDelay cfg) in
    match nodeTrigger cfg with
    | Err e => Err e
    | Ok trigger =>
        if bool_decide (NodeSelector trigger = ∅) && bool_decide (default [] (NodeLabels trigger) = []) &&
           negb (NodeReadiness trigger) && negb (bool_decide (is_Some (t_PodSelector trigger))) &&
           negb (bool_decide (is_Some (a_PodSelector api)))
        then Err NothingToWatch
        else if HealthzPort cfg <? 0 then Err NegativePort
        else Ok (MkConfig (GenerateTopologyURL cfg) (HealthzPort cfg) (cfg_Trigger cfg) api (cfg_Provider cfg)
                   (if RetryDelay cfg =? 0 then defaultRetryDelay else RetryDelay cfg))
    end.
End Config.
#[global] Arguments Trigger : clear implicits.
#[global] Arguments APIServer : clear implicits.
#[global] Arguments Config : clear implicits.

(** ** Objects *)

Record ONode := MkONode {
  on_Labels : labelMap;
  on_Annotations : labelMap;
  on_Deleting : bool;
  on_Conditions : list (string * string)
}.

Record containerStatus := MkContainer {
  cs_Name : string;
  cs_Ready : bool;
  cs_Running : bool;
  RestartCount : Z
}.
Record OPod := MkOPod { op_Conditions : list (string * string); ContainerStatuses : list containerStatus }.

Record DaemonSet := MkDaemonSet { DesiredNumberScheduled : Z; NumberReady : Z }.

(** What an informer hands to a callback. *)
Inductive object :=
| NodeObject (n : ONode)
| PodObject (p : OPod)
| DaemonSetObject (d : DaemonSet)
| OtherObject.

(** ** Which events count *)

(** The fixed part of [StatusInformer]; times in seconds. *)
Record settings := MkSettings {
  nodeLabels : list string;
  nodeReadiness : bool;
  apiServerContainerName : string;
  hasBroker : bool;
  hasRequest : bool;
  retryDelay : Z
}.

Definition setRetryDelay (d : Z) : Z := if d <=? 0 then defaultRetryDelay else d.

Fixpoint nodeReadyIn (conditions : list (string * string)) : bool :=
  match conditions with
  | [] => false
  | c :: rest => if decide (c.1 = "Ready") then bool_decide (c.2 = "True") else nodeReadyIn rest
  end.
Definition nodeReady (node : ONode) : bool := nodeReadyIn (on_Conditions node).

Definition valueChanged (old new : labelMap) (key : string) : bool :=
  bool_decide (default "" (old !! key) ≠ default "" (new !! key)).

Definition shouldRequestOnNodeUpdate (s : settings) (oldNode newNode : ONode) : bool :=
  if nodeReadiness s && negb (Bool.eqb (nodeReady oldNode) (nodeReady newNode)) then true
  else if decide (nodeLabels s = []) then false
  else if negb (Bool.eqb (on_Deleting oldNode) (on_Deleting newNode)) then true
  else if existsb (valueChanged (on_Labels oldNode) (on_Labels newNode)) (nodeLabels s) then true
  else existsb (valueChanged (on_Annotations oldNode) (on_Annotations newNode))
         [K8sEngine.KeyNodeInstance; K8sEngine.KeyNodeRegion].

Definition IsPodReady (pod : OPod) : bool := bool_decide (("Ready", "True") ∈ op_Conditions pod).

Fixpoint containerLoop (containerName : string) (found : bool) (statuses : list containerStatus) : bool :=
  match statuses with
  | [] => bool_decide (containerName = "") && negb found
  | status :: rest =>
      if decide (containerName ≠ "" ∧ cs_Name status ≠ containerName) then containerLoop containerName found rest
      else if cs_Ready status && cs_Running status then true
      else containerLoop containerName true rest
  end.
Definition isContainerRunningAndReady (pod : OPod) (containerName : string) : bool :=
  containerLoop containerName false (ContainerStatuses pod).

Definition isWorkloadPodReady (pod : OPod) (containerName : string) : bool :=
  IsPodReady pod && isContainerRunningAndReady pod containerName.
Definition isAPIServerPodReady := isWorkloadPodReady.

Definition wrap32 (z : Z) : Z := (z + 2 ^ 31) mod 2 ^ 32 - 2 ^ 31.

(** The count, and whether a container was found. *)
Definition containerRestartCount (pod : OPod) (containerName : string) : Z * bool :=
  if decide (containerName ≠ "") then
    match find (λ status, bool_decide (cs_Name status = containerName)) (ContainerStatuses pod) with
    | Some status => (RestartCount status, true)
    | None => (0, false)
    end
  else foldl (λ acc status, (wrap32 (acc.1 + RestartCount status), true)) (0, false) (ContainerStatuses pod).

Definition shouldRequestOnWorkloadUpdate (oldPod newPod : OPod) (containerName : string) : bool :=
  if negb (isWorkloadPodReady newPod containerName) then false
  else if negb (isWorkloadPodReady oldPod containerName) then true
  else
    let '(oldRestarts, oldFound) := containerRestartCount oldPod containerName in
    let '(newRestarts, newFound) := containerRestartCount newPod containerName in
    oldFound && newFound && (oldRestarts <? newRestarts).
Definition shouldRequestOnAPIServerUpdate := shouldRequestOnWorkloadUpdate.

Inductive daemonSetErr := NoReplicas.
Definition brokerDaemonSetReady (d : DaemonSet) : bool * option daemonSetErr :=
  if DesiredNumberScheduled d =? 0 then (false, Some NoReplicas)
  else (DesiredNumberScheduled d =? NumberReady d, None).
Definition isBrokerDaemonSetReady (d : DaemonSet) : bool := (brokerDaemonSetReady d).1.

(** The callbacks of the four informers. *)
Inductive informer := Nodes | TriggerPods | APIServerPods | Broker.
Inductive event :=
| Added (i : informer) (obj : object)
| Updated (i : informer) (oldObj newObj : object)
| Deleted (i : informer).

(** The informers that are created, from the trigger, the API server and the
    name and namespace of the broker. *)
Definition watches {selector} (trigger : Trigger selector) (apiServer : APIServer selector) (brokerName brokerNamespace : string)
    (i : informer) : bool :=
  match i with
  | Nodes => bool_decide (NodeSelector trigger ≠ ∅) || bool_decide (default [] (NodeLabels trigger) ≠ []) || NodeReadiness trigger
  | TriggerPods => bool_decide (is_Some (t_PodSelector trigger))
  | APIServerPods => bool_decide (is_Some (a_PodSelector apiServer))
  | Broker => bool_decide (brokerName ≠ "") && bool_decide (brokerNamespace ≠ "")
  end.

(** Whether the callback of an event calls [sendRequest]. *)
Definition counts (s : settings) (e : event) : bool :=
  match e with
  | Added Nodes (NodeObject _) => true
  | Updated Nodes (NodeObject old) (NodeObject new) => shouldRequestOnNodeUpdate s old new
  | Added TriggerPods (PodObject pod) => IsPodReady pod
  | Updated TriggerPods (PodObject old) (PodObject new) => negb (Bool.eqb (IsPodReady old) (IsPodReady new))
  | Added APIServerPods (PodObject pod) => isAPIServerPodReady pod (apiServerContainerName s)
  | Updated APIServerPods (PodObject old) (PodObject new) =>
      shouldRequestOnAPIServerUpdate old new (apiServerContainerName s)
  | Added Broker (DaemonSetObject _) => true
  | Updated Broker (DaemonSetObject old) (DaemonSetObject new) =>
      negb (Bool.eqb (isBrokerDaemonSetReady old) (isBrokerDaemonSetReady new)) ||
      negb (DesiredNumberScheduled old =? DesiredNumberScheduled new)
  | Deleted _ => true
  | _ => false
  end.

(** ** Reconciliation *)

(** The synced flag and the store of the broker's informer. *)
Record brokerView := MkBrokerView { HasSynced : bool; store : list object }.

Definition brokerReady (s : settings) (view : brokerView) : bool :=
  if negb (hasBroker s) then true
  else if negb (HasSynced view) then false
  else match store view with
       | [DaemonSetObject d] => (brokerDaemonSetReady d).1
       | _ => false
       end.

(** [requeueAfter] and the error, from the outcome of [reqExecFunc]: its
    error, if any. *)
Definition reconcile (s : settings) (view : brokerView) (exec : option string) (cancelled : bool) :
    Z * option string :=
  if negb (brokerReady s view) then (defaultBrokerRetryDelay, None)
  else if negb (hasRequest s) then (0, None)
  else match exec with
       | Some msg => if cancelled then (0, None) else (0, Some ("failed to send topology generation request: " +:+ msg))
       | None => (0, None)
       end.

(** ** The observer *)

(** Where the worker is in [processNextWorkItem]. *)
Inductive phase :=
| Idle
| Taken
| Reconciling (generation : Z)
| Finishing (continue : bool)
| Stopped.

Section Observer.
Context `{WorkQueue Q} (s : settings).

(** [adding]: the callbacks between the two statements of [sendRequest].
    [retryNotBefore] is [None] for the zero time.  [sent] records, for the
    proofs, the generations whose reconciliation has succeeded. *)
Record observer := MkObserver {
  requestedGeneration : Z;
  completedGeneration : Z;
  attemptedGeneration : Z;
  retryNotBefore : option Z;
  queue : Q;
  cancelled : bool;
  now : Z;
  adding : nat;
  worker : phase;
  sent : list Z
}.

Definition NewStatusInformer (start : Z) : observer := MkObserver 0 0 0 None q_new false start 0 Idle [].

Definition withQueue (st : observer) (q : Q) (p : phase) : observer :=
  MkObserver (requestedGeneration st) (completedGeneration st) (attemptedGeneration st) (retryNotBefore st) q
    (cancelled st) (now st) (adding st) p (sent st).

(** The first half of [processNextWorkItem], once it has the key. *)
Definition chooseWork (st : observer) : observer :=
  let generation := requestedGeneration st in
  if generation <=? completedGeneration st then withQueue st (q_forget (queue st)) (Finishing true)
  else
    match retryNotBefore st with
    | Some t =>
        if (generation =? attemptedGeneration st) && (now st <? t)
        then withQueue st (q_add_after (queue st) (now st) (t - now st)) (Finishing true)
        else withQueue st (queue st) (Reconciling generation)
    | None => withQueue st (queue st) (Reconciling generation)
    end.

(** The second half, with the outcome of [reconcile]. *)
Definition recordOutcome (st : observer) (generation : Z) (outcome : Z * option string) : observer :=
  let '(requeueAfter, err) := outcome in
  if cancelled st then withQueue st (q_forget (queue st)) (Finishing false)
  else
    match err with
    | Some _ =>
        MkObserver (requestedGeneration st) (completedGeneration st) generation (Some (now st + retryDelay s))
          (q_add_rate_limited (queue st) (now st)) (cancelled st) (now st) (adding st) (Finishing true) (sent st)
    | None =>
        let q := q_forget (queue st) in
        if 0 <? requeueAfter then
          MkObserver (requestedGeneration st) (completedGeneration st) generation (Some (now st + requeueAfter))
            (q_add_after q (now st) requeueAfter) (cancelled st) (now st) (adding st) (Finishing true) (sent st)
        else
          MkObserver (requestedGeneration st) generation generation None q (cancelled st) (now st) (adding st)
            (Finishing true) (generation :: sent st)
    end.

Inductive action :=
| Count (e : event)
| Enqueue
| Tick (time : Z)
| Take
| Choose
| Reconcile (view : brokerView) (exec : option string)
| Finish
| Cancel
| ShutDown.

Definition step (a : action) (st : observer) : option observer :=
  match a, worker st with
  | Count e, w =>
      if counts s e
      then Some (MkObserver (requestedGeneration st + 1) (completedGeneration st) (attemptedGeneration st)
                   (retryNotBefore st) (queue st) (cancelled st) (now st) (S (adding st)) w (sent st))
      else Some st
  | Enqueue, w =>
      match adding st with
      | O => None
      | S n => Some (MkObserver (requestedGeneration st) (completedGeneration st) (attemptedGeneration st)
                       (retryNotBefore st) (q_add (queue st)) (cancelled st) (now st) n w (sent st))
      end
  | Tick time, w =>
      if now st <=? time
      then Some (MkObserver (requestedGeneration st) (completedGeneration st) (attemptedGeneration st)
                   (retryNotBefore st) (q_tick (queue st) time) (cancelled st) time (adding st) w (sent st))
      else None
  | Take, Idle =>
      match q_get (queue st) with
      | GotKey q => Some (withQueue st q Taken)
      | GotShutdown => Some (withQueue st (queue st) Stopped)
      | Blocked => None
      end
  | Choose, Taken => Some (chooseWork st)
  | Reconcile view exec, Reconciling generation =>
      Some (recordOutcome st generation (reconcile s view exec (cancelled st)))
  | Finish, Finishing continue =>
      Some (withQueue st (q_done (queue st)) (if continue then Idle else Stopped))
  | Cancel, w =>
      Some (MkObserver (requestedGeneration st) (completedGeneration st) (attemptedGeneration st)
              (retryNotBefore st) (queue st) true (now st) (adding st) w (sent st))
  | ShutDown, w => Some (withQueue st (q_shutdown (queue st)) w)
  | _, _ => None
  end.

Fixpoint run (actions : list action) (st : observer) : option observer :=
  match actions with
  | [] => Some st
  | a :: rest => match step a st with Some st => run rest st | None => None end
  end.

Definition reachable (st : observer) : Prop := ∃ start actions, run actions (NewStatusInformer start) = Some st.

Definition running (st : observer) : Prop := cancelled st = false ∧ shutting (queue st) = false.

(** ** No event is lost *)

(** The key is handed out now or later, or about to be added. *)
Definition fresh (st : observer) : Prop := dirty (queue st) = true ∨ (0 < adding st)%nat.
Definition pending (st : observer) : Prop := fresh st ∨ is_Some (waiting (queue st)).

Definition phase_inv (st : observer) : Prop :=
  match worker st with
  | Idle => processing (queue st) = false ∧ (completedGeneration st < requestedGeneration st → pending st)
  | Taken => processing (queue st) = true
  | Reconciling g => processing (queue st) = true ∧ completedGeneration st < g ≤ requestedGeneration st ∧
                     (g < requestedGeneration st → fresh st)
  | Finishing continue => processing (queue st) = true ∧ continue = true ∧
                          (completedGeneration st < requestedGeneration st → pending st)
  | Stopped => False
  end.

Definition observer_inv (st : observer) : Prop :=
  0 ≤ completedGeneration st ≤ requestedGeneration st ∧ attemptedGeneration st ≤ requestedGeneration st ∧
  (completedGeneration st = 0 ∨ completedGeneration st ∈ sent st) ∧ phase_inv st.

Lemma observer_new_inv start : observer_inv (NewStatusInformer start).
Proof.
  destruct q_new_empty as (_ & Hp & _). unfold observer_inv, phase_inv. simpl.
  split_and!; [lia..|by left|done|lia].
Qed.

Lemma pending_queue (q : Q) st p :
  dirty q = dirty (queue st) → waiting q = waiting (queue st) → pending st → pending (withQueue st q p).
Proof. unfold pending, fresh. simpl. by intros -> ->. Qed.

Lemma kept_add q : shutting (q_add q) = shutting q.
Proof. by destruct (q_shutting_kept q 0 0) as (? & _). Qed.
Lemma kept_add_after q t d : shutting (q_add_after q t d) = shutting q.
Proof. by destruct (q_shutting_kept q t d) as (_ & ? & _). Qed.
Lemma kept_rate q t : shutting (q_add_rate_limited q t) = shutting q.
Proof. by destruct (q_shutting_kept q t 0) as (_ & _ & ? & _). Qed.
Lemma kept_tick q t : shutting (q_tick q t) = shutting q.
Proof. by destruct (q_shutting_kept q t 0) as (_ & _ & _ & ?). Qed.
Lemma kept_forget q : shutting (q_forget q) = shutting q.
Proof. apply q_forget_spec. Qed.
Lemma kept_done q : shutting (q_done q) = shutting q.
Proof. apply q_done_spec. Qed.

Lemma choose_flags st : cancelled (chooseWork st) = cancelled st ∧ shutting (queue (chooseWork st)) = shutting (queue st).
Proof. unfold chooseWork. repeat case_match; simpl; by rewrite ?kept_add_after, ?kept_forget. Qed.

Lemma record_flags st g o :
  cancelled (recordOutcome st g o) = cancelled st ∧ shutting (queue (recordOutcome st g o)) = shutting (queue st).
Proof.
  unfold recordOutcome. repeat case_match; simpl; by rewrite ?kept_add_after, ?kept_rate, ?kept_forget.
Qed.

(** Cancelling and shutting down are final. *)
Lemma step_running a st st' : step a st = Some st' → running st' → running st.
Proof.
  unfold running. intros Hstep. pose proof (q_get_spec (queue st)) as Hg. pose proof (q_shutdown_spec (queue st)).
  destruct a; simpl in Hstep; case_hyp Hstep; simplify_eq/=;
    rewrite ?kept_add, ?kept_tick, ?kept_done; try (intros [? ?]; split; congruence); try tauto.
  - destruct Hg as (_ & _ & _ & _ & -> & _). done.
  - destruct (choose_flags st) as [-> ->]. done.
  - destruct (record_flags st generation (reconcile s view exec (cancelled st))) as [-> ->]. done.
Qed.

Lemma chooseWork_inv st : running st → worker st = Taken → observer_inv st → observer_inv (chooseWork st).
Proof.
  intros [Hc Hs] Hw (Hle & Hatt & Hsent & Hphase). unfold phase_inv in Hphase. rewrite Hw in Hphase.
  destruct (q_forget_spec (queue st)) as (_ & Hfp & _).
  assert (Hwork : completedGeneration st < requestedGeneration st →
    observer_inv (withQueue st (queue st) (Reconciling (requestedGeneration st)))).
  { intros. unfold observer_inv, phase_inv. simpl. split_and!; try done; lia. }
  unfold chooseWork. destruct (Z.leb_spec (requestedGeneration st) (completedGeneration st)) as [Hg|Hg].
  - unfold observer_inv, phase_inv. simpl. split_and!; try done; [lia..|congruence|lia].
  - destruct (retryNotBefore st) as [t|]; [|by apply Hwork]. destruct (_ && _); [|by apply Hwork].
    destruct (q_add_after_spec (queue st) (now st) (t - now st) Hs) as (Hp & _ & Hd).
    unfold observer_inv, phase_inv. simpl. split_and!; try done; [lia..|congruence|]. intros _. unfold pending, fresh. simpl.
    destruct (_ <=? 0); [by left; left|]. right. destruct Hd as (t' & -> & _). by eexists.
Qed.

Lemma recordOutcome_inv st g o :
  running st → worker st = Reconciling g → observer_inv st → observer_inv (recordOutcome st g o).
Proof.
  intros [Hc Hs] Hw (Hle & Hatt & Hsent & Hphase). unfold phase_inv in Hphase. rewrite Hw in Hphase.
  destruct Hphase as (Hp & Hg & Hfresh). destruct (q_forget_spec (queue st)) as (Hfd & Hfp & _ & Hfw).
  unfold recordOutcome. destruct o as [requeueAfter err]. rewrite Hc. destruct err as [msg|].
  - destruct (q_add_rate_limited_spec (queue st) (now st) Hs) as (Hp2 & _ & Hd).
    unfold observer_inv, phase_inv. simpl. split_and!; try done; [lia..|congruence|]. intros _. unfold pending, fresh. simpl. tauto.
  - destruct (Z.ltb_spec 0 requeueAfter) as [Hr|Hr].
    + assert (Hs2 : shutting (q_forget (queue st)) = false) by (by rewrite kept_forget).
      destruct (q_add_after_spec (q_forget (queue st)) (now st) requeueAfter Hs2) as (Hp2 & _ & Hd).
      unfold observer_inv, phase_inv. simpl. split_and!; try done; [lia..|congruence|]. intros _. unfold pending, fresh. simpl.
      destruct (Z.leb_spec requeueAfter 0); [lia|]. right. destruct Hd as (t & -> & _). by eexists.
    + unfold observer_inv, phase_inv. simpl. split_and!; try done; [lia..|right; by left|congruence|]. intros Hlt. left. unfold fresh. simpl.
      rewrite Hfd. by apply Hfresh.
Qed.

(** A change outside the worker keeps its phase: what it needs to know. *)
Lemma phase_keep st st' :
  worker st' = worker st → processing (queue st') = processing (queue st) →
  completedGeneration st' = completedGeneration st → requestedGeneration st ≤ requestedGeneration st' →
  (fresh st ∨ requestedGeneration st < requestedGeneration st' → fresh st') → (pending st → pending st') →
  phase_inv st → phase_inv st'.
Proof.
  unfold phase_inv. intros -> -> -> Hle Hfresh Hpend. assert (fresh st' → pending st') by (unfold pending; tauto).
  destruct (decide (requestedGeneration st < requestedGeneration st')) as [Hlt|Hge].
  - case_match; intuition lia.
  - assert (requestedGeneration st' = requestedGeneration st) as -> by lia. case_match; intuition.
Qed.

Lemma step_inv a st st' : step a st = Some st' → running st' → observer_inv st → observer_inv st'.
Proof.
  intros Hstep Hrun Hinv. pose proof (step_running _ _ _ Hstep Hrun) as Hrun0. pose proof Hrun0 as [Hc Hs].
  pose proof Hinv as (Hle & Hatt & Hsent & Hphase).
  destruct a; simpl in Hstep.
  - destruct (counts s e); simplify_eq/=; [|done].
    split_and!; simpl; try done; [lia..|]. eapply (phase_keep st); simpl; try done; [lia|..]; unfold pending, fresh; simpl;
      intros _; [right; lia|left; right; lia].
  - destruct (adding st) as [|n] eqn:Hn; simplify_eq/=.
    destruct (q_add_spec (queue st) Hs) as (Hd & Hp & _).
    split_and!; simpl; try done; [lia..|]. eapply (phase_keep st); simpl; try done; unfold pending, fresh; simpl; tauto.
  - destruct (Z.leb_spec (now st) time); simplify_eq/=.
    destruct (q_tick_spec (queue st) time Hs) as (Hp & Htick).
    assert (Hd : dirty (queue st) = true → dirty (q_tick (queue st) time) = true)
      by (destruct (waiting (queue st)) as [t|]; [destruct (t <=? time)|]; intuition congruence).
    assert (Hw : is_Some (waiting (queue st)) →
                 dirty (q_tick (queue st) time) = true ∨ is_Some (waiting (q_tick (queue st) time))).
    { intros [t Ht]. rewrite Ht in Htick. destruct (t <=? time); [by left|]. destruct Htick as [_ ->]. by right. }
    split_and!; simpl; try done; [lia..|]. eapply (phase_keep st); simpl; try done; unfold pending, fresh; simpl; intuition lia.
  - destruct (worker st) eqn:Hw; try done. unfold phase_inv in Hphase. rewrite Hw in Hphase.
    pose proof (q_get_spec (queue st)) as Hg. destruct (q_get (queue st)) as [q| |]; simplify_eq/=; [|congruence].
    split_and!; simpl; try done; [lia..|]. unfold phase_inv; simpl. tauto.
  - destruct (worker st) eqn:Hw; simplify_eq/=. by apply chooseWork_inv.
  - destruct (worker st) eqn:Hw; simplify_eq/=. by apply recordOutcome_inv.
  - destruct (worker st) eqn:Hw; simplify_eq/=. unfold phase_inv in Hphase. rewrite Hw in Hphase.
    destruct Hphase as (Hp & -> & Hpend). destruct (q_done_spec (queue st)) as (Hd & Hdp & _ & Hdw).
    split_and!; simpl; try done; [lia..|]. split; [done|]. intros Hlt. simpl in Hlt. by apply pending_queue; [..|apply Hpend].
  - simplify_eq/=. by destruct Hrun.
  - simplify_eq/=. destruct Hrun as [_ Hr]. simpl in Hr. by rewrite q_shutdown_spec in Hr.
Qed.

Lemma run_inv actions : ∀ st st', run actions st = Some st' → running st' → observer_inv st → running st ∧ observer_inv st'.
Proof.
  induction actions as [|a actions IH]; simpl; intros st st'; [by intros [= ->]|].
  destruct (step a st) as [st1|] eqn:Ha; [|done]. intros Hrun Hr Hi.
  assert (Hr1 : running st1) by (clear -Hrun Hr; revert st1 Hrun; induction actions as [|b l IHl]; simpl; intros st1;
    [by intros [= ->]|]; destruct (step b st1) eqn:Hb; [|done]; intros; eapply step_running; eauto).
  split; [by eapply step_running|]. eapply IH; [done..|]. by eapply step_inv.
Qed.

(** C13: in every reachable state that is not being stopped, the generations are
    ordered, the completed one is zero or one whose reconciliation succeeded,
    and no event is lost: when events were counted after the completed
    generation, the worker is about to compare generations or is reconciling,
    or the key is in the queue, waiting for its time, or about to be added by a
    callback.  A reconciliation in progress is for a newer generation than the
    completed one, and any event counted since it began has its key in the
    queue or about to be added. *)
Theorem observer_no_lost_event st :
  reachable st → running st →
  0 ≤ completedGeneration st ≤ requestedGeneration st ∧
  (completedGeneration st = 0 ∨ completedGeneration st ∈ sent st) ∧
  match worker st with
  | Idle | Finishing _ => completedGeneration st < requestedGeneration st → pending st
  | Taken => True
  | Reconciling g => completedGeneration st < g ≤ requestedGeneration st ∧ (g < requestedGeneration st → fresh st)
  | Stopped => False
  end.
Proof.
  intros (start & actions & Hrun) Hr.
  destruct (run_inv _ _ _ Hrun Hr (observer_new_inv start)) as [_ (Hle & _ & Hsent & Hphase)].
  split; [done|]. split; [done|]. unfold phase_inv in Hphase. destruct (worker st); tauto.
Qed.


(** ** Every event is reconciled *)

(** A broker that is ready. *)
Definition readyView : brokerView := MkBrokerView true [DaemonSetObject (MkDaemonSet 1 1)].

Lemma reconcile_ready c : reconcile s readyView None c = (0, None).
Proof. unfold reconcile, brokerReady. by destruct (hasBroker s), (hasRequest s). Qed.

(** Steps of the worker, of the clock and of callbacks that have counted their
    event, with reconciliations that succeed. *)
Definition internal (a : action) : Prop :=
  match a with
  | Enqueue | Tick _ | Take | Choose | Finish => True
  | Reconcile view exec => view = readyView ∧ exec = None
  | Count _ | Cancel | ShutDown => False
  end.

Lemma internal_keeps a st st' : internal a → step a st = Some st' → running st → 
  running st' ∧ requestedGeneration st' = requestedGeneration st.
Proof.
  unfold running. intros Hi Hstep [Hc Hs]. pose proof (q_get_spec (queue st)) as Hg.
  destruct a; try done; simpl in Hstep; case_hyp Hstep; simplify_eq/=; rewrite ?kept_add, ?kept_tick, ?kept_done; try done.
  - destruct Hg as (_ & _ & _ & _ & -> & _). done.
  - destruct (choose_flags st) as [-> ->]. split; [done|]. unfold chooseWork. by repeat case_match.
  - destruct (record_flags st generation (reconcile s view exec (cancelled st))) as [-> ->]. split; [done|].
    unfold recordOutcome. by repeat case_match.
Qed.

(** [st] can complete the generation [g] with internal steps. *)
Definition completes (g : Z) (st : observer) : Prop :=
  ∃ actions st', Forall internal actions ∧ run actions st = Some st' ∧ completedGeneration st' = g.

Lemma completes_step g a st st' : internal a → step a st = Some st' → completes g st' → completes g st.
Proof.
  intros Hi Hs (actions & st2 & Hall & Hrun & Hg). exists (a :: actions), st2. split_and!; [by constructor| |done].
  simpl. by rewrite Hs.
Qed.

Lemma idle_dirty_completes st :
  running st → worker st = Idle → dirty (queue st) = true → processing (queue st) = false →
  completedGeneration st < requestedGeneration st → completes (requestedGeneration st) st.
Proof.
  intros [Hc Hs] Hw Hd Hp Hlt. set (time := Z.max (now st) (default 0 (retryNotBefore st))).
  destruct (q_tick_spec (queue st) time Hs) as (Htp & Htick).
  assert (Htd : dirty (q_tick (queue st) time) = true)
    by (destruct (waiting (queue st)) as [t|]; [destruct (t <=? time)|]; intuition congruence).
  eapply (completes_step _ (Tick time)); [done|by simpl; rewrite (proj2 (Z.leb_le _ _)) by lia|].
  pose proof (q_get_spec (q_tick (queue st) time)) as Hg. destruct (q_get (q_tick (queue st) time)) as [q| |] eqn:Hget.
  - eapply (completes_step _ Take); [done|by simpl; rewrite Hw, Hget|]. eapply (completes_step _ Choose); [done|done|].
    unfold chooseWork, withQueue. simpl. destruct (Z.leb_spec (requestedGeneration st) (completedGeneration st)); [lia|].
    assert (Hrec : ∀ st', cancelled st' = false →
      completes (requestedGeneration st) (withQueue st' q (Reconciling (requestedGeneration st)))).
    { intros st' Hc'. eapply (completes_step _ (Reconcile readyView None)); [done|done|].
      rewrite reconcile_ready. exists [], (recordOutcome (withQueue st' q (Reconciling (requestedGeneration st)))
        (requestedGeneration st) (0, None)). split_and!; [by constructor|done|]. unfold recordOutcome. simpl. by rewrite Hc'. }
    destruct (retryNotBefore st) as [t|] eqn:Ht; simpl.
    + destruct (Z.ltb_spec time t); [unfold time in *; simpl in *; lia|]. rewrite andb_false_r.
      by apply (Hrec (MkObserver (requestedGeneration st) (completedGeneration st) (attemptedGeneration st) (Some t) q
        (cancelled st) time (adding st) Taken (sent st))).
    + by apply (Hrec (MkObserver (requestedGeneration st) (completedGeneration st) (attemptedGeneration st) None q
        (cancelled st) time (adding st) Taken (sent st))).
  - rewrite kept_tick in Hg. congruence.
  - destruct Hg; congruence.
Qed.

Lemma idle_completes st : running st → observer_inv st → worker st = Idle →
  completedGeneration st < requestedGeneration st → completes (requestedGeneration st) st.
Proof.
  intros [Hc Hs] (_ & _ & _ & Hphase) Hw Hlt. unfold phase_inv in Hphase. rewrite Hw in Hphase.
  destruct Hphase as [Hp Hpend]. destruct (Hpend Hlt) as [[Hd|Hadd]|[t Ht]].
  - by apply idle_dirty_completes.
  - destruct (q_add_spec (queue st) Hs) as (Hd & Hp' & _). destruct (adding st) as [|n] eqn:Hn; [lia|].
    eapply (completes_step _ Enqueue); [done|by simpl; rewrite Hn|].
    apply (idle_dirty_completes (MkObserver (requestedGeneration st) (completedGeneration st) (attemptedGeneration st)
      (retryNotBefore st) (q_add (queue st)) (cancelled st) (now st) n (worker st) (sent st)));
      simpl; [|done|done|congruence|done]. split; simpl; [done|by rewrite kept_add].
  - set (time := Z.max (now st) t). destruct (q_tick_spec (queue st) time Hs) as (Hp' & Htick).
    rewrite Ht, (proj2 (Z.leb_le _ _)) in Htick by lia.
    eapply (completes_step _ (Tick time)); [done|by simpl; rewrite (proj2 (Z.leb_le _ _)) by lia|].
    apply (idle_dirty_completes (MkObserver (requestedGeneration st) (completedGeneration st) (attemptedGeneration st)
      (retryNotBefore st) (q_tick (queue st) time) (cancelled st) time (adding st) (worker st) (sent st)));
      simpl; [|done|done|congruence|done]. split; simpl; [done|by rewrite kept_tick].
Qed.

(** One internal step on the way. *)
Lemma completes_via a st st' : internal a → step a st = Some st' → running st → observer_inv st →
  (running st' → observer_inv st' → completes (requestedGeneration st') st') → completes (requestedGeneration st) st.
Proof.
  intros Hi Hs Hr Hinv Hnext. destruct (internal_keeps _ _ _ Hi Hs Hr) as [Hr' <-].
  eapply completes_step; [done..|]. apply Hnext; [done|]. by eapply step_inv.
Qed.

Lemma finishing_completes st c : running st → observer_inv st → worker st = Finishing c →
  completes (requestedGeneration st) st.
Proof.
  intros Hr Hinv Hw. assert (c = true) as -> by (destruct Hinv as (_ & _ & _ & Hph); unfold phase_inv in Hph; rewrite Hw in Hph; tauto).
  destruct (decide (completedGeneration st < requestedGeneration st)) as [Hlt|Hge].
  - eapply (completes_via Finish); [done|by simpl; rewrite Hw|done..|]. intros Hr' Hinv'. by apply idle_completes.
  - exists [], st. split_and!; [by constructor|done|]. destruct Hinv as [? _]. lia.
Qed.

Lemma reconciling_completes st g : running st → observer_inv st → worker st = Reconciling g →
  completes (requestedGeneration st) st.
Proof.
  intros Hr Hinv Hw. eapply (completes_via (Reconcile readyView None)); [done|by simpl; rewrite Hw, reconcile_ready|done..|].
  intros Hr' Hinv'. apply (finishing_completes _ true); [done..|]. unfold recordOutcome. destruct Hr as [-> _]. done.
Qed.

(** C14: from every reachable state that is not being stopped, the observer can
    reconcile all events counted so far by its own steps alone, given that the
    broker is ready and requests succeed: without a new event, the steps of the
    worker, the clock and the callbacks in progress lead to a state whose
    completed generation is the requested one. *)
Theorem observer_reconciles st :
  reachable st → running st →
  ∃ actions st', Forall internal actions ∧ run actions st = Some st' ∧
    completedGeneration st' = requestedGeneration st.
Proof.
  intros (start & acts & Hrun) Hr. destruct (run_inv _ _ _ Hrun Hr (observer_new_inv start)) as [_ Hinv].
  change (completes (requestedGeneration st) st). destruct (worker st) as [| |g|c|] eqn:Hw.
  - destruct (decide (completedGeneration st < requestedGeneration st)) as [Hlt|Hge]; [by apply idle_completes|].
    exists [], st. split_and!; [by constructor|done|]. destruct Hinv as [? _]. lia.
  - eapply (completes_via Choose); [done|by simpl; rewrite Hw|done..|]. intros Hr' Hinv'.
    destruct (worker (chooseWork st)) as [| |g|c|] eqn:Hw'.
    1, 2, 5: exfalso; revert Hw'; unfold chooseWork; by repeat case_match.
    + by eapply reconciling_completes.
    + by eapply finishing_completes.
  - by eapply reconciling_completes.
  - by eapply finishing_completes.
  - destruct Hinv as (_ & _ & _ & Hph). unfold phase_inv in Hph. by rewrite Hw in Hph.
Qed.

End Observer.

(** ** A queue, and an event during a reconciliation *)

Record memQueue := MkQ { k_dirty : bool; k_processing : bool; k_shutting : bool; k_waiting : option Z }.

Definition mem_add (q : memQueue) : memQueue := MkQ true (k_processing q) (k_shutting q) (k_waiting q).
Definition mem_add_after (q : memQueue) (now d : Z) : memQueue :=
  if d <=? 0 then mem_add q
  else MkQ (k_dirty q) (k_processing q) (k_shutting q)
         (Some (match k_waiting q with Some t => Z.min t (now + d) | None => now + d end)).
Definition mem_tick (q : memQueue) (now : Z) : memQueue :=
  match k_waiting q with
  | Some t => if t <=? now then MkQ true (k_processing q) (k_shutting q) None else q
  | None => q
  end.

#[export] Program Instance memory_queue : WorkQueue memQueue := {|
  q_new := MkQ false false false None;
  q_add := mem_add;
  q_get q := if k_dirty q && negb (k_processing q) then GotKey (MkQ false true (k_shutting q) (k_waiting q))
             else if k_shutting q then GotShutdown else Blocked;
  q_done q := MkQ (k_dirty q) false (k_shutting q) (k_waiting q);
  q_forget q := q;
  q_add_after := mem_add_after;
  q_add_rate_limited q now := mem_add_after q now 300;
  q_tick := mem_tick;
  q_shutdown q := MkQ (k_dirty q) (k_processing q) true (k_waiting q);
  dirty := k_dirty; processing := k_processing; shutting := k_shutting; waiting := k_waiting
|}.
Next Obligation. done. Qed.
Next Obligation.
  intros q now d. unfold mem_add_after, mem_tick. simpl. by repeat case_match.
Qed.
Next Obligation. done. Qed.
Next Obligation. intros [[] [] [] w]; simpl; intuition. Qed.
Next Obligation. done. Qed.
Next Obligation. done. Qed.
Next Obligation.
  intros q now d _. unfold mem_add_after. destruct (d <=? 0); simpl; [done|]. split_and!; [done..|].
  eexists. split; [done|]. destruct (k_waiting q); lia.
Qed.
Next Obligation. intros q now _. unfold mem_add_after. simpl. split_and!; eauto. Qed.
Next Obligation.
  intros q now _. unfold mem_tick. destruct (k_waiting q) as [t|] eqn:Hw; [|done].
  destruct (t <=? now); [done|]. by rewrite Hw.
Qed.
Next Obligation. done. Qed.

Definition w_settings : settings := MkSettings [] true "" true true 300.
(** A second event arrives while the first is being reconciled. *)
Definition w_actions : list action := [Count (Deleted Nodes); Enqueue; Take; Choose; Count (Deleted Nodes)].
Definition w_state : observer (Q := memQueue) :=
  default (NewStatusInformer 0) (run w_settings w_actions (NewStatusInformer 0)).

Example w_state_phase : (worker w_state, requestedGeneration w_state, adding w_state) = (Reconciling 1, 2, 1%nat).
Proof. vm_eq. Qed.

(** A broker that is not ready postpones; the retry is due after 10 seconds, a
    new event is reconciled at once. *)
Example w_postponed :
  worker <$> run w_settings [Count (Deleted Nodes); Enqueue; Take; Choose; Reconcile (MkBrokerView false []) None; Finish;
                             Tick 9; Take] (NewStatusInformer (Q := memQueue) 0) = None ∧
  worker <$> run w_settings [Count (Deleted Nodes); Enqueue; Take; Choose; Reconcile (MkBrokerView false []) None; Finish;
                             Tick 10; Take; Choose] (NewStatusInformer (Q := memQueue) 0) = Some (Reconciling 1) ∧
  worker <$> run w_settings [Count (Deleted Nodes); Enqueue; Take; Choose; Reconcile (MkBrokerView false []) None; Finish;
                             Count (Deleted Nodes); Enqueue; Take; Choose] (NewStatusInformer (Q := memQueue) 0) =
    Some (Reconciling 2).
Proof. split_and!; vm_eq. Qed.

Lemma w_reachable : reachable w_settings w_state ∧ running w_state.
Proof. split; [exists 0, w_actions; vm_compute; reflexivity|split; reflexivity]. Qed.

Lemma observer_no_lost_event_witness :
  (worker w_state, requestedGeneration w_state) = (Reconciling 1, 2) ∧ (1 < 2 → fresh w_state).
Proof.
  split; [vm_compute; reflexivity|].
  destruct (observer_no_lost_event w_settings w_state (proj1 w_reachable) (proj2 w_reachable)) as (_ & _ & Hw).
  apply Hw.
Defined.

Lemma observer_reconciles_witness :
  ∃ actions st', Forall internal actions ∧ run w_settings actions w_state = Some st' ∧ completedGeneration st' = 2.
Proof. apply (observer_reconciles w_settings w_state (proj1 w_reachable) (proj2 w_reachable)). Defined.

End NodeObserver.
