(* ===== verification/Nautobot.v ===== *)
(** * The Nautobot provider: [pkg/providers/nautobot]

    The provider reads switches and their cables from an inventory server,
    follows cables to switches that the first query did not select, and reduces
    the layered fabric it finds to a tree: switches of one tier that share a
    child are merged, so that every child has one parent. *)

From S2P Require Import Prelude GoStrings Topology.
Open Scope Z_scope.

(** ** Devices

    An interface has a peer, or not; the peer has a device, or not. *)
Inductive device := MkDevice (id name serial : string) (status role : option string)
  (interfaces : list (option (option device))).

Module Nautobot.
Import Topo.

Definition d_ID (d : device) : string := match d with MkDevice id _ _ _ _ _ => id end.
Definition d_Name (d : device) : string := match d with MkDevice _ name _ _ _ _ => name end.
Definition Serial (d : device) : string := match d with MkDevice _ _ serial _ _ _ => serial end.
Definition Status (d : device) : option string := match d with MkDevice _ _ _ status _ _ => status end.
Definition Role (d : device) : option string := match d with MkDevice _ _ _ _ role _ => role end.
Definition Interfaces (d : device) : list (option (option device)) :=
  match d with MkDevice _ _ _ _ _ interfaces => interfaces end.
Definition setSerial (serial : string) (d : device) : device :=
  match d with MkDevice id name _ status role interfaces => MkDevice id name serial status role interfaces end.

(** The devices at the other ends of the cables of [d]. *)
Definition peers (d : device) : list device := omap (λ iface, iface ≫= id) (Interfaces d).

Definition NAME : string := "nautobot".
Definition defaultPageSize : Z := 100.

Record ProviderParams := MkParams {
  Endpoint : string;
  Location : list string;
  Platform : list string;
  DeviceRole : list string;
  SwitchRoles : list string;
  ExcludeStatuses : list string;
  TrimTiers : Z
}.

(** ** Parameters *)

(** What [url.Parse] returns. *)
Record URL := MkURL {
  Scheme : string;
  User : bool;
  Host : string;
  Path : string;
  RawQuery : string;
  Fragment : string
}.

Inductive loaderErr :=
| ErrBadParams (msg : string)
| ErrBadEndpoint
| ErrNoDeviceRole
| ErrNoSwitchRole
| ErrBlankDeviceRole
| ErrBadSwitchRole
| ErrNegativeTrim
| ErrBadToken.

(** [strings.TrimRight(s, "/")]. *)
Fixpoint trimSlash (s : string) : string :=
  match s with
  | "" => ""
  | String c r => match trimSlash r with
                  | "" => if decide (c = "/"%char) then "" else String c ""
                  | r' => String c r'
                  end
  end.

Definition has_suffix (suffix s : string) : bool :=
  let n := String.length s in let m := String.length suffix in
  (m <=? n)%nat && bool_decide (String.substring (n - m) m s = suffix).

Definition graphqlPath (path : string) : string :=
  if has_suffix "/api/graphql" (trimSlash path) then trimSlash path +:+ "/"
  else trimSlash path +:+ "/api/graphql/".

Definition checkRoles (deviceRoles switchRoles : list string) : result loaderErr () :=
  if decide (deviceRoles = []) then Err ErrNoDeviceRole
  else if decide (switchRoles = []) then Err ErrNoSwitchRole
  else
    roles ← foldM (λ (roles : gmap string bool) role,
              if decide (trim_space role = "") then Err ErrBlankDeviceRole else Ok (<[role := true]> roles))
              ∅ deviceRoles;
    foldM (λ (_ : ()) role,
      if bool_decide (trim_space role = "") || default false (roles !! role) then Err ErrBadSwitchRole else Ok ())
      () switchRoles.

(** [decoded]: what decoding the parameters gives; [configured]: whether they
    name [excludeStatuses]; [parse] and [print]: [url.Parse] and [URL.String];
    [token]: the credential, when it is a string. *)
Definition Loader (parse : string → option URL) (print : URL → string)
    (decoded : result string ProviderParams) (configured : bool) (token : option string) :
    result loaderErr (ProviderParams * string) :=
  params ← map_err ErrBadParams decoded;
  let excludeStatuses := if configured then ExcludeStatuses params else ["Deleted"] in
  match parse (Endpoint params) with
  | None => Err ErrBadEndpoint
  | Some u =>
      if bool_decide (Host u = "") || (negb (bool_decide (Scheme u = "https")) && negb (bool_decide (Scheme u = "http"))) ||
         User u || negb (bool_decide (RawQuery u = "")) || negb (bool_decide (Fragment u = ""))
      then Err ErrBadEndpoint
      else
        let u := MkURL (Scheme u) (User u) (Host u) (graphqlPath (Path u)) (RawQuery u) (Fragment u) in
        _ ← checkRoles (DeviceRole params) (SwitchRoles params);
        if TrimTiers params <? 0 then Err ErrNegativeTrim
        else match token with
             | None => Err ErrBadToken
             | Some token =>
                 if bool_decide (trim_space token = "") || contains_chr "013"%char token || contains_chr nl token
                 then Err ErrBadToken
                 else Ok (MkParams (print u) (Location params) (Platform params) (DeviceRole params)
                            (SwitchRoles params) excludeStatuses (TrimTiers params), token)
             end
  end.

Section Provider.
Context (params : ProviderParams).

Definition hasRole (d : device) (roles : list string) : bool :=
  match Role d with Some role => bool_decide (role ∈ roles) | None => false end.

Definition excluded (d : device) : bool :=
  match Status d with Some status => bool_decide (status ∈ ExcludeStatuses params) | None => false end.

(** ** The inventory server

    [W] is the state of the world; a request may change it. *)

Inductive httpErr :=
| ErrPage (msg : string)
| ErrDuplicateID (id : string)
| ErrBadSeed
| ErrCancelled
| ErrUnexpectedSwitch
| ErrOmittedSwitches
| ErrBadPeer
| ErrConflictingPeers.

(** The text of a query; [marshal] is [json.Marshal] of a list of strings. *)
Definition deviceQuery (marshal : list string → string) (ids : option (list string)) (limit offset : Z) : string :=
  let locations := match ids with Some _ => [] | None => Location params end in
  let platforms := match ids with Some _ => [] | None => Platform params end in
  let filters := foldl (λ filters '(key, values),
      if decide (values = []) then filters else filters ++ [key +:+ ": " +:+ marshal values])
    ["limit: " +:+ itoa limit; "offset: " +:+ itoa offset]
    [("location", locations); ("platform", platforms); ("role", SwitchRoles params);
     ("status__n", ExcludeStatuses params); ("id", default [] ids)] in
  "query { devices(" +:+ join ", " filters +:+ ") {" +:+ newline +:+
  "  id name serial status { name } role { name }" +:+ newline +:+
  "  interfaces(has_cable: true) {" +:+ newline +:+
  "    cable_peer_interface { device { id name serial status { name } role { name } } }" +:+ newline +:+
  "  }" +:+ newline +:+ "} }".

Section Discovery.
Context {W : Type}.
(** One request, and whether the context is done. *)
Context (devicePage : W → option (list string) → Z → Z → result string (list device) * W) (done : W → bool).

(** The devices of one page; [seen] are the identities of earlier ones. *)
Definition addDevice (acc : list device * gmap string bool) (d : device) :
    result httpErr (list device * gmap string bool) :=
  let '(devices, seen) := acc in
  if bool_decide (d_ID d = "") || bool_decide (d_Name d = "") then Ok acc
  else if default false (seen !! d_ID d) then Err (ErrDuplicateID (d_ID d))
  else Ok (devices ++ [d], <[d_ID d := true]> seen).

(** [None]: more than [fuel] pages. *)
Fixpoint pageLoop (fuel : nat) (w : W) (ids : option (list string)) (limit offset : Z)
    (acc : list device * gmap string bool) : option (result httpErr (list device) * W) :=
  match fuel with
  | O => None
  | S fuel =>
      let '(page, w) := devicePage w ids limit offset in
      match page with
      | Err msg => Some (Err (ErrPage msg), w)
      | Ok page =>
          match foldM addDevice acc page with
          | Err e => Some (Err e, w)
          | Ok acc =>
              let n := Z.of_nat (length page) in
              if (n <? limit) || match ids with
                                 | Some ids => Z.of_nat (length ids) <=? Z.of_nat (length acc.1)
                                 | None => false
                                 end
              then Some (Ok acc.1, w)
              else pageLoop fuel w ids limit (offset + n) acc
          end
      end
  end.

Definition devices (fuel : nat) (w : W) (ids : option (list string)) (limit : Z) :
    option (result httpErr (list device) * W) :=
  pageLoop fuel w ids limit 0 ([], ∅).

(** The state of [discover]: the switches found, the identities that are found
    or scheduled, and those still to be fetched. *)
Record discovery := MkDiscovery {
  found : list device;
  scheduled : gmap string bool;
  frontier : list string
}.

Definition isScheduled (st : discovery) (id : string) : bool := default false (scheduled st !! id).

Definition addPeer (st : discovery) (peer : device) : discovery :=
  if bool_decide (d_ID peer = "") || bool_decide (d_Name peer = "") || excluded peer ||
     negb (hasRole peer (SwitchRoles params)) || isScheduled st (d_ID peer)
  then st
  else MkDiscovery (found st) (<[d_ID peer := true]> (scheduled st)) (frontier st ++ [d_ID peer]).

Definition addPeers (st : discovery) (d : device) : discovery := foldl addPeer st (peers d).

Definition addSeed (st : discovery) (seed : device) : result httpErr discovery :=
  if excluded seed then Ok st
  else if bool_decide (d_ID seed = "") || bool_decide (d_Name seed = "") ||
          negb (hasRole seed (SwitchRoles params)) || isScheduled st (d_ID seed)
  then Err ErrBadSeed
  else Ok (MkDiscovery (found st ++ [seed]) (<[d_ID seed := true]> (scheduled st)) (frontier st)).

(** One switch of a batch; [pending] are the requested ones still missing. *)
Definition addSwitch (acc : discovery * gmap string bool) (sw : device) :
    result httpErr (discovery * gmap string bool) :=
  let '(st, pending) := acc in
  if negb (default false (pending !! d_ID sw)) || bool_decide (d_Name sw = "") || excluded sw ||
     negb (hasRole sw (SwitchRoles params))
  then Err ErrUnexpectedSwitch
  else Ok (addPeers (MkDiscovery (found st ++ [sw]) (scheduled st) (frontier st)) sw, delete (d_ID sw) pending).

Definition pendingOf (batch : list string) : gmap string bool :=
  foldl (λ pending id, <[id := true]> pending) ∅ batch.

(** The loop over the frontier, at most [fuel] batches of at most [pages]
    pages. *)
Fixpoint expand (fuel pages : nat) (w : W) (batchSize : Z) (st : discovery) :
    option (result httpErr discovery * W) :=
  match frontier st with
  | [] => Some (Ok st, w)
  | _ =>
      match fuel with
      | O => None
      | S fuel =>
          let sorted := sort_strings (frontier st) in
          let n := Z.to_nat (Z.min batchSize (Z.of_nat (length sorted))) in
          let batch := take n sorted in
          let st := MkDiscovery (found st) (scheduled st) (drop n sorted) in
          if done w then Some (Err ErrCancelled, w)
          else match devices pages w (Some batch) batchSize with
          | None => None
          | Some (Err e, w) => Some (Err e, w)
          | Some (Ok switches, w) =>
              match foldM addSwitch (st, pendingOf batch) switches with
              | Err e => Some (Err e, w)
              | Ok (st, pending) =>
                  if decide (pending = ∅) then expand fuel pages w batchSize st else Some (Err ErrOmittedSwitches, w)
              end
          end
      end
  end.

(** One peer of a switch: a compute endpoint is kept. *)
Definition addHost (scheduled : gmap string bool) (hosts : gmap string device) (peer : device) :
    result httpErr (gmap string device) :=
  if excluded peer || negb (hasRole peer (DeviceRole params)) then Ok hosts
  else if bool_decide (d_ID peer = "") || bool_decide (d_Name peer = "") || default false (scheduled !! d_ID peer)
  then Err ErrBadPeer
  else match hosts !! d_ID peer with
       | None => Ok (<[d_ID peer := peer]> hosts)
       | Some previous =>
           if negb (bool_decide (d_Name previous = d_Name peer)) ||
              (negb (bool_decide (Serial previous = "")) && negb (bool_decide (Serial peer = "")) &&
               negb (bool_decide (Serial previous = Serial peer)))
           then Err ErrConflictingPeers
           else Ok (<[d_ID peer := if decide (Serial peer = "") then setSerial (Serial previous) peer else peer]> hosts)
       end.

Definition addHosts (scheduled : gmap string bool) (hosts : gmap string device) (sw : device) :=
  foldM (addHost scheduled) hosts (peers sw).

Definition batchSizeOf (pageSize : option Z) : Z :=
  match pageSize with
  | Some n => if 0 <? n then n else defaultPageSize
  | None => defaultPageSize
  end.

Definition discover (fuel pages : nat) (w : W) (pageSize : option Z) : option (result httpErr (list device) * W) :=
  let batchSize := batchSizeOf pageSize in
  match devices pages w None batchSize with
  | None => None
  | Some (Err e, w) => Some (Err e, w)
  | Some (Ok seeds, w) =>
      match foldM addSeed (MkDiscovery [] ∅ []) seeds with
      | Err e => Some (Err e, w)
      | Ok st =>
          match expand fuel pages w batchSize (foldl addPeers st (found st)) with
          | None => None
          | Some (Err e, w) => Some (Err e, w)
          | Some (Ok st, w) =>
              Some (match foldM (addHosts (scheduled st)) ∅ (found st) with
                    | Err e => Err e
                    | Ok hosts => Ok (found st ++ omap (λ id, hosts !! id) (sorted_keys hosts))
                    end, w)
          end
      end
  end.
End Discovery.

(** ** The inventory *)

Record inventory := MkInventory {
  switches : gmap string device;
  hosts : gmap string device;
  links : gmap string (gmap string bool)
}.

Inductive inventoryErr :=
| ErrNoIdentity
| ErrDuplicateDevice (id : string)
| ErrDuplicateSwitchName (name previous id : string).

Record known := MkKnown {
  k_devices : gmap string device;
  k_names : gmap string string;
  k_switches : gmap string device;
  k_hosts : gmap string device
}.

Definition addKnown (k : known) (d : device) : result inventoryErr known :=
  if excluded d then Ok k
  else if bool_decide (d_ID d = "") || bool_decide (d_Name d = "") then Err ErrNoIdentity
  else if decide (is_Some (k_devices k !! d_ID d)) then Err (ErrDuplicateDevice (d_ID d))
  else if hasRole d (DeviceRole params) then
    Ok (MkKnown (<[d_ID d := d]> (k_devices k)) (k_names k) (k_switches k) (<[d_ID d := d]> (k_hosts k)))
  else if hasRole d (SwitchRoles params) then
    match k_names k !! d_Name d with
    | Some previous => Err (ErrDuplicateSwitchName (d_Name d) previous (d_ID d))
    | None => Ok (MkKnown (<[d_ID d := d]> (k_devices k)) (<[d_Name d := d_ID d]> (k_names k))
                    (<[d_ID d := d]> (k_switches k)) (k_hosts k))
    end
  else Ok k.

Definition neighbours (links : gmap string (gmap string bool)) (id : string) : gmap string bool :=
  default ∅ (links !! id).

Definition addEdge (links : gmap string (gmap string bool)) (a b : string) : gmap string (gmap string bool) :=
  <[a := <[b := true]> (neighbours links a)]> links.

Definition addLink (k : known) (d : device) (links : gmap string (gmap string bool)) (peer : device) :
    gmap string (gmap string bool) :=
  if bool_decide (k_devices k !! d_ID peer = None) || bool_decide (d_ID peer = d_ID d) || excluded peer then links
  else if bool_decide (is_Some (k_hosts k !! d_ID d)) && bool_decide (is_Some (k_hosts k !! d_ID peer)) then links
  else addEdge (addEdge links (d_ID d) (d_ID peer)) (d_ID peer) (d_ID d).

Section Range.
Context `{RangeOrder}.

Definition inventoryOf (devices : list device) : result inventoryErr inventory :=
  k ← foldM addKnown (MkKnown ∅ ∅ ∅ ∅) devices;
  Ok (MkInventory (k_switches k) (k_hosts k)
        (foldl (λ links kv, foldl (addLink k kv.2) links (peers kv.2)) ∅ (range (k_devices k)))).

(** ** Depths *)

Record bfs := MkBfs { depth : gmap string nat; queue : list string }.

(** [if !seen { depth[id] = d; queue = append(queue, id) }]. *)
Definition enqueue (d : nat) (st : bfs) (id : string) : bfs :=
  match depth st !! id with
  | Some _ => st
  | None => MkBfs (<[id := d]> (depth st)) (queue st ++ [id])
  end.

Definition startQueue (inv : inventory) : bfs :=
  foldl (λ st host, foldl (enqueue 0) st (range (neighbours (links inv) host.1)).*1) (MkBfs ∅ []) (range (hosts inv)).

(** [layers[d] = append(layers[d], id)], after growing [layers] by one when
    [d] is its length; [d] is never beyond that. *)
Definition addToLayer (layers : list (list string)) (d : nat) (id : string) : list (list string) :=
  alter (λ layer, layer ++ [id]) d (if (length layers <=? d)%nat then layers ++ [[]] else layers).

(** The loop over the queue from [offset] on. *)
Fixpoint bfsLoop (fuel : nat) (inv : inventory) (offset : nat) (st : bfs) (layers : list (list string)) :
    option (bfs * list (list string)) :=
  match queue st !! offset with
  | None => Some (st, layers)
  | Some id =>
      match fuel with
      | O => None
      | S fuel =>
          let d := default 0%nat (depth st !! id) in
          let st := foldl (λ st peer, match switches inv !! peer with
                                      | None => st
                                      | Some _ => enqueue (S d) st peer
                                      end) st (range (neighbours (links inv) id)).*1 in
          bfsLoop fuel inv (S offset) st (addToLayer layers d id)
      end
  end.

(** Every switch enters the queue at most once. *)
Definition switchDepths (inv : inventory) : option (gmap string nat * list (list string)) :=
  match bfsLoop (size (switches inv)) inv 0 (startQueue inv) [] with
  | None => None
  | Some (st, layers) => Some (depth st, sort_strings <$> layers)
  end.

(** ** Merging a layer *)

(** [find] with path compression: the root, and the compressed map. *)
Fixpoint find (fuel : nat) (rep : gmap string string) (id : string) : option (gmap string string * string) :=
  let parent := default "" (rep !! id) in
  if decide (parent = id) then Some (rep, id)
  else match fuel with
  | O => None
  | S fuel =>
      '(rep, root) ← find fuel rep parent;
      Some (<[id := root]> rep, root)
  end.

(** State of one round: representatives and the first parent of each child. *)
Record merging := MkMerging { rep : gmap string string; children : gmap string string }.

(** A child of the switch [id] of the layer. *)
Definition mergeChild (fuel : nat) (id : string) (st : merging) (child : string) : option merging :=
  match children st !! child with
  | None => Some (MkMerging (rep st) (<[child := id]> (children st)))
  | Some previous =>
      '(rep, a) ← find fuel (rep st) id;
      '(rep, b) ← find fuel rep previous;
      let '(a, b) := if String.ltb b a then (b, a) else (a, b) in
      Some (MkMerging (<[b := a]> rep) (children st))
  end.

(** One peer of the switch [id]. *)
Definition mergePeer (fuel : nat) (inv : inventory) (depth : gmap string nat) (level : nat)
    (groups : gmap string string) (id : string) (st : merging) (peer : string) : option merging :=
  let host := bool_decide (is_Some (hosts inv !! peer)) in
  if negb host && negb (bool_decide (Z.of_nat (default 0%nat (depth !! peer)) = Z.of_nat level - 1)) then Some st
  else if host && negb (level =? 0)%nat then Some st
  else mergeChild fuel id st (default "" (groups !! peer)).

Definition mergeSwitch (fuel : nat) (inv : inventory) (depth : gmap string nat) (level : nat)
    (groups : gmap string string) (st : merging) (id : string) : option merging :=
  foldO (mergePeer fuel inv depth level groups id) st (range (neighbours (links inv) id)).*1.

(** [m[key] = find(id)] for the pairs of a list. *)
Definition recordRoots (fuel : nat) (acc : gmap string string * gmap string string) (kv : string * string) :
    option (gmap string string * gmap string string) :=
  let '(rep, m) := acc in
  '(rep, root) ← find fuel rep kv.2;
  Some (rep, <[kv.1 := root]> m).

Definition mergeLayer (inv : inventory) (depth : gmap string nat)
    (acc : gmap string string * gmap string string) (level : nat) (layer : list string) :
    option (gmap string string * gmap string string) :=
  let '(groups, parents) := acc in
  let fuel := length layer in
  let representative := foldl (λ rep id, <[id := id]> rep) ∅ layer in
  st ← foldO (mergeSwitch fuel inv depth level groups) (MkMerging representative ∅) layer;
  '(rep, groups) ← foldO (recordRoots fuel) (rep st, groups) ((λ id, (id, id)) <$> layer);
  '(rep, parents) ← foldO (recordRoots fuel) (rep, parents) (range (children st));
  Some (groups, parents).

Fixpoint mergeLayers (inv : inventory) (depth : gmap string nat) (acc : gmap string string * gmap string string)
    (level : nat) (layers : list (list string)) : option (gmap string string * gmap string string) :=
  match layers with
  | [] => Some acc
  | layer :: rest =>
      acc ← mergeLayer inv depth acc level layer;
      mergeLayers inv depth acc (S level) rest
  end.

Definition hierarchy (inv : inventory) : option (gmap string string * gmap string string) :=
  '(depth, layers) ← switchDepths inv;
  mergeLayers inv depth (map_imap (λ host _, Some host) (hosts inv), ∅) 0 layers.

(** ** The topology *)

Definition addAlias (id : string) (aliases : gmap string string) (alias : string) : gmap string string :=
  if decide (alias = "") then aliases
  else match aliases !! alias with
       | None => <[alias := id]> aliases
       | Some previous => if decide (previous = id) then aliases else <[alias := ""]> aliases
       end.

Definition aliasesOf (inv : inventory) : gmap string string :=
  foldl (λ aliases kv, foldl (addAlias kv.1) aliases [kv.1; d_Name kv.2; Serial kv.2]) ∅ (range (hosts inv)).

(** The chain of parents above [id]. *)
Fixpoint ancestors (fuel : nat) (parents : gmap string string) (id : string) : option (list string) :=
  let parent := default "" (parents !! id) in
  if decide (parent = "") then Some []
  else match fuel with
  | O => None
  | S fuel => ids ← ancestors fuel parents parent; Some (parent :: ids)
  end.

Definition nameOf (inv : inventory) (id : string) : string :=
  match switches inv !! id with Some d => d_Name d | None => "" end.

(** One requested instance. *)
Definition addRequested (inv : inventory) (parents aliases : gmap string string)
    (acc : ClusterTopology * gmap string bool) (instanceID : string) : option (ClusterTopology * gmap string bool) :=
  let '(cluster, seen) := acc in
  if default false (seen !! instanceID) then Some acc
  else
    let seen := <[instanceID := true]> seen in
    let hostID := default "" (aliases !! instanceID) in
    if decide (hostID = "") then Some (cluster, seen)
    else
      ids ← ancestors (size (switches inv)) parents hostID;
      if decide (ids = []) then Some (cluster, seen)
      else Some (Append cluster (MkInst instanceID ((λ id, MkTier id (nameOf inv id)) <$> ids) "" ""
                                   (Some (MkInstance instanceID [] None []))), seen).

Definition buildTopology (devices : list device) (requested : list ComputeInstances) :
    option (result inventoryErr ClusterTopology) :=
  match inventoryOf devices with
  | Err e => Some (Err e)
  | Ok inv =>
      '(_, parents) ← hierarchy inv;
      let aliases := aliasesOf inv in
      '(cluster, _) ← foldO (λ acc region, foldO (addRequested inv parents aliases) acc (range (ci_Instances region)).*1)
                        (NewClusterTopology, ∅) requested;
      Some (Ok cluster)
  end.

(** ** The provider *)

Definition GenerateTopologyConfig {W} (devicePage : W → option (list string) → Z → Z → result string (list device) * W)
    (done : W → bool) (fuel pages : nat) (w : W) (pageSize : option Z) (instances : list ComputeInstances) :
    option (result (httpErr + inventoryErr) Graph * W) :=
  match discover devicePage done fuel pages w pageSize with
  | None => None
  | Some (Err e, w) => Some (Err (inl e), w)
  | Some (Ok devices, w) =>
      match buildTopology devices instances with
      | None => None
      | Some (Err e) => Some (Err (inr e), w)
      | Some (Ok cluster) =>
          g ← ToGraph cluster instances (TrimTiers params) false;
          Some (Ok g, w)
      end
  end.
End Range.
End Provider.
End Nautobot.
