(* ===== verification/NautobotDiscovery.v ===== *)
(** * Discovery of the Nautobot provider

    The search that starts from the selected switches and follows cables finds,
    from a server that answers consistently, exactly the switches that can be
    reached, asks for each of them once, and ends. *)

From S2P Require Import Prelude GoStrings Topology Nautobot.
Open Scope Z_scope.

Module NautobotDiscovery.
Import Nautobot.

(** ** A server that repeats itself

    Pages full of devices without a name never end the loop over the pages: the
    check for duplicates, meant to stop a server that ignores the offset, skips
    such devices. *)
Lemma nameless_page_skipped l acc : Forall (λ d, d_ID d = "" ∨ d_Name d = "") l → foldM addDevice acc l = Ok acc.
Proof.
  induction 1 as [|d l Hd _ IH]; [done|]. cbn [foldM]. unfold addDevice at 1. destruct acc as [devices seen].
  destruct Hd as [Hd|Hd]; rewrite Hd; cbn; [exact IH|]. by rewrite orb_true_r.
Qed.

Theorem nameless_pages_diverge {W} (w : W) (page : list device) (limit : Z) fuel offset :
  Forall (λ d, d_ID d = "" ∨ d_Name d = "") page → limit ≤ Z.of_nat (length page) →
  pageLoop (λ w _ _ _, (Ok page, w)) fuel w None limit offset ([], ∅) = None.
Proof.
  intros Hp Hl. revert offset. induction fuel as [|fuel IH]; intros offset; [done|]. cbn [pageLoop].
  rewrite nameless_page_skipped by done. rewrite (proj2 (Z.ltb_ge _ _)) by done. apply IH.
Qed.

Example nameless_pages_example : let d := MkDevice "id" "" "" None None [] in
  pageLoop (λ w _ _ _, (Ok [d; d], w)) 1000 () None 2 0 ([], ∅) = None.
Proof. apply nameless_pages_diverge; [by repeat constructor; right|done]. Qed.

(** ** A consistent server *)

Section Snapshot.
Context (params : ProviderParams) {W : Type}.
(** The switches of the inventory, and those that the first query selects. *)
Context (snapshot : list device) (selected : device → bool).

Definition switchPeer (p : device) : Prop :=
  d_ID p ≠ "" ∧ d_Name p ≠ "" ∧ excluded params p = false ∧ hasRole p (SwitchRoles params) = true.
Definition hostPeer (p : device) : Prop := excluded params p = false ∧ hasRole p (DeviceRole params) = true.

#[local] Instance switchPeer_dec p : Decision (switchPeer p).
Proof. unfold switchPeer. apply _. Defined.

(** What a consistent inventory is. *)
Record consistent : Prop := {
  c_ids : NoDup (d_ID <$> snapshot);
  c_switches : ∀ d, d ∈ snapshot → switchPeer d;
  c_peers : ∀ d p, d ∈ snapshot → p ∈ peers d → switchPeer p → d_ID p ∈ d_ID <$> snapshot;
  c_hosts : ∀ d p, d ∈ snapshot → p ∈ peers d → hostPeer p → d_ID p ≠ "" ∧ d_Name p ≠ "" ∧ d_ID p ∉ d_ID <$> snapshot;
  c_same : ∀ d1 p1 d2 p2, d1 ∈ snapshot → p1 ∈ peers d1 → hostPeer p1 → d2 ∈ snapshot → p2 ∈ peers d2 → hostPeer p2 →
    d_ID p1 = d_ID p2 → d_Name p1 = d_Name p2 ∧ (Serial p1 = "" ∨ Serial p2 = "" ∨ Serial p1 = Serial p2)
}.

Definition answer (ids : option (list string)) : list device :=
  match ids with
  | None => filter (λ d, selected d = true) snapshot
  | Some ids => filter (λ d, d_ID d ∈ ids) snapshot
  end.

Definition snapshotPage (w : W) (ids : option (list string)) (limit offset : Z) : result string (list device) * W :=
  (Ok (take (Z.to_nat limit) (drop (Z.to_nat offset) (answer ids))), w).

Context (Hc : consistent).

Lemma answer_sub ids d : d ∈ answer ids → d ∈ snapshot.
Proof. destruct ids; simpl; intros [_ ?]%list_elem_of_filter; done. Qed.

Lemma answer_ids ids : NoDup (d_ID <$> answer ids).
Proof.
  assert (Hsub : ∀ (P : device → Prop) `{∀ d, Decision (P d)}, NoDup (d_ID <$> filter P snapshot)).
  { intros P HP. pose proof (c_ids Hc) as Hnd. revert Hnd. clear Hc. induction snapshot as [|d l IH]; [done|].
    rewrite fmap_cons. intros [Hd Hl]%NoDup_cons. rewrite filter_cons. case_decide; [|by apply IH].
    rewrite fmap_cons. apply NoDup_cons. split; [|by apply IH].
    intros (x & Hx & [_ Hin]%list_elem_of_filter)%list_elem_of_fmap. apply Hd, list_elem_of_fmap. eauto. }
  destruct ids; apply Hsub.
Qed.

(** ** All pages are collected *)

Lemma addDevices_new l : ∀ devices seen, (∀ d, d ∈ l → d_ID d ≠ "" ∧ d_Name d ≠ "") →
  NoDup (d_ID <$> l) → (∀ id, id ∈ d_ID <$> l → default false (seen !! id) = false) →
  ∃ seen', foldM addDevice (devices, seen) l = Ok (devices ++ l, seen') ∧
    ∀ id, default false (seen' !! id) = bool_decide (id ∈ d_ID <$> l) || default false (seen !! id).
Proof.
  induction l as [|d l IH]; intros devices seen Hne Hnd Hnew.
  { exists seen. rewrite app_nil_r. split; [done|]. intros id. by rewrite bool_decide_false by set_solver. }
  rewrite fmap_cons in Hnd, Hnew. apply NoDup_cons in Hnd as [Hd Hnd]. destruct (Hne d) as [H1 H2]; [by left|].
  cbn [foldM]. unfold addDevice at 1. rewrite !bool_decide_false by done. cbn [orb].
  rewrite Hnew by (by left).
  destruct (IH (devices ++ [d]) (<[d_ID d := true]> seen)) as (seen' & -> & Hs).
  - intros x Hx. apply Hne. by right.
  - done.
  - intros id Hid. rewrite lookup_insert_ne by (intros Heq; apply Hd; by rewrite Heq). apply Hnew. by right.
  - exists seen'. rewrite <-app_assoc. split; [done|]. intros id. rewrite Hs, fmap_cons.
    destruct (decide (id = d_ID d)) as [->|Hne'].
    + rewrite lookup_insert_eq, orb_true_r. symmetry. apply orb_true_iff. left. apply bool_decide_true. by left.
    + rewrite lookup_insert_ne by done. f_equal. apply bool_decide_ext. set_solver.
Qed.

Lemma pageLoop_snapshot ids limit w : 0 < limit →
  (∀ batch, ids = Some batch → (length (answer ids) <= length batch)%nat) →
  ∀ fuel offset seen, (offset <= length (answer ids) < fuel + offset)%nat →
  (∀ id, default false (seen !! id) = bool_decide (id ∈ d_ID <$> take offset (answer ids))) →
  pageLoop snapshotPage fuel w ids limit (Z.of_nat offset) (take offset (answer ids), seen) = Some (Ok (answer ids), w).
Proof.
  intros Hlimit Hbatch. set (all := answer ids) in *.
  assert (Hall : ∀ d, d ∈ all → d_ID d ≠ "" ∧ d_Name d ≠ "").
  { intros d Hd%answer_sub. destruct (c_switches Hc d Hd) as (? & ? & _). done. }
  pose proof (answer_ids ids) as Hnd. fold all in Hnd.
  induction fuel as [|fuel IH]; intros offset seen Hfuel Hseen; [lia|]. cbn [pageLoop]. unfold snapshotPage at 1. fold all.
  rewrite Nat2Z.id. set (page := take (Z.to_nat limit) (drop offset all)).
  assert (Hsplit : take offset all ++ page = take (offset + length page) all).
  { unfold page. rewrite <-(take_take_drop all offset). f_equal.
    rewrite length_take, length_drop. destruct (decide (Z.to_nat limit <= length all - offset)%nat).
    - by rewrite Nat.min_l.
    - rewrite Nat.min_r by lia. rewrite (take_ge _ (Z.to_nat limit)) by (rewrite length_drop; lia).
      by rewrite take_ge by (rewrite length_drop; lia). }
  assert (Hpage : ∀ d, d ∈ page → d ∈ drop offset all).
  { intros d (i & Hi & _)%elem_of_take. by eapply list_elem_of_lookup_2. }
  assert (Hpnd : NoDup (d_ID <$> (take offset all ++ page))).
  { rewrite Hsplit. rewrite <-(take_drop (offset + length page) all), fmap_app in Hnd. by apply NoDup_app in Hnd as (? & _ & _). }
  rewrite fmap_app in Hpnd. apply NoDup_app in Hpnd as (_ & Hdis & Hpnd).
  destruct (addDevices_new page (take offset all) seen) as (seen' & -> & Hs).
  - intros d Hd. apply Hall. rewrite <-(take_drop offset all). apply elem_of_app. right. by apply Hpage.
  - done.
  - intros id Hid. rewrite Hseen. apply bool_decide_false. intros Hin. by apply (Hdis id).
  - assert (Hlen : (offset + length page <= length all)%nat).
    { unfold page. rewrite length_take, length_drop. lia. }
    assert (Hdone : (length page < Z.to_nat limit)%nat → take offset all ++ page = all).
    { intros Hlt. rewrite Hsplit. apply take_ge. unfold page in *. rewrite length_take, length_drop in *. lia. }
    cbn [fst]. destruct (Z.ltb_spec (Z.of_nat (length page)) limit) as [Hlt|Hge]; cbn [orb].
    { by rewrite Hdone by lia. }
    assert (Hstop : ∀ b : bool, (b = true → take offset all ++ page = all) →
      (if b then Some (Ok (take offset all ++ page), w)
       else pageLoop snapshotPage fuel w ids limit (Z.of_nat offset + Z.of_nat (length page)) (take offset all ++ page, seen')) =
      Some (Ok all, w)).
    { intros [] Hb; [by rewrite Hb|]. rewrite Hsplit, <-Nat2Z.inj_add. apply IH; [lia|].
      intros id. rewrite Hs, Hseen, <-Hsplit, fmap_app. unfold bool_decide. repeat case_decide; set_solver. }
    apply Hstop. destruct ids as [batch|]; [|done]. intros Hle%Z.leb_le. specialize (Hbatch _ eq_refl).
    rewrite Hsplit in *. rewrite length_take in Hle. apply take_ge. lia.
Qed.

Lemma devices_snapshot pages w ids limit : 0 < limit → (length snapshot < pages)%nat →
  (∀ batch, ids = Some batch → (length (answer ids) <= length batch)%nat) →
  devices snapshotPage pages w ids limit = Some (Ok (answer ids), w).
Proof.
  intros Hlimit Hpages Hbatch. unfold devices. change 0 with (Z.of_nat 0). change (@nil device) with (take 0 (answer ids)).
  apply pageLoop_snapshot; [done|done| |].
  - split; [lia|]. assert (length (answer ids) <= length snapshot)%nat; [|lia].
    destruct ids; apply length_filter.
  - intros id. rewrite lookup_empty. done.
Qed.

(** ** The search *)

(** A switch that cables lead to from a selected one. *)
Inductive reached : string → Prop :=
| reached_seed d : d ∈ snapshot → selected d = true → reached (d_ID d)
| reached_cable d p : d ∈ snapshot → reached (d_ID d) → p ∈ peers d → switchPeer p → reached (d_ID p).

Definition ids (todo : list string) (st : discovery) : list string := (d_ID <$> found st) ++ todo ++ frontier st.

(** The state of the search while the switches [todo] of a batch are missing. *)
Record searching (todo : list string) (st : discovery) : Prop := {
  i_found : ∀ d, d ∈ found st → d ∈ snapshot;
  i_nodup : NoDup (ids todo st);
  i_scheduled : ∀ id, isScheduled st id = true ↔ id ∈ ids todo st;
  i_reached : ∀ id, id ∈ ids todo st → reached id ∧ id ∈ d_ID <$> snapshot;
  i_seeds : ∀ d, d ∈ snapshot → selected d = true → d_ID d ∈ ids todo st
}.

Definition closed (todo : list string) (st : discovery) (d : device) : Prop :=
  ∀ p, p ∈ peers d → switchPeer p → d_ID p ∈ ids todo st.

Lemma addPeer_skip st p : ¬ switchPeer p ∨ isScheduled st (d_ID p) = true → addPeer params st p = st.
Proof.
  unfold addPeer, switchPeer. intros Hp.
  destruct (bool_decide_reflect (d_ID p = "")); [done|]. destruct (bool_decide_reflect (d_Name p = "")); [done|]. cbn [orb].
  destruct (excluded params p); [done|]. cbn [orb]. destruct (hasRole p (SwitchRoles params)); [|done]. cbn [orb negb].
  destruct Hp as [Hp| ->]; [|done]. destruct Hp. done.
Qed.

Lemma addPeer_new st p : switchPeer p → isScheduled st (d_ID p) = false →
  addPeer params st p = MkDiscovery (found st) (<[d_ID p := true]> (scheduled st)) (frontier st ++ [d_ID p]).
Proof.
  intros (H1 & H2 & H3 & H4) Hs. unfold addPeer. by rewrite !bool_decide_false, H3, H4, Hs.
Qed.

Lemma addPeers_spec todo d ps : ∀ st, searching todo st → d ∈ snapshot → reached (d_ID d) → (∀ p, p ∈ ps → p ∈ peers d) →
  searching todo (foldl (addPeer params) st ps) ∧ found (foldl (addPeer params) st ps) = found st ∧
  ids todo st ⊆ ids todo (foldl (addPeer params) st ps) ∧
  ∀ p, p ∈ ps → switchPeer p → d_ID p ∈ ids todo (foldl (addPeer params) st ps).
Proof.
  induction ps as [|p ps IH]; intros st Hs Hd Hr Hps; cbn [foldl]; [split_and!; [done..|set_solver]|].
  assert (Hcases : (addPeer params st p = st ∧ (switchPeer p → d_ID p ∈ ids todo st)) ∨
    (switchPeer p ∧ isScheduled st (d_ID p) = false)).
  { destruct (decide (switchPeer p)) as [Hp|Hp]; [|left; split; [apply addPeer_skip; by left|done]].
    destruct (isScheduled st (d_ID p)) eqn:E; [left|by right]. split; [apply addPeer_skip; by right|].
    intros _. by apply (i_scheduled _ _ Hs). }
  destruct Hcases as [[-> Hin]|[Hp Hnew]].
  - destruct (IH st Hs Hd Hr) as (H1 & H2 & H3 & H4); [intros; apply Hps; by right|]. split_and!; [done..|].
    intros q [->|Hq]%elem_of_cons Hsq; [by apply H3, Hin|by apply H4].
  - rewrite addPeer_new by done.
    set (st1 := MkDiscovery (found st) (<[d_ID p := true]> (scheduled st)) (frontier st ++ [d_ID p])).
    assert (Hids : ∀ id, id ∈ ids todo st1 ↔ id ∈ ids todo st ∨ id = d_ID p).
    { intros id. unfold ids, st1. cbn [found frontier]. rewrite !elem_of_app, list_elem_of_singleton. tauto. }
    assert (Hs1 : searching todo st1).
    { assert (Hno : d_ID p ∉ ids todo st) by (rewrite <-(i_scheduled _ _ Hs); by rewrite Hnew). split.
      - apply (i_found _ _ Hs).
      - assert (ids todo st1 = ids todo st ++ [d_ID p]) as -> by (unfold ids; by rewrite <-!app_assoc).
        apply NoDup_app. split_and!; [apply (i_nodup _ _ Hs)| |apply NoDup_singleton].
        intros x Hx ->%list_elem_of_singleton. done.
      - intros id. rewrite Hids, <-(i_scheduled _ _ Hs). unfold isScheduled, st1. cbn [scheduled].
        destruct (decide (id = d_ID p)) as [->|Hne]; [rewrite lookup_insert_eq; tauto|rewrite lookup_insert_ne by done; tauto].
      - intros id [Hi| ->]%Hids; [by apply (i_reached _ _ Hs)|]. split.
        + eapply reached_cable; [done|done| |done]. apply Hps. by left.
        + apply (c_peers Hc d); [done| |done]. apply Hps. by left.
      - intros e He Hsel. apply Hids. left. by apply (i_seeds _ _ Hs). }
    destruct (IH st1 Hs1 Hd Hr) as (H1 & H2 & H3 & H4); [intros; apply Hps; by right|]. split_and!; [done|done| |].
    + intros id Hi. apply H3, Hids. by left.
    + intros q [->|Hq]%elem_of_cons Hsq; [apply H3, Hids; by right|by apply H4].
Qed.

(** One switch of a batch. *)
Lemma addSwitch_spec todo st pending sw : searching (d_ID sw :: todo) st → sw ∈ snapshot → pending !! d_ID sw = Some true →
  (∀ d, d ∈ found st → closed (d_ID sw :: todo) st d) →
  ∃ st', addSwitch params (st, pending) sw = Ok (st', delete (d_ID sw) pending) ∧ searching todo st' ∧
    found st' = found st ++ [sw] ∧ ∀ d, d ∈ found st' → closed todo st' d.
Proof.
  intros Hs Hsw Hpend Hcl. destruct (c_switches Hc sw Hsw) as (H1 & H2 & H3 & H4).
  unfold addSwitch. rewrite Hpend, bool_decide_false, H3, H4 by done. cbn [negb orb default from_option id].
  set (st1 := MkDiscovery (found st ++ [sw]) (scheduled st) (frontier st)).
  assert (Hids : ids todo st1 ≡ₚ ids (d_ID sw :: todo) st).
  { unfold ids, st1. cbn [found frontier]. rewrite fmap_app, <-app_assoc. done. }
  assert (Hs1 : searching todo st1).
  { split.
    - intros d. unfold st1. cbn [found]. rewrite elem_of_app, list_elem_of_singleton.
      intros [?| ->]; [by apply (i_found _ _ Hs)|done].
    - rewrite Hids. apply Hs.
    - intros id. rewrite Hids. apply (i_scheduled _ _ Hs).
    - intros id. rewrite Hids. apply (i_reached _ _ Hs).
    - intros d. rewrite Hids. apply (i_seeds _ _ Hs). }
  assert (Hreach : reached (d_ID sw)).
  { apply (i_reached _ _ Hs). unfold ids. set_solver. }
  destruct (addPeers_spec todo sw (peers sw) st1 Hs1 Hsw Hreach) as (Hs2 & Hf & Hsub & Hclosed); [done|].
  fold (addPeers params st1 sw) in *. exists (addPeers params st1 sw). split_and!; [done|done|by rewrite Hf|].
  intros d. rewrite Hf. unfold st1. cbn [found]. rewrite elem_of_app, list_elem_of_singleton.
  intros [Hd| ->]; [|by intros p ?; apply Hclosed]. intros p Hp Hsp. apply Hsub. rewrite Hids. by apply (Hcl d).
Qed.

Lemma addSwitches_spec l : ∀ st pending, searching (d_ID <$> l) st → (∀ d, d ∈ l → d ∈ snapshot) →
  (∀ id, pending !! id = if decide (id ∈ d_ID <$> l) then Some true else None) →
  (∀ d, d ∈ found st → closed (d_ID <$> l) st d) →
  ∃ st', foldM (addSwitch params) (st, pending) l = Ok (st', ∅) ∧ searching [] st' ∧
    found st' = found st ++ l ∧ ∀ d, d ∈ found st' → closed [] st' d.
Proof.
  induction l as [|sw l IH]; intros st pending Hs Hl Hpend Hcl; cbn [foldM].
  { exists st. assert (pending = ∅) as -> by (apply map_empty; intros id; by rewrite Hpend).
    rewrite app_nil_r. split_and!; done. }
  rewrite fmap_cons in *. destruct (addSwitch_spec (d_ID <$> l) st pending sw Hs) as (st1 & -> & Hs1 & Hf & Hcl1).
  { apply Hl. by left. }
  { rewrite Hpend, decide_True; [done|by left]. }
  { done. }
  destruct (IH st1 (delete (d_ID sw) pending) Hs1) as (st2 & -> & Hs2 & Hf2 & Hcl2).
  - intros d Hd. apply Hl. by right.
  - assert (Hnd : d_ID sw ∉ d_ID <$> l).
    { pose proof (i_nodup _ _ Hs) as Hnd. unfold ids in Hnd. apply NoDup_app in Hnd as (_ & _ & Hnd).
      apply NoDup_app in Hnd as ([? _]%NoDup_cons & _). done. }
    intros id. destruct (decide (id = d_ID sw)) as [->|Hne]; [by rewrite lookup_delete_eq, decide_False|].
    rewrite lookup_delete_ne, Hpend by done. destruct (decide (id ∈ d_ID <$> l)).
    + rewrite decide_True; [done|by right].
    + rewrite decide_False; [done|]. intros [?|?]%elem_of_cons; done.
  - done.
  - exists st2. rewrite Hf2, Hf, <-app_assoc. split_and!; [done|done|done|].
    intros d Hd. apply Hcl2. by rewrite Hf2, Hf, <-app_assoc.
Qed.

(** ** From the seeds to the end of the frontier *)

Lemma addSeeds_spec l : ∀ st, frontier st = [] → (∀ id, isScheduled st id = true ↔ id ∈ d_ID <$> found st) →
  NoDup ((d_ID <$> found st) ++ (d_ID <$> l)) → (∀ d, d ∈ l → d ∈ snapshot) →
  ∃ st', foldM (addSeed params) st l = Ok st' ∧ found st' = found st ++ l ∧ frontier st' = [] ∧
    ∀ id, isScheduled st' id = true ↔ id ∈ d_ID <$> found st'.
Proof.
  induction l as [|d l IH]; intros st Hf Hs Hnd Hl; cbn [foldM].
  { exists st. by rewrite app_nil_r. }
  destruct (c_switches Hc d) as (H1 & H2 & H3 & H4); [apply Hl; by left|].
  assert (Hno : isScheduled st (d_ID d) = false).
  { apply not_true_iff_false. rewrite Hs. rewrite fmap_cons in Hnd. apply NoDup_app in Hnd as (_ & Hdis & _).
    intros Hin. apply (Hdis _ Hin). by left. }
  unfold addSeed at 1. rewrite H3, !bool_decide_false, H4, Hno by done. cbn [negb orb].
  destruct (IH (MkDiscovery (found st ++ [d]) (<[d_ID d := true]> (scheduled st)) (frontier st)))
    as (st' & -> & Hf' & Hfr & Hs').
  - done.
  - intros id. cbn [found]. rewrite fmap_app, elem_of_app, <-Hs.
    change (d_ID <$> [d]) with [d_ID d]. rewrite list_elem_of_singleton. unfold isScheduled. cbn [scheduled].
    destruct (decide (id = d_ID d)) as [->|Hne]; [rewrite lookup_insert_eq; tauto|rewrite lookup_insert_ne by done; tauto].
  - cbn [found]. by rewrite fmap_app, <-app_assoc.
  - intros x Hx. apply Hl. by right.
  - exists st'. cbn [found] in Hf'. rewrite Hf', <-app_assoc in *. done.
Qed.

Lemma searching_perm todo1 st1 todo2 st2 : found st2 = found st1 → scheduled st2 = scheduled st1 →
  todo1 ++ frontier st1 ≡ₚ todo2 ++ frontier st2 → searching todo1 st1 → searching todo2 st2.
Proof.
  intros Hf Hsch Hp Hs. assert (Hids : ids todo1 st1 ≡ₚ ids todo2 st2) by (unfold ids; by rewrite Hf, Hp). split.
  - rewrite Hf. apply (i_found _ _ Hs).
  - rewrite <-Hids. apply Hs.
  - intros id. rewrite <-Hids, <-(i_scheduled _ _ Hs). unfold isScheduled. by rewrite Hsch.
  - intros id. rewrite <-Hids. apply (i_reached _ _ Hs).
  - intros d. rewrite <-Hids. apply (i_seeds _ _ Hs).
Qed.

Lemma seeds_spec : ∃ st, foldM (addSeed params) (MkDiscovery [] ∅ []) (answer None) = Ok st ∧
  let st' := foldl (addPeers params) st (found st) in searching [] st' ∧ ∀ d, d ∈ found st' → closed [] st' d.
Proof.
  destruct (addSeeds_spec (answer None) (MkDiscovery [] ∅ [])) as (st & Hrun & Hf & Hfr & Hsch).
  - done.
  - intros id. cbn. unfold isScheduled. cbn. rewrite lookup_empty. split; [done|set_solver].
  - apply answer_ids.
  - apply answer_sub.
  - exists st. split; [done|]. cbn [found app] in Hf. cbn zeta.
    assert (Hids : ids [] st = d_ID <$> found st) by (unfold ids; by rewrite Hfr, !app_nil_r).
    assert (Hsel : ∀ d, d ∈ found st ↔ selected d = true ∧ d ∈ snapshot) by (intros d; rewrite Hf; unfold answer; by rewrite list_elem_of_filter).
    assert (Hs : searching [] st).
    { split; rewrite ?Hids.
      - intros d [_ ?]%Hsel. done.
      - rewrite Hf. apply answer_ids.
      - done.
      - intros id (d & -> & [Hd1 Hd2]%Hsel)%list_elem_of_fmap. split; [by apply reached_seed|by apply list_elem_of_fmap_2].
      - intros d Hd Hd'. apply list_elem_of_fmap_2. by apply Hsel. }
    cut (∀ l st1, searching [] st1 → found st1 = found st → (∀ d, d ∈ l → d ∈ found st) →
      searching [] (foldl (addPeers params) st1 l) ∧ found (foldl (addPeers params) st1 l) = found st ∧
      (∀ id, id ∈ ids [] st1 → id ∈ ids [] (foldl (addPeers params) st1 l)) ∧
      ∀ d, d ∈ l → closed [] (foldl (addPeers params) st1 l) d).
    { intros Hgen. destruct (Hgen (found st) st Hs eq_refl) as (H1 & H2 & _ & H4); [done|]. split; [done|].
      rewrite H2. done. }
    clear Hrun Hsch Hids. induction l as [|d l IH]; intros st1 Hs1 Hf1 Hl; cbn [foldl]; [split_and!; [done..|set_solver]|].
    assert (Hd : d ∈ found st) by (apply Hl; by left). pose proof (proj1 (Hsel d) Hd) as [Hd1 Hd2].
    destruct (addPeers_spec [] d (peers d) st1 Hs1 Hd2 (reached_seed d Hd2 Hd1)) as (Ha & Hb & Hsub & Hcl); [done|].
    fold (addPeers params st1 d) in *.
    destruct (IH (addPeers params st1 d) Ha) as (H1 & H2 & H3 & H4); [congruence|intros; apply Hl; by right|].
    split_and!; [done|done|intros id Hi; apply H3; by apply Hsub|].
    intros e [->|He]%elem_of_cons; [|by apply H4]. intros p Hp Hsp. apply H3. by apply Hcl.
Qed.

Lemma pendingOf_lookup batch id : pendingOf batch !! id = if decide (id ∈ batch) then Some true else None.
Proof.
  apply (foldl_prefix_inv (λ l1 (m : gmap string bool), m !! id = if decide (id ∈ l1) then Some true else None)
    (λ pending id, <[id := true]> pending) batch ∅); [done|].
  intros l1 y l2 t _ Ht. destruct (decide (y = id)) as [->|].
  - by rewrite lookup_insert_eq, decide_True by set_solver.
  - rewrite lookup_insert_ne, Ht by done. repeat case_decide; set_solver.
Qed.

(** A batch is answered in full. *)
Lemma batch_answer batch : NoDup batch → (∀ id, id ∈ batch → id ∈ d_ID <$> snapshot) →
  d_ID <$> answer (Some batch) ≡ₚ batch.
Proof.
  intros Hnd Hin. apply NoDup_Permutation; [apply answer_ids|done|]. intros id. split.
  - intros (d & -> & [? _]%list_elem_of_filter)%list_elem_of_fmap. done.
  - intros Hid. destruct (proj1 (list_elem_of_fmap _ _ _) (Hin id Hid)) as (d & -> & Hd).
    apply list_elem_of_fmap_2. by apply list_elem_of_filter.
Qed.

Lemma ids_bound todo st : searching todo st → (length (ids todo st) <= length snapshot)%nat.
Proof.
  intros Hs. rewrite <-(length_fmap d_ID snapshot). apply submseteq_length, NoDup_submseteq; [apply (i_nodup _ _ Hs)|].
  intros id Hid. by apply (i_reached _ _ Hs).
Qed.

Lemma expand_spec pages batchSize w : 0 < batchSize → (length snapshot < pages)%nat → ∀ fuel st,
  searching [] st → (∀ d, d ∈ found st → closed [] st d) → (length snapshot <= fuel + length (found st))%nat →
  ∃ st', expand params snapshotPage (λ _, false) fuel pages w batchSize st = Some (Ok st', w) ∧
    searching [] st' ∧ (∀ d, d ∈ found st' → closed [] st' d) ∧ frontier st' = [].
Proof.
  intros Hbs Hpages. induction fuel as [|fuel IH]; intros st Hs Hcl Hfuel; pose proof (ids_bound _ _ Hs) as Hb;
    unfold ids in Hb; rewrite !length_app, length_fmap in Hb; cbn [length] in Hb;
    (destruct (frontier st) as [|id0 rest] eqn:Hfr; [exists st; cbn [expand]; rewrite Hfr; done|]).
  { cbn [length] in Hb. lia. }
  assert (Hne : frontier st ≠ []) by (by rewrite Hfr). cbn [expand]. rewrite Hfr. rewrite <-Hfr in *. clear id0 rest Hfr.
  set (sorted := sort_strings (frontier st)). set (n := Z.to_nat (Z.min batchSize (Z.of_nat (length sorted)))).
  set (batch := take n sorted). set (st1 := MkDiscovery (found st) (scheduled st) (drop n sorted)).
  assert (Hlen : length sorted = length (frontier st)) by apply length_sort_strings.
  assert (Hbatch : (1 <= length batch)%nat).
  { assert (1 <= length (frontier st))%nat by (destruct (frontier st); [done|cbn; lia]).
    unfold batch, n. rewrite length_take. lia. }
  assert (Hs1 : searching batch st1).
  { apply (searching_perm [] st); [done|done| |done]. cbn [app frontier st1]. unfold batch. rewrite take_drop.
    symmetry. apply sort_strings_perm. }
  pose proof (i_nodup _ _ Hs1) as Hnd. unfold ids in Hnd. apply NoDup_app in Hnd as (_ & _ & Hnd).
  apply NoDup_app in Hnd as (Hnd & _ & _).
  assert (Hperm : d_ID <$> answer (Some batch) ≡ₚ batch).
  { apply batch_answer; [done|]. intros id Hid. apply (i_reached _ _ Hs1). unfold ids. set_solver. }
  assert (Hlen' : length (answer (Some batch)) = length batch) by (rewrite <-(length_fmap d_ID (answer _)); by apply Permutation_length).
  rewrite devices_snapshot; [|done|done|].
  2:{ intros b [= <-]. lia. }
  assert (Hs2 : searching (d_ID <$> answer (Some batch)) st1).
  { eapply searching_perm; [done|done| |exact Hs1]. by rewrite Hperm. }
  destruct (addSwitches_spec (answer (Some batch)) st1 (pendingOf batch) Hs2) as (st2 & -> & Hs3 & Hf & Hcl').
  - apply answer_sub.
  - intros id. rewrite pendingOf_lookup. destruct (decide (id ∈ batch)).
    + rewrite decide_True; [done|]. by rewrite Hperm.
    + rewrite decide_False; [done|]. by rewrite Hperm.
  - intros d Hd p Hp Hsp. specialize (Hcl d Hd p Hp Hsp). apply (i_scheduled _ _ Hs2). apply (i_scheduled _ _ Hs) in Hcl. done.
  - rewrite decide_True by done. apply IH; [done|done|]. rewrite Hf, length_app. cbn [found st1]. lia.
Qed.

(** ** The compute endpoints *)

Definition agrees (seen : list device) (hosts : gmap string device) : Prop :=
  (∀ id, is_Some (hosts !! id) ↔ ∃ p, p ∈ seen ∧ hostPeer p ∧ d_ID p = id) ∧
  ∀ id h, hosts !! id = Some h → d_ID h = id ∧
    ∃ p, p ∈ seen ∧ hostPeer p ∧ d_ID p = id ∧ d_Name p = d_Name h ∧ (Serial h = "" ∨ ∃ q, q ∈ seen ∧ hostPeer q ∧ d_ID q = id ∧ Serial q = Serial h).

Definition endpoint (p : device) : Prop := ∃ d, d ∈ snapshot ∧ p ∈ peers d.

Lemma endpoint_same p q : endpoint p → endpoint q → hostPeer p → hostPeer q → d_ID p = d_ID q →
  d_Name p = d_Name q ∧ (Serial p = "" ∨ Serial q = "" ∨ Serial p = Serial q).
Proof. intros (d & ? & ?) (e & ? & ?) ? ? ?. by apply (c_same Hc d p e q). Qed.

Lemma addHost_spec sched seen hosts p : (∀ q, q ∈ seen → endpoint q) → endpoint p → agrees seen hosts →
  (∀ id, default false (sched !! id) = true → id ∈ d_ID <$> snapshot) →
  ∃ hosts', addHost params sched hosts p = Ok hosts' ∧ agrees (seen ++ [p]) hosts'.
Proof.
  intros Hseen Hp [Hdom Hval] Hsched. unfold addHost.
  assert (Hgrow : ∀ q, q ∈ seen ++ [p] ↔ q ∈ seen ∨ q = p) by (intros; rewrite elem_of_app; set_solver).
  destruct (decide (hostPeer p)) as [Hh|Hh].
  2:{ exists hosts. split.
      - unfold hostPeer in Hh. destruct (excluded params p); [done|]. by destruct (hasRole p (DeviceRole params)); [destruct Hh|].
      - split.
        + intros id. rewrite Hdom. split; intros (q & Hq & ? & ?); exists q; [split; [apply Hgrow; by left|done]|].
          apply Hgrow in Hq as [?| ->]; [done|by destruct Hh].
        + intros id h Hi. destruct (Hval id h Hi) as (? & q & ? & ? & ? & ? & Hser). split; [done|]. exists q.
          split_and!; [apply Hgrow; by left|done..|]. destruct Hser as [?|(r & ? & ?)]; [by left|right].
          exists r. split; [apply Hgrow; by left|done]. }
  pose proof Hp as (d & Hd & Hpd). destruct (c_hosts Hc d p Hd Hpd Hh) as (H1 & H2 & H3).
  pose proof Hh as [Hex Hrole]. rewrite Hex, Hrole, !bool_decide_false by done. cbn [negb orb].
  assert (default false (sched !! d_ID p) = false) as ->.
  { apply not_true_iff_false. intros Hin. by apply H3, Hsched. }
  assert (Hput : ∀ h, d_ID h = d_ID p → d_Name h = d_Name p →
    (Serial h = "" ∨ Serial h = Serial p ∨ ∃ q, q ∈ seen ∧ hostPeer q ∧ d_ID q = d_ID p ∧ Serial q = Serial h) →
    agrees (seen ++ [p]) (<[d_ID p := h]> hosts)).
  { intros h Hid Hname Hser. split.
    - intros id. rewrite lookup_insert_is_Some. rewrite Hdom. setoid_rewrite Hgrow. split.
      + intros [<-|[_ (q & ? & ?)]]; [exists p; tauto|exists q; tauto].
      + intros (q & [Hq| ->] & Hqh & <-); [|by left]. destruct (decide (d_ID p = d_ID q)); [by left|right; eauto].
    - intros id h'. rewrite lookup_insert_Some. intros [[<- <-]|[Hne Hi]].
      + split; [done|]. exists p. split_and!; [apply Hgrow; by right|done|done|done|].
        destruct Hser as [?|[Hser|(q & ? & ?)]]; [by left|right; exists p|right; exists q]; setoid_rewrite Hgrow; split; eauto.
      + destruct (Hval id h' Hi) as (? & q & ? & ? & ? & ? & Hser'). split; [done|]. exists q.
        split_and!; [apply Hgrow; by left|done..|]. destruct Hser' as [?|(r & ? & ?)]; [by left|right].
        exists r. split; [apply Hgrow; by left|done]. }
  destruct (hosts !! d_ID p) as [prev|] eqn:Hprev.
  - destruct (Hval _ _ Hprev) as (Hpid & q & Hq & Hqh & Hqid & Hqn & Hqs).
    destruct (endpoint_same p q Hp (Hseen q Hq) Hh Hqh (eq_sym Hqid)) as [Hn _].
    rewrite (bool_decide_true (d_Name prev = d_Name p)) by congruence. cbn [negb orb].
    assert (Hcompat : Serial prev = "" ∨ Serial p = "" ∨ Serial prev = Serial p).
    { destruct Hqs as [?|(r & Hr & Hrh & Hrid & Hrs)]; [by left|].
      destruct (endpoint_same p r Hp (Hseen r Hr) Hh Hrh (eq_sym Hrid)) as [_ [?|[?|?]]]; [tauto|left; congruence|right; right; congruence]. }
    assert (negb (bool_decide (Serial prev = "")) && negb (bool_decide (Serial p = "")) && negb (bool_decide (Serial prev = Serial p)) = false) as ->.
    { unfold bool_decide. repeat case_decide; try done. tauto. }
    eexists. split; [done|]. apply Hput.
    + case_decide; [by destruct p|done].
    + case_decide; [by destruct p|done].
    + case_decide as Hps; [|right; by left].
      assert (Serial (setSerial (Serial prev) p) = Serial prev) as -> by (by destruct p).
      destruct Hqs as [?|(r & Hr & Hrh & Hrid & Hrs)]; [by left|right; right; eauto].
  - eexists. split; [done|]. apply Hput; [done|done|right; by left].
Qed.

Lemma addHosts_spec sched ps : ∀ seen hosts, (∀ q, q ∈ seen → endpoint q) → (∀ q, q ∈ ps → endpoint q) → agrees seen hosts →
  (∀ id, default false (sched !! id) = true → id ∈ d_ID <$> snapshot) →
  ∃ hosts', foldM (addHost params sched) hosts ps = Ok hosts' ∧ agrees (seen ++ ps) hosts'.
Proof.
  induction ps as [|p ps IH]; intros seen hosts Hseen Hps Ha Hsched; cbn [foldM]; [exists hosts; by rewrite app_nil_r|].
  destruct (addHost_spec sched seen hosts p) as (hosts1 & -> & Ha1); [done|apply Hps; by left|done|done|].
  destruct (IH (seen ++ [p]) hosts1) as (hosts2 & -> & Ha2); [|intros; apply Hps; by right|done|done|].
  - intros q [?| ->%list_elem_of_singleton]%elem_of_app; [by apply Hseen|apply Hps; by left].
  - exists hosts2. by rewrite <-app_assoc in Ha2.
Qed.

Lemma allHosts_spec sched ds : ∀ seen hosts, (∀ q, q ∈ seen → endpoint q) → (∀ d, d ∈ ds → d ∈ snapshot) → agrees seen hosts →
  (∀ id, default false (sched !! id) = true → id ∈ d_ID <$> snapshot) →
  ∃ hosts', foldM (addHosts params sched) hosts ds = Ok hosts' ∧ agrees (seen ++ (ds ≫= peers)) hosts'.
Proof.
  induction ds as [|d ds IH]; intros seen hosts Hseen Hds Ha Hsched; cbn [foldM]; [exists hosts; by rewrite app_nil_r|].
  destruct (addHosts_spec sched (peers d) seen hosts) as (hosts1 & Hrun & Ha1); [done| |done|done|].
  { intros q Hq. exists d. split; [|done]. apply Hds. by left. }
  unfold addHosts at 1. rewrite Hrun. destruct (IH (seen ++ peers d) hosts1) as (hosts2 & -> & Ha2); [|intros; apply Hds; by right|done|done|].
  - intros q [?|Hq]%elem_of_app; [by apply Hseen|]. exists d. split; [|done]. apply Hds. by left.
  - exists hosts2. split; [done|]. by rewrite bind_cons, app_assoc.
Qed.

(** C17: on a consistent inventory the discovery ends, whatever the page size:
    it returns every switch that cables lead to from the selected ones, every
    compute endpoint connected to one of them, and nothing else, each once. *)
Theorem nautobot_discovery_complete fuel pages w pageSize :
  (length snapshot <= fuel)%nat → (length snapshot < pages)%nat →
  ∃ devices, discover params snapshotPage (λ _, false) fuel pages w pageSize = Some (Ok devices, w) ∧
    NoDup (d_ID <$> devices) ∧
    (∀ d, d ∈ snapshot → reached (d_ID d) → d ∈ devices) ∧
    ∀ id, id ∈ d_ID <$> devices ↔
      reached id ∨ ∃ d p, d ∈ snapshot ∧ reached (d_ID d) ∧ p ∈ peers d ∧ hostPeer p ∧ d_ID p = id.
Proof.
  intros Hfuel Hpages. assert (Hbs : 0 < batchSizeOf pageSize).
  { unfold batchSizeOf, defaultPageSize. destruct pageSize as [z|]; [destruct (Z.ltb_spec 0 z)|]; lia. }
  unfold discover. rewrite devices_snapshot by done. destruct seeds_spec as (st0 & -> & Hs0 & Hcl0).
  destruct (expand_spec pages (batchSizeOf pageSize) w Hbs Hpages fuel _ Hs0 Hcl0) as (st & -> & Hs & Hcl & Hfr); [lia|].
  assert (Hids : ids [] st = d_ID <$> found st) by (unfold ids; by rewrite Hfr, !app_nil_r).
  assert (Hreached : ∀ id, reached id → id ∈ d_ID <$> found st).
  { induction 1 as [d Hd Hsel|d p Hd _ IH Hp Hsp]; rewrite <-Hids; [by apply (i_seeds _ _ Hs)|].
    apply list_elem_of_fmap in IH as (e & He & Hin). assert (d = e) as <-.
    { apply (NoDup_fmap_eq d_ID snapshot); [apply (c_ids Hc)|done|by apply (i_found _ _ Hs)|done]. }
    by apply (Hcl d). }
  destruct (allHosts_spec (scheduled st) (found st) [] ∅) as (hosts & -> & Hdom & Hval).
  - set_solver.
  - apply (i_found _ _ Hs).
  - split; intros id; [|by intros h; rewrite lookup_empty]. rewrite lookup_empty. split; [by intros []|set_solver].
  - intros id Hid. fold (isScheduled st id) in Hid. apply (i_scheduled _ _ Hs) in Hid. by apply (i_reached _ _ Hs).
  - eexists. split; [done|]. cbn [app] in *.
    set (hs := omap (λ id, hosts !! id) (sorted_keys hosts)).
    assert (Hhs : d_ID <$> hs = sorted_keys hosts).
    { unfold hs. assert (∀ l : list string, (∀ id, id ∈ l → is_Some (hosts !! id)) → d_ID <$> omap (λ id, hosts !! id) l = l) as Hgen.
      { induction l as [|id l IH]; intros Hl; [done|]. destruct (Hl id) as [h Hh]; [by left|]. csimpl. rewrite Hh. csimpl.
        rewrite IH by (intros; apply Hl; by right). f_equal. by apply Hval. }
      apply Hgen. intros id. apply elem_of_sorted_keys. }
    assert (Hhost : ∀ id, id ∈ sorted_keys hosts ↔
      ∃ d p, d ∈ snapshot ∧ reached (d_ID d) ∧ p ∈ peers d ∧ hostPeer p ∧ d_ID p = id).
    { intros id. rewrite elem_of_sorted_keys, Hdom. split.
      - intros (p & (d & Hp & Hd)%list_elem_of_bind & Hh & Hid). exists d, p. split_and!; [by apply (i_found _ _ Hs)| |done..].
        apply (i_reached _ _ Hs). rewrite Hids. by apply list_elem_of_fmap_2.
      - intros (d & p & Hd & Hr & Hp & Hh & Hid). exists p. split; [|done]. apply list_elem_of_bind. exists d.
        split; [done|]. apply Hreached, list_elem_of_fmap in Hr as (e & He & Hin).
        assert (d = e) as ->; [|done].
        apply (NoDup_fmap_eq d_ID snapshot); [apply (c_ids Hc)|done|by apply (i_found _ _ Hs)|done]. }
    rewrite fmap_app, Hhs. split_and!.
    + apply NoDup_app. split_and!; [rewrite <-Hids; apply Hs| |apply sorted_keys_NoDup].
      intros id Hid (d & p & Hd & _ & Hp & Hh & <-)%Hhost. destruct (c_hosts Hc d p Hd Hp Hh) as (_ & _ & Hno).
      apply Hno. apply (i_reached _ _ Hs). by rewrite Hids.
    + intros d Hd Hr. apply elem_of_app. left. apply Hreached, list_elem_of_fmap in Hr as (e & He & Hin).
      assert (d = e) as ->; [|done].
      apply (NoDup_fmap_eq d_ID snapshot); [apply (c_ids Hc)|done|by apply (i_found _ _ Hs)|done].
    + intros id. rewrite elem_of_app, Hhost. split; (intros [Hid|?]; [left|by right]); [|by apply Hreached].
      apply (i_reached _ _ Hs). by rewrite Hids.
Qed.
End Snapshot.

(** ** Two spines and three leaves

    The first query selects one spine; the other switches are found from it. *)

Definition w_params : ProviderParams := MkParams "" [] [] ["server"] ["switch"] ["Deleted"] 0.
Definition w_plain (role name : string) : device := MkDevice name name "" None (Some role) [].
Definition w_switch (name : string) (hosts others : list string) : device :=
  MkDevice name name "" None (Some "switch")
    (((λ h, Some (Some (w_plain "server" h))) <$> hosts) ++ ((λ s, Some (Some (w_plain "switch" s))) <$> others)).
Definition w_snapshot : list device :=
  [w_switch "l1" ["h1"] ["s1"]; w_switch "l2" ["h2"] ["s1"; "s2"]; w_switch "l3" ["h3"] ["s2"];
   w_switch "s1" [] ["l1"; "l2"]; w_switch "s2" [] ["l2"; "l3"]].
Definition w_selected (d : device) : bool := bool_decide (d_ID d = "s1").

Lemma w_consistent : consistent w_params w_snapshot.
Proof.
  split.
  - apply (bool_decide_unpack _). vm_compute. exact I.
  - assert (H : Forall (switchPeer w_params) w_snapshot) by (apply (bool_decide_unpack _); vm_compute; exact I).
    rewrite Forall_forall in H. exact H.
  - assert (H : Forall (λ d, Forall (λ p, switchPeer w_params p → d_ID p ∈ d_ID <$> w_snapshot) (peers d)) w_snapshot)
      by (apply (bool_decide_unpack _); vm_compute; exact I).
    intros d p Hd Hp. rewrite Forall_forall in H. specialize (H d Hd). rewrite Forall_forall in H. by apply H.
  - assert (H : Forall (λ d, Forall (λ p, hostPeer w_params p → d_ID p ≠ "" ∧ d_Name p ≠ "" ∧ d_ID p ∉ d_ID <$> w_snapshot)
        (peers d)) w_snapshot).
    { unfold hostPeer. apply (bool_decide_unpack _). vm_compute. exact I. }
    intros d p Hd Hp. rewrite Forall_forall in H. specialize (H d Hd). rewrite Forall_forall in H. by apply H.
  - assert (H : Forall (λ p, Serial p = "") (w_snapshot ≫= peers)) by (apply (bool_decide_unpack _); vm_compute; exact I).
    assert (Hn : Forall (λ p, d_Name p = d_ID p) (w_snapshot ≫= peers)) by (apply (bool_decide_unpack _); vm_compute; exact I).
    rewrite Forall_forall in H, Hn. intros d1 p1 d2 p2 Hd1 Hp1 _ Hd2 Hp2 _ Heq. split.
    + rewrite !Hn; [done|apply list_elem_of_bind; eauto..].
    + left. apply H, list_elem_of_bind. eauto.
Qed.

Lemma nautobot_discovery_complete_witness : ∃ devices,
  discover w_params (snapshotPage w_snapshot w_selected) (λ _ : (), false) 5 6 () (Some 2) = Some (Ok devices, ()) ∧
  NoDup (d_ID <$> devices) ∧ "l1" ∈ d_ID <$> devices ∧ "h1" ∈ d_ID <$> devices.
Proof.
  assert (Hr : reached w_params w_snapshot w_selected "l1").
  { apply (reached_cable _ _ _ (w_switch "s1" [] ["l1"; "l2"]) (w_plain "switch" "l1")).
    - do 3 right. left.
    - apply reached_seed; [do 3 right; left|reflexivity].
    - left.
    - repeat split; try reflexivity; discriminate. }
  destruct (nautobot_discovery_complete w_params w_snapshot w_selected w_consistent 5 6 () (Some 2))
    as (devices & Hrun & Hnd & _ & Hids); [apply Nat.le_refl|apply Nat.le_refl|].
  exists devices. split; [exact Hrun|]. split; [exact Hnd|]. split.
  - apply Hids. left. exact Hr.
  - apply Hids. right. exists (w_switch "l1" ["h1"] ["s1"]), (w_plain "server" "h1").
    split; [left|]. split; [exact Hr|]. split; [left|]. repeat split; reflexivity.
Defined.
End NautobotDiscovery.
