(* ===== verification/NautobotTree.v ===== *)
(** * The tree of the Nautobot provider

    What the search from the compute endpoints and the merging of the layers
    compute: depths are distances, two switches of a tier get one name exactly
    when a chain of shared children joins them, and every child has one parent. *)

From S2P Require Import Prelude GoStrings Topology Nautobot.
Open Scope Z_scope.

Module NautobotTree.
Import Topo Nautobot.

(** Two relations that agree on a closed set have the same paths in it. *)
Lemma rtc_agree {A} (P : A → Prop) (R1 R2 : relation A) x y :
  (∀ a b, P a → R1 a b ↔ R2 a b) → (∀ a b, P a → R1 a b → P b) → P x → rtc R1 x y ↔ rtc R2 x y.
Proof.
  intros Hag Hcl Hx. split; intros Hr; revert Hx; induction Hr as [a|a b c Hab _ IH]; intros Ha; [done| |done|].
  - eapply rtc_l; [by apply Hag|]. apply IH. by eapply Hcl.
  - assert (R1 a b) by (by apply Hag). eapply rtc_l; [done|]. apply IH. by eapply Hcl.
Qed.

(** ** Union-find

    A representative is never greater than its members, so the root of a class
    is its least member and the search for it ends. *)
Section UnionFind.
Context (layer : list string).

Record forest (rep : gmap string string) : Prop := {
  f_dom : ∀ x, is_Some (rep !! x) ↔ x ∈ layer;
  f_step : ∀ x y, rep !! x = Some y → y ∈ layer ∧ String.le y x
}.

Inductive root (rep : gmap string string) : string → string → Prop :=
| root_here x : rep !! x = Some x → root rep x x
| root_up x y r : rep !! x = Some y → y ≠ x → root rep y r → root rep x r.

Lemma root_fun rep x r1 r2 : root rep x r1 → root rep x r2 → r1 = r2.
Proof. intros Hr. revert r2. induction Hr; intros r2; inversion 1; simplify_eq; eauto. Qed.

Lemma root_fixed rep x r : root rep x r → rep !! r = Some r.
Proof. by induction 1. Qed.

Lemma root_self rep r : rep !! r = Some r → root rep r r.
Proof. apply root_here. Qed.

Lemma root_in rep x r : forest rep → root rep x r → r ∈ layer ∧ String.le r x.
Proof.
  intros Hf. induction 1 as [x Hx|x y r Hx _ _ [? ?]].
  - by apply (f_step _ Hf).
  - split; [done|]. destruct (f_step _ Hf _ _ Hx). by trans y.
Qed.

(** How many members are not greater than [x]. *)
Definition rank (x : string) : nat := length (filter (λ z, String.le z x) layer).

Lemma rank_lt x y : x ∈ layer → String.le y x → y ≠ x → (rank y < rank x)%nat.
Proof.
  intros Hx Hle Hne. unfold rank. clear -Hx Hle Hne. induction layer as [|z l IH]; [set_solver|].
  assert (Hmono : (length (filter (λ z, String.le z y) l) <= length (filter (λ z, String.le z x) l))%nat).
  { clear -Hle. induction l as [|z l IH]; [done|]. rewrite !filter_cons. repeat case_decide; simpl; [lia| |lia..].
    destruct H0. by trans y. }
  rewrite !filter_cons. apply elem_of_cons in Hx as [->|Hx].
  - rewrite (decide_False (P := String.le z y)), decide_True; [simpl; lia|done|].
    intros Hzy. apply Hne. by apply (anti_symm String.le).
  - specialize (IH Hx). repeat case_decide; simpl; [lia| |lia..]. destruct H0. by trans y.
Qed.

Lemma rank_pos x : x ∈ layer → (1 <= rank x <= length layer)%nat.
Proof.
  intros Hx. split; [|apply length_filter]. unfold rank. destruct (filter _ layer) eqn:E; [|simpl; lia].
  assert (x ∈ filter (λ z, String.le z x) layer) as Hin by (by apply list_elem_of_filter). rewrite E in Hin. set_solver.
Qed.

Lemma root_total rep x : forest rep → x ∈ layer → ∃ r, root rep x r.
Proof.
  intros Hf. remember (rank x) as n. revert x Heqn. induction n as [n IH] using lt_wf_ind. intros x -> Hx.
  pose proof Hx as [y Hy]%(f_dom _ Hf). destruct (decide (y = x)) as [->|Hne]; [exists x; by apply root_here|].
  destruct (f_step _ Hf _ _ Hy) as [Hyl Hle]. destruct (IH (rank y) (rank_lt _ _ Hx Hle Hne) y eq_refl Hyl) as [r Hr].
  exists r. by eapply root_up.
Qed.

(** Path compression changes no root. *)
Lemma root_compress rep x r y s : forest rep → root rep x r → x ≠ r →
  root (<[x := r]> rep) y s ↔ root rep y s.
Proof.
  intros Hf Hr Hne. pose proof (root_fixed _ _ _ Hr) as Hrr.
  assert (Hfix : root (<[x := r]> rep) r r) by (apply root_here; by rewrite lookup_insert_ne).
  split.
  - intros Hy. remember (<[x := r]> rep) as rep' eqn:E. induction Hy as [y Hy|y z s Hy Hz Hs IH]; subst rep'.
    + destruct (decide (y = x)) as [->|]; [rewrite lookup_insert_eq in Hy; congruence|].
      rewrite lookup_insert_ne in Hy by done. by apply root_here.
    + destruct (decide (y = x)) as [->|].
      * rewrite lookup_insert_eq in Hy. injection Hy as <-.
        assert (s = r) as -> by (eapply root_fun; [exact IH|by apply root_here]). done.
      * rewrite lookup_insert_ne in Hy by done. by eapply root_up.
  - induction 1 as [y Hy|y z s Hy Hz Hs IH].
    + apply root_here. destruct (decide (y = x)) as [->|]; [|by rewrite lookup_insert_ne].
      destruct Hne. eapply root_fun; [by apply root_here|done].
    + destruct (decide (y = x)) as [->|].
      * assert (s = r) as -> by (eapply root_fun; [by eapply root_up|done]).
        eapply root_up; [by rewrite lookup_insert_eq|done|done].
      * eapply root_up; [by rewrite lookup_insert_ne|done|done].
Qed.

Lemma find_spec fuel : ∀ rep x, forest rep → x ∈ layer → (rank x <= S fuel)%nat →
  ∃ rep' r, find fuel rep x = Some (rep', r) ∧ forest rep' ∧ root rep x r ∧
    ∀ y s, root rep' y s ↔ root rep y s.
Proof.
  induction fuel as [|fuel IH]; intros rep x Hf Hx Hrank; pose proof Hx as [y Hy]%(f_dom _ Hf);
    cbn [find]; rewrite Hy; cbn [default from_option id]; (case_decide as Hyx;
      [subst y; exists rep, x; split_and!; [done|done|by apply root_here|done]|]);
    destruct (f_step _ Hf _ _ Hy) as [Hyl Hle]; pose proof (rank_lt _ _ Hx Hle Hyx) as Hlt.
  { pose proof (rank_pos _ Hyl). lia. }
  destruct (IH rep y Hf Hyl) as (rep' & r & -> & Hf' & Hr & Hsame); [lia|]. cbn.
  assert (Hxr : root rep x r) by (by eapply root_up).
  assert (x ≠ r) as Hne.
  { intros <-. pose proof (root_fixed _ _ _ Hxr). congruence. }
  exists (<[x := r]> rep'), r. split_and!; [done| |done|].
  - destruct (root_in _ _ _ Hf Hxr) as [Hrl Hrle]. split.
    + intros z. destruct (decide (z = x)) as [->|]; [rewrite lookup_insert_eq; split; eauto|].
      rewrite lookup_insert_ne by done. apply (f_dom _ Hf').
    + intros z w. destruct (decide (z = x)) as [->|]; [rewrite lookup_insert_eq; by intros [= <-]|].
      rewrite lookup_insert_ne by done. apply (f_step _ Hf').
  - intros z s. rewrite root_compress; [apply Hsame|done| |done]. by apply Hsame.
Qed.

(** Linking a root below another one. *)
Lemma link_spec rep a b : forest rep → rep !! a = Some a → rep !! b = Some b → String.le a b →
  forest (<[b := a]> rep) ∧
  ∀ y s, root (<[b := a]> rep) y s ↔ ∃ t, root rep y t ∧ s = if decide (t = b) then a else t.
Proof.
  intros Hf Ha Hb Hle.
  assert (Hf' : forest (<[b := a]> rep)).
  { assert (a ∈ layer ∧ b ∈ layer) as [Hal Hbl] by (split; apply (f_dom _ Hf); by eexists). split.
    - intros z. destruct (decide (z = b)) as [->|]; [rewrite lookup_insert_eq; split; eauto|].
      rewrite lookup_insert_ne by done. apply (f_dom _ Hf).
    - intros z w. destruct (decide (z = b)) as [->|]; [rewrite lookup_insert_eq; by intros [= <-]|].
      rewrite lookup_insert_ne by done. apply (f_step _ Hf). }
  assert (Hto : ∀ y t, root rep y t → root (<[b := a]> rep) y (if decide (t = b) then a else t)).
  { assert (Hab : root (<[b := a]> rep) b a).
    { destruct (decide (a = b)) as [->|]; [apply root_here; by rewrite lookup_insert_eq|].
      eapply root_up; [by rewrite lookup_insert_eq|done|]. apply root_here. by rewrite lookup_insert_ne. }
    induction 1 as [y Hy|y z s Hy Hz Hs IH].
    - case_decide as Hyb; [by subst y|]. apply root_here. by rewrite lookup_insert_ne.
    - eapply root_up; [|done|done]. rewrite lookup_insert_ne; [done|]. intros <-. congruence. }
  split; [done|]. intros y s. split; [|intros (t & Ht & ->); by apply Hto].
  intros Hs. assert (y ∈ layer) as Hy.
  { apply (f_dom _ Hf'). destruct Hs; by eexists. }
  destruct (root_total rep y Hf Hy) as [t Ht]. exists t. split; [done|]. eapply root_fun; [done|by apply Hto].
Qed.

Definition same (rep : gmap string string) (x y : string) : Prop := ∃ r, root rep x r ∧ root rep y r.

(** Two switches share a child. *)
Definition share (pairs : list (string * string)) (x y : string) : Prop := ∃ c, (x, c) ∈ pairs ∧ (y, c) ∈ pairs.

(** The state of a round after the children [pairs] of switches. *)
Record merged (pairs : list (string * string)) (st : merging) : Prop := {
  m_forest : forest (rep st);
  m_first : ∀ c p, children st !! c = Some p → (p, c) ∈ pairs;
  m_children : ∀ x c, (x, c) ∈ pairs → is_Some (children st !! c);
  m_same : ∀ x y, x ∈ layer → y ∈ layer → same (rep st) x y ↔ rtc (share pairs) x y
}.

Lemma share_sym pairs x y : share pairs x y → share pairs y x.
Proof. intros (c & ? & ?). by exists c. Qed.

Lemma share_snoc pairs x y p : share (pairs ++ [p]) x y ↔
  share pairs x y ∨ ((x, p.2) ∈ pairs ++ [p] ∧ (y, p.2) ∈ pairs ++ [p] ∧ (x = p.1 ∨ y = p.1)).
Proof.
  destruct p as [i c]. unfold share. cbn [fst snd]. setoid_rewrite elem_of_app. setoid_rewrite list_elem_of_singleton.
  split.
  - intros (c' & [?|[= -> ->]] & [?|[=]]); subst; eauto 10.
  - naive_solver.
Qed.

Lemma share_mono pairs p x y : rtc (share pairs) x y → rtc (share (pairs ++ [p])) x y.
Proof. apply rtc_subrel. intros a b Hab. apply share_snoc. by left. Qed.

(** After a link the classes of the two roots are one. *)
Lemma linked_same rep rep' lo hi x y : forest rep →
  (∀ z s, root rep' z s ↔ ∃ t, root rep z t ∧ s = if decide (t = hi) then lo else t) →
  root rep lo lo → root rep hi hi →
  same rep' x y ↔ same rep x y ∨ (root rep x lo ∧ root rep y hi) ∨ (root rep x hi ∧ root rep y lo).
Proof.
  intros Hf Hroots Hlo Hhi. unfold same. split.
  - intros (r & (tx & Hx & Ex)%Hroots & (ty & Hy & Ey)%Hroots). subst r.
    repeat case_decide; subst; [left; eauto|right; right; eauto|right; left; eauto|left; eauto].
  - intros [(r & Hx & Hy)|[[Hx Hy]|[Hx Hy]]].
    + exists (if decide (r = hi) then lo else r). rewrite !Hroots. split; exists r; (split; [done|reflexivity]).
    + exists lo. rewrite !Hroots. split; [exists lo|exists hi]; (split; [done|]); by case_decide.
    + exists lo. rewrite !Hroots. split; [exists hi|exists lo]; (split; [done|]); by case_decide.
Qed.

(** One more child: the classes of the switch and of the first parent of the
    child become one. *)
Lemma joined_same pairs rep rep' id prev child a b :
  (∀ p, p ∈ pairs → p.1 ∈ layer) → id ∈ layer → (prev, child) ∈ pairs → forest rep → forest rep' →
  (∀ x y, x ∈ layer → y ∈ layer → same rep x y ↔ rtc (share pairs) x y) →
  root rep id a → root rep prev b →
  (∀ x y, same rep' x y ↔ same rep x y ∨ (root rep x a ∧ root rep y b) ∨ (root rep x b ∧ root rep y a)) →
  ∀ x y, x ∈ layer → y ∈ layer → same rep' x y ↔ rtc (share (pairs ++ [(id, child)])) x y.
Proof.
  intros Hpl Hid Hprev Hf Hf' Hsame Ha Hb Hjoin x y Hx Hy. pose proof (Hpl _ Hprev) as Hpr. cbn in Hpr.
  assert (Hlink : share (pairs ++ [(id, child)]) id prev).
  { exists child. rewrite !elem_of_app, !list_elem_of_singleton. by split; [right|left]. }
  assert (Hto : ∀ u v s, u ∈ layer → v ∈ layer → root rep u s → root rep v s →
    rtc (share (pairs ++ [(id, child)])) u v).
  { intros u v s Hu Hv Hus Hvs. apply share_mono, Hsame; [done..|]. by exists s. }
  split.
  - rewrite Hjoin. intros [(r & Hxr & Hyr)|[[Hxa Hyb]|[Hxb Hya]]]; [by eapply Hto|..].
    + etrans; [by apply (Hto x id a)|]. eapply rtc_l; [exact Hlink|]. by apply (Hto prev y b).
    + etrans; [by apply (Hto x prev b)|]. eapply rtc_l; [by apply share_sym|]. by apply (Hto id y a).
  - intros Hr. clear Hy. revert Hx. induction Hr as [x|x z y Hxz _ IH]; intros Hx.
    { destruct (root_total _ _ Hf' Hx) as [r Hr]. by exists r. }
    assert (Hz : z ∈ layer).
    { destruct Hxz as (c & _ & [Hz|[= -> ->]%list_elem_of_singleton]%elem_of_app); [by apply (Hpl _ Hz)|done]. }
    assert (Hxz' : same rep' x z).
    { assert (Hother : ∀ w, (w, child) ∈ pairs ++ [(id, child)] → w = id ∨ root rep w b).
      { intros w [Hw|[= ->]%list_elem_of_singleton]%elem_of_app; [right|by left].
        assert (same rep w prev) as (r & Hwr & Hpr').
        { apply Hsame; [by apply (Hpl _ Hw)|done|]. apply rtc_once. by exists child. }
        by rewrite (root_fun _ _ _ _ Hb Hpr'). }
      apply Hjoin. apply share_snoc in Hxz as [Hxz|(Hxc & Hzc & Heq)]; cbn [fst snd] in *.
      - left. apply Hsame; [done..|]. by apply rtc_once.
      - destruct Heq as [->| ->].
        + destruct (Hother _ Hzc) as [->|?]; [left; by exists a|right; left; eauto].
        + destruct (Hother _ Hxc) as [->|?]; [left; by exists a|right; right; eauto]. }
    destruct Hxz' as (r & Hxr & Hzr), (IH Hz) as (r' & Hzr' & Hyr').
    exists r. split; [done|]. by rewrite (root_fun _ _ _ _ Hzr Hzr').
Qed.

Lemma mergeChild_spec pairs st id child : (∀ p, p ∈ pairs → p.1 ∈ layer) → id ∈ layer → merged pairs st →
  ∃ st', mergeChild (length layer) id st child = Some st' ∧ merged (pairs ++ [(id, child)]) st'.
Proof.
  intros Hpl Hid [Hf Hfirst Hch Hsame]. unfold mergeChild. destruct (children st !! child) as [prev|] eqn:Hprev.
  - pose proof (Hfirst _ _ Hprev) as Hpp. pose proof (Hpl _ Hpp) as Hpr. cbn in Hpr.
    destruct (find_spec (length layer) (rep st) id Hf Hid) as (rep1 & a & -> & Hf1 & Ha & H1).
    { pose proof (rank_pos _ Hid). lia. }
    cbn. destruct (find_spec (length layer) rep1 prev Hf1 Hpr) as (rep2 & b & -> & Hf2 & Hb & H2).
    { pose proof (rank_pos _ Hpr). lia. }
    cbn. rewrite H1 in Hb.
    assert (Hroots : ∀ y s, root rep2 y s ↔ root (rep st) y s) by (intros; by rewrite H2, H1).
    pose proof (root_fixed _ _ _ Ha) as Haa. pose proof (root_fixed _ _ _ Hb) as Hbb.
    assert (Hfix : ∀ r, rep st !! r = Some r → rep2 !! r = Some r).
    { intros r Hr. apply root_here, Hroots, root_fixed in Hr. done. }
    destruct (if String.ltb b a then (b, a) else (a, b)) as [lo hi] eqn:Hlohi.
    assert (Hc : (lo = a ∧ hi = b ∨ lo = b ∧ hi = a) ∧ String.le lo hi).
    { destruct (String.ltb b a) eqn:E; simplify_eq; (split; [tauto|]); unfold String.le, String.leb, String.ltb in *.
      - by destruct (String.compare _ _).
      - rewrite String.compare_antisym. by destruct (String.compare hi lo). }
    destruct Hc as [Hc Hle]. eexists. split; [done|].
    destruct (link_spec rep2 lo hi Hf2) as [Hf3 Hlink]; [destruct Hc as [[-> ->]|[-> ->]]; auto..|done|].
    split; cbn [rep children]; [done| | |].
    + intros c p Hcp. apply elem_of_app. eauto.
    + intros x c. rewrite elem_of_app, list_elem_of_singleton. intros [?|[= -> ->]]; eauto.
    + eapply (joined_same pairs (rep st)); [done..| |].
      * exact Hb.
      * intros x y. rewrite (linked_same (rep st) _ lo hi).
        -- destruct Hc as [[-> ->]|[-> ->]]; tauto.
        -- done.
        -- intros z s. rewrite Hlink. by setoid_rewrite Hroots.
        -- apply root_here. by destruct Hc as [[-> ->]|[-> ->]].
        -- apply root_here. by destruct Hc as [[-> ->]|[-> ->]].
  - eexists. split; [done|]. split; cbn [rep children]; [done| | |].
    + intros c p. rewrite elem_of_app, list_elem_of_singleton. destruct (decide (c = child)) as [->|].
      * rewrite lookup_insert_eq. intros [= ->]. by right.
      * rewrite lookup_insert_ne by done. eauto.
    + intros x c. rewrite elem_of_app, list_elem_of_singleton. intros [Hx|[= -> ->]]; [|by rewrite lookup_insert_eq; eauto].
      destruct (decide (c = child)) as [->|]; [by rewrite lookup_insert_eq; eauto|].
      rewrite lookup_insert_ne by done. eauto.
    + intros x y Hx Hy. rewrite Hsame by done. split; [apply share_mono|].
      induction 1 as [x|x z y Hxz _ IH]; [done|].
      assert (Hnone : ∀ w, (w, child) ∈ pairs ++ [(id, child)] → w = id).
      { intros w [Hw|[= ->]%list_elem_of_singleton]%elem_of_app; [|done].
        apply Hch in Hw. rewrite Hprev in Hw. by destruct Hw. }
      apply share_snoc in Hxz as [Hxz|(Hxc & Hzc & _)]; cbn [fst snd] in *.
      * eapply rtc_l; [done|]. apply IH; [|done]. destruct Hxz as (c & _ & Hz). by apply (Hpl _ Hz).
      * rewrite (Hnone _ Hxc) in *. rewrite (Hnone _ Hzc) in *. auto.
Qed.
End UnionFind.

Section Tree.
Context `{RangeOrder} (inv : inventory).

(** A cable joins [a] and [b]. *)
Definition linked (a b : string) : Prop := is_Some (neighbours (links inv) a !! b).
Definition isHost (a : string) : Prop := is_Some (hosts inv !! a).
Definition isSwitch (a : string) : Prop := is_Some (switches inv !! a).

#[global] Instance isSwitch_dec a : Decision (isSwitch a).
Proof. unfold isSwitch. apply _. Defined.
#[global] Instance isHost_dec a : Decision (isHost a).
Proof. unfold isHost. apply _. Defined.
#[global] Instance linked_dec a b : Decision (linked a b).
Proof. unfold linked. apply _. Defined.

(** What [inventoryOf] guarantees. *)
Record wf : Prop := {
  wf_disjoint : ∀ a, isHost a → isSwitch a → False;
  wf_sym : ∀ a b, linked a b → linked b a;
  wf_known : ∀ a b, linked a b → isHost a ∨ isSwitch a;
  wf_hosts : ∀ a b, linked a b → isHost a → isHost b → False;
  wf_named : ¬ isHost "" ∧ ¬ isSwitch ""
}.

Lemma elem_of_neighbours a b : b ∈ (range (neighbours (links inv) a)).*1 ↔ linked a b.
Proof. rewrite range_perm. apply elem_of_keys. Qed.

(** ** Breadth-first search *)

(** What a run of [enqueue] does: the unseen identities of [l] go to the end
    of the queue, with depth [d]. *)
Lemma enqueue_spec d (l : list string) : ∀ st,
  ∃ fresh, queue (foldl (enqueue d) st l) = queue st ++ fresh ∧ NoDup fresh ∧
    (∀ x, x ∈ fresh ↔ x ∈ l ∧ depth st !! x = None) ∧
    ∀ x, depth (foldl (enqueue d) st l) !! x = if decide (x ∈ fresh) then Some d else depth st !! x.
Proof.
  induction l as [|y l IH]; intros st; simpl.
  { exists []. rewrite app_nil_r. split_and!; [done|constructor|set_solver|done]. }
  unfold enqueue at 2 4. destruct (depth st !! y) as [dy|] eqn:Hy.
  - destruct (IH st) as (fresh & Hq & Hnd & Hin & Hd). exists fresh. split_and!; [done|done| |done].
    intros x. rewrite Hin, elem_of_cons. split; [tauto|]. intros [[->|?] ?]; [congruence|done].
  - destruct (IH (MkBfs (<[y := d]> (depth st)) (queue st ++ [y]))) as (fresh & Hq & Hnd & Hin & Hd).
    cbn [depth queue] in *. exists (y :: fresh).
    assert (y ∉ fresh) as Hny. { rewrite Hin, lookup_insert_eq. naive_solver. }
    split_and!.
    + by rewrite Hq, <-app_assoc.
    + by constructor.
    + intros x. rewrite !elem_of_cons, Hin. destruct (decide (x = y)) as [->|Hne]; [tauto|].
      rewrite lookup_insert_ne by done. naive_solver.
    + intros x. rewrite Hd. destruct (decide (x = y)) as [->|Hne].
      * rewrite decide_False, decide_True by set_solver. by rewrite lookup_insert_eq.
      * rewrite lookup_insert_ne by done. destruct (decide (x ∈ fresh)), (decide (x ∈ y :: fresh)); set_solver.
Qed.

Lemma enqueue_switches d (l : list string) : ∀ st,
  foldl (λ st peer, match switches inv !! peer with None => st | Some _ => enqueue d st peer end) st l =
  foldl (enqueue d) st (filter isSwitch l).
Proof.
  induction l as [|y l IH]; intros st; simpl; [done|]. rewrite filter_cons, IH.
  destruct (decide (isSwitch y)) as [[dv Hy]|Hy]; [by rewrite Hy|].
  by apply eq_None_not_Some in Hy as ->.
Qed.

Definition dep (st : bfs) (x : string) : nat := default 0%nat (depth st !! x).

(** The state of the search when [offset] switches have been processed. *)
Record searching (offset : nat) (st : bfs) (layers : list (list string)) : Prop := {
  s_nodup : NoDup (queue st);
  s_dom : ∀ x, x ∈ queue st ↔ is_Some (depth st !! x);
  s_switch : ∀ x, x ∈ queue st → isSwitch x;
  s_offset : (offset <= length (queue st))%nat;
  s_start : ∀ x h, isHost h → linked h x → depth st !! x = Some 0%nat;
  s_zero : ∀ x, depth st !! x = Some 0%nat → ∃ h, isHost h ∧ linked h x;
  s_above : ∀ x d, depth st !! x = Some (S d) → ∃ y, depth st !! y = Some d ∧ linked y x;
  s_mono : ∀ i j x y, (i <= j)%nat → queue st !! i = Some x → queue st !! j = Some y → (dep st x <= dep st y)%nat;
  s_first : ∀ x, queue st !! 0%nat = Some x → dep st x = 0%nat;
  s_window : ∀ i x y, (offset <= S i)%nat → queue st !! i = Some x → y ∈ queue st → (dep st y <= S (dep st x))%nat;
  s_closed : ∀ x y, x ∈ take offset (queue st) → linked x y → isSwitch y →
    ∃ d, depth st !! y = Some d ∧ (d <= S (dep st x))%nat;
  s_length : length layers = match last (take offset (queue st)) with Some x => S (dep st x) | None => 0%nat end;
  s_layers : ∀ d layer, layers !! d = Some layer →
    NoDup layer ∧ ∀ x, x ∈ layer ↔ x ∈ take offset (queue st) ∧ dep st x = d
}.

Context (Hwf : wf).

Lemma dep_eq st x d : depth st !! x = Some d → dep st x = d.
Proof. unfold dep. by intros ->. Qed.

Lemma start_fold d (l : list string) : ∀ st,
  foldl (λ st host, foldl (enqueue d) st (range (neighbours (links inv) host)).*1) st l =
  foldl (enqueue d) st (l ≫= λ host, (range (neighbours (links inv) host)).*1).
Proof. induction l as [|h l IH]; intros st; simpl; [done|]. by rewrite IH, foldl_app. Qed.

Lemma searching_start : searching 0 (startQueue inv) [].
Proof.
  assert (Hs : startQueue inv = foldl (enqueue 0) (MkBfs ∅ [])
      ((range (hosts inv)).*1 ≫= λ host, (range (neighbours (links inv) host)).*1)).
  { rewrite <-start_fold, foldl_fmap. done. }
  destruct (enqueue_spec 0 ((range (hosts inv)).*1 ≫= λ host, (range (neighbours (links inv) host)).*1)
    (MkBfs ∅ [])) as (fresh & Hq & Hnd & Hin & Hd). rewrite <-Hs in Hq, Hd. cbn [queue depth app] in *.
  assert (Hfresh : ∀ x, x ∈ fresh ↔ ∃ h, isHost h ∧ linked h x).
  { intros x. rewrite Hin, list_elem_of_bind, lookup_empty. setoid_rewrite elem_of_neighbours.
    setoid_rewrite range_perm. setoid_rewrite elem_of_keys. unfold isHost. naive_solver. }
  assert (Hd' : ∀ x, depth (startQueue inv) !! x = if decide (x ∈ fresh) then Some 0%nat else None).
  { intros x. by rewrite Hd, lookup_empty. }
  assert (Hzero : ∀ x d, depth (startQueue inv) !! x = Some d → d = 0%nat ∧ x ∈ fresh).
  { intros x d. rewrite Hd'. case_decide; naive_solver. }
  split; rewrite ?Hq; try done.
  - intros x. rewrite Hd'. case_decide; split; naive_solver.
  - intros x (h & Hh & Hl)%Hfresh. destruct (wf_known Hwf x h) as [Hx|]; [by apply (wf_sym Hwf)| |done].
    by destruct (wf_hosts Hwf h x).
  - lia.
  - intros x h Hh Hl. rewrite Hd', decide_True; [done|]. apply Hfresh. eauto.
  - intros x Hx. apply Hfresh. by eapply Hzero.
  - intros x d Hx. by destruct (Hzero _ _ Hx).
  - intros i j x y _ Hx _. unfold dep. rewrite (Hd' x). case_decide; simpl; lia.
  - intros x _. unfold dep. rewrite Hd'. by case_decide.
  - intros i x y _ _ _. unfold dep. rewrite (Hd' y). case_decide; simpl; lia.
  - intros x y Hx. simpl in Hx. set_solver.
Qed.

(** A step changes no depth that is known. *)
Definition advance (st : bfs) (id : string) : bfs :=
  foldl (enqueue (S (dep st id))) st (filter isSwitch (range (neighbours (links inv) id)).*1).

Lemma advance_spec offset st layers id : searching offset st layers → queue st !! offset = Some id →
  ∃ fresh, queue (advance st id) = queue st ++ fresh ∧ NoDup fresh ∧
    (∀ x, x ∈ fresh ↔ isSwitch x ∧ linked id x ∧ x ∉ queue st) ∧
    (∀ x, depth (advance st id) !! x = if decide (x ∈ fresh) then Some (S (dep st id)) else depth st !! x) ∧
    (∀ x, x ∈ fresh → dep (advance st id) x = S (dep st id)) ∧
    (∀ x, x ∉ fresh → dep (advance st id) x = dep st x).
Proof.
  intros Hs Hid. destruct (enqueue_spec (S (dep st id)) (filter isSwitch (range (neighbours (links inv) id)).*1) st)
    as (fresh & Hq & Hnd & Hin & Hd). exists fresh. split_and!; [done|done| |done| |].
  - intros x. rewrite Hin, list_elem_of_filter, elem_of_neighbours, (s_dom _ _ _ Hs), eq_None_not_Some. tauto.
  - intros x Hx. unfold dep at 1, advance. by rewrite Hd, decide_True.
  - intros x Hx. unfold dep at 1, advance. by rewrite Hd, decide_False.
Qed.

Lemma last_processed offset st layers id : searching offset st layers → queue st !! offset = Some id →
  match last (take offset (queue st)) with
  | Some p => (dep st p <= dep st id <= S (dep st p))%nat
  | None => dep st id = 0%nat
  end.
Proof.
  intros Hs Hid. destruct offset as [|n]; [by apply (s_first _ _ _ Hs)|].
  assert (is_Some (queue st !! n)) as [p Hp] by (apply lookup_lt_is_Some; apply lookup_lt_Some in Hid; lia).
  rewrite (take_S_r _ _ _ Hp), last_snoc. split; [by eapply (s_mono _ _ _ Hs n (S n)); [lia|..]|].
  eapply (s_window _ _ _ Hs n); [lia|done|]. by eapply list_elem_of_lookup_2.
Qed.

Lemma processed_depth offset st layers x : searching offset st layers → x ∈ take offset (queue st) →
  (dep st x < length layers)%nat.
Proof.
  intros Hs Hx. apply elem_of_take in Hx as (i & Hi & Hlt). rewrite (s_length _ _ _ Hs).
  destruct offset as [|n]; [lia|]. pose proof (s_offset _ _ _ Hs).
  assert (is_Some (queue st !! n)) as [p Hp] by (apply lookup_lt_is_Some; lia).
  rewrite (take_S_r _ _ _ Hp), last_snoc. apply Nat.lt_succ_r. eapply (s_mono _ _ _ Hs i n); [lia|done..].
Qed.

(** The layers are filled in order. *)
Lemma addToLayer_spec layers d id : (d = length layers ∨ S d = length layers) →
  length (addToLayer layers d id) = S d ∧
  ∀ e layer, addToLayer layers d id !! e = Some layer →
    ∃ old, layer = (if decide (e = d) then old ++ [id] else old) ∧ (layers !! e = Some old ∨ (e = length layers ∧ old = [])).
Proof.
  intros Hd. unfold addToLayer. set (grown := if (length layers <=? d)%nat then _ else _).
  assert (Hg : length grown = S d ∧ ∀ e old, grown !! e = Some old → layers !! e = Some old ∨ e = length layers ∧ old = []).
  { unfold grown. destruct (Nat.leb_spec (length layers) d).
    - rewrite length_app. simpl. split; [lia|]. intros e old [?|[Hle He]]%lookup_app_Some; [by left|right].
      destruct (e - length layers)%nat eqn:E; [|done]. simplify_eq/=. split; [lia|done].
    - split; [lia|]. eauto. }
  destruct Hg as [Hlen Hg]. split; [by rewrite length_alter|]. intros e layer. case_decide as He.
  - subst e. rewrite list_lookup_alter_eq, fmap_Some. intros (old & Hold & ->). eauto.
  - rewrite list_lookup_alter_ne by done. eauto.
Qed.

Lemma searching_step offset st layers id : searching offset st layers → queue st !! offset = Some id →
  searching (S offset) (advance st id) (addToLayer layers (dep st id) id).
Proof.
  intros Hs Hid. destruct (advance_spec _ _ _ _ Hs Hid) as (fresh & Hq & Hnd & Hin & Hd & Hdf & Hdo).
  set (st' := advance st id) in *. pose proof (last_processed _ _ _ _ Hs Hid) as Hlast.
  assert (Hidq : id ∈ queue st) by (by eapply list_elem_of_lookup_2).
  assert (Hlt : (offset < length (queue st))%nat) by (by eapply lookup_lt_Some).
  assert (Hold : ∀ x, x ∈ queue st → x ∉ fresh) by (intros x Hx (_ & _ & ?)%Hin; done).
  assert (Hdep : ∀ x, x ∈ queue st → dep st' x = dep st x) by (intros x Hx; apply Hdo; auto).
  assert (Hidd : depth st !! id = Some (dep st id)).
  { apply (s_dom _ _ _ Hs) in Hidq as [d E]. unfold dep. by rewrite E. }
  assert (Htake : take (S offset) (queue st') = take offset (queue st) ++ [id]).
  { rewrite Hq, take_app_le by lia. by apply take_S_r. }
  assert (Hlookup : ∀ i x, queue st' !! i = Some x →
    (queue st !! i = Some x ∧ dep st' x = dep st x) ∨ ((length (queue st) <= i)%nat ∧ dep st' x = S (dep st id))).
  { rewrite Hq. intros i x [Hx|[Hle Hx]]%lookup_app_Some.
    - left. split; [done|]. apply Hdep. by eapply list_elem_of_lookup_2.
    - right. split; [done|]. apply Hdf. by eapply list_elem_of_lookup_2. }
  assert (Hbound : ∀ y, y ∈ queue st' → (dep st' y <= S (dep st id))%nat).
  { intros y (j & Hj)%list_elem_of_lookup. destruct (Hlookup _ _ Hj) as [[Hy ->]|[_ ->]]; [|lia].
    eapply (s_window _ _ _ Hs offset); [lia|done|]. by eapply list_elem_of_lookup_2. }
  assert (Hlay : dep st id = length layers ∨ S (dep st id) = length layers).
  { rewrite (s_length _ _ _ Hs). destruct (last _); lia. }
  destruct (addToLayer_spec layers (dep st id) id Hlay) as [Hlen Hlayers].
  split.
  - rewrite Hq. apply NoDup_app. split_and!; [apply Hs|set_solver|done].
  - intros x. rewrite Hq, elem_of_app, Hd, (s_dom _ _ _ Hs). case_decide; naive_solver.
  - intros x. rewrite Hq, elem_of_app. intros [?|?%Hin]; [by apply (s_switch _ _ _ Hs)|tauto].
  - rewrite Hq, length_app. lia.
  - intros x h Hh Hl. pose proof (s_start _ _ _ Hs x h Hh Hl) as Hx. rewrite Hd, decide_False; [done|].
    apply Hold, (s_dom _ _ _ Hs). by eexists.
  - intros x. rewrite Hd. case_decide; [done|]. apply (s_zero _ _ _ Hs).
  - intros x d. rewrite Hd. case_decide as Hx.
    + intros [= <-]. exists id. split; [|by apply Hin]. rewrite Hd, decide_False by auto. done.
    + intros (y & Hy & Hl)%(s_above _ _ _ Hs). exists y. split; [|done]. rewrite Hd, decide_False; [done|].
      apply Hold, (s_dom _ _ _ Hs). by eexists.
  - intros i j x y Hij Hx Hy.
    destruct (Hlookup _ _ Hx) as [[Hx' ->]|[Hi ->]], (Hlookup _ _ Hy) as [[Hy' ->]|[Hj ->]].
    + by eapply (s_mono _ _ _ Hs i j).
    + eapply (s_window _ _ _ Hs offset); [lia|done|]. by eapply list_elem_of_lookup_2.
    + apply lookup_lt_Some in Hy'. lia.
    + lia.
  - intros x Hx. destruct (Hlookup _ _ Hx) as [[Hx' ->]|[Hi _]]; [by apply (s_first _ _ _ Hs)|lia].
  - intros i x y Hi Hx Hy. etrans; [by apply Hbound|]. apply le_n_S.
    destruct (Hlookup _ _ Hx) as [[Hx' ->]|[_ ->]]; [|lia]. eapply (s_mono _ _ _ Hs offset i); [lia|done..].
  - intros x y. rewrite Htake, elem_of_app, list_elem_of_singleton. intros [Hx| ->] Hl Hy.
    + destruct (s_closed _ _ _ Hs x y Hx Hl Hy) as (d & Hyd & Hle). exists d.
      apply elem_of_take in Hx as (i & Hi & _).
      rewrite Hd, Hdep by (by eapply list_elem_of_lookup_2). rewrite decide_False; [done|].
      apply Hold, (s_dom _ _ _ Hs). by eexists.
    + destruct (decide (y ∈ queue st)) as [Hyq|Hyq].
      * pose proof Hyq as [d Hyd]%(s_dom _ _ _ Hs). exists d. rewrite Hd, decide_False, (Hdep id) by auto. split; [done|].
        rewrite <-(dep_eq _ _ _ Hyd). by eapply (s_window _ _ _ Hs offset); [lia|..].
      * exists (S (dep st id)). rewrite Hd, decide_True by (by apply Hin). rewrite Hdep by done. split; [done|lia].
  - rewrite Htake, last_snoc, Hdep by done. done.
  - intros e layer He. destruct (Hlayers _ _ He) as (old & -> & Hold').
    assert (NoDup old ∧ ∀ x, x ∈ old ↔ x ∈ take offset (queue st) ∧ dep st x = e) as [Hond Hoin].
    { destruct Hold' as [Ho|[-> ->]]; [by apply (s_layers _ _ _ Hs)|]. split; [constructor|].
      intros x. split; [set_solver|]. intros [Hx He']. exfalso.
      pose proof (processed_depth _ _ _ _ Hs Hx). lia. }
    assert (id ∉ old) as Hid'.
    { intros [Hi _]%Hoin. apply elem_of_take in Hi as (i & Hi & Hlti).
      pose proof (NoDup_lookup _ _ _ _ (s_nodup _ _ _ Hs) Hi Hid). lia. }
    split.
    + case_decide; [|done]. apply NoDup_app. split_and!; [done|set_solver|apply NoDup_singleton].
    + intros x. rewrite Htake, elem_of_app, list_elem_of_singleton.
      assert (x ∈ take offset (queue st) → dep st' x = dep st x) as Hx.
      { intros (i & Hi & _)%elem_of_take. apply Hdep. by eapply list_elem_of_lookup_2. }
      case_decide as He'; rewrite ?elem_of_app, ?list_elem_of_singleton, Hoin.
      * split; [intros [[? ?]| ->]; [rewrite Hx by done; tauto|rewrite Hdep by done; split; [by right|done]]|].
        intros [[Hp| ->] E]; [left; rewrite <-Hx by done; done|by right].
      * split; [intros [? ?]; rewrite Hx by done; tauto|].
        intros [[Hp| ->] E]; [rewrite <-Hx by done; done|]. rewrite Hdep in E by done. congruence.
Qed.

Lemma searching_end st layers : ∀ fuel offset, searching offset st layers →
  (size (switches inv) <= offset + fuel)%nat →
  ∃ st' layers', bfsLoop fuel inv offset st layers = Some (st', layers') ∧
    searching (length (queue st')) st' layers'.
Proof.
  intros fuel. revert st layers. induction fuel as [|fuel IH]; intros st layers offset Hs Hfuel; cbn [bfsLoop].
  - assert (offset = length (queue st)) as ->.
    { apply Nat.le_antisymm; [apply Hs|]. etrans; [|etrans; [exact Hfuel|lia]].
      rewrite <-(size_list_to_set (C := gset string) (queue st)) by apply Hs. rewrite <-size_dom. apply subseteq_size.
      intros x Hx%elem_of_list_to_set. apply elem_of_dom. by apply (s_switch _ _ _ Hs). }
    rewrite lookup_ge_None_2 by done. eauto.
  - destruct (queue st !! offset) as [id|] eqn:Hid.
    + rewrite enqueue_switches. apply (IH _ _ (S offset)); [by apply searching_step|lia].
    + apply lookup_ge_None in Hid. assert (offset = length (queue st)) as -> by (pose proof (s_offset _ _ _ Hs); lia). eauto.
Qed.

(** Depths are distances from the compute endpoints, and a layer holds the
    switches of one depth. *)
Record layered (depth : gmap string nat) (layers : list (list string)) : Prop := {
  l_zero : ∀ x, depth !! x = Some 0%nat ↔ ∃ h, isHost h ∧ linked h x;
  l_above : ∀ x d, depth !! x = Some (S d) → ∃ y, depth !! y = Some d ∧ linked y x;
  l_closed : ∀ x y d, depth !! x = Some d → linked x y → isSwitch y → ∃ e, depth !! y = Some e ∧ (e <= S d)%nat;
  l_switch : ∀ x d, depth !! x = Some d → isSwitch x;
  l_layers : ∀ d layer, layers !! d = Some layer → NoDup layer ∧ ∀ x, x ∈ layer ↔ depth !! x = Some d;
  l_all : ∀ x d, depth !! x = Some d → is_Some (layers !! d)
}.

Lemma switchDepths_spec : ∃ depth layers, switchDepths inv = Some (depth, layers) ∧ layered depth layers.
Proof.
  destruct (searching_end _ _ (size (switches inv)) 0 searching_start) as (st & layers & Hrun & Hs); [lia|].
  unfold switchDepths. rewrite Hrun. eexists _, _. split; [done|].
  assert (Hin : ∀ x d, depth st !! x = Some d ↔ x ∈ queue st ∧ dep st x = d).
  { intros x d. rewrite (s_dom _ _ _ Hs). unfold dep. split; [intros ->; split; [by eexists|done]|].
    by intros [[e ->] <-]. }
  pose proof Hs as Hs'. destruct Hs' as [_ _ Hsw _ Hstart Hzero Habove _ _ _ Hclosed Hlen Hlay].
  rewrite firstn_all in Hclosed, Hlen, Hlay. split.
  - intros x. split; [apply Hzero|]. intros (h & Hh & Hl). by eapply Hstart.
  - done.
  - intros x y d [Hx <-]%Hin. by apply Hclosed.
  - intros x d [Hx _]%Hin. by apply Hsw.
  - intros d layer. rewrite list_lookup_fmap, fmap_Some. intros (l & Hl & ->).
    destruct (Hlay _ _ Hl) as [Hnd Hx]. split; [by rewrite sort_strings_perm|]. intros x.
    by rewrite elem_of_sort_strings, Hx, Hin.
  - intros x d [Hx <-]%Hin. rewrite list_lookup_fmap. apply fmap_is_Some, lookup_lt_is_Some. rewrite Hlen.
    rewrite <-(firstn_all (queue st)) in Hx. pose proof (processed_depth _ _ _ _ Hs Hx) as Hp.
    rewrite Hlen in Hp. done.
Qed.

(** ** One round *)

Definition eligible (depth : gmap string nat) (level : nat) (peer : string) : Prop :=
  (isHost peer ∧ level = 0%nat) ∨
  (¬ isHost peer ∧ Z.of_nat (default 0%nat (depth !! peer)) = Z.of_nat level - 1).
#[local] Instance eligible_dec depth level peer : Decision (eligible depth level peer).
Proof. unfold eligible. apply _. Defined.

Definition group (groups : gmap string string) (x : string) : string := default "" (groups !! x).

Definition childOf (depth : gmap string nat) (level : nat) (groups : gmap string string) (x c : string) : Prop :=
  ∃ peer, linked x peer ∧ eligible depth level peer ∧ c = group groups peer.

Lemma mergePeer_eq fuel depth level groups id st peer :
  mergePeer fuel inv depth level groups id st peer =
  if decide (eligible depth level peer) then mergeChild fuel id st (group groups peer) else Some st.
Proof.
  unfold mergePeer, eligible. fold (isHost peer). destruct (decide _) as [He|He].
  - destruct He as [[Hh ->]|[Hh Hd]]; [by rewrite bool_decide_true by done|].
    by rewrite bool_decide_false, bool_decide_true by done.
  - destruct (decide (isHost peer)) as [Hh|Hh].
    + rewrite bool_decide_true by done. destruct level; [tauto|done].
    + rewrite bool_decide_false by done. case_bool_decide; [tauto|done].
Qed.

Section Round.
Context (depth : gmap string nat) (level : nat) (groups : gmap string string) (layer : list string).

Lemma mergeSwitch_spec pairs st id : (∀ p, p ∈ pairs → p.1 ∈ layer) → id ∈ layer → merged layer pairs st →
  ∃ st', mergeSwitch (length layer) inv depth level groups st id = Some st' ∧
    ∃ pairs', merged layer pairs' st' ∧
      ∀ x c, (x, c) ∈ pairs' ↔ (x, c) ∈ pairs ∨ (x = id ∧ childOf depth level groups id c).
Proof.
  intros Hpl Hid Hm. unfold mergeSwitch.
  destruct (foldO_prefix_inv (λ ps st, ∃ pairs', merged layer pairs' st ∧ (∀ p, p ∈ pairs' → p.1 ∈ layer) ∧
      ∀ x c, (x, c) ∈ pairs' ↔ (x, c) ∈ pairs ∨ (x = id ∧ ∃ peer, peer ∈ ps ∧ eligible depth level peer ∧ c = group groups peer))
    (mergePeer (length layer) inv depth level groups id) (range (neighbours (links inv) id)).*1 st)
    as (st' & Hrun & pairs' & Hm' & _ & Hin).
  - exists pairs. split_and!; [done|done|]. set_solver.
  - intros ps peer rest t _ (pairs' & Hm' & Hpl' & Hin). rewrite mergePeer_eq. case_decide as He.
    + destruct (mergeChild_spec layer pairs' t id (group groups peer) Hpl' Hid Hm') as (t' & Ht & Hm'').
      exists t'. split; [done|]. eexists. split; [done|]. split.
      * intros p. rewrite elem_of_app, list_elem_of_singleton. by intros [?| ->]; [apply Hpl'|].
      * intros x c. rewrite elem_of_app, list_elem_of_singleton, Hin. setoid_rewrite elem_of_app.
        setoid_rewrite list_elem_of_singleton. naive_solver.
    + exists t. split; [done|]. exists pairs'. split_and!; [done|done|]. intros x c. rewrite Hin.
      setoid_rewrite elem_of_app. setoid_rewrite list_elem_of_singleton. naive_solver.
  - exists st'. split; [done|]. exists pairs'. split; [done|]. intros x c. rewrite Hin.
    setoid_rewrite elem_of_neighbours. done.
Qed.

(** What the children of the switches of the layer are. *)
Definition layerPairs (pairs : list (string * string)) : Prop :=
  ∀ x c, (x, c) ∈ pairs ↔ x ∈ layer ∧ childOf depth level groups x c.

Lemma identity_map (l : list string) x : foldl (λ rep id, <[id := id]> rep) (∅ : gmap string string) l !! x =
  if decide (x ∈ l) then Some x else None.
Proof.
  apply (foldl_prefix_inv (λ l1 (m : gmap string string), m !! x = if decide (x ∈ l1) then Some x else None)
    (λ rep id, <[id := id]> rep) l ∅); [done|].
  intros l1 y l2 t _ Ht. destruct (decide (y = x)) as [->|].
  - by rewrite lookup_insert_eq, decide_True by set_solver.
  - rewrite lookup_insert_ne, Ht by done. repeat case_decide; set_solver.
Qed.

Lemma merged_start : merged layer [] (MkMerging (foldl (λ rep id, <[id := id]> rep) ∅ layer) ∅).
Proof.
  split; cbn [rep children].
  - split.
    + intros x. rewrite identity_map. case_decide; split; [done|by eexists|by intros []|done].
    + intros x y. rewrite identity_map. case_decide; [|done]. intros [= <-]. done.
  - intros c p. by rewrite lookup_empty.
  - intros x c. set_solver.
  - intros x y Hx Hy. unfold same. split.
    + intros (r & H1 & H2). assert (∀ z s, root (foldl (λ rep id, <[id := id]> rep) ∅ layer) z s → s = z) as Hid.
      { intros z s. destruct 1 as [|z w s Hw]; [done|]. rewrite identity_map in Hw. case_decide; congruence. }
      apply Hid in H1 as ->. by apply Hid in H2 as ->.
    + intros Hr. assert (x = y) as ->. { destruct Hr as [|? ? ? (c & Hc & _)]; [done|set_solver]. }
      exists y. split; apply root_here; by rewrite identity_map, decide_True.
Qed.

Lemma mergeSwitches_spec : ∃ st pairs,
  foldO (mergeSwitch (length layer) inv depth level groups)
    (MkMerging (foldl (λ rep id, <[id := id]> rep) ∅ layer) ∅) layer = Some st ∧
  merged layer pairs st ∧ layerPairs pairs.
Proof.
  destruct (foldO_prefix_inv (λ l1 st, ∃ pairs, merged layer pairs st ∧ (l1 ⊆ layer → ∀ p, p ∈ pairs → p.1 ∈ layer) ∧
      ∀ x c, (x, c) ∈ pairs ↔ x ∈ l1 ∧ childOf depth level groups x c)
    (mergeSwitch (length layer) inv depth level groups) layer
    (MkMerging (foldl (λ rep id, <[id := id]> rep) ∅ layer) ∅)) as (st & Hrun & pairs & Hm & _ & Hin).
  - exists []. split_and!; [apply merged_start|set_solver|set_solver].
  - intros l1 id l2 t Hl (pairs & Hm & Hpl & Hin).
    assert (Hsub : l1 ⊆ layer) by (rewrite Hl; set_solver).
    destruct (mergeSwitch_spec pairs t id (Hpl Hsub)) as (t' & Ht & pairs' & Hm' & Hin'); [rewrite Hl; set_solver|done|].
    exists t'. split; [done|]. exists pairs'. split_and!; [done| |].
    + intros Hsub' [x c] [Hx|[-> _]]%Hin'; [by apply Hpl|]. cbn. apply Hsub'. set_solver.
    + intros x c. rewrite Hin', Hin, elem_of_app, list_elem_of_singleton. naive_solver.
  - eauto.
Qed.

(** ** Recording the roots *)

Lemma recordRoots_spec (l : list (string * string)) rep m : forest layer rep → (∀ kv, kv ∈ l → kv.2 ∈ layer) →
  ∃ rep' m', foldO (recordRoots (length layer)) (rep, m) l = Some (rep', m') ∧ forest layer rep' ∧
    (∀ y s, root rep' y s ↔ root rep y s) ∧
    ∀ k, ((k ∉ l.*1) ∧ m' !! k = m !! k) ∨ ∃ x r, (k, x) ∈ l ∧ root rep x r ∧ m' !! k = Some r.
Proof.
  intros Hf Hl.
  destruct (foldO_prefix_inv (λ l1 (acc : gmap string string * gmap string string), forest layer acc.1 ∧
      (∀ y s, root acc.1 y s ↔ root rep y s) ∧
      ∀ k, ((k ∉ l1.*1) ∧ acc.2 !! k = m !! k) ∨ ∃ x r, (k, x) ∈ l1 ∧ root rep x r ∧ acc.2 !! k = Some r)
    (recordRoots (length layer)) l (rep, m)) as ([rep' m'] & Hrun & Hf' & Hroots & Hm).
  - split_and!; [done|done|]. intros k. left. split; [set_solver|done].
  - intros l1 [k x] l2 [rep1 m1] El (Hf1 & Hroots & Hm). cbn [fst snd] in *.
    assert (Hx : x ∈ layer) by (apply (Hl (k, x)); rewrite El; set_solver).
    destruct (find_spec layer (length layer) rep1 x Hf1 Hx) as (rep2 & r & Hfind & Hf2 & Hr & H2).
    { pose proof (rank_pos _ _ Hx). lia. }
    unfold recordRoots. cbn [fst snd]. rewrite Hfind. cbn. eexists. split; [done|]. cbn [fst snd].
    split_and!; [done|by intros; rewrite H2, Hroots|]. intros k'. destruct (decide (k' = k)) as [->|Hne].
    + right. exists x, r. rewrite lookup_insert_eq. split_and!; [set_solver|by apply Hroots|done].
    + rewrite lookup_insert_ne by done. destruct (Hm k') as [[Hk E]|(y & s & Hin & Hs & E)].
      * left. split; [|done]. rewrite fmap_app. set_solver.
      * right. exists y, s. split_and!; [set_solver|done|done].
  - eauto 10.
Qed.

(** What one round does to [groups] and [parents]. *)
Lemma levelMerged_spec parents : (∀ x, x ∈ layer → groups !! x = None) →
  ∃ groups' parents' pairs, mergeLayer inv depth (groups, parents) level layer = Some (groups', parents') ∧
    layerPairs pairs ∧
    (∀ x, x ∉ layer → groups' !! x = groups !! x) ∧
    (∀ x, x ∈ layer → ∃ r, groups' !! x = Some r ∧ r ∈ layer ∧ String.le r x) ∧
    (∀ x y, x ∈ layer → y ∈ layer → groups' !! x = groups' !! y ↔ rtc (share pairs) x y) ∧
    (∀ x c, (x, c) ∈ pairs → parents' !! c = groups' !! x) ∧
    (∀ c, (∀ x, (x, c) ∉ pairs) → parents' !! c = parents !! c).
Proof.
  intros Hnew. destruct mergeSwitches_spec as (st & pairs & Hrun & Hm & Hpairs). unfold mergeLayer. rewrite Hrun.
  cbn [mbind option_bind]. pose proof Hm as [Hf Hfirst Hch Hsame].
  destruct (recordRoots_spec ((λ id, (id, id)) <$> layer) (rep st) groups) as (rep1 & groups' & -> & Hf1 & Hr1 & Hg);
    [done|by intros kv (x & -> & Hx)%list_elem_of_fmap|]. cbn [mbind option_bind].
  destruct (recordRoots_spec (range (children st)) rep1 parents) as (rep2 & parents' & -> & Hf2 & Hr2 & Hp);
    [done| |]. { intros [c p] Hin%elem_of_range. apply Hfirst, Hpairs in Hin. by destruct Hin. }
  cbn [mbind option_bind]. exists groups', parents', pairs. split; [done|]. split; [done|].
  assert (Hroot : ∀ x, x ∈ layer → ∃ r, root (rep st) x r ∧ groups' !! x = Some r).
  { intros x Hx. destruct (Hg x) as [[Hn _]|(y & r & (z & [= <- ->] & _)%list_elem_of_fmap & Hr & E)]; [|eauto].
    destruct Hn. rewrite <-list_fmap_compose. apply list_elem_of_fmap. by exists x. }
  split_and!.
  - intros x Hx. destruct (Hg x) as [[_ E]|(y & r & (z & [= <- ->] & Hz)%list_elem_of_fmap & _)]; done.
  - intros x Hx. destruct (Hroot x Hx) as (r & Hr & E). exists r. split; [done|]. by eapply (root_in layer (rep st)).
  - intros x y Hx Hy. rewrite <-Hsame by done. destruct (Hroot x Hx) as (r & Hr & ->), (Hroot y Hy) as (s & Hs & ->).
    split; [intros [= <-]; by exists r|]. intros (t & Hxt & Hyt). f_equal.
    by rewrite (root_fun _ _ _ _ Hr Hxt), (root_fun _ _ _ _ Hs Hyt).
  - intros x c Hin. destruct (Hch _ _ Hin) as [p Hpc]. pose proof (Hfirst _ _ Hpc) as Hpin.
    pose proof (proj1 (proj1 (Hpairs _ _) Hin)) as Hx. pose proof (proj1 (proj1 (Hpairs _ _) Hpin)) as Hpl.
    destruct (Hp c) as [[Hn _]|(y & r & Hy%elem_of_range & Hr & ->)].
    { destruct Hn. apply list_elem_of_fmap. exists (c, p). by rewrite elem_of_range. }
    assert (y = p) as -> by congruence. apply Hr1 in Hr. destruct (Hroot x Hx) as (s & Hs & ->). f_equal.
    destruct (proj2 (Hsame p x Hpl Hx)) as (t & Hpt & Hxt); [apply rtc_once; by exists c|].
    by rewrite (root_fun _ _ _ _ Hr Hpt), (root_fun _ _ _ _ Hs Hxt).
  - intros c Hc. destruct (Hp c) as [[_ E]|(y & r & Hy%elem_of_range & _)]; [done|].
    destruct (Hc y). by apply Hfirst.
Qed.
End Round.

(** ** All rounds *)

Section Levels.
Context (depth : gmap string nat) (layers : list (list string)) (Hlay : layered depth layers).

(** [p] is a child of the switch [x]: a compute endpoint, or a switch of the
    tier below. *)
Definition down (x p : string) : Prop :=
  linked x p ∧ (isHost p ∨ ∃ d, depth !! p = Some d ∧ depth !! x = Some (S d)).

(** Two switches have a child in common, up to the merging of the tier below. *)
Definition siblings (groups : gmap string string) (x y : string) : Prop :=
  ∃ p q, down x p ∧ down y q ∧ groups !! p = groups !! q.

(** The tree when the tiers below [n] have been merged. *)
Record tree_upto (n : nat) (groups parents : gmap string string) : Prop := {
  t_host : ∀ h, isHost h → groups !! h = Some h;
  t_group : ∀ x d, depth !! x = Some d → (d < n)%nat →
    ∃ r, groups !! x = Some r ∧ depth !! r = Some d ∧ String.le r x;
  t_dom : ∀ x, is_Some (groups !! x) → isHost x ∨ ∃ d, depth !! x = Some d ∧ (d < n)%nat;
  t_class : ∀ x y d, (d < n)%nat → depth !! x = Some d → depth !! y = Some d →
    groups !! x = groups !! y ↔ rtc (siblings groups) x y;
  t_up : ∀ x d p, depth !! x = Some d → (d < n)%nat → down x p →
    ∃ c g, groups !! p = Some c ∧ groups !! x = Some g ∧ parents !! c = Some g;
  t_parent : ∀ c g, parents !! c = Some g → ∃ x d p, depth !! x = Some d ∧ (d < n)%nat ∧ down x p ∧
    groups !! p = Some c ∧ groups !! x = Some g
}.

Lemma depth_not_host x d : depth !! x = Some d → isHost x → False.
Proof. intros Hd Hh. apply (wf_disjoint Hwf x Hh). by apply (l_switch _ _ Hlay x d). Qed.

(** The peers that a round takes are the children. *)
Lemma eligible_down x n p : depth !! x = Some n → linked x p → eligible depth n p ↔ down x p.
Proof.
  intros Hx Hl. unfold eligible, down. split.
  - intros [[Hh ->]|[Hh Hd]]; (split; [done|]); [by left|right].
    destruct (wf_known Hwf p x (wf_sym Hwf _ _ Hl)) as [|Hp]; [done|].
    destruct (l_closed _ _ Hlay x p n Hx Hl Hp) as (e & He & _). rewrite He in Hd. cbn in Hd.
    exists e. split; [done|]. rewrite Hx. f_equal. lia.
  - intros [_ [Hh|(d & Hp & Hd)]].
    + left. split; [done|]. assert (depth !! x = Some 0%nat); [|congruence].
      apply (l_zero _ _ Hlay). exists p. split; [done|]. by apply (wf_sym Hwf).
    + right. split; [intros Hh; exact (depth_not_host _ _ Hp Hh)|]. rewrite Hp. cbn. simplify_eq. lia.
Qed.

Lemma down_group n groups parents x p d : tree_upto n groups parents → depth !! x = Some d → (d <= n)%nat → down x p →
  ∃ c, groups !! p = Some c ∧ (isHost p → c = p) ∧ (∀ e, depth !! p = Some e → depth !! c = Some e).
Proof.
  intros Ht Hx Hd [_ [Hh|(e & Hp & He)]].
  - exists p. split_and!; [by apply (t_host _ _ _ Ht)|done..].
  - assert (e < n)%nat as Hlt by (simplify_eq; lia).
    destruct (t_group _ _ _ Ht p e Hp Hlt) as (r & Hr & Hrd & _). exists r. split; [done|]. split.
    + intros Hh. destruct (depth_not_host _ _ Hp Hh).
    + intros e'. congruence.
Qed.

(** Siblings are of one tier. *)
Lemma siblings_depth n groups parents x y d : tree_upto n groups parents →
  depth !! x = Some d → (d <= n)%nat → siblings groups x y → ∀ e, depth !! y = Some e → (e <= n)%nat → e = d.
Proof.
  intros Ht Hx Hd (p & q & Hp & Hq & Heq) e Hy He.
  destruct (down_group _ _ _ _ _ _ Ht Hx Hd Hp) as (c & Hc & Hch & Hcd).
  destruct (down_group _ _ _ _ _ _ Ht Hy He Hq) as (c' & Hc' & Hch' & Hcd').
  assert (c' = c) as -> by congruence. destruct Hp as [Hlp Hp], Hq as [Hlq Hq].
  assert (Hzero : ∀ z h, linked z h → isHost h → depth !! z = Some 0%nat).
  { intros z h Hl Hh. apply (l_zero _ _ Hlay). exists h. split; [done|]. by apply (wf_sym Hwf). }
  destruct Hp as [Hh|(i & Hi & Hxi)], Hq as [Hh'|(j & Hj & Hyj)].
  - pose proof (Hzero _ _ Hlp Hh). pose proof (Hzero _ _ Hlq Hh'). congruence.
  - destruct (depth_not_host _ _ (Hcd' _ Hj)). by rewrite (Hch Hh).
  - destruct (depth_not_host _ _ (Hcd _ Hi)). by rewrite (Hch' Hh').
  - pose proof (Hcd _ Hi). pose proof (Hcd' _ Hj). congruence.
Qed.

Lemma siblings_next n groups parents x y d : tree_upto n groups parents →
  depth !! x = Some d → (d <= n)%nat → siblings groups x y → depth !! y = Some d.
Proof.
  intros Ht Hx Hd Hs. assert (∃ e, depth !! y = Some e ∧ (e <= n)%nat) as (e & He & Hen).
  { destruct Hs as (p & q & Hp & Hq & Heq). destruct (down_group _ _ _ _ _ _ Ht Hx Hd Hp) as (c & Hc & _).
    rewrite Hc in Heq. destruct Hq as [Hlq [Hh|(e & Hqe & Hye)]].
    - exists 0%nat. split; [|lia]. apply (l_zero _ _ Hlay). exists q. split; [done|]. by apply (wf_sym Hwf).
    - exists (S e). split; [done|]. destruct (t_dom _ _ _ Ht q) as [Hh|(e' & He' & Hlt)]; [by eexists| |].
      + destruct (depth_not_host _ _ Hqe Hh).
      + simplify_eq. lia. }
  by rewrite <-(siblings_depth _ _ _ _ _ _ Ht Hx Hd Hs e He Hen).
Qed.

Section Step.
Context (n : nat) (layer : list string) (groups parents groups' parents' : gmap string string)
  (pairs : list (string * string)) (Hn : layers !! n = Some layer) (Ht : tree_upto n groups parents)
  (Hpairs : layerPairs depth n groups layer pairs)
  (Hout : ∀ x, x ∉ layer → groups' !! x = groups !! x)
  (Hin : ∀ x, x ∈ layer → ∃ r, groups' !! x = Some r ∧ r ∈ layer ∧ String.le r x)
  (Hclass : ∀ x y, x ∈ layer → y ∈ layer → groups' !! x = groups' !! y ↔ rtc (share pairs) x y)
  (Hup : ∀ x c, (x, c) ∈ pairs → parents' !! c = groups' !! x)
  (Hrest : ∀ c, (∀ x, (x, c) ∉ pairs) → parents' !! c = parents !! c).

Lemma in_layer x : x ∈ layer ↔ depth !! x = Some n.
Proof. by apply (l_layers _ _ Hlay). Qed.

Lemma below_same x d p : depth !! x = Some d → (d <= n)%nat → down x p → groups' !! p = groups !! p.
Proof.
  intros Hx Hd [_ Hp]. apply Hout. rewrite in_layer. intros Hpn. destruct Hp as [Hh|(e & He & Hxe)].
  - by destruct (depth_not_host _ _ Hpn Hh).
  - simplify_eq. lia.
Qed.

Lemma pairs_down x c : (x, c) ∈ pairs ↔ depth !! x = Some n ∧ ∃ p, down x p ∧ groups !! p = Some c.
Proof.
  rewrite (Hpairs x c), in_layer. split.
  - intros (Hx & p & Hl & He & ->). split; [done|]. exists p. pose proof (proj1 (eligible_down _ _ _ Hx Hl) He) as Hp.
    split; [done|]. destruct (down_group _ _ _ _ _ _ Ht Hx (le_n n) Hp) as (c & Hc & _).
    unfold group. by rewrite Hc.
  - intros (Hx & p & Hp & Hc). split; [done|]. exists p. pose proof Hp as [Hl _].
    split; [done|]. split; [by apply (eligible_down _ _ _ Hx Hl)|]. unfold group. by rewrite Hc.
Qed.

Lemma siblings_same x y d : depth !! x = Some d → (d <= n)%nat → siblings groups' x y ↔ siblings groups x y.
Proof.
  intros Hx Hd. split.
  - intros (p & q & Hp & Hq & Heq). exists p, q. split_and!; [done..|].
    rewrite (below_same x d p) in Heq by done.
    destruct (down_group _ _ _ _ _ _ Ht Hx Hd Hp) as (c & Hc & Hch & Hcd). rewrite Hc in Heq.
    destruct (decide (q ∈ layer)) as [Hql|Hql]; [|by rewrite Hc, Heq, Hout].
    exfalso. destruct (Hin q Hql) as (r & Hr & Hrl%in_layer & _). assert (r = c) as -> by congruence.
    destruct Hp as [_ [Hh|(e & He & Hxe)]].
    + apply (depth_not_host _ _ Hrl). by rewrite (Hch Hh).
    + pose proof (Hcd _ He). simplify_eq. lia.
  - intros Hs. pose proof (siblings_next _ _ _ _ _ _ Ht Hx Hd Hs) as Hy. destruct Hs as (p & q & Hp & Hq & Heq).
    exists p, q. split_and!; [done..|]. rewrite (below_same x d p), (below_same y d q) by done. done.
Qed.

Lemma share_siblings x y : depth !! x = Some n → share pairs x y ↔ siblings groups' x y.
Proof.
  intros Hx. rewrite (siblings_same x y n) by done. split.
  - intros (c & (_ & p & Hp & Hc)%pairs_down & (_ & q & Hq & Hc')%pairs_down). exists p, q. by rewrite Hc, Hc'.
  - intros Hs. pose proof (siblings_next _ _ _ _ _ _ Ht Hx (le_n n) Hs) as Hy. destruct Hs as (p & q & Hp & Hq & Heq).
    destruct (down_group _ _ _ _ _ _ Ht Hx (le_n n) Hp) as (c & Hc & _).
    exists c. rewrite !pairs_down. split; (split; [done|]); [exists p|exists q]; (split; [done|]); congruence.
Qed.

(** Children of this round are not children of an earlier one. *)
Lemma pairs_new x y d p c : depth !! x = Some d → (d < n)%nat → down x p → groups !! p = Some c → (y, c) ∉ pairs.
Proof.
  intros Hx Hd Hp Hc (Hy & q & Hq & Hc')%pairs_down.
  destruct (down_group _ _ _ _ _ _ Ht Hx ltac:(lia) Hp) as (c1 & Hc1 & Hch & Hcd).
  destruct (down_group _ _ _ _ _ _ Ht Hy (le_n n) Hq) as (c2 & Hc2 & Hch' & Hcd').
  assert (c1 = c) as -> by congruence. assert (c2 = c) as -> by congruence.
  destruct Hp as [Hlp Hp], Hq as [Hlq Hq]. destruct Hq as [Hh|(j & Hj & Hyj)].
  { assert (depth !! y = Some 0%nat); [|simplify_eq; lia]. apply (l_zero _ _ Hlay). exists q.
    split; [done|]. by apply (wf_sym Hwf). }
  pose proof (Hcd' _ Hj) as Hcj. destruct Hp as [Hh|(i & Hi & Hxi)].
  - apply (depth_not_host _ _ Hcj). by rewrite (Hch Hh).
  - pose proof (Hcd _ Hi). simplify_eq. lia.
Qed.

Lemma tree_step : tree_upto (S n) groups' parents'.
Proof.
  assert (Hkeep : ∀ x d, depth !! x = Some d → (d < n)%nat → groups' !! x = groups !! x).
  { intros x d Hx Hd. apply Hout. rewrite in_layer. intros ?. simplify_eq. lia. }
  assert (Hcases : ∀ d, (d < S n)%nat → (d < n)%nat ∨ d = n) by lia. split.
  - intros h Hh. rewrite Hout; [by apply (t_host _ _ _ Ht)|]. rewrite in_layer. intros Hd. by apply (depth_not_host _ _ Hd).
  - intros x d Hx [Hd| ->]%Hcases; [rewrite (Hkeep x d) by done; by apply (t_group _ _ _ Ht)|].
    destruct (Hin x) as (r & Hr & Hrl%in_layer & Hle); [by apply in_layer|]. eauto.
  - intros x Hx. destruct (decide (x ∈ layer)) as [Hl%in_layer|Hl]; [right; exists n; split; [done|lia]|].
    rewrite Hout in Hx by done. destruct (t_dom _ _ _ Ht x Hx) as [|(d & ? & ?)]; [by left|right; exists d; split; [done|lia]].
  - intros x y d [Hd| ->]%Hcases Hx Hy.
    + rewrite (Hkeep x d), (Hkeep y d) by done. rewrite (t_class _ _ _ Ht x y d) by done.
      apply (rtc_agree (λ z, depth !! z = Some d)); [| |done].
      * intros a b Ha. symmetry. apply (siblings_same a b d); [done|lia].
      * intros a b Ha Hs. by apply (siblings_next _ _ _ a b d Ht Ha ltac:(lia)).
    + rewrite Hclass by (by apply in_layer). apply (rtc_agree (λ z, depth !! z = Some n)); [| |done].
      * intros a b Ha. by apply share_siblings.
      * intros a b Ha Hs. apply (siblings_next _ _ _ a b n Ht Ha (le_n n)).
        apply (siblings_same a b n); [done|done|]. by apply share_siblings.
  - intros x d p Hx Hd Hp. destruct (down_group n groups parents x p d Ht Hx ltac:(lia) Hp) as (c & Hc & _).
    destruct (Hcases _ Hd) as [Hlt| ->].
    + destruct (t_up _ _ _ Ht x d p Hx Hlt Hp) as (c' & g & Hc' & Hg & Hpar). exists c', g.
      rewrite (below_same x d p), (Hkeep x d), Hrest by (done || lia || (intros y; by apply (pairs_new x y d p c'))). done.
    + destruct (Hin x) as (r & Hr & _); [by apply in_layer|]. exists c, r.
      rewrite (below_same x n p) by done. split_and!; [done|done|]. rewrite (Hup x); [done|]. apply pairs_down. eauto.
  - intros c g Hcg. destruct (decide (c ∈ pairs.*2)) as [([x c'] & -> & Hxc)%list_elem_of_fmap|Hno].
    + cbn [snd] in *. rewrite (Hup x) in Hcg by done. apply pairs_down in Hxc as (Hx & p & Hp & Hc).
      exists x, n, p. split_and!; [done|lia|done| |done]. by rewrite (below_same x n p).
    + rewrite Hrest in Hcg.
      2:{ intros x Hxc. apply Hno, list_elem_of_fmap. by exists (x, c). }
      destruct (t_parent _ _ _ Ht c g Hcg) as (x & d & p & Hx & Hd & Hp & Hc & Hg). exists x, d, p.
      rewrite (below_same x d p), (Hkeep x d) by (done || lia). split_and!; [done|lia|done..].
Qed.
End Step.

Lemma mergeLayers_spec : ∀ rest n groups parents, drop n layers = rest → tree_upto n groups parents →
  ∃ groups' parents', mergeLayers inv depth (groups, parents) n rest = Some (groups', parents') ∧
    tree_upto (n + length rest) groups' parents'.
Proof.
  induction rest as [|layer rest IH]; intros n groups parents Hdrop Ht; cbn [mergeLayers].
  { exists groups, parents. by rewrite Nat.add_0_r. }
  assert (Hn : layers !! n = Some layer).
  { rewrite <-(Nat.add_0_r n), <-lookup_drop, Hdrop. done. }
  destruct (levelMerged_spec depth n groups layer parents) as (groups' & parents' & pairs & -> & H1 & H2 & H3 & H4 & H5 & H6).
  { intros x Hx. apply (l_layers _ _ Hlay _ _ Hn) in Hx as Hd. apply eq_None_not_Some. intros Hg.
    destruct (t_dom _ _ _ Ht x Hg) as [Hh|(d & Hd' & Hlt)]; [by apply (depth_not_host _ _ Hd)|]. simplify_eq. lia. }
  cbn [mbind option_bind]. destruct (IH (S n) groups' parents') as (g & p & -> & Htree).
  - by rewrite <-Nat.add_1_r, <-drop_drop, Hdrop.
  - by eapply tree_step.
  - exists g, p. split; [done|]. simpl. by rewrite Nat.add_succ_r.
Qed.
End Levels.

(** The tree of all tiers. *)
Lemma hierarchy_spec : ∃ depth layers groups parents,
  switchDepths inv = Some (depth, layers) ∧ layered depth layers ∧
  hierarchy inv = Some (groups, parents) ∧ tree_upto depth (length layers) groups parents.
Proof.
  destruct switchDepths_spec as (depth & layers & Hd & Hlay). exists depth, layers.
  destruct (mergeLayers_spec depth layers Hlay layers 0 (map_imap (λ host _, Some host) (hosts inv)) ∅)
    as (groups & parents & Hm & Ht); [by rewrite drop_0| |].
  - split.
    + intros h [v Hh]. by rewrite map_lookup_imap, Hh.
    + lia.
    + intros x. rewrite map_lookup_imap. unfold isHost. destruct (hosts inv !! x); [eauto|]. by intros [].
    + lia.
    + lia.
    + intros c g. by rewrite lookup_empty.
  - exists groups, parents. split_and!; [done|done| |done]. unfold hierarchy. rewrite Hd. cbn [mbind option_bind]. done.
Qed.
End Tree.
End NautobotTree.
