(* ===== verification/NautobotGraph.v ===== *)
(** * The graph of the Nautobot provider

    The theorems about the provider: the tree it makes of an inventory, stated
    with distances from the compute endpoints, and the graph that a request
    gets from it. *)

From S2P Require Import Prelude GoStrings Topology Nautobot NautobotDiscovery NautobotTree.
Open Scope Z_scope.

Module NautobotGraph.
Import Topo Nautobot NautobotTree.

(** ** Tiers *)

Section Tiers.
Context (inv : inventory).

(** A switch at most [n] switches away from one that a compute endpoint is
    connected to. *)
Fixpoint within (n : nat) (x : string) : Prop :=
  match n with
  | O => ∃ h, isHost inv h ∧ linked inv h x
  | S n => within n x ∨ (isSwitch inv x ∧ ∃ y, within n y ∧ linked inv y x)
  end.

(** The distance is [n]. *)
Definition tier (n : nat) (x : string) : Prop := within n x ∧ ∀ m, (m < n)%nat → ¬ within m x.

(** [c] is a child of the switch [x]. *)
Definition child (x c : string) : Prop :=
  linked inv x c ∧ (isHost inv c ∨ ∃ n, tier n c ∧ tier (S n) x).

(** Two switches have children that [groups] does not tell apart. *)
Definition joined (groups : gmap string string) (x y : string) : Prop :=
  ∃ c d, child x c ∧ child y d ∧ groups !! c = groups !! d.

(** A round of parents: [h], the parent of [h], and so on to the top. *)
Inductive chain (parents : gmap string string) : string → list string → Prop :=
| chain_top x : parents !! x = None → chain parents x []
| chain_up x g ids : parents !! x = Some g → chain parents g ids → chain parents x (g :: ids).
End Tiers.

Section Layered.
Context `{RangeOrder} (inv : inventory) (depth : gmap string nat) (layers : list (list string)).
Context (Hlay : layered inv depth layers).

Lemma within_depth n x : within inv n x ↔ ∃ d, depth !! x = Some d ∧ (d <= n)%nat.
Proof.
  revert x. induction n as [|n IH]; intros x; cbn [within].
  - rewrite <-(l_zero _ _ _ Hlay). split; [eauto|]. intros (d & Hd & Hle). by assert (d = 0%nat) as -> by lia.
  - rewrite IH. setoid_rewrite IH. split.
    + intros [(d & Hd & Hle)|(Hx & y & (d & Hd & Hle) & Hl)]; [exists d; split; [done|lia]|].
      destruct (l_closed _ _ _ Hlay y x d Hd Hl Hx) as (e & He & Hle'). exists e. split; [done|lia].
    + intros (d & Hd & Hle). destruct (decide (d <= n)%nat); [left; eauto|right].
      split; [by apply (l_switch _ _ _ Hlay x d)|]. assert (d = S n) as -> by lia.
      destruct (l_above _ _ _ Hlay x n Hd) as (y & Hy & Hl). eauto.
Qed.

Lemma tier_depth n x : tier inv n x ↔ depth !! x = Some n.
Proof.
  unfold tier. rewrite within_depth. setoid_rewrite within_depth. split.
  - intros [(d & Hd & Hle) Hmin]. destruct (decide (d = n)) as [->|]; [done|].
    destruct (Hmin d); [lia|eauto].
  - intros Hn. split; [eauto|]. intros m Hm (d & Hd & Hle). simplify_eq. lia.
Qed.

Lemma child_down x c : child inv x c ↔ down inv depth x c.
Proof. unfold child, down. by setoid_rewrite tier_depth. Qed.

Lemma joined_siblings groups x y : joined inv groups x y ↔ siblings inv depth groups x y.
Proof. unfold joined, siblings. by setoid_rewrite child_down. Qed.
End Layered.

(** ** The inventory *)

Section Inventory.
Context (params : ProviderParams).

(** The devices that count, by identity. *)
Definition present (devices : list device) (id : string) (d : device) : Prop :=
  d ∈ devices ∧ d_ID d = id ∧ excluded params d = false ∧
  (hasRole d (DeviceRole params) = true ∨ hasRole d (SwitchRoles params) = true).

Record kept (seen : list device) (k : known) : Prop := {
  k_present : ∀ id d, k_devices k !! id = Some d ↔ present seen id d;
  k_host : ∀ id d, k_hosts k !! id = Some d ↔ k_devices k !! id = Some d ∧ hasRole d (DeviceRole params) = true;
  k_switch : ∀ id d, k_switches k !! id = Some d ↔ k_devices k !! id = Some d ∧ hasRole d (DeviceRole params) = false;
  k_named : k_devices k !! "" = None;
  k_name : ∀ name id, k_names k !! name = Some id ↔ ∃ d, k_switches k !! id = Some d ∧ d_Name d = name
}.

Lemma present_snoc seen d id e : present (seen ++ [d]) id e ↔ present seen id e ∨ (e = d ∧ present [d] id e).
Proof. unfold present. rewrite elem_of_app, list_elem_of_singleton. naive_solver. Qed.

Lemma addKnown_spec seen k d k' : kept seen k → addKnown params k d = Ok k' → kept (seen ++ [d]) k'.
Proof.
  intros [Hp Hh Hs He Hn]. unfold addKnown.
  assert (Hskip : (∀ id, ¬ present [d] id d) → kept (seen ++ [d]) k).
  { intros Hno. split; [|done..]. intros id e. rewrite present_snoc, <-Hp. naive_solver. }
  destruct (excluded params d) eqn:Hex.
  { intros [= <-]. apply Hskip. intros id (_ & _ & Hx & _). congruence. }
  destruct (bool_decide_reflect (d_ID d = "")) as [|Hid]; [done|].
  destruct (bool_decide_reflect (d_Name d = "")) as [|Hname]; [done|]. cbn [orb].
  destruct (decide (is_Some (k_devices k !! d_ID d))) as [|Hnew%eq_None_not_Some]; [done|].
  assert (Hadd : (hasRole d (DeviceRole params) = true ∨ hasRole d (SwitchRoles params) = true) →
    ∀ id e, <[d_ID d := d]> (k_devices k) !! id = Some e ↔ present (seen ++ [d]) id e).
  { intros Hr id e. rewrite present_snoc, <-Hp, lookup_insert_Some. unfold present. rewrite list_elem_of_singleton.
    split; [intros [[<- <-]|[? ?]]; [by right|by left]|].
    intros [He'|(-> & _ & <- & _)]; [|by left]. right. split; [|done]. intros <-. congruence. }
  assert (Hempty : <[d_ID d := d]> (k_devices k) !! "" = None) by (by rewrite lookup_insert_ne).
  destruct (hasRole d (DeviceRole params)) eqn:Hdr.
  { intros [= <-]. split; cbn [k_devices k_names k_switches k_hosts].
    - apply Hadd. by left.
    - intros id e. rewrite !lookup_insert_Some, Hh. split; [|tauto]. intros [[<- <-]|[? [? ?]]]; [tauto|tauto].
    - intros id e. rewrite Hs, lookup_insert_Some. split.
      + intros [He' Hr]. split; [|done]. right. split; [intros <-; congruence|done].
      + intros [[[_ <-]|[_ ?]] ?]; [congruence|done].
    - done.
    - done. }
  destruct (hasRole d (SwitchRoles params)) eqn:Hsr.
  - destruct (k_names k !! d_Name d) eqn:Hdn; [done|]. intros [= <-].
    split; cbn [k_devices k_names k_switches k_hosts].
    + apply Hadd. by right.
    + intros id e. rewrite Hh, lookup_insert_Some. split.
      * intros [He' Hr]. split; [|done]. right. split; [intros <-; congruence|done].
      * intros [[[_ <-]|[_ ?]] ?]; [congruence|done].
    + intros id e. rewrite !lookup_insert_Some, Hs. split; [|tauto]. intros [[<- <-]|[? [? ?]]]; [tauto|tauto].
    + done.
    + intros name id. rewrite lookup_insert_Some, Hn. setoid_rewrite lookup_insert_Some. split.
      * intros [[<- <-]|[Hne (e & He' & <-)]]; [exists d; split; [by left|done]|].
        exists e. split; [|done]. right. split; [|done]. intros <-. apply Hs in He' as [He' _]. congruence.
      * intros (e & [[<- <-]|[Hne He']] & <-); [by left|]. right. split; [|eauto].
        intros Heq. rewrite Heq in Hdn. assert (k_names k !! d_Name e = Some id) by (apply Hn; eauto). congruence.
  - intros [= <-]. apply Hskip. intros id (_ & _ & _ & [?|?]); congruence.
Qed.

Lemma addKnown_all devices k : foldM (addKnown params) (MkKnown ∅ ∅ ∅ ∅) devices = Ok k → kept devices k.
Proof.
  apply foldM_prefix_inv.
  - split; cbn; intros; rewrite ?lookup_empty; try done; split; try done; unfold present; set_solver.
  - intros l1 d l2 t t' _ Ht Hd. by eapply addKnown_spec.
Qed.

(** ** Devices that are refused *)

(** After [seen]: a device without an identity or a name, with the identity of
    an earlier one, or a switch with the name of an earlier switch. *)
Definition refused (seen : list device) (d : device) : Prop :=
  excluded params d = false ∧
  (d_ID d = "" ∨ d_Name d = "" ∨ (∃ e, present seen (d_ID d) e) ∨
   (hasRole d (DeviceRole params) = false ∧ hasRole d (SwitchRoles params) = true ∧
    ∃ id e, present seen id e ∧ hasRole e (DeviceRole params) = false ∧ d_Name e = d_Name d)).

Lemma addKnown_refused seen k d : kept seen k → (∃ e, addKnown params k d = Err e) ↔ refused seen d.
Proof.
  intros [Hp _ Hs _ Hn]. unfold addKnown, refused.
  destruct (excluded params d); [naive_solver|].
  destruct (bool_decide_reflect (d_ID d = "")) as [|Hid]; [naive_solver|].
  destruct (bool_decide_reflect (d_Name d = "")) as [|Hname]; [naive_solver|]. cbn [orb].
  destruct (decide (is_Some (k_devices k !! d_ID d))) as [[e He]|Hnew%eq_None_not_Some].
  { split; [|by eexists]. intros _. split; [done|]. right. right. left. exists e. by apply Hp. }
  assert (Hfresh : ∀ e, ¬ present seen (d_ID d) e) by (intros e He%Hp; congruence).
  destruct (hasRole d (DeviceRole params)); [naive_solver|].
  destruct (hasRole d (SwitchRoles params)) eqn:Hsr; [|naive_solver].
  destruct (k_names k !! d_Name d) as [id|] eqn:Hdn.
  - split; [|by eexists]. intros _. split; [done|]. right. right. right. split; [done|]. split; [done|].
    apply Hn in Hdn as (e & [He Hr]%Hs & Hen). exists id, e. by rewrite <-Hp.
  - split; [by intros [e He]|]. intros [_ [?|[?|[[e He]|(_ & _ & id & e & He & Hr & Hen)]]]]; [done|done|naive_solver|].
    assert (k_names k !! d_Name d = Some id); [|congruence]. apply Hn. exists e. split; [|done]. apply Hs. by rewrite Hp.
Qed.

Lemma addKnown_all_refused devices :
  (∃ e, foldM (addKnown params) (MkKnown ∅ ∅ ∅ ∅) devices = Err e) ↔
  ∃ l1 d l2, devices = l1 ++ d :: l2 ∧ refused l1 d.
Proof.
  induction devices as [|x devices IH] using rev_ind.
  - split; [by intros [e He]|]. by intros (l1 & d & l2 & ?%app_cons_not_nil & _).
  - rewrite foldM_app. destruct (foldM _ _ devices) as [k|e] eqn:Hk; cbn [mbind result_bind foldM].
    + assert (Hkept := addKnown_all _ _ Hk).
      assert ((∃ e, match addKnown params k x with Ok s' => Ok s' | Err e => Err e end = Err (A := known) e) ↔ refused devices x) as ->.
      { rewrite <-(addKnown_refused _ k x Hkept). by destruct (addKnown params k x). }
      split; [intros Hr; by exists devices, x, []|]. intros (l1 & d & l2 & Heq & Hr).
      destruct l2 as [|y l2 _] using rev_ind; [by apply app_inj_tail in Heq as [-> ->]|].
      rewrite app_comm_cons, app_assoc in Heq. apply app_inj_tail in Heq as [-> ->].
      destruct (proj2 IH) as [e He]; [by exists l1, d, l2|done].
    + split; [|by eexists]. intros _. destruct (proj1 IH) as (l1 & d & l2 & -> & Hr); [by eexists|].
      exists l1, d, (l2 ++ [x]). by rewrite <-app_assoc.
Qed.

(** ** Links *)

Lemma neighbours_insert links a m x :
  neighbours (<[a := m]> links) x = if decide (x = a) then m else neighbours links x.
Proof.
  unfold neighbours. case_decide as He; [subst; by rewrite lookup_insert_eq|by rewrite lookup_insert_ne].
Qed.

Lemma linked_addEdge links a b x y :
  is_Some (neighbours (addEdge links a b) x !! y) ↔ is_Some (neighbours links x !! y) ∨ (x = a ∧ y = b).
Proof.
  unfold addEdge. rewrite neighbours_insert. case_decide as He; [subst|naive_solver].
  rewrite lookup_insert_is_Some. destruct (decide (y = b)); naive_solver.
Qed.

(** A cable of the device [d] to its peer [p] that counts. *)
Definition cable (k : known) (d p : device) : Prop :=
  is_Some (k_devices k !! d_ID p) ∧ d_ID p ≠ d_ID d ∧ excluded params p = false ∧
  ¬ (is_Some (k_hosts k !! d_ID d) ∧ is_Some (k_hosts k !! d_ID p)).

Lemma linked_addLink k d links p x y :
  is_Some (neighbours (addLink params k d links p) x !! y) ↔
  is_Some (neighbours links x !! y) ∨
  (cable k d p ∧ ((x = d_ID d ∧ y = d_ID p) ∨ (x = d_ID p ∧ y = d_ID d))).
Proof.
  unfold addLink, cable.
  destruct (k_devices k !! d_ID p) as [q|]; cbn [orb bool_decide]; [|split; [tauto|intros [?|[[[? [=]] _] _]]; done]].
  rewrite bool_decide_false by done. assert (is_Some (Some q)) by by eexists.
  destruct (bool_decide_reflect (d_ID p = d_ID d)) as [He|He]; cbn [orb]; [tauto|].
  destruct (excluded params p); cbn [orb]; [split; [tauto|intros [?|[(_ & _ & [=] & _) _]]; done]|].
  assert (false = false) by done.
  destruct (bool_decide_reflect (is_Some (k_hosts k !! d_ID d))) as [H1|H1];
    destruct (bool_decide_reflect (is_Some (k_hosts k !! d_ID p))) as [H2|H2]; cbn [andb]; [tauto|..];
    rewrite !linked_addEdge; tauto.
Qed.

Lemma linked_addLinks k d (ps : list device) : ∀ links x y,
  is_Some (neighbours (foldl (addLink params k d) links ps) x !! y) ↔
  is_Some (neighbours links x !! y) ∨
  ∃ p, p ∈ ps ∧ cable k d p ∧ ((x = d_ID d ∧ y = d_ID p) ∨ (x = d_ID p ∧ y = d_ID d)).
Proof.
  induction ps as [|p ps IH]; intros links x y; cbn [foldl]; [set_solver|].
  rewrite IH, linked_addLink. setoid_rewrite elem_of_cons. naive_solver.
Qed.

Section Range.
Context `{RangeOrder}.

Lemma linked_all k (l : list (string * device)) : ∀ links x y,
  is_Some (neighbours (foldl (λ links kv, foldl (addLink params k kv.2) links (peers kv.2)) links l) x !! y) ↔
  is_Some (neighbours links x !! y) ∨
  ∃ kv p, kv ∈ l ∧ p ∈ peers kv.2 ∧ cable k kv.2 p ∧
    ((x = d_ID kv.2 ∧ y = d_ID p) ∨ (x = d_ID p ∧ y = d_ID kv.2)).
Proof.
  induction l as [|kv l IH]; intros links x y; cbn [foldl]; [set_solver|].
  rewrite IH, linked_addLinks. setoid_rewrite elem_of_cons. naive_solver.
Qed.

Lemma inventoryOf_refused devices :
  (∃ e, inventoryOf params devices = Err e) ↔ ∃ l1 d l2, devices = l1 ++ d :: l2 ∧ refused l1 d.
Proof.
  rewrite <-addKnown_all_refused. unfold inventoryOf.
  destruct (foldM _ _ devices) as [k|e]; split; intros [e' He]; try done; by eexists.
Qed.

(** What the inventory of a list of devices is. *)
Lemma inventoryOf_spec devices inv : inventoryOf params devices = Ok inv →
  wf inv ∧
  (∀ id d, hosts inv !! id = Some d ↔ present devices id d ∧ hasRole d (DeviceRole params) = true) ∧
  (∀ id d, switches inv !! id = Some d ↔ present devices id d ∧ hasRole d (DeviceRole params) = false) ∧
  (∀ id1 d1 id2 d2, switches inv !! id1 = Some d1 → switches inv !! id2 = Some d2 → d_Name d1 = d_Name d2 → id1 = id2) ∧
  ∀ a b, linked inv a b ↔ a ≠ b ∧ (isHost inv a ∨ isSwitch inv a) ∧ (isHost inv b ∨ isSwitch inv b) ∧
    ¬ (isHost inv a ∧ isHost inv b) ∧
    ∃ x y d p, ((x = a ∧ y = b) ∨ (x = b ∧ y = a)) ∧ present devices x d ∧ p ∈ peers d ∧ d_ID p = y ∧ excluded params p = false.
Proof.
  intros (k & Hk%addKnown_all & [= <-])%bind_Ok. unfold isHost, isSwitch, linked. cbn [hosts switches links].
  pose proof Hk as [Hp Hh Hs He Hn].
  assert (Hdev : ∀ id, is_Some (k_devices k !! id) ↔ is_Some (k_hosts k !! id) ∨ is_Some (k_switches k !! id)).
  { intros id. split.
    - intros [d Hd]. destruct (hasRole d (DeviceRole params)) eqn:Hr; [left|right]; exists d; [by apply Hh|by apply Hs].
    - intros [[d [Hd _]%Hh]|[d [Hd _]%Hs]]; by exists d. }
  assert (Hlink : ∀ a b, is_Some (neighbours (foldl (λ links kv, foldl (addLink params k kv.2) links (peers kv.2)) ∅
      (range (k_devices k))) a !! b) ↔
    a ≠ b ∧ is_Some (k_devices k !! a) ∧ is_Some (k_devices k !! b) ∧ ¬ (is_Some (k_hosts k !! a) ∧ is_Some (k_hosts k !! b)) ∧
    ∃ x y d p, ((x = a ∧ y = b) ∨ (x = b ∧ y = a)) ∧ present devices x d ∧ p ∈ peers d ∧ d_ID p = y ∧ excluded params p = false).
  { intros a b. rewrite linked_all. unfold neighbours at 1. rewrite lookup_empty. cbn [default from_option id].
    rewrite lookup_empty. split.
    - intros [[]|([id d] & p & Hd%elem_of_range & Hpp & (Hc1 & Hc2 & Hc3 & Hc4) & Hab)]; [done|]. cbn [snd] in *.
      assert (d_ID d = id) as Hid by (by apply Hp in Hd as (_ & ? & _)).
      assert (is_Some (k_devices k !! d_ID d)) by (rewrite Hid; by eexists).
      assert (present devices (d_ID d) d) by (apply Hp; by rewrite Hid).
      destruct Hab as [[-> ->]|[-> ->]]; (split_and!; [done|done|done|tauto|]); exists (d_ID d), (d_ID p), d, p; tauto.
    - intros (Hne & Ha & Hb & Hhh & x & y & d & p & Hxy & Hd & Hpp & <- & Hex). right.
      pose proof Hd as (_ & Hid & _). apply Hp in Hd. exists (x, d), p. cbn [snd].
      split; [by apply elem_of_range|]. split; [done|]. unfold cable. subst x.
      destruct Hxy as [[<- <-]|[<- <-]]; (split; [|tauto]); (split_and!; [done|congruence|done|tauto]). }
  split_and!.
  - split; unfold isHost, isSwitch, linked; cbn [hosts switches links].
    + intros a [d [Hd Hr]%Hh] [e [He' Hr']%Hs]. congruence.
    + intros a b. rewrite !Hlink. intros (? & ? & ? & ? & x & y & d & p & Hxy & Hrest). split_and!; [done..|tauto|].
      exists x, y, d, p. tauto.
    + intros a b (_ & Ha & _)%Hlink. by apply Hdev.
    + intros a b (_ & _ & _ & Hhh & _)%Hlink Ha Hb. tauto.
    + split; intros [d Hd]; [apply Hh in Hd|apply Hs in Hd]; destruct Hd; congruence.
  - intros id d. by rewrite Hh, Hp.
  - intros id d. by rewrite Hs, Hp.
  - intros id1 d1 id2 d2 H1 H2 Hname. assert (k_names k !! d_Name d1 = Some id1) by (apply Hn; eauto).
    assert (k_names k !! d_Name d1 = Some id2) by (apply Hn; eauto). congruence.
  - intros a b. by rewrite Hlink, !Hdev.
Qed.
End Range.
End Inventory.

(** ** The tree *)

Section Tree.
Context `{RangeOrder} (params : ProviderParams) (devices : list device) (inv : inventory).
Context (Hinv : inventoryOf params devices = Ok inv).

Lemma inv_wf : wf inv.
Proof. apply (inventoryOf_spec _ _ _ Hinv). Qed.

Lemma tree_spec : ∃ groups parents, hierarchy inv = Some (groups, parents) ∧
  (∀ h, isHost inv h → groups !! h = Some h) ∧
  (∀ n x, tier inv n x → ∃ r, groups !! x = Some r ∧ tier inv n r ∧ String.le r x) ∧
  (∀ n x y, tier inv n x → tier inv n y → groups !! x = groups !! y ↔ rtc (joined inv groups) x y) ∧
  (∀ x c, child inv x c → ∃ gc gx, groups !! c = Some gc ∧ groups !! x = Some gx ∧ parents !! gc = Some gx) ∧
  (∀ c g, parents !! c = Some g → ∃ x p, child inv x p ∧ groups !! p = Some c ∧ groups !! x = Some g).
Proof.
  destruct (hierarchy_spec inv inv_wf) as (depth & layers & groups & parents & _ & Hlay & Hh & Ht).
  exists groups, parents. split; [done|].
  assert (Htier : ∀ n x, tier inv n x → depth !! x = Some n ∧ (n < length layers)%nat).
  { intros n x Hx%(tier_depth _ _ _ Hlay). split; [done|]. by apply lookup_lt_is_Some, (l_all _ _ _ Hlay x). }
  assert (Hchild : ∀ x c, child inv x c → ∃ n, depth !! x = Some n).
  { intros x c [Hl [Hc|(n & _ & Hx%(tier_depth _ _ _ Hlay))]]; [|eauto]. exists 0%nat. apply (l_zero _ _ _ Hlay).
    exists c. split; [done|]. by apply (wf_sym _ inv_wf). }
  split_and!.
  - apply (t_host _ _ _ _ _ Ht).
  - intros n x [Hx Hn]%Htier. destruct (t_group _ _ _ _ _ Ht x n Hx Hn) as (r & Hr & Hd & Hle).
    exists r. by rewrite (tier_depth _ _ _ Hlay).
  - intros n x y [Hx Hn]%Htier [Hy _]%Htier. rewrite (t_class _ _ _ _ _ Ht x y n Hn Hx Hy).
    split; apply rtc_subrel; intros a b; by rewrite (joined_siblings _ _ _ Hlay).
  - intros x c Hc. destruct (Hchild _ _ Hc) as [n Hx]. apply (t_up _ _ _ _ _ Ht x n c); [done| |by apply (child_down _ _ _ Hlay)].
    by apply lookup_lt_is_Some, (l_all _ _ _ Hlay x).
  - intros c g Hcg. destruct (t_parent _ _ _ _ _ Ht c g Hcg) as (x & n & p & _ & _ & Hp & Hc & Hg).
    exists x, p. by rewrite (child_down _ _ _ Hlay).
Qed.

(** C15: for every inventory the provider ends with a tree. A compute endpoint
    stands for itself; a switch is represented by a switch of its tier (its
    distance from the compute endpoints) with the least identity, and two
    switches of a tier have one representative exactly when a chain of shared
    children joins them, so nothing else is merged. The representative of every
    child of a switch has that switch's representative as its only parent, and
    there are no other parents. *)
Theorem nautobot_tree : ∃ groups parents, hierarchy inv = Some (groups, parents) ∧
  (∀ h, isHost inv h → groups !! h = Some h) ∧
  (∀ n x, tier inv n x → ∃ r, groups !! x = Some r ∧ tier inv n r ∧ String.le r x) ∧
  (∀ n x y, tier inv n x → tier inv n y → groups !! x = groups !! y ↔ rtc (joined inv groups) x y) ∧
  (∀ x c, child inv x c → ∃ gc gx, groups !! c = Some gc ∧ groups !! x = Some gx ∧ parents !! gc = Some gx) ∧
  (∀ c g, parents !! c = Some g → ∃ x p, child inv x p ∧ groups !! p = Some c ∧ groups !! x = Some g).
Proof. apply tree_spec. Qed.

(** ** Chains of parents *)

Section Chains.
Context (groups parents : gmap string string).
Context (Hgroup : ∀ n x, tier inv n x → ∃ r, groups !! x = Some r ∧ tier inv n r).
Context (Hhost : ∀ h, isHost inv h → groups !! h = Some h).
Context (Hparent : ∀ c g, parents !! c = Some g → ∃ x p, child inv x p ∧ groups !! p = Some c ∧ groups !! x = Some g).

Lemma tier_fun n m x : tier inv n x → tier inv m x → n = m.
Proof.
  intros [Hn Hn'] [Hm Hm']. destruct (Nat.lt_trichotomy n m) as [Hlt|[->|Hlt]]; [|done|].
  - by destruct (Hm' n Hlt).
  - by destruct (Hn' m Hlt).
Qed.

Lemma tier_switch n x : tier inv n x → isSwitch inv x ∧ x ≠ "" ∧ ¬ isHost inv x.
Proof.
  intros Hx. destruct (hierarchy_spec inv inv_wf) as (depth & layers & _ & _ & _ & Hlay & _).
  apply (tier_depth _ _ _ Hlay), (l_switch _ _ _ Hlay) in Hx. split; [done|]. split.
  - intros ->. by destruct (wf_named _ inv_wf).
  - intros Hh. by apply (wf_disjoint _ inv_wf x).
Qed.

(** There are more switches than tiers below one. *)
Lemma tier_lt_size n x : tier inv n x → (n < size (switches inv))%nat.
Proof.
  destruct (hierarchy_spec inv inv_wf) as (depth & layers & _ & _ & _ & Hlay & _).
  rewrite (tier_depth _ _ _ Hlay). intros Hx.
  assert (∃ l : list string, NoDup l ∧ length l = S n ∧ ∀ y, y ∈ l → isSwitch inv y ∧ ∃ d, depth !! y = Some d ∧ (d <= n)%nat)
    as (l & Hnd & Hlen & Hl).
  { revert x Hx. induction n as [|n IH]; intros x Hx.
    - exists [x]. split_and!; [apply NoDup_singleton|done|]. intros y ->%list_elem_of_singleton.
      split; [by apply (l_switch _ _ _ Hlay x 0)|eauto].
    - destruct (l_above _ _ _ Hlay x n Hx) as (y & Hy & _). destruct (IH y Hy) as (l & Hnd & Hlen & Hl).
      exists (x :: l). split_and!; [|simpl; lia|].
      + apply NoDup_cons. split; [|done]. intros (_ & d & Hd & Hle)%Hl. simplify_eq. lia.
      + intros z [->|Hz]%elem_of_cons; [split; [by apply (l_switch _ _ _ Hlay x (S n))|eauto]|].
        destruct (Hl z Hz) as (? & d & ? & ?). split; [done|]. exists d. split; [done|lia]. }
  apply (Nat.lt_le_trans _ (length l)); [lia|].
  rewrite <-(size_list_to_set (C := gset string) l), <-size_dom by done. apply subseteq_size.
  intros y Hy%elem_of_list_to_set. apply elem_of_dom. by apply Hl.
Qed.

Lemma parent_up c g : parents !! c = Some g → (isHost inv c ∧ tier inv 0 g) ∨ ∃ n, tier inv n c ∧ tier inv (S n) g.
Proof.
  intros (x & p & [Hl [Hp|(n & Hp & Hx)]] & Hc & Hg)%Hparent.
  - left. rewrite (Hhost _ Hp) in Hc. injection Hc as <-. split; [done|].
    assert (tier inv 0 x) as Hx.
    { split; [|lia]. exists p. split; [done|]. by apply (wf_sym _ inv_wf). }
    destruct (Hgroup 0%nat x Hx) as (r & Hr & Htr). congruence.
  - right. exists n. destruct (Hgroup n p Hp) as (r & Hr & Htr), (Hgroup (S n) x Hx) as (s & Hs & Hts).
    by simplify_eq.
Qed.

Lemma ancestors_switch fuel : ∀ c n, tier inv n c → (size (switches inv) <= fuel + S n)%nat →
  ∃ ids, ancestors fuel parents c = Some ids ∧ chain parents c ids ∧
    ∀ i id, ids !! i = Some id → tier inv (n + S i) id.
Proof.
  induction fuel as [|fuel IH]; intros c n Hc Hsize; cbn [ancestors]; destruct (parents !! c) as [g|] eqn:Hg;
    cbn [default from_option id].
  2,4: exists []; split_and!; [by rewrite decide_True|by constructor|done].
  - destruct (parent_up c g Hg) as [[Hh _]|(m & Hm & Htg)]; [by destruct (tier_switch _ _ Hc) as (_ & _ & ?)|].
    rewrite (tier_fun _ _ _ Hm Hc) in Htg. apply tier_lt_size in Htg. lia.
  - destruct (parent_up c g Hg) as [[Hh _]|(m & Hm & Htg)]; [by destruct (tier_switch _ _ Hc) as (_ & _ & ?)|].
    rewrite (tier_fun _ _ _ Hm Hc) in Htg. rewrite decide_False by (by eapply tier_switch).
    destruct (IH g (S n) Htg) as (ids & -> & Hch & Htiers); [lia|]. cbn. exists (g :: ids).
    split_and!; [done|by eapply chain_up|]. intros [|i] id; simpl.
    + intros [= <-]. by rewrite Nat.add_1_r.
    + intros Hi%Htiers. by rewrite Nat.add_succ_r.
Qed.

Lemma ancestors_host h : isHost inv h → ∃ ids, ancestors (size (switches inv)) parents h = Some ids ∧
  chain parents h ids ∧ ∀ i id, ids !! i = Some id → tier inv i id.
Proof.
  intros Hh. destruct (parents !! h) as [g|] eqn:Hg.
  - destruct (parent_up h g Hg) as [[_ Htg]|(m & Hm & _)]; [|by destruct (tier_switch _ _ Hm) as (_ & _ & ?)].
    pose proof (tier_lt_size _ _ Htg). destruct (size (switches inv)) as [|fuel] eqn:E; [lia|]. cbn [ancestors].
    rewrite Hg. cbn [default from_option id]. rewrite decide_False by (by eapply tier_switch).
    destruct (ancestors_switch fuel g 0 Htg) as (ids & -> & Hch & Htiers); [lia|]. cbn. exists (g :: ids).
    split_and!; [done|by eapply chain_up|]. intros [|i] id; simpl; [by intros [= <-]|apply Htiers].
  - exists []. split_and!; [|by constructor|done]. destruct (size (switches inv)); cbn [ancestors]; rewrite Hg; done.
Qed.

Lemma chain_fun c ids1 ids2 : chain parents c ids1 → chain parents c ids2 → ids1 = ids2.
Proof. intros H1. revert ids2. induction H1; intros ids2; inversion 1; simplify_eq; [done|]. f_equal. auto. Qed.
End Chains.

(** ** Aliases *)

Definition hasAlias (a : string) (kv : string * device) : Prop :=
  a ≠ "" ∧ a ∈ [kv.1; d_Name kv.2; Serial kv.2].

(** The only compute endpoint with identity, name or serial number [a]. *)
Definition resolves (a h : string) : Prop :=
  (∃ d, hosts inv !! h = Some d ∧ hasAlias a (h, d)) ∧
  ∀ id d, hosts inv !! id = Some d → hasAlias a (id, d) → id = h.

Lemma addAlias_fold id a l : id ≠ "" → ∀ aliases, foldl (addAlias id) aliases l !! a =
  if decide (a ≠ "" ∧ a ∈ l) then
    Some (match aliases !! a with Some p => if decide (p = id) then id else "" | None => id end)
  else aliases !! a.
Proof.
  intros Hid. induction l as [|b l IH]; intros aliases; cbn [foldl].
  { rewrite decide_False; [done|]. set_solver. }
  rewrite IH. unfold addAlias. destruct (decide (b = "")) as [->|Hb].
  { destruct (decide (a = "")) as [->|Ha]; [by rewrite !decide_False by tauto|].
    destruct (decide (a ∈ l)); [rewrite !decide_True by set_solver|rewrite !decide_False by set_solver]; done. }
  destruct (decide (a = b)) as [->|Hab].
  - rewrite (decide_True (P := b ≠ "" ∧ b ∈ b :: l)) by set_solver.
    assert (Hval : (match aliases !! b with
        | Some previous => if decide (previous = id) then aliases else <[b:=""]> aliases
        | None => <[b:=id]> aliases end) !! b =
      Some (match aliases !! b with Some p => if decide (p = id) then id else "" | None => id end)).
    { destruct (aliases !! b) as [p|] eqn:E; [|by rewrite lookup_insert_eq].
      destruct (decide (p = id)) as [->|]; [done|by rewrite lookup_insert_eq]. }
    rewrite Hval. destruct (decide (b ≠ "" ∧ b ∈ l)); [|done].
    destruct (aliases !! b) as [p|]; [|by rewrite decide_True].
    destruct (decide (p = id)) as [->|]; [by rewrite decide_True|by rewrite decide_False].
  - assert (Hval : (match aliases !! b with
        | Some previous => if decide (previous = id) then aliases else <[b:=""]> aliases
        | None => <[b:=id]> aliases end) !! a = aliases !! a).
    { destruct (aliases !! b) as [p|]; [destruct (decide (p = id))|]; [done|by rewrite lookup_insert_ne..]. }
    rewrite Hval. destruct (decide (a ≠ "" ∧ a ∈ l)); [rewrite decide_True by set_solver|rewrite decide_False by set_solver]; done.
Qed.

Lemma aliases_fold a (l : list (string * device)) : NoDup l.*1 → (∀ kv, kv ∈ l → kv.1 ≠ "") →
  match foldl (λ aliases kv, foldl (addAlias kv.1) aliases [kv.1; d_Name kv.2; Serial kv.2]) (∅ : gmap string string) l !! a with
  | None => ∀ kv, kv ∈ l → ¬ hasAlias a kv
  | Some h => if decide (h = "") then ∃ kv1 kv2, kv1 ∈ l ∧ kv2 ∈ l ∧ kv1.1 ≠ kv2.1 ∧ hasAlias a kv1 ∧ hasAlias a kv2
              else (∃ kv, kv ∈ l ∧ kv.1 = h ∧ hasAlias a kv) ∧ ∀ kv, kv ∈ l → hasAlias a kv → kv.1 = h
  end.
Proof.
  induction l as [|kv l IH] using rev_ind; intros Hnd Hne; [cbn [foldl]; rewrite lookup_empty; set_solver|].
  rewrite foldl_snoc. rewrite fmap_app in Hnd. apply NoDup_app in Hnd as (Hnd & Hdis & _).
  assert (Hkv : kv.1 ≠ "") by (apply Hne; set_solver). rewrite addAlias_fold by done.
  specialize (IH Hnd ltac:(set_solver)). set (m := foldl _ ∅ l) in *. fold (hasAlias a kv).
  assert (Hfresh : ∀ kv', kv' ∈ l → kv'.1 ≠ kv.1).
  { intros kv' Hin Heq. apply (Hdis kv'.1); [apply list_elem_of_fmap; eauto|]. rewrite Heq. set_solver. }
  assert (Hin : ∀ kv', kv' ∈ l ++ [kv] ↔ kv' ∈ l ∨ kv' = kv) by (intros; rewrite elem_of_app; set_solver).
  destruct (decide (hasAlias a kv)) as [Ha|Ha].
  - destruct (m !! a) as [p|] eqn:Hm.
    + destruct (decide (p = "")) as [->|Hp].
      * rewrite (decide_False (P := "" = kv.1)) by done. rewrite decide_True by done.
        destruct IH as (kv1 & kv2 & ? & ? & ? & ? & ?). exists kv1, kv2. rewrite !Hin. tauto.
      * destruct IH as [(kv1 & Hk1 & <- & Ha1) _]. rewrite (decide_False (P := kv1.1 = kv.1)) by auto.
        rewrite decide_True by done. exists kv1, kv. rewrite !Hin. split_and!; [tauto|tauto|auto|done|done].
    + rewrite decide_False by done. split; [exists kv; rewrite Hin; tauto|].
      intros kv' [Hl| ->]%Hin Ha'; [by destruct (IH kv' Hl)|done].
  - destruct (m !! a) as [p|] eqn:Hm.
    + destruct (decide (p = "")) as [->|Hp].
      * destruct IH as (kv1 & kv2 & ? & ? & ? & ? & ?). exists kv1, kv2. rewrite !Hin. tauto.
      * destruct IH as [(kv1 & Hk1 & Hp1 & Ha1) Hall]. split; [exists kv1; rewrite Hin; tauto|].
        intros kv' [Hl| ->]%Hin Ha'; [by apply Hall|done].
    + intros kv' [Hl| ->]%Hin; [by apply IH|done].
Qed.

Lemma aliases_spec a h : h ≠ "" → default "" (aliasesOf inv !! a) = h ↔ resolves a h.
Proof.
  intros Hh. unfold aliasesOf, resolves.
  pose proof (aliases_fold a (range (hosts inv)) (range_NoDup _)) as Ha.
  assert (Hne : ∀ kv, kv ∈ range (hosts inv) → kv.1 ≠ "").
  { intros [id d] Hin%elem_of_range Heq. cbn in Heq. subst id. destruct (wf_named _ inv_wf) as [[] _]. by eexists. }
  specialize (Ha Hne). destruct (foldl _ _ _ !! a) as [p|]; cbn [default from_option id].
  - case_decide as Hp.
    + subst p. split; [congruence|]. intros [_ Hall]. exfalso. destruct Ha as ([i1 d1] & [i2 d2] & H1%elem_of_range & H2%elem_of_range & Hne12 & A1 & A2).
      apply Hne12. cbn. by rewrite (Hall i1 d1), (Hall i2 d2).
    + destruct Ha as [([id d] & Hd%elem_of_range & Hid & Had) Hall]. cbn in Hid. subst p. split.
      * intros <-. split; [eauto|]. intros id' d' Hd' Ha'. apply (Hall (id', d')); [by apply elem_of_range|done].
      * intros [_ Hall']. by apply (Hall' id d).
  - split; [intros <-; done|]. intros [(d & Hd & Had) _]. destruct (Ha (h, d)); [by apply elem_of_range|done].
Qed.
End Tree.

(** ** The graph *)

Lemma foldO_app {S A} (f : S → A → option S) l1 l2 s : foldO f s (l1 ++ l2) = foldO f s l1 ≫= λ t, foldO f t l2.
Proof. revert s. induction l1 as [|x l1 IH]; intros s; simpl; [done|]. by destruct (f s x). Qed.

Lemma foldO_bind {S A B} (f : S → B → option S) (g : A → list B) l s :
  foldO (λ s x, foldO f s (g x)) s l = foldO f s (l ≫= g).
Proof.
  revert s. induction l as [|x l IH]; intros s; [done|]. rewrite bind_cons, foldO_app. cbn [foldO].
  destruct (foldO f s (g x)); [apply IH|done].
Qed.

(** The switches that are left after trimming. *)
Definition trimmedIDs (trimTiers : Z) (ids : list string) : list string :=
  let len := Z.of_nat (length ids) in
  take (Z.to_nat (len - Z.min (Z.max 0 trimTiers) len)) ids.

Section Graph.
Context `{RangeOrder} (params : ProviderParams) (devices : list device) (inv : inventory) (cis : list ComputeInstances).
Context (Hinv : inventoryOf params devices = Ok inv).
(** Instances are not named like switches. *)
Context (Hswitch : ∀ id, isSwitch inv id → instanceNames cis !! id = None ∧ id ≠ NoTopology)
  (Hmissing : instanceNames cis !! NoTopology = None).

Definition instanceFor (ids : list string) (a : string) : InstanceTopology :=
  MkInst a ((λ id, MkTier id (nameOf inv id)) <$> ids) "" "" (Some (MkInstance a [] None [])).

Definition requestedKeys : list string := cis ≫= λ region, (range (ci_Instances region)).*1.

Lemma elem_of_requestedKeys a : a ∈ requestedKeys ↔ is_Some (instanceNames cis !! a).
Proof.
  unfold requestedKeys, instanceNames, copyMap. rewrite <-(right_id_L [] (++) (cis ≫= _)).
  assert (∀ l (m : gmap string string) ks, (∀ a, a ∈ ks ↔ is_Some (m !! a)) →
    ∀ a, a ∈ (l ≫= λ region, (range (ci_Instances region)).*1) ++ ks ↔
      is_Some (foldl (λ i2n ci, ci_Instances ci ∪ i2n) m l !! a)) as Hgen.
  { induction l as [|ci l IH]; intros m ks Hks b; [apply Hks|]. rewrite bind_cons. cbn [foldl].
    rewrite <-(IH (ci_Instances ci ∪ m) ((range (ci_Instances ci)).*1 ++ ks)).
    - rewrite !elem_of_app. tauto.
    - intros c. rewrite elem_of_app, Hks, range_perm, elem_of_keys, lookup_union_is_Some. done. }
  apply Hgen. intros b. rewrite lookup_empty. split; [set_solver|by intros []].
Qed.

Section Parents.
Context (parents : gmap string string).
Context (Hanc : ∀ h, isHost inv h → ∃ ids, ancestors (size (switches inv)) parents h = Some ids ∧
  chain parents h ids ∧ ∀ i id, ids !! i = Some id → tier inv i id).

(** The instance reported for [a], if any. *)
Definition reported (a : string) : option InstanceTopology :=
  let h := default "" (aliasesOf inv !! a) in
  if decide (h = "") then None
  else match ancestors (size (switches inv)) parents h with
       | Some (id :: ids) => Some (instanceFor (id :: ids) a)
       | _ => None
       end.

Lemma reported_chain a inst : reported a = Some inst →
  ∃ h ids, resolves inv a h ∧ chain parents h ids ∧ ids ≠ [] ∧ inst = instanceFor ids a ∧
    ∀ i id, ids !! i = Some id → tier inv i id.
Proof.
  unfold reported. case_decide as Hne; [done|]. pose proof (proj1 (aliases_spec params devices inv Hinv a _ Hne) eq_refl) as Hr.
  destruct Hr as [(d & Hd & Ha) Hall]. destruct (Hanc _ (ex_intro _ d Hd)) as (ids & -> & Hch & Ht).
  destruct ids as [|id ids]; [done|]. intros [= <-]. exists (default "" (aliasesOf inv !! a)), (id :: ids).
  split_and!; [split; eauto|done..].
Qed.

Lemma reported_resolves a h ids : resolves inv a h → chain parents h ids →
  reported a = match ids with [] => None | _ => Some (instanceFor ids a) end.
Proof.
  intros Hr Hch. pose proof Hr as [(d & Hd & _) _]. assert (h ≠ "") as Hne.
  { intros ->. destruct (wf_named _ (inv_wf params devices inv Hinv)) as [[] _]. by eexists. }
  unfold reported. rewrite (proj2 (aliases_spec params devices inv Hinv a h Hne) Hr), decide_False by done.
  destruct (Hanc h) as (ids' & -> & Hch' & _); [by eexists|]. rewrite (chain_fun _ _ _ _ Hch Hch'). by destruct ids'.
Qed.

Lemma addRequested_spec a cluster seen :
  (default false (seen !! a) = true → first cluster a = reported a) → (default false (seen !! a) = false → first cluster a = None) →
  ∃ cluster' seen', addRequested inv parents (aliasesOf inv) (cluster, seen) a = Some (cluster', seen') ∧
    (cluster' = cluster ∨ ∃ inst, reported a = Some inst ∧ cluster' = cluster ++ [inst]) ∧
    first cluster' a = reported a ∧
    ∀ b, default false (seen' !! b) = bool_decide (b = a) || default false (seen !! b).
Proof.
  intros Hseen Hnew. unfold addRequested. destruct (default false (seen !! a)) eqn:Hs.
  { exists cluster, seen. split_and!; [done|by left|auto|]. intros b. case_bool_decide; [by subst|done]. }
  assert (Hset : ∀ b, default false (<[a := true]> seen !! b) = bool_decide (b = a) || default false (seen !! b)).
  { intros b. case_bool_decide; [subst; by rewrite lookup_insert_eq|by rewrite lookup_insert_ne]. }
  pose proof (reported_chain a) as Hrc. unfold reported in *. case_decide as Hne.
  { exists cluster, (<[a := true]> seen). split_and!; [done|by left|auto|done]. }
  destruct (Hanc (default "" (aliasesOf inv !! a))) as (ids & E & _).
  { destruct (proj1 (aliases_spec params devices inv Hinv a _ Hne) eq_refl) as [(d & Hd & _) _]. by eexists. }
  rewrite E. cbn [mbind option_bind]. destruct ids as [|id ids].
  { exists cluster, (<[a := true]> seen). rewrite decide_True by done. split_and!; [done|by left|auto|done]. }
  rewrite decide_False by done. eexists _, (<[a := true]> seen). split; [done|]. split_and!; [right; eauto| |done].
  unfold Append. rewrite first_app, Hnew by done. by rewrite decide_True.
Qed.

Lemma first_other cluster inst a b : it_InstanceID inst = a → a ≠ b → first (cluster ++ [inst]) b = first cluster b.
Proof. intros <- Hne. rewrite first_app. destruct (first cluster b); [done|]. by rewrite decide_False. Qed.

Lemma cluster_spec ks : ∃ cluster seen,
  foldO (addRequested inv parents (aliasesOf inv)) (NewClusterTopology, ∅) ks = Some (cluster, seen) ∧
  (∀ a, first cluster a = if decide (a ∈ ks) then reported a else None) ∧
  ∀ inst, inst ∈ cluster → ∃ a, a ∈ ks ∧ reported a = Some inst.
Proof.
  destruct (foldO_prefix_inv (λ l1 (acc : ClusterTopology * gmap string bool),
      (∀ a, default false (acc.2 !! a) = bool_decide (a ∈ l1)) ∧
      (∀ a, first acc.1 a = if decide (a ∈ l1) then reported a else None) ∧
      ∀ inst, inst ∈ acc.1 → ∃ a, a ∈ l1 ∧ reported a = Some inst)
    (addRequested inv parents (aliasesOf inv)) ks (NewClusterTopology, ∅)) as ([cluster seen] & Hrun & _ & H2 & H3).
  - cbn [fst snd]. split_and!; [|done|set_solver]. intros a. by rewrite lookup_empty.
  - intros l1 a l2 [cluster seen] _ (H1 & H2 & H3). cbn [fst snd] in *.
    destruct (addRequested_spec a cluster seen) as (cluster' & seen' & Hrun & Hc & Hfirst & Hseen).
    { rewrite H1, H2. intros ?%bool_decide_eq_true. by rewrite decide_True. }
    { rewrite H1, H2. intros ?%bool_decide_eq_false. by rewrite decide_False. }
    exists (cluster', seen'). split; [done|]. cbn [fst snd].
    assert (Hin : ∀ b, b ∈ l1 ++ [a] ↔ b ∈ l1 ∨ b = a) by (intros; rewrite elem_of_app; set_solver). split_and!.
    + intros b. rewrite Hseen, H1. destruct (decide (b = a)) as [->|Hne].
      * rewrite (bool_decide_true (a = a)) by done. cbn. symmetry. apply bool_decide_true, Hin. by right.
      * rewrite (bool_decide_false (b = a)) by done. cbn. apply bool_decide_ext. rewrite Hin. tauto.
    + intros b. destruct (decide (b = a)) as [->|Hne]; [rewrite decide_True by (apply Hin; by right); done|].
      assert (first cluster' b = first cluster b) as ->.
      { destruct Hc as [->|(inst & Hi & ->)]; [done|]. apply (first_other _ _ a); [|done].
        by apply reported_chain in Hi as (? & ? & _ & _ & _ & -> & _). }
      rewrite H2. destruct (decide (b ∈ l1)); [rewrite decide_True by (apply Hin; by left)|rewrite decide_False by (rewrite Hin; tauto)]; done.
    + intros inst. destruct Hc as [->|(i & Hi & ->)].
      * intros (b & Hb & ?)%H3. exists b. split; [apply Hin; by left|done].
      * rewrite elem_of_app, list_elem_of_singleton. intros [(b & Hb & ?)%H3| ->]; [exists b; split; [apply Hin; by left|done]|].
        exists a. split; [apply Hin; by right|done].
  - eauto.
Qed.

Lemma trimmed_ids ids a trimTiers : Forall (λ id, id ≠ "") ids →
  switchIDs (trimmedTiers (instanceFor ids a) trimTiers) = trimmedIDs trimTiers ids.
Proof.
  intros Hne. unfold trimmedTiers, trimmedIDs, switchIDs, instanceFor. cbn [FabricTiers]. rewrite length_fmap.
  rewrite <-fmap_take, <-list_fmap_compose. rewrite (list_fmap_ext _ id), list_fmap_id by done.
  apply filter_all. by apply Forall_take.
Qed.

Lemma cluster_levelled trimTiers cluster :
  (∀ inst, inst ∈ cluster → ∃ a, a ∈ requestedKeys ∧ reported a = Some inst) → levelled trimTiers cluster.
Proof.
  intros Hc. assert (Hids : ∀ id, id ∈ it_InstanceID <$> cluster → is_Some (instanceNames cis !! id)).
  { intros id (inst & -> & (a & Ha & (h & ids & _ & _ & _ & -> & _)%reported_chain)%Hc)%list_elem_of_fmap.
    by apply elem_of_requestedKeys. }
  assert (Htiers : ∀ l id, (l, id) ∈ tierEntries trimTiers cluster → tier inv l id).
  { intros l id (es & (inst & -> & (a & _ & (h & ids & _ & _ & _ & -> & Ht)%reported_chain)%Hc)%list_elem_of_fmap & He)%elem_of_concat.
    apply list_elem_of_filter in He as [_ (i & t & [= -> ->] & Hi)%elem_of_lookup_imap].
    unfold trimmedTiers in Hi. apply lookup_take_Some in Hi as [Hi _]. cbn [instanceFor FabricTiers] in Hi.
    rewrite list_lookup_fmap in Hi. destruct (ids !! i) as [id|] eqn:Hid; [|done]. injection Hi as <-. by apply Ht. }
  split_and!.
  - apply Forall_forall. intros [l1 id1] H1%Htiers. apply Forall_forall. intros [l2 id2] H2%Htiers. simpl. intros <-.
    by eapply tier_fun.
  - apply Forall_forall. intros [l id] Hid%Htiers. simpl.
    destruct (tier_switch params devices inv Hinv _ _ Hid) as [Hs _]. destruct (Hswitch _ Hs) as [Hno Hnt].
    split; [|done]. intros [x Hx]%Hids. congruence.
  - intros [x Hx]%Hids. congruence.
Qed.
End Parents.

Lemma inventory_places_hosts {W} (devicePage : W → option (list string) → Z → Z → result string (list device) * W)
    (done : W → bool) fuel pages w w' pageSize :
  discover params devicePage done fuel pages w pageSize = Some (Ok devices, w') →
  ∃ groups parents g root, hierarchy inv = Some (groups, parents) ∧
    GenerateTopologyConfig params devicePage done fuel pages w pageSize cis = Some (Ok g, w') ∧
    Tiers g = Some root ∧
    ∀ a name, instanceNames cis !! a = Some name → ∃ leaf, deref (g_heap g) leaf = MkVertex name a ∅ ∧
      (∀ h ids, resolves inv a h → chain parents h ids → ids ≠ [] →
         lookupPath (g_heap g) root (reverse (a :: trimmedIDs (TrimTiers params) ids)) = Some leaf) ∧
      ((∀ h, resolves inv a h → parents !! h = None) → lookupPath (g_heap g) root [NoTopology; a] = Some leaf).
Proof.
  intros Hdisc. destruct (tree_spec params devices inv Hinv) as (groups & parents & Hh & Hhost & Hgroup & _ & _ & Hparent).
  assert (Hgroup' : ∀ n x, tier inv n x → ∃ r, groups !! x = Some r ∧ tier inv n r).
  { intros n x Hx. destruct (Hgroup n x Hx) as (r & ? & ? & _). eauto. }
  pose proof (ancestors_host params devices inv Hinv groups parents Hgroup' Hhost Hparent) as Hanc.
  destruct (cluster_spec parents Hanc requestedKeys) as (cluster & seen & Hrun & Hfirst & Hin).
  destruct (ToGraph_places cluster cis (TrimTiers params) false) as (g & root & Hg & Hroot & Hall).
  { by apply (cluster_levelled parents Hanc). }
  exists groups, parents, g, root. split; [done|]. split_and!; [|done|].
  - unfold GenerateTopologyConfig. rewrite Hdisc. unfold buildTopology. rewrite Hinv, Hh. cbn [mbind option_bind].
    rewrite foldO_bind. fold requestedKeys. rewrite Hrun. cbn [mbind option_bind]. by rewrite Hg.
  - intros a name Ha. destruct (Hall a name Ha) as (leaf & Hleaf & Hpath). exists leaf. split; [done|].
    rewrite Hfirst, decide_True in Hpath by (apply elem_of_requestedKeys; by eexists). split.
    + intros h ids Hr Hch Hne. rewrite (reported_resolves parents Hanc a h ids) in Hpath by done.
      destruct ids as [|id ids]; [done|]. rewrite trimmed_ids in Hpath; [done|].
      destruct (Hanc h) as (ids' & _ & Hch' & Ht); [destruct Hr as [(d & Hd & _) _]; by eexists|].
      apply Forall_lookup. intros i x Hx. apply (tier_switch params devices inv Hinv i). apply Ht.
      by rewrite <-(chain_fun _ _ _ _ Hch Hch').
    + intros Hnone. destruct (reported parents a) as [inst|] eqn:Hrep; [|done].
      destruct (reported_chain parents Hanc _ _ Hrep) as (h & ids & Hr & Hch & Hne & _).
      destruct Hch as [|x y ids Hx _]; [done|]. rewrite (Hnone x Hr) in Hx. done.
Qed.
End Graph.

(** C16: When the discovery has returned [devices], the provider returns an
    error exactly when one of them is refused: a device that counts without an
    identity or a name, with the identity of an earlier one, or a switch with
    the name of an earlier switch.  Otherwise, if no instance ID of the request
    is the identity of a switch and [no-topology] is neither an instance ID nor
    the identity of a switch, it returns a graph in which every node of the
    request is a leaf: a node whose instance ID is the identity, name or serial number of exactly one compute endpoint
    hangs below that endpoint's chain of parents, outermost first, after
    trimming; one that is ambiguous, unknown, or connected to no switch hangs
    below [no-topology]. *)
Theorem nautobot_places_hosts `{RangeOrder} {W} params devices cis
    (devicePage : W → option (list string) → Z → Z → result string (list device) * W)
    (done : W → bool) fuel pages w w' pageSize :
  discover params devicePage done fuel pages w pageSize = Some (Ok devices, w') →
  ((∃ l1 d l2, devices = l1 ++ d :: l2 ∧ refused params l1 d) →
   ∃ e, GenerateTopologyConfig params devicePage done fuel pages w pageSize cis = Some (Err (inr e), w')) ∧
  ((∀ l1 d l2, devices = l1 ++ d :: l2 → ¬ refused params l1 d) →
   (∀ id d, present params devices id d → hasRole d (DeviceRole params) = false →
      instanceNames cis !! id = None ∧ id ≠ NoTopology) →
   instanceNames cis !! NoTopology = None →
   ∃ inv groups parents g root, inventoryOf params devices = Ok inv ∧ hierarchy inv = Some (groups, parents) ∧
     GenerateTopologyConfig params devicePage done fuel pages w pageSize cis = Some (Ok g, w') ∧
     Tiers g = Some root ∧
     ∀ a name, instanceNames cis !! a = Some name → ∃ leaf, deref (g_heap g) leaf = MkVertex name a ∅ ∧
       (∀ h ids, resolves inv a h → chain parents h ids → ids ≠ [] →
          lookupPath (g_heap g) root (reverse (a :: trimmedIDs (TrimTiers params) ids)) = Some leaf) ∧
       ((∀ h, resolves inv a h → parents !! h = None) → lookupPath (g_heap g) root [NoTopology; a] = Some leaf)).
Proof.
  intros Hdisc. split.
  - intros [e He]%(proj2 (inventoryOf_refused params devices)). exists e. unfold GenerateTopologyConfig, buildTopology. by rewrite Hdisc, He.
  - intros Hok Hswitch Hmissing. destruct (inventoryOf params devices) as [inv|e] eqn:Hinv.
    + exists inv. destruct (inventoryOf_spec _ _ _ Hinv) as (_ & _ & Hsw & _).
      assert (∀ id, isSwitch inv id → instanceNames cis !! id = None ∧ id ≠ NoTopology) as Hnames.
      { intros id [d [Hd Hr]%Hsw]. by apply (Hswitch id d). }
      destruct (inventory_places_hosts params devices inv cis Hinv Hnames Hmissing devicePage done fuel pages w w' pageSize Hdisc)
        as (groups & parents & g & root & Hall). by exists groups, parents, g, root.
    + destruct (proj1 (inventoryOf_refused params devices)) as (l1 & d & l2 & Heq & Hr); [by exists e|].
      by destruct (Hok l1 d l2).
Qed.

(** ** Two spines and three leaves

    The spines share the middle leaf, so they become one switch. *)

Import NautobotDiscovery.

Definition w_devices : list device :=
  [w_switch "s1" [] ["l1"; "l2"]; w_switch "l1" ["h1"] ["s1"]; w_switch "l2" ["h2"] ["s1"; "s2"];
   w_switch "s2" [] ["l2"; "l3"]; w_switch "l3" ["h3"] ["s2"];
   w_plain "server" "h1"; w_plain "server" "h2"; w_plain "server" "h3"].
Definition w_inv : inventory :=
  match inventoryOf w_params w_devices with Ok inv => inv | Err _ => MkInventory ∅ ∅ ∅ end.
Definition w_cis : list ComputeInstances := [MkCI "local" {[ "h1" := "node1"; "h3" := "node3"; "x" := "node4" ]}].

Example w_merged_tree : (λ gp, (gp.1 !! "s2", gp.2 !! "l3", gp.2 !! "h3")) <$> hierarchy w_inv =
  Some (Some "s1", Some "s1", Some "l3").
Proof. vm_eq. Qed.

Lemma w_inventory : inventoryOf w_params w_devices = Ok w_inv.
Proof. vm_eq. Qed.

Lemma nautobot_tree_witness : ∃ groups parents leaf, hierarchy w_inv = Some (groups, parents) ∧
  groups !! "l3" = Some leaf ∧ parents !! "h3" = Some leaf.
Proof.
  destruct (nautobot_tree w_params w_devices w_inv w_inventory) as (groups & parents & Hh & Hhost & _ & _ & Hup & _).
  assert (Hchild : child w_inv "l3" "h3").
  { split; [apply (bool_decide_unpack _); vm_compute; exact I|]. left. apply (bool_decide_unpack _). vm_compute. exact I. }
  destruct (Hup _ _ Hchild) as (gc & gx & Hc & Hx & Hp).
  assert (Hh3 : groups !! "h3" = Some "h3") by (apply Hhost; apply (bool_decide_unpack _); vm_compute; exact I).
  exists groups, parents, gx. split; [exact Hh|]. split; [exact Hx|]. rewrite Hc in Hh3. injection Hh3 as ->. exact Hp.
Defined.

Definition w_page := snapshotPage (W := ()) w_snapshot w_selected.

Lemma w_discovered : discover w_params w_page (λ _, false) 5 6 () None = Some (Ok w_devices, ()).
Proof. vm_eq. Qed.

Lemma w_chain groups parents : hierarchy w_inv = Some (groups, parents) → chain parents "h3" ["l3"; "s1"].
Proof.
  intros Hh. assert (Hp : (λ gp, (gp.2 !! "h3", gp.2 !! "l3", gp.2 !! "s1")) <$> hierarchy w_inv = Some (Some "l3", Some "s1", None))
    by vm_eq.
  rewrite Hh in Hp. injection Hp as H1 H2 H3. eapply chain_up; [exact H1|]. eapply chain_up; [exact H2|]. by apply chain_top.
Qed.

Lemma nautobot_places_hosts_witness : ∃ g root leaf,
  GenerateTopologyConfig w_params w_page (λ _, false) 5 6 () None w_cis = Some (Ok g, ()) ∧ Tiers g = Some root ∧
  deref (g_heap g) leaf = MkVertex "node3" "h3" ∅ ∧ lookupPath (g_heap g) root ["s1"; "l3"; "h3"] = Some leaf.
Proof.
  destruct (nautobot_places_hosts w_params w_devices w_cis w_page (λ _ : (), false) 5 6 () () None w_discovered) as [_ Hok].
  destruct Hok as (inv & groups & parents & g & root & Hinv & Hh & Hg & Hr & Hall).
  - intros l1 d l2 Heq Hr. destruct (proj2 (inventoryOf_refused w_params w_devices)) as [e He]; [by exists l1, d, l2|].
    rewrite w_inventory in He. discriminate.
  - assert (H : Forall (λ d, hasRole d (DeviceRole w_params) = false → instanceNames w_cis !! d_ID d = None ∧ d_ID d ≠ NoTopology)
      w_devices) by (apply (bool_decide_unpack _); vm_compute; exact I).
    rewrite Forall_forall in H. intros id d (Hd & <- & _). exact (H d Hd).
  - vm_eq.
  - rewrite w_inventory in Hinv. injection Hinv as <-. destruct (Hall "h3" "node3") as (leaf & Hleaf & Hpath & _); [vm_eq|].
    exists g, root, leaf. split; [exact Hg|]. split; [exact Hr|]. split; [exact Hleaf|].
    apply (Hpath "h3" ["l3"; "s1"]); [|exact (w_chain _ _ Hh)|discriminate].
    assert (H : map_Forall (λ id d, hasAlias "h3" (id, d) → id = "h3") (hosts w_inv))
      by (unfold hasAlias; apply (bool_decide_unpack _); vm_compute; exact I).
    split; [|exact H]. exists (w_plain "server" "h3"). split; [vm_eq|].
    apply (bool_decide_unpack _). vm_compute. exact I.
Defined.
End NautobotGraph.
