(* ===== verification/Lambda.v ===== *)
(** * The Lambda provider's credentials: [pkg/providers/lambdai]

    [provider.go] chooses between an API token of the request and the pod's
    workload identity; [token.go] mints, caches and refreshes the key of a
    workload identity.  A credential is shared by the goroutines of all
    requests, so [Token] is a machine of small steps: every acquisition of a
    lock, every critical section, every test of the clock and the end of every
    exchange is a step of its own, and the steps of goroutines interleave. *)

From S2P Require Import Prelude GoStrings Queue.
Open Scope Z_scope.

Module Lambda.
Import Queue.

(** ** Constants; durations and instants in nanoseconds *)

Definition second : Z := 10 ^ 9.
Definition defaultTokenTTL : Z := 60 * 60 * second.
Definition defaultRefreshWin : Z := 5 * 60 * second.
Definition failedRefreshBackoff : Z := 30 * second.
Definition authWorkspaceID : string := "workspaceId".
Definition authToken : string := "token".
Definition apiBaseURL : string := "url".
Definition envIdentityLRN : string := "LAMBDA_IDENTITY_LRN".
Definition envRoleLRN : string := "LAMBDA_ROLE_LRN".
Definition envTokenFile : string := "LAMBDA_WORKLOAD_IDENTITY_TOKEN_FILE".
Definition defaultSATokenPath : string := "/var/run/secrets/lambda.ai/serviceaccount/token".

(** ** Shared credentials *)

(** The fields of [workloadIdentityCredential] that never change. *)
Record credential := MkCredential { baseURL : string; identityLRN : string; tokenPath : string }.

(** [credCache] holds pointers; [credentials] is what they point to. *)
Record pool := MkPool {
  credentials : gmap nat credential;
  credCache : gmap string nat;
  credOrder : list string
}.
Definition emptyPool : pool := MkPool ∅ ∅ [].

Definition maxCachedCredentials : nat := 32.

Definition credKey (baseURL identityLRN tokenPath : string) : string :=
  identityLRN +:+ "|" +:+ tokenPath +:+ "|" +:+ baseURL.

(** [for len(credOrder) >= maxCachedCredentials] *)
Fixpoint evict (cache : gmap string nat) (order : list string) : gmap string nat * list string :=
  match order with
  | [] => (cache, [])
  | oldest :: rest =>
      if (maxCachedCredentials <=? length order)%nat then evict (delete oldest cache) rest else (cache, order)
  end.

Definition sharedCredential (p : pool) (baseURL identityLRN tokenPath : string) : pool * nat :=
  let key := credKey baseURL identityLRN tokenPath in
  match credCache p !! key with
  | Some c => (p, c)
  | None =>
      let '(cache, order) := evict (credCache p) (credOrder p) in
      let c := fresh (dom (credentials p)) in
      (MkPool (<[c := MkCredential baseURL identityLRN tokenPath]> (credentials p)) (<[key := c]> cache) (order ++ [key]), c)
  end.

(** ** Which credential a request uses: [Loader] *)

Section Loader.
Context `{RangeOrder}.
(** Untyped values, and what decoding makes of the maps, which it ranges
    over. *)
Context {any : Type}.
Context (decodeCredentials : list (string * any) → result string (string * string)).
Context (decodeURL : list (string * any) → result string string).
Context (GetTrimTiers : gmap string any → result string Z).
(** [os.Getenv] *)
Context (Getenv : string → string).

Definition EqualFold (s t : string) : bool := bool_decide (to_lower s = to_lower t).

Definition injectedIdentityLRN : string :=
  if decide (Getenv envIdentityLRN ≠ "") then Getenv envIdentityLRN else Getenv envRoleLRN.

Definition spellings (m : gmap string any) (key : string) : list string :=
  filter (λ k, EqualFold k key = true) (range m).*1.

Fixpoint requireUnambiguousKeys (m : gmap string any) (kind : string) (keys : list string) : option string :=
  match keys with
  | [] => None
  | key :: rest =>
      if (1 <? length (spellings m key))%nat then
        Some ("ambiguous '" +:+ key +:+ "' " +:+ kind +:+ ": " +:+ join ", " (sort_strings (spellings m key)))
      else requireUnambiguousKeys m kind rest
  end.

Definition credentialSupplied (creds : gmap string any) (key : string) : bool :=
  existsb (λ k, EqualFold k key) (range creds).*1.

Inductive tokenErr := EmptyTokenWithIdentity | EmptyToken | MissingToken.

Definition requireStaticToken (token : string) (supplied : bool) (identityLRN : string) : option tokenErr :=
  if decide (trim_space token ≠ "") then None
  else if supplied then Some (if decide (identityLRN ≠ "") then EmptyTokenWithIdentity else EmptyToken)
  else Some MissingToken.

(** The parameter [url] is required. *)
Definition decodeParams (params : gmap string any) : result string string :=
  baseURL ← decodeURL (range params);
  if decide (baseURL = "") then Err ("missing '" +:+ apiBaseURL +:+ "'") else Ok baseURL.

Inductive loaderErr :=
| BadParams (msg : string)
| BadCredentials (msg : string)
| MissingWorkspace
| BadToken (e : tokenErr).

Inductive tokenSource := StaticToken (s : string) | WorkloadIdentity (c : nat).
Record Provider := MkProvider { workspaceID : string; token : tokenSource; p_baseURL : string; trimTiers : Z }.

(** Every error has status 400. *)
Definition Loader (p : pool) (creds params : gmap string any) : result loaderErr (pool * Provider) :=
  match requireUnambiguousKeys params "parameter" [apiBaseURL] with
  | Some msg => Err (BadParams msg)
  | None =>
      baseURL ← map_err BadParams (decodeParams params);
      match requireUnambiguousKeys creds "credential" [authWorkspaceID; authToken] with
      | Some msg => Err (BadCredentials msg)
      | None =>
          decoded ← map_err BadCredentials (decodeCredentials (range creds));
          let '(workspace, tok) := decoded in
          let tokenSupplied := credentialSupplied creds authToken in
          let lrn := injectedIdentityLRN in
          let wiMode := negb tokenSupplied && bool_decide (lrn ≠ "") in
          let workspaceID := trim_space workspace in
          if decide (workspaceID = "") then Err MissingWorkspace
          else
            _ ← (if wiMode then Ok () else
                   match requireStaticToken tok tokenSupplied lrn with Some e => Err (BadToken e) | None => Ok () end);
            trimTiers ← map_err BadParams (GetTrimTiers params);
            if wiMode then
              let path := if decide (Getenv envTokenFile = "") then defaultSATokenPath else Getenv envTokenFile in
              let '(p, c) := sharedCredential p baseURL lrn path in
              Ok (p, MkProvider workspaceID (WorkloadIdentity c) baseURL trimTiers)
            else Ok (p, MkProvider workspaceID (StaticToken tok) baseURL trimTiers)
      end
  end.
End Loader.

(** ** Keys and their times *)

Record cachedToken := MkToken { accessToken : string; expiresAt : Z; refreshAt : Z }.

(** [time.Time.Sub] saturates. *)
Definition minDuration : Z := - 2 ^ 63.
Definition maxDuration : Z := 2 ^ 63 - 1.
Definition Sub (t u : Z) : Z := Z.max minDuration (Z.min maxDuration (t - u)).

(** [time.Duration] products wrap around. *)
Definition wrap64 (z : Z) : Z := (z + 2 ^ 63) mod 2 ^ 64 - 2 ^ 63.

Record exchangeResponse := MkResponse { AccessToken : string; ExpiresIn : Z; ExpiresAt : string }.

Definition expiryOf (parseTime : string → option Z) (resp : exchangeResponse) (now : Z) : Z :=
  let relative := if 0 <? ExpiresIn resp then now + wrap64 (ExpiresIn resp * second) else now + defaultTokenTTL in
  if decide (ExpiresAt resp ≠ "") then default relative (parseTime (ExpiresAt resp)) else relative.

(** What the exchange of the service-account token returns: reading the file,
    the request, the decoded reply. *)
Definition exchange (parseTime : string → option Z) (file : result string string)
    (post : string → result Error string) (unmarshal : string → result string exchangeResponse) (now : Z) :
    result Error (string * Z) :=
  match file with
  | Err msg => Err (NewError 500 ("failed to read service-account token: " +:+ msg))
  | Ok raw =>
      let saToken := trim_space raw in
      if decide (saToken = "") then Err (NewError 500 "service-account token is empty")
      else match post saToken with
           | Err e => Err (NewError (Code e) "workload-identity token exchange failed")
           | Ok body =>
               match unmarshal body with
               | Err msg => Err (NewError 502 msg)
               | Ok resp =>
                   if decide (AccessToken resp = "") then Err (NewError 502 "token exchange returned empty access_token")
                   else Ok (AccessToken resp, expiryOf parseTime resp now)
               end
           end
  end.

(** [window] after the shortening for short lives, and [refreshAt];
    [jitter] is the random part of the window. *)
Definition windowOf (refreshWindow life : Z) : Z :=
  if life <=? refreshWindow then Z.quot life 2 else refreshWindow.
Definition refreshTime (refreshWindow : Z) (jitter : Z → Z) (now expires : Z) : Z :=
  let life := Sub expires now in
  let window := windowOf refreshWindow life in
  let refreshAt := expires - (window - jitter window) in
  if refreshAt <=? now then now + Z.quot life 2 else refreshAt.

(** ** [Token], [deferRefresh] and [InvalidateIfCurrent] *)

(** Where a goroutine is in [Token].  [seen]: the pointer it read from [c.cur]. *)
Inductive pc :=
| Called                               (* reads [c.cur] next *)
| Tested (seen : option nat)           (* tests the clock next *)
| Waiting                              (* locks [refreshMu] next *)
| Locked                               (* reads [c.cur] again *)
| Retested (seen : option nat)         (* tests the clock again *)
| Exchanging (seen : option nat)       (* in [exchange] *)
| Minting (key : string) (expires : Z) (* computes [refreshAt] *)
| Failed (seen : option nat) (e : Error)  (* tests whether the old key lives *)
| Deferring (seen : nat)               (* calls [deferRefresh] *)
| Installing (fresh : cachedToken)     (* sets [c.cur] *)
| Unlocking (r : result Error string)  (* the deferred unlock *)
| Returned (r : result Error string).

(** [started] is when [Token] was called. *)
Record thread := MkThread { started : Z; at_ : pc }.

(** [tokens]: the published keys by address; [cur]: [c.cur]; [holder]: the
    goroutine that holds [refreshMu]. *)
Record world := MkWorld {
  clock : Z;
  tokens : gmap nat cachedToken;
  cur : option nat;
  holder : option nat;
  threads : gmap nat thread
}.
Definition newCredential (now : Z) : world := MkWorld now ∅ None None ∅.

(** What the environment decides: the service-account token on file, the reply
    to the request and its decoding; and the random bytes drawn. *)
Inductive input :=
| NoInput
| Exchanged (file : result string string) (reply : result Error string) (decoded : result string exchangeResponse)
| Drawn (random : Z).

Inductive action :=
| Tick (d : Z)
| Call (i : nat)
| Run (i : nat) (inp : input)
| InvalidateIfCurrent (key : string).

Definition goto (i : nat) (t : thread) (p : pc) (w : world) : world :=
  MkWorld (clock w) (tokens w) (cur w) (holder w) (<[i := MkThread (started t) p]> (threads w)).
Definition publish (k : cachedToken) (w : world) : world :=
  let l := fresh (dom (tokens w)) in
  MkWorld (clock w) (<[l := k]> (tokens w)) (Some l) (holder w) (threads w).
Definition setHolder (h : option nat) (w : world) : world :=
  MkWorld (clock w) (tokens w) (cur w) h (threads w).
Definition setCur (c : option nat) (w : world) : world :=
  MkWorld (clock w) (tokens w) c (holder w) (threads w).

(** The key a pointer leads to, when it is not due at the time. *)
Definition usable (due : cachedToken → Z) (w : world) (seen : option nat) : option cachedToken :=
  k ← seen ≫= (tokens w !!.);
  if clock w <? due k then Some k else None.

Definition deferRefresh (w : world) (stale : nat) (d : Z) : world :=
  match cur w with
  | Some l =>
      if decide (l = stale) then
        match tokens w !! l with
        | Some k =>
            let next := Z.min (clock w + d) (expiresAt k) in
            if next <=? refreshAt k then w
            else publish (MkToken (accessToken k) (expiresAt k) next) w
        | None => w
        end
      else w
  | None => w
  end.

Definition invalidate (w : world) (key : string) : world :=
  match cur w ≫= (tokens w !!.) with
  | Some k => if decide (accessToken k = key) then setCur None w else w
  | None => w
  end.

(** [jitter random window]: the floating-point product of the random number,
    [jitterFrac] and the window, as a duration. *)
Section Steps.
Context (parseTime : string → option Z) (refreshWindow : Z) (jitter : Z → Z → Z).

(** One step of a goroutine; [None]: it cannot run. *)
Definition run (w : world) (i : nat) (t : thread) (inp : input) : option world :=
  let go p w := Some (goto i t p w) in
  match at_ t, inp with
  | Called, NoInput => go (Tested (cur w)) w
  | Tested seen, NoInput =>
      match usable refreshAt w seen with
      | Some k => go (Returned (Ok (accessToken k))) w
      | None => go Waiting w
      end
  | Waiting, NoInput =>
      match holder w with None => go Locked (setHolder (Some i) w) | Some _ => None end
  | Locked, NoInput => go (Retested (cur w)) w
  | Retested seen, NoInput =>
      match usable refreshAt w seen with
      | Some k => go (Unlocking (Ok (accessToken k))) w
      | None => go (Exchanging seen) w
      end
  | Exchanging seen, Exchanged file reply decoded =>
      match exchange parseTime file (λ _, reply) (λ _, decoded) (clock w) with
      | Ok (key, expires) => go (Minting key expires) w
      | Err e => go (Failed seen e) w
      end
  | Minting key expires, Drawn random =>
      go (Installing (MkToken key expires (refreshTime refreshWindow (jitter random) (clock w) expires))) w
  | Failed seen e, NoInput =>
      match seen, usable expiresAt w seen with
      | Some stale, Some k => go (Deferring stale) w
      | _, _ => go (Unlocking (Err e)) w
      end
  | Deferring stale, NoInput =>
      match tokens w !! stale with
      | Some k => go (Unlocking (Ok (accessToken k))) (deferRefresh w stale failedRefreshBackoff)
      | None => None
      end
  | Installing fresh, NoInput => go (Unlocking (Ok (accessToken fresh))) (publish fresh w)
  | Unlocking r, NoInput => go (Returned r) (setHolder None w)
  | _, _ => None
  end.

(** Time does not go back. *)
Definition act (w : world) (a : action) : option world :=
  match a with
  | Tick d => if d <? 0 then None else Some (MkWorld (clock w + d) (tokens w) (cur w) (holder w) (threads w))
  | Call i =>
      match threads w !! i with
      | None => Some (goto i (MkThread (clock w) Called) Called w)
      | Some _ => None
      end
  | Run i inp => t ← threads w !! i; run w i t inp
  | InvalidateIfCurrent key => Some (invalidate w key)
  end.

Definition exec : world → list action → option world := foldO act.
End Steps.
End Lambda.
