(* ===== verification/LambdaAuth.v ===== *)
(** * Which credential a Lambda request uses

    Theorems about the shared credentials, the choice of a credential and the
    times of a key. *)

From S2P Require Import Prelude GoStrings Queue Lambda.
Open Scope Z_scope.

Module LambdaAuth.
Import Queue Lambda.
#[local] Arguments Nat.sub : simpl never.
#[local] Arguments credentialSupplied : simpl never.
#[local] Arguments requireStaticToken : simpl never.

(** ** Shared credentials *)

Lemma append_inj_l p s t : p +:+ s = p +:+ t → s = t.
Proof. induction p; simpl; [done|]. intros [= ?]. auto. Qed.

Lemma credKey_inj url url' lrn path : credKey url lrn path = credKey url' lrn path → url = url'.
Proof. unfold credKey. by intros ?%append_inj_l%append_inj_l%append_inj_l%append_inj_l. Qed.

(** The invariant for the identity and the token path of one process. *)
Record pool_ok (lrn path : string) (p : pool) : Prop := {
  po_nodup : NoDup (credOrder p);
  po_bound : (length (credOrder p) ≤ maxCachedCredentials)%nat;
  po_dom : ∀ k, k ∈ credOrder p ↔ is_Some (credCache p !! k);
  po_cached : ∀ k c, credCache p !! k = Some c →
    ∃ url, k = credKey url lrn path ∧ credentials p !! c = Some (MkCredential url lrn path)
}.

Lemma empty_pool_ok lrn path : pool_ok lrn path emptyPool.
Proof.
  split; simpl; [constructor|unfold maxCachedCredentials; lia| |done].
  intros k. rewrite lookup_empty. split; [by intros ?%not_elem_of_nil|by intros []].
Qed.

Lemma elem_of_drop {A} n (l : list A) x : x ∈ drop n l → x ∈ l.
Proof. apply subseteq_drop. Qed.

(** Eviction drops the oldest keys. *)
Lemma evict_spec order : ∀ cache, NoDup order → (∀ k, k ∈ order ↔ is_Some (cache !! k)) →
  let n := (S (length order) - maxCachedCredentials)%nat in
  (evict cache order).2 = drop n order ∧
  ∀ k, (evict cache order).1 !! k = (if decide (k ∈ drop n order) then cache !! k else None).
Proof.
  induction order as [|k0 order IH]; intros cache Hnd Hdom; cbn [evict length].
  - rewrite drop_nil. split; [done|]. intros k. rewrite decide_False by apply not_elem_of_nil. simpl.
    apply eq_None_not_Some. rewrite <-Hdom. apply not_elem_of_nil.
  - apply NoDup_cons in Hnd as [Hk0 Hnd]. destruct (Nat.leb_spec maxCachedCredentials (S (length order))).
    + destruct (IH (delete k0 cache) Hnd) as [H1 H2].
      { intros k. destruct (decide (k = k0)) as [->|].
        - rewrite lookup_delete_eq. split; [done|by intros []].
        - rewrite lookup_delete_ne by done. rewrite <-Hdom, elem_of_cons. tauto. }
      replace (S (S (length order)) - maxCachedCredentials)%nat
        with (S (S (length order) - maxCachedCredentials)) by lia. cbn [drop].
      split; [done|]. intros k. rewrite H2. case_decide as Hk; [|done].
      rewrite lookup_delete_ne; [done|]. intros <-. apply Hk0. by eapply elem_of_drop.
    + replace (S (S (length order)) - maxCachedCredentials)%nat with 0%nat by lia. split; [done|].
      intros k. rewrite drop_0. simpl. case_decide as Hk; [done|]. apply eq_None_not_Some. by rewrite <-Hdom.
Qed.

Lemma sharedCredential_has lrn path p url p' c : pool_ok lrn path p →
  sharedCredential p url lrn path = (p', c) → credentials p' !! c = Some (MkCredential url lrn path).
Proof.
  intros [_ _ _ Hc]. unfold sharedCredential. destruct (credCache p !! credKey url lrn path) as [c'|] eqn:E.
  - intros [= <- <-]. by destruct (Hc _ _ E) as (url' & <-%credKey_inj & Hcr).
  - destruct (evict (credCache p) (credOrder p)). intros [= <- <-]. apply lookup_insert_eq.
Qed.

(** A miss: what is left of the cache and the new entry. *)
Lemma sharedCredential_miss lrn path p url : pool_ok lrn path p →
  let key := credKey url lrn path in
  let kept := drop (S (length (credOrder p)) - maxCachedCredentials) (credOrder p) in
  credCache p !! key = None →
  ∃ cache c, sharedCredential p url lrn path =
      (MkPool (<[c := MkCredential url lrn path]> (credentials p)) (<[key := c]> cache) (kept ++ [key]), c) ∧
    credentials p !! c = None ∧ (key ∉ credOrder p) ∧
    ∀ k, cache !! k = (if decide (k ∈ kept) then credCache p !! k else None).
Proof.
  intros [Hnd _ Hdom _] key kept E. subst key kept. unfold sharedCredential. rewrite E.
  destruct (evict_spec (credOrder p) (credCache p) Hnd Hdom) as [H1 H2].
  destruct (evict (credCache p) (credOrder p)) as [cache order]. simpl in H1, H2. subst order.
  exists cache. eexists. split_and!; [done|apply not_elem_of_dom, is_fresh| |done].
  rewrite Hdom, E. by intros [].
Qed.

Lemma sharedCredential_inv lrn path p url : pool_ok lrn path p → pool_ok lrn path (sharedCredential p url lrn path).1.
Proof.
  intros H. destruct (credCache p !! credKey url lrn path) as [c|] eqn:E.
  { unfold sharedCredential. by rewrite E. }
  destruct (sharedCredential_miss _ _ _ _ H E) as (cache & c & -> & Hfresh & Hkey & Hcache).
  destruct H as [Hnd Hb Hdom Hc]. set (n := (S (length (credOrder p)) - maxCachedCredentials)%nat) in *.
  split; simpl.
  - apply NoDup_app. split_and!; [by eapply sublist_NoDup, sublist_drop| |apply NoDup_singleton].
    intros k Hk ->%list_elem_of_singleton. by apply elem_of_drop in Hk.
  - rewrite length_app, length_drop. simpl. unfold n, maxCachedCredentials in *. lia.
  - intros k. rewrite elem_of_app, list_elem_of_singleton. destruct (decide (k = credKey url lrn path)) as [->|Hne].
    + rewrite lookup_insert_eq. split; [done|by right].
    + rewrite lookup_insert_ne, Hcache by done. case_decide as Hk.
      * rewrite <-Hdom. split; [by intros; eapply elem_of_drop|by left].
      * split; [by intros [?|?]|by intros []].
  - intros k c' [[<- <-]|[Hne Hk]]%lookup_insert_Some; [exists url; split; [done|apply lookup_insert_eq]|].
    rewrite Hcache in Hk. case_decide; [|done]. destruct (Hc _ _ Hk) as (url' & -> & Hcr). exists url'. split; [done|].
    rewrite lookup_insert_ne; [done|]. congruence.
Qed.

(** The credentials are a first-in first-out cache of at most 32.  A call
    returns a credential with the parameters it was asked for; a base URL that
    is cached gets the credential it had, with its key, and nothing changes;
    another one drops the oldest entry when the cache is full, and the others
    keep their credentials. *)
Theorem shared_credential_spec lrn path p url :
  pool_ok lrn path p →
  let '(p', c) := sharedCredential p url lrn path in
  let key := credKey url lrn path in
  pool_ok lrn path p' ∧
  credentials p' !! c = Some (MkCredential url lrn path) ∧ credentials p ⊆ credentials p' ∧
  credCache p' !! key = Some c ∧
  (if decide (key ∈ credOrder p) then p' = p
   else credOrder p' = drop (S (length (credOrder p)) - maxCachedCredentials) (credOrder p) ++ [key] ∧
        credentials p !! c = None) ∧
  ∀ k, k ∈ credOrder p → k ∈ credOrder p' → credCache p' !! k = credCache p !! k.
Proof.
  intros H. pose proof (sharedCredential_inv _ _ _ url H) as Hinv.
  destruct (credCache p !! credKey url lrn path) as [c|] eqn:E.
  - unfold sharedCredential in *. rewrite E in *. destruct (po_cached _ _ _ H _ _ E) as (url' & <-%credKey_inj & Hcr).
    split_and!; try done. rewrite decide_True; [done|]. apply (po_dom _ _ _ H). by rewrite E.
  - destruct (sharedCredential_miss _ _ _ _ H E) as (cache & c & Heq & Hfresh & Hkey & Hcache).
    rewrite Heq in *. simpl in *. rewrite decide_False by done.
    split_and!; [done|apply lookup_insert_eq|by apply insert_subseteq|apply lookup_insert_eq|done..|].
    intros k Hk [Hk'| ->%list_elem_of_singleton]%elem_of_app; [|done].
    rewrite lookup_insert_ne by (intros E2; by rewrite E2 in Hkey). rewrite Hcache. by rewrite decide_True.
Qed.

(** ** The choice of a credential *)

Section Auth.
Context {any : Type}.
Context (decodeCredentials : list (string * any) → result string (string * string)).
Context (decodeURL : list (string * any) → result string string).
Context (GetTrimTiers : gmap string any → result string Z).
Context (Getenv : string → string).

(** Decoding matches keys without regard to case, so it is independent of the
    order of the entries as long as no field has two spellings; a field whose
    key is absent is empty. *)
Definition spelled (key : string) (l : list (string * any)) : list string :=
  filter (λ k, EqualFold k key = true) l.*1.
Definition unambiguous (keys : list string) (l : list (string * any)) : Prop :=
  ∀ key, key ∈ keys → (length (spelled key l) ≤ 1)%nat.

Context (decodeCredentials_perm : ∀ l l', l ≡ₚ l' →
  unambiguous [authWorkspaceID; authToken] l → decodeCredentials l = decodeCredentials l').
Context (decodeURL_perm : ∀ l l', l ≡ₚ l' → unambiguous [apiBaseURL] l → decodeURL l = decodeURL l').
Context (decode_absent : ∀ l workspace tok, spelled authToken l = [] →
  decodeCredentials l = Ok (workspace, tok) → tok = "").

Lemma spellings_range (R : RangeOrder) (m : gmap string any) key :
  spellings m key ≡ₚ spelled key (map_to_list m).
Proof. unfold spellings, spelled. by rewrite range_perm. Qed.

Lemma requireUnambiguousKeys_canonical (R : RangeOrder) (m : gmap string any) kind keys :
  requireUnambiguousKeys (H := R) m kind keys = requireUnambiguousKeys (H := range_canonical) m kind keys.
Proof.
  induction keys as [|key keys IH]; [done|]. simpl.
  assert (spellings (H := R) m key ≡ₚ spellings (H := range_canonical) m key) as Hp by (by rewrite !spellings_range).
  by rewrite (Permutation_length Hp), (sort_strings_proper _ _ Hp), IH.
Qed.

Lemma unambiguous_range (R : RangeOrder) (m : gmap string any) kind keys :
  requireUnambiguousKeys (H := R) m kind keys = None → unambiguous keys (range (RangeOrder := R) m).
Proof.
  intros H key Hkey. induction keys as [|key' keys IH]; [by apply not_elem_of_nil in Hkey|]. simpl in H.
  destruct (Nat.ltb_spec 1 (length (spellings (H := R) m key'))); [done|].
  apply elem_of_cons in Hkey as [->|Hkey]; [done|by apply IH].
Qed.

Lemma credentialSupplied_spec (R : RangeOrder) (m : gmap string any) key :
  credentialSupplied (H := R) m key = true ↔ ∃ k, k ∈ dom m ∧ EqualFold k key = true.
Proof.
  unfold credentialSupplied. rewrite existsb_exists. setoid_rewrite <-list_elem_of_In.
  assert (∀ k, k ∈ (range (RangeOrder := R) m).*1 ↔ k ∈ dom m) as Hk.
  { intros k. rewrite elem_of_dom, list_elem_of_fmap. split.
    - intros ([k' v] & -> & Hv). exists v. by apply elem_of_range in Hv.
    - intros [v Hv]. exists (k, v). split; [done|]. by apply elem_of_range. }
  by setoid_rewrite Hk.
Qed.

Abbreviation load R := (Loader (H := R) decodeCredentials decodeURL GetTrimTiers Getenv).

Lemma Loader_canonical (R : RangeOrder) p creds params : load R p creds params = load range_canonical p creds params.
Proof.
  unfold Loader. rewrite !requireUnambiguousKeys_canonical with (R := R).
  destruct (requireUnambiguousKeys (H := range_canonical) params _ _) eqn:E1; [done|]. unfold decodeParams.
  rewrite (decodeURL_perm (range (RangeOrder := R) params) (range (RangeOrder := range_canonical) params)).
  2: by rewrite !range_perm.
  2: eapply (unambiguous_range R); by rewrite requireUnambiguousKeys_canonical.
  destruct (requireUnambiguousKeys (H := range_canonical) creds _ _) eqn:E2; [done|].
  rewrite (decodeCredentials_perm (range (RangeOrder := R) creds) (range (RangeOrder := range_canonical) creds)).
  2: by rewrite !range_perm.
  2: eapply (unambiguous_range R); by rewrite requireUnambiguousKeys_canonical.
  assert (credentialSupplied (H := R) creds authToken = credentialSupplied (H := range_canonical) creds authToken) as ->.
  { apply Bool.eq_iff_eq_true. by rewrite !credentialSupplied_spec. }
  done.
Qed.

#[local] Arguments requireUnambiguousKeys : simpl never.
Definition identityPath : string :=
  if decide (Getenv envTokenFile = "") then defaultSATokenPath else Getenv envTokenFile.

Lemma supplied_unique (R : RangeOrder) (creds : gmap string any) kind :
  requireUnambiguousKeys (H := R) creds kind [authWorkspaceID; authToken] = None →
  credentialSupplied (H := R) creds authToken = true →
  ∃ k, k ∈ dom creds ∧ EqualFold k authToken = true ∧ ∀ k', k' ∈ dom creds → EqualFold k' authToken = true → k' = k.
Proof.
  intros Hu (k & Hk & He)%credentialSupplied_spec. exists k. split_and!; [done..|]. intros k' Hk' He'.
  assert (length (spelled authToken (range (RangeOrder := R) creds)) ≤ 1)%nat as Hl
    by (apply (unambiguous_range R _ _ _ Hu); right; left).
  assert (∀ k, k ∈ dom creds → EqualFold k authToken = true → k ∈ spelled authToken (range (RangeOrder := R) creds)) as Hin.
  { intros x [v Hx]%elem_of_dom Hex. apply list_elem_of_filter. split; [done|]. apply list_elem_of_fmap.
    exists (x, v). split; [done|]. by apply elem_of_range. }
  pose proof (Hin _ Hk He) as H1. pose proof (Hin _ Hk' He') as H2.
  destruct (spelled _ _) as [|x [|]]; simpl in *; [by apply not_elem_of_nil in H1| |lia].
  apply list_elem_of_singleton in H1 as ->. by apply list_elem_of_singleton in H2.
Qed.

(** A request authenticates as one principal.  The outcome does not depend
    on the order in which maps are ranged over.  A request that names the token
    in any spelling uses that token, which is not blank, and never the pod's
    identity; the pod's identity is used only when no spelling of the token is
    present and an identity was injected, with a credential for the request's
    host; either way the workspace is not blank. *)
Theorem lambda_authenticates (R : RangeOrder) p creds params :
  pool_ok (injectedIdentityLRN Getenv) identityPath p →
  load R p creds params = load range_canonical p creds params ∧
  ∀ p' pr, load R p creds params = Ok (p', pr) →
    workspaceID pr ≠ "" ∧
    match token pr with
    | StaticToken s =>
        trim_space s ≠ "" ∧ p' = p ∧
        ∃ k, k ∈ dom creds ∧ EqualFold k authToken = true ∧
          ∀ k', k' ∈ dom creds → EqualFold k' authToken = true → k' = k
    | WorkloadIdentity c =>
        (∀ k, k ∈ dom creds → EqualFold k authToken = false) ∧ injectedIdentityLRN Getenv ≠ "" ∧
        credentials p' !! c = Some (MkCredential (p_baseURL pr) (injectedIdentityLRN Getenv) identityPath)
    end.
Proof.
  intros Hp. split; [apply Loader_canonical|]. intros p' pr. unfold Loader.
  destruct (requireUnambiguousKeys params _ _); [done|]. destruct (decodeParams _ _) as [url|]; simpl; [|done].
  destruct (requireUnambiguousKeys creds _ _) eqn:Hu; [done|].
  destruct (decodeCredentials (range creds)) as [[workspace tok]|] eqn:Hd; simpl; [|done].
  case_decide as Hw; [done|]. destruct (credentialSupplied creds authToken) eqn:Hs; simpl.
  - destruct (requireStaticToken _ _ _) eqn:Ht; simpl; [done|]. destruct (GetTrimTiers params); simpl; [|done].
    intros [= <- <-]. simpl. split; [done|]. split; [|split; [done|by eapply supplied_unique]].
    unfold requireStaticToken in Ht. by repeat case_decide.
  - assert (∀ k, k ∈ dom creds → EqualFold k authToken = false) as Hno.
    { intros k Hk. destruct (EqualFold k authToken) eqn:E; [|done]. rewrite <-Hs. symmetry.
      apply credentialSupplied_spec. by exists k. }
    case_bool_decide as Hl; simpl.
    + destruct (GetTrimTiers params); simpl; [|done]. destruct (sharedCredential _ _ _ _) as [p2 c] eqn:Esc.
      intros [= <- <-]. simpl. split_and!; [done..|]. by eapply sharedCredential_has.
    + replace tok with ""; [done|]. symmetry. eapply decode_absent; [|done].
      apply elem_of_nil_inv. intros k [He (kv & -> & Hk)%list_elem_of_fmap]%list_elem_of_filter.
      destruct kv as [k v]. apply elem_of_range in Hk. simpl in *. rewrite Hno in He; [done|]. by apply elem_of_dom.
Qed.

End Auth.

(** ** Witnesses *)

(** 32 credentials are cached; one more replaces the oldest. *)
Fixpoint w_pool (n : nat) : pool :=
  match n with
  | O => emptyPool
  | S n => (sharedCredential (w_pool n) ("https://api/" +:+ itoa (Z.of_nat n)) "lrn" "path").1
  end.

Lemma w_pool_ok n : pool_ok "lrn" "path" (w_pool n).
Proof.
  induction n as [|n IH]; [apply empty_pool_ok|]. by apply sharedCredential_inv.
Qed.

Lemma shared_credential_spec_witness :
  let '(p, c) := sharedCredential (w_pool 32) "https://api/new" "lrn" "path" in
  credentials p !! c = Some (MkCredential "https://api/new" "lrn" "path") ∧
  credCache p !! credKey "https://api/0" "lrn" "path" = None ∧
  credCache p !! credKey "https://api/1" "lrn" "path" = credCache (w_pool 32) !! credKey "https://api/1" "lrn" "path".
Proof.
  pose proof (shared_credential_spec "lrn" "path" (w_pool 32) "https://api/new" (w_pool_ok 32)) as H.
  destruct (sharedCredential (w_pool 32) "https://api/new" "lrn" "path") as [p c] eqn:E.
  destruct H as (Hok & Hc & _ & _ & Ho & Hk). split; [exact Hc|].
  rewrite decide_False in Ho by (apply (bool_decide_unpack _); vm_compute; exact I). destruct Ho as [Ho _]. split.
  - apply eq_None_not_Some. rewrite <-(po_dom _ _ _ Hok), Ho. apply (bool_decide_unpack _). vm_compute. exact I.
  - apply Hk; [|rewrite Ho]; apply (bool_decide_unpack _); vm_compute; exact I.
Defined.

Definition w_get (key : string) (l : list (string * string)) : string :=
  match filter (λ kv, EqualFold kv.1 key = true) l with [] => "" | kv :: _ => kv.2 end.
Definition w_decode (l : list (string * string)) : result string (string * string) :=
  Ok (w_get authWorkspaceID l, w_get authToken l).
Definition w_url (l : list (string * string)) : result string string := Ok (w_get apiBaseURL l).

Lemma w_spelled key (l : list (string * string)) : spelled key l = (filter (λ kv, EqualFold kv.1 key = true) l).*1.
Proof.
  unfold spelled. induction l as [|[k v] l IH]; [done|]. rewrite fmap_cons, !filter_cons. simpl.
  case_decide; simpl; by rewrite IH.
Qed.

Lemma w_get_perm key l l' : l ≡ₚ l' → (length (spelled key l) ≤ 1)%nat → w_get key l = w_get key l'.
Proof.
  intros Hp Hl. rewrite w_spelled, length_fmap in Hl. unfold w_get.
  pose proof (filter_Permutation (λ kv : string * string, EqualFold kv.1 key = true) l l' Hp) as Hf.
  destruct (filter _ l) as [|kv [|]]; simpl in Hl; [|..|lia].
  - symmetry in Hf. by apply Permutation_nil_r in Hf as ->.
  - symmetry in Hf. by apply Permutation_singleton_r in Hf as ->.
Qed.

Lemma w_decode_perm l l' : l ≡ₚ l' → unambiguous [authWorkspaceID; authToken] l → w_decode l = w_decode l'.
Proof.
  intros Hp Hu. unfold w_decode. rewrite (w_get_perm authWorkspaceID l l'), (w_get_perm authToken l l'); [done|..];
    try done; apply Hu; [right; left|left].
Qed.

Lemma w_url_perm l l' : l ≡ₚ l' → unambiguous [apiBaseURL] l → w_url l = w_url l'.
Proof. intros Hp Hu. unfold w_url. rewrite (w_get_perm apiBaseURL l l'); [done..|]. apply Hu. left. Qed.

Lemma w_decode_absent l workspace tok : spelled authToken l = [] → w_decode l = Ok (workspace, tok) → tok = "".
Proof.
  rewrite w_spelled. unfold w_decode, w_get. intros Hs%fmap_nil_inv. rewrite Hs. by intros [= _ <-].
Qed.

Definition w_env (name : string) : string := if decide (name = envIdentityLRN) then "lrn:pod" else "".
Definition w_creds : gmap string string := {[ "workspaceId" := " ws "; "Token" := "secret" ]}.
Definition w_params : gmap string string := {[ "url" := "https://api" ]}.

(** The pod has an identity, and the request a token in another spelling. *)
Lemma lambda_authenticates_witness : ∃ k, k ∈ dom w_creds ∧ EqualFold k authToken = true ∧
  ∀ k', k' ∈ dom w_creds → EqualFold k' authToken = true → k' = k.
Proof.
  destruct (lambda_authenticates w_decode w_url (λ _, Ok 0) w_env w_decode_perm w_url_perm w_decode_absent
    range_canonical emptyPool w_creds w_params (empty_pool_ok _ _)) as [_ H].
  destruct (H emptyPool (MkProvider "ws" (StaticToken "secret") "https://api" 0) ltac:(vm_eq)) as (_ & _ & _ & Hk).
  exact Hk.
Defined.

End LambdaAuth.
