(* ===== verification/LambdaToken.v ===== *)
(** * Keys of a workload identity: [Token] under concurrency

    Theorems about the machine of [Lambda]: which keys [Token] hands out, how
    a rejected key disappears, how a failed exchange is shared, and that every
    call returns. *)

From S2P Require Import Prelude GoStrings Queue Lambda.
Open Scope Z_scope.

Module LambdaToken.
Import Queue Lambda.

#[local] Arguments usable : simpl never.
#[local] Arguments publish : simpl never.
#[local] Arguments deferRefresh : simpl never.

Section Token.
Context (parseTime : string → option Z) (refreshWindow : Z) (jitter : Z → Z → Z).

(** ** Invariants *)

(** The code between the lock and the unlock of [refreshMu]. *)
Definition critical (p : pc) : bool :=
  match p with Called | Tested _ | Waiting | Returned _ => false | _ => true end.

Definition points (w : world) (seen : option nat) : Prop :=
  ∀ l, seen = Some l → is_Some (tokens w !! l).

(** A key that lived at some instant between [start] and [now], or that was
    issued in between when it was already dead. *)
Definition good (start now : Z) (k : cachedToken) : Prop :=
  ∃ τ, start ≤ τ ≤ now ∧
    (τ < expiresAt k ∨
     expiresAt k ≤ τ ∧ ∃ u, refreshAt k = refreshTime refreshWindow (jitter u) τ (expiresAt k)).

Definition times_ok (now : Z) (k : cachedToken) : Prop := refreshAt k ≤ expiresAt k ∨ refreshAt k ≤ now.

Definition served (w : world) (start : Z) (key : string) : Prop :=
  ∃ l k, tokens w !! l = Some k ∧ accessToken k = key ∧ good start (clock w) k.

Definition pc_ok (w : world) (start : Z) (p : pc) : Prop :=
  match p with
  | Tested seen | Retested seen | Exchanging seen | Failed seen _ => points w seen
  | Deferring l => ∃ k, tokens w !! l = Some k ∧ good start (clock w) k
  | Installing k => good start (clock w) k ∧ times_ok (clock w) k
  | Unlocking (Ok key) | Returned (Ok key) => served w start key
  | _ => True
  end.

Definition thread_ok (w : world) (t : thread) : Prop := started t ≤ clock w ∧ pc_ok w (started t) (at_ t).

Record data_ok (w : world) : Prop := {
  ok_times : ∀ l k, tokens w !! l = Some k → times_ok (clock w) k;
  ok_cur : points w (cur w);
  ok_threads : ∀ i t, threads w !! i = Some t → thread_ok w t
}.

Definition mutex_ok (w : world) : Prop :=
  ∀ i, holder w = Some i ↔ ∃ t, threads w !! i = Some t ∧ critical (at_ t) = true.

Definition ext (w w' : world) : Prop := clock w ≤ clock w' ∧ tokens w ⊆ tokens w'.

#[local] Instance ext_preorder : PreOrder ext.
Proof.
  split; [by intros w|]. intros w1 w2 w3 [H1 H2] [H3 H4]. split; [lia|by etrans].
Qed.

Lemma good_mono s now now' k : now ≤ now' → good s now k → good s now' k.
Proof. intros Hle (τ & Hτ & H). exists τ. split; [lia|done]. Qed.

Lemma pc_ok_mono w w' s p : ext w w' → pc_ok w s p → pc_ok w' s p.
Proof.
  intros [Hc Ht].
  assert (∀ seen, points w seen → points w' seen) as Hp.
  { intros seen H l ->. destruct (H l eq_refl) as [k Hk]. exists k. by apply (lookup_weaken _ _ _ _ Hk). }
  assert (∀ key, served w s key → served w' s key) as Hs.
  { intros key (l & k & Hk & Ha & Hg). exists l, k. eauto using lookup_weaken, good_mono. }
  destruct p as [| | | | | | | | |k|[|]|[|]]; simpl; auto.
  - intros (k & Hk & Hg). exists k. eauto using lookup_weaken, good_mono.
  - intros [Hg Hk]. split; [by eapply good_mono|]. destruct Hk; [by left|right; lia].
Qed.

Lemma thread_ok_mono w w' t : ext w w' → thread_ok w t → thread_ok w' t.
Proof. intros Hw [H1 H2]. split; [destruct Hw; lia|by eapply pc_ok_mono]. Qed.

Lemma publish_ext k w : ext w (publish k w).
Proof. split; simpl; [lia|]. apply insert_subseteq, not_elem_of_dom, is_fresh. Qed.

Lemma publish_ok k w : times_ok (clock w) k → data_ok w → data_ok (publish k w).
Proof.
  intros Hk [H1 H2 H3]. split.
  - simpl. intros l k' [[_ <-]|[_ ?]]%lookup_insert_Some; eauto.
  - intros l [= <-]. simpl. rewrite lookup_insert_eq. eauto.
  - intros i t Ht. apply (thread_ok_mono w); [apply publish_ext|eauto].
Qed.

Lemma goto_ok i t p w : data_ok w → started t ≤ clock w → pc_ok w (started t) p → data_ok (goto i t p w).
Proof.
  intros [H1 H2 H3] Hs Hp. split; [done..|]. simpl.
  intros j u [[_ <-]|[_ ?]]%lookup_insert_Some; [by split|by apply (H3 j)].
Qed.

Lemma setHolder_ok h w : data_ok w → data_ok (setHolder h w).
Proof. intros [H1 H2 H3]. by split. Qed.

Lemma deferRefresh_ext w l d : ext w (deferRefresh w l d).
Proof.
  unfold deferRefresh. destruct (cur w) as [l'|]; [|done]. case_decide; [|done].
  destruct (tokens w !! l'); [|done]. case_match; [done|apply publish_ext].
Qed.

Lemma deferRefresh_ok w l d : data_ok w → data_ok (deferRefresh w l d).
Proof.
  intros H. unfold deferRefresh. destruct (cur w) as [l'|]; [|done]. case_decide; [|done].
  destruct (tokens w !! l') as [k|]; [|done]. case_match; [done|].
  apply publish_ok; [|done]. left. simpl. lia.
Qed.

Lemma deferRefresh_threads w l d :
  threads (deferRefresh w l d) = threads w ∧ holder (deferRefresh w l d) = holder w ∧ clock (deferRefresh w l d) = clock w.
Proof.
  unfold deferRefresh. destruct (cur w) as [l'|]; [|done]. case_decide; [|done].
  destruct (tokens w !! l'); [|done]. by case_match.
Qed.

Lemma usable_Some due w seen k :
  usable due w seen = Some k ↔ ∃ l, seen = Some l ∧ tokens w !! l = Some k ∧ clock w < due k.
Proof.
  unfold usable. destruct seen as [l|]; simpl.
  - destruct (tokens w !! l) as [k'|] eqn:E; simpl; [|naive_solver].
    destruct (Z.ltb_spec (clock w) (due k')); split; try done.
    + intros [= <-]. by exists l.
    + intros (? & [= <-] & ? & ?). congruence.
    + intros (? & [= <-] & ? & ?). simplify_eq. lia.
  - split; [done|]. by intros (? & ? & ?).
Qed.

(** ** The times of a key

    [jitter] lies between nothing and the window: [jitterFrac] is a fifth and
    the random number is below one. *)
Context (jitter_bound : ∀ u window, Z.min 0 window ≤ jitter u window ≤ Z.max 0 window).
Context (window_nonneg : 0 ≤ refreshWindow).

Lemma half_bounds z : Z.min 0 z ≤ z ÷ 2 ≤ Z.max 0 z.
Proof. pose proof (Z.quot_rem' z 2). pose proof (Z.rem_bound_abs z 2). lia. Qed.

Lemma refreshTime_ok u now e : refreshTime refreshWindow (jitter u) now e ≤ Z.max now e.
Proof.
  unfold refreshTime, windowOf. set (life := Sub e now).
  assert (Z.min 0 (e - now) ≤ life ≤ Z.max 0 (e - now)) by (unfold life, Sub, minDuration, maxDuration; lia).
  pose proof (half_bounds life). pose proof (jitter_bound u (life ÷ 2)). pose proof (jitter_bound u refreshWindow).
  destruct (Z.leb_spec life refreshWindow); case_match; lia.
Qed.

(** A key that lives is refreshed in the future, within the window before it
    dies. *)
Lemma refreshTime_live u now e : now < e →
  now < refreshTime refreshWindow (jitter u) now e ≤ e ∧ e - refreshWindow ≤ refreshTime refreshWindow (jitter u) now e.
Proof.
  intros He. pose proof (refreshTime_ok u now e). unfold refreshTime, windowOf in *. set (life := Sub e now) in *.
  assert (0 < life ≤ e - now) by (unfold life, Sub, minDuration, maxDuration; lia).
  pose proof (half_bounds life). pose proof (jitter_bound u (life ÷ 2)). pose proof (jitter_bound u refreshWindow).
  destruct (Z.leb_spec life refreshWindow); case_match; lia.
Qed.

(** ** Every step keeps the invariants *)

Abbreviation run := (run parseTime refreshWindow jitter).
Abbreviation act := (act parseTime refreshWindow jitter).
Abbreviation exec := (exec parseTime refreshWindow jitter).

Lemma served_now w start l k : tokens w !! l = Some k → start ≤ clock w → clock w < expiresAt k →
  served w start (accessToken k).
Proof. intros. exists l, k. split_and!; [done..|]. exists (clock w). split; [lia|by left]. Qed.

Lemma usable_served w start seen k : data_ok w → start ≤ clock w → usable refreshAt w seen = Some k →
  served w start (accessToken k).
Proof.
  intros H Hs (l & -> & Hk & Hc)%usable_Some. apply (served_now w start l k); try done.
  destruct (ok_times _ H l k Hk); lia.
Qed.

Lemma minted_good start now u key e : start ≤ now →
  let k := MkToken key e (refreshTime refreshWindow (jitter u) now e) in good start now k ∧ times_ok now k.
Proof.
  intros Hs k. split.
  - exists now. split; [lia|]. destruct (Z_lt_ge_dec now e); [by left|right]. simpl. split; [lia|by exists u].
  - pose proof (refreshTime_ok u now e). unfold times_ok. simpl. lia.
Qed.

Lemma run_data w i t inp w' : data_ok w → threads w !! i = Some t → run w i t inp = Some w' → data_ok w'.
Proof.
  intros H Ht Hr. destruct (ok_threads _ H _ _ Ht) as [Hs Hp].
  destruct t as [s p]; unfold Lambda.run in Hr; simpl in *. destruct p, inp; simpl in *; try done.
  - injection Hr as <-. apply goto_ok; [done..|]. apply (ok_cur _ H).
  - destruct (usable refreshAt w seen) as [k|] eqn:E; injection Hr as <-; apply goto_ok; try done.
    by eapply usable_served.
  - destruct (holder w); [done|]. injection Hr as <-. apply goto_ok; [by apply setHolder_ok|done..].
  - injection Hr as <-. apply goto_ok; [done..|]. apply (ok_cur _ H).
  - destruct (usable refreshAt w seen) as [k|] eqn:E; injection Hr as <-; apply goto_ok; try done.
    by eapply usable_served.
  - destruct (exchange _ _ _ _ _) as [[key e]|e]; injection Hr as <-; by apply goto_ok.
  - injection Hr as <-. apply goto_ok; [done..|]. by apply minted_good.
  - destruct seen as [l|]; [|by injection Hr as <-; apply goto_ok].
    destruct (usable expiresAt w (Some l)) as [k|] eqn:E; injection Hr as <-; apply goto_ok; try done.
    apply usable_Some in E as (? & [= <-] & Hk & Hc). exists k. split; [done|]. exists (clock w). split; [simpl; lia|by left].
  - destruct Hp as (k & Hk & Hg). rewrite Hk in Hr. injection Hr as <-.
    pose proof (deferRefresh_ext w seen failedRefreshBackoff) as He.
    apply goto_ok; [by apply deferRefresh_ok|by destruct He; simpl; lia|].
    exists seen, k. destruct He as [Hc Hsub]. split_and!; [by apply (lookup_weaken _ _ _ _ Hk)|done|].
    by apply (good_mono _ (clock w)).
  - injection Hr as <-. destruct Hp as [Hg Hk]. apply goto_ok; [by apply publish_ok|done|].
    eexists _, _. split; [apply lookup_insert_eq|done].
  - injection Hr as <-. apply goto_ok; [by apply setHolder_ok|done..].
Qed.

(** What a step changes besides the position of its goroutine. *)
Definition holder_after (w : world) (i : nat) (p : pc) : option nat :=
  match p with Waiting => Some i | Unlocking _ => None | _ => holder w end.

Definition rank (p : pc) : nat :=
  match p with
  | Called => 10 | Tested _ => 9 | Waiting => 8 | Locked => 7 | Retested _ => 6 | Exchanging _ => 5
  | Minting _ _ => 4 | Failed _ _ => 4 | Deferring _ => 3 | Installing _ => 3 | Unlocking _ => 2 | Returned _ => 1
  end.

Definition moves (p p' : pc) : Prop :=
  (rank p' < rank p)%nat ∧
  critical p' = match p with Waiting => true | Unlocking _ => false | _ => critical p end.

Record stepped (w w' : world) (i : nat) (t : thread) (p' : pc) : Prop := {
  st_threads : threads w' = <[i := MkThread (started t) p']> (threads w);
  st_holder : holder w' = holder_after w i (at_ t);
  st_clock : clock w' = clock w;
  st_ext : ext w w';
  st_moves : moves (at_ t) p';
  st_free : at_ t = Waiting → holder w = None
}.

Lemma goto_stepped w v i t p' :
  threads v = threads w → holder v = holder_after w i (at_ t) → clock v = clock w → ext w v →
  moves (at_ t) p' → (at_ t = Waiting → holder w = None) → stepped w (goto i t p' v) i t p'.
Proof. intros Ht ? ? [? ?] ? ?. split; simpl; try done. by rewrite Ht. Qed.

Lemma run_stepped w i t inp w' : run w i t inp = Some w' → ∃ p', stepped w w' i t p'.
Proof.
  intros Hr. destruct t as [s p]. unfold Lambda.run in Hr; simpl in *.
  pose proof (deferRefresh_threads w) as Hd. pose proof (deferRefresh_ext w) as He. pose proof publish_ext as Hx.
  destruct p, inp; simpl in *; try done; repeat case_match; simplify_eq; eexists; apply goto_stepped; simpl; try done;
    try (split; simpl; [lia|done]); apply Hd.
Qed.

Lemma mutex_step w w' i t p' : mutex_ok w → threads w !! i = Some t → stepped w w' i t p' → mutex_ok w'.
Proof.
  intros Hm Ht [Hts Hh _ _ [_ Hc] Hw] j. rewrite Hts, Hh. pose proof (Hm i) as Hi. pose proof (Hm j) as Hj.
  assert (critical (at_ t) = true → holder w = Some i) as Hcrit by (intros; apply Hi; eauto).
  destruct (decide (i = j)) as [->|Hne].
  - rewrite lookup_insert_eq. clear Hj.
    assert ((∃ t0, Some (MkThread (started t) p') = Some t0 ∧ critical (at_ t0) = true) ↔ critical p' = true) as ->.
    { split; [by intros (? & [= <-] & ?)|]. intros. eauto. }
    rewrite Hc. destruct (at_ t) eqn:Ep; simpl in *; try done; rewrite Hi; split; try done; eauto; try (by intros (? & ? & ?); simplify_eq; rewrite Ep in *).
    all: intros _; exists t; by rewrite Ep.
  - rewrite lookup_insert_ne by done. rewrite <-Hj.
    destruct (at_ t) eqn:Ep; simpl in *; try done.
    + rewrite (Hw eq_refl). split; congruence.
    + rewrite (Hcrit eq_refl). split; congruence.
Qed.

Definition inv (w : world) : Prop := data_ok w ∧ mutex_ok w.

Lemma act_inv w a w' : inv w → act w a = Some w' → inv w'.
Proof.
  intros [H Hm] Ha. destruct a as [d|i|i inp|key]; simpl in Ha.
  - destruct (Z.ltb_spec d 0); [done|]. injection Ha as <-. split; [|done].
    assert (ext w (MkWorld (clock w + d) (tokens w) (cur w) (holder w) (threads w))) as He by (split; simpl; [lia|done]).
    destruct H as [H1 H2 H3]. split; simpl; [|done|].
    + intros l k Hk. destruct (H1 l k Hk); [by left|right; simpl; lia].
    + intros i t Ht. by apply (thread_ok_mono w), (H3 i).
  - destruct (threads w !! i) eqn:E; [done|]. injection Ha as <-. split.
    + apply goto_ok; [done|simpl; lia|done].
    + intros j. rewrite (Hm j). unfold goto; simpl. destruct (decide (i = j)) as [->|]; [|by rewrite lookup_insert_ne].
      rewrite lookup_insert_eq, E. split; [by intros (? & ? & ?)|]. by intros (? & [= <-] & ?).
  - destruct (threads w !! i) as [t|] eqn:Ht; simpl in Ha; [|done]. split; [by eapply run_data|].
    apply run_stepped in Ha as [p' Hp]. by eapply (mutex_step w w').
  - injection Ha as <-. unfold invalidate. repeat case_match; try done. split; [|done].
    destruct H as [Ht Hc Hts]. by split.
Qed.

Lemma exec_cons w a tr w' : exec w (a :: tr) = Some w' ↔ ∃ w1, act w a = Some w1 ∧ exec w1 tr = Some w'.
Proof.
  unfold exec, Lambda.exec. simpl. destruct (act w a) as [w1|]; [|by split; [|intros (? & ? & ?)]].
  split; [by exists w1|]. by intros (? & [= <-] & ?).
Qed.

Lemma exec_app w tr1 tr2 w' : exec w (tr1 ++ tr2) = Some w' ↔ ∃ w1, exec w tr1 = Some w1 ∧ exec w1 tr2 = Some w'.
Proof.
  revert w. induction tr1 as [|a tr1 IH]; intros w; simpl.
  - split; [by exists w|]. by intros (? & [= <-] & ?).
  - rewrite exec_cons. setoid_rewrite IH. setoid_rewrite exec_cons. naive_solver.
Qed.

(** Induction along an execution. *)
Lemma exec_ind (P : list action → world → Prop) (w0 : world) :
  P [] w0 → (∀ tr w a w', exec w0 tr = Some w → P tr w → act w a = Some w' → P (tr ++ [a]) w') →
  ∀ tr w, exec w0 tr = Some w → P tr w.
Proof.
  intros H0 Hs tr. induction tr as [|a tr IH] using rev_ind; intros w; [by intros [= <-]|].
  intros (w1 & H1 & (w2 & H2 & [= <-])%exec_cons)%exec_app. eauto.
Qed.

Lemma exec_inv w0 tr w : inv w0 → exec w0 tr = Some w → inv w.
Proof. intros H0. revert tr w. by apply (exec_ind (λ _ w, inv w)); [|intros; eapply act_inv]. Qed.

Lemma new_credential_inv now : inv (newCredential now).
Proof. split; [by split|]. intros i. split; [done|]. by intros (? & ? & ?). Qed.

Lemma reachable_inv now tr w : exec (newCredential now) tr = Some w → inv w.
Proof. apply exec_inv, new_credential_inv. Qed.

(** ** Every call returns *)

Definition isRun (i : nat) (a : action) : bool :=
  match a with Run j _ => bool_decide (i = j) | _ => false end.
Definition runs (i : nat) (tr : list action) : nat := length (filter (λ a, isRun i a = true) tr).

Definition returned (w : world) (i : nat) : Prop :=
  ∃ t r, threads w !! i = Some t ∧ at_ t = Returned r.

Lemma runs_app i tr a : runs i (tr ++ [a]) = (runs i tr + if isRun i a then 1 else 0)%nat.
Proof. unfold runs. rewrite filter_app, length_app. simpl. unfold filter; simpl. by case_decide; destruct (isRun i a). Qed.

Lemma invalidate_threads w key : threads (invalidate w key) = threads w.
Proof. unfold invalidate. by repeat case_match. Qed.

Lemma runs_rank now tr w i : exec (newCredential now) tr = Some w →
  match threads w !! i with
  | Some t => (runs i tr + rank (at_ t) ≤ 10)%nat
  | None => runs i tr = 0%nat
  end.
Proof.
  revert tr w. apply (exec_ind (λ tr w, _)); [done|]. intros tr w a w' _ IH Ha. rewrite runs_app.
  destruct a as [d|j|j inp|key]; simpl in *; rewrite ?Nat.add_0_r.
  - destruct (Z.ltb_spec d 0); by simplify_eq/=.
  - destruct (threads w !! j) eqn:Ej; [done|]. injection Ha as <-. simpl.
    destruct (decide (j = i)) as [->|]; [|by rewrite lookup_insert_ne]. rewrite Ej in IH. rewrite lookup_insert_eq, IH. simpl. lia.
  - destruct (threads w !! j) as [t|] eqn:Ej; simpl in Ha; [|done]. apply run_stepped in Ha as [p' [Ht _ _ _ [Hr _] _]].
    rewrite Ht. case_bool_decide as Hij; simplify_eq; [|rewrite lookup_insert_ne by done; by rewrite Nat.add_0_r].
    rewrite Ej in IH. rewrite lookup_insert_eq. simpl. lia.
  - simplify_eq. by rewrite invalidate_threads.
Qed.

(** What lets a goroutine run: a failed exchange, a draw. *)
Definition serve (p : pc) : input :=
  match p with Exchanging _ => Exchanged (Err "") (Ok "") (Err "") | Minting _ _ => Drawn 0 | _ => NoInput end.

Lemma can_step w i t : inv w → threads w !! i = Some t → (∀ r, at_ t ≠ Returned r) →
  (at_ t = Waiting → holder w = None) →
  ∃ w' p', act w (Run i (serve (at_ t))) = Some w' ∧ stepped w w' i t p'.
Proof.
  intros [H _] Ht Hr Hw. destruct (ok_threads _ H _ _ Ht) as [_ Hp].
  assert (is_Some (run w i t (serve (at_ t)))) as [w' Hrun].
  { destruct t as [s p]; unfold Lambda.run; simpl in *. destruct p; simpl in *; try done; repeat case_match; try done.
    - by specialize (Hw eq_refl).
    - by destruct Hp as (? & ? & _).
    - exfalso. by eapply Hr.
    - exfalso. by eapply Hr. }
  destruct (run_stepped _ _ _ _ _ Hrun) as [p' Hst]. exists w', p'. split; [|done]. simpl. by rewrite Ht.
Qed.

Lemma runs_out n : ∀ w i t, (rank (at_ t) ≤ n)%nat → inv w → threads w !! i = Some t → critical (at_ t) = true →
  ∃ tr w' r, exec w tr = Some w' ∧ threads w' = <[i := MkThread (started t) (Returned r)]> (threads w) ∧ holder w' = None.
Proof.
  induction n as [|n IH]; intros w i t Hn Hi Ht Hc; [by destruct (at_ t); simpl in *; lia|].
  destruct (can_step w i t) as (w1 & p' & Ha & Hst); [done..|by intros r E; rewrite E in Hc|by intros E; rewrite E in Hc|].
  pose proof (act_inv _ _ _ Hi Ha) as Hi1. destruct Hst as [Hts Hh _ _ [Hrk Hcr] _].
  assert (threads w1 !! i = Some (MkThread (started t) p')) as Ht1 by (rewrite Hts; apply lookup_insert_eq).
  destruct (critical p') eqn:Ec.
  - destruct (IH w1 i (MkThread (started t) p')) as (tr & w2 & r & He & Hts2 & Hh2); [simpl; lia|done..|].
    exists (Run i (serve (at_ t)) :: tr), w2, r. split; [apply exec_cons; eauto|]. split; [|done].
    rewrite Hts2, Hts. by rewrite insert_insert_eq.
  - destruct (at_ t) as [| | | | | | | | | |r|]; try done; try congruence.
    destruct p' as [| | | | | | | | | | |r']; simpl in *; try lia.
    exists [Run i NoInput], w1, r'. split; [apply exec_cons; eauto|done].
Qed.

Lemma finishes n : ∀ w i t, (rank (at_ t) ≤ n)%nat → inv w → threads w !! i = Some t →
  ∃ tr w', exec w tr = Some w' ∧ returned w' i.
Proof.
  induction n as [|n IH]; intros w i t Hn Hi Ht; [by destruct (at_ t); simpl in *; lia|].
  assert ((∀ r, at_ t ≠ Returned r) → (at_ t = Waiting → holder w = None) →
    ∃ tr w', exec w tr = Some w' ∧ returned w' i) as Hgo.
  { intros Hr Hw. destruct (can_step w i t) as (w1 & p' & Ha & Hst); [done..|]. destruct Hst as [Hts _ _ _ [Hrk _] _].
    destruct (IH w1 i (MkThread (started t) p')) as (tr & w2 & He & Hd); [simpl; lia|by eapply act_inv|rewrite Hts; apply lookup_insert_eq|].
    exists (Run i (serve (at_ t)) :: tr), w2. split; [apply exec_cons; eauto|done]. }
  destruct (at_ t) eqn:Ep; try (apply Hgo; done); [|exists [], w; split; [done|by exists t, r]].
  destruct (holder w) as [j|] eqn:Ej; [|by apply Hgo].
  destruct (proj1 (proj2 Hi j) Ej) as (u & Hu & Hcu).
  destruct (runs_out (rank (at_ u)) w j u) as (tr & w1 & r & He & Hts & Hh); [done..|].
  assert (i ≠ j) as Hij by (intros ->; simplify_eq; by rewrite Ep in Hcu).
  assert (threads w1 !! i = Some t) as Ht1 by (rewrite Hts, lookup_insert_ne; done).
  pose proof (exec_inv _ _ _ Hi He) as Hi1.
  destruct (can_step w1 i t) as (w2 & p' & Ha & Hst); [done..|by rewrite Ep|done|]. destruct Hst as [Hts2 _ _ _ [Hrk _] _].
  destruct (IH w2 i (MkThread (started t) p')) as (tr2 & w3 & He2 & Hd);
    [rewrite Ep in Hrk; simpl in *; lia|by eapply act_inv|rewrite Hts2; apply lookup_insert_eq|].
  exists (tr ++ Run i (serve (at_ t)) :: tr2), w3. split; [|done]. apply exec_app. exists w1. split; [done|].
  apply exec_cons. eauto.
Qed.

(** ** Keys that are rejected *)

Definition mint (a : action) : option string :=
  match a with
  | Run _ (Exchanged file reply decoded) =>
      match fst <$> exchange parseTime file (λ _, reply) (λ _, decoded) 0 with Ok key => Some key | Err _ => None end
  | _ => None
  end.

(** The time decides the expiry, not the key. *)
Lemma exchange_key file reply decoded now now' :
  fst <$> exchange parseTime file reply decoded now = fst <$> exchange parseTime file reply decoded now'.
Proof.
  unfold exchange. destruct file; [|done]. case_decide; [done|]. destruct (reply _); [|done].
  destruct (decoded _); [|done]. by case_decide.
Qed.

(** The keys the server issued, in order. *)
Definition mints (tr : list action) : list string := omap mint tr.

(** The key a goroutine has been issued and not published. *)
Definition pending (p : pc) : option string :=
  match p with Minting key _ => Some key | Installing k => Some (accessToken k) | _ => None end.

(** How a step of a goroutine touches the published keys. *)
Inductive effect (w w' : world) (p p' : pc) (a : action) : Prop :=
| EffKeep : tokens w' = tokens w → cur w' = cur w → pending p' = None → mint a = None → effect w w' p p' a
| EffMint key : tokens w' = tokens w → cur w' = cur w → mint a = Some key → pending p' = Some key →
    pending p = None → critical p = true → effect w w' p p' a
| EffMinted key : tokens w' = tokens w → cur w' = cur w → pending p = Some key → pending p' = Some key →
    mint a = None → effect w w' p p' a
| EffInstall k : tokens w' = tokens (publish k w) → cur w' = cur (publish k w) → p = Installing k →
    p' = Unlocking (Ok (accessToken k)) → mint a = None → effect w w' p p' a
| EffDefer l k next : tokens w' = tokens (publish (MkToken (accessToken k) (expiresAt k) next) w) →
    cur w' = cur (publish (MkToken (accessToken k) (expiresAt k) next) w) → p = Deferring l → cur w = Some l →
    tokens w !! l = Some k → pending p' = None → mint a = None → effect w w' p p' a.

Lemma deferRefresh_effect w l d :
  deferRefresh w l d = w ∨
  ∃ k, cur w = Some l ∧ tokens w !! l = Some k ∧
    deferRefresh w l d = publish (MkToken (accessToken k) (expiresAt k) (Z.min (clock w + d) (expiresAt k))) w.
Proof.
  unfold deferRefresh. destruct (cur w) as [l'|]; [|by left]. case_decide as E; [|by left]. subst l'.
  destruct (tokens w !! l) as [k|]; [|by left]. case_match; [by left|right; by exists k].
Qed.

Lemma run_effect w i t inp w' : threads w !! i = Some t → run w i t inp = Some w' →
  ∃ p', stepped w w' i t p' ∧ effect w w' (at_ t) p' (Run i inp).
Proof.
  intros Ht Hr. destruct (run_stepped _ _ _ _ _ Hr) as [p' Hst]. exists p'. split; [done|].
  pose proof (st_threads _ _ _ _ _ Hst) as Hts. destruct t as [s p]. unfold Lambda.run in Hr; simpl in *.
  assert (∀ q v, w' = goto i (MkThread s p) q v → threads v = threads w → p' = q) as Hq.
  { intros q v -> Hv. simpl in Hts. rewrite Hv in Hts.
    apply (f_equal (.!! i)) in Hts. rewrite !lookup_insert_eq in Hts. by injection Hts. }
  destruct p, inp; simpl in *; try done; repeat case_match; simplify_eq;
    (erewrite (Hq _ _ eq_refl); [|done || apply deferRefresh_threads]); try (by apply EffKeep).
  - eapply EffMint; simpl; rewrite ?(exchange_key _ _ _ 0 (clock w)), ?H; done.
  - apply EffKeep; simpl; rewrite ?(exchange_key _ _ _ 0 (clock w)), ?H; done.
  - by eapply EffMinted.
  - destruct (deferRefresh_effect w seen failedRefreshBackoff) as [E|(k & Hk & Hl & E)].
    + apply EffKeep; simpl; rewrite ?E; done.
    + eapply EffDefer; simpl; rewrite ?E; done.
  - by eapply EffInstall.
Qed.

Lemma publish_lookup k w l k' : tokens w !! l = Some k' → tokens (publish k w) !! l = Some k'.
Proof. intros H. destruct (publish_ext k w) as [_ Hs]. by apply (lookup_weaken _ _ _ _ H). Qed.

Lemma publish_inv k w l k' : tokens (publish k w) !! l = Some k' → k' = k ∨ tokens w !! l = Some k'.
Proof. unfold publish; simpl. intros [[_ <-]|[_ ?]]%lookup_insert_Some; [by left|by right]. Qed.

Lemma publish_cur k w : ∃ l, cur (publish k w) = Some l ∧ tokens (publish k w) !! l = Some k.
Proof. unfold publish; simpl. eexists. split; [done|apply lookup_insert_eq]. Qed.

Lemma pending_critical p key : pending p = Some key → critical p = true.
Proof. by destruct p. Qed.

Lemma critical_unique w i j t u : mutex_ok w → threads w !! i = Some t → threads w !! j = Some u →
  critical (at_ t) = true → critical (at_ u) = true → i = j.
Proof.
  intros Hm Hi Hj Hci Hcj.
  assert (holder w = Some i) by (apply Hm; eauto). assert (holder w = Some j) by (apply Hm; eauto). congruence.
Qed.

Lemma mints_app tr1 tr2 : mints (tr1 ++ tr2) = mints tr1 ++ mints tr2.
Proof. apply omap_app. Qed.

Lemma elem_of_mints_snoc key tr a : key ∈ mints (tr ++ [a]) ↔ key ∈ mints tr ∨ mint a = Some key.
Proof.
  rewrite mints_app, elem_of_app. unfold mints at 2. simpl. destruct (mint a) as [key'|]; simpl.
  - rewrite list_elem_of_singleton. split; (intros [?|E]; [by left|right; congruence]).
  - split; (intros [?|?]; [by left|set_solver]).
Qed.

Record issued (tr : list action) (w : world) : Prop := {
  is_tokens : ∀ l k, tokens w !! l = Some k → accessToken k ∈ mints tr;
  is_pending : ∀ i t key, threads w !! i = Some t → pending (at_ t) = Some key →
    key ∈ mints tr ∧ ∀ l k, tokens w !! l = Some k → accessToken k ≠ key
}.

(** A step that publishes a key leaves no other key pending. *)
Lemma issued_run tr w i inp w' : inv w → issued tr w → NoDup (mints (tr ++ [Run i inp])) →
  act w (Run i inp) = Some w' → issued (tr ++ [Run i inp]) w'.
Proof.
  intros [_ Hm] [H1 H2] Hnd Ha. simpl in Ha. destruct (threads w !! i) as [t|] eqn:Ht; simpl in Ha; [|done].
  destruct (run_effect _ _ _ _ _ Ht Ha) as (p' & [Hts _ _ _ _ _] & He).
  assert (∀ key, key ∈ mints tr → key ∈ mints (tr ++ [Run i inp])) as Hin by (intros; apply elem_of_mints_snoc; by left).
  assert (∀ k l0 k0, critical (at_ t) = true → pending p' = None → tokens w' = tokens (publish k w) →
    tokens w !! l0 = Some k0 ∨ (k0 = k ∧ at_ t = Installing k) → accessToken k = accessToken k0 →
    issued (tr ++ [Run i inp]) w') as Hpub.
  { intros k l0 k0 Hc Hp Htk Hk0 Hak. assert (accessToken k ∈ mints tr) as Hkin.
    { rewrite Hak. destruct Hk0 as [Hk0|[-> E]]; [by eapply H1|]. apply (H2 i t); [done|by rewrite E]. }
    split.
    - rewrite Htk. intros l k' [->|Hk']%publish_inv; [auto|by eapply Hin, H1].
    - rewrite Hts. intros j u key [[_ <-]|[Hne Hu]]%lookup_insert_Some Hpu; [by simpl in Hpu; rewrite Hp in Hpu|].
      destruct Hne. apply pending_critical in Hpu. by eapply critical_unique. }
  destruct He as [Htk _ Hp Hmi|key Htk _ Hmi Hp Hp0 Hc|key Htk _ Hp Hp' Hmi|k Htk _ Hp Hp' Hmi|l k next Htk _ Hp Hl Hk Hp' Hmi].
  - split; rewrite Htk; [by intros; eapply Hin, H1|]. rewrite Hts.
    intros j u key [[_ <-]|[Hne Hu]]%lookup_insert_Some Hpu; [by simpl in Hpu; rewrite Hp in Hpu|].
    destruct (H2 j u key) as [? ?]; eauto.
  - assert (key ∉ mints tr) as Hnew.
    { rewrite mints_app in Hnd. apply NoDup_app in Hnd as (_ & Hd & _). intros Hk. apply (Hd _ Hk).
      apply (elem_of_mints_snoc key [] (Run i inp)). by right. }
    split; rewrite Htk; [by intros; eapply Hin, H1|]. rewrite Hts.
    intros j u key' [[_ <-]|[Hne Hu]]%lookup_insert_Some Hpu.
    + simpl in Hpu. rewrite Hp in Hpu. simplify_eq. split; [apply elem_of_mints_snoc; by right|].
      intros l k Hk <-. by eapply Hnew, H1.
    + destruct Hne. apply pending_critical in Hpu. by eapply critical_unique.
  - split; rewrite Htk; [by intros; eapply Hin, H1|]. rewrite Hts.
    intros j u key' [[<- <-]|[Hne Hu]]%lookup_insert_Some Hpu.
    + simpl in Hpu. rewrite Hp' in Hpu. simplify_eq. destruct (H2 i t key') as [? ?]; eauto.
    + destruct (H2 j u key') as [? ?]; eauto.
  - apply (Hpub k 0%nat k); [by rewrite Hp|by rewrite Hp'|done|by right|done].
  - eapply (Hpub _ l k); [by rewrite Hp|done|done|by left|done].
Qed.

Lemma issued_exec now tr w : exec (newCredential now) tr = Some w → NoDup (mints tr) → issued tr w.
Proof.
  revert tr w. apply (exec_ind (λ tr w, NoDup (mints tr) → issued tr w)); [intros _; by split|].
  intros tr w a w' He IH Ha Hnd.
  assert (issued tr w) as Hi by (apply IH; rewrite mints_app in Hnd; by apply NoDup_app in Hnd as (? & _)).
  destruct a as [d|j|j inp|key]; [| |by eapply issued_run; [eapply reachable_inv| | |]|].
  all: assert (∀ a k, k ∈ mints tr → k ∈ mints (tr ++ [a])) as Hin by (intros; apply elem_of_mints_snoc; by left).
  - simpl in Ha. destruct (d <? 0); simplify_eq. destruct Hi as [H1 H2]. split; simpl; [eauto|].
    intros i t k Ht Hp. destruct (H2 i t k); eauto.
  - simpl in Ha. destruct (threads w !! j); simplify_eq. destruct Hi as [H1 H2]. split; simpl; [eauto|].
    intros i t k [[_ <-]|[_ Ht]]%lookup_insert_Some Hp; [done|]. destruct (H2 i t k); eauto.
  - simpl in Ha. simplify_eq. destruct Hi as [H1 H2].
    assert (tokens (invalidate w key) = tokens w) as Htk by (unfold invalidate; by repeat case_match).
    split; rewrite ?Htk, ?invalidate_threads; [eauto|]. intros i t k Ht Hp. destruct (H2 i t k); eauto.
Qed.

(** [l] holds a key other than [key]. *)
Definition other (w : world) (key : string) (l : nat) : Prop :=
  ∃ k, tokens w !! l = Some k ∧ accessToken k ≠ key.

Definition clean (w : world) (key : string) (p : pc) : Prop :=
  match p with
  | Tested (Some l) | Retested (Some l) | Exchanging (Some l) | Failed (Some l) _ | Deferring l => other w key l
  | Unlocking (Ok key') | Returned (Ok key') => key' ≠ key
  | _ => True
  end.

(** The key is gone: it is not cached, nobody is about to cache it, and no
    call that began later can see it.  [old]: the earlier calls. *)
Definition gone (old : gset nat) (key : string) (w : world) : Prop :=
  (∀ l, cur w = Some l → other w key l) ∧
  ∀ i t, threads w !! i = Some t → pending (at_ t) ≠ Some key ∧ (i ∉ old → clean w key (at_ t)).

Lemma other_mono w w' key l : ext w w' → other w key l → other w' key l.
Proof. intros [_ Hs] (k & Hk & Hne). exists k. split; [by apply (lookup_weaken _ _ _ _ Hk)|done]. Qed.

Lemma clean_mono w w' key p : ext w w' → clean w key p → clean w' key p.
Proof.
  intros He. destruct p as [|[]| | |[]|[]| |[]| | |[]|[]]; simpl; eauto using other_mono.
Qed.

Lemma other_lookup w key l k : other w key l → tokens w !! l = Some k → accessToken k ≠ key.
Proof. intros (k' & Hk' & Hne) Hk. congruence. Qed.

Lemma run_clean w i t inp w' p' key : (∀ l, cur w = Some l → other w key l) → pending (at_ t) ≠ Some key →
  clean w key (at_ t) → run w i t inp = Some w' → threads w' !! i = Some p' → clean w' key (at_ p').
Proof.
  intros Hcur Hp Hc Hr Ht. destruct (run_stepped _ _ _ _ _ Hr) as [p1 Hst].
  apply (clean_mono w); [apply Hst|]. rewrite (st_threads _ _ _ _ _ Hst), lookup_insert_eq in Ht.
  injection Ht as <-. simpl. pose proof (st_threads _ _ _ _ _ Hst) as Hts.
  destruct t as [s p]. unfold Lambda.run in Hr; simpl in *.
  assert (∀ q v, w' = goto i (MkThread s p) q v → threads v = threads w → p1 = q) as Hq.
  { intros q v -> Hv. simpl in Hts. rewrite Hv in Hts.
    apply (f_equal (.!! i)) in Hts. rewrite !lookup_insert_eq in Hts. by injection Hts. }
  assert (∀ due seen k, usable due w seen = Some k → match seen with Some l => other w key l | None => True end →
    accessToken k ≠ key) as Hu.
  { intros due seen k (l & -> & Hk & _)%usable_Some Ho. by apply (other_lookup _ _ _ _ Ho). }
  destruct p, inp; simpl in *; try done; repeat case_match; simplify_eq;
    (erewrite (Hq _ _ eq_refl); [|done || apply deferRefresh_threads]); simpl; eauto; try congruence.
  - destruct (cur w); eauto.
  - destruct (cur w); eauto.
  - by apply (other_lookup _ _ _ _ Hc).
Qed.

Lemma gone_act old key w a w' : gone old key w → mint a ≠ Some key → act w a = Some w' → gone old key w'.
Proof.
  intros [Hcur Hts] Hmint Ha. destruct a as [d|j|j inp|key']; simpl in Ha.
  - destruct (d <? 0); simplify_eq. by split.
  - destruct (threads w !! j); simplify_eq. split; [done|].
    simpl. intros i t [[_ <-]|[_ Ht]]%lookup_insert_Some; [done|by apply (Hts i)].
  - destruct (threads w !! j) as [t|] eqn:Ht; simpl in Ha; [|done].
    destruct (run_effect _ _ _ _ _ Ht Ha) as (p' & Hst & He). destruct (Hts j t Ht) as [Hp Hc].
    assert (ext w w') as Hext by apply Hst. split.
    + destruct He as [? Hw _ _|? ? Hw _ _ _ _|? ? Hw _ _ _|k Htk Hw E _ _|l k next Htk Hw _ Hl Hk _ _];
        try (rewrite Hw; intros l Hl; by apply (other_mono w), Hcur).
      * rewrite Hw. destruct (publish_cur k w) as (l & -> & Hl). intros ? [= <-]. exists k. rewrite Htk. split; [done|].
        intros <-. by rewrite E in Hp.
      * rewrite Hw. destruct (publish_cur (MkToken (accessToken k) (expiresAt k) next) w) as (l' & -> & Hl').
        intros ? [= <-]. eexists. rewrite Htk. split; [done|]. simpl. apply (other_lookup w key l); auto.
    + intros i u Hu. split.
      * rewrite (st_threads _ _ _ _ _ Hst) in Hu. apply lookup_insert_Some in Hu as [[_ <-]|[_ Hu]]; [|by apply (Hts i)].
        simpl. destruct He; simplify_eq/=; congruence.
      * intros Hi. destruct (decide (j = i)) as [->|Hne].
        -- apply (run_clean w i t inp w' u key); auto.
        -- rewrite (st_threads _ _ _ _ _ Hst), lookup_insert_ne in Hu by done.
           apply (clean_mono w); [done|]. by apply (Hts i).
  - simplify_eq. split.
    + unfold invalidate. repeat case_match; simpl; try done; try apply Hcur.
    + rewrite invalidate_threads. intros i t Ht. destruct (Hts i t Ht) as [? Hc]. split; [done|]. intros Hi.
      apply (clean_mono w); [|auto]. unfold invalidate. by repeat case_match.
Qed.

Lemma gone_exec old key w tr w' : gone old key w → key ∉ mints tr → exec w tr = Some w' → gone old key w'.
Proof.
  intros Hg Hm He. revert tr w' He Hm. apply (exec_ind (λ tr w', key ∉ mints tr → gone old key w')); [done|].
  intros tr w1 a w2 _ IH Ha Hn. rewrite elem_of_mints_snoc in Hn.
  apply (gone_act _ _ w1 a); [apply IH|..]; tauto.
Qed.

(** A call of [InvalidateIfCurrent] with a key that a client got from [Token]
    makes it disappear. *)
Lemma invalidate_gone now tr w j t key : exec (newCredential now) tr = Some w → NoDup (mints tr) →
  threads w !! j = Some t → at_ t = Returned (Ok key) → gone (dom (threads w)) key (invalidate w key) ∧ key ∈ mints tr.
Proof.
  intros He Hnd Ht Hr. destruct (issued_exec _ _ _ He Hnd) as [H1 H2]. destruct (reachable_inv _ _ _ He) as [H _].
  destruct (ok_threads _ H _ _ Ht) as [_ Hp]. rewrite Hr in Hp. destruct Hp as (l & k & Hk & <- & _).
  split; [|by eapply H1]. split.
  - intros l' Hl'. unfold invalidate in *. destruct (cur w) as [c|] eqn:Ec; simpl in *; [|by rewrite Ec in Hl'].
    destruct (ok_cur _ H c Ec) as [kc Hkc]. rewrite Hkc in *. case_decide; [done|]. simplify_eq. by exists kc.
  - rewrite invalidate_threads. intros i u Hu. split.
    + intros Hpu. destruct (H2 i u _ Hu Hpu) as [_ Hne]. by apply (Hne l k).
    + intros Hi. destruct Hi. apply elem_of_dom. by exists u.
Qed.

(** ** Failed exchanges *)

(** Until [next] the cached key is not due, and whoever holds the lock uses it. *)
Definition rested (next : Z) (w : world) : Prop :=
  (∃ l k, cur w = Some l ∧ tokens w !! l = Some k ∧ next ≤ refreshAt k) ∧
  ∀ i t, threads w !! i = Some t →
    match at_ t with
    | Retested seen => ∃ l k, seen = Some l ∧ tokens w !! l = Some k ∧ next ≤ refreshAt k
    | Exchanging _ | Minting _ _ | Failed _ _ | Deferring _ | Installing _ => False
    | _ => True
    end.

Definition isInvalidate (a : action) : bool := match a with InvalidateIfCurrent _ => true | _ => false end.

Lemma rested_act next w a w' : rested next w → isInvalidate a = false → clock w < next → act w a = Some w' →
  rested next w'.
Proof.
  intros [Hcur Hts] Hi Hc Ha. destruct a as [d|j|j inp|key]; simpl in Ha; [| | |done].
  - destruct (d <? 0); simplify_eq. by split.
  - destruct (threads w !! j); simplify_eq. split; [done|].
    simpl. intros i t [[_ <-]|[_ Ht]]%lookup_insert_Some; [done|by apply (Hts i)].
  - destruct (threads w !! j) as [t|] eqn:Ht; simpl in Ha; [|done]. pose proof (Hts j t Ht) as Hp.
    assert (∀ p v, tokens v = tokens w → cur v = cur w → threads v = threads w →
      match p with
      | Retested seen => ∃ l k, seen = Some l ∧ tokens w !! l = Some k ∧ next ≤ refreshAt k
      | Exchanging _ | Minting _ _ | Failed _ _ | Deferring _ | Installing _ => False
      | _ => True
      end → rested next (goto j t p v)) as Hgo.
    { intros p v H1 H2 H3 Hpp. split; simpl; [by rewrite H1, H2|]. rewrite H3.
      intros i u [[_ <-]|[_ Hu]]%lookup_insert_Some; rewrite H1; [done|by apply (Hts i)]. }
    unfold Lambda.run in Ha. destruct (at_ t) eqn:Ep, inp; try done; repeat case_match; simplify_eq; try by apply Hgo.
    destruct Hp as (l & k & -> & Hk & Hn). assert (usable refreshAt w (Some l) = Some k) as E; [|congruence].
    apply usable_Some. exists l. split_and!; [done..|lia].
Qed.

Lemma act_clock w a w' : act w a = Some w' → clock w ≤ clock w'.
Proof.
  destruct a as [d|j|j inp|key]; simpl.
  - destruct (Z.ltb_spec d 0); [done|]. intros [= <-]. simpl. lia.
  - destruct (threads w !! j); [done|]. by intros [= <-].
  - destruct (threads w !! j) as [t|]; simpl; [|done]. intros [p' []]%run_stepped. lia.
  - intros [= <-]. unfold invalidate. by repeat case_match.
Qed.

Lemma rested_exec next w tr w' : rested next w → Forall (λ a, isInvalidate a = false) tr →
  exec w tr = Some w' → clock w' < next → rested next w'.
Proof.
  intros Hr Hf He. revert tr w' He Hf.
  apply (exec_ind (λ tr w', Forall (λ a, isInvalidate a = false) tr → clock w' < next → rested next w')); [done|].
  intros tr w1 a w2 _ IH Ha [Hf Hi]%Forall_app Hc. pose proof (act_clock _ _ _ Ha).
  apply (rested_act _ w1 a); [apply IH; [done|lia]|by inversion Hi|lia|done].
Qed.

(** The state after [deferRefresh] has pushed the refresh of the cached key
    out. *)
Lemma deferred_rested w i t l k w' : inv w → threads w !! i = Some t → at_ t = Deferring l → cur w = Some l →
  tokens w !! l = Some k → act w (Run i NoInput) = Some w' →
  rested (Z.min (clock w + failedRefreshBackoff) (expiresAt k)) w'.
Proof.
  intros [H Hm] Ht Hp Hc Hk Ha. simpl in Ha. rewrite Ht in Ha. simpl in Ha. unfold Lambda.run in Ha. rewrite Hp, Hk in Ha.
  injection Ha as <-. split.
  - unfold deferRefresh. simpl. rewrite Hc, Hk. rewrite decide_True by done. destruct (Z.leb_spec (Z.min (clock w + failedRefreshBackoff) (expiresAt k)) (refreshAt k)).
    + exists l, k. done.
    + destruct (publish_cur (MkToken (accessToken k) (expiresAt k) (Z.min (clock w + failedRefreshBackoff) (expiresAt k))) w) as (l' & -> & Hl').
      eexists _, _. split_and!; [done..|]. simpl. lia.
  - destruct (deferRefresh_threads w l failedRefreshBackoff) as (Hts & _). simpl. rewrite Hts.
    intros j u [[_ <-]|[Hne Hu]]%lookup_insert_Some; [done|].
    assert (critical (at_ u) = false) as Hcu.
    { destruct (critical (at_ u)) eqn:E; [|done]. destruct Hne.
      eapply critical_unique; [exact Hm|exact Ht|exact Hu|by rewrite Hp|done]. }
    by destruct (at_ u).
Qed.

(** ** The theorems *)

(** C18: [Token] hands out no dead key.  However calls, refreshes and
    invalidations interleave, the key a call returns is a published one, and at
    some instant between the start of the call and its return the key was alive;
    the exception is a key that this very call was issued when it was already
    past its expiry. *)
Theorem token_lives now tr w i t key :
  exec (newCredential now) tr = Some w → threads w !! i = Some t → at_ t = Returned (Ok key) →
  ∃ l k, tokens w !! l = Some k ∧ accessToken k = key ∧ good (started t) (clock w) k.
Proof.
  intros [H _]%reachable_inv Ht Hr. destruct (ok_threads _ H _ _ Ht) as [_ Hp]. by rewrite Hr in Hp.
Qed.

(** C20: Refreshing is single-flight and no call is stuck: in every reachable
    state at most one call is in an exchange, no call takes more than nine
    steps, and from there every call can run to its return, whatever the
    others wait for. *)
Theorem single_flight_returns now tr w :
  exec (newCredential now) tr = Some w →
  (∀ i j t u a b, threads w !! i = Some t → threads w !! j = Some u →
     at_ t = Exchanging a → at_ u = Exchanging b → i = j) ∧
  ∀ i t, threads w !! i = Some t →
    (runs i tr ≤ 9)%nat ∧ ∃ tr' w', exec w tr' = Some w' ∧ returned w' i.
Proof.
  intros He. pose proof (reachable_inv _ _ _ He) as Hi. split.
  - intros i j t u a b Ht Hu Ea Eb. destruct Hi as [_ Hm].
    eapply critical_unique; [exact Hm|exact Ht|exact Hu|by rewrite Ea|by rewrite Eb].
  - intros i t Ht. split; [|by apply (finishes (rank (at_ t)) w i t)].
    pose proof (runs_rank _ _ _ i He) as Hr. rewrite Ht in Hr. destruct (at_ t); simpl in Hr; lia.
Qed.

(** C19: A rejected key is not used again.  When a client that got a key from
    [Token] invalidates it, no call that begins afterwards returns that key,
    although refreshes, also failed ones, may be under way; the server is
    taken not to issue a key twice. *)
Theorem rejected_key_gone now tr1 w1 j u key tr2 w2 i t :
  exec (newCredential now) tr1 = Some w1 → threads w1 !! j = Some u → at_ u = Returned (Ok key) →
  exec w1 (InvalidateIfCurrent key :: tr2) = Some w2 → NoDup (mints (tr1 ++ tr2)) →
  threads w1 !! i = None → threads w2 !! i = Some t → at_ t ≠ Returned (Ok key).
Proof.
  intros He1 Hu Hr (w & [= <-] & He2)%exec_cons Hnd Hi Ht. rewrite mints_app in Hnd.
  apply NoDup_app in Hnd as (Hnd & Hdis & _).
  destruct (invalidate_gone _ _ _ _ _ _ He1 Hnd Hu Hr) as [Hg Hin].
  destruct (gone_exec _ _ _ _ _ Hg (Hdis _ Hin) He2) as [_ Hts]. destruct (Hts i t Ht) as [_ Hc].
  specialize (Hc (proj2 (not_elem_of_dom _ _) Hi)). intros E. by rewrite E in Hc.
Qed.

(** A failed exchange is shared.  When a refresh has failed and the old key
    is still cached and alive, no call is in an exchange for the next thirty
    seconds, or until the key dies, unless the key is invalidated. *)
Theorem failed_exchange_shared now tr1 w1 i t l k tr2 w2 :
  exec (newCredential now) tr1 = Some w1 → threads w1 !! i = Some t → at_ t = Deferring l →
  cur w1 = Some l → tokens w1 !! l = Some k →
  exec w1 (Run i NoInput :: tr2) = Some w2 → Forall (λ a, isInvalidate a = false) tr2 →
  clock w2 < Z.min (clock w1 + failedRefreshBackoff) (expiresAt k) →
  ∀ j u a, threads w2 !! j = Some u → at_ u ≠ Exchanging a.
Proof.
  intros He1%reachable_inv Ht Hp Hc Hk (w & Ha & He2)%exec_cons Hf Hclk j u a Hu E.
  pose proof (deferred_rested _ _ _ _ _ _ He1 Ht Hp Hc Hk Ha) as Hr.
  destruct (rested_exec _ _ _ _ Hr Hf He2 Hclk) as [_ Hts]. specialize (Hts j u Hu). by rewrite E in Hts.
Qed.

End Token.
(** ** Witnesses *)

Definition w_jitter (u window : Z) : Z := Z.quot window 5.

Lemma w_jitter_bound u window : Z.min 0 window ≤ w_jitter u window ≤ Z.max 0 window.
Proof. unfold w_jitter. pose proof (Z.quot_rem' window 5). pose proof (Z.rem_bound_abs window 5). lia. Qed.

(** A call that mints a key, alone. *)
Definition w_mint (i : nat) (key : string) (expires : Z) : list action :=
  Call i :: replicate 5 (Run i NoInput) ++
  [Run i (Exchanged (Ok "jwt") (Ok "body") (Ok (MkResponse key expires ""))); Run i (Drawn 0); Run i NoInput; Run i NoInput].
Definition w_hour : Z := 3600.
Definition w_exec (w : world) (tr : list action) : world :=
  default w (exec (λ _, None) defaultRefreshWin w_jitter w tr).

(** Call 0 mints [k1]; call 1 finds it due, and its exchange fails. *)
Definition w_failing : list action :=
  w_mint 0 "k1" w_hour ++ Tick (3400 * second) :: Call 1 :: replicate 5 (Run 1 NoInput) ++
  [Run 1 (Exchanged (Ok "jwt") (Err (NewError 503 "down")) (Err "")); Run 1 NoInput].
Definition w_world : world := w_exec (newCredential 0) w_failing.
(** Call 2 comes ten seconds after the failure. *)
Definition w_after : list action :=
  Run 1 NoInput :: Tick (10 * second) :: Run 1 NoInput :: Call 2 :: replicate 2 (Run 2 NoInput).

(** The actions can all be taken. *)
Definition w_runs (w : world) (tr : list action) : bool :=
  match exec (λ _, None) defaultRefreshWin w_jitter w tr with Some _ => true | None => false end.

Lemma w_run w tr : w_runs w tr = true → exec (λ _, None) defaultRefreshWin w_jitter w tr = Some (w_exec w tr).
Proof. unfold w_runs, w_exec. by destruct (exec _ _ _ w tr). Qed.

Lemma token_lives_witness :
  let w := w_exec (newCredential 0) (w_failing ++ w_after) in
  ∃ l k, tokens w !! l = Some k ∧ accessToken k = "k1" ∧
    good defaultRefreshWin w_jitter (3410 * second) (clock w) k.
Proof.
  exact (token_lives (λ _, None) defaultRefreshWin w_jitter w_jitter_bound ltac:(done) 0 (w_failing ++ w_after)
    (w_exec (newCredential 0) (w_failing ++ w_after)) 2 (MkThread (3410 * second) (Returned (Ok "k1"))) "k1"
    (w_run _ _ ltac:(vm_eq)) ltac:(vm_eq) eq_refl).
Defined.

(** Call 1 holds the lock and has failed; it still returns. *)
Lemma single_flight_returns_witness :
  (runs 1 w_failing ≤ 9)%nat ∧
  ∃ tr' w', exec (λ _, None) defaultRefreshWin w_jitter w_world tr' = Some w' ∧ returned w' 1.
Proof.
  exact (proj2 (single_flight_returns (λ _, None) defaultRefreshWin w_jitter w_jitter_bound ltac:(done) 0 w_failing w_world
    (w_run _ _ ltac:(vm_eq))) 1%nat (MkThread (3400 * second) (Deferring 0)) ltac:(vm_eq)).
Defined.

(** Call 0 mints [k1], its client invalidates it, and call 1 mints [k2]. *)
Definition w_first : world := w_exec (newCredential 0) (w_mint 0 "k1" w_hour).
Definition w_second : world := w_exec w_first (InvalidateIfCurrent "k1" :: w_mint 1 "k2" w_hour).

Lemma rejected_key_gone_witness : Returned (Ok "k2") ≠ Returned (Ok "k1").
Proof.
  exact (rejected_key_gone (λ _, None) defaultRefreshWin w_jitter w_jitter_bound ltac:(done) 0
    (w_mint 0 "k1" w_hour) w_first 0 (MkThread 0 (Returned (Ok "k1"))) "k1" (w_mint 1 "k2" w_hour) w_second 1
    (MkThread 0 (Returned (Ok "k2"))) (w_run _ _ ltac:(vm_eq)) ltac:(vm_eq) eq_refl (w_run _ _ ltac:(vm_eq))
    ltac:(apply (bool_decide_unpack _); vm_compute; exact I) ltac:(vm_eq) ltac:(vm_eq)).
Defined.

(** Ten seconds after the failure the old key is served without an exchange. *)
Example ex_shared : threads (w_exec w_world w_after) !! 2%nat = Some (MkThread (3410 * second) (Returned (Ok "k1"))).
Proof. vm_eq. Qed.

End LambdaToken.
