(* ===== verification/Accelerator.v ===== *)
(** * Accelerator discovery: [pkg/accelerator]

    Accelerator domains come from a source of their own: the output of
    [nvidia-smi] on the nodes, an annotation or a label of the Kubernetes
    nodes, or nothing.  The configuration selects the source; a discoverer
    assigns domains to instances; the assignments become a domain map. *)

From S2P Require Import Prelude GoStrings Domain Topology K8sEngine.

Module Accelerator.
Import Domain Topo K8sEngine.

(** ** Configuration *)

Definition SourceNvidiaSMI : string := "nvidia-smi".
Definition SourceKubernetesLabel : string := "kubernetes-label".
Definition SourceNone : string := "none".
Definition DefaultGPUOperatorNamespace : string := "gpu-operator".
Definition DefaultDevicePluginDaemonSet : string := "nvidia-device-plugin-daemonset".
Definition KeyGpuClusterID : string := "topograph.run/cluster-id".

(** The nested sections of the configuration have one and two fields. *)
Record Config := MkConfig {
  Source : string;
  LabelKey : string;
  GPUOperatorNamespace : string;
  DevicePluginDaemonSet : string
}.

Inductive acceleratorErr :=
| ErrNotObject
| ErrDecode (msg : string)
| ErrNoSource
| ErrUnsupported (source : string)
| ErrNoLabelKey
| ErrNeedsClient
| ErrNeedsRESTConfig
| ErrNotCommand (source : string)
| ErrNotSMI (source : string)
| ErrNeedsRunner.

Definition SetDefaults (c : Config) : Config :=
  let ns := trim_space (GPUOperatorNamespace c) in
  let ds := trim_space (DevicePluginDaemonSet c) in
  MkConfig (to_lower (trim_space (Source c))) (trim_space (LabelKey c))
    (if decide (ns = "") then DefaultGPUOperatorNamespace else ns)
    (if decide (ds = "") then DefaultDevicePluginDaemonSet else ds).

Definition ValidateSource (source : string) : result acceleratorErr () :=
  if decide (source = "") then Err ErrNoSource
  else if decide (source = SourceNvidiaSMI ∨ source = SourceNone ∨ source = SourceKubernetesLabel)
  then Ok () else Err (ErrUnsupported source).

Definition Validate (c : Config) : result acceleratorErr () :=
  _ ← ValidateSource (Source c);
  if decide (Source c = SourceKubernetesLabel ∧ trim_space (LabelKey c) = "") then Err ErrNoLabelKey
  else Ok ().

(** A JSON value: nil, an object, or something else. *)
Inductive anyValue (M : Type) := VNil | VMap (m : M) | VOther.
Arguments VNil {M}.
Arguments VMap {M} m.
Arguments VOther {M}.

Record Section_ (M : Type) := MkSection { s_value : anyValue M; present : bool }.
Arguments MkSection {M} s_value present.
Arguments s_value {M} s.
Arguments present {M} s.

Section Parse.
(** Objects with their number of fields; the decoding of an object into a zero
    [Config] by mapstructure; the decoding of JSON. *)
Context {M : Type} (Len : M → Z) (Decode : M → result string Config)
  (Unmarshal : string → result string (anyValue M)).

Definition SectionFromProviderParams (accelerator : option (anyValue M)) : Section_ M :=
  match accelerator with
  | Some v => MkSection v true
  | None => MkSection VNil false
  end.

Definition DecodeSection (encoded : string) : result acceleratorErr (Section_ M) :=
  if decide (trim_space encoded = "") then Ok (MkSection VNil false)
  else match Unmarshal encoded with
       | Err msg => Err (ErrDecode msg)
       | Ok value => Ok (MkSection value true)
       end.

Definition noneConfig : Config := MkConfig SourceNone "" "" "".

Definition ParseConfig (section : Section_ M) : result acceleratorErr Config :=
  if negb (present section) then Ok (SetDefaults noneConfig)
  else match s_value section with
       | VNil | VOther => Err ErrNotObject
       | VMap m =>
           config ← (if decide (Len m ≠ 0%Z) then map_err ErrDecode (Decode m) else Ok noneConfig);
           let config := SetDefaults config in
           _ ← Validate config;
           Ok config
       end.
End Parse.

(** ** Targets and assignments *)

Record Target := MkTarget {
  tg_InstanceID : string;
  tg_HostName : string;
  tg_Labels : gmap string string;
  tg_Annotations : gmap string string
}.

Record Assignment := MkAssignment { DomainID : string; SubDomainID : string }.
Abbreviation Assignments := (gmap string Assignment).

Definition TargetsFromComputeInstances `{RangeOrder} (instances : list ComputeInstances) : list Target :=
  foldl (λ targets ci, foldl (λ targets kv, targets ++ [MkTarget kv.1 kv.2 ∅ ∅]) targets
                         (range (ci_Instances ci))) [] instances.

Definition DomainMapFromAssignments (assignments : Assignments) (targets : list Target) : DomainMap :=
  foldl (λ m target, match assignments !! tg_InstanceID target with
                     | Some a => AddHostInfo m (Some (MkHostInfo (DomainID a) (tg_InstanceID target)
                                                        (tg_HostName target) (SubDomainID a)))
                     | None => m
                     end) NewDomainMap targets.

(** ** Output of nvidia-smi *)

Inductive smiErr :=
| ErrFields (line : string)
| ErrNoUUID | ErrUUIDNotAvailable
| ErrNoClique | ErrCliqueNotAvailable
| ErrNoPartitionID
| ErrAmbiguous (ids : list string)
| ErrRun (msg : string)
| ErrInvalidOutput (host : string) (e : smiErr).

Definition parseNVLPartitionID (line : string) : result smiErr string :=
  match split "," line with
  | [f0; f1] =>
      let clusterUUID := trim_space f0 in
      if decide (clusterUUID = "") then Err ErrNoUUID
      else if decide (clusterUUID = "N/A") then Err ErrUUIDNotAvailable
      else let cliqueID := trim_space f1 in
           if decide (cliqueID = "") then Err ErrNoClique
           else if decide (cliqueID = "N/A") then Err ErrCliqueNotAvailable
           else Ok (clusterUUID +:+ "." +:+ cliqueID)
  | _ => Err (ErrFields line)
  end.

(** [strings.Lines] yields the lines with their ends, which are trimmed. *)
Definition addPartition (partitions : gset string) (line : string) : result smiErr (gset string) :=
  let line := trim_space line in
  if decide (line = "") then Ok partitions
  else id ← parseNVLPartitionID line; Ok ({[id]} ∪ partitions).

Definition ParseNvidiaSMIOutput (output : string) : result smiErr string :=
  partitions ← foldM addPartition ∅ (split nl output);
  match sort_strings (elements partitions) with
  | [] => Err ErrNoPartitionID
  | [id] => Ok id
  | ids => Err (ErrAmbiguous ids)
  end.

(** [nvidiaSMIDiscoverer]: the runner returns the output of the command per
    host. *)
Definition discoverTarget (outputs : gmap string string) (assignments : Assignments) (target : Target) :
    result smiErr Assignments :=
  let output := trim_space (default "" (outputs !! tg_HostName target)) in
  if decide (output = "") then Ok assignments
  else match ParseNvidiaSMIOutput output with
       | Err e => Err (ErrInvalidOutput (tg_HostName target) e)
       | Ok partitionID => Ok (<[tg_InstanceID target := MkAssignment partitionID ""]> assignments)
       end.

(** ** Discoverers *)

Inductive Discoverer :=
| nvidiaSMIDiscoverer (runner : list Target → result string (gmap string string))
| annotationDiscoverer (key : string)
| labelDiscoverer (key : string)
| noneDiscoverer.

Definition metadataDiscover (value : Target → string) (targets : list Target) : Assignments :=
  foldl (λ assignments target,
    let domainID := trim_space (value target) in
    if decide (domainID = "") then assignments
    else <[tg_InstanceID target := MkAssignment domainID ""]> assignments) ∅ targets.

Definition Discover (d : Discoverer) (targets : list Target) : result smiErr Assignments :=
  match d with
  | nvidiaSMIDiscoverer runner =>
      match runner targets with
      | Err msg => Err (ErrRun msg)
      | Ok outputs => foldM (discoverTarget outputs) ∅ targets
      end
  | annotationDiscoverer key => Ok (metadataDiscover (λ t, default "" (tg_Annotations t !! key)) targets)
  | labelDiscoverer key => Ok (metadataDiscover (λ t, default "" (tg_Labels t !! key)) targets)
  | noneDiscoverer => Ok ∅
  end.

Definition NewKubernetesDiscovererFromConfig (c : Config) : result acceleratorErr Discoverer :=
  _ ← Validate c;
  if decide (Source c = SourceNvidiaSMI) then Ok (annotationDiscoverer KeyGpuClusterID)
  else if decide (Source c = SourceKubernetesLabel) then Ok (labelDiscoverer (LabelKey c))
  else if decide (Source c = SourceNone) then Ok noneDiscoverer
  else Err (ErrUnsupported (Source c)).

(** A nil runner is [None]. *)
Definition NewNvidiaSMIDiscoverer (c : Config)
    (runner : option (list Target → result string (gmap string string))) : result acceleratorErr Discoverer :=
  let c := SetDefaults c in
  _ ← Validate c;
  if decide (Source c ≠ SourceNvidiaSMI) then Err (ErrNotSMI (Source c))
  else match runner with
       | None => Err ErrNeedsRunner
       | Some runner => Ok (nvidiaSMIDiscoverer runner)
       end.

Section New.
Context {M : Type} (Len : M → Z) (Decode : M → result string Config).

Definition NewKubernetesDiscoverer (section : Section_ M) : result acceleratorErr Discoverer :=
  config ← ParseConfig Len Decode section;
  NewKubernetesDiscovererFromConfig config.

Definition NewCommandDiscoverer (section : Section_ M)
    (runner : option (list Target → result string (gmap string string))) : result acceleratorErr Discoverer :=
  config ← ParseConfig Len Decode section;
  if decide (Source config = SourceNvidiaSMI) then NewNvidiaSMIDiscoverer config runner
  else if decide (Source config = SourceNone) then Ok noneDiscoverer
  else Err (ErrNotCommand (Source config)).

(** The client and its configuration, nil or not; the runner they make. *)
Definition NewKubernetesNodeDiscoverer (section : Section_ M) (client restConfig : bool)
    (runner : string → string → list Target → result string (gmap string string)) :
    result acceleratorErr Discoverer :=
  config ← ParseConfig Len Decode section;
  if decide (Source config = SourceNvidiaSMI) then
    if negb client then Err ErrNeedsClient
    else if negb restConfig then Err ErrNeedsRESTConfig
    else NewNvidiaSMIDiscoverer config (Some (runner (GPUOperatorNamespace config) (DevicePluginDaemonSet config)))
  else if decide (Source config = SourceKubernetesLabel ∨ Source config = SourceNone) then Ok noneDiscoverer
  else Err (ErrUnsupported (Source config)).
End New.

(** ** Kubernetes nodes *)

Definition BaseKubernetesNodeAnnotations (hostName : string) : gmap string string :=
  {[ KeyNodeInstance := hostName; KeyNodeRegion := "local" ]}.

Definition regionInstances (instances : list ComputeInstances) : gmap string (gmap string string) :=
  foldl (λ m ci, <[Region ci := ci_Instances ci]> m) ∅ instances.

Definition nodeTarget (instancesByRegion : gmap string (gmap string string)) (node : Node) : option Target :=
  let instanceID := trim_space (default "" (n_Annotations node !! KeyNodeInstance)) in
  let region := trim_space (default "" (n_Annotations node !! KeyNodeRegion)) in
  if decide (instanceID = "") then None
  else if decide (region = "") then None
  else match instancesByRegion !! region with
       | None => None
       | Some regional => match regional !! instanceID with
                          | None => None
                          | Some hostName => Some (MkTarget instanceID hostName (n_Labels node) (n_Annotations node))
                          end
       end.

Definition TargetsFromKubernetesNodes (nodes : list Node) (instances : list ComputeInstances) : list Target :=
  omap (nodeTarget (regionInstances instances)) nodes.

Definition DiscoverKubernetesDomains (discoverer : Discoverer) (nodes : list Node)
    (instances : list ComputeInstances) : result smiErr DomainMap :=
  let targets := TargetsFromKubernetesNodes nodes instances in
  assignments ← Discover discoverer targets;
  Ok (DomainMapFromAssignments assignments targets).

(** [kubernetesNvidiaSMIRunner]: the pods of the daemon set on a host and the
    output of the command in one of them. *)
Section Runner.
Context (pods : string → result string (list string)) (exec : string → result string string).

Definition runTarget (outputs : gmap string string) (target : Target) : result string (gmap string string) :=
  match pods (tg_HostName target) with
  | Err msg => Err msg
  | Ok [] => Ok outputs
  | Ok [pod] => output ← exec pod; Ok (<[tg_HostName target := output]> outputs)
  | Ok _ => Err "expected 1 pod"
  end.
Definition kubernetesRun (targets : list Target) : result string (gmap string string) :=
  foldM runTarget ∅ targets.
End Runner.

(** ** The configuration *)

Lemma trim_left_space s : trim_left s = "" ∨ ∃ c r, trim_left s = String c r ∧ is_space c = false.
Proof.
  induction s as [|c s IH]; simpl; [by left|]. destruct (is_space c) eqn:Hc; [done|]. right. eauto.
Qed.

Lemma trim_right_cons c s : is_space c = false → trim_right (String c s) = String c (trim_right s).
Proof. intros Hc. simpl. destruct (trim_right s); by rewrite ?Hc. Qed.

Lemma trim_left_nonspace c s : is_space c = false → trim_left (String c s) = String c s.
Proof. intros Hc. simpl. by rewrite Hc. Qed.

Lemma trim_right_idem s : trim_right (trim_right s) = trim_right s.
Proof.
  induction s as [|c s IH]; [done|]. simpl. destruct (trim_right s) as [|c' r] eqn:Hr.
  - destruct (is_space c) eqn:Hc; [done|]. simpl. by rewrite Hc.
  - change (trim_right (String c (String c' r)) = String c (String c' r)).
    cbn [trim_right] in *. by rewrite IH.
Qed.

Lemma trim_space_idem s : trim_space (trim_space s) = trim_space s.
Proof.
  unfold trim_space. destruct (trim_left_space s) as [->|(c & r & -> & Hc)]; [done|].
  by rewrite trim_right_cons, trim_left_nonspace, trim_right_cons, trim_right_idem.
Qed.

Lemma is_space_lower c : is_space (lower_chr c) = is_space c.
Proof. by destruct c as [[] [] [] [] [] [] [] []]. Qed.
Lemma lower_chr_idem c : lower_chr (lower_chr c) = lower_chr c.
Proof. by destruct c as [[] [] [] [] [] [] [] []]. Qed.
Lemma to_lower_idem s : to_lower (to_lower s) = to_lower s.
Proof. induction s as [|c s IH]; simpl; [done|]. by rewrite IH, lower_chr_idem. Qed.

Lemma trim_space_lower s : trim_space (to_lower s) = to_lower (trim_space s).
Proof.
  assert (∀ s, trim_left (to_lower s) = to_lower (trim_left s)) as Hl.
  { clear. induction s as [|c s IH]; simpl; [done|]. rewrite is_space_lower. by destruct (is_space c). }
  unfold trim_space. rewrite Hl. generalize (trim_left s). clear. induction s as [|c s IH]; simpl; [done|].
  rewrite IH. destruct (trim_right s); simpl; [|done]. rewrite is_space_lower. by destruct (is_space c).
Qed.

Lemma SetDefaults_idem c : SetDefaults (SetDefaults c) = SetDefaults c.
Proof.
  unfold SetDefaults. cbn [Source LabelKey GPUOperatorNamespace DevicePluginDaemonSet].
  rewrite trim_space_lower, to_lower_idem, !trim_space_idem. f_equal.
  - destruct (decide (trim_space (GPUOperatorNamespace c) = "")); [reflexivity|].
    by rewrite trim_space_idem, decide_False.
  - destruct (decide (trim_space (DevicePluginDaemonSet c) = "")); [reflexivity|].
    by rewrite trim_space_idem, decide_False.
Qed.

(** What a parsed configuration satisfies. *)
Definition configured (c : Config) : Prop :=
  SetDefaults c = c ∧ Validate c = Ok () ∧
  (Source c = SourceNvidiaSMI ∨ Source c = SourceKubernetesLabel ∧ LabelKey c ≠ "" ∨ Source c = SourceNone) ∧
  GPUOperatorNamespace c ≠ "" ∧ DevicePluginDaemonSet c ≠ "".

Lemma SetDefaults_names c :
  GPUOperatorNamespace (SetDefaults c) ≠ "" ∧ DevicePluginDaemonSet (SetDefaults c) ≠ "" ∧
  LabelKey (SetDefaults c) = trim_space (LabelKey (SetDefaults c)).
Proof. unfold SetDefaults. simpl. rewrite trim_space_idem. split_and!; [case_decide; done..|done]. Qed.

Lemma Validate_spec c :
  Validate c = Ok () →
  Source c = SourceNvidiaSMI ∨ Source c = SourceNone ∨ Source c = SourceKubernetesLabel ∧ trim_space (LabelKey c) ≠ "".
Proof.
  unfold Validate. intros ([] & Hs & Hl)%bind_Ok. unfold ValidateSource in Hs.
  destruct (decide (Source c = "")); [done|].
  destruct (decide (Source c = SourceNvidiaSMI ∨ Source c = SourceNone ∨ Source c = SourceKubernetesLabel));
    [|done].
  destruct (decide (Source c = SourceKubernetesLabel ∧ trim_space (LabelKey c) = "")) as [|Hno]; [done|]. tauto.
Qed.

(** Every configuration [ParseConfig] returns is well-formed: applying the
    defaults again changes nothing, the source is one of the three known ones,
    the names of the namespace and of the daemon set are not empty, and so is
    not the label key when the source is a label.  An omitted or empty section
    disables discovery.  The constructors of discoverers accept it: they fail
    only for a missing client or a source they do not support. *)
Theorem accelerator_config_wf {M} (Len : M → Z) (Decode : M → result string Config) (section : Section_ M) c :
  ParseConfig Len Decode section = Ok c →
  configured c ∧
  (present section = false ∨ (∃ m, s_value section = VMap m ∧ Len m = 0%Z) → Source c = SourceNone) ∧
  (∃ d, NewKubernetesDiscoverer Len Decode section = Ok d) ∧
  (∀ runner, is_ok (NewCommandDiscoverer Len Decode section (Some runner)) = bool_decide (Source c ≠ SourceKubernetesLabel)) ∧
  (∀ runner, ∃ d, NewKubernetesNodeDiscoverer Len Decode section true true runner = Ok d).
Proof.
  intros Hc.
  assert (∃ c0, c = SetDefaults c0 ∧ Validate c = Ok () ∧
    (present section = false ∨ (∃ m, s_value section = VMap m ∧ Len m = 0%Z) → c0 = noneConfig)) as (c0 & Heq & Hv & Hnone).
  { unfold ParseConfig in Hc. destruct (present section); simpl in Hc.
    - destruct (s_value section) as [|m|]; [done| |done].
      apply bind_Ok in Hc as (c0 & Hd & Hc). cbv zeta in Hc. apply bind_Ok in Hc as ([] & Hv & [= <-]).
      exists c0. split_and!; [done|done|]. intros [?|(m' & [= <-] & Hz)]; [done|].
      destruct (decide (Len m ≠ 0%Z)); [done|]. simpl in Hd. congruence.
    - injection Hc as <-. by exists noneConfig. }
  assert (configured c) as Hconf.
  { destruct (SetDefaults_names c0) as (Hn & Hs & Hk). rewrite <-Heq in Hn, Hs, Hk.
    split_and!; [by rewrite Heq, SetDefaults_idem|done| |done|done].
    apply Validate_spec in Hv as [?|[?|[? Hl]]]; [by auto..|]. rewrite <-Hk in Hl. auto. }
  split; [done|]. destruct Hconf as (Hdef & _ & Hsrc & _). split_and!.
  - intros Hn%Hnone. subst c0. by rewrite Heq.
  - unfold NewKubernetesDiscoverer. rewrite Hc. simpl. unfold NewKubernetesDiscovererFromConfig. rewrite Hv. simpl.
    repeat case_decide; eauto. naive_solver.
  - intros runner. unfold NewCommandDiscoverer. rewrite Hc. simpl. unfold NewNvidiaSMIDiscoverer.
    rewrite Hdef, Hv. simpl. destruct Hsrc as [->|[[-> _]| ->]]; reflexivity.
  - intros runner. unfold NewKubernetesNodeDiscoverer. rewrite Hc. simpl. unfold NewNvidiaSMIDiscoverer.
    rewrite Hdef, Hv. simpl. destruct Hsrc as [->|[[-> _]| ->]]; simpl; eexists; reflexivity.
Qed.

Lemma accelerator_config_wf_witness :
  let decode (m : string) : result string Config := Ok (MkConfig " Kubernetes-Label " " rack " "" "") in
  ∃ c, ParseConfig (λ m, Z.of_nat (String.length m)) decode (MkSection (VMap "x") true) = Ok c ∧ configured c ∧
    LabelKey c = "rack".
Proof.
  intros decode. eexists. split; [reflexivity|]. split; [|reflexivity].
  apply (accelerator_config_wf (λ m, Z.of_nat (String.length m)) decode (MkSection (VMap "x") true)). reflexivity.
Defined.

(** ** The domain map of the assignments *)

Definition hostIn (m : DomainMap) (d h : string) : option HostInfo := m !! d ≫= lookup h.

Lemma AddHostInfo_hostIn m hi d h :
  hostIn (AddHostInfo m (Some hi)) d h =
    if decide (Domain hi ≠ "" ∧ d = Domain hi ∧ h = HostName hi) then Some hi else hostIn m d h.
Proof.
  unfold hostIn, AddHostInfo. destruct (decide (Domain hi = "")) as [He|He].
  { by rewrite decide_False by tauto. }
  destruct (decide (d = Domain hi)) as [->|Hd].
  2: { rewrite decide_False by tauto. by destruct (m !! Domain hi); rewrite lookup_insert_ne. }
  destruct (decide (h = HostName hi)) as [->|Hh].
  - rewrite decide_True by done. destruct (m !! Domain hi); rewrite lookup_insert_eq; simpl;
      [apply lookup_insert_eq|apply lookup_singleton_eq].
  - rewrite decide_False by tauto. destruct (m !! Domain hi); rewrite lookup_insert_eq; simpl;
      [by rewrite lookup_insert_ne|by rewrite lookup_singleton_ne].
Qed.

Lemma NoDup_snoc {A B} (f : A → B) l x : NoDup (f <$> (l ++ [x])) → NoDup (f <$> l) ∧ ∀ y, y ∈ l → f y ≠ f x.
Proof.
  rewrite fmap_app, NoDup_app. csimpl. intros (? & Hd & _). split; [done|].
  intros y Hy Heq. apply (Hd (f y)); [by apply list_elem_of_fmap_2|]. rewrite Heq. by left.
Qed.

Lemma DomainMap_spec assignments targets d h hi :
  NoDup (tg_HostName <$> targets) →
  hostIn (DomainMapFromAssignments assignments targets) d h = Some hi ↔
    ∃ t a, t ∈ targets ∧ tg_HostName t = h ∧ assignments !! tg_InstanceID t = Some a ∧
      DomainID a = d ∧ d ≠ "" ∧ hi = MkHostInfo d (tg_InstanceID t) h (SubDomainID a).
Proof.
  unfold DomainMapFromAssignments. induction targets as [|t ts IH] using rev_ind; intros Hnd.
  { simpl. unfold hostIn, NewDomainMap. rewrite lookup_empty. simpl. split; [done|].
    intros (t & a & Ht & _). by apply elem_of_nil in Ht. }
  apply NoDup_snoc in Hnd as [Hnd Hnew]. specialize (IH Hnd). rewrite foldl_snoc.
  setoid_rewrite elem_of_app. setoid_rewrite list_elem_of_singleton.
  destruct (assignments !! tg_InstanceID t) as [a|] eqn:Ha.
  - rewrite AddHostInfo_hostIn. cbn [Domain HostName]. case_decide as Hd.
    + destruct Hd as (Hd & -> & ->). split.
      * intros [= <-]. exists t, a. split_and!; try done. by right.
      * intros (t' & a' & [Ht'| ->] & Hh & Ha' & _ & _ & ->); [by destruct (Hnew t')|]. by simplify_eq.
    + rewrite IH. split.
      * intros (t' & a' & ? & ?). exists t', a'. tauto.
      * intros (t' & a' & [Ht'| ->] & Hh & Ha' & Hda & Hne & ->); [eauto 10|]. simplify_eq. by destruct Hd.
  - rewrite IH. split.
    + intros (t' & a' & ? & ?). exists t', a'. tauto.
    + intros (t' & a' & [Ht'| ->] & Hh & Ha' & Hrest); [eauto 10|]. congruence.
Qed.

(** *** Metadata of nodes *)

Lemma metadataDiscover_spec value targets t :
  NoDup (tg_InstanceID <$> targets) → t ∈ targets →
  metadataDiscover value targets !! tg_InstanceID t =
    if decide (trim_space (value t) = "") then None else Some (MkAssignment (trim_space (value t)) "").
Proof.
  unfold metadataDiscover.
  set (f := λ (assignments : Assignments) (target : Target), _).
  assert (∀ ts id, id ∉ tg_InstanceID <$> ts → foldl f ∅ ts !! id = None) as Hout.
  { intros ts id. induction ts as [|x ts IH] using rev_ind; intros Hid; [done|].
    rewrite fmap_app, not_elem_of_app in Hid. destruct Hid as [Hid Hx]. rewrite foldl_snoc.
    unfold f at 1. cbv zeta. case_decide; [by apply IH|]. rewrite lookup_insert_ne; [by apply IH|].
    intros Heq. apply Hx. csimpl. rewrite Heq. by left. }
  induction targets as [|x ts IH] using rev_ind; intros Hnd Ht; [by apply elem_of_nil in Ht|].
  apply NoDup_snoc in Hnd as [Hnd Hnew]. rewrite foldl_snoc. unfold f at 1. cbv zeta.
  apply elem_of_app in Ht as [Ht| ->%list_elem_of_singleton].
  - destruct (decide (trim_space (value x) = "")); [by apply IH|].
    rewrite lookup_insert_ne; [by apply IH|]. by apply not_eq_sym, Hnew.
  - case_decide; [|by rewrite lookup_insert_eq]. apply Hout.
    intros (y & Heq & Hy)%list_elem_of_fmap. by apply (Hnew y).
Qed.

Lemma nodeTarget_spec regions node t :
  nodeTarget regions node = Some t ↔
    ∃ region regional, region = trim_space (default "" (n_Annotations node !! KeyNodeRegion)) ∧ region ≠ "" ∧
      regions !! region = Some regional ∧
      tg_InstanceID t = trim_space (default "" (n_Annotations node !! KeyNodeInstance)) ∧ tg_InstanceID t ≠ "" ∧
      regional !! tg_InstanceID t = Some (tg_HostName t) ∧
      tg_Labels t = n_Labels node ∧ tg_Annotations t = n_Annotations node.
Proof.
  unfold nodeTarget. set (id := trim_space (default "" (n_Annotations node !! KeyNodeInstance))).
  set (r := trim_space (default "" (n_Annotations node !! KeyNodeRegion))). cbv zeta. split.
  - destruct (decide (id = "")); [done|]. destruct (decide (r = "")); [done|].
    destruct (regions !! r) as [regional|] eqn:Hr; [|done].
    destruct (regional !! id) as [h|] eqn:Hh; [|done]. intros [= <-]. by exists r, regional.
  - intros (? & regional & -> & Hr & Hreg & Hid & Hne & Hh & HL & HA). rewrite Hid in Hne, Hh.
    rewrite decide_False, decide_False, Hreg, Hh by done. destruct t. simpl in *. by subst.
Qed.

(** The node metadata a configuration reads a domain from. *)
Definition domainOf (c : Config) (node : Node) : string :=
  trim_space (if decide (Source c = SourceNvidiaSMI) then default "" (n_Annotations node !! KeyGpuClusterID)
              else if decide (Source c = SourceKubernetesLabel) then default "" (n_Labels node !! LabelKey c)
              else "").

(** On Kubernetes, discovery succeeds and a host is in a domain exactly when
    some selected node has the host's instance and region in its annotations,
    the request knows this instance in this region under that host name, and
    the domain is the value, not blank, of the metadata the configured source
    reads; the entry carries the instance and no sub-domain. *)
Theorem kubernetes_domains_spec c discoverer nodes instances :
  let targets := TargetsFromKubernetesNodes nodes instances in
  NewKubernetesDiscovererFromConfig c = Ok discoverer →
  NoDup (tg_InstanceID <$> targets) → NoDup (tg_HostName <$> targets) →
  ∃ m, DiscoverKubernetesDomains discoverer nodes instances = Ok m ∧
    ∀ d h hi, hostIn m d h = Some hi ↔
      d ≠ "" ∧ hi = MkHostInfo d (InstanceID hi) h "" ∧ InstanceID hi ≠ "" ∧
      ∃ node region regional, node ∈ nodes ∧ domainOf c node = d ∧
        region = trim_space (default "" (n_Annotations node !! KeyNodeRegion)) ∧ region ≠ "" ∧
        InstanceID hi = trim_space (default "" (n_Annotations node !! KeyNodeInstance)) ∧
        regionInstances instances !! region = Some regional ∧ regional !! InstanceID hi = Some h.
Proof.
  intros targets Hc Hids Hhosts.
  assert (∃ a, Discover discoverer targets = Ok a ∧ ∀ node t, t ∈ targets →
    nodeTarget (regionInstances instances) node = Some t →
    a !! tg_InstanceID t = if decide (domainOf c node = "") then None else Some (MkAssignment (domainOf c node) ""))
    as (a & Ha & Hlook).
  { unfold NewKubernetesDiscovererFromConfig in Hc. apply bind_Ok in Hc as ([] & _ & Hc). unfold domainOf.
    destruct (decide (Source c = SourceNvidiaSMI)); [|destruct (decide (Source c = SourceKubernetesLabel))].
    - injection Hc as <-. eexists. split; [done|]. intros node t Ht Hn. rewrite metadataDiscover_spec by done.
      apply nodeTarget_spec in Hn as (? & ? & _ & _ & _ & _ & _ & _ & _ & ->). done.
    - injection Hc as <-. eexists. split; [done|]. intros node t Ht Hn. rewrite metadataDiscover_spec by done.
      apply nodeTarget_spec in Hn as (? & ? & _ & _ & _ & _ & _ & _ & -> & _). done.
    - case_decide; [|done]. injection Hc as <-. eexists. split; [done|]. intros. by rewrite lookup_empty. }
  eexists. split; [unfold DiscoverKubernetesDomains; fold targets; by rewrite Ha|]. intros d h hi.
  rewrite DomainMap_spec by done. split.
  - intros (t & x & Ht & Hh & Hx & Hd & Hne & ->). pose proof Ht as Ht'.
    apply list_elem_of_omap in Ht' as (node & Hnode & Hn). pose proof (Hlook _ _ Ht Hn) as Hl. rewrite Hx in Hl.
    case_decide as Hdom; [done|]. injection Hl as ->. simpl in *.
    apply nodeTarget_spec in Hn as (r & regional & Hr & Hrne & Hreg & Hid & Hidne & Hhost & _).
    split_and!; [done|done|done|]. exists node, r, regional. rewrite <-Hh. split_and!; try done; congruence.
  - intros (Hne & Hhi & Hidne & node & r & regional & Hnode & Hdom & Hr & Hrne & Hid & Hreg & Hhost).
    set (t := MkTarget (InstanceID hi) h (n_Labels node) (n_Annotations node)).
    assert (nodeTarget (regionInstances instances) node = Some t) as Hn.
    { apply nodeTarget_spec. by exists r, regional. }
    assert (t ∈ targets) as Ht by (apply list_elem_of_omap; eauto).
    exists t, (MkAssignment d ""). split_and!; try done.
    rewrite (Hlook _ _ Ht Hn), Hdom. by rewrite decide_False.
Qed.

(** *** nvidia-smi *)

(** The lines of an output that are not blank, trimmed. *)
Definition smiLines (output : string) : list string :=
  filter (λ l, l ≠ "") (trim_space <$> split nl output).

(** All GPUs of a host report the same partition. *)
Definition agreed (output id : string) : Prop :=
  smiLines output ≠ [] ∧ ∀ line, line ∈ smiLines output → parseNVLPartitionID line = Ok id.

Lemma addPartition_fold ls s :
  (∀ s', foldM addPartition s ls = Ok s' →
     s ⊆ s' ∧ (∀ line, line ∈ filter (λ l, l ≠ "") (trim_space <$> ls) → ∃ id, parseNVLPartitionID line = Ok id ∧ id ∈ s') ∧
     ∀ id, id ∈ s' → id ∈ s ∨ ∃ line, line ∈ filter (λ l, l ≠ "") (trim_space <$> ls) ∧ parseNVLPartitionID line = Ok id) ∧
  ((∀ line, line ∈ filter (λ l, l ≠ "") (trim_space <$> ls) → is_ok (parseNVLPartitionID line) = true) →
     is_ok (foldM addPartition s ls) = true).
Proof.
  revert s. induction ls as [|l ls IH]; intros s; csimpl.
  { split; [|done]. intros s' [= <-]. split_and!; [done| |by left]. intros line Hin. by apply elem_of_nil in Hin. }
  unfold addPartition at 1 3. cbv zeta. rewrite filter_cons. destruct (decide (trim_space l = "")) as [Hl|Hl].
  { rewrite decide_False by tauto. apply IH. }
  rewrite decide_True by done. destruct (parseNVLPartitionID (trim_space l)) as [id|e] eqn:Hp; simpl.
  - destruct (IH ({[id]} ∪ s)) as [IH1 IH2]. split.
    + intros s' (Hsub & Hall & Hin)%IH1. split_and!; [set_solver| |].
      * intros line [->|Hline]%elem_of_cons; [|by apply Hall]. exists id. split; [done|]. set_solver.
      * intros x [Hx|(line & Hline & Hpl)]%Hin; [|right; exists line; by rewrite elem_of_cons; auto].
        apply elem_of_union in Hx as [->%elem_of_singleton|Hx]; [|by left].
        right. exists (trim_space l). split; [by left|done].
    + intros Hall. apply IH2. intros line Hline. apply Hall. by right.
  - split; [done|]. intros Hall. specialize (Hall (trim_space l) ltac:(by left)). by rewrite Hp in Hall.
Qed.

Lemma ParseNvidiaSMIOutput_spec output id : ParseNvidiaSMIOutput output = Ok id ↔ agreed output id.
Proof.
  unfold ParseNvidiaSMIOutput, agreed, smiLines.
  destruct (addPartition_fold (split nl output) ∅) as [H1 H2].
  set (L := filter _ _) in *. split.
  - intros (s' & Hs & Heq)%bind_Ok. destruct (H1 _ Hs) as (_ & Hall & Hin).
    assert (∀ x, x ∈ s' ↔ x = id) as Hone.
    { intros x. rewrite <-elem_of_elements, <-(elem_of_sort_strings x).
      destruct (sort_strings (elements s')) as [|y [|]]; simplify_eq. apply list_elem_of_singleton. }
    split.
    + intros HL. destruct (Hin id) as [Hi|(line & Hline & _)]; [by apply Hone|set_solver|].
      rewrite HL in Hline. by apply elem_of_nil in Hline.
    + intros line Hline. destruct (Hall _ Hline) as (x & Hx & ->%Hone). done.
  - intros [Hne Hall].
    assert (is_ok (foldM addPartition ∅ (split nl output)) = true) as Hok.
    { apply H2. intros line Hline. by rewrite (Hall _ Hline). }
    destruct (foldM addPartition ∅ (split nl output)) as [s'|] eqn:Hs; [|done].
    destruct (H1 _ eq_refl) as (_ & Hall' & Hin). simpl.
    assert (s' = {[id]}) as ->.
    { apply set_eq. intros x. rewrite elem_of_singleton. split.
      - intros [Hx|(line & Hline & Hp)]%Hin; [set_solver|]. rewrite (Hall _ Hline) in Hp. by simplify_eq.
      - intros ->. destruct L as [|line ?]; [done|].
        destruct (Hall' line ltac:(by left)) as (x & Hx & Hxs). rewrite (Hall line) in Hx by (by left). by simplify_eq. }
    by rewrite elements_singleton.
Qed.

Lemma parseNVLPartitionID_nonempty line id : parseNVLPartitionID line = Ok id → id ≠ "".
Proof.
  unfold parseNVLPartitionID. destruct (split "," line) as [|f0 [|f1 [|]]]; try done. cbv zeta.
  repeat (case_decide; [done|]). intros [= <-]. by destruct (trim_space f0).
Qed.

Lemma agreed_nonempty output id : agreed output id → id ≠ "".
Proof.
  intros [Hne Hall]. destruct (smiLines output) as [|l ?]; [done|].
  eapply parseNVLPartitionID_nonempty, Hall. by left.
Qed.

Section SMI.
Context (outputs : gmap string string).
Definition outputOf (t : Target) : string := trim_space (default "" (outputs !! tg_HostName t)).

Lemma discoverAll_spec targets :
  NoDup (tg_InstanceID <$> targets) →
  match foldM (discoverTarget outputs) ∅ targets with
  | Ok a =>
      (∀ t, t ∈ targets → outputOf t = "" ∧ a !! tg_InstanceID t = None ∨
         ∃ id, outputOf t ≠ "" ∧ agreed (outputOf t) id ∧ a !! tg_InstanceID t = Some (MkAssignment id "")) ∧
      ∀ i, i ∉ tg_InstanceID <$> targets → a !! i = None
  | Err _ => ∃ t, t ∈ targets ∧ outputOf t ≠ "" ∧ ∀ id, ¬ agreed (outputOf t) id
  end.
Proof.
  induction targets as [|x ts IH] using rev_ind; intros Hnd.
  { simpl. split; [|done]. intros t Ht. by apply elem_of_nil in Ht. }
  apply NoDup_snoc in Hnd as [Hnd Hnew]. specialize (IH Hnd). rewrite foldM_app.
  destruct (foldM (discoverTarget outputs) ∅ ts) as [a|e]; simpl.
  2: { destruct IH as (t & Ht & ?). exists t. rewrite elem_of_app. auto. }
  destruct IH as [Hall Hout]. unfold discoverTarget. fold (outputOf x). cbv zeta.
  assert (tg_InstanceID x ∉ tg_InstanceID <$> ts) as Hx.
  { intros (y & Heq & Hy)%list_elem_of_fmap. by apply (Hnew y). }
  assert (∀ i, i ∉ tg_InstanceID <$> (ts ++ [x]) → (i ∉ tg_InstanceID <$> ts) ∧ i ≠ tg_InstanceID x) as Hsplit.
  { intros i. rewrite fmap_app, not_elem_of_app. csimpl. rewrite list_elem_of_singleton. tauto. }
  case_decide as Ho.
  { split.
    - intros t [Ht| ->%list_elem_of_singleton]%elem_of_app; [by apply Hall|]. left. split; [done|]. by apply Hout.
    - intros i [Hi _]%Hsplit. by apply Hout. }
  destruct (ParseNvidiaSMIOutput (outputOf x)) as [id|e] eqn:Hp.
  - apply ParseNvidiaSMIOutput_spec in Hp. split.
    + intros t [Ht| ->%list_elem_of_singleton]%elem_of_app.
      * rewrite lookup_insert_ne by (by apply not_eq_sym, Hnew). by apply Hall.
      * right. exists id. by rewrite lookup_insert_eq.
    + intros i [Hi Hne]%Hsplit. rewrite lookup_insert_ne by done. by apply Hout.
  - exists x. rewrite elem_of_app. split_and!; [right; by left|done|].
    intros id Hid%ParseNvidiaSMIOutput_spec. congruence.
Qed.
End SMI.

(** C31: Discovery by nvidia-smi fails exactly when the output of some target is
    not blank and its lines do not all report the same partition.  Otherwise the
    domain map holds exactly the targets with output, each in the domain of the
    partition that all lines of its output report.  The command itself has run, and
    the targets have different instance IDs and different host names. *)
Theorem nvidia_domains_spec runner targets outputs :
  runner targets = Ok outputs →
  NoDup (tg_InstanceID <$> targets) → NoDup (tg_HostName <$> targets) →
  match Discover (nvidiaSMIDiscoverer runner) targets with
  | Err _ => ∃ t, t ∈ targets ∧ outputOf outputs t ≠ "" ∧ ∀ id, ¬ agreed (outputOf outputs t) id
  | Ok a =>
      (∀ t, t ∈ targets → outputOf outputs t = "" ∨ ∃ id, agreed (outputOf outputs t) id) ∧
      ∀ d h hi, hostIn (DomainMapFromAssignments a targets) d h = Some hi ↔
        ∃ t, t ∈ targets ∧ tg_HostName t = h ∧ outputOf outputs t ≠ "" ∧ agreed (outputOf outputs t) d ∧
          hi = MkHostInfo d (tg_InstanceID t) h ""
  end.
Proof.
  intros Hrun Hids Hhosts. simpl. rewrite Hrun. pose proof (discoverAll_spec outputs targets Hids) as Hall.
  destruct (foldM (discoverTarget outputs) ∅ targets) as [a|e]; [|done]. destruct Hall as [Hall _]. split.
  { intros t Ht. destruct (Hall t Ht) as [[? _]|(id & _ & ? & _)]; [by left|right; eauto]. }
  intros d h hi. rewrite DomainMap_spec by done. split.
  - intros (t & x & Ht & Hh & Hx & Hd & Hne & ->). exists t.
    destruct (Hall t Ht) as [[_ Hn]|(id & Ho & Hag & Hs)]; simplify_eq. by split_and!.
  - intros (t & Ht & Hh & Ho & Hag & ->).
    destruct (Hall t Ht) as [[? _]|(id & _ & Hag' & Hs)]; [done|].
    assert (id = d) as ->.
    { destruct Hag as [Hne H1], Hag' as [_ H2]. destruct (smiLines (outputOf outputs t)) as [|l ?]; [done|].
      specialize (H1 l ltac:(by left)). specialize (H2 l ltac:(by left)). congruence. }
    exists t, (MkAssignment d ""). split_and!; try done. by eapply agreed_nonempty.
Qed.

(** ** Examples *)

Definition w_targets : list Target := [MkTarget "i1" "n1" ∅ ∅; MkTarget "i2" "n2" ∅ ∅].
Definition w_outputs : gmap string string :=
  {[ "n1" := "u-1, 7" +:+ newline +:+ "u-1, 7" +:+ newline; "n2" := " " ]}.

Lemma nvidia_domains_spec_witness :
  ∃ a, Discover (nvidiaSMIDiscoverer (λ _, Ok w_outputs)) w_targets = Ok a ∧
    hostIn (DomainMapFromAssignments a w_targets) "u-1.7" "n1" = Some (MkHostInfo "u-1.7" "i1" "n1" "").
Proof.
  pose proof (nvidia_domains_spec (λ _, Ok w_outputs) w_targets w_outputs eq_refl
    ltac:(apply (bool_decide_unpack _); vm_compute; exact I) ltac:(apply (bool_decide_unpack _); vm_compute; exact I)) as Hspec.
  destruct (Discover (nvidiaSMIDiscoverer (λ _, Ok w_outputs)) w_targets) as [a|e] eqn:Ha.
  - exists a. split; [done|]. apply Hspec. exists (MkTarget "i1" "n1" ∅ ∅).
    split_and!; [by left|done|by vm_compute| |done]. apply ParseNvidiaSMIOutput_spec. by vm_compute.
  - exfalso. assert (is_ok (Discover (nvidiaSMIDiscoverer (λ _, Ok w_outputs)) w_targets) = true) as Hok by vm_eq.
    by rewrite Ha in Hok.
Defined.

Definition w_node : Node :=
  MkNode "n1" {[ "rack" := " r7 " ]} {[ KeyNodeInstance := "i1"; KeyNodeRegion := "local" ]}.

Lemma kubernetes_domains_spec_witness :
  ∃ m, DiscoverKubernetesDomains (labelDiscoverer "rack") [w_node] [MkCI "local" {[ "i1" := "n1" ]}] = Ok m ∧
    hostIn m "r7" "n1" = Some (MkHostInfo "r7" "i1" "n1" "").
Proof.
  destruct (kubernetes_domains_spec (MkConfig SourceKubernetesLabel "rack" "ns" "ds") (labelDiscoverer "rack") [w_node]
    [MkCI "local" {[ "i1" := "n1" ]}]) as (m & Hm & Hspec).
  - reflexivity.
  - apply (bool_decide_unpack _); vm_compute; exact I.
  - apply (bool_decide_unpack _); vm_compute; exact I.
  - exists m. split; [done|]. apply Hspec. split_and!; [done|done|done|].
    exists w_node, "local", {[ "i1" := "n1" ]}. split_and!; [by left|vm_eq|vm_eq|done|vm_eq|vm_eq|vm_eq].
Defined.

End Accelerator.
