(* ===== verification/Models.v ===== *)
(** * Simulation models: [pkg/models/model.go]

    A model file describes a cluster for tests and simulated providers: a
    forest of switches, and blocks of nodes attached to them.  Loading derives
    the nodes with their switches and labels and the instances per region;
    [ToGraph] builds the graph. *)

From S2P Require Import Prelude GoStrings Cluset Domain Topology Network NetworkTree TreeWalk.

Module Models.
Import Domain Topo TreeWalk.

Abbreviation labelMap := (gmap string string).

Definition LabelTopologyRegion : string := "topology.kubernetes.io/region".
Definition LabelTopologyZone : string := "topology.kubernetes.io/zone".
Definition defaultRegion : string := "none".
Definition annotationAcceleratorDomain : string := "accelerator.topology.test/domain".
Definition annotationAcceleratorSubDomain : string := "accelerator.topology.test/sub-domain".

(** ** Data

    Nil and empty maps of labels and annotations are not told apart: the code
    reads and merges them only. *)
Record Switch := MkSwitch {
  sw_Name : string;
  sw_Labels : labelMap;
  sw_Annotations : labelMap;
  Switches : list string;
  sw_Nodes : list string
}.

Record CapacityBlock := MkBlock {
  cb_Switch : string;
  cb_Nodes : list string;
  cb_Labels : labelMap;
  cb_Annotations : labelMap
}.

Record Node := MkNode { n_Instance : Instance_; n_Annotations : labelMap }.

Record Model := MkModel {
  m_Switches : gmap string Switch;
  m_Nodes : gmap string Node;
  CapacityBlocks : list CapacityBlock;
  m_Instances : list ComputeInstances
}.

Definition AcceleratorDomain (node : Node) : string :=
  default "" (n_Annotations node !! annotationAcceleratorDomain).
Definition AcceleratorSubDomain (node : Node) : string :=
  default "" (n_Annotations node !! annotationAcceleratorSubDomain).

(** [NoReturn] is not an error: the expansion of a node list does not end. *)
Inductive modelErr :=
| ErrParse (msg : string)
| ErrEmptySwitch (name : string)
| ErrSwitchName (key name : string)
| ErrNoBlockNodes (index : nat)
| ErrBlockSwitch (index : nat) (switch : string)
| ErrNodeTwice (name : string)
| ErrUnknownSubSwitch (parent switch : string)
| ErrTwoParents (switch p1 p2 : string)
| ErrTwoSwitches (node s1 s2 : string)
| ErrNoBlocks
| ErrUnknownNode (name : string)
| ErrCircular (switch : string)
| NoReturn.

(** ** Maps of labels *)

Definition mergeMaps (base overlay : labelMap) : labelMap := overlay ∪ base.

Definition withDefaultRegion (labels : labelMap) : labelMap :=
  if decide (default "" (labels !! LabelTopologyRegion) = "")
  then <[LabelTopologyRegion := defaultRegion]> labels else labels.

Definition appendUnique (values : list string) (value : string) : list string :=
  if decide (value ∈ values) then values else values ++ [value].

Definition InstanceID (hostName : string) : string := "i-" +:+ hostName.

Definition expand (nodes : list string) : result modelErr (list string) :=
  match Cluset.Expand nodes with Some l => Ok l | None => Err NoReturn end.

Section Load.
Context `{RangeOrder}.

(** ** Decoding *)

(** The value of a switch in the file may be empty; its nodes are not decoded. *)
Definition checkSwitch (sws : gmap string Switch) (kv : string * option Switch) :
    result modelErr (gmap string Switch) :=
  match kv.2 with
  | None => Err (ErrEmptySwitch kv.1)
  | Some sw =>
      if decide (sw_Name sw ≠ "" ∧ sw_Name sw ≠ kv.1) then Err (ErrSwitchName kv.1 (sw_Name sw))
      else Ok (<[kv.1 := MkSwitch kv.1 (sw_Labels sw) (sw_Annotations sw) (Switches sw) []]> sws)
  end.

(** Switches that only their parent names. *)
Definition materialize (sws : gmap string Switch) (kv : string * Switch) : gmap string Switch :=
  foldl (λ sws name, match sws !! name with
                     | Some _ => sws
                     | None => <[name := MkSwitch name ∅ ∅ [] []]> sws
                     end) sws (Switches kv.2).

Definition UnmarshalYAML (raw : gmap string (option Switch) * list CapacityBlock) : result modelErr Model :=
  sws ← foldM checkSwitch ∅ (range raw.1);
  Ok (MkModel (foldl materialize sws (range sws)) ∅ raw.2 []).

(** ** Derived parts *)

Definition newNode (block : CapacityBlock) (nodes : gmap string Node) (name : string) :
    result modelErr (gmap string Node) :=
  match nodes !! name with
  | Some _ => Err (ErrNodeTwice name)
  | None => Ok (<[name := MkNode (MkInstance name [] (cloneStringMap (Some (cb_Labels block))) [])
                            (cb_Annotations block)]> nodes)
  end.

Definition completeBlock (m : Model) (ib : nat * CapacityBlock) : result modelErr Model :=
  let '(index, block) := ib in
  names ← expand (cb_Nodes block);
  if decide (names = []) then Err (ErrNoBlockNodes index)
  else
    sws ← (if decide (cb_Switch block = "") then Ok (m_Switches m)
           else match m_Switches m !! cb_Switch block with
                | None => Err (ErrBlockSwitch index (cb_Switch block))
                | Some sw =>
                    Ok (<[cb_Switch block := MkSwitch (sw_Name sw) (sw_Labels sw) (sw_Annotations sw) (Switches sw)
                            (foldl appendUnique (sw_Nodes sw) names)]> (m_Switches m))
                end);
    let block := MkBlock (cb_Switch block) names (cb_Labels block) (cb_Annotations block) in
    nodes ← foldM (newNode block) (m_Nodes m) names;
    Ok (MkModel sws nodes (<[index := block]> (CapacityBlocks m)) (m_Instances m)).

Definition completeCapacityBlocks (m : Model) : result modelErr Model :=
  foldM completeBlock m (imap pair (CapacityBlocks m)).

(** The parent of a switch and the switch of a node, by name: a switch has the
    key as its name. *)
Record switchMaps := MkMaps {
  parentBySwitch : gmap string string;
  switchByNode : gmap string string
}.

Definition addSubSwitch (m : Model) (parent : string) (maps : switchMaps) (sw : string) :
    result modelErr switchMaps :=
  if decide (m_Switches m !! sw = None) then Err (ErrUnknownSubSwitch parent sw)
  else match parentBySwitch maps !! sw with
       | Some p => Err (ErrTwoParents sw parent p)
       | None => Ok (MkMaps (<[sw := parent]> (parentBySwitch maps)) (switchByNode maps))
       end.

Definition addSwitchNode (parent : string) (maps : switchMaps) (node : string) : result modelErr switchMaps :=
  match switchByNode maps !! node with
  | Some p => Err (ErrTwoSwitches node parent p)
  | None => Ok (MkMaps (parentBySwitch maps) (<[node := parent]> (switchByNode maps)))
  end.

Definition addParent (acc : Model * switchMaps) (kv : string * Switch) : result modelErr (Model * switchMaps) :=
  let '(m, maps) := acc in
  let '(name, parent) := kv in
  maps ← foldM (addSubSwitch m name) maps (Switches parent);
  nodes ← expand (sw_Nodes parent);
  let parent := MkSwitch (sw_Name parent) (sw_Labels parent) (sw_Annotations parent) (Switches parent) nodes in
  maps ← foldM (addSwitchNode name) maps nodes;
  Ok (MkModel (<[name := parent]> (m_Switches m)) (m_Nodes m) (CapacityBlocks m) (m_Instances m), maps).

Definition buildSwitchMaps (m : Model) : result modelErr (Model * switchMaps) :=
  foldM addParent (m, MkMaps ∅ ∅) (range (m_Switches m)).

(** The loop of [getNetworkLayers] visits a switch once at most; [None] when
    [fuel] visits do not end it. *)
Fixpoint networkLayers (fuel : nat) (swmap : gmap string string) (layers : list string) (name : string) :
    option (result modelErr (list string)) :=
  match fuel with
  | O => None
  | S fuel =>
      if decide (name ∈ layers) then Some (Err (ErrCircular name))
      else let layers := layers ++ [name] in
           match swmap !! name with
           | None => Some (Ok layers)
           | Some parent => networkLayers fuel swmap layers parent
           end
  end.

Definition labelsOn (m : Model) (field : Switch → labelMap) (path : list string) : labelMap :=
  foldl (λ labels name, mergeMaps labels (default ∅ (field <$> m_Switches m !! name))) ∅ (reverse path).

Definition getNetworkLayers (m : Model) (sw : string) (swmap : gmap string string) :
    option (result modelErr (list string * labelMap * labelMap)) :=
  fmap (M := result modelErr) (λ layers, (layers, labelsOn m sw_Labels layers, labelsOn m sw_Annotations layers)) <$>
    networkLayers (2 + size swmap) swmap [] sw.

Definition addInstanceRegion (regions : gmap string (gmap string string)) (labels : labelMap) (hostName : string) :
    gmap string (gmap string string) :=
  let region := default "" (labels !! LabelTopologyRegion) in
  <[region := <[InstanceID hostName := hostName]> (default ∅ (regions !! region))]> regions.

Definition deriveNode (m : Model) (maps : switchMaps) (acc : gmap string Node * gmap string (gmap string string))
    (kv : string * Node) : result modelErr (gmap string Node * gmap string (gmap string string)) :=
  let '(nodes, regions) := acc in
  let '(hostName, node) := kv in
  layers ← match switchByNode maps !! hostName with
           | None => Ok ([], ∅, ∅)
           | Some sw => default (Err NoReturn) (getNetworkLayers m sw (parentBySwitch maps))
           end;
  let '(netLayers, labels, annotations) := layers in
  let inst := n_Instance node in
  let labels := withDefaultRegion (mergeMaps labels (default ∅ (Labels inst))) in
  let node := MkNode (MkInstance (i_ID inst) (Topology.NetworkLayers inst) (Some labels) netLayers)
                (mergeMaps annotations (n_Annotations node)) in
  Ok (<[hostName := node]> nodes, addInstanceRegion regions labels hostName).

Definition setInstances (regions : gmap string (gmap string string)) : list ComputeInstances :=
  (λ region, MkCI region (default ∅ (regions !! region))) <$> sort_strings (range regions).*1.

Definition derive (m : Model) : result modelErr Model :=
  m ← completeCapacityBlocks m;
  mm ← buildSwitchMaps m;
  let '(m, maps) := mm in
  if decide (m_Nodes m = ∅ ∧ switchByNode maps ≠ ∅) then Err ErrNoBlocks
  else
    _ ← foldM (λ (_ : ()) kv, match m_Nodes m !! kv.1 with
                              | Some _ => Ok ()
                              | None => Err (ErrUnknownNode kv.1)
                              end) () (range (switchByNode maps));
    nr ← foldM (deriveNode m maps) (m_Nodes m, ∅) (range (m_Nodes m));
    Ok (MkModel (m_Switches m) nr.1 (CapacityBlocks m) (setInstances nr.2)).

(** [yaml.Unmarshal] into the fields of the file. *)
Definition NewModelFromData
    (Unmarshal : string → result string (gmap string (option Switch) * list CapacityBlock)) (data : string) :
    result modelErr Model :=
  raw ← map_err ErrParse (Unmarshal data);
  m ← UnmarshalYAML raw;
  derive m.

(** ** The graph *)

(** Vertices by host name and by switch name. *)
Record vertexMaps := MkVertices {
  v_store : store;
  nodeVertexMap : gmap string nat;
  swVertexMap : gmap string nat
}.

Definition nodeVertex (instance2node : gmap string string) (st : vertexMaps) (kv : string * Node) : vertexMaps :=
  let instanceID := InstanceID kv.1 in
  let '(s, l) := new (v_store st) (MkVertex (default "" (instance2node !! instanceID)) instanceID ∅) in
  MkVertices s (<[kv.1 := l]> (nodeVertexMap st)) (swVertexMap st).

Definition switchVertex (st : vertexMaps) (kv : string * Switch) : vertexMaps :=
  let name := sw_Name kv.2 in
  let '(s, l) := new (v_store st) (MkVertex "" name ∅) in
  MkVertices s (nodeVertexMap st) (<[name := l]> (swVertexMap st)).

(** A switch that is not in the map has a nil vertex; a nil vertex of a node is
    dereferenced, which the checks of [derive] exclude. *)
Definition connectSwitch (st : vertexMaps) (s : store) (sw : Switch) : store :=
  match swVertexMap st !! sw_Name sw with
  | None => s
  | Some v =>
      let s := foldl (λ s subsw, update s v (addChild subsw (swVertexMap st !! subsw))) s (Switches sw) in
      foldl (λ s node, match nodeVertexMap st !! node with
                       | Some n => update s v (addChild (v_ID (deref (cells s) n)) (Some n))
                       | None => s
                       end) s (sw_Nodes sw)
  end.

Definition requestedInstanceIDs (computeInstances : list ComputeInstances) : gset string :=
  foldl (λ ids ci, foldl (λ ids kv, {[kv.1]} ∪ ids) ids (range (ci_Instances ci))) ∅ computeInstances.

Definition graphInstanceMap (model : Model) (computeInstances : list ComputeInstances) : gmap string Instance_ :=
  let wanted := requestedInstanceIDs computeInstances in
  foldl (λ instances kv,
    let instanceID := InstanceID kv.1 in
    if decide (wanted ≠ ∅ ∧ instanceID ∉ wanted) then instances
    else let clone := CloneForTopology (n_Instance kv.2) in
         <[instanceID := MkInstance instanceID (Topology.NetworkLayers clone) (Labels clone) (NetLayers clone)]> instances)
    ∅ (range (m_Nodes model)).

Definition InstanceMap (model : Model) (computeInstances : list ComputeInstances) : gmap string Instance_ :=
  let wanted := requestedInstanceIDs computeInstances in
  foldl (λ instances kv,
    let inst := n_Instance kv.2 in
    if decide (wanted ≠ ∅ ∧ i_ID inst ∉ wanted) then instances
    else <[i_ID inst := CloneForTopology inst]> instances)
    ∅ (range (m_Nodes model)).

Definition modelDomain (instance2node : gmap string string) (m : DomainMap) (kv : string * Node) : DomainMap :=
  if decide (AcceleratorDomain kv.2 = "") then m
  else let instanceID := InstanceID kv.1 in
       AddHostInfo m (Some (MkHostInfo (AcceleratorDomain kv.2) instanceID
                              (default "" (instance2node !! instanceID)) (AcceleratorSubDomain kv.2))).

(** [swRootMap]: the switches that are nobody's sub-switch. *)
Definition rootSwitches (model : Model) : gmap string bool :=
  foldl (λ roots kv, foldl (λ roots subsw, <[subsw := false]> roots) roots (Switches kv.2))
    (foldl (λ roots kv, <[sw_Name kv.2 := true]> roots) ∅ (range (m_Switches model)))
    (range (m_Switches model)).

Definition ToGraph (model : Model) (instances : list ComputeInstances) : Graph * gmap string string :=
  let instance2node := foldl (λ m kv, <[InstanceID kv.1 := kv.1]> m) ∅ (range (m_Nodes model)) in
  let st := foldl (nodeVertex instance2node) (MkVertices (MkStore ∅ 0) ∅ ∅) (range (m_Nodes model)) in
  let st := foldl switchVertex st (range (m_Switches model)) in
  let domainMap := foldl (modelDomain instance2node) NewDomainMap (range (m_Nodes model)) in
  let s := foldl (λ s kv, connectSwitch st s kv.2) (v_store st) (range (m_Switches model)) in
  let '(s, treeRoot) := new s (MkVertex "" "" ∅) in
  let s := foldl (λ s kv, if kv.2 : bool then update s treeRoot (addChild kv.1 (swVertexMap st !! kv.1)) else s)
             s (range (rootSwitches model)) in
  (MkGraph (cells s) (Some treeRoot)
     (if decide (domainMap = ∅) then None else Some domainMap)
     (let m := graphInstanceMap model instances in if decide (m = ∅) then None else Some m),
   instance2node).
End Load.

(** ** What loading derives *)

Lemma InstanceID_inj a b : InstanceID a = InstanceID b → a = b.
Proof. unfold InstanceID. simpl. by intros [= ->]. Qed.

Definition named (sws : gmap string Switch) : Prop := map_Forall (λ k sw, sw_Name sw = k) sws.

(** The parent relation of the switches of a model, and the switch of a node. *)
Definition par (sws : gmap string Switch) (x p : string) : Prop := ∃ sw, sws !! p = Some sw ∧ x ∈ Switches sw.
Definition attached (sws : gmap string Switch) (n s : string) : Prop := ∃ sw, sws !! s = Some sw ∧ n ∈ sw_Nodes sw.

(** The switches from [x] up to a root. *)
Inductive up (sws : gmap string Switch) : string → list string → Prop :=
| up_root x : is_Some (sws !! x) → (∀ p, ¬ par sws x p) → up sws x [x]
| up_step x p ls : par sws x p → up sws p ls → up sws x (x :: ls).

Section Loading.
Context `{RangeOrder}.

Lemma UnmarshalYAML_named raw m : UnmarshalYAML raw = Ok m → named (m_Switches m) ∧ m_Nodes m = ∅.
Proof.
  intros (sws & Hs & [= <-])%bind_Ok. simpl. split; [|done].
  assert (named sws) as Hn.
  { revert Hs. apply (foldM_inv named); [apply map_Forall_empty|]. intros t [k o] t' _ Ht. unfold checkSwitch.
    destruct o as [sw|]; [|done]. simpl. case_decide; [done|]. intros [= <-]. by apply map_Forall_insert_2. }
  apply (foldl_inv named); [done|]. intros t kv _ Ht. apply (foldl_inv named); [done|]. intros u name _ Hu.
  destruct (u !! name); [done|]. by apply map_Forall_insert_2.
Qed.

Lemma completeCapacityBlocks_named m m' :
  completeCapacityBlocks m = Ok m' → named (m_Switches m) → named (m_Switches m').
Proof.
  intros Hrun Hn. revert Hrun. apply (foldM_inv (λ m, named (m_Switches m))); [done|].
  clear. intros t [index block] t' _ Ht. unfold completeBlock. intros (names & _ & Hb)%bind_Ok.
  case_decide; [done|]. apply bind_Ok in Hb as (sws & Hs & (nodes & _ & [= <-])%bind_Ok). simpl.
  case_decide; [by injection Hs as <-|]. destruct (m_Switches t !! cb_Switch block) as [sw|] eqn:Hsw; [|done].
  injection Hs as <-. apply map_Forall_insert_2; [|done]. simpl. by apply Ht.
Qed.

Lemma addSubSwitches_spec m p l maps maps' :
  foldM (addSubSwitch m p) maps l = Ok maps' →
  switchByNode maps' = switchByNode maps ∧
  (∀ x q, parentBySwitch maps' !! x = Some q ↔ parentBySwitch maps !! x = Some q ∨ (x ∈ l ∧ q = p)) ∧
  ∀ x, x ∈ l → is_Some (m_Switches m !! x).
Proof.
  revert maps. induction l as [|y l IH]; intros maps; simpl.
  { intros [= <-]. split_and!; [done| |]; setoid_rewrite elem_of_nil; naive_solver. }
  unfold addSubSwitch at 1. case_decide as Hy; [done|].
  destruct (parentBySwitch maps !! y) eqn:Hp; [done|]. intros (H1 & H2 & H3)%IH. simpl in *. split_and!; [done| |].
  - intros x q. rewrite H2, elem_of_cons. destruct (decide (x = y)) as [->|Hne].
    + rewrite lookup_insert_eq, Hp. naive_solver.
    + rewrite lookup_insert_ne by done. naive_solver.
  - intros x [->|Hx]%elem_of_cons; [|by apply H3]. by apply not_eq_None_Some.
Qed.

Lemma addSwitchNodes_spec p l maps maps' :
  foldM (addSwitchNode p) maps l = Ok maps' →
  parentBySwitch maps' = parentBySwitch maps ∧
  (∀ x q, switchByNode maps' !! x = Some q ↔ switchByNode maps !! x = Some q ∨ (x ∈ l ∧ q = p)).
Proof.
  revert maps. induction l as [|y l IH]; intros maps; simpl.
  { intros [= <-]. split_and!; [done|]. setoid_rewrite elem_of_nil; naive_solver. }
  unfold addSwitchNode at 1. destruct (switchByNode maps !! y) eqn:Hp; [done|].
  intros (H1 & H2)%IH. simpl in *. split_and!; [done|].
  intros x q. rewrite H2, elem_of_cons. destruct (decide (x = y)) as [->|Hne].
  - rewrite lookup_insert_eq, Hp. naive_solver.
  - rewrite lookup_insert_ne by done. naive_solver.
Qed.

(** The switch maps are the parent relation and the attachment of the model
    they are built with. *)
Record mapped (m : Model) (maps : switchMaps) : Prop := {
  mp_parent : ∀ x p, parentBySwitch maps !! x = Some p ↔ par (m_Switches m) x p;
  mp_node : ∀ n s, switchByNode maps !! n = Some s ↔ attached (m_Switches m) n s;
  mp_known : ∀ x p, par (m_Switches m) x p → is_Some (m_Switches m !! x)
}.

Record building (m0 : Model) (seen : list (string * Switch)) (acc : Model * switchMaps) : Prop := {
  bd_nodes : m_Nodes acc.1 = m_Nodes m0;
  bd_out : ∀ k, k ∉ seen.*1 → m_Switches acc.1 !! k = m_Switches m0 !! k;
  bd_in : ∀ k sw, (k, sw) ∈ seen → m_Switches m0 !! k = Some sw ∧ ∃ nodes,
    m_Switches acc.1 !! k = Some (MkSwitch (sw_Name sw) (sw_Labels sw) (sw_Annotations sw) (Switches sw) nodes);
  bd_parent : ∀ x p, parentBySwitch acc.2 !! x = Some p ↔ ∃ sw, (p, sw) ∈ seen ∧ x ∈ Switches sw;
  bd_node : ∀ n s, switchByNode acc.2 !! n = Some s ↔
    s ∈ seen.*1 ∧ ∃ sw, m_Switches acc.1 !! s = Some sw ∧ n ∈ sw_Nodes sw;
  bd_known : ∀ k sw x, (k, sw) ∈ seen → x ∈ Switches sw → is_Some (m_Switches m0 !! x)
}.

Lemma building_dom m0 seen acc k : building m0 seen acc →
  is_Some (m_Switches acc.1 !! k) ↔ is_Some (m_Switches m0 !! k).
Proof.
  intros Hb. destruct (decide (k ∈ seen.*1)) as [Hin|Hout]; [|by rewrite (bd_out _ _ _ Hb)].
  apply list_elem_of_fmap in Hin as ([k' sw] & -> & Hin). simpl.
  destruct (bd_in _ _ _ Hb _ _ Hin) as [-> [nodes ->]]. by split; eexists.
Qed.

Lemma building_step m0 seen acc k sw acc' :
  building m0 seen acc → m_Switches m0 !! k = Some sw → k ∉ seen.*1 →
  addParent acc (k, sw) = Ok acc' → building m0 (seen ++ [(k, sw)]) acc'.
Proof.
  intros Hb Hk Hnew. destruct acc as [m maps]. unfold addParent.
  intros (maps1 & H1 & (nodes & _ & (maps2 & H2 & [= <-])%bind_Ok)%bind_Ok)%bind_Ok.
  apply addSubSwitches_spec in H1 as (Hn1 & Hp1 & Hknown). apply addSwitchNodes_spec in H2 as (Hp2 & Hn2).
  assert (∀ x, x ∈ (seen ++ [(k, sw)]).*1 ↔ x ∈ seen.*1 ∨ x = k) as Happ.
  { intros x. rewrite fmap_app, elem_of_app. csimpl. by rewrite list_elem_of_singleton. }
  assert (∀ x p, (p, x) ∈ seen ++ [(k, sw)] ↔ (p, x) ∈ seen ∨ p = k ∧ x = sw) as Happ2.
  { intros x p. rewrite elem_of_app, list_elem_of_singleton. naive_solver. }
  pose proof (building_dom _ _ _ k Hb) as Hdom.
  split; cbn [fst snd m_Switches m_Nodes].
  - apply Hb.
  - intros x Hx. rewrite Happ in Hx. rewrite lookup_insert_ne by naive_solver. apply (bd_out _ _ _ Hb). tauto.
  - intros x sx [Hin|[-> ->]]%Happ2.
    + destruct (bd_in _ _ _ Hb _ _ Hin) as [Hx [ns Hns]]. split; [done|]. exists ns.
      rewrite lookup_insert_ne; [done|]. intros <-. apply Hnew. by apply (list_elem_of_fmap_2 fst _ _ Hin).
    + split; [done|]. exists nodes. by rewrite lookup_insert_eq.
  - intros x p. rewrite Hp2, Hp1, (bd_parent _ _ _ Hb). setoid_rewrite Happ2. naive_solver.
  - intros n s. rewrite Hn2, Hn1, (bd_node _ _ _ Hb), Happ. destruct (decide (s = k)) as [->|Hne].
    + rewrite lookup_insert_eq. naive_solver.
    + rewrite lookup_insert_ne by done. naive_solver.
  - intros x sx y [Hin|[-> ->]]%Happ2 Hy; [by eapply (bd_known _ _ _ Hb)|].
    apply (building_dom _ _ _ y Hb). by apply Hknown.
Qed.

Lemma buildSwitchMaps_spec m m' maps :
  buildSwitchMaps m = Ok (m', maps) → named (m_Switches m) →
  mapped m' maps ∧ m_Nodes m' = m_Nodes m ∧ named (m_Switches m').
Proof.
  intros Hrun Hnamed.
  assert (building m (range (m_Switches m)) (m', maps)) as Hb.
  { revert Hrun. apply (foldM_prefix_inv (building m)).
    - split; simpl; [done|done| | | |].
      + by intros k sw ?%elem_of_nil.
      + intros x p. rewrite lookup_empty. split; [done|]. by intros (? & ?%elem_of_nil & _).
      + intros n s. rewrite lookup_empty. split; [done|]. by intros [?%elem_of_nil _].
      + by intros k sw x ?%elem_of_nil.
    - intros l1 [k sw] l2 t t' Hl Ht Hstep. eapply building_step; [done| | |done].
      + apply elem_of_range. rewrite Hl. set_solver.
      + pose proof (range_NoDup (m_Switches m)) as Hnd. rewrite Hl, fmap_app in Hnd.
        apply NoDup_app in Hnd as (_ & Hd & _). intros Hin. apply (Hd k Hin). by left. }
  assert (∀ k, k ∈ (range (m_Switches m)).*1 ↔ is_Some (m_Switches m !! k)) as Hkeys.
  { intros k. rewrite range_perm. apply elem_of_keys. }
  assert (∀ k sw', m_Switches m' !! k = Some sw' ↔ ∃ sw nodes, m_Switches m !! k = Some sw ∧
    sw' = MkSwitch (sw_Name sw) (sw_Labels sw) (sw_Annotations sw) (Switches sw) nodes ∧
    m_Switches m' !! k = Some sw') as Hsw.
  { intros k sw'. split; [|by intros (? & ? & _ & _ & ?)]. intros Hk.
    assert (is_Some (m_Switches m !! k)) as [sw Hsw] by (apply (building_dom _ _ _ k Hb); by eexists).
    destruct (bd_in _ _ _ Hb k sw ltac:(by apply elem_of_range)) as [_ [nodes Hn]]. simpl in Hn. simplify_eq. eauto. }
  split; [|split; [apply (bd_nodes _ _ _ Hb)|]].
  - assert (∀ x p, par (m_Switches m') x p ↔ ∃ sw, (p, sw) ∈ range (m_Switches m) ∧ x ∈ Switches sw) as Hpar.
    { intros x p. setoid_rewrite elem_of_range. split.
      - intros (sw' & (sw & nodes & Hs & -> & _)%Hsw & Hx). eauto.
      - intros (sw & Hs & Hx). destruct (bd_in _ _ _ Hb p sw ltac:(by apply elem_of_range)) as [_ [nodes Hn]].
        eexists. split; [done|]. done. }
    split.
    + intros x p. rewrite (bd_parent _ _ _ Hb), Hpar. done.
    + intros n s. rewrite (bd_node _ _ _ Hb), Hkeys. simpl. split; [by intros [_ ?]|].
      intros (sw & Hs & Hn). split; [|by exists sw]. apply (building_dom _ _ _ s Hb). by eexists.
    + intros x p (sw & Hin & Hx)%Hpar. apply (building_dom _ _ _ x Hb). by eapply (bd_known _ _ _ Hb).
  - intros k sw' (sw & nodes & Hk & -> & _)%Hsw. simpl. by apply Hnamed.
Qed.

(** *** The switches above a node *)

Lemma networkLayers_spec m maps fuel layers name :
  mapped m maps → is_Some (m_Switches m !! name) →
  (∀ x, x ∈ layers → x ∈ dom (parentBySwitch maps)) → NoDup layers →
  (S (size (parentBySwitch maps)) < fuel + length layers)%nat →
  ∃ r, networkLayers fuel (parentBySwitch maps) layers name = Some r ∧
    ∀ ls, r = Ok ls → ∃ above, ls = layers ++ above ∧ up (m_Switches m) name above.
Proof.
  intros Hm. revert layers name. induction fuel as [|fuel IH]; intros layers name Hname Hlay Hnd Hfuel.
  { exfalso. assert (length layers ≤ size (parentBySwitch maps))%nat; [|lia].
    rewrite <-size_dom, <-(size_list_to_set (C := gset string) layers) by done.
    apply subseteq_size. intros x Hx%elem_of_list_to_set. by apply Hlay. }
  simpl. case_decide as Hin; [by eexists|]. destruct (parentBySwitch maps !! name) as [p|] eqn:Hp.
  - pose proof Hp as Hpar. apply (mp_parent _ _ Hm) in Hpar.
    destruct (IH (layers ++ [name]) p) as (r & Hr & Hls).
    + destruct Hpar as (sw & ? & _). by eexists.
    + intros x [Hx| ->%list_elem_of_singleton]%elem_of_app; [by apply Hlay|by eapply elem_of_dom_2].
    + apply NoDup_app. split_and!; [done| |apply NoDup_singleton].
      intros x Hx ->%list_elem_of_singleton. done.
    + rewrite length_app. simpl. lia.
    + exists r. split; [done|]. intros ls (above & -> & Hup)%Hls. exists (name :: above).
      split; [by rewrite <-app_assoc|]. by eapply up_step.
  - eexists. split; [done|]. intros ls [= <-]. exists [name]. split; [done|]. apply up_root; [done|].
    intros q Hq%(mp_parent _ _ Hm). congruence.
Qed.

Lemma getNetworkLayers_spec m maps s :
  mapped m maps → is_Some (m_Switches m !! s) →
  ∃ r, getNetworkLayers m s (parentBySwitch maps) = Some r ∧
    ∀ layers labels annotations, r = Ok (layers, labels, annotations) → up (m_Switches m) s layers ∧
      labels = labelsOn m sw_Labels layers ∧ annotations = labelsOn m sw_Annotations layers.
Proof.
  intros Hm Hs. unfold getNetworkLayers.
  destruct (networkLayers_spec m maps (2 + size (parentBySwitch maps)) [] s) as (r & -> & Hr); try done.
  { intros x Hx. by apply elem_of_nil in Hx. }
  { constructor. }
  { simpl. lia. }
  eexists. split; [done|]. intros layers labels annotations Heq. destruct r as [ls|]; [|done].
  simpl in Heq. simplify_eq. destruct (Hr _ eq_refl) as (above & -> & ?). done.
Qed.

(** *** Nodes and regions *)

Definition regionOf (node : Node) : string := label (Labels (n_Instance node)) LabelTopologyRegion.

Lemma withDefaultRegion_nonempty labels : default "" (withDefaultRegion labels !! LabelTopologyRegion) ≠ "".
Proof. unfold withDefaultRegion. case_decide as Hl; [by rewrite lookup_insert_eq|done]. Qed.

(** The switches of a node are those above the switch it is attached to. *)
Definition layered (sws : gmap string Switch) (h : string) (node : Node) : Prop :=
  (NetLayers (n_Instance node) = [] ∧ ∀ s, ¬ attached sws h s) ∨
  ∃ s, attached sws h s ∧ up sws s (NetLayers (n_Instance node)).

Record deriving (m : Model) (seen : list (string * Node))
    (acc : gmap string Node * gmap string (gmap string string)) : Prop := {
  dv_dom : dom acc.1 = dom (m_Nodes m);
  dv_node : ∀ h node, h ∈ seen.*1 → acc.1 !! h = Some node → layered (m_Switches m) h node ∧ regionOf node ≠ "";
  dv_region : ∀ r i h, default ∅ (acc.2 !! r) !! i = Some h ↔
    h ∈ seen.*1 ∧ i = InstanceID h ∧ ∃ node, acc.1 !! h = Some node ∧ regionOf node = r
}.

Lemma deriving_step m maps seen acc h node0 acc' :
  mapped m maps → deriving m seen acc → m_Nodes m !! h = Some node0 → h ∉ seen.*1 →
  deriveNode m maps acc (h, node0) = Ok acc' → deriving m (seen ++ [(h, node0)]) acc'.
Proof.
  intros Hm [Hdom Hnode Hreg] Hh Hnew. destruct acc as [nodes regions]. unfold deriveNode.
  intros ([[layers labels] annotations] & Hl & Heq)%bind_Ok. cbv zeta in Heq. injection Heq as <-.
  set (labels' := withDefaultRegion _).
  set (node := MkNode _ _). cbn [fst snd] in *.
  assert (∀ x, x ∈ (seen ++ [(h, node0)]).*1 ↔ x ∈ seen.*1 ∨ x = h) as Happ.
  { intros x. rewrite fmap_app, elem_of_app. csimpl. by rewrite list_elem_of_singleton. }
  assert (layered (m_Switches m) h node) as Hlay.
  { unfold layered. simpl. destruct (switchByNode maps !! h) as [s|] eqn:Hs.
    - pose proof Hs as Hat. apply (mp_node _ _ Hm) in Hat as (sw & Hsw & Hin).
      destruct (getNetworkLayers_spec m maps s Hm ltac:(by eexists)) as (r & Hr & Hup).
      rewrite Hr in Hl. simpl in Hl. subst r. destruct (Hup _ _ _ eq_refl) as [? _].
      right. exists s. split; [by exists sw|done].
    - injection Hl as <- <- <-. left. split; [done|]. intros s Hs'%(mp_node _ _ Hm). congruence. }
  assert (regionOf node = default "" (labels' !! LabelTopologyRegion)) as Hr by done.
  split; cbn [fst snd].
  - rewrite dom_insert_L, Hdom. assert (h ∈ dom (m_Nodes m)) by (by eapply elem_of_dom_2). set_solver.
  - intros x nd Hx. destruct (decide (h = x)) as [<-|Hne].
    + rewrite lookup_insert_eq. intros [= <-]. split; [done|]. rewrite Hr. apply withDefaultRegion_nonempty.
    + rewrite lookup_insert_ne by done. apply Hnode. apply Happ in Hx. naive_solver.
  - intros r i x. unfold addInstanceRegion. cbv zeta. fold labels'. rewrite <-Hr, Happ.
    assert ((∃ nd, <[h := node]> nodes !! x = Some nd ∧ regionOf nd = r) ↔
      x = h ∧ regionOf node = r ∨ x ≠ h ∧ ∃ nd, nodes !! x = Some nd ∧ regionOf nd = r) as Hcase.
    { destruct (decide (h = x)) as [<-|Hne]; [rewrite lookup_insert_eq|rewrite lookup_insert_ne by done]; naive_solver. }
    rewrite Hcase. destruct (decide (regionOf node = r)) as [Heq|Hne].
    + rewrite Heq, lookup_insert_eq. simpl. destruct (decide (InstanceID h = i)) as [<-|Hi].
      * rewrite lookup_insert_eq. split; [intros [= <-]; tauto|].
        intros (_ & <-%InstanceID_inj & _). done.
      * rewrite lookup_insert_ne by done. rewrite Hreg. naive_solver.
    + rewrite lookup_insert_ne by done. rewrite Hreg. naive_solver.
Qed.

Record loaded (m : Model) : Prop := {
  ld_named : named (m_Switches m);
  ld_parent : ∀ x p q, par (m_Switches m) x p → par (m_Switches m) x q → p = q;
  ld_known : ∀ x p, par (m_Switches m) x p → is_Some (m_Switches m !! x);
  ld_switch : ∀ n s t, attached (m_Switches m) n s → attached (m_Switches m) n t → s = t;
  ld_node : ∀ n s, attached (m_Switches m) n s → is_Some (m_Nodes m !! n);
  ld_layers : ∀ h node, m_Nodes m !! h = Some node → layered (m_Switches m) h node ∧ regionOf node ≠ "";
  ld_sorted : Sorted String.le (Region <$> m_Instances m) ∧ NoDup (Region <$> m_Instances m);
  ld_region : ∀ ci i h, ci ∈ m_Instances m → ci_Instances ci !! i = Some h ↔
    i = InstanceID h ∧ ∃ node, m_Nodes m !! h = Some node ∧ regionOf node = Region ci;
  ld_every : ∀ h node, m_Nodes m !! h = Some node → ∃ ci, ci ∈ m_Instances m ∧ Region ci = regionOf node
}.

Lemma setInstances_regions regions : Region <$> setInstances regions = sorted_keys regions.
Proof.
  unfold setInstances. rewrite sorted_keys_range. generalize (sorted_keys regions) as l.
  induction l as [|r l IH]; [done|]. csimpl. by f_equal.
Qed.

Lemma derive_loaded m0 m : derive m0 = Ok m → named (m_Switches m0) → loaded m.
Proof.
  unfold derive. intros (m1 & H1 & ([m2 maps] & H2 & Hrun)%bind_Ok)%bind_Ok Hn0.
  apply completeCapacityBlocks_named in H1 as Hn1; [|done].
  apply buildSwitchMaps_spec in H2 as (Hmap & _ & Hn2); [|done].
  case_decide as Hnone; [done|]. apply bind_Ok in Hrun as ([] & Hknown & ([nodes regions] & Hd & [= <-])%bind_Ok).
  assert (∀ n s, attached (m_Switches m2) n s → is_Some (m_Nodes m2 !! n)) as Hnodes.
  { intros n s Hs%(mp_node _ _ Hmap).
    assert (∀ kv, kv ∈ range (switchByNode maps) → is_Some (m_Nodes m2 !! kv.1)) as Hall.
    { revert Hknown. apply (foldM_prefix_inv (λ seen (_ : ()), ∀ kv, kv ∈ seen → is_Some (m_Nodes m2 !! kv.1))).
      - intros kv Hkv. by apply elem_of_nil in Hkv.
      - intros l1 x l2 [] [] _ Hl1. destruct (m_Nodes m2 !! x.1) as [nd|] eqn:Hx; [|done]. intros _ kv.
        intros [Hkv| ->%list_elem_of_singleton]%elem_of_app; [by apply Hl1|]. by eexists. }
    apply (Hall (n, s)). by apply elem_of_range. }
  assert (deriving m2 (range (m_Nodes m2)) (nodes, regions)) as [Hdom Hnode Hreg].
  { revert Hd. apply (foldM_prefix_inv (deriving m2)).
    - split; cbn [fst snd]; [done| |].
      + by intros h node ?%elem_of_nil.
      + intros r i h. rewrite lookup_empty. simpl. rewrite lookup_empty. split; [done|]. by intros [?%elem_of_nil _].
    - intros l1 [h nd] l2 t t' Hl Ht Hstep. eapply deriving_step; [done|done| | |done].
      + apply elem_of_range. rewrite Hl. set_solver.
      + pose proof (range_NoDup (m_Nodes m2)) as Hnd. rewrite Hl, fmap_app in Hnd.
        apply NoDup_app in Hnd as (_ & Hdj & _). intros Hin. apply (Hdj h Hin). by left. }
  cbn [fst snd] in *.
  assert (∀ h, h ∈ (range (m_Nodes m2)).*1 ↔ is_Some (nodes !! h)) as Hkeys.
  { intros h. rewrite <-elem_of_dom, Hdom, elem_of_dom, range_perm. apply elem_of_keys. }
  split; cbn [m_Switches m_Nodes m_Instances].
  - done.
  - intros x p q Hp%(mp_parent _ _ Hmap) Hq%(mp_parent _ _ Hmap). congruence.
  - intros x p. apply (mp_known _ _ Hmap).
  - intros n s t Hs%(mp_node _ _ Hmap) Ht%(mp_node _ _ Hmap). congruence.
  - intros n s Hs%Hnodes. apply elem_of_dom. rewrite Hdom. by apply elem_of_dom.
  - intros h node Hh. apply Hnode; [|done]. apply Hkeys. by eexists.
  - rewrite setInstances_regions. split; [apply sorted_keys_sorted|apply sorted_keys_NoDup].
  - intros ci i h (r & -> & Hr)%list_elem_of_fmap. simpl. rewrite Hreg, Hkeys. split; [tauto|].
    intros (-> & node & Hh & Heq). split_and!; [by eexists|done|eauto].
  - intros h node Hh. exists (MkCI (regionOf node) (default ∅ (regions !! regionOf node))). split; [|done].
    apply list_elem_of_fmap. exists (regionOf node). split; [done|].
    rewrite elem_of_sort_strings, range_perm, elem_of_keys.
    assert (default ∅ (regions !! regionOf node) !! InstanceID h = Some h) as Hin.
    { apply Hreg. split_and!; [apply Hkeys; by eexists|done|eauto]. }
    destruct (regions !! regionOf node); [by eexists|]. simpl in Hin. by rewrite lookup_empty in Hin.
Qed.

(** Loading a model partitions its nodes by region: the regions are listed
    in order and once, no region is empty text, every node is in the entry of
    its region, under its instance ID, and an entry holds nothing else. *)
Theorem model_instances_spec Unmarshal data m :
  NewModelFromData Unmarshal data = Ok m →
  Sorted String.le (Region <$> m_Instances m) ∧ NoDup (Region <$> m_Instances m) ∧
  (∀ h node, m_Nodes m !! h = Some node → regionOf node ≠ "" ∧
     ∃ ci, ci ∈ m_Instances m ∧ Region ci = regionOf node ∧ ci_Instances ci !! InstanceID h = Some h) ∧
  (∀ ci i h, ci ∈ m_Instances m → ci_Instances ci !! i = Some h →
     i = InstanceID h ∧ ∃ node, m_Nodes m !! h = Some node ∧ regionOf node = Region ci).
Proof.
  intros (raw & _ & (m0 & H0 & Hrun)%bind_Ok)%bind_Ok. apply UnmarshalYAML_named in H0 as [Hn _].
  destruct (derive_loaded _ _ Hrun Hn) as [_ _ _ _ _ Hlay [Hs Hnd] Hreg Hev]. split_and!; [done|done| |].
  - intros h node Hh. split; [by apply (Hlay _ _ Hh)|]. destruct (Hev _ _ Hh) as (ci & Hci & Hr).
    exists ci. split_and!; [done|done|]. apply Hreg; [done|]. eauto.
  - intros ci i h Hci. by apply Hreg.
Qed.
End Loading.

(** ** The graph of a model *)

Lemma foldl_insert_lookup {A B} (g : A → string) (f : A → B) (l : list A) (m : gmap string B) k b :
  (∀ x y, x ∈ l → y ∈ l → g x = g y → f x = f y) →
  foldl (λ m x, <[g x := f x]> m) m l !! k = Some b ↔
    (∃ x, x ∈ l ∧ g x = k ∧ f x = b) ∨ ((∀ x, x ∈ l → g x ≠ k) ∧ m !! k = Some b).
Proof.
  induction l as [|x l IH] using rev_ind; intros Hf.
  { simpl. setoid_rewrite elem_of_nil. naive_solver. }
  rewrite foldl_snoc. setoid_rewrite elem_of_app. setoid_rewrite list_elem_of_singleton.
  destruct (decide (g x = k)) as [<-|Hne].
  - rewrite lookup_insert_eq. split.
    + intros [= <-]. left. exists x. auto.
    + intros [(y & [Hy| ->] & Hg & <-)|[Hall _]]; [|done|by destruct (Hall x); auto].
      f_equal. apply Hf; [| |done]; apply elem_of_app; [right; by left|by left].
  - rewrite lookup_insert_ne by done. rewrite IH; [naive_solver|].
    intros a b' Ha Hb. apply Hf; apply elem_of_app; by left.
Qed.

(** Only the children of one vertex change. *)
Definition touched (v : nat) (s s' : store) (vs : gmap string (option nat)) : Prop :=
  next s' = next s ∧ (∀ l, l ≠ v → deref (cells s') l = deref (cells s) l) ∧
  deref (cells s') v = MkVertex (v_Name (deref (cells s) v)) (v_ID (deref (cells s) v)) vs.

Lemma touched_ID v s s' vs l : touched v s s' vs → v_ID (deref (cells s') l) = v_ID (deref (cells s) l).
Proof. intros (_ & Ho & Hv). destruct (decide (l = v)) as [->|Hne]; [by rewrite Hv|by rewrite Ho]. Qed.

Lemma touched_trans v s s1 s2 vs1 vs2 : touched v s s1 vs1 → touched v s1 s2 vs2 → touched v s s2 vs2.
Proof.
  intros (Hn1 & Ho1 & Hv1) (Hn2 & Ho2 & Hv2). split_and!; [congruence|intros l Hl; by rewrite Ho2, Ho1|].
  by rewrite Hv2, Hv1.
Qed.

Lemma foldl_touched {A} (v : nat) (g : store → A → string) (g' : A → string) (f : A → option nat) (l : list A) s :
  (∀ s' x, x ∈ l → (∀ i, v_ID (deref (cells s') i) = v_ID (deref (cells s) i)) → g s' x = g' x) →
  touched v s (foldl (λ s x, update s v (addChild (g s x) (f x))) s l)
    (foldl (λ vs x, <[g' x := f x]> vs) (Vertices (deref (cells s) v)) l).
Proof.
  induction l as [|x l IH] using rev_ind; intros Hg.
  { split_and!; [done|done|]. simpl. by destruct (deref (cells s) v). }
  assert (touched v s (foldl (λ s x, update s v (addChild (g s x) (f x))) s l)
    (foldl (λ vs x, <[g' x := f x]> vs) (Vertices (deref (cells s) v)) l)) as Ht.
  { apply IH. intros s' y Hy. apply Hg, elem_of_app. by left. }
  rewrite !foldl_snoc.
  set (s1 := foldl _ s l) in *. set (vs1 := foldl _ _ l) in *.
  assert (g s1 x = g' x) as ->.
  { apply Hg; [apply elem_of_app; right; by left|]. intros i. by eapply touched_ID. }
  destruct Ht as (Hn & Ho & Hv). split_and!.
  - by rewrite next_update.
  - intros i Hi. rewrite deref_update, decide_False by done. by apply Ho.
  - rewrite deref_update, decide_True by done. by rewrite Hv.
Qed.

Section Graph.
Context `{RangeOrder} (m : Model).
Context (Hld : loaded m) (Hids : ∀ h, is_Some (m_Nodes m !! h) → m_Switches m !! InstanceID h = None).

Definition i2n : gmap string string := foldl (λ i2n kv, <[InstanceID kv.1 := kv.1]> i2n) ∅ (range (m_Nodes m)).

Lemma i2n_lookup h : is_Some (m_Nodes m !! h) → i2n !! InstanceID h = Some h.
Proof.
  intros [node Hh]. unfold i2n. rewrite (foldl_insert_lookup (λ kv, InstanceID kv.1) (λ kv, kv.1)).
  - left. exists (h, node). by rewrite elem_of_range.
  - intros x y _ _. apply InstanceID_inj.
Qed.

(** Every node and every switch has a vertex of its own. *)
Record vertices (ns ss : list string) (st : vertexMaps) : Prop := {
  vx_node : ∀ h, is_Some (nodeVertexMap st !! h) ↔ h ∈ ns;
  vx_switch : ∀ x, is_Some (swVertexMap st !! x) ↔ x ∈ ss;
  vx_nodeV : ∀ h l, nodeVertexMap st !! h = Some l →
    (l < next (v_store st))%nat ∧ deref (cells (v_store st)) l = MkVertex h (InstanceID h) ∅;
  vx_switchV : ∀ x l, swVertexMap st !! x = Some l →
    (l < next (v_store st))%nat ∧ deref (cells (v_store st)) l = MkVertex "" x ∅
}.

Lemma deref_new_old s v l : (l < next s)%nat → deref (cells (new s v).1) l = deref (cells s) l.
Proof. intros Hl. by rewrite deref_new, decide_False by lia. Qed.

Lemma nodeVertex_step ns ss st h node :
  vertices ns ss st → is_Some (m_Nodes m !! h) → vertices (ns ++ [h]) ss (nodeVertex i2n st (h, node)).
Proof.
  intros [Hn Hs HnV HsV] Hh. unfold nodeVertex. cbn [fst]. rewrite i2n_lookup by done. cbn [from_option id].
  set (vx := MkVertex h (InstanceID h) ∅). pose proof (next_new (v_store st) vx) as Hnext.
  pose proof (deref_new (v_store st) vx (next (v_store st))) as Hd. rewrite decide_True in Hd by done.
  pose proof (deref_new_old (v_store st) vx) as Hold.
  change (new (v_store st) vx) with ((new (v_store st) vx).1, next (v_store st)). cbn [fst] in *.
  split; cbn [v_store nodeVertexMap swVertexMap].
  - intros x. rewrite lookup_insert_is_Some', Hn, elem_of_app, list_elem_of_singleton. naive_solver.
  - done.
  - intros x l. destruct (decide (h = x)) as [<-|Hne].
    + rewrite lookup_insert_eq. intros [= <-]. split; [lia|done].
    + rewrite lookup_insert_ne by done. intros [Hl Hx]%HnV. rewrite Hold by done. split; [lia|done].
  - intros x l [Hl Hx]%HsV. rewrite Hold by done. split; [lia|done].
Qed.

Lemma switchVertex_step ns ss st x sw :
  vertices ns ss st → sw_Name sw = x → vertices ns (ss ++ [x]) (switchVertex st (x, sw)).
Proof.
  intros [Hn Hs HnV HsV] <-. unfold switchVertex. cbn [snd]. set (x := sw_Name sw).
  set (vx := MkVertex "" x ∅). pose proof (next_new (v_store st) vx) as Hnext.
  pose proof (deref_new (v_store st) vx (next (v_store st))) as Hd. rewrite decide_True in Hd by done.
  pose proof (deref_new_old (v_store st) vx) as Hold.
  change (new (v_store st) vx) with ((new (v_store st) vx).1, next (v_store st)). cbn [fst] in *.
  split; cbn [v_store nodeVertexMap swVertexMap].
  - done.
  - intros y. rewrite lookup_insert_is_Some', Hs, elem_of_app, list_elem_of_singleton. naive_solver.
  - intros y l [Hl Hx]%HnV. rewrite Hold by done. split; [lia|done].
  - intros y l. destruct (decide (x = y)) as [<-|Hne].
    + rewrite lookup_insert_eq. intros [= <-]. split; [lia|done].
    + rewrite lookup_insert_ne by done. intros [Hl Hx]%HsV. rewrite Hold by done. split; [lia|done].
Qed.

Definition allVertices : vertexMaps :=
  foldl switchVertex (foldl (nodeVertex i2n) (MkVertices (MkStore ∅ 0) ∅ ∅) (range (m_Nodes m)))
    (range (m_Switches m)).

Lemma allVertices_spec : vertices (range (m_Nodes m)).*1 (range (m_Switches m)).*1 allVertices.
Proof.
  unfold allVertices.
  assert (vertices (range (m_Nodes m)).*1 []
    (foldl (nodeVertex i2n) (MkVertices (MkStore ∅ 0) ∅ ∅) (range (m_Nodes m)))) as Hn.
  { apply (foldl_prefix_inv (λ seen st, vertices seen.*1 [] st)).
    - split; simpl; intros x; rewrite lookup_empty; try done; rewrite elem_of_nil; split; try done; by intros [].
    - intros l1 [h node] l2 t Hl Ht. rewrite fmap_app. apply nodeVertex_step; [done|].
      exists node. apply elem_of_range. rewrite Hl. set_solver. }
  apply (foldl_prefix_inv (λ seen st, vertices (range (m_Nodes m)).*1 seen.*1 st)); [done|].
  intros l1 [x sw] l2 t Hl Ht. rewrite fmap_app. apply switchVertex_step; [done|].
  apply (ld_named _ Hld). apply elem_of_range. rewrite Hl. set_solver.
Qed.

(** The children of a switch: its nodes and its sub-switches. *)
Definition connected (st : vertexMaps) (sw : Switch) (vs : gmap string (option nat)) : Prop :=
  ∀ k oc, vs !! k = Some oc ↔
    (∃ n, n ∈ sw_Nodes sw ∧ k = InstanceID n ∧ oc = nodeVertexMap st !! n) ∨
    (k ∈ Switches sw ∧ oc = swVertexMap st !! k).

Let st := allVertices.
Let HV := allVertices_spec.

Lemma node_keys h : h ∈ (range (m_Nodes m)).*1 ↔ is_Some (m_Nodes m !! h).
Proof. rewrite range_perm. apply elem_of_keys. Qed.
Lemma switch_keys x : x ∈ (range (m_Switches m)).*1 ↔ is_Some (m_Switches m !! x).
Proof. rewrite range_perm. apply elem_of_keys. Qed.

Lemma attached_vertex x sw n : m_Switches m !! x = Some sw → n ∈ sw_Nodes sw →
  is_Some (m_Nodes m !! n) ∧ ∃ l, nodeVertexMap st !! n = Some l.
Proof.
  intros Hx Hn. assert (is_Some (m_Nodes m !! n)) as Hs by (apply (ld_node _ Hld n x); by exists sw).
  split; [done|]. apply (vx_node _ _ _ HV). by apply node_keys.
Qed.

Lemma connectSwitch_spec s x sw v :
  m_Switches m !! x = Some sw → swVertexMap st !! x = Some v → Vertices (deref (cells s) v) = ∅ →
  (∀ i, (i < next (v_store st))%nat → v_ID (deref (cells s) i) = v_ID (deref (cells (v_store st)) i)) →
  ∃ vs, touched v s (connectSwitch st s sw) vs ∧ connected st sw vs.
Proof.
  intros Hx Hv Hempty Hsame. unfold connectSwitch.
  assert (sw_Name sw = x) as -> by (by apply (ld_named _ Hld)). rewrite Hv. cbv zeta.
  set (s1 := foldl _ s (Switches sw)).
  set (vs1 := foldl (λ vs x, <[x := swVertexMap st !! x]> vs) (∅ : gmap string (option nat)) (Switches sw)).
  assert (touched v s s1 vs1) as H1.
  { unfold vs1. rewrite <-Hempty. by apply (foldl_touched v (λ _ x, x) (λ x, x) (λ x, swVertexMap st !! x)). }
  assert (foldl (λ s node, match nodeVertexMap st !! node with
                           | Some n => update s v (addChild (v_ID (deref (cells s) n)) (Some n))
                           | None => s
                           end) s1 (sw_Nodes sw) =
    foldl (λ s node, update s v (addChild (default "" ((λ n, v_ID (deref (cells s) n)) <$> nodeVertexMap st !! node))
                                   (nodeVertexMap st !! node))) s1 (sw_Nodes sw)) as ->.
  { assert (∀ n, n ∈ sw_Nodes sw → ∃ l, nodeVertexMap st !! n = Some l) as Hall.
    { intros n Hn. by eapply attached_vertex. }
    revert Hall. generalize (sw_Nodes sw) as ns. clearbody s1. clear. intros ns. revert s1.
    induction ns as [|n ns IH]; intros s1 Hall; [done|]. simpl.
    destruct (Hall n ltac:(by left)) as [l ->]. apply IH. intros n' Hn'. apply Hall. by right. }
  exists (foldl (λ vs n, <[InstanceID n := nodeVertexMap st !! n]> vs) vs1 (sw_Nodes sw)). split.
  { eapply touched_trans; [done|]. replace vs1 with (Vertices (deref (cells s1) v)) by (by destruct H1 as (_ & _ & ->)).
    apply (foldl_touched v (λ s node, default "" ((λ n, v_ID (deref (cells s) n)) <$> nodeVertexMap st !! node))
      InstanceID (λ node, nodeVertexMap st !! node)).
    intros s' n Hn Hid. destruct (attached_vertex _ _ _ Hx Hn) as [_ [l Hl]].
    destruct (vx_nodeV _ _ _ HV _ _ Hl) as [Hlt Hd]. fold st in Hlt, Hd. rewrite Hl. simpl.
    rewrite Hid, (touched_ID _ _ _ _ _ H1), Hsame, Hd by done. done. }
  intros k oc.
  rewrite (foldl_insert_lookup InstanceID (λ node, nodeVertexMap st !! node)) by (intros ???? ->%InstanceID_inj; done).
  unfold vs1. rewrite (foldl_insert_lookup (λ x, x) (λ y, swVertexMap st !! y)) by naive_solver.
  rewrite lookup_empty. split; [naive_solver|].
  intros [(n & Hn & -> & ->)|[Hk ->]]; [left; eauto|right]. split; [|left; eauto].
  intros n Hn <-. assert (is_Some (m_Switches m !! InstanceID n)) as [? Hs].
  { apply (ld_known _ Hld (InstanceID n) x). by exists sw. }
  rewrite Hids in Hs; [done|]. by destruct (attached_vertex _ _ _ Hx Hn).
Qed.

Record connecting (seen : list string) (s : store) : Prop := {
  cn_next : next s = next (v_store st);
  cn_id : ∀ i, (i < next (v_store st))%nat → v_ID (deref (cells s) i) = v_ID (deref (cells (v_store st)) i);
  cn_node : ∀ h l, nodeVertexMap st !! h = Some l → deref (cells s) l = MkVertex h (InstanceID h) ∅;
  cn_switch : ∀ x l sw, swVertexMap st !! x = Some l → m_Switches m !! x = Some sw →
    v_Name (deref (cells s) l) = "" ∧ v_ID (deref (cells s) l) = x ∧
    if decide (x ∈ seen) then connected st sw (Vertices (deref (cells s) l)) else Vertices (deref (cells s) l) = ∅
}.

Lemma vertices_distinct x l : swVertexMap st !! x = Some l →
  (∀ h, nodeVertexMap st !! h ≠ Some l) ∧ ∀ y, swVertexMap st !! y = Some l → y = x.
Proof.
  intros Hx. destruct (vx_switchV _ _ _ HV _ _ Hx) as [_ Hd]. split.
  - intros h Hh. destruct (vx_nodeV _ _ _ HV _ _ Hh) as [_ Hd']. fold st in Hd, Hd'. rewrite Hd in Hd'.
    injection Hd' as _ ->. assert (is_Some (m_Nodes m !! h)) as Hn.
    { apply node_keys, (vx_node _ _ _ HV). by eexists. }
    assert (is_Some (m_Switches m !! InstanceID h)) as [? Hs].
    { apply switch_keys, (vx_switch _ _ _ HV). by eexists. }
    by rewrite Hids in Hs.
  - intros y Hy. destruct (vx_switchV _ _ _ HV _ _ Hy) as [_ Hd']. fold st in Hd, Hd'. rewrite Hd in Hd'.
    by injection Hd'.
Qed.

Lemma connecting_step seen s x sw :
  connecting seen s → m_Switches m !! x = Some sw → x ∉ seen → connecting (seen ++ [x]) (connectSwitch st s sw).
Proof.
  intros [Hn Hid Hnode Hsw] Hx Hnew.
  assert (is_Some (swVertexMap st !! x)) as [v Hv] by (apply (vx_switch _ _ _ HV), switch_keys; by eexists).
  destruct (vertices_distinct _ _ Hv) as [Hdn Hds].
  destruct (Hsw _ _ _ Hv Hx) as (Hvn & Hvi & Hve). rewrite decide_False in Hve by done.
  destruct (connectSwitch_spec s x sw v Hx Hv Hve Hid) as (vs & Ht & Hc).
  pose proof Ht as (Hn' & Ho & Hv'). split.
  - congruence.
  - intros i Hi. rewrite (touched_ID _ _ _ _ _ Ht). by apply Hid.
  - intros h l Hl. rewrite Ho; [by apply Hnode|]. intros ->. by apply (Hdn h).
  - intros y l sy Hl Hy. destruct (decide (l = v)) as [->|Hne].
    + assert (y = x) as -> by (by apply Hds). simplify_eq. rewrite Hv'. simpl.
      split_and!; [done|done|]. rewrite decide_True; [done|]. apply elem_of_app. right. by left.
    + rewrite Ho by done. destruct (Hsw _ _ _ Hl Hy) as (? & ? & Hrest). split_and!; [done|done|].
      assert (y ≠ x) as Hyx by (intros ->; congruence).
      destruct (decide (y ∈ seen)) as [Hin|Hin].
      * rewrite decide_True; [done|]. apply elem_of_app. by left.
      * rewrite decide_False; [done|]. intros [?| ->%list_elem_of_singleton]%elem_of_app; done.
Qed.

Definition switchStore : store :=
  foldl (λ s kv, connectSwitch st s kv.2) (v_store st) (range (m_Switches m)).

Lemma switchStore_spec : connecting (range (m_Switches m)).*1 switchStore.
Proof.
  apply (foldl_prefix_inv (λ seen s, connecting seen.*1 s)).
  - split; [done|done| |].
    + intros h l Hl. by apply (vx_nodeV _ _ _ HV).
    + intros x l sw Hl _. destruct (vx_switchV _ _ _ HV _ _ Hl) as [_ Hd]. fold st in Hd. rewrite Hd. done.
  - intros l1 [x sw] l2 t Hl Ht. rewrite fmap_app. apply connecting_step; [done| |].
    + apply elem_of_range. rewrite Hl. set_solver.
    + pose proof (range_NoDup (m_Switches m)) as Hnd. rewrite Hl, fmap_app in Hnd.
      apply NoDup_app in Hnd as (_ & Hd & _). intros Hin. apply (Hd x Hin). by left.
Qed.

(** *** The roots *)

Lemma subs_false (l : list string) (r : gmap string bool) k :
  foldl (λ roots subsw, <[subsw := false]> roots) r l !! k = if decide (k ∈ l) then Some false else r !! k.
Proof.
  induction l as [|x l IH] using rev_ind; [done|]. rewrite foldl_snoc.
  destruct (decide (x = k)) as [->|Hne].
  - rewrite lookup_insert_eq, decide_True; [done|]. apply elem_of_app. right. by left.
  - rewrite lookup_insert_ne, IH by done. apply decide_ext. rewrite elem_of_app, list_elem_of_singleton. naive_solver.
Qed.

Lemma rootSwitches_spec k :
  rootSwitches m !! k = Some true ↔ is_Some (m_Switches m !! k) ∧ ∀ p, ¬ par (m_Switches m) k p.
Proof.
  unfold rootSwitches. set (r0 := foldl _ ∅ _).
  assert (∀ b, r0 !! k = Some b ↔ b = true ∧ is_Some (m_Switches m !! k)) as H0.
  { intros b. unfold r0. rewrite (foldl_insert_lookup (λ kv, sw_Name kv.2) (λ _, true)) by done.
    rewrite lookup_empty. split.
    - intros [([x sw] & Hin%elem_of_range & Hk & <-)|[_ ?]]; [|done]. split; [done|]. simpl in Hk.
      rewrite (ld_named _ Hld _ _ Hin) in Hk. subst. by eexists.
    - intros [-> [sw Hk]]. left. exists (k, sw). rewrite elem_of_range. split_and!; [done| |done].
      by apply (ld_named _ Hld). }
  assert (∀ es, foldl (λ roots kv, foldl (λ roots subsw, <[subsw := false]> roots) roots (Switches kv.2)) r0 es !! k =
    Some true ↔ r0 !! k = Some true ∧ ∀ kv : string * Switch, kv ∈ es → k ∉ Switches kv.2) as Hes.
  { induction es as [|kv es IH] using rev_ind.
    - simpl. setoid_rewrite elem_of_nil. naive_solver.
    - rewrite foldl_snoc, subs_false. setoid_rewrite elem_of_app. setoid_rewrite list_elem_of_singleton.
      case_decide; [naive_solver|]. rewrite IH. naive_solver. }
  rewrite Hes, H0. split.
  - intros [[_ ?] Hall]. split; [done|]. intros p (sw & Hp & Hk). apply (Hall (p, sw)); [|done]. by apply elem_of_range.
  - intros [? Hno]. split; [done|]. intros [p sw] Hin%elem_of_range Hk. apply (Hno p). by exists sw.
Qed.

(** The finished graph: the vertices of nodes and switches, and the hidden
    root above the root switches. *)
Definition treeRoot : nat := next switchStore.
Definition treeHeap : heap :=
  cells (foldl (λ s kv, if kv.2 : bool then update s treeRoot (addChild kv.1 (swVertexMap st !! kv.1)) else s)
           (new switchStore (MkVertex "" "" ∅)).1 (range (rootSwitches m))).

Lemma ToGraph_tree insts :
  g_heap (ToGraph m insts).1 = treeHeap ∧ Tiers (ToGraph m insts).1 = Some treeRoot.
Proof. done. Qed.

Lemma treeHeap_spec :
  (∀ l, (l < treeRoot)%nat → deref treeHeap l = deref (cells switchStore) l) ∧
  v_Name (deref treeHeap treeRoot) = "" ∧
  ∀ k oc, Vertices (deref treeHeap treeRoot) !! k = Some oc ↔
    (is_Some (m_Switches m !! k) ∧ ∀ p, ¬ par (m_Switches m) k p) ∧ oc = swVertexMap st !! k.
Proof.
  unfold treeHeap. set (s1 := (new switchStore (MkVertex "" "" ∅)).1).
  set (roots := filter (λ kv : string * bool, kv.2 = true) (range (rootSwitches m))).
  assert (foldl (λ s kv, if kv.2 : bool then update s treeRoot (addChild kv.1 (swVertexMap st !! kv.1)) else s)
    s1 (range (rootSwitches m)) =
    foldl (λ s kv, update s treeRoot (addChild kv.1 (swVertexMap st !! kv.1))) s1 roots) as ->.
  { unfold roots. generalize (range (rootSwitches m)) as es. clearbody s1. clear. intros es. revert s1.
    induction es as [|[k []] es IH]; intros s1; [done|..].
    - rewrite filter_cons_True by done. apply IH.
    - rewrite filter_cons_False by done. apply IH. }
  pose proof (foldl_touched treeRoot (λ _ kv, kv.1) (λ kv : string * bool, kv.1) (λ kv, swVertexMap st !! kv.1)
    roots s1 ltac:(done)) as (_ & Ho & Hv).
  assert (deref (cells s1) treeRoot = MkVertex "" "" ∅) as Hroot.
  { unfold s1. rewrite deref_new. by rewrite decide_True. }
  cbv beta in Ho, Hv. split_and!.
  - intros l Hl. rewrite Ho by lia. unfold s1. rewrite deref_new, decide_False by (unfold treeRoot in Hl; lia). done.
  - by rewrite Hv, Hroot.
  - intros k oc. rewrite Hv, Hroot. cbn [Vertices].
    rewrite (foldl_insert_lookup (λ kv : string * bool, kv.1) (λ kv, swVertexMap st !! kv.1)) by (by intros ?? _ _ ->).
    rewrite lookup_empty, <-rootSwitches_spec. unfold roots. setoid_rewrite list_elem_of_filter. split.
    + intros [([k' b] & [Hb Hin%elem_of_range] & Hk & <-)|[_ ?]]; [|done]. simpl in *. by subst.
    + intros [Hk ->]. left. exists (k, true). by rewrite elem_of_range.
Qed.

Lemma below_root h l : nodeVertexMap st !! h = Some l ∨ swVertexMap st !! h = Some l → (l < treeRoot)%nat.
Proof.
  unfold treeRoot. rewrite (cn_next _ _ switchStore_spec).
  intros [Hl|Hl]; [by apply (vx_nodeV _ _ _ HV _ _ Hl)|by apply (vx_switchV _ _ _ HV _ _ Hl)].
Qed.

Lemma node_vertex h l : nodeVertexMap st !! h = Some l → deref treeHeap l = MkVertex h (InstanceID h) ∅.
Proof.
  intros Hl. destruct treeHeap_spec as [Ht _]. rewrite Ht by (eapply below_root; eauto).
  by apply (cn_node _ _ switchStore_spec).
Qed.

Lemma switch_vertex x sw : m_Switches m !! x = Some sw →
  ∃ l, swVertexMap st !! x = Some l ∧ v_Name (deref treeHeap l) = "" ∧ connected st sw (Vertices (deref treeHeap l)).
Proof.
  intros Hx. assert (is_Some (swVertexMap st !! x)) as [l Hl] by (apply (vx_switch _ _ _ HV), switch_keys; by eexists).
  exists l. split; [done|]. destruct treeHeap_spec as [Ht _]. rewrite Ht by (eapply below_root; eauto).
  destruct (cn_switch _ _ switchStore_spec _ _ _ Hl Hx) as (Hn & _ & Hc). rewrite decide_True in Hc; [done|].
  apply switch_keys. by eexists.
Qed.

(** *** Paths *)

Lemma up_switch x ls : up (m_Switches m) x ls → is_Some (m_Switches m !! x).
Proof. intros [? ?|? ? ? Hp _]; [done|]. by eapply (ld_known _ Hld). Qed.

Lemma up_unique x ls1 ls2 : up (m_Switches m) x ls1 → up (m_Switches m) x ls2 → ls1 = ls2.
Proof.
  intros H1. revert ls2. induction H1 as [x Hx Hno|x p ls Hp Hup IH]; intros ls2 H2.
  - inversion H2; subst; [done|]. by destruct (Hno p).
  - inversion H2 as [? ? Hno|? q ? Hq Hup']; subst; [by destruct (Hno p)|].
    assert (q = p) as -> by (by eapply (ld_parent _ Hld)). f_equal. by apply IH.
Qed.

Lemma switch_path x ls : up (m_Switches m) x ls →
  ∃ l, swVertexMap st !! x = Some l ∧ lookupPath treeHeap treeRoot (reverse ls) = Some l.
Proof.
  induction 1 as [x [sw Hx] Hno|x p ls Hp Hup IH].
  - destruct (switch_vertex _ _ Hx) as (l & Hl & _). exists l. split; [done|]. simpl.
    destruct treeHeap_spec as (_ & _ & Hr).
    by rewrite (proj2 (Hr x (Some l)) (conj (conj (ex_intro _ sw Hx) Hno) (eq_sym Hl))).
  - destruct IH as (lp & Hlp & Hpath). destruct Hp as (sp & Hsp & Hin).
    assert (is_Some (m_Switches m !! x)) as [sw Hx] by (apply (ld_known _ Hld x p); by exists sp).
    destruct (switch_vertex _ _ Hx) as (l & Hl & _). exists l. split; [done|].
    destruct (switch_vertex _ _ Hsp) as (lp' & Hlp' & _ & Hc). simplify_eq.
    rewrite reverse_cons, lookupPath_app, Hpath. simpl.
    by rewrite (proj2 (Hc x (Some l)) (or_intror (conj Hin (eq_sym Hl)))).
Qed.

Lemma node_path x ls h : up (m_Switches m) x ls → attached (m_Switches m) h x →
  ∃ l, lookupPath treeHeap treeRoot (reverse ls ++ [InstanceID h]) = Some l ∧
    deref treeHeap l = MkVertex h (InstanceID h) ∅.
Proof.
  intros Hup (sw & Hx & Hin). destruct (switch_path _ _ Hup) as (lx & Hlx & Hpath).
  destruct (switch_vertex _ _ Hx) as (lx' & Hlx' & _ & Hc). simplify_eq.
  destruct (attached_vertex _ _ _ Hx Hin) as [_ [l Hl]]. exists l. split; [|by apply node_vertex].
  rewrite lookupPath_app, Hpath. simpl.
  by rewrite (proj2 (Hc (InstanceID h) (Some l)) (or_introl (ex_intro _ h (conj Hin (conj eq_refl (eq_sym Hl)))))).
Qed.

(** Every path from the root is one of these. *)
Lemma path_cases ks l : lookupPath treeHeap treeRoot ks = Some l →
  (ks = [] ∧ l = treeRoot) ∨
  (∃ x ls, up (m_Switches m) x ls ∧ ks = reverse ls ∧ swVertexMap st !! x = Some l) ∨
  (∃ x ls h, up (m_Switches m) x ls ∧ attached (m_Switches m) h x ∧ ks = reverse ls ++ [InstanceID h] ∧
     nodeVertexMap st !! h = Some l).
Proof.
  revert l. induction ks as [|k ks IH] using rev_ind; intros l; [intros [= <-]; by left|].
  rewrite lookupPath_app. intros (lp & Hlp & Hk)%bind_Some. simpl in Hk.
  destruct (Vertices (deref treeHeap lp) !! k) as [[l'|]|] eqn:Hv; [|done|done]. injection Hk as ->. right.
  destruct (IH _ Hlp) as [[-> ->]|[(p & ls & Hup & -> & Hp)|(p & ls & h & _ & _ & _ & Hh)]].
  - left. destruct treeHeap_spec as (_ & _ & Hr). apply Hr in Hv as [[Hs Hno] Hl].
    exists k, [k]. split_and!; [by apply up_root|done|done].
  - destruct (up_switch _ _ Hup) as [sp Hsp]. destruct (switch_vertex _ _ Hsp) as (lp' & Hlp' & _ & Hc).
    simplify_eq. apply Hc in Hv as [(n & Hn & -> & Hl)|[Hin Hl]].
    + right. exists p, ls, n. split_and!; [done|by exists sp|done|done].
    + left. exists k, (k :: ls). rewrite reverse_cons. split_and!; [|done|done].
      eapply up_step; [|done]. by exists sp.
  - rewrite (node_vertex _ _ Hh) in Hv. simpl in Hv. by rewrite lookup_empty in Hv.
Qed.
End Graph.

(** C30: The graph of a loaded model has every attached node exactly where its
    derived switches say: the path from the root follows them from the topmost
    switch down and ends at the node, under its instance ID; and every named
    vertex of the graph is such a node on such a path, so no node appears twice
    and unattached nodes do not appear.  No switch may have the instance ID of
    a node, which is [i-] and its host name. *)
Theorem model_graph_paths `{RangeOrder} Unmarshal data m insts :
  NewModelFromData Unmarshal data = Ok m →
  (∀ h, is_Some (m_Nodes m !! h) → m_Switches m !! InstanceID h = None) →
  let g := (ToGraph m insts).1 in
  ∃ root, Tiers g = Some root ∧
    (∀ h node, m_Nodes m !! h = Some node → NetLayers (n_Instance node) ≠ [] →
       ∃ l, lookupPath (g_heap g) root (reverse (NetLayers (n_Instance node)) ++ [InstanceID h]) = Some l ∧
         deref (g_heap g) l = MkVertex h (InstanceID h) ∅) ∧
    (∀ ks l, lookupPath (g_heap g) root ks = Some l → v_Name (deref (g_heap g) l) ≠ "" →
       ∃ h node, m_Nodes m !! h = Some node ∧ v_Name (deref (g_heap g) l) = h ∧ NetLayers (n_Instance node) ≠ [] ∧
         ks = reverse (NetLayers (n_Instance node)) ++ [InstanceID h]).
Proof.
  intros (raw & _ & (m0 & H0 & Hrun)%bind_Ok)%bind_Ok Hids g. apply UnmarshalYAML_named in H0 as [Hn _].
  pose proof (derive_loaded _ _ Hrun Hn) as Hld. destruct (ToGraph_tree m insts) as [Hheap Hroot].
  exists (treeRoot m). split; [done|]. unfold g. rewrite Hheap. split.
  - intros h node Hh Hne. destruct (ld_layers _ Hld _ _ Hh) as [[[? _]|(s & Hat & Hup)] _]; [done|].
    by apply (node_path m Hld Hids s).
  - intros ks l Hl Hname.
    destruct (path_cases m Hld Hids ks l Hl) as [[-> ->]|[(x & ls & Hup & -> & Hx)|(x & ls & h & Hup & Hat & -> & Hh)]].
    + destruct (treeHeap_spec m Hld) as (_ & He & _). done.
    + destruct (up_switch m Hld _ _ Hup) as [sw Hsw].
      destruct (switch_vertex m Hld Hids _ _ Hsw) as (l' & Hl' & He & _). simplify_eq.
    + rewrite (node_vertex m Hld Hids _ _ Hh). simpl. destruct (ld_node _ Hld _ _ Hat) as [node Hnode].
      exists h, node. split; [done|]. split; [done|].
      destruct (ld_layers _ Hld _ _ Hnode) as [[[_ Hno]|(s & Hat' & Hup')] _]; [by destruct (Hno x)|].
      assert (s = x) as -> by (by eapply (ld_switch _ Hld)).
      rewrite (up_unique m Hld _ _ _ Hup Hup'). split; [|done]. by inversion Hup'.
Qed.

(** ** Example *)

Definition w_raw : gmap string (option Switch) * list CapacityBlock :=
  ({[ "core" := Some (MkSwitch "" {[ LabelTopologyRegion := "west" ]} ∅ ["leaf1"; "leaf2"] []);
      "leaf1" := Some (MkSwitch "leaf1" ∅ {[ annotationAcceleratorDomain := "nvl1" ]} [] []) ]},
   [MkBlock "leaf1" ["n[1-2]"] ∅ ∅; MkBlock "leaf2" ["n3"] {[ LabelTopologyRegion := "east" ]} ∅;
    MkBlock "" ["n4"] ∅ ∅]).
Definition w_unmarshal (_ : string) : result string (gmap string (option Switch) * list CapacityBlock) := Ok w_raw.
Definition w_model : Model :=
  match NewModelFromData w_unmarshal "" with Ok m => m | Err _ => MkModel ∅ ∅ [] [] end.

Example w_model_regions :
  (λ ci, (Region ci, sorted_keys (ci_Instances ci))) <$> m_Instances w_model =
    [("east", ["i-n3"]); ("none", ["i-n4"]); ("west", ["i-n1"; "i-n2"])].
Proof. vm_eq. Qed.
Example w_model_layers :
  ((λ node, NetLayers (n_Instance node)) <$> m_Nodes w_model !! "n2",
   AcceleratorDomain <$> m_Nodes w_model !! "n2") = (Some ["leaf1"; "core"], Some "nvl1").
Proof. vm_eq. Qed.

Lemma model_instances_spec_witness :
  NewModelFromData w_unmarshal "" = Ok w_model ∧ ∃ ci, ci ∈ m_Instances w_model ∧ ci_Instances ci !! "i-n3" = Some "n3".
Proof.
  assert (NewModelFromData w_unmarshal "" = Ok w_model) as Hm by vm_eq. split; [done|].
  destruct (model_instances_spec w_unmarshal "" w_model Hm) as (_ & _ & Hev & _).
  assert (is_Some (m_Nodes w_model !! "n3")) as [node Hn] by (apply (bool_decide_unpack _); vm_compute; exact I).
  destruct (Hev "n3" node Hn) as (_ & ci & Hci & _ & Hi). exists ci. split; [exact Hci|exact Hi].
Defined.

Lemma model_graph_paths_witness :
  ∃ root l, Tiers (ToGraph w_model []).1 = Some root ∧
    lookupPath (g_heap (ToGraph w_model []).1) root ["core"; "leaf1"; "i-n2"] = Some l.
Proof.
  assert (NewModelFromData w_unmarshal "" = Ok w_model) as Hm by vm_eq.
  destruct (model_graph_paths w_unmarshal "" w_model [] Hm) as (root & Hroot & Hpath & _).
  - assert (map_Forall (λ h _, m_Switches w_model !! InstanceID h = None) (m_Nodes w_model)) as Hall
      by (apply (bool_decide_unpack _); vm_compute; exact I).
    intros h [node Hh]. exact (Hall h node Hh).
  - destruct (m_Nodes w_model !! "n2") as [node|] eqn:Hn.
    + assert (NetLayers (n_Instance node) = ["leaf1"; "core"]) as HL.
      { apply (inj Some). change (Some (NetLayers (n_Instance node))) with ((λ nd, NetLayers (n_Instance nd)) <$> Some node).
        rewrite <-Hn. vm_eq. }
      destruct (Hpath "n2" node Hn) as (l & Hl & _); [by rewrite HL|]. rewrite HL in Hl.
      exists root, l. split; [exact Hroot|exact Hl].
    + exfalso. assert (is_Some (m_Nodes w_model !! "n2")) as [? Hs] by (apply (bool_decide_unpack _); vm_compute; exact I).
      congruence.
Defined.

End Models.
