(* ===== verification/GraphEngine.v ===== *)
(** * The graph engine: [pkg/engines/graph/engine.go]

    The engine reports one record per compute node: the switches above it,
    closest first, and its accelerator labels.  Records a provider attached to
    the graph are completed from the tree and the accelerator domains; without
    any, all records are derived from them. *)

From S2P Require Import Prelude GoStrings Domain Topology Network NetworkTree TreeWalk.

Module GraphEngine.
Import Domain Topo NetworkTree TreeWalk.

(** A nil child is dereferenced. *)
Inductive panic := NilVertex.

(** ** Requested nodes

    [eng.requested]: [None] until nodes were resolved.  All values of the map
    are [true], so that it is a set. *)
Definition isRequested (requested : option (gset string)) (id name : string) : bool :=
  match requested with
  | None => true
  | Some r => bool_decide (id ∈ r) || bool_decide (name ∈ r)
  end.

(** ** The walk over the tree *)

Record derivation := MkDerivation {
  instances : gmap string Instance_;
  nameToID : gmap string string
}.

Definition leafID (v : Vertex) : string := if decide (v_ID v = "") then v_Name v else v_ID v.
Definition layerName (v : Vertex) : string := if decide (v_Name v = "") then v_ID v else v_Name v.

(** The record of a compute node below the switches [path], root first. *)
Definition visitLeaf (requested : option (gset string)) (path : list string) (child : Vertex)
    (st : derivation) : derivation :=
  let id := leafID child in
  if decide (id = "") then st
  else if decide (is_Some (instances st !! id)) then st
  else if negb (isRequested requested id (v_Name child)) then st
  else MkDerivation
    (<[id := MkInstance id (reverse path) None []]> (instances st))
    (if decide (v_Name child ≠ "" ∧ v_Name child ≠ id ∧ nameToID st !! v_Name child = None)
     then <[v_Name child := id]> (nameToID st) else nameToID st).

(** [None]: the recursion does not end within [fuel] calls. *)
Fixpoint walk (fuel : nat) (h : heap) (requested : option (gset string)) (l : nat)
    (path : list string) (st : derivation) : option (result panic derivation) :=
  match fuel with
  | O => None
  | S fuel =>
      foldl (λ acc key, match acc with
                        | Some (Ok st) =>
                            match Vertices (deref h l) !! key with
                            | Some (Some w) =>
                                let child := deref h w in
                                if decide (Vertices child = ∅)
                                then Some (Ok (visitLeaf requested path child st))
                                else walk fuel h requested w
                                  (if decide (v_ID child = NoTopology) then path
                                   else path ++ [layerName child]) st
                            | Some None => Some (Err NilVertex)
                            | None => acc
                            end
                        | _ => acc
                        end)
        (Some (Ok st)) (sorted_keys (Vertices (deref h l)))
  end.

(** ** The pass over the accelerator domains *)

Definition resolveHost (st : derivation) (host : HostInfo) : string :=
  let id := InstanceID host in
  let id := if decide (is_Some (instances st !! id)) then id
            else match nameToID st !! HostName host with
                 | Some mapped => mapped
                 | None => if decide (is_Some (instances st !! HostName host)) then HostName host else id
                 end in
  if decide (id = "") then HostName host else id.

Definition addHost (requested : option (gset string)) (domain : string) (st : derivation)
    (host : HostInfo) : derivation :=
  let id := resolveHost st host in
  if decide (id = "") then st
  else
    let found := match instances st !! id with
                 | Some inst => Some inst
                 | None => if isRequested requested id (HostName host)
                           then Some (MkInstance id [] None []) else None
                 end in
    match found with
    | None => st
    | Some inst =>
        if decide (label (Labels inst) KeyTopologyXclrDomain ≠ "") then st
        else
          let labels := <[KeyTopologyXclrDomain := domain]> (default ∅ (Labels inst)) in
          let labels := if decide (SubDomain host = "") then labels
                        else <[KeyTopologyXclrSubDomain := SubDomain host]> labels in
          MkDerivation
            (<[id := MkInstance (i_ID inst) (NetworkLayers inst) (Some labels) (NetLayers inst)]> (instances st))
            (nameToID st)
    end.

Definition addDomains (requested : option (gset string)) (domains : DomainMap) (st : derivation) :
    derivation :=
  foldl (λ st domain,
    let hosts := default ∅ (domains !! domain) in
    foldl (λ st hostKey, match hosts !! hostKey with
                         | Some host => addHost requested domain st host
                         | None => st
                         end) st (sorted_keys hosts)) st (sorted_keys domains).

(** A path of a tree has at most as many vertices as the heap. *)
Definition deriveFuel (h : heap) : nat := S (size h).

Definition deriveInstances (g : Graph) (requested : option (gset string)) :
    option (result panic (gmap string Instance_)) :=
  fmap (M := result panic) (λ st, instances (addDomains requested (default ∅ (Domains g)) st)) <$>
    match Tiers g with
    | Some root => walk (deriveFuel (g_heap g)) (g_heap g) requested root [] (MkDerivation ∅ ∅)
    | None => Some (Ok (MkDerivation ∅ ∅))
    end.

(** ** Attached records *)

Definition fillKey (derived inst : Instance_) (key : string) : Instance_ :=
  let val := label (Labels derived) key in
  if decide (val = "" ∨ label (Labels inst) key ≠ "") then inst
  else if decide (key = KeyTopologyXclrSubDomain ∧
                  label (Labels inst) KeyTopologyXclrDomain ≠ label (Labels derived) KeyTopologyXclrDomain)
  then inst
  else MkInstance (i_ID inst) (NetworkLayers inst) (Some (<[key := val]> (default ∅ (Labels inst)))) (NetLayers inst).

Definition fillInstance (inst derived : Instance_) : Instance_ :=
  let inst := if decide (NetworkLayers inst = [] ∧ NetworkLayers derived ≠ [])
              then MkInstance (i_ID inst) (NetworkLayers derived) (Labels inst) (NetLayers inst)
              else inst in
  foldl (fillKey derived) inst [KeyTopologyXclrDomain; KeyTopologyXclrSubDomain].

Definition zeroInstance : Instance_ := MkInstance "" [] None [].

Definition graphInstances (graph : option Graph) (requested : option (gset string)) :
    option (result panic (gmap string Instance_)) :=
  match graph with
  | None => Some (Ok ∅)
  | Some g =>
      fmap (M := result panic) (λ derived,
        let attached := default ∅ (g_Instances g) in
        if decide (attached = ∅) then derived
        else map_imap (λ id inst, Some (fillInstance inst (default zeroInstance (derived !! id)))) attached)
      <$> deriveInstances g requested
  end.

Definition makeInstancesDocument (m : gmap string Instance_) : list Instance_ :=
  omap (λ key, m !! key) (sorted_keys m).

(** ** The engine *)

Record GraphEngine := MkEngine {
  TopologyConfigPath : option string;
  requested : option (gset string)
}.

Inductive engineErr :=
| NoNodes
| MarshalFailed (err : string)
| CreateFailed (err : string).

Definition ResolveComputeInstances (eng : GraphEngine) (cis : list ComputeInstances) :
    GraphEngine * result engineErr (list ComputeInstances) :=
  if decide (cis = []) then (eng, Err NoNodes)
  else
    (MkEngine (TopologyConfigPath eng)
       (Some (list_to_set (filter (λ key, key ≠ "")
          (concat ((λ ci, concat ((λ kv : string * string, [kv.1; kv.2]) <$> map_to_list (ci_Instances ci))) <$> cis))))),
     Ok cis).

Section Output.
(** [json.Marshal], and [files.Create] with path and data: the error, if any. *)
Context (Marshal : list Instance_ → result string string) (Create : string → string → option string).

Definition GenerateOutput (eng : GraphEngine) (graph : option Graph) :
    option (result panic (result engineErr string)) :=
  fmap (M := result panic) (λ insts,
    match Marshal (makeInstancesDocument insts) with
    | Err err => Err (MarshalFailed err)
    | Ok data =>
        match TopologyConfigPath eng with
        | None => Ok data
        | Some path =>
            if decide (path = "") then Ok data
            else match Create path data with
                 | Some err => Err (CreateFailed err)
                 | None => Ok ("OK" +:+ newline)
                 end
        end
    end) <$> graphInstances graph (requested eng).
End Output.

(** ** The walk as a loop over the leaves

    The enumeration of [TreeWalk] with the keys of every map sorted. *)
Definition range_sorted : RangeOrder.
Proof.
  refine {| range A m := omap (λ k, (k,.) <$> m !! k) (sorted_keys m) |}.
  intros A m. apply NoDup_Permutation; [|apply NoDup_map_to_list|].
  - apply (NoDup_fmap_1 fst). generalize (sorted_keys_NoDup m).
    generalize (sorted_keys m) as ks. induction ks as [|k ks IH]; simpl; [constructor|].
    intros [Hk Hnd]%NoDup_cons. destruct (m !! k); simpl; [|by apply IH].
    apply NoDup_cons. split; [|by apply IH].
    intros ([k' a'] & -> & (k'' & Hin & Heq)%list_elem_of_omap)%list_elem_of_fmap.
    apply fmap_Some in Heq as (a'' & _ & [= -> ->]). done.
  - intros [k a]. rewrite elem_of_map_to_list, list_elem_of_omap. split.
    + intros (k' & _ & (a' & ? & [= -> ->])%fmap_Some). done.
    + intros Hk. exists k. rewrite elem_of_sorted_keys, Hk. split; [by eexists|done].
Defined.

Lemma range_sorted_keys {A} (m : gmap string A) : (@range range_sorted _ m).*1 = sorted_keys m.
Proof.
  simpl. assert (∀ k, k ∈ sorted_keys m → is_Some (m !! k)) as Hin by (intros k; apply elem_of_sorted_keys).
  revert Hin. generalize (sorted_keys m) as ks. induction ks as [|k ks IH]; intros Hin; simpl; [done|].
  destruct (Hin k) as [a ->]; [set_solver|]. csimpl. f_equal.
  apply IH. intros k' Hk'. apply Hin. set_solver.
Qed.

Section Leaves.
Context (h : heap) (req : option (gset string)).

(** The leaves below a vertex in the order of the walk. *)
Definition leaves (fuel : nat) (l : nat) : option (list (list string * nat)) :=
  @leafPaths range_sorted h fuel l.

(** The display names of the switches on a path, root first: the vertices with
    children after the first, the no-topology marker left out. *)
Fixpoint pathNames (l : nat) (ks : list string) : list string :=
  match ks with
  | [] => []
  | k :: ks =>
      match Vertices (deref h l) !! k with
      | Some (Some w) =>
          (if decide (Vertices (deref h w) = ∅ ∨ v_ID (deref h w) = NoTopology) then []
           else [layerName (deref h w)]) ++ pathNames w ks
      | _ => []
      end
  end.

Definition visit (l : nat) (path : list string) (st : derivation) (p : list string * nat) : derivation :=
  visitLeaf req (path ++ pathNames l p.1) (deref h p.2) st.

Definition childLeaves (fuel : nat) (kv : string * option nat) : option (list (list string * nat)) :=
  match kv.2 with
  | Some w => fmap (M := option) (fmap (M := list) (λ p : list string * nat, (kv.1 :: p.1, p.2))) (leaves fuel w)
  | None => None
  end.

Lemma walk_step fuel l path es pss st :
  (∀ kv, kv ∈ es → Vertices (deref h l) !! kv.1 = Some kv.2) →
  mapM (childLeaves fuel) es = Some pss →
  (∀ w ps path st, leaves fuel w = Some ps → Vertices (deref h w) ≠ ∅ →
     walk fuel h req w path st = Some (Ok (foldl (visit w path) st ps))) →
  foldl (λ acc key, match acc with
                    | Some (Ok st) =>
                        match Vertices (deref h l) !! key with
                        | Some (Some w) =>
                            let child := deref h w in
                            if decide (Vertices child = ∅)
                            then Some (Ok (visitLeaf req path child st))
                            else walk fuel h req w
                              (if decide (v_ID child = NoTopology) then path
                               else path ++ [layerName child]) st
                        | Some None => Some (Err NilVertex)
                        | None => acc
                        end
                    | _ => acc
                    end) (Some (Ok st)) es.*1 =
  Some (Ok (foldl (visit l path) st (concat pss))).
Proof.
  intros Hes Hm IH. revert pss st Hes Hm. induction es as [|[k oc] es IHes]; intros pss st Hes Hm.
  { by injection Hm as <-. }
  cbn [mapM] in Hm. apply bind_Some in Hm as (ps & Hps & (pss' & Hm & [= <-])%bind_Some).
  destruct oc as [w|]; [|done]. apply fmap_Some in Hps as (qs & Hq & ->).
  cbn [concat fmap list_fmap foldl]. rewrite foldl_app.
  pose proof (Hes (k, Some w) ltac:(set_solver)) as Hk. cbn [fst snd] in *. rewrite Hk. cbv zeta.
  assert (foldl (visit l path) st ((λ p, (k :: p.1, p.2)) <$> qs) =
    foldl (visit w (if decide (Vertices (deref h w) = ∅ ∨ v_ID (deref h w) = NoTopology) then path
                    else path ++ [layerName (deref h w)])) st qs) as ->.
  { clear -Hk. revert st. induction qs as [|q qs IH]; intros st; csimpl; [done|]. rewrite <-IH. f_equal.
    unfold visit. cbn [fst snd pathNames]. rewrite Hk. f_equal.
    case_decide; simpl; [done|]. by rewrite <-app_assoc. }
  case_decide as Hw.
  - destruct fuel as [|fuel]; [done|]. cbn [leaves leafPaths] in Hq. unfold leaves in Hq. simpl in Hq.
    rewrite decide_True in Hq by done. injection Hq as <-. rewrite decide_True by (by left).
    cbn [foldl]. unfold visit at 2. cbn [fst snd pathNames]. rewrite app_nil_r.
    apply IHes; [set_solver|done].
  - rewrite (IH w qs) by done. rewrite IHes with (pss := pss'); [|set_solver|done].
    destruct (decide (v_ID (deref h w) = NoTopology)) as [Hid|Hid].
    + by rewrite (decide_True (P := _ ∨ _)) by (by right).
    + by rewrite (decide_False (P := _ ∨ _)) by (by intros [?|?]).
Qed.

Lemma walk_leaves fuel l path st ps :
  leaves fuel l = Some ps → Vertices (deref h l) ≠ ∅ →
  walk fuel h req l path st = Some (Ok (foldl (visit l path) st ps)).
Proof.
  revert l path st ps. induction fuel as [|fuel IH]; intros l path st ps Hps Hl; [done|].
  unfold leaves in Hps. cbn [leafPaths] in Hps. rewrite decide_False in Hps by done.
  apply fmap_Some in Hps as (pss & Hm & ->). cbn [walk]. rewrite <-range_sorted_keys.
  apply (walk_step fuel l path _ pss st); [|exact Hm|].
  - intros [k oc] Hin. by apply (@elem_of_range range_sorted).
  - intros w ps' path' st' Hw Hne. by apply IH.
Qed.

(** *** The records of the leaves *)

Definition shown (id : string) (p : list string * nat) : Prop :=
  leafID (deref h p.2) = id ∧ isRequested req id (v_Name (deref h p.2)) = true.
#[local] Instance shown_dec id p : Decision (shown id p).
Proof. unfold shown. apply _. Defined.

(** The first requested leaf with an ID. *)
Definition firstLeaf (ps : list (list string * nat)) (id : string) : option (list string * nat) :=
  head (filter (shown id) ps).

Definition leafRecord (l : nat) (id : string) (p : list string * nat) : Instance_ :=
  MkInstance id (reverse (pathNames l p.1)) None [].

Lemma visit_instances l ps st id :
  id ≠ "" →
  instances (foldl (visit l []) st ps) !! id = instances st !! id ∪ (leafRecord l id <$> firstLeaf ps id).
Proof.
  intros Hid. revert st. induction ps as [|p ps IH]; intros st; [simpl; by destruct (instances st !! id)|].
  cbn [foldl]. rewrite IH. unfold firstLeaf at 2. rewrite filter_cons.
  unfold visit, visitLeaf. cbn [app]. destruct (decide (shown id p)) as [[Hp Hreq]|Hn].
  - rewrite Hp, decide_False by done. simpl. case_decide as Hin.
    + destruct Hin as [inst ->]. by repeat destruct (_ <$> _).
    + apply eq_None_not_Some in Hin as ->. rewrite Hreq. simpl. rewrite lookup_insert_eq.
      by rewrite union_Some_l.
  - cbv zeta. case_decide; [done|]. case_decide; [done|].
    destruct (isRequested _ _ _) eqn:Hr; simpl; [|done].
    rewrite lookup_insert_ne; [done|]. intros <-. by apply Hn.
Qed.

Lemma visit_empty_id l ps st : instances st !! "" = None → instances (foldl (visit l []) st ps) !! "" = None.
Proof.
  intros H0. apply (foldl_inv (λ st, instances st !! "" = None)); [done|]. intros t p _ Ht.
  unfold visit, visitLeaf. cbv zeta. case_decide; [done|]. case_decide; [done|].
  destruct (isRequested _ _ _); simpl; [|done]. by rewrite lookup_insert_ne.
Qed.

Lemma visit_names l ps st n id :
  nameToID (foldl (visit l []) st ps) !! n = Some id →
  nameToID st !! n = Some id ∨ ∃ p, p ∈ ps ∧ shown id p ∧ id ≠ "" ∧ v_Name (deref h p.2) = n.
Proof.
  revert st. induction ps as [|p ps IH]; intros st; cbn [foldl]; [by left|].
  intros [Hn|(q & Hq & ?)]%IH; [|right; exists q; set_solver].
  revert Hn. unfold visit, visitLeaf. cbv zeta. case_decide as Hid; [by left|].
  case_decide; [by left|]. destruct (isRequested _ _ _) eqn:Hr; simpl; [|by left].
  case_decide; [|by left]. rewrite lookup_insert_Some. intros [[<- <-]|[_ ?]]; [|by left].
  right. exists p. split_and!; [set_solver|done..].
Qed.
End Leaves.

(** ** The hosts of the accelerator domains *)

Definition domainHosts (domains : DomainMap) : list (string * HostInfo) :=
  concat ((λ d, let hosts := default ∅ (domains !! d) in
                omap (λ k, (d,.) <$> hosts !! k) (sorted_keys hosts)) <$> sorted_keys domains).

Lemma elem_of_domainHosts domains d host :
  (d, host) ∈ domainHosts domains ↔ ∃ hosts k, domains !! d = Some hosts ∧ hosts !! k = Some host.
Proof.
  unfold domainHosts. rewrite elem_of_concat. split.
  - intros (es & (d' & -> & Hd)%list_elem_of_fmap & (k & Hk & Heq)%list_elem_of_omap).
    apply elem_of_sorted_keys in Hd as [hosts Hd]. rewrite Hd in Heq. simpl in Heq.
    apply fmap_Some in Heq as (host' & Hhost & [= <- <-]). eauto.
  - intros (hosts & k & Hd & Hk). eexists. split.
    + apply list_elem_of_fmap. exists d. split; [done|]. apply elem_of_sorted_keys. by eexists.
    + rewrite Hd. simpl. apply list_elem_of_omap. exists k. rewrite elem_of_sorted_keys, Hk.
      split; [by eexists|done].
Qed.

Lemma addDomains_hosts req domains st :
  addDomains req domains st = foldl (λ st e, addHost req e.1 st e.2) st (domainHosts domains).
Proof.
  unfold addDomains, domainHosts. revert st. generalize (sorted_keys domains) as ds.
  induction ds as [|d ds IH]; intros st; [done|]. csimpl. rewrite foldl_app, <-IH. f_equal.
  generalize (default ∅ (domains !! d)) as hosts. intros hosts.
  revert st. generalize (sorted_keys hosts) as ks. induction ks as [|k ks IHk]; intros st; [done|].
  simpl. destruct (hosts !! k); simpl; by rewrite IHk.
Qed.

Definition hostLabels (d : string) (host : HostInfo) : gmap string string :=
  let labels := {[ KeyTopologyXclrDomain := d ]} in
  if decide (SubDomain host = "") then labels else <[KeyTopologyXclrSubDomain := SubDomain host]> labels.

Lemma label_hostLabels d host : label (Some (hostLabels d host)) KeyTopologyXclrDomain = d.
Proof.
  unfold hostLabels, label. case_decide; simpl; [by rewrite lookup_singleton_eq|].
  rewrite lookup_insert_ne by done. by rewrite lookup_singleton_eq.
Qed.

(** The ID of a host that is no compute node of the tree. *)
Definition hostID (host : HostInfo) : string :=
  if decide (InstanceID host = "") then HostName host else InstanceID host.

(** The host was asked for: by its ID or by its name. *)
Definition hostRequested (req : option (gset string)) (host : HostInfo) : Prop :=
  hostID host ≠ "" ∧ isRequested req (hostID host) (HostName host) = true.

Lemma hostID_or host : InstanceID host = hostID host ∨ HostName host = hostID host.
Proof. unfold hostID. case_decide; tauto. Qed.

Section Domains.
Context (req : option (gset string)) (st0 : derivation).
Context (Hids : ∀ id inst, instances st0 !! id = Some inst → i_ID inst = id ∧ id ≠ "" ∧ Labels inst = None).
Context (Hnames : ∀ n id, nameToID st0 !! n = Some id → is_Some (instances st0 !! id)).

(** A host may be the node with an ID: it carries the ID, or its name is the
    ID or the name of the leaf with the ID. *)
Definition names (host : HostInfo) (id : string) : Prop :=
  InstanceID host = id ∨ HostName host = id ∨ nameToID st0 !! HostName host = Some id.

Record pass (seen : list (string * HostInfo)) (st : derivation) : Prop := {
  pass_names : nameToID st = nameToID st0;
  pass_old : ∀ id inst0, instances st0 !! id = Some inst0 →
    ∃ inst, instances st !! id = Some inst ∧ NetworkLayers inst = NetworkLayers inst0;
  pass_id : ∀ id inst, instances st !! id = Some inst → i_ID inst = id ∧ id ≠ "";
  pass_new : ∀ id inst, instances st !! id = Some inst → instances st0 !! id = None →
    NetworkLayers inst = [] ∧ ∃ e, e ∈ seen ∧ isRequested req id (HostName e.2) = true ∧
      (InstanceID e.2 = id ∨ HostName e.2 = id);
  pass_labels : ∀ id inst, instances st !! id = Some inst → Labels inst = None ∨
    ∃ e, e ∈ seen ∧ names e.2 id ∧ Labels inst = Some (hostLabels e.1 e.2);
  pass_complete : ∀ e id, e ∈ seen → InstanceID e.2 = id → is_Some (instances st0 !! id) →
    ∃ inst, instances st !! id = Some inst ∧ Labels inst ≠ None;
  pass_hosts : ∀ e, e ∈ seen → hostRequested req e.2 →
    ∃ id inst, names e.2 id ∧ instances st !! id = Some inst ∧ Labels inst ≠ None
}.

Lemma pass_init : pass [] st0.
Proof.
  split; [done|by eauto|..].
  - intros id inst (? & ? & ?)%Hids. done.
  - intros id inst ->. done.
  - intros id inst (? & ? & ?)%Hids. by left.
  - intros e id Hin. by apply not_elem_of_nil in Hin.
  - intros e Hin. by apply not_elem_of_nil in Hin.
Qed.

Lemma resolveHost_spec seen st host :
  pass seen st →
  names host (resolveHost st host) ∧
  (is_Some (instances st0 !! InstanceID host) → resolveHost st host = InstanceID host) ∧
  (instances st !! resolveHost st host = None → resolveHost st host = hostID host).
Proof.
  intros Hp. unfold resolveHost, names, hostID. rewrite (pass_names _ _ Hp). cbv zeta.
  destruct (decide (is_Some (instances st !! InstanceID host))) as [Hid|Hid].
  { rewrite decide_False; [|by destruct Hid as [? ?%(pass_id _ _ Hp)]; naive_solver].
    split_and!; [by left|done|]. destruct Hid as [? ->]. done. }
  split_and!.
  - destruct (nameToID st0 !! HostName host) as [mapped|] eqn:Hn.
    + case_decide; [by right; left|]. by right; right.
    + repeat case_decide; tauto.
  - intros [inst0 Hi]. exfalso. apply Hid. destruct (pass_old _ _ Hp _ _ Hi) as (inst & Hinst & _).
    by eexists.
  - destruct (nameToID st0 !! HostName host) as [mapped|] eqn:Hn.
    + destruct (Hnames _ _ Hn) as [inst0 Hi]. rewrite decide_False by naive_solver.
      destruct (pass_old _ _ Hp _ _ Hi) as (inst & Hinst & _). intros. simplify_eq.
    + destruct (decide (is_Some (instances st !! HostName host))) as [[inst Hi]|_]; [|done].
      rewrite decide_False by (by destruct (pass_id _ _ Hp _ _ Hi)). congruence.
Qed.

(** What [addHost] does: nothing, when the host has no ID, is not requested or
    its record has a domain; or it labels a record. *)
Lemma addHost_cases seen st d host :
  pass seen st → (∀ e, e ∈ seen → e.1 ≠ "") →
  let id := resolveHost st host in
  (addHost req d st host = st ∧
     (id = "" ∨ instances st !! id = None ∧ isRequested req id (HostName host) = false ∨
      ∃ inst, instances st !! id = Some inst ∧ Labels inst ≠ None)) ∨
  (id ≠ "" ∧ ∃ layers net,
     addHost req d st host =
       MkDerivation (<[id := MkInstance id layers (Some (hostLabels d host)) net]> (instances st)) (nameToID st) ∧
     ((∃ inst, instances st !! id = Some inst ∧ NetworkLayers inst = layers) ∨
      instances st !! id = None ∧ layers = [] ∧ isRequested req id (HostName host) = true)).
Proof.
  intros Hp Hne id. unfold addHost. fold id. cbv zeta. case_decide as Hid; [by left; eauto|].
  destruct (instances st !! id) as [inst|] eqn:Hi.
  - destruct (pass_id _ _ Hp _ _ Hi) as [Hiid _].
    destruct (pass_labels _ _ Hp _ _ Hi) as [HL|(e & He & _ & HL)]; rewrite HL.
    + right. split; [done|]. rewrite decide_False by (by intros []). rewrite Hiid.
      eexists _, _. split; [|by left; eauto]. done.
    + left. rewrite label_hostLabels. rewrite decide_True by (by apply Hne).
      split; [done|]. right; right. exists inst. by rewrite HL.
  - destruct (isRequested req id (HostName host)) eqn:Hr; [|by left; eauto].
    right. split; [done|]. eexists [], []. split; [|by right]. done.
Qed.

Lemma pass_skip seen st e :
  pass seen st →
  (∀ id, InstanceID e.2 = id → is_Some (instances st0 !! id) →
     ∃ inst, instances st !! id = Some inst ∧ Labels inst ≠ None) →
  (hostRequested req e.2 →
     ∃ id inst, names e.2 id ∧ instances st !! id = Some inst ∧ Labels inst ≠ None) →
  pass (seen ++ [e]) st.
Proof.
  intros Hp H1 H2. destruct Hp. split; try done.
  - intros id inst Hi Hn. destruct (pass_new0 _ _ Hi Hn) as (? & e' & ? & ?).
    split; [done|]. exists e'. split; [apply elem_of_app; by left|done].
  - intros id inst Hi. destruct (pass_labels0 _ _ Hi) as [?|(e' & ? & ?)]; [by left|].
    right. exists e'. split; [apply elem_of_app; by left|done].
  - intros e' id [He| ->%list_elem_of_singleton]%elem_of_app; eauto.
  - intros e' [He| ->%list_elem_of_singleton]%elem_of_app; eauto.
Qed.

(** Giving a record labels keeps what is known of the others. *)
Lemma pass_label seen st d host layers net :
  let id := resolveHost st host in
  pass seen st → id ≠ "" →
  ((∃ inst, instances st !! id = Some inst ∧ NetworkLayers inst = layers) ∨
   instances st !! id = None ∧ layers = [] ∧ isRequested req id (HostName host) = true) →
  pass (seen ++ [(d, host)])
    (MkDerivation (<[id := MkInstance id layers (Some (hostLabels d host)) net]> (instances st)) (nameToID st)).
Proof.
  intros id Hp Hid Hold. destruct (resolveHost_spec _ _ host Hp) as (Hname & Htarget & Hnew).
  fold id in Hname, Htarget, Hnew.
  assert (∀ j inst, instances st !! j = Some inst → Labels inst ≠ None →
    ∃ inst', <[id := MkInstance id layers (Some (hostLabels d host)) net]> (instances st) !! j = Some inst' ∧
      Labels inst' ≠ None) as Hkeep.
  { intros j inst Hj HL. destruct (decide (id = j)) as [<-|]; simplify_map_eq; eauto. }
  split; simpl.
  - apply (pass_names _ _ Hp).
  - intros j inst0 Hj. destruct (pass_old _ _ Hp _ _ Hj) as (inst & Hinst & HL).
    destruct (decide (id = j)) as [<-|]; simplify_map_eq; [|eauto].
    eexists. split; [done|]. simpl. rewrite <-HL.
    destruct Hold as [(inst' & ? & <-)|[? _]]; by simplify_eq.
  - intros j inst. destruct (decide (id = j)) as [<-|]; simplify_map_eq; [by intros [= <-]|].
    apply (pass_id _ _ Hp).
  - intros j inst Hj Hn. destruct (decide (id = j)) as [<-|]; simplify_map_eq.
    + destruct Hold as [(inst' & Hi & <-)|(Hi & -> & Hr)]; simpl.
      * destruct (pass_new _ _ Hp _ _ Hi Hn) as (-> & e & He & ?).
        split; [done|]. exists e. split; [apply elem_of_app; by left|done].
      * split; [done|]. exists (d, host). split_and!; [set_solver|done|]. rewrite (Hnew Hi). apply hostID_or.
    + destruct (pass_new _ _ Hp _ _ Hj Hn) as (-> & e & He & ?).
      split; [done|]. exists e. split; [apply elem_of_app; by left|done].
  - intros j inst Hj. destruct (decide (id = j)) as [<-|]; simplify_map_eq.
    + right. exists (d, host). split_and!; [set_solver|done|done].
    + destruct (pass_labels _ _ Hp _ _ Hj) as [?|(e & He & ?)]; [by left|right].
      exists e. split; [apply elem_of_app; by left|done].
  - intros e j [He| ->%list_elem_of_singleton]%elem_of_app He' Hin; simpl in *.
    + destruct (pass_complete _ _ Hp _ _ He He' Hin) as (inst & Hi & HL). eauto.
    + subst j. rewrite <-(Htarget Hin). eexists. split; [apply lookup_insert_eq|done].
  - intros e [He| ->%list_elem_of_singleton]%elem_of_app Hr; simpl in *.
    + destruct (pass_hosts _ _ Hp _ He Hr) as (j & inst & ? & Hi & HL).
      destruct (Hkeep _ _ Hi HL) as (inst' & ? & ?). eauto.
    + eexists id, _. split_and!; [done|apply lookup_insert_eq|done].
Qed.

Lemma pass_step seen st d host :
  pass seen st → (∀ e, e ∈ seen → e.1 ≠ "") → pass (seen ++ [(d, host)]) (addHost req d st host).
Proof.
  intros Hp Hne. destruct (addHost_cases _ _ d host Hp Hne) as [[-> Hskip]|(Hid & layers & net & -> & Hold)].
  - destruct (resolveHost_spec _ _ host Hp) as (Hname & Htarget & Hnew).
    apply pass_skip; [done|..]; simpl.
    + intros j <- Hin. rewrite <-(Htarget Hin). destruct Hskip as [Hid|[[Hn _]|?]]; [| |done].
      * rewrite (Htarget Hin) in Hid. destruct Hin as [inst0 Hi]. apply Hids in Hi. naive_solver.
      * rewrite (Htarget Hin) in Hn. destruct Hin as [inst0 Hi].
        destruct (pass_old _ _ Hp _ _ Hi) as (? & ? & _). by simplify_eq.
    + intros [Hid Hr]. destruct Hskip as [Hempty|[[Hn Hf]|(inst & ? & ?)]]; [| |by eauto].
      * exfalso. apply Hid. rewrite <-Hnew; [done|]. rewrite Hempty.
        destruct (instances st !! "") as [inst|] eqn:Hi; [|done]. by destruct (pass_id _ _ Hp _ _ Hi).
      * rewrite (Hnew Hn) in Hf. congruence.
  - by apply pass_label.
Qed.

Lemma pass_all es : (∀ e, e ∈ es → e.1 ≠ "") → pass es (foldl (λ st e, addHost req e.1 st e.2) st0 es).
Proof.
  intros Hne. apply (foldl_prefix_inv (λ seen st, pass seen st)); [apply pass_init|].
  intros l1 [d host] l2 t -> Ht. apply pass_step; [done|]. intros e He. apply Hne. set_solver.
Qed.
End Domains.

(** ** Derived records *)

(** The host is in the domain. *)
Definition inDomain (g : Graph) (d : string) (host : HostInfo) : Prop :=
  ∃ hosts k, default ∅ (Domains g) !! d = Some hosts ∧ hosts !! k = Some host.

(** What the walk hands to the pass over the domains. *)
Lemma walked h req root ps :
  let st := foldl (visit h req root []) (MkDerivation ∅ ∅) ps in
  (∀ id inst, instances st !! id = Some inst →
     i_ID inst = id ∧ id ≠ "" ∧ Labels inst = None) ∧
  (∀ n id, nameToID st !! n = Some id →
     is_Some (instances st !! id) ∧ ∃ p, p ∈ ps ∧ shown h req id p ∧ v_Name (deref h p.2) = n) ∧
  (∀ id, id ≠ "" → instances st !! id = leafRecord h root id <$> firstLeaf h req ps id).
Proof.
  intros st.
  assert (∀ id, id ≠ "" → instances st !! id = leafRecord h root id <$> firstLeaf h req ps id) as Hrec.
  { intros id Hid. unfold st. rewrite visit_instances by done. simpl. rewrite lookup_empty.
    by destruct (firstLeaf _ _ _ _). }
  split_and!; [| |done].
  - intros id inst Hi. destruct (decide (id = "")) as [->|Hid].
    { unfold st in Hi. by rewrite visit_empty_id in Hi. }
    rewrite (Hrec id Hid) in Hi. apply fmap_Some in Hi as (p & _ & ->). done.
  - intros n id Hn. apply visit_names in Hn as [Hn|(p & Hp & Hs & Hid & Hname)]; [done|].
    split; [|by exists p]. rewrite (Hrec id Hid). apply fmap_is_Some. unfold firstLeaf.
    assert (p ∈ filter (shown h req id) ps) as Hin by (by apply list_elem_of_filter).
    destruct (filter (shown h req id) ps); [by apply not_elem_of_nil in Hin|by eexists].
Qed.

(** C28: On a tree [deriveInstances] returns, and its records are these.  Every
    requested compute node with an ID has one, whose layers are the switches
    above the node, closest first; when the ID is repeated they are those of the
    first such node in the order of the keys.  Any other record belongs to a
    requested host of an accelerator domain and has no layers; in particular
    nothing is reported that was not requested.  The labels of a record are the
    domain and sub-domain of a host that carries its ID or the name of its node,
    and a host of a domain has a record, with labels, when it was requested by its
    ID or by its name, or when it has the ID of a reported node, whose record is
    the one labelled.  A host without an ID goes by its name. *)
Theorem derive_instances_spec g req root :
  let h := g_heap g in
  Tiers g = Some root → is_tree h root → Vertices (deref h root) ≠ ∅ → default ∅ (Domains g) !! "" = None →
  ∃ ps m, deriveInstances g req = Some (Ok m) ∧ leaves h (deriveFuel h) root = Some ps ∧
    (∀ ks l, (ks, l) ∈ ps ↔ lookupPath h root ks = Some l ∧ Vertices (deref h l) = ∅) ∧
    (∀ id p, id ≠ "" → firstLeaf h req ps id = Some p →
       ∃ inst, m !! id = Some inst ∧ NetworkLayers inst = reverse (pathNames h root p.1)) ∧
    (∀ id inst, m !! id = Some inst → i_ID inst = id ∧ id ≠ "" ∧
       (is_Some (firstLeaf h req ps id) ∨
        NetworkLayers inst = [] ∧ ∃ d host, inDomain g d host ∧
          isRequested req id (HostName host) = true ∧ (InstanceID host = id ∨ HostName host = id))) ∧
    (∀ id inst labels, m !! id = Some inst → Labels inst = Some labels →
       ∃ d host, inDomain g d host ∧ labels = hostLabels d host ∧
         (InstanceID host = id ∨ HostName host = id ∨
          ∃ p, p ∈ ps ∧ shown h req id p ∧ v_Name (deref h p.2) = HostName host)) ∧
    (∀ d host, inDomain g d host → InstanceID host ≠ "" → is_Some (firstLeaf h req ps (InstanceID host)) →
       ∃ inst, m !! InstanceID host = Some inst ∧ Labels inst ≠ None) ∧
    (∀ d host, inDomain g d host → hostRequested req host →
       ∃ id inst, m !! id = Some inst ∧ Labels inst ≠ None ∧
         (InstanceID host = id ∨ HostName host = id ∨
          ∃ p, p ∈ ps ∧ shown h req id p ∧ v_Name (deref h p.2) = HostName host)).
Proof.
  intros h Hroot Htree Hne Hdom.
  destruct (@leafPaths_total range_sorted h root (deriveFuel h) [] root) as [ps Hps];
    [done|done|unfold deriveFuel; simpl; lia|].
  set (st0 := foldl (visit h req root []) (MkDerivation ∅ ∅) ps).
  destruct (walked h req root ps) as (Hids & Hnames & Hrec). fold st0 in Hids, Hnames, Hrec.
  set (es := domainHosts (default ∅ (Domains g))).
  assert (pass req st0 es (foldl (λ st e, addHost req e.1 st e.2) st0 es)) as Hp.
  { apply pass_all; [done|by apply Hnames|]. intros [d host] (hosts & k & Hd & _)%elem_of_domainHosts Heq.
    simpl in Heq. subst d. by rewrite Hdom in Hd. }
  assert (∀ host id, names st0 host id → InstanceID host = id ∨ HostName host = id ∨
    ∃ p, p ∈ ps ∧ shown h req id p ∧ v_Name (deref h p.2) = HostName host) as Hwho.
  { intros host id [?|[?|[_ ?]%Hnames]]; tauto. }
  eexists ps, _. split_and!.
  - unfold deriveInstances. rewrite Hroot. fold h. rewrite (walk_leaves h req _ _ _ _ ps) by done.
    simpl. by rewrite addDomains_hosts.
  - done.
  - intros ks l. by apply (@leafPaths_elem range_sorted h (deriveFuel h)).
  - intros id p Hid Hf. pose proof (Hrec id Hid) as Hi. rewrite Hf in Hi.
    destruct (pass_old _ _ _ _ Hp _ _ Hi) as (inst & ? & ?). eauto.
  - intros id inst Hi. destruct (pass_id _ _ _ _ Hp _ _ Hi) as [? Hid]. split_and!; [done|done|].
    destruct (firstLeaf h req ps id) as [p|] eqn:Hf; [left; by eexists|right].
    pose proof (Hrec id Hid) as H0. rewrite Hf in H0.
    destruct (pass_new _ _ _ _ Hp _ _ Hi H0) as (? & [d host] & He & ? & ?).
    split; [done|]. exists d, host. by apply elem_of_domainHosts in He.
  - intros id inst labels Hi HL.
    destruct (pass_labels _ _ _ _ Hp _ _ Hi) as [?|([d host] & He & Hn & ?)]; [congruence|].
    exists d, host. apply elem_of_domainHosts in He. split_and!; [done|simpl in *; congruence|by apply Hwho].
  - intros d host Hin Hid [p Hf]. apply elem_of_domainHosts in Hin.
    apply (pass_complete _ _ _ _ Hp _ _ Hin eq_refl). simpl. rewrite (Hrec _ Hid), Hf. by eexists.
  - intros d host Hin Hr. apply elem_of_domainHosts in Hin.
    destruct (pass_hosts _ _ _ _ Hp _ Hin Hr) as (id & inst & Hname & ? & ?). eauto 6.
Qed.

(** ** The document *)

Lemma label_insert labels k v k' :
  label (Some (<[k := v]> labels)) k' = if decide (k = k') then v else label (Some labels) k'.
Proof.
  unfold label. simpl. case_decide; subst; [by rewrite lookup_insert_eq|by rewrite lookup_insert_ne].
Qed.

Lemma label_default labels k : label (Some (default ∅ labels)) k = label labels k.
Proof. by destruct labels. Qed.

Lemma fillKey_label derived inst key k :
  label (Labels (fillKey derived inst key)) k =
    if decide (k = key ∧ label (Labels inst) key = "" ∧
               (key = KeyTopologyXclrSubDomain →
                label (Labels inst) KeyTopologyXclrDomain = label (Labels derived) KeyTopologyXclrDomain))
    then label (Labels derived) key else label (Labels inst) k.
Proof.
  unfold fillKey. cbv zeta. repeat case_decide; simpl; try done; try naive_solver.
  - destruct H0 as (-> & H0 & _). destruct H as [->|]; congruence.
  - rewrite label_insert, decide_True; naive_solver.
  - rewrite label_insert. case_decide; [|apply label_default]. subst. exfalso.
    destruct (decide (label (Labels inst) k = "")) as [?|?]; [|tauto].
    match goal with H : ¬ (_ ∧ _ ∧ _) |- _ => apply H end. split_and!; [done..|]. intros ->.
    destruct (decide (label (Labels inst) KeyTopologyXclrDomain = label (Labels derived) KeyTopologyXclrDomain)); tauto.
Qed.

Lemma fillKey_rest derived inst key :
  i_ID (fillKey derived inst key) = i_ID inst ∧ NetworkLayers (fillKey derived inst key) = NetworkLayers inst.
Proof. unfold fillKey. cbv zeta. by repeat case_decide. Qed.

(** The attached record [a] completed with the derived record [d]. *)
Definition completed (a d inst : Instance_) : Prop :=
  let lab i k := label (Labels i) k in
  i_ID inst = i_ID a ∧
  NetworkLayers inst = (if decide (NetworkLayers a = []) then NetworkLayers d else NetworkLayers a) ∧
  lab inst KeyTopologyXclrDomain =
    (if decide (lab a KeyTopologyXclrDomain = "") then lab d KeyTopologyXclrDomain
     else lab a KeyTopologyXclrDomain) ∧
  lab inst KeyTopologyXclrSubDomain =
    (if decide (lab a KeyTopologyXclrSubDomain = "" ∧ lab inst KeyTopologyXclrDomain = lab d KeyTopologyXclrDomain)
     then lab d KeyTopologyXclrSubDomain else lab a KeyTopologyXclrSubDomain) ∧
  ∀ k, k ≠ KeyTopologyXclrDomain → k ≠ KeyTopologyXclrSubDomain → lab inst k = lab a k.

Lemma fillInstance_spec a d : completed a d (fillInstance a d).
Proof.
  unfold completed, fillInstance. cbv zeta. cbn [foldl].
  set (a' := if decide _ then _ else a).
  assert (i_ID a' = i_ID a ∧ Labels a' = Labels a ∧
    NetworkLayers a' = if decide (NetworkLayers a = []) then NetworkLayers d else NetworkLayers a)
    as (H1 & HL & H3).
  { unfold a'. destruct (decide (NetworkLayers a = [])) as [Ha|Ha];
      destruct (decide (NetworkLayers d = [])) as [Hd|Hd].
    - rewrite decide_False by tauto. by rewrite Ha, Hd.
    - by rewrite decide_True by done.
    - by rewrite decide_False by tauto.
    - by rewrite decide_False by tauto. }
  clearbody a'. set (b := fillKey d a' KeyTopologyXclrDomain).
  assert (KeyTopologyXclrDomain ≠ KeyTopologyXclrSubDomain) as Hk by done.
  assert (KeyTopologyXclrSubDomain ≠ KeyTopologyXclrDomain) as Hk' by done.
  destruct (fillKey_rest d b KeyTopologyXclrSubDomain) as [-> ->].
  destruct (fillKey_rest d a' KeyTopologyXclrDomain) as [Hb Hb']. fold b in Hb, Hb'. rewrite Hb, Hb', H1, H3.
  rewrite !fillKey_label. unfold b. rewrite !fillKey_label, HL.
  split_and!; [done|done| | |].
  - rewrite decide_False by tauto. repeat case_decide; tauto || done.
  - repeat case_decide; try tauto; try done; intuition congruence.
  - intros k Hk1 Hk2. rewrite !fillKey_label, HL. by rewrite !decide_False by tauto.
Qed.

(** When records are attached to the graph the engine reports exactly
    these: each keeps its ID, its layers and its labels, and only layers it
    lacks and accelerator labels it lacks are filled in from the derived record,
    the sub-domain only within the same domain.  Without attached records the
    derived ones are reported.  The document lists one record per key, in the
    order of the keys. *)
Theorem graph_document_spec g req derived :
  let attached := default ∅ (g_Instances g) in
  deriveInstances g req = Some (Ok derived) →
  ∃ m, graphInstances (Some g) req = Some (Ok m) ∧
    (attached = ∅ → m = derived) ∧
    (attached ≠ ∅ → ∀ id,
       match attached !! id with
       | Some a => ∃ inst, m !! id = Some inst ∧ completed a (default zeroInstance (derived !! id)) inst
       | None => m !! id = None
       end) ∧
    ∃ keys, Sorted String.le keys ∧ NoDup keys ∧ (∀ k, k ∈ keys ↔ is_Some (m !! k)) ∧
      Forall2 (λ k inst, m !! k = Some inst) keys (makeInstancesDocument m).
Proof.
  intros attached Hd. unfold graphInstances. rewrite Hd. simpl. fold attached.
  eexists. split; [done|]. split_and!.
  - intros ->. by rewrite decide_True.
  - intros Hne id. rewrite decide_False by done. rewrite map_lookup_imap.
    destruct (attached !! id) as [a|]; simpl; [|done]. eexists. split; [done|]. apply fillInstance_spec.
  - set (m := if decide (attached = ∅) then _ else _). exists (sorted_keys m).
    split_and!; [apply sorted_keys_sorted|apply sorted_keys_NoDup|apply elem_of_sorted_keys|].
    unfold makeInstancesDocument.
    assert (∀ k, k ∈ sorted_keys m → is_Some (m !! k)) as Hin by (intros k; apply elem_of_sorted_keys).
    revert Hin. generalize (sorted_keys m) as ks. induction ks as [|k ks IH]; intros Hin; [constructor|].
    csimpl. destruct (Hin k) as [inst Hk]; [by left|]. rewrite Hk. constructor; [done|].
    apply IH. intros k' Hk'. apply Hin. by right.
Qed.

(** ** Examples *)

(** Two nodes below a switch and a node without topology; one node is not
    requested, one is only in a domain and requested by its ID. *)
Definition w_heap : heap :=
  {[ 0%nat := MkVertex "" "" {[ "s1" := Some 1%nat; NoTopology := Some 4%nat ]};
     1%nat := MkVertex "spine" "s1" {[ "s2" := Some 2%nat ]};
     2%nat := MkVertex "" "s2" {[ "i1" := Some 3%nat; "i2" := Some 5%nat ]};
     3%nat := MkVertex "n1" "i1" ∅; 5%nat := MkVertex "n2" "i2" ∅;
     4%nat := MkVertex "" NoTopology {[ "i3" := Some 6%nat ]};
     6%nat := MkVertex "n3" "i3" ∅ ]}.
Definition w_graph : Graph :=
  MkGraph w_heap (Some 0%nat)
    (Some {[ "d1" := {[ "n1" := MkHostInfo "d1" "x1" "n1" "u1"; "n4" := MkHostInfo "d1" "i4" "n4" "" ]} ]}) None.
Definition w_engine : GraphEngine :=
  (ResolveComputeInstances (MkEngine None None)
     [MkCI "r" {[ "i1" := "n1"; "i3" := "n3"; "i4" := "" ]}]).1.

Lemma w_graph_tree : is_tree w_heap 0.
Proof.
  assert (∃ st, Network.initTree (Some w_graph) = Some (Ok st)) as [st Hst] by (by vm_compute; eexists).
  by apply (initTree_tree w_graph 0 st).
Qed.

Example w_records :
  (λ r, fmap (M := result panic) makeInstancesDocument r) <$> graphInstances (Some w_graph) (requested w_engine) =
  Some (Ok [MkInstance "i1" ["s2"; "spine"] (Some (hostLabels "d1" (MkHostInfo "d1" "x1" "n1" "u1"))) [];
            MkInstance "i3" [] None [];
            MkInstance "i4" [] (Some {[ KeyTopologyXclrDomain := "d1" ]}) []]).
Proof. by vm_compute. Qed.

Lemma derive_instances_spec_witness :
  ∃ m, deriveInstances w_graph (requested w_engine) = Some (Ok m) ∧
    NetworkLayers <$> m !! "i1" = Some ["s2"; "spine"] ∧ m !! "i2" = None ∧
    ∃ inst, m !! "i4" = Some inst ∧ Labels inst ≠ None.
Proof.
  destruct (derive_instances_spec w_graph (requested w_engine) 0) as (ps & m & Hm & Hps & _ & Hleaf & Hrec & _ & _ & Hhost).
  - reflexivity.
  - exact w_graph_tree.
  - apply (bool_decide_unpack _). vm_compute. exact I.
  - vm_compute. reflexivity.
  - exists m. split; [done|]. vm_compute in Hps. injection Hps as <-.
    assert (∀ id, id = "i2" ∨ id = "n4" → m !! id = None) as Hout.
    { intros id Hid. destruct (m !! id) as [inst|] eqn:Hi; [exfalso|done].
      destruct (Hrec _ _ Hi) as (_ & _ & [[p Hf]|(_ & d & host & (hosts & k & Hd & Hk) & Hr & Hor)]).
      - destruct Hid as [->| ->]; vm_compute in Hf; discriminate Hf.
      - cbn [Domains w_graph default from_option Datatypes.id] in Hd. apply lookup_singleton_Some in Hd as [<- <-].
        apply lookup_insert_Some in Hk as [[<- <-]|[_ [<- <-]%lookup_singleton_Some]];
          destruct Hid as [->| ->]; vm_compute in Hr; try discriminate Hr; destruct Hor as [Hor|Hor]; discriminate Hor. }
    split; [|split; [apply Hout; by left|]].
    + destruct (Hleaf "i1" (["s1"; "s2"; "i1"], 3%nat)) as (inst & -> & HL); [done|by vm_compute|].
      cbn [fmap option_fmap option_map]. rewrite HL. by vm_compute.
    + destruct (Hhost "d1" (MkHostInfo "d1" "i4" "n4" "")) as (id & inst & Hi & HL & Hor).
      * eexists _, "n4". split; reflexivity.
      * split; [done|vm_compute; reflexivity].
      * destruct Hor as [<-|[<-|(p & Hp & _ & Hname)]].
        -- exists inst. split; [exact Hi|exact HL].
        -- exfalso. pose proof (Hout "n4" (or_intror eq_refl)) as Hno. cbn [HostName] in Hi. congruence.
        -- exfalso. rewrite !elem_of_cons in Hp.
           destruct Hp as [->|[->|[->|[]%elem_of_nil]]]; vm_compute in Hname; discriminate Hname.
Defined.

Definition w_attached : Graph :=
  MkGraph w_heap (Some 0%nat) (Domains w_graph)
    (Some {[ "i1" := MkInstance "i1" [] (Some {[ KeyTopologyXclrDomain := "own" ]}) [] ]}).

Definition w_derived : gmap string Instance_ :=
  match deriveInstances w_attached None with Some (Ok m) => m | _ => ∅ end.

Lemma graph_document_spec_witness :
  ∃ m inst, graphInstances (Some w_attached) None = Some (Ok m) ∧ m !! "i1" = Some inst ∧
    NetworkLayers inst = ["s2"; "spine"] ∧ label (Labels inst) KeyTopologyXclrDomain = "own" ∧
    label (Labels inst) KeyTopologyXclrSubDomain = "".
Proof.
  destruct (graph_document_spec w_attached None w_derived) as (m & Hm & _ & Hatt & _).
  { vm_compute. reflexivity. }
  pose proof (Hatt ltac:(apply (bool_decide_unpack _); vm_compute; exact I) "i1") as (inst & Hi & Hc). exists m, inst. split_and!; [done|done|..].
  - destruct Hc as (_ & -> & _). by vm_compute.
  - destruct Hc as (_ & _ & -> & _). by vm_compute.
  - destruct Hc as (_ & _ & H1 & -> & _). rewrite H1. by vm_compute.
Defined.

End GraphEngine.
