(* ===== verification/Providers.v ===== *)
(** * Provider helpers: [pkg/providers/providers.go]

    Grouping of instances by region, parsing of [pdsh] output and the
    parameters all providers share. *)

From S2P Require Import Prelude GoStrings Topology.
Open Scope Z_scope.

Module Providers.

Section Range.
Context `{RangeOrder}.

(** [regions] maps a region to its index in [cis]. *)
Record grouping := MkGrouping { regions : gmap string nat; cis : list ComputeInstances }.

Definition groupInstance (nodeRegions : gmap string string) (g : grouping) (kv : string * string) : grouping :=
  let '(instance, node) := kv in
  match nodeRegions !! node with
  | None => g
  | Some region =>
      match regions g !! region with
      | None => MkGrouping (<[region := size (regions g)]> (regions g))
                  (cis g ++ [MkCI region {[instance := node]}])
      | Some indx =>
          MkGrouping (regions g)
            (alter (λ ci, MkCI (Region ci) (<[instance := node]> (ci_Instances ci))) indx (cis g))
      end
  end.

Definition GroupByRegion (i2n nodeRegions : gmap string string) : list ComputeInstances :=
  cis (foldl (groupInstance nodeRegions) (MkGrouping ∅ []) (range i2n)).

(** [NodeLookup] functions are parameters. *)
Definition GetNodeInstancesByRegion (nodes : list string)
    (instanceToNode nodeToRegion : list string → result string (gmap string string)) :
    result string (list ComputeInstances) :=
  i2n ← instanceToNode nodes;
  nodeRegions ← nodeToRegion nodes;
  Ok (GroupByRegion i2n nodeRegions).
End Range.

Definition SelfNamedInstances (nodes : list string) (region : string) : list ComputeInstances :=
  if decide (nodes = []) then []
  else [MkCI region (foldl (λ m node, <[node := node]> m) ∅ nodes)].

(** ** [pdsh] output *)

(** [strings.Split] by [": "]. *)
Fixpoint splitColon (s : string) : list string :=
  match s with
  | "" => [""]
  | String ":" (String " " rest) => "" :: splitColon rest
  | String c rest =>
      match splitColon rest with
      | [] => [String c ""]
      | p :: ps => String c p :: ps
      end
  end.

(** [strings.Cut] at the first colon and blank. *)
Fixpoint cutColon (s : string) : option (string * string) :=
  match s with
  | "" => None
  | String ":" (String " " rest) => Some ("", rest)
  | String c rest => (λ nd, (String c nd.1, nd.2)) <$> cutColon rest
  end.

Definition ParsePdshOutput (buff : string) (direct : bool) : option (gmap string string) :=
  ls ← scan_lines buff;
  Some (foldl (λ res l,
    match splitColon l with
    | [node; attr] => if direct : bool then <[node := attr]> res else <[attr := node]> res
    | _ => res
    end) ∅ ls).
Definition ParseInstanceOutput (buff : string) : option (gmap string string) := ParsePdshOutput buff false.

Example pdsh_ex :
  ParseInstanceOutput ("node1: i-1" +:+ String nl ("node2: i-2" +:+ String nl "noise")) =
    Some {["i-1" := "node1"; "i-2" := "node2"]}.
Proof. vm_compute. reflexivity. Qed.

(** ** Parameters *)

(** The dynamic types the code distinguishes in a JSON value; a float is
    given by its truncation. *)
Inductive value := VInt (z : Z) | VFloat (trunc : Z) | VString (s : string) | VOther | VNil.

Definition KeyTrimTiers : string := "trimTiers".
Definition KeyIMDSURL : string := "imdsUrl".

Inductive paramErr := ErrType (key : string) | ErrRange (key : string).

Definition GetTrimTiers (params : gmap string value) : result paramErr Z :=
  let check trimTiers :=
    if (trimTiers <? 0) || (2 <? trimTiers) then Err (ErrRange KeyTrimTiers) else Ok trimTiers in
  match params !! KeyTrimTiers with
  | None | Some VNil => Ok 0
  | Some (VInt z) => check z
  | Some (VFloat z) => check z
  | Some _ => Err (ErrType KeyTrimTiers)
  end.

Definition GetIMDSURL (params : gmap string value) : result paramErr string :=
  match params !! KeyIMDSURL with
  | None | Some VNil => Ok ""
  | Some (VString url) => Ok url
  | Some _ => Err (ErrType KeyIMDSURL)
  end.

(** ** Grouping *)

Section Grouping.
Context `{RangeOrder} (nodeRegions : gmap string string).

(** One entry per region, in the order of [regions]; the entry of a region
    holds the instances of that region seen so far. *)
Definition ginv (seen : list (string * string)) (g : grouping) : Prop :=
  (∀ r i, regions g !! r = Some i ↔ ∃ ci, cis g !! i = Some ci ∧ Region ci = r) ∧
  size (regions g) = length (cis g) ∧
  (∀ i ci, cis g !! i = Some ci → ∀ inst node,
     ci_Instances ci !! inst = Some node ↔ (inst, node) ∈ seen ∧ nodeRegions !! node = Some (Region ci)) ∧
  (∀ inst node r, (inst, node) ∈ seen → nodeRegions !! node = Some r → is_Some (regions g !! r)).

Lemma groupInstance_inv seen g inst node :
  (inst ∉ seen.*1) → ginv seen g → ginv (seen ++ [(inst, node)]) (groupInstance nodeRegions g (inst, node)).
Proof.
  intros Hnew (Hreg & Hsize & Hin & Hall). unfold groupInstance.
  destruct (nodeRegions !! node) as [region|] eqn:Hnr.
  2:{ split_and!; [done|done| |].
      - intros i ci Hi k n. rewrite (Hin i ci Hi), elem_of_app, list_elem_of_singleton.
        split; [tauto|]. intros [[?|[= -> ->]] ?]; [done|congruence].
      - intros k n r. rewrite elem_of_app, list_elem_of_singleton.
        intros [?|[= -> ->]] ?; [by eapply Hall|congruence]. }
  destruct (regions g !! region) as [idx|] eqn:Hidx.
  - destruct (proj1 (Hreg region idx) Hidx) as (ci0 & Hci0 & Hr0). unfold ginv. simpl.
    split; [|split; [|split]].
    + intros r i. rewrite Hreg. destruct (decide (i = idx)) as [->|Hne].
      * rewrite list_lookup_alter_eq, Hci0. simpl. naive_solver.
      * by rewrite list_lookup_alter_ne.
    + by rewrite length_alter.
    + intros i ci Hi k n. rewrite elem_of_app, list_elem_of_singleton.
      destruct (decide (i = idx)) as [->|Hne].
      * rewrite list_lookup_alter_eq, Hci0 in Hi. injection Hi as <-. simpl. rewrite Hr0.
        rewrite lookup_insert. case_decide as Hk.
        -- subst k. split; [intros [= <-]; tauto|]. intros [[Hs|[= ->]] _]; [|done].
           destruct Hnew. apply list_elem_of_fmap. by exists (inst, n).
        -- rewrite (Hin _ _ Hci0), Hr0. naive_solver.
      * rewrite list_lookup_alter_ne in Hi by done. rewrite (Hin _ _ Hi). split; [tauto|].
        intros [[?|[= -> ->]] Hn]; [done|]. rewrite Hnr in Hn. injection Hn as Hn.
        assert (regions g !! region = Some i) as Hi' by (apply Hreg; eauto). congruence.
    + intros k n r. rewrite elem_of_app, list_elem_of_singleton.
      intros [?|[= -> ->]] Hn; [by eapply Hall|]. rewrite Hnr in Hn. injection Hn as <-. eauto.
  - unfold ginv. simpl. rewrite Hsize. split; [|split; [|split]].
    + intros r i. rewrite lookup_insert. setoid_rewrite lookup_app_Some. case_decide as Hr.
      * subst r. split.
        -- intros [= <-]. exists (MkCI region {[inst := node]}). split; [|done]. right.
           by rewrite Nat.sub_diag.
        -- intros (ci & [Hci|[Hge Hci]] & Hrc).
           ++ assert (regions g !! region = Some i) by (apply Hreg; eauto). congruence.
           ++ apply list_lookup_singleton_Some in Hci as [Hz _]. f_equal. lia.
      * rewrite Hreg. split; [naive_solver|]. intros (ci & [?|[_ Hci]] & Hrc); [eauto|].
        apply list_lookup_singleton_Some in Hci as [_ <-]. done.
    + rewrite map_size_insert_None, length_app by done. simpl. lia.
    + intros i ci [Hci|[Hge Hci]]%lookup_app_Some k n; rewrite elem_of_app, list_elem_of_singleton.
      * rewrite (Hin _ _ Hci). split; [tauto|]. intros [[?|[= -> ->]] Hn]; [done|].
        rewrite Hnr in Hn. injection Hn as Hn.
        assert (regions g !! region = Some i) by (apply Hreg; eauto). congruence.
      * apply list_lookup_singleton_Some in Hci as [_ <-]. simpl. rewrite lookup_singleton_Some.
        split; [intros [<- <-]; tauto|]. intros [[Hs|[= -> ->]] Hn]; [|done].
        destruct (Hall _ _ _ Hs Hn) as [? ?]. congruence.
    + intros k n r. rewrite elem_of_app, list_elem_of_singleton, lookup_insert_is_Some'.
      intros [?|[= -> ->]] Hn; [right; by eapply Hall|]. left. congruence.
Qed.

(** [GroupByRegion] returns one entry per region; the entry of a region
    holds exactly the instances whose node is in that region, so every
    instance with a known region is in exactly one entry. *)
Theorem group_by_region_partitions i2n :
  NoDup (Region <$> GroupByRegion i2n nodeRegions) ∧
  (∀ ci, ci ∈ GroupByRegion i2n nodeRegions → ∀ inst node,
     ci_Instances ci !! inst = Some node ↔
     i2n !! inst = Some node ∧ nodeRegions !! node = Some (Region ci)) ∧
  (∀ inst node r, i2n !! inst = Some node → nodeRegions !! node = Some r →
     ∃ ci, ci ∈ GroupByRegion i2n nodeRegions ∧ Region ci = r ∧ ci_Instances ci !! inst = Some node).
Proof.
  assert (ginv (range i2n) (foldl (groupInstance nodeRegions) (MkGrouping ∅ []) (range i2n))) as Hg.
  { apply (foldl_prefix_inv ginv).
    - split_and!; [|done|done|set_solver]. intros r i. simpl. rewrite lookup_empty. naive_solver.
    - intros l1 [inst node] l2 g Heq. apply groupInstance_inv.
      pose proof (range_NoDup i2n) as Hnd. rewrite Heq, fmap_app in Hnd. csimpl in Hnd.
      apply NoDup_app in Hnd as (_ & Hd & _). intros Hin. apply (Hd _ Hin). left. }
  fold (GroupByRegion i2n nodeRegions) in *. unfold GroupByRegion in *.
  set (g := foldl _ _ _) in *. destruct Hg as (Hreg & Hsize & Hin & Hall).
  setoid_rewrite elem_of_range in Hin. setoid_rewrite elem_of_range in Hall. split_and!.
  - apply NoDup_alt. intros i j r Hi Hj. rewrite list_lookup_fmap in Hi, Hj.
    apply fmap_Some in Hi as (ci & Hi & ->). apply fmap_Some in Hj as (cj & Hj & Hr).
    assert (regions g !! Region ci = Some i) as H1 by (apply Hreg; eauto).
    assert (regions g !! Region ci = Some j) as H2 by (apply Hreg; eauto). congruence.
  - intros ci [i Hi]%list_elem_of_lookup inst node. apply (Hin i ci Hi).
  - intros inst node r Hn Hr. destruct (Hall _ _ _ Hn Hr) as [i Hi].
    destruct (proj1 (Hreg r i) Hi) as (ci & Hci & Hrc). exists ci.
    split; [by eapply list_elem_of_lookup_2|]. split; [done|]. apply (Hin _ _ Hci). by rewrite Hrc.
Qed.
End Grouping.

End Providers.
