(* ===== verification/Netq.v ===== *)
(** * The NetQ provider: [pkg/providers/netq]

    NetQ describes a fabric as nodes with a tier and links between them.  The
    provider builds the layers of switches above the requested nodes, merges
    equivalent switches, and asks NMX for the NVLink domains. *)

From S2P Require Import Prelude GoStrings Queue Domain Topology Merger Request Providers.
Open Scope Z_scope.

Module Netq.
Import Queue Domain Topo Merging Requests.

(** ** Parameters: [provider.go] *)

Record ProviderParams := MkParams { ApiURL : string }.
Record Credentials := MkCredentials { Username : string; Password : string }.

(** [decoded]: what decoding makes of the map. *)
Definition getCreds (decoded : result string Credentials) (creds : gmap string Providers.value) :
    result string Credentials :=
  c ← map_err (λ msg, "failed to decode creds: " +:+ msg) decoded;
  foldM (λ c key, match creds !! key with
                  | None | Some Providers.VNil => Err ("missing '" +:+ key +:+ "'")
                  | Some _ => Ok c
                  end) c ["username"; "password"].

Definition getParams (decoded : result string ProviderParams) : result string ProviderParams :=
  p ← map_err (λ msg, "failed to decode params: " +:+ msg) decoded;
  if decide (ApiURL p = "") then Err "apiUrl not provided" else Ok p.

Definition Loader (decodedParams : result string ProviderParams) (decodedCreds : result string Credentials)
    (creds : gmap string Providers.value) : result Error (ProviderParams * Credentials) :=
  p ← map_err (NewError 400) (getParams decodedParams);
  c ← map_err (NewError 400) (getCreds decodedCreds creds);
  Ok (p, c).

Definition GetNodeInstances (nodes : list string) : list ComputeInstances := Providers.SelfNamedInstances nodes "local".

(** ** Responses: [netq.go], [nmx.go] *)

Record CNode := MkCNode { Id : string; Name : string; Tier : Z }.
(** The identifiers of the links, and the compounded nodes of each entry. *)
Record NetqResponse := MkResponse { Links : list string; Nodes : list (list CNode) }.
Record Premises := MkPremises { ConfigKeyViewed : bool; OPID : Z }.
Record AuthOutput := MkAuth { AccessToken : string; Premises_ : list Premises }.
Record ComputeNode := MkComputeNode { nmx_Name : string; DomainUUID : string }.

(** [strings.Split] by a separator of several characters; [skip]: characters
    of a separator still to pass over. *)
Fixpoint splitOn (sep : string) (skip : nat) (s : string) : list string :=
  match s with
  | "" => [""]
  | String c rest =>
      match skip with
      | S skip => splitOn sep skip rest
      | O =>
          if has_prefix sep s then "" :: splitOn sep (pred (String.length sep)) rest
          else match splitOn sep 0 rest with
               | part :: parts => String c part :: parts
               | [] => [String c ""]
               end
      end
  end.
Definition linkEnds (id : string) : list string := splitOn "-*-" 0 id.

Example linkEnds_ex : linkEnds "n1-*-leaf-*" = ["n1"; "leaf-*"] ∧ linkEnds "a-*-b-*-c" = ["a"; "b"; "c"].
Proof. done. Qed.

Section Parse.
Context `{RangeOrder}.

(** ** Nodes and links *)

(** [nameMap] of the code is never read. *)
Record nodes := MkNodes {
  n_store : store;
  n_layer : gmap string loc;
  nodeMap : gmap string loc;
  tierMap : gmap string Z
}.

Definition addCNode (inputNodes : gset string) (st : nodes) (cnode : CNode) : nodes :=
  let '(s, v) := new (n_store st) (MkVertex (Name cnode) (Id cnode) ∅) in
  let tiers := <[Id cnode := Tier cnode]> (tierMap st) in
  if decide (Tier cnode = -1)
  then MkNodes s (if decide (Name cnode ∈ inputNodes) then <[Id cnode := v]> (n_layer st) else n_layer st) (nodeMap st) tiers
  else MkNodes s (n_layer st) (<[Id cnode := v]> (nodeMap st)) tiers.

(** The tier of an unknown node reads as 0. *)
Definition tierOf (tierMap : gmap string Z) (id : string) : Z := default 0 (tierMap !! id).

Definition addLink (tierMap : gmap string Z) (linksUp : gmap string (gmap string bool)) (link : string) :
    gmap string (gmap string bool) :=
  match linkEnds link with
  | [nodeLow; nodeHigh] =>
      if tierOf tierMap nodeLow =? tierOf tierMap nodeHigh then linksUp
      else
        let '(nodeLow, nodeHigh) :=
          if tierOf tierMap nodeHigh <? tierOf tierMap nodeLow then (nodeHigh, nodeLow) else (nodeLow, nodeHigh) in
        <[nodeLow := <[nodeHigh := true]> (default ∅ (linksUp !! nodeLow))]> linksUp
  | _ => linksUp
  end.

(** ** Layers *)

Record layers := MkLayers { l_store : store; nextLayer : gmap string loc; l_nodeMap : gmap string loc }.

(** [v.Vertices[id] = w]; the map of a switch that joins the layer is new. *)
Definition connect (id : string) (w : loc) (st : layers) (up : string) : layers :=
  match nextLayer st !! up with
  | Some v => MkLayers (update (l_store st) v (addChild id (Some w))) (nextLayer st) (l_nodeMap st)
  | None =>
      match l_nodeMap st !! up with
      | None => st
      | Some v =>
          let s := update (l_store st) v (λ x, MkVertex (v_Name x) (v_ID x) ∅) in
          MkLayers (update s v (addChild id (Some w))) (<[up := v]> (nextLayer st)) (delete up (l_nodeMap st))
      end
  end.

Definition connectUps (linksUp : gmap string (gmap string bool)) (st : layers) (kv : string * loc) : layers :=
  foldl (connect kv.1 kv.2) st (range (default ∅ (linksUp !! kv.1))).*1.

(** Every iteration but the last takes a switch out of [nodeMap]. *)
Fixpoint layerLoop (fuel : nat) (linksUp : gmap string (gmap string bool)) (s : store) (layer nodeMap : gmap string loc) :
    option (store * gmap string loc) :=
  match fuel with
  | O => None
  | S fuel =>
      let st := foldl (connectUps linksUp) (MkLayers s ∅ nodeMap) (range layer) in
      if (size nodeMap =? size (l_nodeMap st))%nat then Some (l_store st, layer)
      else layerLoop fuel linksUp (l_store st) (nextLayer st) (l_nodeMap st)
  end.

Definition nodesOf (s : store) (inputNodes : gset string) (resp : NetqResponse) : nodes :=
  foldl (addCNode inputNodes) (MkNodes s ∅ ∅ ∅) (concat (Nodes resp)).
Definition linksOf (st : nodes) (resp : NetqResponse) : gmap string (gmap string bool) :=
  foldl (addLink (tierMap st)) ∅ (Links resp).

(** [parseNetq], on the decoded response; [roots]: [treeRoot.Vertices].  The
    merger walks down one layer of switches at a time. *)
Definition parseNetq (s : store) (roots : gmap string loc) (data : option (list NetqResponse)) (inputNodes : gset string) :
    option (result Error (store * gmap string loc)) :=
  match data with
  | None => Some (Err (NewError 502 "netq output read failed"))
  | Some [resp] =>
      let st := nodesOf s inputNodes resp in
      '(s, layer) ← layerLoop (S (size (nodeMap st))) (linksOf st resp) (n_store st) (n_layer st) (nodeMap st);
      merger ← NewMerger (S (size (nodeMap st))) (cells s) (range layer).*2;
      let '(s, merger) := Merge s merger in
      Some (Ok (s, foldl (λ roots v, <[v_ID (deref (cells s) v) := v]> roots) roots (TopTier merger)))
  | Some _ => Some (Err (NewError 502 "invalid NetQ response: multiple entries"))
  end.

(** ** Requests *)

Inductive authorization := Anonymous | Bearer (token : string) | Basic (username password : string).
Inductive request :=
| Login (username password : string)
| SelectOpID (opid : Z)
| FetchTopology
| ComputeNodes.

Section Server.
Context {W : Type}.
(** [httpreq.DoRequest] and the decoders of the bodies. *)
Context (DoRequest : authorization → request → W → W * result Error string).
Context (decodeAuth : string → option AuthOutput) (decodeNetq : string → option (list NetqResponse)).
Context (decodeNodes : string → option (list ComputeNode)).
Context (creds : Credentials).

Definition badToken : Error := NewError 502 "failed to parse access token".

Definition getPremisesTopology (cis : list ComputeInstances) (s : store) (roots : gmap string loc) (token : string)
    (opid : Z) (w : W) : option (W * result Error (store * gmap string loc)) :=
  match DoRequest (Bearer token) (SelectOpID opid) w with
  | (w, Err e) => Some (w, Err e)
  | (w, Ok data) =>
      if decide (data = "") then Some (w, Err (NewError 502 "failed to set NetQ OpID"))
      else match decodeAuth data with
           | None => Some (w, Err badToken)
           | Some authOutput =>
               match DoRequest (Bearer (AccessToken authOutput)) FetchTopology w with
               | (w, Err e) => Some (w, Err e)
               | (w, Ok data) => pair w <$> parseNetq s roots (decodeNetq data) (GetNodeNameMap cis)
               end
           end
  end.

Fixpoint forPremises (cis : list ComputeInstances) (token : string) (ps : list Premises) (s : store)
    (roots : gmap string loc) (w : W) : option (W * result Error (store * gmap string loc)) :=
  match ps with
  | [] => Some (w, Ok (s, roots))
  | p :: ps =>
      if ConfigKeyViewed p then
        match getPremisesTopology cis s roots token (OPID p) w with
        | Some (w, Ok (s, roots)) => forPremises cis token ps s roots w
        | r => r
        end
      else forPremises cis token ps s roots w
  end.

(** The heap and the root of the tree. *)
Definition getNetworkTree (cis : list ComputeInstances) (w : W) : option (W * result Error (store * loc)) :=
  match DoRequest Anonymous (Login (Username creds) (Password creds)) w with
  | (w, Err e) => Some (w, Err e)
  | (w, Ok data) =>
      if decide (data = "") then Some (w, Err (NewError 401 "failed to login to NetQ server"))
      else match decodeAuth data with
           | None => Some (w, Err badToken)
           | Some authOutput =>
               match forPremises cis (AccessToken authOutput) (Premises_ authOutput) (MkStore ∅ 0) ∅ w with
               | None => None
               | Some (w, Err e) => Some (w, Err e)
               | Some (w, Ok (s, roots)) =>
                   if decide (roots = ∅) then Some (w, Err (NewError 502 "no topology available from the provided premises"))
                   else Some (w, Ok (new s (MkVertex "" "" (Some <$> roots))))
               end
           end
  end.

Definition parseComputeNodes (data : option (list ComputeNode)) : result Error DomainMap :=
  match data with
  | None => Err (NewError 502 "nmx output read failed")
  | Some computeNodes =>
      Ok (foldl (λ dm node, AddHost dm (DomainUUID node) (nmx_Name node) (nmx_Name node)) NewDomainMap computeNodes)
  end.

Definition getNvlDomains (w : W) : W * result Error DomainMap :=
  match DoRequest (Basic (Username creds) (Password creds)) ComputeNodes w with
  | (w, Err e) => (w, Err e)
  | (w, Ok data) => (w, parseComputeNodes (decodeNodes data))
  end.

Definition GenerateTopologyConfig (instances : list ComputeInstances) (w : W) : option (W * result Error Graph) :=
  match getNetworkTree instances w with
  | None => None
  | Some (w, Err e) => Some (w, Err e)
  | Some (w, Ok (s, root)) =>
      let '(w, domains) := getNvlDomains w in
      Some (w, Ok (MkGraph (cells s) (Some root) (match domains with Ok dm => Some dm | Err _ => None end) None))
  end.
End Server.
End Parse.

(** ** The layers *)

Section Layers.
Context `{RangeOrder} (linksUp : gmap string (gmap string bool)) (layer0 nodeMap0 : gmap string loc).

Definition upsOf (id : string) : gset string := dom (default ∅ (linksUp !! id)).
Definition ups (layer : gmap string loc) : gset string := ⋃ (upsOf <$> elements (dom layer)).

(** Layer [k], and the switches of no layer up to it: the nodes that are asked
    for; then the switches that a node of the layer below is linked up to. *)
Fixpoint layersAt (k : nat) : gmap string loc * gmap string loc :=
  match k with
  | O => (layer0, nodeMap0)
  | S k => let '(layer, rest) := layersAt k in
           (filter (λ kv, kv.1 ∈ ups layer) rest, filter (λ kv, kv.1 ∉ ups layer) rest)
  end.
Definition layerAt (k : nat) : gmap string loc := (layersAt k).1.
Definition restAt (k : nat) : gmap string loc := (layersAt k).2.

(** The children of the switch [up] among the nodes of [layer]. *)
Definition childrenIn (layer : gmap string loc) (up : string) : gmap string (option loc) :=
  Some <$> filter (λ kv, up ∈ upsOf kv.1) layer.

Lemma elem_of_ups layer u : u ∈ ups layer ↔ ∃ c, is_Some (layer !! c) ∧ u ∈ upsOf c.
Proof.
  unfold ups. rewrite elem_of_union_list. split.
  - intros (X & (c & -> & Hc%elem_of_elements%elem_of_dom)%list_elem_of_fmap & Hu). by exists c.
  - intros (c & Hc & Hu). exists (upsOf c). split; [|done]. apply list_elem_of_fmap.
    exists c. split; [done|]. by apply elem_of_elements, elem_of_dom.
Qed.

Lemma layerAt_S k u v : layerAt (S k) !! u = Some v ↔ restAt k !! u = Some v ∧ u ∈ ups (layerAt k).
Proof. unfold layerAt, restAt. simpl. destruct (layersAt k). simpl. apply map_lookup_filter_Some. Qed.
Lemma restAt_S k u v : restAt (S k) !! u = Some v ↔ restAt k !! u = Some v ∧ u ∉ ups (layerAt k).
Proof. unfold layerAt, restAt. simpl. destruct (layersAt k). simpl. apply map_lookup_filter_Some. Qed.

Lemma childrenIn_lookup layer u c : childrenIn layer u !! c = (if decide (u ∈ upsOf c) then Some <$> layer !! c else None).
Proof.
  unfold childrenIn. rewrite lookup_fmap, map_lookup_filter. destruct (layer !! c); simpl; [|by case_decide].
  by case_decide; simplify_option_eq.
Qed.

(** The links from a layer upwards, in the order of the loops. *)
Definition edgesOf (kv : string * loc) : list (string * loc * string) :=
  pair kv <$> (range (default ∅ (linksUp !! kv.1))).*1.
Definition edges (layer : gmap string loc) : list (string * loc * string) := concat (edgesOf <$> range layer).

Definition follow (st : layers) (e : string * loc * string) : layers := connect e.1.1 e.1.2 st e.2.

Lemma connectUps_edges l : ∀ st, foldl (connectUps linksUp) st l = foldl follow st (concat (edgesOf <$> l)).
Proof.
  induction l as [|kv l IH]; intros st; [done|]. simpl. rewrite IH, foldl_app. f_equal.
  unfold connectUps, edgesOf. generalize (range (default ∅ (linksUp !! kv.1))).*1. intros us. revert st.
  induction us as [|u us IHus]; intros st; [done|]. simpl. by rewrite IHus.
Qed.

Lemma elem_of_edges layer c w u : (c, w, u) ∈ edges layer ↔ layer !! c = Some w ∧ u ∈ upsOf c.
Proof.
  unfold edges, upsOf. rewrite elem_of_concat, elem_of_dom, <-elem_of_keys, <-(range_perm _ (default ∅ (linksUp !! c))). split.
  - intros (l & (kv & -> & Hkv)%list_elem_of_fmap & (x & [= <- <-] & Hx)%list_elem_of_fmap).
    split; [by apply elem_of_range|done].
  - intros [Hc%elem_of_range Hu]. exists (edgesOf (c, w)). split; apply list_elem_of_fmap; [by exists (c, w)|].
    by exists u.
Qed.

(** ** One layer *)

Section Step.
Context (s0 : store) (layer rest : gmap string loc).
Context (rest_inj : ∀ u1 u2 v, rest !! u1 = Some v → rest !! u2 = Some v → u1 = u2).

Abbreviation entered seen := (λ u, u ∈ (seen : list (string * loc * string)).*2).

Record connecting (seen : list (string * loc * string)) (st : layers) : Prop := {
  c_next : ∀ u, nextLayer st !! u = if decide (entered seen u) then rest !! u else None;
  c_rest : ∀ u, l_nodeMap st !! u = if decide (entered seen u) then None else rest !! u;
  c_size : next (l_store st) = next s0;
  c_old : ∀ l, (∀ u, entered seen u → rest !! u ≠ Some l) → deref (cells (l_store st)) l = deref (cells s0) l;
  c_name : ∀ l, v_Name (deref (cells (l_store st)) l) = v_Name (deref (cells s0) l) ∧
                v_ID (deref (cells (l_store st)) l) = v_ID (deref (cells s0) l);
  c_kids : ∀ u v c ol, rest !! u = Some v → entered seen u →
    Vertices (deref (cells (l_store st)) v) !! c = Some ol ↔ ∃ w, ol = Some w ∧ (c, w, u) ∈ seen
}.

Lemma connect_step seen st c w u :
  connecting seen st → (∀ w', (c, w', u) ∈ seen → w' = w) →
  connecting (seen ++ [(c, w, u)]) (connect c w st u).
Proof.
  intros [Hnext Hrest Hsize Hold Hname Hkids] Hfun.
  assert (∀ x, entered (seen ++ [(c, w, u)]) x ↔ entered seen x ∨ x = u) as Happ.
  { intros x. rewrite fmap_app, elem_of_app. csimpl. by rewrite list_elem_of_singleton. }
  destruct (rest !! u) as [v|] eqn:Hu.
  - set (kids := <[c := Some w]> (if decide (entered seen u) then Vertices (deref (cells (l_store st)) v) else ∅)).
    assert (∃ s, connect c w st u = MkLayers s (<[u := v]> (nextLayer st)) (delete u (l_nodeMap st)) ∧ next s = next s0 ∧
      ∀ l, deref (cells s) l = if decide (l = v) then MkVertex (v_Name (deref (cells s0) v)) (v_ID (deref (cells s0) v)) kids
                               else deref (cells (l_store st)) l) as (s & -> & Hs & Hd).
    { destruct (Hname v) as [Hn Hi]. unfold connect, kids. rewrite Hnext, Hrest, Hu. case_decide as Hin.
      - eexists. split_and!; [f_equal|by rewrite next_update|].
        + symmetry. apply insert_id. by rewrite Hnext, decide_True.
        + symmetry. apply delete_id. by rewrite Hrest, decide_True.
        + intros l. rewrite deref_update. unfold addChild. by rewrite Hn, Hi.
      - eexists. split_and!; [done|by rewrite !next_update|].
        intros l. rewrite deref_update, !deref_update. unfold addChild. rewrite (decide_True (P := v = v)) by done. simpl.
        rewrite Hn, Hi. by repeat case_decide. }
    split; cbn [l_store nextLayer l_nodeMap]; [| |done| | |].
    + intros x. destruct (decide (u = x)) as [<-|Hne].
      * rewrite lookup_insert_eq, decide_True by (apply Happ; by right). done.
      * rewrite lookup_insert_ne, Hnext by done. apply decide_ext. rewrite Happ. naive_solver.
    + intros x. destruct (decide (u = x)) as [<-|Hne].
      * rewrite lookup_delete_eq, decide_True by (apply Happ; by right). done.
      * rewrite lookup_delete_ne, Hrest by done. apply decide_ext. rewrite Happ. naive_solver.
    + intros l Hl. rewrite Hd, decide_False.
      * apply Hold. intros x Hx. apply Hl, Happ. by left.
      * intros ->. apply (Hl u); [|done]. apply Happ. by right.
    + intros l. rewrite Hd. case_decide; [by subst|]. apply Hname.
    + intros x vx c' ol Hx Hin. rewrite Hd. setoid_rewrite elem_of_app. setoid_rewrite list_elem_of_singleton.
      case_decide as Hv.
      * subst vx. rewrite (rest_inj _ _ _ Hx Hu) in *. cbn [Vertices]. unfold kids.
        destruct (decide (c = c')) as [<-|Hne].
        -- rewrite lookup_insert_eq. split; [intros [= <-]; eauto|].
           intros (w' & -> & [Hw|[= ->]]); [|done]. by rewrite (Hfun _ Hw).
        -- rewrite lookup_insert_ne by done. case_decide as Hin'.
           ++ rewrite (Hkids u v c' ol Hu Hin'). naive_solver.
           ++ rewrite lookup_empty. split; [done|]. intros (w' & _ & [Hw|[= -> _]]); [|done].
              exfalso. apply Hin'. apply list_elem_of_fmap. by exists (c', w', u).
      * assert (entered seen x) as Hin' by (apply Happ in Hin as [| ->]; [done|congruence]).
        rewrite (Hkids x vx c' ol Hx Hin'). split; [naive_solver|].
        intros (w' & -> & [Hw|[= -> -> ->]]); [eauto|congruence].
  - assert (connect c w st u = st) as ->.
    { unfold connect. rewrite Hnext, Hrest, Hu. by repeat case_decide. }
    split; [| |done| |done|].
    + intros x. rewrite Hnext. repeat case_decide; rewrite ?Happ in *; naive_solver.
    + intros x. rewrite Hrest. repeat case_decide; rewrite ?Happ in *; naive_solver.
    + intros l Hl. apply Hold. intros x Hx. apply Hl, Happ. by left.
    + intros x vx c' ol Hx Hin.
      assert (entered seen x) as Hin' by (apply Happ in Hin as [| ->]; [done|congruence]).
      rewrite (Hkids x vx c' ol Hx Hin'). setoid_rewrite elem_of_app. setoid_rewrite list_elem_of_singleton.
      split; [naive_solver|]. intros (w' & -> & [Hw|[= -> -> ->]]); [eauto|congruence].
Qed.

Lemma step_spec : let st := foldl (connectUps linksUp) (MkLayers s0 ∅ rest) (range layer) in
  nextLayer st = filter (λ kv, kv.1 ∈ ups layer) rest ∧ l_nodeMap st = filter (λ kv, kv.1 ∉ ups layer) rest ∧
  next (l_store st) = next s0 ∧
  (∀ l, v_Name (deref (cells (l_store st)) l) = v_Name (deref (cells s0) l) ∧
        v_ID (deref (cells (l_store st)) l) = v_ID (deref (cells s0) l)) ∧
  (∀ u v, nextLayer st !! u = Some v → Vertices (deref (cells (l_store st)) v) = childrenIn layer u) ∧
  (∀ l, (∀ u, nextLayer st !! u ≠ Some l) → deref (cells (l_store st)) l = deref (cells s0) l).
Proof.
  intros st.
  assert (connecting (edges layer) st) as [Hnext Hrest Hsize Hold Hname Hkids].
  { unfold st. rewrite connectUps_edges. apply (foldl_prefix_inv connecting).
    - split; cbn [l_store nextLayer l_nodeMap]; try done. intros u v c ol _ Hin. by destruct (not_elem_of_nil u).
    - intros l1 [[c w] u] l2 t Hl Ht. apply connect_step; [done|]. cbn [fst snd]. intros w' Hw'.
      fold (edges layer) in Hl.
      assert (layer !! c = Some w) as Hc by (apply (elem_of_edges layer c w u); rewrite Hl; set_solver).
      assert (layer !! c = Some w') as Hc' by (apply (elem_of_edges layer c w' u); rewrite Hl; set_solver). congruence. }
  assert (∀ u, entered (edges layer) u ↔ u ∈ ups layer) as He.
  { intros u. rewrite elem_of_ups, list_elem_of_fmap. split.
    - intros ([[c w] u'] & -> & [Hc Hu]%elem_of_edges). exists c. by split; [eexists|].
    - intros (c & [w Hc] & Hu). exists (c, w, u). split; [done|]. by apply elem_of_edges. }
  split_and!; [| |done|done| |].
  - apply map_eq. intros u. rewrite Hnext, map_lookup_filter. destruct (rest !! u) as [v|]; simpl; [|by case_decide].
    repeat case_decide; simplify_option_eq; rewrite ?He in *; done.
  - apply map_eq. intros u. rewrite Hrest, map_lookup_filter. destruct (rest !! u) as [v|]; simpl; [|by case_decide].
    repeat case_decide; simplify_option_eq; rewrite ?He in *; done.
  - intros u v. rewrite Hnext. case_decide as Hin; [|done]. intros Hu. apply map_eq. intros c. apply option_eq. intros ol.
    rewrite (Hkids u v c ol Hu Hin), childrenIn_lookup. split.
    + intros (w & -> & [Hc Hup]%elem_of_edges). by rewrite decide_True, Hc.
    + case_decide as Hup; [|done]. intros (w & Hc & ->)%fmap_Some. exists w. split; [done|]. by apply elem_of_edges.
  - intros l Hl. apply Hold. intros u Hin Hu. apply (Hl u). by rewrite Hnext, decide_True.
Qed.
End Step.

(** ** All layers *)

Context (nodeMap_inj : ∀ u1 u2 v, nodeMap0 !! u1 = Some v → nodeMap0 !! u2 = Some v → u1 = u2).

Lemma restAt_sub k u v : restAt k !! u = Some v → nodeMap0 !! u = Some v.
Proof. induction k as [|k IH]; [done|]. intros [Hu _]%restAt_S. by apply IH. Qed.

Lemma restAt_inj k u1 u2 v : restAt k !! u1 = Some v → restAt k !! u2 = Some v → u1 = u2.
Proof. intros ?%restAt_sub ?%restAt_sub. by eapply nodeMap_inj. Qed.

Lemma restAt_spec k u : is_Some (restAt k !! u) ↔ is_Some (nodeMap0 !! u) ∧ ∀ j, (j < k)%nat → layerAt (S j) !! u = None.
Proof.
  induction k as [|k IH]; [split; [intros Hu; split; [done|lia]|by intros [? _]]|]. split.
  - intros [v [Hv Hnot]%restAt_S]. destruct (proj1 IH) as [Hm Hj]; [by eexists|]. split; [done|]. intros j Hjk.
    destruct (decide (j = k)) as [->|]; [|apply Hj; lia]. apply eq_None_not_Some. by intros [x [_ ?]%layerAt_S].
  - intros [Hm Hj]. destruct (proj2 IH) as [v Hv]; [split; [done|intros j ?; apply Hj; lia]|].
    exists v. apply restAt_S. split; [done|]. intros Hin.
    assert (layerAt (S k) !! u = Some v) as Hl by by apply layerAt_S. by rewrite Hj in Hl by lia.
Qed.

Lemma size_rest k : (size (layerAt (S k)) + size (restAt (S k)) = size (restAt k))%nat.
Proof.
  rewrite <-(map_filter_union_complement (λ kv : string * loc, kv.1 ∈ ups (layerAt k)) (restAt k)).
  rewrite map_size_disj_union by apply map_disjoint_filter_complement.
  unfold layerAt, restAt. simpl. by destruct (layersAt k).
Qed.

Lemma layerLoop_spec fuel : ∀ k s, (size (restAt k) < fuel)%nat →
  ∃ s' m, layerLoop fuel linksUp s (layerAt k) (restAt k) = Some (s', layerAt m) ∧
    (k ≤ m ≤ k + size (restAt k))%nat ∧ ((k < m)%nat → layerAt m ≠ ∅) ∧ layerAt (S m) = ∅ ∧ next s' = next s ∧
    (∀ l, v_Name (deref (cells s') l) = v_Name (deref (cells s) l) ∧ v_ID (deref (cells s') l) = v_ID (deref (cells s) l)) ∧
    (∀ j u v, (k ≤ j < m)%nat → layerAt (S j) !! u = Some v → Vertices (deref (cells s') v) = childrenIn (layerAt j) u) ∧
    (∀ l, (∀ u, restAt k !! u ≠ Some l) → deref (cells s') l = deref (cells s) l).
Proof.
  induction fuel as [|fuel IH]; intros k s Hfuel; [lia|]. cbn [layerLoop].
  destruct (step_spec s (layerAt k) (restAt k) (restAt_inj k)) as (Hnext & Hrest & Hsize & Hname & Hkids & Hold).
  set (st := foldl _ _ _) in *.
  assert (nextLayer st = layerAt (S k) ∧ l_nodeMap st = restAt (S k)) as [Hn Hr].
  { rewrite Hnext, Hrest. unfold layerAt, restAt. simpl. by destruct (layersAt k). }
  rewrite Hn, Hr in *. pose proof (size_rest k) as Hsz. destruct (_ =? _)%nat eqn:E.
  - apply Nat.eqb_eq in E. assert (layerAt (S k) = ∅) as Hempty by (apply map_size_empty_inv; lia).
    exists (l_store st), k. split_and!; try done; try lia.
    intros l _. apply Hold. intros u. by rewrite Hempty, lookup_empty.
  - apply Nat.eqb_neq in E. destruct (IH (S k) (l_store st)) as (s' & m & Hl & Hm & Hne & Hend & Hsz' & Hname' & Hkids' & Hold'); [lia|].
    exists s', m. split_and!; [done|lia|lia| |done|congruence| | |].
    + intros _. destruct (decide (m = S k)) as [->|]; [|apply Hne; lia].
      intros He. rewrite He, map_size_empty in Hsz. lia.
    + intros l. destruct (Hname l) as [<- <-]. apply Hname'.
    + intros j u v Hj Hu. destruct (decide (j = k)) as [->|]; [|apply Hkids'; [lia|done]].
      rewrite Hold'; [by apply Hkids|]. intros u' Hu'. apply layerAt_S in Hu as [Hu Hin].
      apply restAt_S in Hu' as [Hu' Hout]. by rewrite (restAt_inj k _ _ _ Hu Hu') in Hin.
    + intros l Hlr. rewrite Hold'; [apply Hold|]; intros u Hu.
      * apply layerAt_S in Hu as [Hu _]. by apply (Hlr u).
      * apply restAt_S in Hu as [Hu _]. by apply (Hlr u).
Qed.
End Layers.

(** ** The merger ends *)

Section Merger.
Context (h : gmap loc Vertex).

Definition visit (v : loc) : list string * list loc → string → list string * list loc := λ '(visited, next) id,
  if decide (id ∈ visited) then (visited, next)
  else match Vertices (deref h v) !! id with
       | Some (Some w) => (id :: visited, next ++ [w])
       | _ => (id :: visited, next)
       end.
Definition visitAll (acc : list string * list loc) (v : loc) : list string * list loc :=
  foldl (visit v) acc (sorted_keys (Vertices (deref h v))).

Lemma nextLayer_visit L : Merging.nextLayer h L = (foldl visitAll ((λ v, v_ID (deref h v)) <$> L, []) L).2.
Proof. reflexivity. Qed.

(** The vertices of the next layer are children; it is not empty when a child
    is not in the layer. *)
Lemma nextLayer_child L w : w ∈ Merging.nextLayer h L →
  ∃ v id, v ∈ L ∧ Vertices (deref h v) !! id = Some (Some w).
Proof.
  rewrite nextLayer_visit. revert w.
  apply (foldl_inv (λ acc, ∀ w, w ∈ acc.2 → ∃ v id, v ∈ L ∧ Vertices (deref h v) !! id = Some (Some w))).
  { by intros w ?%not_elem_of_nil. }
  intros acc v Hv Hacc. unfold visitAll.
  apply (foldl_inv (λ acc, ∀ w, w ∈ acc.2 → ∃ v id, v ∈ L ∧ Vertices (deref h v) !! id = Some (Some w))); [done|].
  intros [visited next] id _ IH w. unfold visit. case_decide; [apply IH|].
  destruct (Vertices (deref h v) !! id) as [[w'|]|] eqn:E; [|apply IH..].
  intros [Hw|Hw%list_elem_of_singleton]%elem_of_app; [by apply IH|]. subst w'. by exists v, id.
Qed.

Lemma nextLayer_nonempty L v id :
  (∀ v c ol, v ∈ L → Vertices (deref h v) !! c = Some ol → is_Some ol) →
  v ∈ L → is_Some (Vertices (deref h v) !! id) → id ∉ (λ v, v_ID (deref h v)) <$> L → Merging.nextLayer h L ≠ [].
Proof.
  intros Hsome Hv Hid Hnew. rewrite nextLayer_visit. set (ids := _ <$> L) in *.
  set (P := λ acc : list string * list loc, ∀ x, x ∈ acc.1 → x ∈ ids ∨ acc.2 ≠ []).
  assert (∀ u keys acc, u ∈ L → P acc → (∀ k, k ∈ keys → is_Some (Vertices (deref h u) !! k)) →
    let acc' := foldl (visit u) acc keys in
    P acc' ∧ (∀ x, x ∈ acc.1 → x ∈ acc'.1) ∧ (∀ x, x ∈ keys → x ∈ acc'.1)) as Hinner.
  { intros u keys. induction keys as [|k keys IH]; intros [visited next] Hu HP Hk acc'.
    { by split_and!; [|intros|intros x ?%not_elem_of_nil]. }
    assert (P (visit u (visited, next) k) ∧ k ∈ (visit u (visited, next) k).1 ∧
      ∀ x, x ∈ visited → x ∈ (visit u (visited, next) k).1) as (HP' & Hk' & Hmono).
    { unfold visit. case_decide as Hin; [done|]. destruct (Hk k) as [ol Hol]; [left|].
      destruct (Hsome u k ol Hu Hol) as [w ->]. rewrite Hol. unfold P. simpl. split_and!; [|left|by right].
      intros x _. right. by destruct next. }
    destruct (IH (visit u (visited, next) k) Hu HP') as (H1 & H2 & H3); [by intros; apply Hk; right|].
    split_and!; [done|by intros; apply H2, Hmono|]. intros x [->|Hx]%elem_of_cons; [by apply H2|by apply H3]. }
  assert (∀ l acc, (∀ u, u ∈ l → u ∈ L) → P acc → let acc' := foldl visitAll acc l in
    P acc' ∧ (∀ x, x ∈ acc.1 → x ∈ acc'.1) ∧ (v ∈ l → id ∈ acc'.1)) as Houter.
  { intros l. induction l as [|u l IH]; intros acc Hl HP acc'; [by split_and!; [|intros|intros ?%not_elem_of_nil]|].
    destruct (Hinner u (sorted_keys (Vertices (deref h u))) acc) as (H1 & H2 & H3); [apply Hl; left|done| |].
    { intros k. by rewrite elem_of_sorted_keys. }
    destruct (IH (visitAll acc u)) as (H4 & H5 & H6); [by intros; apply Hl; right|done|].
    split_and!; [done|by intros; apply H5, H2|]. intros [->|Hin]%elem_of_cons; [|by apply H6].
    apply H5, H3. by apply elem_of_sorted_keys. }
  destruct (Houter L (ids, [])) as (HP & _ & Hin); [done|by left|].
  destruct (HP id (Hin Hv)) as [|Hne]; done.
Qed.

(** Vertices in levels: a vertex of level 0 has no children; the others have
    children, of the level below, with smaller tiers. *)
Lemma traverse_ends (level : nat → loc → Prop) (tier : string → Z) :
  (∀ v, level O v → Vertices (deref h v) = ∅) →
  (∀ k v, level (S k) v → Vertices (deref h v) ≠ ∅ ∧
     ∀ c ol, Vertices (deref h v) !! c = Some ol → ∃ w, ol = Some w ∧ level k w ∧ v_ID (deref h w) = c ∧
       tier c < tier (v_ID (deref h v))) →
  ∀ k fuel m L, (k ≤ fuel)%nat → L ≠ [] → Forall (level k) L → is_Some (traverse fuel h m L).
Proof.
  intros H0 HS. induction k as [|k IH]; intros fuel m L Hf Hne HL.
  - assert (existsb (isLeaf h) L = true) as Hleaf.
    { destruct L as [|v L]; [done|]. apply Forall_cons in HL as [Hv _]. simpl. unfold isLeaf.
      by rewrite bool_decide_eq_true_2 by auto. }
    destruct fuel; cbn [traverse]; cbv zeta; rewrite Hleaf; eauto.
  - destruct fuel as [|fuel]; [lia|]. cbn [traverse]. cbv zeta. destruct (existsb (isLeaf h) L); [eauto|].
    apply fmap_is_Some, IH; [lia| |].
    + assert (∃ v, v ∈ L ∧ ∀ u, u ∈ L → tier (v_ID (deref h v)) ≤ tier (v_ID (deref h u))) as (v & Hv & Hmin).
      { clear -Hne. induction L as [|x L IH]; [done|]. destruct L as [|y L].
        - exists x. split; [left|]. intros u ->%list_elem_of_singleton. lia.
        - destruct IH as (v & Hv & Hmin); [done|].
          destruct (Z.le_gt_cases (tier (v_ID (deref h x))) (tier (v_ID (deref h v)))) as [Hle|Hgt].
          + exists x. split; [left|]. intros u [->|Hu]%elem_of_cons; [lia|]. specialize (Hmin u Hu). lia.
          + exists v. split; [by right|]. intros u [->|Hu]%elem_of_cons; [lia|]. by apply Hmin. }
      rewrite Forall_forall in HL. destruct (HS k v (HL v Hv)) as [Hkids Hall].
      apply map_choose in Hkids as (c & ol & Hc). destruct (Hall c ol Hc) as (w & -> & _ & Hid & Hlt).
      apply (nextLayer_nonempty L v c); [|done|by eexists|].
      * intros u c' ol' Hu Hc'. destruct (HS k u (HL u Hu)) as [_ Hall']. destruct (Hall' c' ol' Hc') as (? & -> & _). by eexists.
      * intros (u & Heq & Hu)%list_elem_of_fmap. specialize (Hmin u Hu). rewrite <-Heq in Hmin. lia.
    + apply Forall_forall. intros w (v & c & Hv & Hc)%nextLayer_child. rewrite Forall_forall in HL.
      destruct (HS k v (HL v Hv)) as [_ Hall]. by destruct (Hall c _ Hc) as (? & [= <-] & Hw & _).
Qed.
End Merger.

(** ** Nodes and links of a response *)

Section Response.
Context `{RangeOrder} (s : store) (inputNodes : gset string).

Record noded (seen : list CNode) (st : nodes) : Prop := {
  nd_next : (next s ≤ next (n_store st))%nat;
  nd_layer : ∀ id v, n_layer st !! id = Some v → (v < next (n_store st))%nat ∧
    ∃ n, n ∈ seen ∧ Id n = id ∧ (Tier n = -1 ∧ Name n ∈ inputNodes) ∧ deref (cells (n_store st)) v = MkVertex (Name n) id ∅;
  nd_map : ∀ id v, nodeMap st !! id = Some v → (v < next (n_store st))%nat ∧
    ∃ n, n ∈ seen ∧ Id n = id ∧ Tier n ≠ -1 ∧ deref (cells (n_store st)) v = MkVertex (Name n) id ∅;
  nd_disj : ∀ id1 id2 v, n_layer st !! id1 = Some v → nodeMap st !! id2 ≠ Some v;
  nd_layer_dom : ∀ n, n ∈ seen → Tier n = -1 → Name n ∈ inputNodes → is_Some (n_layer st !! Id n);
  nd_map_dom : ∀ n, n ∈ seen → Tier n ≠ -1 → is_Some (nodeMap st !! Id n);
  nd_old : ∀ l, (l < next s)%nat → deref (cells (n_store st)) l = deref (cells s) l;
  nd_fresh : ∀ id v, nodeMap st !! id = Some v → (next s ≤ v)%nat
}.

Lemma addCNode_step seen st n : noded seen st → noded (seen ++ [n]) (addCNode inputNodes st n).
Proof.
  intros [Hn Hl Hm Hd Hld Hmd Ho Hf]. unfold addCNode.
  set (v := next (n_store st)). set (V := MkVertex (Name n) (Id n) ∅).
  change (new (n_store st) V) with ((new (n_store st) V).1, v). cbv iota beta.
  set (s1 := (new (n_store st) V).1).
  assert (next s1 = S v) as Hs1 by done.
  assert (deref (cells s1) v = V) as Hv by (unfold s1; by rewrite deref_new, decide_True).
  assert (∀ l, (l < v)%nat → deref (cells s1) l = deref (cells (n_store st)) l) as Hold.
  { intros l Hlt. unfold s1. rewrite deref_new, decide_False; [done|]. fold v. lia. }
  assert (∀ id x, n_layer st !! id = Some x → (x < S v)%nat ∧ ∃ m, m ∈ seen ++ [n] ∧ Id m = id ∧
    (Tier m = -1 ∧ Name m ∈ inputNodes) ∧ deref (cells s1) x = MkVertex (Name m) id ∅) as Hl'.
  { intros id x Hx. destruct (Hl id x Hx) as (Hlt & m & Hin & Hid & Ht & Hdm). fold v in Hlt. split; [lia|].
    exists m. rewrite Hold, elem_of_app by done. split_and!; [by left|done|apply Ht|apply Ht|done]. }
  assert (∀ id x, nodeMap st !! id = Some x → (x < S v)%nat ∧ ∃ m, m ∈ seen ++ [n] ∧ Id m = id ∧
    Tier m ≠ -1 ∧ deref (cells s1) x = MkVertex (Name m) id ∅) as Hm'.
  { intros id x Hx. destruct (Hm id x Hx) as (Hlt & m & Hin & Hid & Ht & Hdm). fold v in Hlt. split; [lia|].
    exists m. rewrite Hold, elem_of_app by done. by split_and!; [left|..]. }
  assert (∀ l, (l < next s)%nat → deref (cells s1) l = deref (cells s) l) as Ho'.
  { intros l Hlt. rewrite Hold; [by apply Ho|]. unfold v. lia. }
  assert (n ∈ seen ++ [n]) as Hin by (apply elem_of_app; right; left).
  repeat case_decide; split; cbn [n_store n_layer nodeMap]; try done; try (fold v; lia); rewrite ?Hs1; try (unfold v; lia).
  all: try (intros id x; rewrite lookup_insert_Some; intros [[<- <-]|[_ Hx]];
    [split; [lia|exists n; split_and!; done]|by eauto]).
  all: try (intros id1 id2 x; rewrite lookup_insert_Some).
  all: try (intros m [Hseen| ->%list_elem_of_singleton]%elem_of_app; intros; try done;
    rewrite ?lookup_insert_is_Some'; eauto).
  - intros [[<- <-]|[_ Hx]] Hy; [|by apply (Hd id1 id2 x)]. apply Hm in Hy as [Hlt _]. fold v in Hlt. lia.
  - intros Hx [[_ <-]|[_ Hy]]; [|by apply (Hd id1 id2 x)]. apply Hl in Hx as [Hlt _]. fold v in Hlt. lia.
  - intros id x [[_ <-]|[_ Hx]]%lookup_insert_Some; [done|by eapply Hf].
Qed.

Lemma nodes_spec resp : noded (concat (Nodes resp)) (nodesOf s inputNodes resp).
Proof.
  unfold nodesOf. apply (foldl_prefix_inv noded).
  - split; cbn [n_store n_layer nodeMap]; try done; try (intros ? ? ?; by rewrite lookup_empty).
    all: by intros n ?%not_elem_of_nil.
  - intros l1 n l2 st _ Hst. by apply addCNode_step.
Qed.

Lemma nodeMap_keyed resp u1 u2 v :
  nodeMap (nodesOf s inputNodes resp) !! u1 = Some v → nodeMap (nodesOf s inputNodes resp) !! u2 = Some v → u1 = u2.
Proof.
  destruct (nodes_spec resp) as [_ _ Hm _ _ _ _ _]. intros (_ & n1 & _ & _ & _ & H1)%Hm (_ & n2 & _ & _ & _ & H2)%Hm.
  rewrite H1 in H2. congruence.
Qed.

(** A link leads up to the end with the larger tier. *)
Definition leadsUp (tiers : gmap string Z) (link id up : string) : Prop :=
  (linkEnds link = [id; up] ∨ linkEnds link = [up; id]) ∧ tierOf tiers id < tierOf tiers up.

Lemma addLink_ups tiers m link id up :
  up ∈ upsOf (addLink tiers m link) id ↔ up ∈ upsOf m id ∨ leadsUp tiers link id up.
Proof.
  assert (∀ a b, up ∈ upsOf (<[a := <[b := true]> (default ∅ (m !! a))]> m) id ↔
    up ∈ upsOf m id ∨ (id = a ∧ up = b)) as Hins.
  { intros a b. unfold upsOf. destruct (decide (a = id)) as [->|Hne].
    - rewrite lookup_insert_eq. simpl. rewrite dom_insert_L, elem_of_union, elem_of_singleton. naive_solver.
    - rewrite lookup_insert_ne by done. naive_solver. }
  unfold addLink, leadsUp. destruct (linkEnds link) as [|a [|b [|]]] eqn:E; [naive_solver..| |naive_solver].
  destruct (Z.eqb_spec (tierOf tiers a) (tierOf tiers b)) as [Heq|Hneq].
  { split; [by left|]. intros [?|[[[= -> ->]|[= -> ->]] Hlt]]; [done|lia|lia]. }
  destruct (Z.ltb_spec (tierOf tiers b) (tierOf tiers a)) as [Hlt|Hge]; rewrite Hins; (split; [|]).
  - intros [?|[-> ->]]; [by left|]. right. split; [by right|done].
  - intros [?|[[[= -> ->]|[= -> ->]] Hlt']]; [by left|lia|by right].
  - intros [?|[-> ->]]; [by left|]. right. split; [by left|lia].
  - intros [?|[[[= -> ->]|[= -> ->]] Hlt']]; [by left|by right|lia].
Qed.

Lemma links_spec st resp id up :
  up ∈ upsOf (linksOf st resp) id ↔ ∃ link, link ∈ Links resp ∧ leadsUp (tierMap st) link id up.
Proof.
  unfold linksOf. induction (Links resp) as [|link l IH] using rev_ind.
  { simpl. unfold upsOf. rewrite lookup_empty. simpl. rewrite dom_empty_L. split; [set_solver|].
    by intros (? & ?%not_elem_of_nil & _). }
  rewrite foldl_snoc, addLink_ups, IH. setoid_rewrite elem_of_app. setoid_rewrite list_elem_of_singleton. naive_solver.
Qed.
End Response.

Section Premises_.
Context `{RangeOrder} (s : store) (roots : gmap string loc) (inputNodes : gset string) (resp : NetqResponse).
Let st := nodesOf s inputNodes resp.
Let links := linksOf st resp.
Let layer := layerAt links (n_layer st) (nodeMap st).

(** The vertices of the first [m] layers. *)
Definition layered (s' : store) (m : nat) : Prop :=
  ∀ k id v, (k ≤ m)%nat → layer k !! id = Some v → ∃ n, n ∈ concat (Nodes resp) ∧ Id n = id ∧
    deref (cells s') v = MkVertex (Name n) id (match k with O => ∅ | S k => childrenIn links (layer k) id end).

Lemma layers_built : ∃ s' m,
  layerLoop (S (size (nodeMap st))) links (n_store st) (n_layer st) (nodeMap st) = Some (s', layer m) ∧
  (m ≤ size (nodeMap st))%nat ∧ (m ≠ O → layer m ≠ ∅) ∧ layer (S m) = ∅ ∧ layered s' m ∧
  (∀ l, (l < next s)%nat → deref (cells s') l = deref (cells s) l).
Proof.
  destruct (nodes_spec s inputNodes resp) as [Nn Nl Nm Nd Nld Nmd No Nf]. fold st in Nn, Nl, Nm, Nd, Nld, Nmd, No, Nf.
  pose proof (nodeMap_keyed s inputNodes resp) as Hinj. fold st in Hinj.
  destruct (layerLoop_spec links (n_layer st) (nodeMap st) Hinj (S (size (nodeMap st))) 0 (n_store st))
    as (s' & m & Hloop & Hm & Hne & Hend & _ & Hname & Hkids & Hold); [unfold restAt; simpl; lia|].
  exists s', m. split_and!; [exact Hloop|apply Hm|intros ?; apply Hne; lia|exact Hend| |].
  - intros [|k] id v Hk Hv.
    + destruct (Nl id v Hv) as (_ & n & Hin & Hid & _ & Hd). exists n. rewrite Hold; [done|]. intros u. by apply (Nd id u v).
    + pose proof Hv as Hv'. apply layerAt_S in Hv' as [Hv'%restAt_sub _]. destruct (Nm id v Hv') as (_ & n & Hin & Hid & _ & Hd).
      exists n. split_and!; [done|done|]. destruct (Hname v) as [Hn Hi]. rewrite Hd in Hn, Hi.
      pose proof (Hkids k id v ltac:(lia) Hv) as Hc. by destruct (deref (cells s') v); simpl in *; subst.
  - intros l Hl. rewrite Hold; [by apply No|]. intros u Hu%Nf. lia.
Qed.

Lemma layer_child k id c ol : childrenIn links (layer k) id !! c = Some ol →
  ∃ w, ol = Some w ∧ layer k !! c = Some w ∧ tierOf (tierMap st) c < tierOf (tierMap st) id.
Proof.
  rewrite childrenIn_lookup. case_decide as Hup; [|done]. intros (w & Hw & ->)%fmap_Some. exists w.
  split_and!; [done..|]. by apply links_spec in Hup as (link & _ & _ & Hlt).
Qed.

Lemma merger_ends s' m : (m ≤ size (nodeMap st))%nat → layered s' m →
  is_Some (NewMerger (S (size (nodeMap st))) (cells s') (range (layer m)).*2).
Proof.
  intros Hm Hvert. unfold NewMerger. case_decide as Htop; [by eexists|].
  apply (traverse_ends (cells s') (λ k v, (k ≤ m)%nat ∧ ∃ id, layer k !! id = Some v) (tierOf (tierMap st))) with (k := m).
  - intros v (Hk & id & Hv). by destruct (Hvert O id v Hk Hv) as (n & _ & _ & ->).
  - intros k v (Hk & id & Hv). destruct (Hvert _ id v Hk Hv) as (n & _ & Hid & Hdv). rewrite Hdv. cbn [Vertices v_ID].
    apply layerAt_S in Hv as [_ (c & [w Hw] & Hup)%elem_of_ups]. fold layer in Hw. split.
    + intros He. assert (childrenIn links (layer k) id !! c = Some (Some w)) as Hc; [|by rewrite He, lookup_empty in Hc].
      by rewrite childrenIn_lookup, decide_True, Hw.
    + intros c' ol (w' & -> & Hw' & Hlt)%layer_child. exists w'. destruct (Hvert k c' w' ltac:(lia) Hw') as (n' & _ & _ & Hdw).
      rewrite Hdw. split; [done|]. split; [split; [lia|by exists c']|done].
  - lia.
  - intros Hnil. apply Htop. apply Permutation_nil_r. rewrite <-Hnil. symmetry. apply merge_sort_Permutation.
  - rewrite merge_sort_Permutation. apply Forall_forall. intros v ([id w] & -> & Hin%elem_of_range)%list_elem_of_fmap.
    split; [done|by exists id].
Qed.

Lemma layer_members :
  (∀ id, is_Some (layer O !! id) ↔ ∃ n, n ∈ concat (Nodes resp) ∧ Id n = id ∧ Tier n = -1 ∧ Name n ∈ inputNodes) ∧
  (∀ k id, is_Some (layer (S k) !! id) ↔
     (∃ n, n ∈ concat (Nodes resp) ∧ Id n = id ∧ Tier n ≠ -1) ∧
     (∀ j, (j < k)%nat → layer (S j) !! id = None) ∧
     ∃ c link, is_Some (layer k !! c) ∧ link ∈ Links resp ∧ leadsUp (tierMap st) link c id).
Proof.
  destruct (nodes_spec s inputNodes resp) as [Nn Nl Nm Nd Nld Nmd No Nf]. fold st in Nn, Nl, Nm, Nd, Nld, Nmd, No, Nf. split.
  - intros id. change (layer O) with (n_layer st). split.
    + intros [v (_ & n & Hin & Hid & [Ht Hn] & _)%Nl]. by exists n.
    + intros (n & Hin & <- & Ht & Hn). by apply Nld.
  - intros k id. split.
    + intros [v [Hv Hup]%layerAt_S]. fold layer in Hup.
      destruct (proj1 (restAt_spec links (n_layer st) (nodeMap st) k id)) as [[x Hx] Hj]; [by eexists|].
      split_and!; [|exact Hj|].
      * destruct (Nm id x Hx) as (_ & n & Hin & Hid & Ht & _). by exists n.
      * apply elem_of_ups in Hup as (c & Hc & (link & Hl & Hu)%links_spec). by exists c, link.
    + intros ((n & Hin & <- & Ht) & Hj & c & link & Hc & Hl & Hu).
      destruct (proj2 (restAt_spec links (n_layer st) (nodeMap st) k (Id n))) as [v Hv]; [split; [by apply Nmd|exact Hj]|].
      exists v. apply layerAt_S. split; [done|]. apply elem_of_ups. exists c. split; [done|]. apply links_spec. by exists link.
Qed.
End Premises_.

(** C25: NetQ's layers.  The lowest layer are the leaf nodes that were asked for;
    the next are the switches, of no layer before, that a node of the layer
    below is linked up to, a link leading up to the end with the larger tier.
    For every response of one entry the loop ends with the last layer that is
    not empty; the children of a switch are exactly the nodes of the layer below
    that are linked up to it; the trees of other premises are not touched; and
    the merger ends, so that the roots are recorded. *)
Theorem netq_layers `{RangeOrder} s roots inputNodes resp :
  let st := nodesOf s inputNodes resp in
  let links := linksOf st resp in
  let layer := layerAt links (n_layer st) (nodeMap st) in
  (∀ id, is_Some (layer O !! id) ↔ ∃ n, n ∈ concat (Nodes resp) ∧ Id n = id ∧ Tier n = -1 ∧ Name n ∈ inputNodes) ∧
  (∀ k id, is_Some (layer (S k) !! id) ↔
     (∃ n, n ∈ concat (Nodes resp) ∧ Id n = id ∧ Tier n ≠ -1) ∧
     (∀ j, (j < k)%nat → layer (S j) !! id = None) ∧
     ∃ c link, is_Some (layer k !! c) ∧ link ∈ Links resp ∧ leadsUp (tierMap st) link c id) ∧
  ∃ s' m merger,
    layerLoop (S (size (nodeMap st))) links (n_store st) (n_layer st) (nodeMap st) = Some (s', layer m) ∧
    (m ≠ O → layer m ≠ ∅) ∧ layer (S m) = ∅ ∧
    (∀ k id v, (k ≤ m)%nat → layer k !! id = Some v → ∃ n, n ∈ concat (Nodes resp) ∧ Id n = id ∧
       deref (cells s') v = MkVertex (Name n) id (match k with O => ∅ | S k => childrenIn links (layer k) id end)) ∧
    (∀ l, (l < next s)%nat → deref (cells s') l = deref (cells s) l) ∧
    NewMerger (S (size (nodeMap st))) (cells s') (range (layer m)).*2 = Some merger ∧
    parseNetq s roots (Some [resp]) inputNodes =
      Some (Ok (let '(s'', mg) := Merge s' merger in
                (s'', foldl (λ roots v, <[v_ID (deref (cells s'') v) := v]> roots) roots (TopTier mg)))).
Proof.
  intros st links layer. destruct (layer_members s inputNodes resp) as [H0 HS].
  destruct (layers_built s inputNodes resp) as (s' & m & Hloop & Hm & Hne & Hend & Hvert & Hold).
  destruct (merger_ends s inputNodes resp s' m Hm Hvert) as [merger Hmerger].
  split; [exact H0|]. split; [exact HS|]. exists s', m, merger. do 6 (split; [done|]).
  unfold parseNetq. cbv zeta. rewrite Hloop. simpl. rewrite Hmerger. simpl. by destruct (Merge s' merger).
Qed.

(** ** Examples *)

(** The roots with the nodes below them, to a depth of three. *)
Definition roots_of (r : option (result Error (store * gmap string loc))) : list (string * list (string * list string)) :=
  match r with
  | Some (Ok (s, roots)) =>
      let kids (l : loc) : list (string * loc) := map_to_list (omap (M := gmap string) (λ ol : option loc, ol) (Vertices (deref (cells s) l))) in
      (λ kv, (kv.1, (λ kw, (kw.1, (kids kw.2).*1)) <$> kids kv.2)) <$> map_to_list roots
  | _ => []
  end.

Definition ex_fabric (links : list string) : NetqResponse :=
  MkResponse links [[MkCNode "n1" "host1" (-1); MkCNode "n2" "host2" (-1)];
                    [MkCNode "leaf1" "leaf1" 0; MkCNode "leaf2" "leaf2" 0; MkCNode "spine" "spine" 1]].

Example netq_tree :
  roots_of (parseNetq (MkStore ∅ 0) ∅
    (Some [ex_fabric ["n1-*-leaf1"; "leaf2-*-n2"; "leaf1-*-spine"; "spine-*-leaf2"]]) {["host1"; "host2"]}) =
  [("spine", [("leaf1", ["n1"]); ("leaf2", ["n2"])])].
Proof. by vm_compute. Qed.

(** A leaf switch that is not linked to the next layer is not in the tree, nor
    are its nodes. *)
Example netq_loses_leaf_switch :
  roots_of (parseNetq (MkStore ∅ 0) ∅
    (Some [ex_fabric ["n1-*-leaf1"; "n2-*-leaf2"; "leaf1-*-spine"]]) {["host1"; "host2"]}) =
  [("spine", [("leaf1", ["n1"])])].
Proof. by vm_compute. Qed.
End Netq.
