(* ===== verification/Paging.v ===== *)
(** * Listings in pages: what the cloud providers share

    Every provider of [pkg/providers] that asks a cloud API reads a listing page
    by page, converts the entries it wants, region after region, and hands the
    collected instances to [ToGraph].  The file has the loops, and the interface
    [Cloud] that says what a provider's loop body does with a page; theorems
    about listings are proved once against the interface. *)

From S2P Require Import Prelude Queue Topology.
Open Scope Z_scope.

Module Paging.
Import Queue Topo.

(** ** Loops *)

(** A [for] loop that ends with an error, or when a page has no successor.
    [body] reads one page: the token names it. *)
Section Loop.
Context {W St T : Type} (body : St → option T → W → W * result Error (St * option T)).

Fixpoint pageLoop (fuel : nat) (s : St) (token : option T) (w : W) : option (W * result Error St) :=
  match fuel with
  | O => None
  | S fuel =>
      match body s token w with
      | (w, Err e) => Some (w, Err e)
      | (w, Ok (s, None)) => Some (w, Ok s)
      | (w, Ok (s, Some t)) => pageLoop fuel s (Some t) w
      end
  end.
End Loop.

Lemma pageLoop_ext {W St T} (f g : St → option T → W → W * result Error (St * option T)) fuel :
  (∀ s token w, f s token w = g s token w) → ∀ s token w, pageLoop f fuel s token w = pageLoop g fuel s token w.
Proof.
  intros Hfg. induction fuel as [|fuel IH]; simpl; intros s token w; [done|]. rewrite Hfg.
  destruct (g s token w) as [w1 [[s1 [t|]]|e]]; [apply IH|done..].
Qed.

(** A loop that refuses a token it has seen ends when tokens are drawn from a
    finite set. *)
Lemma guarded_ends {W St} (body : St → option string → W → W * result Error (St * option string))
    (seen : St → gset string) (T : gset string) :
  (∀ st token w w' st' next, body st token w = (w', Ok (st', Some next)) →
     next ∈ T ∧ (next ∉ seen st) ∧ seen st' = {[next]} ∪ seen st) →
  ∀ n st token w, (size (T ∖ seen st) < n)%nat → is_Some (pageLoop body n st token w).
Proof.
  intros Hb. induction n as [|n IH]; intros st token w Hn; [lia|]. simpl.
  destruct (body st token w) as [w1 [[st1 [next|]]|e]] eqn:E; [|done..].
  apply Hb in E as (HT & Hs & Hs1). apply IH. rewrite Hs1.
  assert (size (T ∖ ({[next]} ∪ seen st)) < size (T ∖ seen st))%nat; [|lia]. apply subset_size. set_solver.
Qed.

(** A loop that appends what is wanted of every entry. *)
Lemma foldl_append {A} (f : A → option InstanceTopology) l (topo : ClusterTopology) :
  foldl (λ topo x, match f x with Some inst => Append topo inst | None => topo end) topo l = topo ++ omap f l.
Proof.
  revert topo. induction l as [|x l IH]; intros topo; simpl; [by rewrite app_nil_r|]. rewrite IH.
  destruct (f x); [|done]. unfold Append. by rewrite <-app_assoc.
Qed.

Lemma foldl_append_all {A} (f : A → InstanceTopology) l (topo : ClusterTopology) :
  foldl (λ topo x, Append topo (f x)) topo l = topo ++ (f <$> l).
Proof.
  revert topo. induction l as [|x l IH]; intros topo; simpl; [by rewrite app_nil_r|]. rewrite IH.
  unfold Append. by rewrite <-app_assoc.
Qed.

Lemma omap_all {A B} (f : A → B) (l : list A) : omap (λ x, Some (f x)) l = f <$> l.
Proof. induction l as [|x l IH]; [done|]. simpl. by f_equal. Qed.

(** [for _, ci := range cis] *)
Section Regions.
Context {W : Type} (gen : ComputeInstances → ClusterTopology → W → option (W * result Error ClusterTopology)).

Fixpoint forRegions (cis : list ComputeInstances) (topo : ClusterTopology) (w : W) :
    option (W * result Error ClusterTopology) :=
  match cis with
  | [] => Some (w, Ok topo)
  | ci :: cis =>
      match gen ci topo w with
      | Some (w, Ok topo) => forRegions cis topo w
      | r => r
      end
  end.

(** [GenerateTopologyConfig], after [generateInstanceTopology]. *)
Definition graphOf `{RangeOrder} (cis : list ComputeInstances) (trimTiers : Z) (normalize : bool)
    (r : option (W * result Error ClusterTopology)) : option (W * result Error Graph) :=
  match r with
  | None => None
  | Some (w, Err e) => Some (w, Err e)
  | Some (w, Ok topo) => g ← ToGraph topo cis trimTiers normalize; Some (w, Ok g)
  end.
End Regions.

Definition noRegion : Error := NewError 400 "must specify region".

(** ** The interface *)

(** [gen]: the provider's [generateRegionInstanceTopology]; [fetch]: the page a
    token names and the token of the next one; [select]: what is made of an
    entry; [ready]: the client for a region can be built. *)
Class Cloud (W T Item : Type) := {
  ready : ComputeInstances → Prop;
  fetch : ComputeInstances → option T → W → W * result Error (list Item * option T);
  select : ComputeInstances → Item → option InstanceTopology;
  gen : nat → ComputeInstances → ClusterTopology → W → option (W * result Error ClusterTopology);
  gen_no_region : ∀ fuel ci topo w, Region ci = "" → gen fuel ci topo w = Some (w, Err noRegion);
  gen_loop : ∀ fuel ci topo w, Region ci ≠ "" → ready ci →
    gen fuel ci topo w =
    pageLoop (λ topo token w, let '(w, r) := fetch ci token w in
                (w, page ← r; Ok (topo ++ omap (select ci) page.1, page.2))) fuel topo None w
}.

(** ** Complete listings *)

Section Cloud.
Context `{Cloud W T Item}.

(** The server hands out [pages], from [token] on, and then no more. *)
Inductive serves (ci : ComputeInstances) : option T → W → list (list Item) → W → Prop :=
| serves_last token w its w' :
    fetch ci token w = (w', Ok (its, None)) → serves ci token w [its] w'
| serves_more token w its t w1 pages w' :
    fetch ci token w = (w1, Ok (its, Some t)) → serves ci (Some t) w1 pages w' → serves ci token w (its :: pages) w'.

(** One listing per region of the request. *)
Inductive answers : list ComputeInstances → W → list (list (list Item)) → W → Prop :=
| answers_nil w : answers [] w [] w
| answers_cons ci cis w pages w1 ans w' :
    Region ci ≠ "" → serves ci None w pages w1 → answers cis w1 ans w' → answers (ci :: cis) w (pages :: ans) w'.

(** The instances that complete listings report. *)
Fixpoint reported (cis : list ComputeInstances) (ans : list (list (list Item))) : ClusterTopology :=
  match cis, ans with
  | ci :: cis, pages :: ans => omap (select ci) (concat pages) ++ reported cis ans
  | _, _ => []
  end.

Definition body (ci : ComputeInstances) (topo : ClusterTopology) (token : option T) (w : W) :
    W * result Error (ClusterTopology * option T) :=
  let '(w, r) := fetch ci token w in (w, page ← r; Ok (topo ++ omap (select ci) page.1, page.2)).

Lemma pageLoop_serves ci token w pages w' : serves ci token w pages w' →
  ∀ fuel topo, (length pages ≤ fuel)%nat →
  pageLoop (body ci) fuel topo token w = Some (w', Ok (topo ++ omap (select ci) (concat pages))).
Proof.
  induction 1 as [token w its w' Hf|token w its t w1 pages w' Hf Hs IH]; intros [|fuel] topo Hl; simpl in *; try lia.
  - unfold body. rewrite Hf. simpl. by rewrite app_nil_r.
  - unfold body at 1. rewrite Hf. simpl. rewrite IH by lia. by rewrite omap_app, app_assoc.
Qed.

Lemma serves_pageLoop ci fuel : ∀ topo token w w' topo',
  pageLoop (body ci) fuel topo token w = Some (w', Ok topo') →
  ∃ pages, serves ci token w pages w' ∧ topo' = topo ++ omap (select ci) (concat pages).
Proof.
  induction fuel as [|fuel IH]; simpl; intros topo token w w' topo'; [done|]. unfold body at 1.
  destruct (fetch ci token w) as [w1 [[its [t|]]|e]] eqn:Hf; simpl; [| |done].
  - intros (pages & Hs & ->)%IH. exists (its :: pages). split; [by eapply serves_more|].
    simpl. by rewrite omap_app, app_assoc.
  - intros [= <- <-]. exists [its]. split; [by apply serves_last|]. simpl. by rewrite app_nil_r.
Qed.

Definition longest (ans : list (list (list Item))) : nat := foldr (λ pages n, (length pages `max` n)%nat) 0%nat ans.

Lemma forRegions_answers cis w ans w' : answers cis w ans w' → Forall ready cis →
  ∀ fuel topo, (longest ans ≤ fuel)%nat → forRegions (gen fuel) cis topo w = Some (w', Ok (topo ++ reported cis ans)).
Proof.
  induction 1 as [w|ci cis w pages w1 ans w' Hr Hs _ IH]; intros Hrd fuel topo Hl; simpl in *.
  - by rewrite app_nil_r.
  - apply Forall_cons in Hrd as [Hrd1 Hrd]. rewrite gen_loop by done. fold (body ci).
    rewrite (pageLoop_serves _ _ _ _ _ Hs) by lia. rewrite IH by (done || lia). by rewrite app_assoc.
Qed.

Lemma answers_forRegions fuel cis : ∀ topo w w' topo', Forall ready cis →
  forRegions (gen fuel) cis topo w = Some (w', Ok topo') →
  ∃ ans, answers cis w ans w' ∧ topo' = topo ++ reported cis ans.
Proof.
  induction cis as [|ci cis IH]; simpl; intros topo w w' topo' Hrd.
  - intros [= <- <-]. exists []. split; [constructor|]. simpl. by rewrite app_nil_r.
  - apply Forall_cons in Hrd as [Hrd1 Hrd]. destruct (decide (Region ci = "")) as [Hr|Hr]; [by rewrite gen_no_region|].
    rewrite gen_loop by done. fold (body ci). destruct (pageLoop _ _ _ _ _) as [[w1 [topo1|e]]|] eqn:Hp; [|done..].
    intros (ans & Ha & ->)%IH; [|done]. apply serves_pageLoop in Hp as (pages & Hs & ->).
    exists (pages :: ans). split; [by econstructor|]. simpl. by rewrite app_assoc.
Qed.

End Cloud.
End Paging.
