(* ===== verification/Aws.v ===== *)
(** * The AWS provider: [pkg/providers/aws]

    Listings of [DescribeInstanceTopology], one per region of the request. *)

From S2P Require Import Prelude GoStrings Queue Topology Providers Paging.
Open Scope Z_scope.

Module Aws.
Import Queue Topo Paging.

(** ** The API *)

(** [types.InstanceTopology]; the API always sets the instance ID. *)
Record ec2Instance := MkEc2Instance {
  InstanceId : string;
  NetworkNodes : list string;
  CapacityBlockId : option string
}.
Record describeInput := MkInput {
  InstanceIds : option (list string);
  MaxResults : option Z;
  NextToken : option string
}.
Record describeOutput := MkOutput { out_Instances : list ec2Instance; out_NextToken : option string }.

(** [credentials] is what retrieving them gives, if there is a provider. *)
Record Client {W : Type} := MkClient {
  ec2 : describeInput → W → W * result string describeOutput;
  credentials : option (result string ());
  c_pageSize : Z
}.
Arguments Client : clear implicits.
#[global] Arguments MkClient {W} ec2 credentials c_pageSize.

Definition defaultPageSize : Z := 100.
Definition wrap32 (z : Z) : Z := (z + 2 ^ 31) mod 2 ^ 32 - 2 ^ 31.
Definition setPageSize (val : option Z) : Z := match val with None => defaultPageSize | Some v => wrap32 v end.

(** ** Credentials *)

Record Credentials := MkCredentials { AccessKeyId : string; SecretAccessKey : string; Token : string }.
Definition authAccessKeyId : string := "accessKeyId".
Definition authSecretAccessKey : string := "secretAccessKey".

Section Provider.
Context `{RangeOrder} {W : Type}.
(** [mapstructure.Decode]; [config.LoadDefaultConfig] and [ec2.NewFromConfig]. *)
Context (Decode : gmap string Providers.value → result string Credentials).
Context (loadAWSConfig : string → option Credentials →
  result string ((describeInput → W → W * result string describeOutput) * option (result string ()))).

Definition decodeCredentials (creds : gmap string Providers.value) : result string Credentials :=
  c ← Decode creds;
  foldM (λ c key, match creds !! key with
                  | None | Some Providers.VNil => Err ("missing '" +:+ key +:+ "'")
                  | Some _ => Ok c
                  end) c [authAccessKeyId; authSecretAccessKey].

(** [creds] is [None] when the map is nil. *)
Definition getCredentialsProvider (creds : option (gmap string Providers.value)) : result Error (option Credentials) :=
  match creds with
  | None => Ok None
  | Some creds =>
      if decide (creds = ∅) then Err (NewError 400 "credentials error: explicit AWS credentials are empty")
      else match decodeCredentials creds with
           | Err msg => Err (NewError 400 ("credentials error: " +:+ msg))
           | Ok c => Ok (Some c)
           end
  end.

Record Provider := MkProvider { clientFactory : string → option Z → result string (Client W); trimTiers : Z }.

Definition Loader (creds : option (gmap string Providers.value)) (params : gmap string Providers.value) :
    result Error Provider :=
  credsProvider ← getCredentialsProvider creds;
  trimTiers ← map_err (λ _, NewError 400 "parameters error") (Providers.GetTrimTiers params);
  Ok (MkProvider (λ region pageSize,
    match loadAWSConfig region credsProvider with
    | Err msg => Err ("failed to load SDK config: " +:+ msg)
    | Ok (client, credentials) => Ok (MkClient client credentials (setPageSize pageSize))
    end) trimTiers).

(** ** Topology: [instance_topology.go] *)

Definition convert (inst : ec2Instance) : InstanceTopology :=
  MkInst (InstanceId inst) (RootFirstFabricTiers (NetworkNodes inst)) (default "" (CapacityBlockId inst)) "" None.

(** The input of the first request. *)
Definition firstInput (client : Client W) (ci : ComputeInstances) : describeInput :=
  if (size (ci_Instances ci) <=? 100)%nat then MkInput (Some (range (ci_Instances ci)).*1) None None
  else MkInput None (Some (c_pageSize client)) None.
Definition withToken (token : option string) (input : describeInput) : describeInput :=
  MkInput (InstanceIds input) (MaxResults input) token.

Definition selectElem (ci : ComputeInstances) (elem : ec2Instance) : option InstanceTopology :=
  match ci_Instances ci !! InstanceId elem with Some _ => Some (convert elem) | None => None end.

(** One cycle. *)
Definition cycle (client : Client W) (ci : ComputeInstances) (topo : ClusterTopology) (token : option string) (w : W) :
    W * result Error (ClusterTopology * option string) :=
  let '(w, r) := ec2 client (withToken token (firstInput client ci)) w in
  match r with
  | Err msg => (w, Err (NewError 502 ("failed to describe instance topology: " +:+ msg)))
  | Ok output =>
      (w, Ok (foldl (λ topo elem, match selectElem ci elem with Some inst => Append topo inst | None => topo end)
                topo (out_Instances output), out_NextToken output))
  end.

Context (p : Provider) (pageSize : option Z).

Definition generateRegionInstanceTopology (fuel : nat) (ci : ComputeInstances) (topo : ClusterTopology) (w : W) :
    option (W * result Error ClusterTopology) :=
  if decide (Region ci = "") then Some (w, Err noRegion)
  else match clientFactory p (Region ci) pageSize with
       | Err msg => Some (w, Err (NewError 502 ("failed to get client: " +:+ msg)))
       | Ok client =>
           match credentials client with
           | Some (Err msg) => Some (w, Err (NewError 502 ("failed to retrieve AWS credentials: " +:+ msg)))
           | _ => pageLoop (cycle client ci) fuel topo None w
           end
       end.

Definition generateInstanceTopology (fuel : nat) (cis : list ComputeInstances) (w : W) :
    option (W * result Error ClusterTopology) :=
  forRegions (generateRegionInstanceTopology fuel) cis NewClusterTopology w.

Definition GenerateTopologyConfig (fuel : nat) (instances : list ComputeInstances) (w : W) :
    option (W * result Error Graph) :=
  graphOf instances (trimTiers p) false (generateInstanceTopology fuel instances w).

(** ** The interface *)

Definition clientReady (ci : ComputeInstances) : Prop :=
  match clientFactory p (Region ci) pageSize with
  | Ok client => match credentials client with Some (Err _) => False | _ => True end
  | Err _ => False
  end.

Definition describe (ci : ComputeInstances) (token : option string) (w : W) :
    W * result Error (list ec2Instance * option string) :=
  match clientFactory p (Region ci) pageSize with
  | Ok client =>
      let '(w, r) := ec2 client (withToken token (firstInput client ci)) w in
      (w, match r with
          | Err msg => Err (NewError 502 ("failed to describe instance topology: " +:+ msg))
          | Ok output => Ok (out_Instances output, out_NextToken output)
          end)
  | Err _ => (w, Err noRegion)
  end.

#[global] Program Instance aws_cloud : Cloud W string ec2Instance := {|
  ready := clientReady;
  fetch := describe;
  select := selectElem;
  gen := generateRegionInstanceTopology
|}.
Next Obligation. intros fuel ci topo w Hr. unfold generateRegionInstanceTopology. by rewrite decide_True. Qed.
Next Obligation.
  intros fuel ci topo w Hr Hrd. unfold generateRegionInstanceTopology, clientReady, describe in *.
  rewrite decide_False by done. destruct (clientFactory p (Region ci) pageSize) as [client|]; [|done].
  assert (∀ topo token w, cycle client ci topo token w =
    let '(w, r) := (let '(w, r) := ec2 client (withToken token (firstInput client ci)) w in
      (w, match r with
          | Err msg => Err (NewError 502 ("failed to describe instance topology: " +:+ msg))
          | Ok output => Ok (out_Instances output, out_NextToken output)
          end)) in (w, page ← r; Ok (topo ++ omap (selectElem ci) page.1, page.2))) as Hb.
  { clear. intros topo token w. unfold cycle. destruct (ec2 client _ w) as [w1 [output|]]; [|done]. simpl.
    by rewrite foldl_append. }
  destruct (credentials client) as [[|]|]; [|done|]; by apply pageLoop_ext.
Qed.
End Provider.
End Aws.
