(* ===== verification/Gcp.v ===== *)
(** * The GCP provider: [pkg/providers/gcp]

    Listings of the instances of a zone; the physical host topology of an
    instance gives its switches. *)

From S2P Require Import Prelude GoStrings Queue Topology Providers Paging.
Open Scope Z_scope.

Module Gcp.
Import Queue Topo Paging.

(** ** The API *)

Record hostTopology := MkHostTopology { Cluster : option string; Block : option string; Subblock : option string }.

(** [computepb.Instance]: the ID, which the API always sets, and the resource
    status with its host topology, each possibly absent. *)
Record gcpInstance := MkGcpInstance { Id : Z; ResourceStatus : option (option hostTopology) }.

Record listRequest := MkListRequest {
  Project : string;
  Zone : string;
  rq_MaxResults : option Z;
  PageToken : option string
}.

(** An iterator is what its calls of [Next] return before [iterator.Done];
    [Instances] also returns the token of the next page. *)
Record Client {W : Type} := MkClient {
  ProjectID : string;
  PageSize : option Z;
  Instances : listRequest → W → W * (list (result string gcpInstance) * string)
}.
Arguments Client : clear implicits.
#[global] Arguments MkClient {W} ProjectID PageSize Instances.

Definition castPageSize (val : option Z) : option Z := (λ v, v mod 2 ^ 32) <$> val.

(** ** The project *)

Section Project.
(** [mapstructure.Decode], [json.Unmarshal] of a file, the metadata server. *)
Context {any : Type} (Decode : any → result string string).
Context (credentialsFile : option (result string any)) (metadataProject : result string string).

Definition decodeProjectID (input : any) (must : bool) : result string string :=
  id ← Decode input;
  if must && bool_decide (id = "") then Err "missing 'project_id'" else Ok id.

(** [credentialsFile]: what the file named by GOOGLE_APPLICATION_CREDENTIALS
    holds, when the variable is set. *)
Definition getProjectID (params : any) : result string string :=
  projectID ← map_err (λ msg, "error in topology request parameters: " +:+ msg) (decodeProjectID params false);
  if decide (projectID ≠ "") then Ok projectID
  else match credentialsFile with
       | Some file =>
           creds ← file;
           map_err (λ msg, "error in GOOGLE_APPLICATION_CREDENTIALS: " +:+ msg) (decodeProjectID creds true)
       | None => metadataProject
       end.
End Project.

(** ** Regions: [imds.go] *)

Fixpoint afterLastSlash (s : string) : string :=
  match s with
  | "" => ""
  | String c rest => if contains_chr "/" rest then afterLastSlash rest else if decide (c = "/"%char) then rest else s
  end.
Definition convertRegion (region : string) : string := afterLastSlash region.

(** After [ParsePdshOutput]. *)
Definition zonesToRegions (res : gmap string string) : gmap string string :=
  (λ val, convertRegion (trim_space val)) <$> res.

(** ** Topology: [instance_topology.go] *)

Section Provider.
Context `{RangeOrder} {W : Type}.

Record Provider := MkProvider { clientFactory : option Z → result string (Client W); trimTiers : Z }.

Definition selectInstance (ci : ComputeInstances) (instance : gcpInstance) : option InstanceTopology :=
  let instanceId := itoa (Id instance) in
  match ci_Instances ci !! instanceId with
  | None => None
  | Some _ =>
      match ResourceStatus instance with
      | Some (Some (MkHostTopology (Some cluster) (Some block) (Some subblock))) =>
          let tiers := ClosestFirstFabricTiers [subblock; block; cluster] in
          Some (MkInst instanceId tiers (tierID tiers 0) "" None)
      | _ => None
      end
  end.

(** The inner loop over the iterator. *)
Definition addInstance (ci : ComputeInstances) (topo : ClusterTopology) (next : result string gcpInstance) :
    result Error ClusterTopology :=
  match next with
  | Err msg => Err (NewError 502 msg)
  | Ok instance => Ok (match selectInstance ci instance with Some inst => Append topo inst | None => topo end)
  end.

Definition listPage (client : Client W) (ci : ComputeInstances) (topo : ClusterTopology) (token : option string) (w : W) :
    W * result Error (ClusterTopology * option string) :=
  let '(w, (iter, token)) := Instances client (MkListRequest (ProjectID client) (Region ci) (PageSize client) token) w in
  (w, topo ← foldM (addInstance ci) topo iter; Ok (topo, if decide (token = "") then None else Some token)).

Definition generateRegionInstanceTopology (client : Client W) (fuel : nat) (ci : ComputeInstances)
    (topo : ClusterTopology) (w : W) : option (W * result Error ClusterTopology) :=
  if decide (Region ci = "") then Some (w, Err noRegion)
  else pageLoop (listPage client ci) fuel topo None w.

Definition generateInstanceTopology (p : Provider) (pageSize : option Z) (fuel : nat) (cis : list ComputeInstances) (w : W) :
    option (W * result Error ClusterTopology) :=
  match clientFactory p pageSize with
  | Err msg => Some (w, Err (NewError 502 ("failed to get client: " +:+ msg)))
  | Ok client => forRegions (generateRegionInstanceTopology client fuel) cis NewClusterTopology w
  end.

Definition GenerateTopologyConfig (p : Provider) (pageSize : option Z) (fuel : nat) (instances : list ComputeInstances)
    (w : W) : option (W * result Error Graph) :=
  graphOf instances (trimTiers p) false (generateInstanceTopology p pageSize fuel instances w).

(** ** The interface *)

(** The iterator as a page. *)
Definition collect (its : list gcpInstance) (next : result string gcpInstance) : result Error (list gcpInstance) :=
  match next with Err msg => Err (NewError 502 msg) | Ok i => Ok (its ++ [i]) end.
Definition pageOf (iter : list (result string gcpInstance)) : result Error (list gcpInstance) := foldM collect [] iter.

Lemma foldM_collect ci iter topo : ∀ its,
  foldM (addInstance ci) (topo ++ omap (selectInstance ci) its) iter =
  (its ← foldM collect its iter; Ok (topo ++ omap (selectInstance ci) its)).
Proof.
  induction iter as [|[i|msg] iter IH]; intros its; simpl; [done| |done]. rewrite <-IH. f_equal.
  rewrite omap_app. simpl. destruct (selectInstance ci i); simpl; [|by rewrite app_nil_r].
  unfold Append. by rewrite app_assoc.
Qed.

Lemma foldM_pageOf ci iter topo :
  foldM (addInstance ci) topo iter = (its ← pageOf iter; Ok (topo ++ omap (selectInstance ci) its)).
Proof. unfold pageOf. rewrite <-(foldM_collect ci iter topo []). simpl. by rewrite app_nil_r. Qed.

Definition list_ (client : Client W) (ci : ComputeInstances) (token : option string) (w : W) :
    W * result Error (list gcpInstance * option string) :=
  let '(w, (iter, token)) := Instances client (MkListRequest (ProjectID client) (Region ci) (PageSize client) token) w in
  (w, its ← pageOf iter; Ok (its, if decide (token = "") then None else Some token)).

#[global] Program Instance gcp_cloud (client : Client W) : Cloud W string gcpInstance := {|
  ready _ := True;
  fetch := list_ client;
  select := selectInstance;
  gen := generateRegionInstanceTopology client
|}.
Next Obligation. intros client fuel ci topo w Hr. unfold generateRegionInstanceTopology. by rewrite decide_True. Qed.
Next Obligation.
  intros client fuel ci topo w Hr _. unfold generateRegionInstanceTopology. rewrite decide_False by done.
  apply pageLoop_ext. clear. intros topo token w. unfold listPage, list_.
  destruct (Instances client _ w) as [w1 [iter t]]. rewrite foldM_pageOf. by destruct (pageOf iter).
Qed.
End Provider.
End Gcp.
