(* ===== verification/Nebius.v ===== *)
(** * The Nebius provider: [pkg/providers/nebius] *)

From S2P Require Import Prelude GoStrings Queue Topology Providers Paging.
Open Scope Z_scope.

Module Nebius.
Import Queue Topo Paging.

(** ** The API *)

(** [compute.Instance]: the getters give the empty string for what is absent;
    the path is [None] without an InfiniBand topology. *)
Record computeInstance := MkComputeInstance {
  GetId : string;
  InfinibandTopologyPath : option (list string);
  NvlInstanceGroupId : string
}.
Record listRequest := MkListRequest { ParentId : string; rq_PageSize : Z; PageToken : string }.
Record listResponse := MkListResponse { Items : list computeInstance; NextPageToken : string }.

Record Client {W : Type} := MkClient {
  ProjectID : string;
  PageSize : Z;
  GetComputeInstanceList : listRequest → W → W * result string listResponse
}.
Arguments Client : clear implicits.
#[global] Arguments MkClient {W} ProjectID PageSize GetComputeInstanceList.

Definition defaultPageSize : Z := 200.
Definition getPageSize (sz : option Z) : Z := default defaultPageSize sz.
Definition nebiusFabricTierCount : nat := 3.

Definition userAgentProduct : string := "nvidia-topograph".
Definition getUserAgentPrefix (versionValue : string) : string :=
  if decide (trim_space versionValue = "") then userAgentProduct else userAgentProduct +:+ "/" +:+ versionValue.

(** ** Authentication *)

Record credentials := MkCredentials {
  cr_ProjectID : string;
  ServiceAccountID : string;
  PublicKeyID : string;
  PrivateKey : string
}.
Inductive authOption := PrivateKeyAuth (privateKey publicKeyID serviceAccountID : string) | IAMToken (token : string).

(** [imdsToken]: the answer of the metadata server. *)
Definition getAuthOption (Getenv : string → string) (imdsToken : result string string) (creds : credentials) :
    result Error authOption :=
  if decide (ServiceAccountID creds ≠ "" ∨ PublicKeyID creds ≠ "" ∨ PrivateKey creds ≠ "") then
    let missing :=
      (if decide (ServiceAccountID creds = "") then ["serviceAccountId"] else []) ++
      (if decide (PublicKeyID creds = "") then ["publicKeyId"] else []) ++
      (if decide (PrivateKey creds = "") then ["privateKey"] else []) in
    if decide (missing ≠ []) then Err (NewError 400 ("credentials error: missing " +:+ join "," missing))
    else Ok (PrivateKeyAuth (PrivateKey creds) (PublicKeyID creds) (ServiceAccountID creds))
  else if decide (Getenv "IAM_TOKEN" ≠ "") then Ok (IAMToken (Getenv "IAM_TOKEN"))
  else match imdsToken with
       | Err msg => Err (NewError 500 ("failed to get IAM token from IMDS: " +:+ msg))
       | Ok token => Ok (IAMToken token)
       end.

(** ** Topology: [instance_topology.go] *)

Section Provider.
Context `{RangeOrder} {W : Type}.

Record Provider := MkProvider { clientFactory : option Z → result string (Client W); trimTiers : Z }.

Definition selectInstance (ci : ComputeInstances) (instance : computeInstance) : option InstanceTopology :=
  match ci_Instances ci !! GetId instance with
  | None => None
  | Some _ =>
      match InfinibandTopologyPath instance with
      | None => None
      | Some path =>
          if decide (length path ≠ nebiusFabricTierCount) then None
          else Some (MkInst (GetId instance) (RootFirstFabricTiers path) (NvlInstanceGroupId instance) "" None)
      end
  end.

Definition listPage (client : Client W) (ci : ComputeInstances) (topo : ClusterTopology) (token : option string) (w : W) :
    W * result Error (ClusterTopology * option string) :=
  let '(w, r) := GetComputeInstanceList client
                   (MkListRequest (ProjectID client) (PageSize client) (default "" token)) w in
  match r with
  | Err msg => (w, Err (NewError 502 ("failed to get instance list: " +:+ msg)))
  | Ok resp =>
      (w, Ok (foldl (λ topo i, match selectInstance ci i with Some inst => Append topo inst | None => topo end)
                topo (Items resp),
              if decide (NextPageToken resp = "") then None else Some (NextPageToken resp)))
  end.

Definition generateRegionInstanceTopology (client : Client W) (fuel : nat) (ci : ComputeInstances)
    (topo : ClusterTopology) (w : W) : option (W * result Error ClusterTopology) :=
  if decide (Region ci = "") then Some (w, Err noRegion)
  else pageLoop (listPage client ci) fuel topo None w.

Definition generateInstanceTopology (p : Provider) (pageSize : option Z) (fuel : nat) (cis : list ComputeInstances) (w : W) :
    option (W * result Error ClusterTopology) :=
  match clientFactory p pageSize with
  | Err msg => Some (w, Err (NewError 502 ("failed to create API client: " +:+ msg)))
  | Ok client => forRegions (generateRegionInstanceTopology client fuel) cis NewClusterTopology w
  end.

Definition GenerateTopologyConfig (p : Provider) (pageSize : option Z) (fuel : nat) (instances : list ComputeInstances)
    (w : W) : option (W * result Error Graph) :=
  graphOf instances (trimTiers p) false (generateInstanceTopology p pageSize fuel instances w).

(** ** The interface *)

Definition list_ (client : Client W) (ci : ComputeInstances) (token : option string) (w : W) :
    W * result Error (list computeInstance * option string) :=
  let '(w, r) := GetComputeInstanceList client
                   (MkListRequest (ProjectID client) (PageSize client) (default "" token)) w in
  (w, match r with
      | Err msg => Err (NewError 502 ("failed to get instance list: " +:+ msg))
      | Ok resp => Ok (Items resp, if decide (NextPageToken resp = "") then None else Some (NextPageToken resp))
      end).

#[global] Program Instance nebius_cloud (client : Client W) : Cloud W string computeInstance := {|
  ready _ := True;
  fetch := list_ client;
  select := selectInstance;
  gen := generateRegionInstanceTopology client
|}.
Next Obligation. intros client fuel ci topo w Hr. unfold generateRegionInstanceTopology. by rewrite decide_True. Qed.
Next Obligation.
  intros client fuel ci topo w Hr _. unfold generateRegionInstanceTopology. rewrite decide_False by done.
  apply pageLoop_ext. clear. intros topo token w. unfold listPage, list_.
  destruct (GetComputeInstanceList client _ w) as [w1 [resp|]]; [|done]. simpl. by rewrite foldl_append.
Qed.
End Provider.
End Nebius.
