(* ===== verification/Nscale.v ===== *)
(** * The nscale provider: [pkg/providers/nscale]

    A listing by offset, and the metadata of nodes that [pdsh] collects. *)

From S2P Require Import Prelude GoStrings Queue Topology Providers Paging.
Open Scope Z_scope.

Module Nscale.
Import Queue Topo Paging.

(** ** Parameters and credentials: [provider.go] *)

Record ProviderParams := MkParams { RadarApiUrl : string; TrimTiers : Z; IMDSUrl : string }.
Record Credentials := MkCredentials { Org : string; Token : string; cr_Region : string }.

Definition IMDSURL : string := "http://169.254.169.254/openstack/latest/meta_data.json".

(** [decoded]: what decoding makes of the parameters, without [imdsUrl]. *)
Definition getParams (decoded : result string ProviderParams) (params : gmap string Providers.value) :
    result string ProviderParams :=
  p ← map_err (λ msg, "failed to decode params: " +:+ msg) decoded;
  if decide (RadarApiUrl p = "") then Err "missing 'radarApiUrl'"
  else
    imdsURL ← map_err (λ _, "invalid imdsUrl") (Providers.GetIMDSURL params);
    Ok (MkParams (RadarApiUrl p) (TrimTiers p) imdsURL).

Definition getCreds (decoded : result string Credentials) : result string Credentials :=
  c ← map_err (λ msg, "failed to decode creds: " +:+ msg) decoded;
  if decide (Org c = "") then Err "missing 'org'"
  else if decide (Token c = "") then Err "missing 'token'"
  else Ok c.

Definition imdsURL (params : option ProviderParams) : string :=
  match params with
  | Some p => if decide (IMDSUrl p ≠ "") then IMDSUrl p else IMDSURL
  | None => IMDSURL
  end.

(** ** Node metadata: [imds.go] *)

Record imdsMeta := MkMeta { ServerID : string; RegionID : string }.

(** Every quote becomes quote, backslash, quote, quote. *)
Fixpoint escapeQuotes (s : string) : string :=
  match s with
  | "" => ""
  | String c rest => if decide (c = "'"%char) then "'\''" +:+ escapeQuotes rest else String c (escapeQuotes rest)
  end.
Definition shellQuote (s : string) : string := "'" +:+ escapeQuotes s +:+ "'".

Definition maxIMDSLineSize : Z := 2 ^ 20.

(** [lines]: what the scanner yields, [None] when a line is too long. *)
Definition addMetadata (unmarshal : string → option imdsMeta) (res : gmap string imdsMeta) (line : string) :
    gmap string imdsMeta :=
  match Providers.cutColon line with
  | None => res
  | Some (node, data) => match unmarshal data with Some m => <[node := m]> res | None => res end
  end.
Definition parseIMDSOutput (unmarshal : string → option imdsMeta) (lines : option (list string)) :
    option (gmap string imdsMeta) :=
  foldl (addMetadata unmarshal) ∅ <$> lines.

Definition filterByRegion (nodeMeta : gmap string imdsMeta) (expectedRegion : string) : gmap string imdsMeta :=
  if decide (expectedRegion = "") then nodeMeta else filter (λ nm, RegionID nm.2 = expectedRegion) nodeMeta.

Section Range.
Context `{RangeOrder}.

(** Two nodes with the same server ID: the one ranged over last wins. *)
Definition instanceToNodeMap (nodeMeta : gmap string imdsMeta) : gmap string string :=
  foldl (λ i2n '(node, m), if decide (ServerID m = "") then i2n else <[ServerID m := node]> i2n) ∅ (range nodeMeta).

Definition getRegions (nodeMeta : gmap string imdsMeta) : gmap string string :=
  omap (λ m, if decide (RegionID m = "") then None else Some (RegionID m)) nodeMeta.

(** [fetched]: the metadata of the nodes. *)
Definition GetNodeInstances (creds : option Credentials) (fetched : result string (gmap string imdsMeta)) :
    result string (list ComputeInstances) :=
  nodeMeta ← fetched;
  let nodeMeta := filterByRegion nodeMeta (from_option cr_Region "" creds) in
  Ok (Providers.GroupByRegion (instanceToNodeMap nodeMeta) (getRegions nodeMeta)).
End Range.

(** ** Topology: [instance_topology.go] *)

Record serverTopology := MkServerTopology { st_ServerID : string; NetworkPath : list string; BlockID : option string }.

Definition defaultPageSize : Z := 100.

Section Provider.
Context `{RangeOrder} {W : Type}.
(** [client.Topology]: region, page size, offset. *)
Context (Topology_ : string → Z → Z → W → W * result Error (list serverTopology)).

Definition instanceOf (inst : serverTopology) : InstanceTopology :=
  MkInst (st_ServerID inst) (RootFirstFabricTiers (NetworkPath inst)) (default "" (BlockID inst)) "" None.

(** The offset is the token; 0 at first. *)
Definition listPage (pageSize : Z) (ci : ComputeInstances) (topo : ClusterTopology) (offset : option Z) (w : W) :
    W * result Error (ClusterTopology * option Z) :=
  let off := default 0 offset in
  let '(w, r) := Topology_ (Region ci) pageSize off w in
  match r with
  | Err e => (w, Err e)
  | Ok resp =>
      let n := Z.of_nat (length resp) in
      if n =? 0 then (w, Ok (topo, None))
      else (w, Ok (foldl (λ topo inst, Append topo (instanceOf inst)) topo resp, Some (off + n)))
  end.

Definition generateRegionInstanceTopology (pageSize : Z) (fuel : nat) (ci : ComputeInstances) (topo : ClusterTopology)
    (w : W) : option (W * result Error ClusterTopology) :=
  if decide (Region ci = "") then Some (w, Err noRegion)
  else pageLoop (listPage pageSize ci) fuel topo None w.

Definition generateInstanceTopology (pSize : option Z) (fuel : nat) (cis : list ComputeInstances) (w : W) :
    option (W * result Error ClusterTopology) :=
  forRegions (generateRegionInstanceTopology (default defaultPageSize pSize) fuel) cis NewClusterTopology w.

Definition GenerateTopologyConfig (params : ProviderParams) (pageSize : option Z) (fuel : nat)
    (instances : list ComputeInstances) (w : W) : option (W * result Error Graph) :=
  graphOf instances (TrimTiers params) false (generateInstanceTopology pageSize fuel instances w).

(** ** The interface *)

Definition list_ (pageSize : Z) (ci : ComputeInstances) (offset : option Z) (w : W) :
    W * result Error (list serverTopology * option Z) :=
  let off := default 0 offset in
  let '(w, r) := Topology_ (Region ci) pageSize off w in
  (w, match r with
      | Err e => Err e
      | Ok resp => Ok (resp, if decide (resp = []) then None else Some (off + Z.of_nat (length resp)))
      end).

#[global] Program Instance nscale_cloud (pageSize : Z) : Cloud W Z serverTopology := {|
  ready _ := True;
  fetch := list_ pageSize;
  select _ inst := Some (instanceOf inst);
  gen := generateRegionInstanceTopology pageSize
|}.
Next Obligation. intros pageSize fuel ci topo w Hr. unfold generateRegionInstanceTopology. by rewrite decide_True. Qed.
Next Obligation.
  intros pageSize fuel ci topo w Hr _. unfold generateRegionInstanceTopology. rewrite decide_False by done.
  apply pageLoop_ext. clear. intros topo offset w. unfold listPage, list_.
  destruct (Topology_ (Region ci) pageSize (default 0 offset) w) as [w1 [resp|]]; [|done]. simpl.
  rewrite foldl_append_all, omap_all. destruct resp; simpl; [by rewrite app_nil_r|done].
Qed.
End Provider.

(** ** A server that keeps still *)

Section Still.
Context `{RangeOrder} (servers : string → list serverTopology) (pageSize : Z).

(** The server answers from a fixed list. *)
Definition stillServer (region : string) (limit offset : Z) (w : ()) : () * result Error (list serverTopology) :=
  (w, Ok (take (Z.to_nat limit) (drop (Z.to_nat offset) (servers region)))).

Lemma stillServer_reads fuel ci topo :
  Region ci ≠ "" → 0 < pageSize → (length (servers (Region ci)) < fuel)%nat →
  generateRegionInstanceTopology stillServer pageSize fuel ci topo () = Some ((), Ok (topo ++ (instanceOf <$> servers (Region ci)))).
Proof.
  intros Hr Hp Hn. unfold generateRegionInstanceTopology.
  rewrite decide_False by done. set (l := servers (Region ci)) in *.
  assert (∀ k (topo : ClusterTopology) (offset : option Z), let off := default 0 offset in
    (length l - Z.to_nat off < k)%nat → 0 ≤ off →
    pageLoop (listPage stillServer pageSize ci) k topo offset () =
    Some ((), Ok (topo ++ (instanceOf <$> drop (Z.to_nat off) l)))) as Hloop.
  { induction k as [|k IH]; intros topo' offset off Hf Ho; [lia|]. simpl.
    unfold listPage at 1, stillServer at 1. fold l. fold off.
    destruct (drop (Z.to_nat off) l) as [|s rest] eqn:Ed; [by rewrite take_nil; simpl; rewrite app_nil_r|].
    pose proof (length_drop l (Z.to_nat off)) as Hlen. rewrite Ed in Hlen. simpl in Hlen.
    destruct (Z.to_nat pageSize) as [|n] eqn:En; [lia|]. rewrite foldl_append_all. simpl.
    rewrite IH; simpl; [|rewrite length_take; lia..]. rewrite <-app_assoc. do 4 f_equal. simpl. f_equal.
    replace (Z.to_nat (off + Z.of_nat (S (length (take n rest))))) with (Z.to_nat off + S (length (take n rest)))%nat by lia.
    rewrite <-drop_drop, Ed. simpl.
    assert (drop (length (take n rest)) rest = drop n rest) as ->.
    { rewrite length_take. destruct (Nat.min_spec n (length rest)) as [[_ ->]|[? ->]]; [done|].
      by rewrite drop_all, drop_ge. }
    change (list_fmap _ _ instanceOf) with (fmap (M := list) instanceOf). by rewrite <-fmap_app, take_drop. }
  rewrite Hloop; simpl; [by rewrite drop_0|lia..].
Qed.

(** Paging by offset reads everything.  With a positive page size and a
    server that answers every request from the same list, the listing of a
    region ends, and collects every server of the region once, in order. *)
Theorem nscale_reads_all ci topo :
  Region ci ≠ "" → 0 < pageSize → ∃ fuel,
  generateRegionInstanceTopology stillServer pageSize fuel ci topo () = Some ((), Ok (topo ++ (instanceOf <$> servers (Region ci)))).
Proof. intros Hr Hp. exists (S (length (servers (Region ci)))). apply stillServer_reads; [done|done|lia]. Qed.
End Still.

(** Three servers, two to a page. *)
Definition w_servers (region : string) : list serverTopology :=
  [MkServerTopology "s1" ["a"; "b"] None; MkServerTopology "s2" ["a"; "b"] (Some "blk"); MkServerTopology "s3" ["a"; "c"] None].

Lemma nscale_reads_all_witness : ∃ fuel,
  generateRegionInstanceTopology (stillServer w_servers) 2 fuel (MkCI "eu" ∅) [] () =
  Some ((), Ok (instanceOf <$> w_servers "eu")).
Proof. exact (nscale_reads_all w_servers 2 (MkCI "eu" ∅) [] ltac:(done) ltac:(lia)). Defined.
End Nscale.
