(* ===== verification/LambdaApi.v ===== *)
(** * The Lambda provider's listing: [pkg/providers/lambdai]

    [provider.go] asks the topology API with a bearer token; a token that the
    API rejects is dropped and minted again, once.  [instance_topology.go]
    reads the listing page by page. *)

From S2P Require Import Prelude GoStrings Queue Topology Paging.
Open Scope Z_scope.

Module LambdaApi.
Import Queue Topo Paging.

(** ** The API *)

Record NVLinkInfo := MkNVLink { DomainID : string; CliqueID : string }.
(** [InstanceTopology] of the package: the hops from the leaf upwards. *)
Record instanceTopology := MkInstanceTopology { ID : string; NetworkPath : list string; NVLink : option NVLinkInfo }.
Record InstanceListRequest := MkRequest { rq_Region : string; rq_PageSize : Z; rq_PageToken : string }.
Record InstanceListResponse := MkResponse { Items : list instanceTopology; NextPageToken : string }.

Definition defaultPageSize : Z := 200.
Definition getPageSize (sz : option Z) : Z := default defaultPageSize sz.

(** A [tokenProvider]; [InvalidateIfCurrent] is there when it is an
    [invalidator]. *)
Record tokenProvider {W : Type} := MkTokenProvider {
  Token : W → W * result Error string;
  InvalidateIfCurrent : option (string → W → W)
}.
Arguments tokenProvider : clear implicits.
#[global] Arguments MkTokenProvider {W} Token InvalidateIfCurrent.
Definition staticToken {W} (s : string) : tokenProvider W := MkTokenProvider (λ w, (w, Ok s)) None.

Section Client.
Context {W : Type}.
(** [httpreq.DoRequestWithRetries] with a bearer token and a query, and the
    decoding of the body. *)
Context (get : string → gmap string string → W → W * result Error string).
Context (unmarshal : string → result string InstanceListResponse).

Record lambdaiClient := MkClient { token : tokenProvider W; workspaceID : string; pageSize : Z }.
Context (c : lambdaiClient).

Definition query (req : InstanceListRequest) : gmap string string :=
  let q := {[ "workspace_id" := workspaceID c; "region" := rq_Region req ]} in
  let q := if 0 <? rq_PageSize req then <["page_size" := itoa (rq_PageSize req)]> q else q in
  if decide (rq_PageToken req ≠ "") then <["page_token" := rq_PageToken req]> q else q.

Definition instanceListOnce (req : InstanceListRequest) (w : W) : W * string * result Error InstanceListResponse :=
  match Token (token c) w with
  | (w, Err e) => (w, "", Err e)
  | (w, Ok bearer) =>
      match get bearer (query req) w with
      | (w, Err e) => (w, bearer, Err e)
      | (w, Ok body) =>
          match unmarshal body with
          | Err msg => (w, bearer, Err (NewError 502 msg))
          | Ok resp => (w, bearer, Ok resp)
          end
      end
  end.

Definition InstanceList (req : InstanceListRequest) (w : W) : W * result Error InstanceListResponse :=
  let '(w, bearer, r) := instanceListOnce req w in
  match r with
  | Err e =>
      if Code e =? 401 then
        match InvalidateIfCurrent (token c) with
        | Some invalidate => let '(w, _, r) := instanceListOnce req (invalidate bearer w) in (w, r)
        | None => (w, r)
        end
      else (w, r)
  | Ok _ => (w, r)
  end.

(** ** Rejected tokens *)

(** The server's answer to a token. *)
Definition answer (bearer : string) (req : InstanceListRequest) (w : W) : W * result Error InstanceListResponse :=
  let '(w, r) := get bearer (query req) w in
  (w, match r with
      | Err e => Err e
      | Ok body => match unmarshal body with Err msg => Err (NewError 502 msg) | Ok resp => Ok resp end
      end).

Lemma instanceListOnce_answer req w w1 bearer : Token (token c) w = (w1, Ok bearer) →
  instanceListOnce req w = ((answer bearer req w1).1, bearer, (answer bearer req w1).2).
Proof.
  intros Ht. unfold instanceListOnce, answer. rewrite Ht. destruct (get bearer (query req) w1) as [w2 [body|]]; [|done].
  by destruct (unmarshal body).
Qed.

(** One rejected token costs one retry: a request whose answer is 401 drops
    exactly the token it used and asks once more with the token it gets then; with a static token, or when
    the answer is not 401, the first answer stands. *)
Lemma rejected_token_retried req w w1 bearer e :
  Token (token c) w = (w1, Ok bearer) → (answer bearer req w1).2 = Err e →
  InstanceList req w =
    match InvalidateIfCurrent (token c) with
    | Some invalidate =>
        if Code e =? 401 then
          let w2 := invalidate bearer (answer bearer req w1).1 in
          match Token (token c) w2 with
          | (w3, Ok bearer') => answer bearer' req w3
          | (w3, Err e') => (w3, Err e')
          end
        else answer bearer req w1
    | None => answer bearer req w1
    end.
Proof.
  intros Ht He. unfold InstanceList. rewrite (instanceListOnce_answer _ _ _ _ Ht). rewrite He.
  pose proof (surjective_pairing (answer bearer req w1)) as Hp. rewrite He in Hp.
  destruct (InvalidateIfCurrent (token c)) as [invalidate|]; destruct (Code e =? 401); rewrite <-?Hp; try done.
  destruct (Token (token c) (invalidate bearer (answer bearer req w1).1)) as [w3 [bearer'|e']] eqn:Ht2.
  - rewrite (instanceListOnce_answer _ _ _ _ Ht2). by destruct (answer bearer' req w3).
  - unfold instanceListOnce. by rewrite Ht2.
Qed.
End Client.

(** ** Topology: [instance_topology.go] *)

(** The interface [Client], as far as listings use it. *)
Record Client {W : Type} := MkApi {
  PageSize : Z;
  List : InstanceListRequest → W → W * result string InstanceListResponse
}.
Arguments Client : clear implicits.
#[global] Arguments MkApi {W} PageSize List.

(** The client of the loader. *)
Definition asClient {W} get unmarshal (c : lambdaiClient (W := W)) : Client W :=
  MkApi (pageSize c) (λ req w, let '(w, r) := InstanceList get unmarshal c req w in (w, map_err Msg r)).

Definition instanceOf (inst : instanceTopology) : InstanceTopology :=
  let domain :=
    match NVLink inst with
    | None => ""
    | Some nv => if decide (DomainID nv = "" ∨ CliqueID nv = "") then "" else DomainID nv +:+ "." +:+ CliqueID nv
    end in
  MkInst (ID inst) (ClosestFirstFabricTiers (NetworkPath inst)) domain "" None.

Section Provider.
Context `{RangeOrder} {W : Type}.

Record Provider := MkProvider { clientFactory : option Z → result string (Client W); trimTiers : Z }.

Definition listPage (client : Client W) (ci : ComputeInstances) (topo : ClusterTopology) (token : option string) (w : W) :
    W * result Error (ClusterTopology * option string) :=
  match List client (MkRequest (Region ci) (PageSize client) (default "" token)) w with
  | (w, Err msg) => (w, Err (NewError 502 ("failed to get instance list: " +:+ msg)))
  | (w, Ok resp) =>
      (w, Ok (foldl (λ topo inst, Append topo (instanceOf inst)) topo (Items resp),
              if decide (NextPageToken resp = "") then None else Some (NextPageToken resp)))
  end.

Definition generateRegionInstanceTopology (client : Client W) (fuel : nat) (ci : ComputeInstances)
    (topo : ClusterTopology) (w : W) : option (W * result Error ClusterTopology) :=
  if decide (Region ci = "") then Some (w, Err noRegion)
  else pageLoop (listPage client ci) fuel topo None w.

Definition generateInstanceTopology (p : Provider) (page : option Z) (fuel : nat) (cis : list ComputeInstances) (w : W) :
    option (W * result Error ClusterTopology) :=
  match clientFactory p page with
  | Err msg => Some (w, Err (NewError 502 ("failed to create API client: " +:+ msg)))
  | Ok client => forRegions (generateRegionInstanceTopology client fuel) cis NewClusterTopology w
  end.

Definition GenerateTopologyConfig (p : Provider) (page : option Z) (fuel : nat) (instances : list ComputeInstances)
    (w : W) : option (W * result Error Graph) :=
  graphOf instances (trimTiers p) false (generateInstanceTopology p page fuel instances w).

(** ** The interface *)

Definition list_ (client : Client W) (ci : ComputeInstances) (token : option string) (w : W) :
    W * result Error (list instanceTopology * option string) :=
  match List client (MkRequest (Region ci) (PageSize client) (default "" token)) w with
  | (w, Err msg) => (w, Err (NewError 502 ("failed to get instance list: " +:+ msg)))
  | (w, Ok resp) => (w, Ok (Items resp, if decide (NextPageToken resp = "") then None else Some (NextPageToken resp)))
  end.

#[global] Program Instance lambda_cloud (client : Client W) : Cloud W string instanceTopology := {|
  ready _ := True;
  fetch := list_ client;
  select _ inst := Some (instanceOf inst);
  gen := generateRegionInstanceTopology client
|}.
Next Obligation. intros client fuel ci topo w Hr. unfold generateRegionInstanceTopology. by rewrite decide_True. Qed.
Next Obligation.
  intros client fuel ci topo w Hr _. unfold generateRegionInstanceTopology. rewrite decide_False by done.
  apply pageLoop_ext. clear. intros topo token w. unfold listPage, list_.
  destruct (List client _ w) as [w1 [resp|]]; [|done]. simpl. by rewrite foldl_append_all, omap_all.
Qed.
End Provider.
End LambdaApi.
