(* ===== verification/Oci.v ===== *)
(** * The OCI providers: [pkg/providers/oci]

    [provider_api.go] lists the compute hosts of every availability domain of
    a region and asks for each host that carries a requested instance;
    [provider_imds.go] reads the topology from the nodes themselves. *)

From S2P Require Import Prelude GoStrings Queue Topology Providers Paging.
Open Scope Z_scope.

Module Oci.
Import Queue Topo Paging.

(** ** The API *)

(** [core.ComputeHostSummary], as far as it is read. *)
Record hostSummary := MkSummary { hs_Id : option string; hs_InstanceId : option string }.

(** [core.ComputeHost]; [rack]: the string [rack] of the map
    [locationDetails], or the empty string. *)
Record computeHost := MkHost {
  InstanceId : option string;
  LocalBlockId : option string;
  NetworkBlockId : option string;
  HpcIslandId : option string;
  GpuMemoryFabricId : option string;
  rack : string
}.
Record listResponse := MkListResponse { Items : list hostSummary; OpcNextPage : option string }.

(** [GetComputeHost] is called from goroutines of its own and does not change
    what later pages hold. *)
Record Client {W : Type} := MkClient {
  ListAvailabilityDomains : W → W * result string (list string);
  ListComputeHosts : string → option string → W → W * result string listResponse;
  GetComputeHost : string → W → result string computeHost
}.
Arguments Client : clear implicits.
#[global] Arguments MkClient {W} ListAvailabilityDomains ListComputeHosts GetComputeHost.

(** ** Hosts: [instance_topology.go] *)

Inductive convertErr := NoInstanceId | NoLocalBlock (id : string) | NoNetworkBlock (id : string) | NoIsland (id : string).

Definition convertHost (instanceID localBlockID networkBlockID hpcIslandID gpuMemoryFabricID : option string)
    (rack : string) : result convertErr InstanceTopology :=
  match instanceID with
  | None => Err NoInstanceId
  | Some id =>
      match localBlockID, networkBlockID, hpcIslandID with
      | None, _, _ => Err (NoLocalBlock id)
      | _, None, _ => Err (NoNetworkBlock id)
      | _, _, None => Err (NoIsland id)
      | Some local, Some network, Some island =>
          let tiers := ClosestFirstFabricTiers [local; network; island] in
          Ok (match gpuMemoryFabricID with
              | None => MkInst id tiers "" "" None
              | Some fabric => MkInst id tiers fabric (if decide (rack = "") then "" else fabric +:+ "." +:+ rack) None
              end)
      end
  end.

Definition convertComputeHost (host : computeHost) : result convertErr InstanceTopology :=
  convertHost (InstanceId host) (LocalBlockId host) (NetworkBlockId host) (HpcIslandId host) (GpuMemoryFabricId host) (rack host).

Section Listing.
Context `{RangeOrder} {W : Type} (client : Client W) (ad : string) (instMap : gmap string string).

(** What the goroutine of a record leaves in [instances] and [getErrors]. *)
Definition handleHost (w : W) (hostSummary : hostSummary) : result string (option InstanceTopology) :=
  match hs_Id hostSummary, hs_InstanceId hostSummary with
  | Some id, Some instanceId =>
      match instMap !! instanceId with
      | None => Ok None
      | Some _ =>
          match GetComputeHost client id w with
          | Err msg => Err msg
          | Ok host => match convertComputeHost host with Ok inst => Ok (Some inst) | Err _ => Ok None end
          end
      end
  | _, _ => Ok None
  end.

(** The loop after [wg.Wait]: the first error in the order of the records. *)
Definition collectHost (topo : ClusterTopology) (r : result string (option InstanceTopology)) :
    result string ClusterTopology :=
  match r with
  | Err msg => Err msg
  | Ok None => Ok topo
  | Ok (Some inst) => Ok (Append topo inst)
  end.

Record listing := MkListing { hosts : ClusterTopology; seenPages : gset string }.

Definition listPage (st : listing) (page : option string) (w : W) : W * result Error (listing * option string) :=
  let '(w, r) := ListComputeHosts client ad page w in
  match r with
  | Err msg => (w, Err (NewError 502 ("failed to get hosts info: " +:+ msg)))
  | Ok resp =>
      let repeated := match OpcNextPage resp with Some next => bool_decide (next ∈ seenPages st) | None => false end in
      if repeated then (w, Err (NewError 502 "failed to get hosts info: ListComputeHosts returned repeated page token"))
      else
        (w, match foldM collectHost (hosts st) (handleHost w <$> Items resp) with
            | Err msg => Err (NewError 502 ("failed to get hosts info: " +:+ msg))
            | Ok topo =>
                Ok (MkListing topo (match OpcNextPage resp with Some next => {[next]} ∪ seenPages st | None => seenPages st end),
                    OpcNextPage resp)
            end)
  end.

Definition getComputeHostSummary (fuel : nat) (topo : ClusterTopology) (w : W) : option (W * result Error ClusterTopology) :=
  match pageLoop listPage fuel (MkListing topo ∅) None w with
  | None => None
  | Some (w, Err e) => Some (w, Err e)
  | Some (w, Ok st) => Some (w, Ok (hosts st))
  end.
End Listing.

(** ** The API provider: [provider_api.go] *)

Section Provider.
Context `{RangeOrder} {W : Type}.

Record apiProvider := MkApiProvider { clientFactory : string → option Z → result string (Client W); trimTiers : Z }.

Definition NewAPI (clientFactory : string → option Z → result string (Client W)) (trimTiers : Z) : apiProvider :=
  MkApiProvider clientFactory trimTiers.

Fixpoint forDomains (client : Client W) (fuel : nat) (ads : list string) (instMap : gmap string string)
    (topo : ClusterTopology) (w : W) : option (W * result Error ClusterTopology) :=
  match ads with
  | [] => Some (w, Ok topo)
  | ad :: ads =>
      match getComputeHostSummary client ad instMap fuel topo w with
      | Some (w, Ok topo) => forDomains client fuel ads instMap topo w
      | r => r
      end
  end.

Definition getComputeHostInfo (p : apiProvider) (pageSize : option Z) (fuel : nat) (ci : ComputeInstances)
    (topo : ClusterTopology) (w : W) : option (W * result Error ClusterTopology) :=
  if decide (Region ci = "") then Some (w, Err noRegion)
  else match clientFactory p (Region ci) pageSize with
       | Err msg => Some (w, Err (NewError 502 ("failed to create API client: " +:+ msg)))
       | Ok client =>
           match ListAvailabilityDomains client w with
           | (w, Err msg) => Some (w, Err (NewError 502 ("failed to get availability domains: " +:+ msg)))
           | (w, Ok ads) => forDomains client fuel ads (ci_Instances ci) topo w
           end
       end.

Definition generateInstanceTopology (p : apiProvider) (pageSize : option Z) (fuel : nat) (cis : list ComputeInstances) (w : W) :
    option (W * result Error ClusterTopology) :=
  forRegions (getComputeHostInfo p pageSize fuel) cis NewClusterTopology w.

Definition GenerateTopologyConfig (p : apiProvider) (pageSize : option Z) (fuel : nat) (instances : list ComputeInstances)
    (w : W) : option (W * result Error Graph) :=
  graphOf instances (trimTiers p) true (generateInstanceTopology p pageSize fuel instances w).
End Provider.

(** ** The metadata provider: [provider_imds.go], [imds.go] *)

Record topologyData := MkTopologyData { GpuMemoryFabric : string; HPCIslandId : string; LocalBlock : string; NetworkBlock : string }.

Definition addTopology (unmarshal : string → option topologyData) (topoMap : gmap string topologyData) (str : string) :
    gmap string topologyData :=
  match Providers.cutColon str with
  | None => topoMap
  | Some (node, data) => match unmarshal data with Some t => <[node := t]> topoMap | None => topoMap end
  end.
Definition parseTopologyOutput (unmarshal : string → option topologyData) (lines : option (list string)) :
    option (gmap string topologyData) :=
  foldl (addTopology unmarshal) ∅ <$> lines.

Section Imds.
Context `{RangeOrder} (getHostTopology : list string → result string (gmap string topologyData)).

Definition imdsInstance (topoMap : gmap string topologyData) (kv : string * string) : option InstanceTopology :=
  (λ t, MkInst kv.1 (ClosestFirstFabricTiers [LocalBlock t; NetworkBlock t; HPCIslandId t]) (GpuMemoryFabric t) "" None)
    <$> topoMap !! kv.2.

Definition imdsHostInfo (topo : ClusterTopology) (ci : ComputeInstances) : result string ClusterTopology :=
  topoMap ← map_err (λ msg, "failed to get node topology: " +:+ msg) (getHostTopology (range (ci_Instances ci)).*2);
  Ok (topo ++ omap (imdsInstance topoMap) (range (ci_Instances ci))).

Definition imdsGenerate (trimTiers : Z) (instances : list ComputeInstances) : option (result Error Graph) :=
  match foldM imdsHostInfo NewClusterTopology instances with
  | Err msg => Some (Err (NewError 500 msg))
  | Ok topo => g ← ToGraph topo instances trimTiers true; Some (Ok g)
  end.
End Imds.

(** ** The listing ends *)

Section Ends.
Context {W : Type} (client : Client W) (ad : string) (instMap : gmap string string).

(** What the records of a page give. *)
Definition wanted (w : W) (its : list hostSummary) : result string ClusterTopology :=
  foldM collectHost [] (handleHost client instMap w <$> its).

(** The server hands out pages from [page] on; [tokens] are the page tokens it
    names, [c] the hosts collected. *)
Inductive reads : option string → W → list string → ClusterTopology → W → Prop :=
| reads_last page w its c w' :
    ListComputeHosts client ad page w = (w', Ok (MkListResponse its None)) → wanted w' its = Ok c →
    reads page w [] c w'
| reads_more page w its next c w1 tokens c' w' :
    ListComputeHosts client ad page w = (w1, Ok (MkListResponse its (Some next))) → wanted w1 its = Ok c →
    reads (Some next) w1 tokens c' w' → reads page w (next :: tokens) (c ++ c') w'.

Lemma collectHost_app l (topo c : ClusterTopology) : foldM collectHost c l = Ok topo →
  ∀ topo0, foldM collectHost (topo0 ++ c) l = Ok (topo0 ++ topo).
Proof.
  revert c. induction l as [|r l IH]; simpl; intros c Hf topo0; [by injection Hf as ->|].
  destruct r as [[inst|]|]; simpl in *; [|by apply IH|done].
  unfold Append in *. rewrite <-app_assoc. by apply IH.
Qed.

Lemma collectHost_err l msg : ∀ c c0, foldM collectHost c l = Err msg → foldM collectHost c0 l = Err msg.
Proof.
  induction l as [|[[inst|]|] l IH]; simpl; intros c c0; [done|apply IH..|done].
Qed.

Lemma wanted_foldM w its topo :
  foldM collectHost topo (handleHost client instMap w <$> its) = (c ← wanted w its; Ok (topo ++ c)).
Proof.
  unfold wanted. destruct (foldM collectHost [] _) as [c|msg] eqn:E; simpl.
  - rewrite <-(app_nil_r topo) at 1. by apply collectHost_app.
  - by apply (collectHost_err _ _ []).
Qed.

(** The tokens the server can name. *)
Context (T : gset string).
Context (T_next : ∀ page w w' its next, ListComputeHosts client ad page w = (w', Ok (MkListResponse its (Some next))) → next ∈ T).

Abbreviation pageStep := (listPage client ad instMap).

Lemma page_guard st page w w' st' next : pageStep st page w = (w', Ok (st', Some next)) →
  next ∈ T ∧ (next ∉ seenPages st) ∧ seenPages st' = {[next]} ∪ seenPages st.
Proof.
  unfold listPage. destruct (ListComputeHosts client ad page w) as [w1 [[its [t|]]|msg]] eqn:E; cbn [OpcNextPage Items];
    [|by destruct (foldM _ _ _)|done].
  case_bool_decide as Hs; [done|]. destruct (foldM _ _ _); [|done]. intros [= <- <- <-].
  split_and!; [by eapply T_next|done|done].
Qed.

Lemma loop_reads n : ∀ st page w w' st', pageLoop pageStep n st page w = Some (w', Ok st') →
  ∃ tokens c, reads page w tokens c w' ∧ NoDup tokens ∧ (∀ t, t ∈ tokens → t ∉ seenPages st) ∧ hosts st' = hosts st ++ c.
Proof.
  induction n as [|n IH]; intros st page w w' st'; [done|]. simpl. unfold listPage at 1.
  destruct (ListComputeHosts client ad page w) as [w1 [[its [next|]]|msg]] eqn:E; cbn [OpcNextPage Items]; [| |done].
  - case_bool_decide as Hs; [done|]. rewrite wanted_foldM. destruct (wanted w1 its) as [c1|] eqn:Ec; simpl; [|done].
    intros (tokens & c & Hr & Hnd & Hd & Hh)%IH. cbn [seenPages hosts] in *.
    exists (next :: tokens), (c1 ++ c). split; [by eapply reads_more|]. split; [|split].
    + apply NoDup_cons. split; [|done]. intros Hin%Hd. set_solver.
    + intros t [->|Hin]%elem_of_cons; [done|]. apply Hd in Hin. set_solver.
    + by rewrite Hh, app_assoc.
  - rewrite wanted_foldM. destruct (wanted w1 its) as [c1|] eqn:Ec; simpl; [|done]. intros [= <- <-].
    exists [], c1. split; [by eapply reads_last|]. split; [constructor|]. split; [|done]. by intros t Ht%not_elem_of_nil.
Qed.

Lemma reads_loop page w tokens c w' : reads page w tokens c w' → ∀ st n, NoDup tokens →
  (∀ t, t ∈ tokens → t ∉ seenPages st) → (length tokens < n)%nat →
  ∃ st', pageLoop pageStep n st page w = Some (w', Ok st') ∧ hosts st' = hosts st ++ c.
Proof.
  induction 1 as [page w its c w' E Ec|page w its next c w1 tokens c' w' E Ec _ IH]; intros st [|n] Hnd Hd Hn; try (simpl in *; lia);
    simpl; unfold listPage at 1; rewrite E; cbn [OpcNextPage Items].
  - rewrite wanted_foldM, Ec. simpl. eauto.
  - apply NoDup_cons in Hnd as [Hnot Hnd]. rewrite bool_decide_eq_false_2 by (apply Hd; left).
    rewrite wanted_foldM, Ec. simpl.
    destruct (IH (MkListing (hosts st ++ c) ({[next]} ∪ seenPages st)) n Hnd) as (st' & Hp & Hh); [|simpl in Hn; lia|].
    + intros t Ht. cbn [seenPages]. assert (t ∉ seenPages st) by (apply Hd; by right). set_solver.
    + exists st'. split; [done|]. by rewrite Hh, app_assoc.
Qed.

Lemma reads_tokens page w tokens c w' : reads page w tokens c w' → list_to_set tokens ⊆ T.
Proof. induction 1 as [|page w its next c w1 tokens c' w' E _ _ IH]; simpl; [set_solver|]. apply T_next in E. set_solver. Qed.

(** The listing of compute hosts ends on every server whose page tokens are
    drawn from a finite set, also on one that goes round in circles.  It
    succeeds exactly when the server names each token once and every wanted
    host can be read; then it has the hosts of all pages that belong to
    requested instances and carry complete data, in order. *)
Theorem oci_listing_ends topo w :
  let n := S (size T) in
  is_Some (getComputeHostSummary client ad instMap n topo w) ∧
  ∀ w' c, getComputeHostSummary client ad instMap n topo w = Some (w', Ok c) ↔
    ∃ tokens c', reads None w tokens c' w' ∧ NoDup tokens ∧ c = topo ++ c'.
Proof.
  intros n. unfold getComputeHostSummary. split.
  - destruct (guarded_ends _ _ T page_guard n (MkListing topo ∅) None w) as [[w' [st|e]] ->]; [|done..].
    cbn [seenPages]. unfold n. rewrite difference_empty_L. lia.
  - intros w' c. split.
    + destruct (pageLoop _ _ _ _ _) as [[w1 [st|e]]|] eqn:E; [|done..]. intros [= <- <-].
      apply loop_reads in E as (tokens & c' & Hr & Hnd & _ & Hh). by exists tokens, c'.
    + intros (tokens & c' & Hr & Hnd & ->).
      destruct (reads_loop _ _ _ _ _ Hr (MkListing topo ∅) n Hnd) as (st' & -> & Hh); [by intros; apply not_elem_of_empty| |by rewrite Hh].
      unfold n. apply Nat.lt_succ_r. rewrite <-(size_list_to_set (C := gset string)) by done.
      apply subseteq_size. by eapply reads_tokens.
Qed.
End Ends.


(** ** Witnesses *)

(** A server that goes round in circles, and one that ends. *)
Definition w_host (id : string) : computeHost :=
  MkHost (Some ("inst-" +:+ id)) (Some "local") (Some "net") (Some "island") (Some "fabric") "r1".
Definition w_circle : Client () :=
  MkClient (λ w, (w, Ok ["AD-1"])) (λ _ _ w, (w, Ok (MkListResponse [] (Some "p1")))) (λ id _, Ok (w_host id)).
Definition w_two : Client () :=
  MkClient (λ w, (w, Ok ["AD-1"]))
    (λ _ page w, (w, Ok (match page with
                         | None => MkListResponse [MkSummary (Some "a") (Some "inst-a")] (Some "p1")
                         | Some _ => MkListResponse [MkSummary (Some "b") (Some "inst-b"); MkSummary (Some "c") None] None
                         end))) (λ id _, Ok (w_host id)).
Definition w_instances : gmap string string := {[ "inst-a" := "n1"; "inst-b" := "n2" ]}.

Definition w_inst (id : string) : InstanceTopology :=
  MkInst id (ClosestFirstFabricTiers ["local"; "net"; "island"]) "fabric" "fabric.r1" None.

Lemma w_two_next page w w' its next :
  ListComputeHosts w_two "AD-1" page w = (w', Ok (MkListResponse its (Some next))) → next ∈ ({["p1"]} : gset string).
Proof. destruct page; simpl; [done|]. intros [= _ _ <-]. set_solver. Qed.
Lemma w_circle_next page w w' its next :
  ListComputeHosts w_circle "AD-1" page w = (w', Ok (MkListResponse its (Some next))) → next ∈ ({["p1"]} : gset string).
Proof. simpl. intros [= _ _ <-]. set_solver. Qed.

Lemma oci_listing_ends_witness :
  is_Some (getComputeHostSummary w_circle "AD-1" w_instances 2 [] ()) ∧
  getComputeHostSummary w_two "AD-1" w_instances 2 [] () = Some ((), Ok [w_inst "inst-a"; w_inst "inst-b"]).
Proof.
  split; [exact (proj1 (oci_listing_ends w_circle "AD-1" w_instances {["p1"]} w_circle_next [] ()))|].
  apply (proj2 (proj2 (oci_listing_ends w_two "AD-1" w_instances {["p1"]} w_two_next [] ()) () _)).
  exists ["p1"], [w_inst "inst-a"; w_inst "inst-b"]. split; [|split; [apply NoDup_singleton|reflexivity]].
  apply (reads_more _ _ _ _ _ [MkSummary (Some "a") (Some "inst-a")] "p1" [w_inst "inst-a"] () [] [w_inst "inst-b"]);
    [reflexivity|vm_compute; reflexivity|].
  eapply reads_last; [reflexivity|vm_compute; reflexivity].
Defined.
End Oci.
