(* ===== verification/Firebird.v ===== *)
(** * The Firebird provider: [pkg/providers/firebird]

    One listing of all nodes, with guards against repeated pages and repeated
    nodes, behind an access token of its own. *)

From S2P Require Import Prelude GoStrings Queue Topology Providers Paging.
Open Scope Z_scope.

Module Firebird.
Import Queue Topo Paging.

(** ** Parameters: [Loader] *)

Record ProviderParams := MkParams { APIURL : string; TrimTiers : Z }.
Record Credentials := MkCredentials { ClientID : string; ClientSecret : string }.

(** What [url.Parse] returns. *)
Record URL := MkURL { Scheme : string; Host : string; User : bool; RawQuery : string; Fragment : string }.

Inductive loaderErr := BadParams (msg : string) | BadURL | BadTrim | BadCreds | EmptyCreds.

Definition validURL (u : URL) : bool :=
  bool_decide (Scheme u = "https") && negb (bool_decide (Host u = "")) && negb (User u) &&
  bool_decide (RawQuery u = "") && bool_decide (Fragment u = "").

(** [decodedParams], [decodedCreds]: what [mapstructure.Decode] gives; every
    error has status 400. *)
Definition Loader (parse : string → option URL) (decodedParams : result string ProviderParams)
    (decodedCreds : result string Credentials) (params : gmap string Providers.value) :
    result loaderErr (ProviderParams * Credentials) :=
  p ← map_err BadParams decodedParams;
  match parse (APIURL p) with
  | Some u =>
      if negb (validURL u) then Err BadURL
      else
        trimTiers ← map_err (λ _, BadTrim) (Providers.GetTrimTiers params);
        c ← map_err (λ _, BadCreds) decodedCreds;
        if decide (trim_space (ClientID c) = "" ∨ trim_space (ClientSecret c) = "") then Err EmptyCreds
        else Ok (MkParams (APIURL p) trimTiers, c)
  | None => Err BadURL
  end.

(** ** Errors of the API *)

Record APIError := MkAPIError { ae_Code : string; Details : option string; Message : string }.

(** [response]: the [error] member of the body, if it decodes; [Details] is the
    encoding of the details when there are any. *)
Definition firebirdAPIError (status : Z) (response : option APIError) (operation : string) : Error :=
  NewError status
    ("Firebird " +:+ operation +:+ " request failed" +:+
     match response with
     | None => ""
     | Some e =>
         (if decide (ae_Code e = "") then "" else ": " +:+ ae_Code e) +:+
         (if decide (Message e = "") then "" else ": " +:+ Message e) +:+
         match Details e with None => "" | Some d => " (details: " +:+ d +:+ ")" end
     end).
Definition apiError (status : Z) (response : option APIError) : Error := firebirdAPIError status response "topology".

(** ** Authentication: [auth.go] *)

Record tokenResponse := MkTokenResponse { AccessToken : string; ExpiresIn : Z; TokenType : string }.

Definition invalidAuth : Error := NewError 502 "invalid Firebird authentication response".

(** [reply]: the outcome of the request, with the decoded error of a failed
    one; [cancelled]: the context is done. *)
Definition accessToken (reply : result (Z * option APIError) string) (cancelled : bool)
    (unmarshal : string → option tokenResponse) : result Error string :=
  match reply with
  | Err (code, response) =>
      if cancelled then Err (NewError 502 "Firebird authentication request canceled")
      else Err (firebirdAPIError code response "authentication")
  | Ok body =>
      match unmarshal body with
      | None => Err invalidAuth
      | Some r =>
          if bool_decide (trim_space (AccessToken r) = "") || contains_chr "013" (AccessToken r) ||
             contains_chr "010" (AccessToken r) || (ExpiresIn r <? 0) ||
             (negb (bool_decide (TokenType r = "")) && negb (bool_decide (to_lower (TokenType r) = "bearer")))
          then Err invalidAuth
          else Ok (AccessToken r)
      end
  end.

(** ** Topology *)

Record Node := MkNode { NodeID : string; NetworkPath : list string }.
Record TopologyResult := MkResult { NextPageToken : string; Nodes : list Node }.

Definition defaultPageSize : Z := 100.

(** [topologyPage], for the real service: headers and query of the request, and
    what becomes of the reply; a body is decoded to its token and its nodes,
    if it has an array of them. *)
Definition pageQuery (pageSize : Z) (pageToken : string) : gmap string string :=
  let query := {[ "pageSize" := itoa pageSize ]} in
  if decide (pageToken ≠ "") then <["pageToken" := pageToken]> query else query.

Definition invalidPage : Error := NewError 502 "invalid Firebird topology response: expected a nodes array".

Definition requestPage {W : Type}
    (DoRequestWithRetries : gmap string string → gmap string string → W → W * result (Z * option APIError) string)
    (cancelled : W → bool) (unmarshal : string → option (string * option (list Node)))
    (pageSize : Z) (pageToken token : string) (w : W) : W * result Error TopologyResult :=
  let headers := {[ "Accept" := "application/json"; "Authorization" := "Bearer " +:+ token ]} in
  let '(w, r) := DoRequestWithRetries headers (pageQuery pageSize pageToken) w in
  (w, match r with
      | Err (code, response) =>
          if cancelled w then Err (NewError 502 "Firebird topology request canceled") else Err (apiError code response)
      | Ok body => match unmarshal body with Some (next, Some nodes) => Ok (MkResult next nodes) | _ => Err invalidPage end
      end).

(** The page size: a given positive one, or the default. *)
Definition sizeOf (pageSize : option Z) : Z :=
  match pageSize with Some n => if 0 <? n then n else defaultPageSize | None => defaultPageSize end.

Section Provider.
Context `{RangeOrder} {W : Type}.
(** [topologyPage], with the page size and the access token of the request. *)
Context (auth : W → W * result Error string).
Context (topologyPage : Z → string → string → W → W * result Error TopologyResult).

(** The keys of the instances, region after region. *)
Definition requestedIDs (instances : list ComputeInstances) : list string :=
  concat ((λ ci, (range (ci_Instances ci)).*1) <$> instances).

Record collected := MkCollected { cluster : ClusterTopology; seenNodes : gset string; seenTokens : gset string }.

Definition addNode (requested : gset string) (st : collected) (node : Node) : result Error collected :=
  if decide (NodeID node ∉ requested) then Ok st
  else if decide (NodeID node ∈ seenNodes st) then Err (NewError 502 "duplicate Firebird nodeId in topology response")
  else
    let st := MkCollected (cluster st) ({[NodeID node]} ∪ seenNodes st) (seenTokens st) in
    if decide (NetworkPath node = []) then Ok st
    else if existsb (λ id, bool_decide (trim_space id = "")) (NetworkPath node)
    then Err (NewError 502 "empty switch ID in Firebird networkPath")
    else Ok (MkCollected
               (Append (cluster st) (MkInst (NodeID node) (ClosestFirstFabricTiers (NetworkPath node)) "" ""
                                       (Some (MkInstance (NodeID node) [] None []))))
               (seenNodes st) (seenTokens st)).

(** One page; the first is named by the empty token. *)
Definition readPage (requested : gset string) (size : Z) (bearer : string) (st : collected) (pageToken : option string)
    (w : W) : W * result Error (collected * option string) :=
  let '(w, r) := topologyPage size (default "" pageToken) bearer w in
  (w, page ← r;
      st ← foldM (addNode requested) st (Nodes page);
      let next := NextPageToken page in
      if decide (next = "") then Ok (st, None)
      else if decide (next ∈ seenTokens st) then Err (NewError 502 "repeated Firebird nextPageToken")
      else Ok (MkCollected (cluster st) (seenNodes st) ({[next]} ∪ seenTokens st), Some next)).

Definition generateInstanceTopology (fuel : nat) (pageSize : option Z) (instances : list ComputeInstances) (w : W) :
    option (W * result Error ClusterTopology) :=
  let ids := requestedIDs instances in
  if existsb (λ id, bool_decide (trim_space id = "")) ids
  then Some (w, Err (NewError 400 "Firebird instance IDs must not be empty"))
  else
    let requested : gset string := list_to_set ids in
    if decide (ids = []) then Some (w, Ok NewClusterTopology)
    else match auth w with
         | (w, Err e) => Some (w, Err e)
         | (w, Ok bearer) =>
             match pageLoop (readPage requested (sizeOf pageSize) bearer) fuel (MkCollected NewClusterTopology ∅ ∅) None w with
             | None => None
             | Some (w, Err e) => Some (w, Err e)
             | Some (w, Ok st) => Some (w, Ok (cluster st))
             end
         end.

Definition GenerateTopologyConfig (params : ProviderParams) (fuel : nat) (pageSize : option Z)
    (instances : list ComputeInstances) (w : W) : option (W * result Error Graph) :=
  graphOf instances (TrimTiers params) false (generateInstanceTopology fuel pageSize instances w).

End Provider.

(** ** The listing ends *)

Section Ends.
Context {W : Type} (topologyPage : Z → string → string → W → W * result Error TopologyResult).
Context (size : Z) (bearer : string) (requested : gset string).

(** The server hands out pages from [token] on; [tokens] are the page tokens it
    names, [nodes] the nodes of all pages. *)
Inductive reads : option string → W → list string → list Node → W → Prop :=
| reads_last token w nodes w' :
    topologyPage size (default "" token) bearer w = (w', Ok (MkResult "" nodes)) → reads token w [] nodes w'
| reads_more token w next nodes w1 tokens nodes' w' :
    next ≠ "" → topologyPage size (default "" token) bearer w = (w1, Ok (MkResult next nodes)) →
    reads (Some next) w1 tokens nodes' w' → reads token w (next :: tokens) (nodes ++ nodes') w'.

Definition requestedNodes (nodes : list Node) : list Node := filter (λ n, NodeID n ∈ requested) nodes.
Definition namedSwitches (n : Node) : Prop := Forall (λ id, trim_space id ≠ "") (NetworkPath n).
(** Nodes without a path are left out. *)
Definition instanceOf (n : Node) : option InstanceTopology :=
  if decide (NetworkPath n = []) then None
  else Some (MkInst (NodeID n) (ClosestFirstFabricTiers (NetworkPath n)) "" ""
               (Some (MkInstance (NodeID n) [] None []))).

Lemma blank_switches (l : list string) :
  existsb (λ id, bool_decide (trim_space id = "")) l = false ↔ Forall (λ id, trim_space id ≠ "") l.
Proof.
  induction l as [|x l IH]; simpl; [done|]. rewrite Forall_cons, <-IH, orb_false_iff, bool_decide_eq_false. done.
Qed.

Lemma addNode_Ok st n st' : addNode requested st n = Ok st' ↔
  if decide (NodeID n ∈ requested)
  then (NodeID n ∉ seenNodes st) ∧ namedSwitches n ∧
       st' = MkCollected (cluster st ++ omap instanceOf [n]) ({[NodeID n]} ∪ seenNodes st) (seenTokens st)
  else st' = st.
Proof.
  unfold addNode, namedSwitches, instanceOf, Append. simpl.
  destruct (decide (NodeID n ∈ requested)) as [Hr|Hr].
  - rewrite decide_False by (intros Hn; by apply Hn). case_decide as Hs; [by split; [|intros (? & _)]|].
    case_decide as Hp.
    + rewrite Hp. rewrite app_nil_r. split; [intros [= <-]; done|by intros (_ & _ & ->)].
    + destruct (existsb _ _) eqn:E.
      * split; [done|]. intros (_ & Hf%blank_switches & _). congruence.
      * apply blank_switches in E. split; [intros [= <-]; done|by intros (_ & _ & ->)].
  - rewrite decide_True by done. split; [by intros [= ->]|by intros ->].
Qed.

Lemma union_swap (A B C : gset string) : A ∪ (B ∪ C) = (B ∪ A) ∪ C.
Proof. by rewrite (union_comm_L B A), union_assoc_L. Qed.

Lemma addNodes_Ok nodes : ∀ st st', foldM (addNode requested) st nodes = Ok st' ↔
  NoDup (NodeID <$> requestedNodes nodes) ∧ Forall namedSwitches (requestedNodes nodes) ∧
  (∀ n, n ∈ requestedNodes nodes → NodeID n ∉ seenNodes st) ∧
  st' = MkCollected (cluster st ++ omap instanceOf (requestedNodes nodes))
          (list_to_set (NodeID <$> requestedNodes nodes) ∪ seenNodes st) (seenTokens st).
Proof.
  induction nodes as [|n nodes IH]; intros st st'.
  - unfold requestedNodes. rewrite filter_nil. simpl. rewrite app_nil_r, union_empty_l_L. destruct st; simpl.
    split; [|by intros (_ & _ & _ & ->)]. intros [= <-]. split_and!; [constructor|done|by intros n ?%not_elem_of_nil|done].
  - change (foldM (addNode requested) st (n :: nodes)) with
      (match addNode requested st n with Ok s => foldM (addNode requested) s nodes | Err e => Err e end).
    pose proof (addNode_Ok st n) as Ha. unfold requestedNodes in *. rewrite filter_cons.
    destruct (decide (NodeID n ∈ requested)) as [Hr|Hr].
    + rewrite fmap_cons, NoDup_cons, Forall_cons.
      assert (NodeID n ∉ NodeID <$> filter (λ n0, NodeID n0 ∈ requested) nodes ↔
        ∀ m, m ∈ filter (λ n0, NodeID n0 ∈ requested) nodes → NodeID m ≠ NodeID n) as Hnew.
      { rewrite list_elem_of_fmap. split; [intros Hn m Hm E; apply Hn; by exists m|]. intros Hn (m & E & Hm). by apply (Hn m). }
      destruct (addNode requested st n) as [s|e].
      * destruct (proj1 (Ha s) eq_refl) as (Hs & Hp & ->). rewrite IH. cbn [cluster seenNodes seenTokens].
        rewrite Hnew, <-app_assoc, <-omap_app. change ([n] ++ ?l) with (n :: l). cbn [list_to_set]. rewrite union_swap.
        split.
        -- intros (H1 & H2 & H3 & ->). split_and!; try done.
           ++ intros m Hm E. apply (H3 m Hm). rewrite E. apply elem_of_union_l, elem_of_singleton_2. done.
           ++ intros m [->|Hm]%elem_of_cons; [done|]. intros Hin. apply (H3 m Hm). by apply elem_of_union_r.
        -- intros ((H0 & H1) & (_ & H2) & H3 & ->). split_and!; try done.
           intros m Hm [Hin%elem_of_singleton_1|Hin]%elem_of_union; [by apply (H0 m Hm)|]. apply (H3 m); [by right|done].
      * split; [done|]. intros ((_ & _) & (Hp & _) & H3 & _).
        assert (Err e = Ok (E := Error) (MkCollected (cluster st ++ omap instanceOf [n]) ({[NodeID n]} ∪ seenNodes st) (seenTokens st))); [|done].
        apply Ha. split_and!; [apply H3; left|done|done].
    + destruct (addNode requested st n) as [s|e].
      * by rewrite (proj1 (Ha s) eq_refl), IH.
      * pose proof (proj2 (Ha st) eq_refl). done.
Qed.

(** [nodes] can follow nodes whose requested identifiers are [seen]. *)
Definition fits (seen : gset string) (nodes : list Node) : Prop :=
  NoDup (NodeID <$> requestedNodes nodes) ∧ Forall namedSwitches (requestedNodes nodes) ∧
  (∀ n, n ∈ requestedNodes nodes → NodeID n ∉ seen).

Lemma fits_app seen l l' :
  fits seen (l ++ l') ↔ fits seen l ∧ fits (list_to_set (NodeID <$> requestedNodes l) ∪ seen) l'.
Proof.
  unfold fits, requestedNodes. rewrite filter_app, fmap_app, NoDup_app, Forall_app.
  set (r := filter _ l). set (r' := filter _ l'). split.
  - intros ((H1 & H2 & H3) & (H4 & H5) & H6). split_and!; try done.
    + intros n Hn. apply H6, elem_of_app. by left.
    + intros n Hn [Hin%elem_of_list_to_set|Hin]%elem_of_union.
      * apply (H2 _ Hin). apply list_elem_of_fmap. by exists n.
      * apply (H6 n); [|done]. apply elem_of_app. by right.
  - intros ((H1 & H2 & H3) & H4 & H5 & H6). split_and!; try done.
    + intros x Hx (n & -> & Hn)%list_elem_of_fmap. apply (H6 n Hn), elem_of_union_l, elem_of_list_to_set, Hx.
    + intros n [Hn|Hn]%elem_of_app; [by apply H3|]. intros Hin. apply (H6 n Hn). by apply elem_of_union_r.
Qed.

Abbreviation pageStep := (readPage topologyPage requested size bearer).

Lemma requestedNodes_app l l' : requestedNodes (l ++ l') = requestedNodes l ++ requestedNodes l'.
Proof. apply filter_app. Qed.

Lemma readPage_Ok st token w w' st' next : pageStep st token w = (w', Ok (st', next)) ↔
  ∃ nodes, topologyPage size (default "" token) bearer w = (w', Ok (MkResult (default "" next) nodes)) ∧
    fits (seenNodes st) nodes ∧ (∀ t, next = Some t → t ≠ "" ∧ t ∉ seenTokens st) ∧
    st' = MkCollected (cluster st ++ omap instanceOf (requestedNodes nodes))
            (list_to_set (NodeID <$> requestedNodes nodes) ∪ seenNodes st)
            (match next with Some t => {[t]} ∪ seenTokens st | None => seenTokens st end).
Proof.
  unfold readPage. destruct (topologyPage size (default "" token) bearer w) as [w1 [[tok nodes]|e]]; simpl.
  2: { split; [done|]. by intros (nodes & [= ] & _). }
  pose proof (addNodes_Ok nodes st) as Hadd. destruct (foldM (addNode requested) st nodes) as [st1|e]; simpl.
  - destruct (proj1 (Hadd st1) eq_refl) as (H1 & H2 & H3 & ->). cbn [cluster seenNodes seenTokens].
    split.
    + case_decide as Ht.
      * intros [= <- <- <-]. subst tok. exists nodes. split_and!; done.
      * case_decide as Hs; [done|]. intros [= <- <- <-]. exists nodes. split_and!; try done. by intros t [= <-].
    + intros (nodes' & [= -> -> ->] & _ & Hn & ->). destruct next as [t|]; simpl.
      * destruct (Hn t eq_refl) as [Ht Hs]. by rewrite !decide_False by done.
      * done.
  - split; [done|]. intros (nodes' & [= -> -> ->] & (H1 & H2 & H3) & _).
    assert (Err e = Ok (E := Error) (MkCollected (cluster st ++ omap instanceOf (requestedNodes nodes'))
      (list_to_set (NodeID <$> requestedNodes nodes') ∪ seenNodes st) (seenTokens st))); [|done].
    by apply Hadd.
Qed.

Lemma readPage_fits st token w w' nodes next :
  topologyPage size (default "" token) bearer w = (w', Ok (MkResult (default "" next) nodes)) →
  fits (seenNodes st) nodes → (∀ t, next = Some t → t ≠ "" ∧ t ∉ seenTokens st) →
  pageStep st token w = (w', Ok (MkCollected (cluster st ++ omap instanceOf (requestedNodes nodes))
    (list_to_set (NodeID <$> requestedNodes nodes) ∪ seenNodes st)
    (match next with Some t => {[t]} ∪ seenTokens st | None => seenTokens st end), next)).
Proof. intros. apply readPage_Ok. by exists nodes. Qed.

Lemma pages_read n : ∀ st token w w' st', pageLoop pageStep n st token w = Some (w', Ok st') →
  ∃ tokens nodes, reads token w tokens nodes w' ∧ NoDup tokens ∧ (∀ t, t ∈ tokens → t ∉ seenTokens st) ∧
    fits (seenNodes st) nodes ∧ cluster st' = cluster st ++ omap instanceOf (requestedNodes nodes).
Proof.
  induction n as [|n IH]; intros st token w w' st'; [done|]. simpl.
  destruct (pageStep st token w) as [w1 [[st1 [next|]]|e]] eqn:E; [| |done]; apply readPage_Ok in E as (nodes & E & Hf & Hn & ->).
  - destruct (Hn next eq_refl) as [Hne Hns]. intros (tokens & nodes' & Hr & Hnd & Hd & Hf' & Hc)%IH. cbn [cluster seenNodes seenTokens] in *.
    exists (next :: tokens), (nodes ++ nodes'). split_and!.
    + by eapply reads_more.
    + apply NoDup_cons. split; [|done]. intros Hin%Hd. apply Hin, elem_of_union_l, elem_of_singleton_2. done.
    + intros t [->|Hin]%elem_of_cons; [done|]. apply Hd in Hin. intros Ht. apply Hin. by apply elem_of_union_r.
    + by apply fits_app.
    + by rewrite Hc, requestedNodes_app, omap_app, app_assoc.
  - intros [= <- <-]. exists [], nodes. split_and!; [by apply reads_last|constructor|by intros t ?%not_elem_of_nil|done|done].
Qed.

Lemma read_pages token w tokens nodes w' : reads token w tokens nodes w' → ∀ st n, NoDup tokens →
  (∀ t, t ∈ tokens → t ∉ seenTokens st) → fits (seenNodes st) nodes → (length tokens < n)%nat →
  ∃ st', pageLoop pageStep n st token w = Some (w', Ok st') ∧ cluster st' = cluster st ++ omap instanceOf (requestedNodes nodes).
Proof.
  induction 1 as [token w nodes w' E|token w next nodes w1 tokens nodes' w' Hne E _ IH]; intros st [|n] Hnd Hd Hf Hn;
    simpl in Hn; try lia; simpl.
  - rewrite (readPage_fits _ _ _ w' nodes None) by done. eauto.
  - apply fits_app in Hf as [Hf Hf']. apply NoDup_cons in Hnd as [Hnot Hnd].
    rewrite (readPage_fits _ _ _ w1 nodes (Some next)); [|done|done|].
    2: { intros t [= <-]. split; [done|]. apply Hd. left. }
    destruct (IH (MkCollected (cluster st ++ omap instanceOf (requestedNodes nodes))
      (list_to_set (NodeID <$> requestedNodes nodes) ∪ seenNodes st) ({[next]} ∪ seenTokens st)) n Hnd)
      as (st' & Hp & Hc); [|exact Hf'|by apply Nat.succ_lt_mono|].
    + intros t Ht. cbn [seenTokens]. intros [->%elem_of_singleton_1|Hin]%elem_of_union; [done|]. apply (Hd t); [by right|done].
    + exists st'. split; [exact Hp|]. rewrite Hc. cbn [cluster]. by rewrite requestedNodes_app, omap_app, app_assoc.
Qed.

(** The tokens the server can name. *)
Context (T : gset string).
Context (T_next : ∀ token w w' r, topologyPage size token bearer w = (w', Ok r) → NextPageToken r ≠ "" → NextPageToken r ∈ T).

Lemma tokens_named token w tokens nodes w' : reads token w tokens nodes w' → list_to_set tokens ⊆ T.
Proof.
  induction 1 as [|token w next nodes w1 tokens nodes' w' Hne E _ IH]; simpl; [set_solver|].
  apply T_next in E; [|done]. simpl in E. set_solver.
Qed.

Lemma token_guard st token w w' st' next : pageStep st token w = (w', Ok (st', Some next)) →
  next ∈ T ∧ (next ∉ seenTokens st) ∧ seenTokens st' = {[next]} ∪ seenTokens st.
Proof.
  intros (nodes & E & _ & Hn & ->)%readPage_Ok. destruct (Hn next eq_refl) as [Hne Hns].
  split_and!; [|done..]. by apply (T_next _ _ _ _ E).
Qed.

Lemma listing_ends w : let n := S (base.size T) in
  is_Some (pageLoop pageStep n (MkCollected NewClusterTopology ∅ ∅) None w) ∧
  ∀ w' c, (∃ st, pageLoop pageStep n (MkCollected NewClusterTopology ∅ ∅) None w = Some (w', Ok st) ∧ cluster st = c) ↔
    ∃ tokens nodes, reads None w tokens nodes w' ∧ NoDup tokens ∧ NoDup (NodeID <$> requestedNodes nodes) ∧
      Forall namedSwitches (requestedNodes nodes) ∧ c = omap instanceOf (requestedNodes nodes).
Proof.
  intros n. split.
  - apply (guarded_ends _ _ T token_guard). cbn [seenTokens]. unfold n. rewrite difference_empty_L. lia.
  - intros w' c. split.
    + intros (st & (tokens & nodes & Hr & Hnd & _ & (H1 & H2 & _) & Hc)%pages_read & <-).
      exists tokens, nodes. by split_and!.
    + intros (tokens & nodes & Hr & Hnd & H1 & H2 & ->).
      destruct (read_pages _ _ _ _ _ Hr (MkCollected NewClusterTopology ∅ ∅) n Hnd) as (st & Hp & Hc).
      * intros. apply not_elem_of_empty.
      * split_and!; [done|done|]. intros. apply not_elem_of_empty.
      * unfold n. apply Nat.lt_succ_r. rewrite <-(size_list_to_set (C := gset string)) by done.
        apply subseteq_size. by eapply tokens_named.
      * by exists st.
Qed.
End Ends.

Section Listing.
Context `{RangeOrder} {W : Type} (auth : W → W * result Error string).
Context (topologyPage : Z → string → string → W → W * result Error TopologyResult) (T : gset string).
Context (T_next : ∀ size bearer token w w' r, topologyPage size token bearer w = (w', Ok r) →
  NextPageToken r ≠ "" → NextPageToken r ∈ T).

(** C23: The Firebird listing ends on every server whose page tokens are drawn
    from a finite set, also on one that goes round in circles.  With
    the access token granted it succeeds exactly when every page can be read, no page
    token is named twice, no requested node is listed twice, on one page or on
    two, and every switch on the path of a requested node has a name; then it
    has the requested nodes of all pages that have a path, in order.  At least
    one node is requested, and no requested ID is blank. *)
Theorem firebird_listing pageSize instances w w1 bearer :
  let ids := requestedIDs instances in
  let wanted := requestedNodes (list_to_set ids) in
  let listing := generateInstanceTopology auth topologyPage (S (size T)) pageSize instances w in
  Forall (λ id, trim_space id ≠ "") ids → ids ≠ [] → auth w = (w1, Ok bearer) →
  is_Some listing ∧
  ∀ w' c, listing = Some (w', Ok c) ↔
    ∃ tokens nodes, reads topologyPage (sizeOf pageSize) bearer None w1 tokens nodes w' ∧ NoDup tokens ∧
      NoDup (NodeID <$> wanted nodes) ∧ Forall namedSwitches (wanted nodes) ∧ c = omap instanceOf (wanted nodes).
Proof.
  intros ids wanted listing Hb%blank_switches Hne Ha. unfold listing, generateInstanceTopology. fold ids.
  rewrite Hb, decide_False, Ha by done.
  destruct (listing_ends topologyPage (sizeOf pageSize) bearer (list_to_set ids) T (T_next _ _) w1) as [[r Hr] Hall].
  rewrite Hr in *. split; [by destruct r as [w2 [st|e]]|]. intros w' c. etrans; [|exact (Hall w' c)].
  destruct r as [w2 [st|e]].
  - split; [intros [= <- <-]; by exists st|]. by intros (? & [= <- <-] & <-).
  - split; [done|]. by intros (? & [=] & _).
Qed.
End Listing.

(** ** Witness *)

(** Two pages, and a node that nobody asked for. *)
Definition w_page (size : Z) (token bearer : string) (w : nat) : nat * result Error TopologyResult :=
  (S w, Ok (if decide (token = "p2")
            then MkResult "" [MkNode "n2" ["leaf"; "spine"]; MkNode "n9" [""]]
            else MkResult "p2" [MkNode "n1" ["leaf"; "spine"]; MkNode "n3" []])).
Definition w_cis : list ComputeInstances := [MkCI "" {[ "n1" := "a"; "n2" := "b"; "n3" := "c" ]}].

Lemma w_next size bearer token w w' r : w_page size token bearer w = (w', Ok r) →
  NextPageToken r ≠ "" → NextPageToken r ∈ ({["p2"]} : gset string).
Proof. unfold w_page. case_decide; intros [= <- <-]; simpl; [done|]. intros _. by apply elem_of_singleton_2. Qed.

Lemma firebird_listing_witness :
  generateInstanceTopology (λ w, (w, Ok "token")) w_page 2 None w_cis 0%nat =
  Some (2%nat, Ok [MkInst "n1" (ClosestFirstFabricTiers ["leaf"; "spine"]) "" "" (Some (MkInstance "n1" [] None []));
                   MkInst "n2" (ClosestFirstFabricTiers ["leaf"; "spine"]) "" "" (Some (MkInstance "n2" [] None []))]).
Proof.
  refine (proj2 (proj2 (firebird_listing (λ w, (w, Ok "token")) w_page {["p2"]} w_next None w_cis 0%nat 0%nat "token"
    _ _ eq_refl) 2%nat _) _).
  - apply (bool_decide_unpack _). vm_compute. exact I.
  - vm_compute. discriminate.
  - exists ["p2"], [MkNode "n1" ["leaf"; "spine"]; MkNode "n3" []; MkNode "n2" ["leaf"; "spine"]; MkNode "n9" [""]].
    split; [|split; [apply NoDup_singleton|split; [|split]]].
    + apply (reads_more w_page _ _ None 0%nat "p2" [MkNode "n1" ["leaf"; "spine"]; MkNode "n3" []] 1%nat []);
        [done|reflexivity|]. apply reads_last. reflexivity.
    + apply (bool_decide_unpack _). vm_compute. exact I.
    + apply (bool_decide_unpack _). vm_compute. exact I.
    + vm_compute. reflexivity.
Defined.
End Firebird.
