(* ===== verification/CloudProps.v ===== *)
(** * Cloud providers: what their listings and graphs hold

    Theorems about every provider that meets the interface [Cloud], and where
    the providers' conversions put an instance. *)

From S2P Require Import Prelude GoStrings Queue Topology Providers Paging Aws Gcp Nebius Nscale Oci.
Open Scope Z_scope.

Module CloudProps.
Import Queue Topo Paging.

Section Cloud.
Context `{Cloud W T Item}.

(** C21: A listing is complete or fails.  A provider's listing succeeds, with
    enough iterations, exactly when the server answers every region of the
    request with pages up to one without a successor; what it collects is every
    entry of every page that the provider wants, converted, in order, and
    nothing else. *)
Theorem cloud_listing_complete cis w w' topo :
  Forall ready cis →
  (∃ fuel, forRegions (gen fuel) cis NewClusterTopology w = Some (w', Ok topo)) ↔
  (∃ ans, answers cis w ans w' ∧ topo = reported cis ans).
Proof.
  intros Hrd. split.
  - intros (fuel & (ans & Ha & ->)%answers_forRegions); [by exists ans|done].
  - intros (ans & Ha & ->). exists (longest ans). by rewrite (forRegions_answers _ _ _ _ Ha).
Qed.

(** C22: A cloud provider places every node of the request.  When the server
    answers every region and the reported switches are levelled, the provider
    returns a graph in which a node that the listings report hangs below the
    switches of its first report, outermost first, after trimming, and any other
    node below [no-topology]. *)
Theorem cloud_places_nodes `{RangeOrder} cis w ans w' fuel trimTiers :
  Forall ready cis → answers cis w ans w' → (longest ans ≤ fuel)%nat →
  levelled trimTiers (reported cis ans) →
  ∃ g root, graphOf cis trimTiers false (forRegions (gen fuel) cis NewClusterTopology w) = Some (w', Ok g) ∧
    Tiers g = Some root ∧
    ∀ id name, instanceNames cis !! id = Some name → ∃ leaf,
      deref (g_heap g) leaf = MkVertex name id ∅ ∧
      lookupPath (g_heap g) root
        (match first (reported cis ans) id with
         | Some inst => reverse (id :: switchIDs (trimmedTiers inst trimTiers))
         | None => [NoTopology; id]
         end) = Some leaf.
Proof.
  intros Hrd Ha Hl Hlv. rewrite (forRegions_answers _ _ _ _ Ha) by done.
  destruct (ToGraph_places (reported cis ans) cis trimTiers false Hlv) as (g & root & Hg & Hroot & Hall).
  exists g, root. split_and!; [|done..]. simpl. unfold NewClusterTopology. simpl. by rewrite Hg.
Qed.
End Cloud.

(** ** Paths *)

Lemma insert_here {A} (l1 l2 : list A) (x y : A) : <[length l1 := y]> (l1 ++ x :: l2) = l1 ++ y :: l2.
Proof. rewrite insert_app_r_alt by lia. by rewrite Nat.sub_diag. Qed.

Lemma RootFirst_reverse ids : RootFirstFabricTiers ids = reverse (ClosestFirstFabricTiers ids).
Proof.
  unfold RootFirstFabricTiers, ClosestFirstFabricTiers.
  set (f := λ (tiers : list FabricTier) '(i, id), <[(length ids - i - 1)%nat := MkTier id ""]> tiers).
  enough (∀ l1 l2, ids = l1 ++ l2 →
    foldl f (replicate (length l2) (MkTier "" "") ++ reverse ((λ id, MkTier id "") <$> l1)) (imap (λ i x, (length l1 + i, x)%nat) l2)
    = reverse ((λ id, MkTier id "") <$> ids)) as Hgo.
  { specialize (Hgo [] ids eq_refl). simpl in Hgo. by rewrite app_nil_r in Hgo. }
  intros l1 l2. revert l1. induction l2 as [|x l2 IH]; intros l1 Hids; [by rewrite Hids, app_nil_r|].
  cbn [length imap foldl]. rewrite replicate_S_end.
  specialize (IH (l1 ++ [x])). rewrite <-app_assoc in IH. specialize (IH Hids). rewrite <-IH.
  f_equal.
  - unfold f. rewrite Nat.add_0_r. replace (length ids - length l1 - 1)%nat with (length l2)
      by (rewrite Hids, length_app; simpl; lia).
    rewrite fmap_app, reverse_app, <-app_assoc. simpl.
    rewrite <-(length_replicate (length l2) (MkTier "" "")) at 1. by rewrite insert_here.
  - rewrite length_app. simpl. apply imap_ext. intros i y _. simpl. f_equal. lia.
Qed.

(** Where [ToGraph] puts an instance: its switches, outermost first, and its
    ID. *)
Definition path (trimTiers : Z) (inst : InstanceTopology) : list string :=
  reverse (it_InstanceID inst :: switchIDs (trimmedTiers inst trimTiers)).

(** The switches of a path from the root, after trimming. *)
Definition named (trimTiers : Z) (ids : list string) : list string :=
  filter (λ id, id ≠ "") (drop (Z.to_nat trimTiers) ids).

Lemma filter_reverse (l : list string) : filter (λ id, id ≠ "") (reverse l) = reverse (filter (λ id, id ≠ "") l).
Proof.
  induction l as [|x l IH]; [done|]. rewrite reverse_cons, filter_app, IH, !filter_cons, filter_nil.
  case_decide; [by rewrite reverse_cons|by rewrite app_nil_r].
Qed.

Lemma path_closest trimTiers key ids domain sub inst :
  path trimTiers (MkInst key (ClosestFirstFabricTiers ids) domain sub inst) = named trimTiers (reverse ids) ++ [key].
Proof.
  unfold path, named. cbn [it_InstanceID]. rewrite reverse_cons. f_equal.
  unfold switchIDs, trimmedTiers, ClosestFirstFabricTiers. cbn [FabricTiers].
  rewrite <-filter_reverse, length_fmap, <-fmap_take, <-list_fmap_compose.
  change (t_ID ∘ (λ id, MkTier id "")) with (@id string). rewrite list_fmap_id.
  assert (∀ n, take n ids = reverse (drop (length ids - n) (reverse ids))) as ->.
  { intros n. rewrite <-(length_reverse ids) at 1. by rewrite <-take_reverse, reverse_involutive. }
  rewrite reverse_involutive. f_equal.
  destruct (Z.le_gt_cases (Z.of_nat (length ids)) trimTiers).
  - rewrite !drop_ge by (rewrite length_reverse; lia). done.
  - f_equal. lia.
Qed.

Lemma path_root trimTiers id ids domain sub inst :
  path trimTiers (MkInst id (RootFirstFabricTiers ids) domain sub inst) = named trimTiers ids ++ [id].
Proof.
  rewrite RootFirst_reverse. unfold ClosestFirstFabricTiers. rewrite <-fmap_reverse.
  rewrite <-(reverse_involutive ids) at 2. apply path_closest.
Qed.

(** The clouds' conversions keep the path.  An instance hangs where the API
    says: below the network nodes of AWS, the InfiniBand path of Nebius and the
    network path of nscale in their order, below cluster, block and subblock on
    GCP, below island, network block and local block on OCI, less the trimmed
    outermost tiers and the empty names; GCP's accelerator domain is the
    subblock, OCI's is the memory fabric, and its sub-domain adds the rack. *)
Theorem cloud_paths trimTiers :
  (∀ i, path trimTiers (Aws.convert i) = named trimTiers (Aws.NetworkNodes i) ++ [Aws.InstanceId i]) ∧
  (∀ ci i inst, Nebius.selectInstance ci i = Some inst → ∃ p, Nebius.InfinibandTopologyPath i = Some p ∧
     length p = 3%nat ∧ path trimTiers inst = named trimTiers p ++ [Nebius.GetId i]) ∧
  (∀ i, path trimTiers (Nscale.instanceOf i) = named trimTiers (Nscale.NetworkPath i) ++ [Nscale.st_ServerID i]) ∧
  (∀ ci i inst, Gcp.selectInstance ci i = Some inst → ∃ cluster block subblock,
     Gcp.ResourceStatus i = Some (Some (Gcp.MkHostTopology (Some cluster) (Some block) (Some subblock))) ∧
     path trimTiers inst = named trimTiers [cluster; block; subblock] ++ [itoa (Gcp.Id i)] ∧
     XclrDomainID inst = subblock) ∧
  (∀ h inst, Oci.convertComputeHost h = Ok inst → ∃ id local network island,
     Oci.InstanceId h = Some id ∧ Oci.LocalBlockId h = Some local ∧ Oci.NetworkBlockId h = Some network ∧
     Oci.HpcIslandId h = Some island ∧ path trimTiers inst = named trimTiers [island; network; local] ++ [id] ∧
     XclrDomainID inst = default "" (Oci.GpuMemoryFabricId h) ∧
     (XclrSubDomainID inst ≠ "" → XclrSubDomainID inst = XclrDomainID inst +:+ "." +:+ Oci.rack h)).
Proof.
  split_and!.
  - intros i. apply path_root.
  - intros ci i inst. unfold Nebius.selectInstance. destruct (ci_Instances ci !! _); [|done].
    destruct (Nebius.InfinibandTopologyPath i) as [p|]; [|done]. case_decide as Hl; [done|]. intros [= <-].
    exists p. split_and!; [done|done|apply path_root].
  - intros i. apply path_root.
  - intros ci i inst. unfold Gcp.selectInstance. destruct (ci_Instances ci !! _); [|done].
    destruct (Gcp.ResourceStatus i) as [[[[c|] [b|] [sb|]]|]|]; try done. intros [= <-].
    exists c, b, sb. split_and!; [done|apply (path_closest _ _ [sb; b; c])|done].
  - intros [id local network island fabric rack] inst. unfold Oci.convertComputeHost, Oci.convertHost. simpl.
    destruct id as [id|], local as [l|], network as [n|], island as [s|]; try done. intros [= <-].
    exists id, l, n, s. destruct fabric as [f|]; split_and!; try done; try apply (path_closest _ _ [l; n; s]).
    simpl. by case_decide.
Qed.

(** ** Witnesses *)

Lemma cloud_paths_witness :
  path 1 (Aws.convert (Aws.MkEc2Instance "i-1" ["nn-1"; "nn-2"; "nn-3"] (Some "cb-1"))) = ["nn-2"; "nn-3"; "i-1"].
Proof.
  exact (proj1 (cloud_paths 1) (Aws.MkEc2Instance "i-1" ["nn-1"; "nn-2"; "nn-3"] (Some "cb-1"))).
Defined.

(** AWS lists three instances in two pages; the request names two of them and
    one that AWS does not know. *)
Definition w_ec2 (input : Aws.describeInput) (w : nat) : nat * result string Aws.describeOutput :=
  (S w, Ok (match Aws.NextToken input with
            | None => Aws.MkOutput [Aws.MkEc2Instance "i-1" ["a"; "b"; "c"] None;
                                    Aws.MkEc2Instance "i-9" ["a"; "b"; "d"] None] (Some "p2")
            | Some _ => Aws.MkOutput [Aws.MkEc2Instance "i-2" ["a"; "b"; "d"] (Some "cb")] None
            end)).
Definition w_provider : Aws.Provider := Aws.MkProvider (W := nat) (λ _ _, Ok (Aws.MkClient w_ec2 None 100)) 0.
Definition w_cis : list ComputeInstances := [MkCI "us-east" {[ "i-1" := "n1"; "i-2" := "n2"; "i-3" := "n3" ]}].
Definition w_pages : list (list (list Aws.ec2Instance)) :=
  [[[Aws.MkEc2Instance "i-1" ["a"; "b"; "c"] None; Aws.MkEc2Instance "i-9" ["a"; "b"; "d"] None];
    [Aws.MkEc2Instance "i-2" ["a"; "b"; "d"] (Some "cb")]]].

#[local] Instance w_cloud : Cloud nat string Aws.ec2Instance := Aws.aws_cloud w_provider None.

Lemma w_ready : Forall ready w_cis.
Proof. by repeat constructor. Qed.

Lemma w_answers : answers w_cis 0%nat w_pages 2%nat.
Proof.
  apply (answers_cons (H := w_cloud) _ _ _ _ 2%nat); [done| |constructor].
  apply (serves_more (H := w_cloud) _ _ _ _ "p2" 1%nat); [reflexivity|].
  apply (serves_last (H := w_cloud)). reflexivity.
Qed.

Lemma cloud_listing_complete_witness : ∃ fuel,
  Aws.generateInstanceTopology w_provider None fuel w_cis 0%nat =
  Some (2%nat, Ok [Aws.convert (Aws.MkEc2Instance "i-1" ["a"; "b"; "c"] None);
                   Aws.convert (Aws.MkEc2Instance "i-2" ["a"; "b"; "d"] (Some "cb"))]).
Proof.
  apply (proj2 (cloud_listing_complete w_cis 0%nat 2%nat _ w_ready)).
  exists w_pages. split; [exact w_answers|]. vm_compute. reflexivity.
Defined.

Lemma cloud_places_nodes_witness : ∃ g root l1 l3,
  Aws.GenerateTopologyConfig w_provider None 2 w_cis 0%nat = Some (2%nat, Ok g) ∧ Tiers g = Some root ∧
  lookupPath (g_heap g) root ["a"; "b"; "c"; "i-1"] = Some l1 ∧ deref (g_heap g) l1 = MkVertex "n1" "i-1" ∅ ∧
  lookupPath (g_heap g) root [NoTopology; "i-3"] = Some l3.
Proof.
  destruct (cloud_places_nodes w_cis 0%nat w_pages 2%nat 2 0 w_ready w_answers) as (g & root & Hg & Hr & Hall).
  - vm_compute. lia.
  - apply (bool_decide_unpack _). vm_compute. exact I.
  - destruct (Hall "i-1" "n1" ltac:(vm_eq)) as (l1 & Hv1 & Hp1).
    destruct (Hall "i-3" "n3" ltac:(vm_eq)) as (l3 & _ & Hp3).
    exists g, root, l1, l3. split; [exact Hg|]. split; [exact Hr|]. split; [exact Hp1|]. split; [exact Hv1|exact Hp3].
Defined.
End CloudProps.
