(* ===== verification/Sim.v ===== *)
(** * Simulated providers: what they share

    [pkg/providers/providers_sim.go], and the way the simulated clients of the
    clouds page through the nodes of a model: a page token is an offset. *)

From S2P Require Import Prelude GoStrings Queue Topology Models Paging.
Open Scope Z_scope.

Module Sim.
Import Queue Topo Models Paging.

(** ** [providers_sim.go] *)

Record SimulationParams := MkSimParams { ModelFileName : string; APIError : Z; sp_TrimTiers : Z }.

Definition GetSimulationParams (decoded : result string SimulationParams) : result string SimulationParams :=
  p ← map_err (λ msg, "error decoding params: " +:+ msg) decoded;
  if decide (ModelFileName p = "") then Err "no model file name for simulation" else Ok p.

Definition ErrAPIError : string := "API error".

(** The verb [%q], for names without characters that it escapes. *)
Definition quoted (s : string) : string := String "034" (s +:+ String "034" "").

(** [node.ID] *)
Definition nodeID (node : Node) : string := i_ID (n_Instance node).

Section Base.
Context `{RangeOrder}.

Record BaseSimProvider := MkBase {
  instances : gmap string Instance_;
  computeInstances : list ComputeInstances;
  b_trimTiers : Z
}.

(** Loading gives every node of an instance an entry in the model. *)
Definition providerInstances (model : Model) (ci : ComputeInstances) : ComputeInstances :=
  MkCI (Region ci)
    (foldl (λ m kv, match m_Nodes model !! kv.2 with Some node => <[nodeID node := kv.2]> m | None => m end)
       ∅ (range (ci_Instances ci))).

Definition NewBaseSimProvider (model : Model) (trimTiers : Z) : BaseSimProvider :=
  MkBase (InstanceMap model []) (providerInstances model <$> m_Instances model) trimTiers.

Definition AttachInstances (p : BaseSimProvider) (topo : ClusterTopology) : ClusterTopology :=
  Topo.AttachInstances topo (instances p).

Definition ToGraph (p : BaseSimProvider) (topo : ClusterTopology) (cis : list ComputeInstances) (normalize : bool) :
    option Graph := Topo.ToGraph (AttachInstances p topo) cis (b_trimTiers p) normalize.

Definition GetComputeInstances (p : BaseSimProvider) : list ComputeInstances := computeInstances p.

(** [instanceIDs] of the simulated clients. *)
Definition instanceIDs (model : Model) : list string := (λ kv, nodeID kv.2) <$> range (m_Nodes model).

(** [GenerateTopologyConfig] of the simulated clouds. *)
Definition simGraph {W} (p : BaseSimProvider) (cis : list ComputeInstances) (normalize : bool)
    (r : option (W * result Error ClusterTopology)) : option (W * result Error Graph) :=
  match r with
  | None => None
  | Some (w, Err e) => Some (w, Err e)
  | Some (w, Ok topo) => g ← ToGraph p topo cis normalize; Some (w, Ok g)
  end.
End Base.

(** ** Offsets *)

(** [strconv.ParseInt(s, 10, 32)], the value whether or not there is an error:
    digits are read until the value leaves 32 bits. *)
Fixpoint parseUint32 (acc : Z) (s : string) : parsed :=
  match s with
  | "" => PVal acc
  | String c s =>
      if is_digit c then
        let acc := acc * 10 + digit_val c in
        if 2 ^ 32 - 1 <? acc then PRange else parseUint32 acc s
      else PSyntax
  end.
Definition signed32 (neg : bool) (s : string) : Z :=
  match (if decide (s = "") then PSyntax else parseUint32 0 s) with
  | PSyntax => 0
  | PRange => if neg then - 2 ^ 31 else 2 ^ 31 - 1
  | PVal z => if neg then - Z.min z (2 ^ 31) else Z.min z (2 ^ 31 - 1)
  end.
Definition parseInt32 (s : string) : Z :=
  match s with
  | String "-" s => signed32 true s
  | String "+" s => signed32 false s
  | _ => signed32 false s
  end.

(** [getPage], [getStartIndex]. *)
Definition getPage (page : option string) : Z := match page with None => 0 | Some s => parseInt32 s end.
Definition getStartIndex (token : string) : Z := if decide (token = "") then 0 else parseInt32 token.

(** [for indx = from; indx < from+size && indx < len(l); indx++]: the entries
    visited, and the last value of [indx]; no page token names a negative
    offset. *)
Definition visited {A} (from size : Z) (l : list A) : list A := take (Z.to_nat size) (drop (Z.to_nat from) l).
Definition lastIndex {A} (from size : Z) (l : list A) : Z := Z.max from (Z.min (from + size) (Z.of_nat (length l))).
Definition nextPage {A} (from size : Z) (l : list A) : option string :=
  if lastIndex from size l <? Z.of_nat (length l) then Some (itoa (lastIndex from size l)) else None.

Lemma parseUint32_digits s : ∀ acc,
  0 ≤ acc → str_forallb is_digit s = true → dec_val_go acc s ≤ 2 ^ 32 - 1 → parseUint32 acc s = PVal (dec_val_go acc s).
Proof.
  induction s as [|c s IH]; simpl; intros acc Hacc Hs Hb; [done|]. apply andb_true_iff in Hs as [Hc Hs]. rewrite Hc.
  pose proof (is_digit_val _ Hc). pose proof (dec_val_go_ge (acc * 10 + digit_val c) s ltac:(lia) Hs).
  destruct (Z.ltb_spec (2 ^ 32 - 1) (acc * 10 + digit_val c)); [lia|]. apply IH; [lia|done|done].
Qed.

(** A token is read back as the offset it was printed from. *)
Lemma parseInt32_itoa z : 0 ≤ z < 2 ^ 31 → parseInt32 (itoa z) = z.
Proof.
  intros Hz. destruct (itoa_spec z ltac:(lia)) as (Hne & Hd & Hv & _).
  assert (parseInt32 (itoa z) = signed32 false (itoa z)) as ->.
  { destruct (itoa z) as [|c s]; [done|]. simpl in Hd. apply andb_true_iff in Hd as [Hc _]. unfold parseInt32.
    destruct c as [[] [] [] [] [] [] [] []]; done. }
  unfold signed32. rewrite decide_False by done. unfold dec_val in Hv. rewrite parseUint32_digits, Hv by (done || lia). lia.
Qed.

Lemma getStartIndex_itoa z : 0 ≤ z < 2 ^ 31 → getStartIndex (itoa z) = z.
Proof.
  intros Hz. unfold getStartIndex. rewrite decide_False; [by apply parseInt32_itoa|].
  by destruct (itoa_spec z ltac:(lia)) as (Hne & _).
Qed.

(** ** A cloud that pages by offset *)

Section Offset.
Context `{Cloud W string Item}.

(** Pages of [size] entries of [ids], from the offset that a token reads as. *)
Definition offsets (ci : ComputeInstances) (ids : list string) (conv : string → option Item) (size : Z) (w : W) : Prop :=
  ∀ token from, token = (if decide (from = 0) then None else Some (itoa from)) → 0 ≤ from < 2 ^ 31 →
    fetch ci token w = (w, Ok (omap conv (visited from size ids), nextPage from size ids)).

Lemma offset_serves ci ids conv size w : offsets ci ids conv size w → 0 < size → Z.of_nat (length ids) < 2 ^ 31 →
  ∃ pages, serves ci None w pages w ∧ concat pages = omap conv ids.
Proof.
  intros Hf Hs Hl.
  assert (∀ n from, 0 ≤ from ≤ Z.of_nat (length ids) → Z.of_nat (length ids) - from ≤ Z.of_nat n →
    ∃ pages, serves ci (if decide (from = 0) then None else Some (itoa from)) w pages w ∧
      concat pages = omap conv (drop (Z.to_nat from) ids)) as Hgen.
  2: { destruct (Hgen (length ids) 0) as (pages & Hp & Hc); [lia|lia|]. exists pages. by rewrite drop_0 in Hc. }
  induction n as [|n IH]; intros from Hfrom Hn; specialize (Hf _ from eq_refl ltac:(lia)); unfold nextPage in Hf.
  - rewrite (proj2 (Z.ltb_ge _ _)) in Hf by (unfold lastIndex; lia). eexists [_]. split; [by apply serves_last|].
    simpl. unfold visited. rewrite app_nil_r, drop_ge by lia. by rewrite take_nil.
  - destruct (Z.ltb_spec (lastIndex from size ids) (Z.of_nat (length ids))) as [Hlt|Hge].
    + destruct (IH (lastIndex from size ids)) as (pages & Hp & Hc); [unfold lastIndex in *; lia..|].
      rewrite decide_False in Hp by (unfold lastIndex in *; lia).
      eexists (_ :: pages). split; [by eapply serves_more|]. simpl. rewrite Hc, <-omap_app. unfold visited, lastIndex in *.
      f_equal. replace (Z.to_nat (Z.max _ _)) with (Z.to_nat from + Z.to_nat size)%nat by lia.
      by rewrite <-drop_drop, take_drop.
    + eexists [_]. split; [by apply serves_last|]. simpl. rewrite app_nil_r. unfold visited. f_equal.
      apply take_ge. rewrite length_drop. unfold lastIndex in *. lia.
Qed.

Lemma offset_answers cis ids conv size w :
  Forall (λ ci, Region ci ≠ "" ∧ offsets ci ids conv size w) cis → 0 < size → Z.of_nat (length ids) < 2 ^ 31 →
  ∃ ans, answers cis w ans w ∧ reported cis ans = concat ((λ ci, omap (select ci) (omap conv ids)) <$> cis).
Proof.
  intros Hall Hs Hl. induction cis as [|ci cis IH]; [exists []; by split; [constructor|]|].
  apply Forall_cons in Hall as [[Hr Hf] Hall]. destruct (IH Hall) as (ans & Ha & Hrep).
  destruct (offset_serves ci ids conv size w Hf Hs Hl) as (pages & Hp & Hc).
  exists (pages :: ans). split; [by econstructor|]. simpl. by rewrite Hc, Hrep.
Qed.

Lemma offset_listing cis ids conv size w topo :
  Forall (λ ci, ready ci ∧ Region ci ≠ "" ∧ offsets ci ids conv size w) cis → 0 < size → Z.of_nat (length ids) < 2 ^ 31 →
  ∃ fuel, forRegions (gen fuel) cis topo w =
    Some (w, Ok (topo ++ concat ((λ ci, omap (select ci) (omap conv ids)) <$> cis))).
Proof.
  intros Hall Hs Hl. destruct (offset_answers cis ids conv size w) as (ans & Ha & <-); [|done..|].
  - eapply Forall_impl; [done|]. by intros ci (_ & ?).
  - exists (longest ans). apply forRegions_answers; [done| |done]. eapply Forall_impl; [done|]. by intros ci (? & _).
Qed.
End Offset.

(** ** Models *)

(** Every node of a loaded model has its key as its ID. *)
Definition keyed (nodes : gmap string Node) : Prop := map_Forall (λ name node, nodeID node = name) nodes.

Section Loaded.
Context `{RangeOrder}.

Lemma completeCapacityBlocks_keyed m m' : completeCapacityBlocks m = Ok m' → keyed (m_Nodes m) → keyed (m_Nodes m').
Proof.
  intros Hrun Hk. revert Hrun. apply (foldM_inv (λ m, keyed (m_Nodes m))); [done|].
  clear. intros t [index block] t' _ Ht. unfold completeBlock. intros (names & _ & Hb)%bind_Ok.
  case_decide; [done|]. apply bind_Ok in Hb as (sws & _ & (nodes & Hn & [= <-])%bind_Ok). cbn [m_Nodes].
  revert Hn. apply (foldM_inv keyed); [done|]. intros u name u' _ Hu. unfold newNode.
  destruct (u !! name); [done|]. intros [= <-]. by apply map_Forall_insert_2.
Qed.

Lemma buildSwitchMaps_nodes m m' maps : buildSwitchMaps m = Ok (m', maps) → m_Nodes m' = m_Nodes m.
Proof.
  intros Hrun. change (m_Nodes m') with (m_Nodes (m', maps).1). revert Hrun. unfold buildSwitchMaps.
  apply (foldM_inv (λ acc, m_Nodes acc.1 = m_Nodes m)); [done|]. intros [t maps1] [name parent] [t' maps2] _ Ht. unfold addParent.
  intros (maps3 & _ & (nodes & _ & (maps4 & _ & [= <- <-])%bind_Ok)%bind_Ok)%bind_Ok. exact Ht.
Qed.

Lemma deriveNodes_keyed m maps l : ∀ nodes regions nr, keyed nodes → Forall (λ kv, nodeID kv.2 = kv.1) l →
  foldM (deriveNode m maps) (nodes, regions) l = Ok nr → keyed nr.1.
Proof.
  intros nodes regions nr Hn Hl. apply (foldM_inv (λ nr, keyed nr.1)); [done|].
  intros [n1 r1] [host node] [n2 r2] Hin Hk. unfold deriveNode.
  intros ([[layers labels] annotations] & _ & [= <- _])%bind_Ok. apply map_Forall_insert_2; [|done].
  rewrite Forall_forall in Hl. exact (Hl _ Hin).
Qed.

Lemma model_keyed Unmarshal data m : NewModelFromData Unmarshal data = Ok m → keyed (m_Nodes m).
Proof.
  intros (raw & _ & (m0 & H0 & Hrun)%bind_Ok)%bind_Ok. apply UnmarshalYAML_named in H0 as [_ Hn0].
  unfold derive in Hrun. apply bind_Ok in Hrun as (m1 & H1 & ([m2 maps] & H2 & Hrun)%bind_Ok).
  apply completeCapacityBlocks_keyed in H1; [|rewrite Hn0; apply map_Forall_empty].
  apply buildSwitchMaps_nodes in H2. rewrite <-H2 in H1. case_decide; [done|].
  apply bind_Ok in Hrun as ([] & _ & (nr & Hd & [= <-])%bind_Ok). simpl. eapply deriveNodes_keyed; [exact H1| |exact Hd].
  apply Forall_forall. intros [name node] Hin%elem_of_range. by apply H1.
Qed.
End Loaded.
End Sim.
