(* ===== verification/AwsSim.v ===== *)
(** * The simulated AWS provider: [pkg/providers/aws/provider_sim.go]

    The client answers from the nodes of a model, page by page.  The error
    constants are positions in the constant declaration of the package. *)

From S2P Require Import Prelude GoStrings Queue Topology Models Paging Sim Aws.
Open Scope Z_scope.

Module AwsSim.
Import Queue Topo Models Paging Sim.

Definition DEFAULT_MAX_RESULTS : Z := 20.
Definition errClientFactory : Z := 4.
Definition errDescribeInstanceTopology : Z := 5.

Record simClient := MkSim { model : Model; instanceIds : list string; apiErr : Z }.
(** The maps of a client. *)
Record state := MkState { outputs : gmap string (list Aws.ec2Instance); nextTokens : gmap string string }.

(** A node without an availability zone is an error; an instance that is not in
    the model is skipped. *)
Definition addSimInstance (m : Model) (insts : list Aws.ec2Instance) (instanceId : string) :
    result string (list Aws.ec2Instance) :=
  match m_Nodes m !! instanceId with
  | None => Ok insts
  | Some node =>
      if decide (default "" (default ∅ (Labels (n_Instance node)) !! LabelTopologyZone) = "")
      then Err ("availability zone not found for instance " +:+ quoted instanceId +:+ " in AWS simulation")
      else Ok (insts ++ [Aws.MkEc2Instance instanceId (reverse (NetLayers (n_Instance node))) (Some (AcceleratorDomain node))])
  end.

(** The loop over the pages, from [instanceIdx] on; with no positive
    [maxResults] it does not end, which the model answers with an error. *)
Fixpoint buildPages (fuel : nat) (m : Model) (maxResults : Z) (ids : list string) (instanceIdx : Z) (st : state) :
    state * result string () :=
  if Z.of_nat (length ids) <=? instanceIdx then (st, Ok ())
  else match fuel with
       | O => (st, Err "the loop does not end")
       | S fuel =>
           match foldM (addSimInstance m) [] (visited instanceIdx maxResults ids) with
           | Err msg => (st, Err msg)
           | Ok insts =>
               let token := itoa instanceIdx in
               let next := lastIndex instanceIdx maxResults ids in
               buildPages fuel m maxResults ids next
                 (MkState (<[token := insts]> (outputs st))
                    (if next <? Z.of_nat (length ids) then <[token := itoa next]> (nextTokens st) else nextTokens st))
           end
       end.

Definition DescribeInstanceTopology (client : simClient) (params : Aws.describeInput) (st : state) :
    state * result string Aws.describeOutput :=
  if decide (apiErr client = errDescribeInstanceTopology) then (st, Err ErrAPIError)
  else
    let ids := match Aws.InstanceIds params with Some (id :: ids) => id :: ids | _ => instanceIds client end in
    let answer (st : state) (token : string) :=
      Aws.MkOutput (default [] (outputs st !! token)) (nextTokens st !! token) in
    match Aws.NextToken params with
    | Some token => (st, Ok (answer st token))
    | None =>
        let maxResults := default DEFAULT_MAX_RESULTS (Aws.MaxResults params) in
        match buildPages (length ids) (model client) maxResults ids 0 (MkState ∅ ∅) with
        | (st, Err msg) => (st, Err msg)
        | (st, Ok ()) => (st, Ok (answer st (if decide (ids = []) then "" else itoa 0)))
        end
    end.

Section Provider.
Context `{RangeOrder}.

(** The client has no credentials to retrieve. *)
Definition clientFactory (m : Model) (apiError : Z) (region : string) (pageSize : option Z) :
    result string (Aws.Client state) :=
  if decide (apiError = errClientFactory) then Err ErrAPIError
  else Ok (Aws.MkClient (DescribeInstanceTopology (MkSim m (instanceIDs m) apiError)) None (Aws.setPageSize pageSize)).

Definition GenerateTopologyConfig (p : SimulationParams) (m : Model) (pageSize : option Z) (fuel : nat)
    (cis : list ComputeInstances) (st : state) : option (state * result Error Graph) :=
  simGraph (NewBaseSimProvider m (sp_TrimTiers p)) cis false
    (Aws.generateInstanceTopology (Aws.MkProvider (clientFactory m (APIError p)) 0) pageSize fuel cis st).
End Provider.
End AwsSim.
