(* ===== verification/GcpSim.v ===== *)
(** * The simulated GCP provider: [pkg/providers/gcp/provider_sim.go]

    The client answers from the nodes of a model, page by page.  The error
    constants are positions in the constant declaration of the package. *)

From S2P Require Import Prelude GoStrings Queue Topology Models Paging Sim Gcp.
Open Scope Z_scope.

Module GcpSim.
Import Queue Topo Models Paging Sim.

Definition errClientFactory : Z := 2.
Definition errInstances : Z := 3.

Record simClient := MkSim { model : Model; pageSize : Z; instanceIDs : list string; apiErr : Z }.

(** [None]: the identifier is not a number. *)
Definition simInstance (node : Node) : option Gcp.gcpInstance :=
  match parse_uint (nodeID node) with
  | PVal id =>
      Some (Gcp.MkGcpInstance id
        (match NetLayers (n_Instance node) with
         | subblock :: block :: cluster :: _ => Some (Some (Gcp.MkHostTopology (Some cluster) (Some block) (Some subblock)))
         | _ => None
         end))
  | _ => None
  end.

Definition addSimInstance (m : Model) (acc : list Gcp.gcpInstance) (id : string) : result string (list Gcp.gcpInstance) :=
  match m_Nodes m !! id with
  | None => Ok acc
  | Some node =>
      match simInstance node with
      | Some i => Ok (acc ++ [i])
      | None => Err ("invalid instance ID " +:+ quoted (nodeID node) +:+ "; must be numerical")
      end
  end.

Definition Instances (c : simClient) (req : Gcp.listRequest) (w : ()) : () * (list (result string Gcp.gcpInstance) * string) :=
  if decide (apiErr c = errInstances) then (w, ([Err ErrAPIError], ""))
  else
    let from := getPage (Gcp.PageToken req) in
    (w, match foldM (addSimInstance (model c)) [] (visited from (pageSize c) (instanceIDs c)) with
        | Err msg => ([Err msg], "")
        | Ok l => (Ok <$> l, default "" (nextPage from (pageSize c) (instanceIDs c)))
        end).

Section Provider.
Context `{RangeOrder}.

Definition clientFactory (m : Model) (apiError : Z) (pageSize : option Z) : result string (Gcp.Client ()) :=
  if decide (apiError = errClientFactory) then Err ErrAPIError
  else
    let ids := Sim.instanceIDs m in
    let limit := default (Z.of_nat (length ids) mod 2 ^ 32) (Gcp.castPageSize pageSize) in
    Ok (Gcp.MkClient "" (Some limit) (Instances (MkSim m limit ids apiError))).

Definition GenerateTopologyConfig (p : SimulationParams) (m : Model) (pageSize : option Z) (fuel : nat)
    (cis : list ComputeInstances) (w : ()) : option (() * result Error Graph) :=
  simGraph (NewBaseSimProvider m (sp_TrimTiers p)) cis false
    (Gcp.generateInstanceTopology (Gcp.MkProvider (clientFactory m (APIError p)) 0) pageSize fuel cis w).
End Provider.
End GcpSim.
