(* ===== verification/NebiusSim.v ===== *)
(** * The simulated Nebius provider: [pkg/providers/nebius/provider_sim.go]

    The client answers from the nodes of a model, page by page.  The error
    constants are positions in the constant declaration of the package. *)

From S2P Require Import Prelude GoStrings Queue Topology Models Paging Sim Nebius.
Open Scope Z_scope.

Module NebiusSim.
Import Queue Topo Models Paging Sim.

Definition errClientFactory : Z := 2.
Definition errInstances : Z := 3.
Definition errTopologyPath : Z := 4.
Definition errMetadata : Z := 5.

Record simClient := MkSim { model : Model; pageSize : Z; instanceIDs : list string; apiErr : Z }.

Definition simInstance (apiErr : Z) (node : Node) : Nebius.computeInstance :=
  Nebius.MkComputeInstance (if decide (apiErr = errMetadata) then "" else nodeID node)
    (Some (if decide (apiErr = errTopologyPath) then [] else reverse (NetLayers (n_Instance node)))) (AcceleratorDomain node).

Definition GetComputeInstanceList (c : simClient) (req : Nebius.listRequest) (w : ()) : () * result string Nebius.listResponse :=
  if decide (apiErr c = errInstances) then (w, Err ErrAPIError)
  else
    let from := getStartIndex (Nebius.PageToken req) in
    (w, Ok (Nebius.MkListResponse
              (omap (λ id, simInstance (apiErr c) <$> m_Nodes (model c) !! id) (visited from (pageSize c) (instanceIDs c)))
              (default "" (nextPage from (pageSize c) (instanceIDs c))))).

Section Provider.
Context `{RangeOrder}.

Definition clientFactory (m : Model) (apiError : Z) (pageSize : option Z) : result string (Nebius.Client ()) :=
  if decide (apiError = errClientFactory) then Err ErrAPIError
  else
    let size := Nebius.getPageSize pageSize in
    Ok (Nebius.MkClient "" size (GetComputeInstanceList (MkSim m size (Sim.instanceIDs m) apiError))).

Definition GenerateTopologyConfig (p : SimulationParams) (m : Model) (pageSize : option Z) (fuel : nat)
    (cis : list ComputeInstances) (w : ()) : option (() * result Error Graph) :=
  simGraph (NewBaseSimProvider m (sp_TrimTiers p)) cis false
    (Nebius.generateInstanceTopology (Nebius.MkProvider (clientFactory m (APIError p)) 0) pageSize fuel cis w).
End Provider.
End NebiusSim.
