(* ===== verification/NscaleSim.v ===== *)
(** * The simulated nscale provider: [pkg/providers/nscale/provider_sim.go]

    The client answers from the nodes of a model, page by page.  The error
    constants are positions in the constant declaration of the package. *)

From S2P Require Import Prelude GoStrings Queue Topology Models Paging Sim Nscale.
Open Scope Z_scope.

Module NscaleSim.
Import Queue Topo Models Paging Sim.

Definition errTopology : Z := 1.

Record simClient := MkSim { model : Model; instanceIDs : list string; apiErr : Z }.

Definition simServer (node : Node) : Nscale.serverTopology :=
  Nscale.MkServerTopology (nodeID node) (reverse (NetLayers (n_Instance node)))
    (if decide (AcceleratorDomain node ≠ "") then Some (AcceleratorDomain node) else None).

Definition Topology_ (c : simClient) (region : string) (pageSize offset : Z) (w : ()) :
    () * result Error (list Nscale.serverTopology) :=
  if decide (apiErr c = errTopology) then (w, Err (NewError 502 ErrAPIError))
  else (w, Ok (omap (λ id, simServer <$> m_Nodes (model c) !! id) (visited offset pageSize (instanceIDs c)))).

Section Provider.
Context `{RangeOrder}.

Definition client (m : Model) (apiError : Z) : simClient := MkSim m (Sim.instanceIDs m) apiError.

Definition GenerateTopologyConfig (p : SimulationParams) (m : Model) (pageSize : option Z) (fuel : nat)
    (cis : list ComputeInstances) (w : ()) : option (() * result Error Graph) :=
  simGraph (NewBaseSimProvider m (sp_TrimTiers p)) cis false
    (Nscale.generateInstanceTopology (Topology_ (client m (APIError p))) pageSize fuel cis w).
End Provider.
End NscaleSim.
