(* ===== verification/LambdaSim.v ===== *)
(** * The simulated Lambda provider: [pkg/providers/lambdai/provider_sim.go]

    The client answers from the nodes of a model, page by page.  The error
    constants are positions in the constant declaration of the package. *)

From S2P Require Import Prelude GoStrings Queue Topology Models Paging Sim LambdaApi.
Open Scope Z_scope.

Module LambdaSim.
Import Queue Topo Models Paging Sim.

Definition errClientFactory : Z := 2.
Definition errInstanceList : Z := 3.

Record simClient := MkSim { model : Model; pageSize : Z; instanceIDs : list string; apiErr : Z }.

Definition simInstance (node : Node) : LambdaApi.instanceTopology :=
  LambdaApi.MkInstanceTopology (nodeID node) (NetLayers (n_Instance node))
    (Some (LambdaApi.MkNVLink (AcceleratorDomain node) "simulation")).

Definition InstanceList (c : simClient) (req : LambdaApi.InstanceListRequest) (w : ()) :
    () * result string LambdaApi.InstanceListResponse :=
  if decide (apiErr c = errInstanceList) then (w, Err ErrAPIError)
  else
    let from := getStartIndex (LambdaApi.rq_PageToken req) in
    (w, Ok (LambdaApi.MkResponse
              (omap (λ id, simInstance <$> m_Nodes (model c) !! id) (visited from (pageSize c) (instanceIDs c)))
              (default "" (nextPage from (pageSize c) (instanceIDs c))))).

Section Provider.
Context `{RangeOrder}.

Definition clientFactory (m : Model) (apiError : Z) (pageSize : option Z) : result string (LambdaApi.Client ()) :=
  if decide (apiError = errClientFactory) then Err ErrAPIError
  else
    let ids := Sim.instanceIDs m in
    let size := default (Z.of_nat (length ids)) pageSize in
    Ok (LambdaApi.MkApi size (InstanceList (MkSim m size ids apiError))).

Definition GenerateTopologyConfig (p : SimulationParams) (m : Model) (pageSize : option Z) (fuel : nat)
    (cis : list ComputeInstances) (w : ()) : option (() * result Error Graph) :=
  simGraph (NewBaseSimProvider m (sp_TrimTiers p)) cis false
    (LambdaApi.generateInstanceTopology (LambdaApi.MkProvider (clientFactory m (APIError p)) 0) pageSize fuel cis w).
End Provider.
End LambdaSim.
