(* ===== verification/OciSim.v ===== *)
(** * The simulated OCI provider: [pkg/providers/oci/provider_sim.go]

    The client answers from the nodes of a model, page by page, in one
    availability domain. *)

From S2P Require Import Prelude GoStrings Queue Topology Models Paging Sim Oci.
Open Scope Z_scope.

Module OciSim.
Import Queue Topo Models Paging Sim.

Definition errClientFactory : Z := 2.
Definition errListAvailabilityDomains : Z := 3.
Definition errListComputeHosts : Z := 4.
Definition errGetComputeHost : Z := 5.

Record simClient := MkSim { model : Model; pageSize : Z; instanceIDs : list string; apiErr : Z }.

Definition ListAvailabilityDomains (c : simClient) (w : ()) : () * result string (list string) :=
  if decide (apiErr c = errListAvailabilityDomains) then (w, Err ErrAPIError) else (w, Ok ["ad"]).

(** The other fields of a summary are not read. *)
Definition ListComputeHosts (c : simClient) (ad : string) (page : option string) (w : ()) :
    () * result string Oci.listResponse :=
  if decide (apiErr c = errListComputeHosts) then (w, Err ErrAPIError)
  else
    let from := getPage page in
    (w, Ok (Oci.MkListResponse
              (omap (λ id, (λ node, Oci.MkSummary (Some (nodeID node)) (Some (nodeID node))) <$> m_Nodes (model c) !! id)
                 (visited from (pageSize c) (instanceIDs c)))
              (nextPage from (pageSize c) (instanceIDs c)))).

Definition simHost (node : Node) : Oci.computeHost :=
  let layers := NetLayers (n_Instance node) in
  Oci.MkHost (Some (nodeID node)) (layers !! 0%nat) (layers !! 1%nat) (layers !! 2%nat)
    (if decide (AcceleratorDomain node ≠ "") then Some (AcceleratorDomain node) else None) (AcceleratorSubDomain node).

Definition GetComputeHost (c : simClient) (id : string) (w : ()) : result string Oci.computeHost :=
  if decide (apiErr c = errGetComputeHost) then Err ErrAPIError
  else match m_Nodes (model c) !! id with
       | None => Err ("compute host " +:+ quoted id +:+ " not found")
       | Some node => Ok (simHost node)
       end.

Definition client (c : simClient) : Oci.Client () :=
  Oci.MkClient (ListAvailabilityDomains c) (ListComputeHosts c) (GetComputeHost c).

Section Provider.
Context `{RangeOrder}.

Definition clientFactory (m : Model) (apiError : Z) (region : string) (pageSize : option Z) : result string (Oci.Client ()) :=
  if decide (apiError = errClientFactory) then Err ErrAPIError
  else
    let ids := Sim.instanceIDs m in
    Ok (client (MkSim m (default (Z.of_nat (length ids)) pageSize) ids apiError)).

Definition GenerateTopologyConfig (p : SimulationParams) (m : Model) (pageSize : option Z) (fuel : nat)
    (cis : list ComputeInstances) (w : ()) : option (() * result Error Graph) :=
  simGraph (NewBaseSimProvider m (sp_TrimTiers p)) cis true
    (Oci.generateInstanceTopology (Oci.NewAPI (clientFactory m (APIError p)) 0) pageSize fuel cis w).
End Provider.
End OciSim.
