(* ===== verification/FirebirdSim.v ===== *)
(** * The simulated Firebird provider: [pkg/providers/firebird/provider_sim.go]

    Nodes in the order of their names; a page token is an offset, and the last
    page has none. *)

From S2P Require Import Prelude GoStrings Queue Topology Models Paging Sim Firebird.
Open Scope Z_scope.

Module FirebirdSim.
Import Queue Topo Models Paging Sim.

Definition errTopology : Z := 1.

Record simClient := MkSim { nodes : list Firebird.Node; apiErr : Z }.

(** [cancelled]: the context is done.  The bodies of the simulated failures,
    decoded. *)
Definition simError (apiErr : Z) : option Error :=
  if decide (apiErr = errTopology) then Some (NewError 502 ErrAPIError)
  else if decide (apiErr = 400) then
    Some (Firebird.apiError 400 (Some (Firebird.MkAPIError "INVALID_ARGUMENT" None "Invalid nodeKind, pageSize or pageToken")))
  else if decide (apiErr = 404) then
    Some (Firebird.apiError 404 (Some (Firebird.MkAPIError "NOT_FOUND" None "switchId not found")))
  else if decide (apiErr = 429) then
    Some (Firebird.apiError 429 (Some (Firebird.MkAPIError "RATE_LIMITED" None "Rate limit exceeded — try again later")))
  else None.

(** The offset that a token names, if it is one of the list. *)
Definition simOffset (token : string) (l : list Firebird.Node) : option Z :=
  if decide (token = "") then Some 0
  else match Atoi token with
       | Ok offset => if (offset <? 0) || (Z.of_nat (length l) <? offset) then None else Some offset
       | Err _ => None
       end.

Definition Topology_ (c : simClient) (cancelled : bool) (pageSize : Z) (token : string) : result Error Firebird.TopologyResult :=
  if cancelled then Err (NewError 502 "context canceled")
  else match simError (apiErr c) with
       | Some e => Err e
       | None =>
           if pageSize <=? 0 then Err (NewError 400 "pageSize must be positive")
           else match simOffset token (nodes c) with
                | None => Err (NewError 400 "invalid simulation pageToken")
                | Some offset =>
                    let len := Z.of_nat (length (nodes c)) in
                    let end_ := offset + Z.min pageSize (len - offset) in
                    Ok (Firebird.MkResult (if end_ <? len then itoa end_ else "")
                          (take (Z.to_nat (end_ - offset)) (drop (Z.to_nat offset) (nodes c))))
                end
       end.

(** [LoaderSim], after the parameters are read and the model is loaded. *)
Definition simNodes (m : Model) : list Firebird.Node :=
  omap (λ name, (λ node, Firebird.MkNode (nodeID node) (NetLayers (n_Instance node))) <$> m_Nodes m !! name)
    (sorted_keys (m_Nodes m)).

Section Provider.
Context `{RangeOrder}.

(** No access token is needed with a client. *)
Definition GenerateTopologyConfig (trim : Z) (p : SimulationParams) (m : Model) (cancelled : bool) (pageSize : option Z)
    (fuel : nat) (cis : list ComputeInstances) (w : ()) : option (() * result Error Graph) :=
  let c := MkSim (simNodes m) (APIError p) in
  simGraph (NewBaseSimProvider m trim) cis false
    (Firebird.generateInstanceTopology (λ w, (w, Ok "")) (λ size token _ w, (w, Topology_ c cancelled size token))
       fuel pageSize cis w).
End Provider.
End FirebirdSim.
