(* ===== verification/SimProps.v ===== *)
(** * The simulated providers list their model

    What the providers of the clouds collect over the simulated clients: every
    node of a loaded model, converted, for every region of the request. *)

From S2P Require Import Prelude GoStrings Queue Topology Models Paging Sim Gcp Nebius Nscale LambdaApi GcpSim NebiusSim NscaleSim LambdaSim.
Open Scope Z_scope.

Module SimProps.
Import Queue Topo Models Paging Sim.

Section Listing.
Context `{RangeOrder} (m : Model).

(** The nodes in the order of the client's IDs. *)
Definition modelNodes : list Node := snd <$> range (m_Nodes m).

(** A model that [getPage] can count through, and a request with regions. *)
Definition countable : Prop := keyed (m_Nodes m) ∧ Z.of_nat (length modelNodes) < 2 ^ 31.
Definition regional (cis : list ComputeInstances) : Prop := Forall (λ ci, Region ci ≠ "") cis.

Lemma length_instanceIDs : length (instanceIDs m) = length modelNodes.
Proof. unfold instanceIDs, modelNodes. by rewrite !length_fmap. Qed.

(** A client that looks IDs up in the model finds every node. *)
Lemma omap_model {B} (f : Node → B) : keyed (m_Nodes m) →
  omap (λ id, f <$> m_Nodes m !! id) (instanceIDs m) = f <$> modelNodes.
Proof.
  intros Hk. unfold instanceIDs, modelNodes.
  assert (Forall (λ kv, m_Nodes m !! nodeID kv.2 = Some kv.2) (range (m_Nodes m))) as Hall.
  { apply Forall_forall. intros [id node] Hin%elem_of_range. simpl. rewrite (Hk _ _ Hin), Hin. by eexists. }
  induction Hall as [|kv l Hkv _ IH]; [done|]. csimpl. rewrite Hkv. csimpl. by rewrite IH.
Qed.

Lemma omap_found {A B} (f : A → option B) l from size : Forall (λ x, is_Some (f x)) l →
  omap f (visited from size l) = take (Z.to_nat size) (drop (Z.to_nat from) (omap f l)).
Proof.
  intros Hall. unfold visited. assert (∀ n k, omap f (take n (drop k l)) = take n (drop k (omap f l))) as Hg; [|apply Hg].
  clear from size. induction Hall as [|x l [y Hy] Hall IH]; intros n k; [by destruct n, k|].
  simpl. rewrite Hy. destruct k as [|k]; [|apply IH]. destruct n as [|n]; [done|]. simpl. rewrite Hy. f_equal. apply (IH n 0%nat).
Qed.

(** The token of the next page, as the clients encode that there is none. *)
Lemma nextPage_token {A} from size (l : list A) : 0 ≤ from →
  (if decide (default "" (nextPage from size l) = "") then None else Some (default "" (nextPage from size l)))
  = nextPage from size l.
Proof.
  intros Hf. unfold nextPage. destruct (_ <? _); simpl; [|done]. rewrite decide_False; [done|].
  apply (itoa_spec (lastIndex from size l)). unfold lastIndex. lia.
Qed.

Lemma getStartIndex_token token from : token = (if decide (from = 0) then None else Some (itoa from)) → 0 ≤ from < 2 ^ 31 →
  getStartIndex (default "" token) = from.
Proof. intros -> Hf. case_decide as H0; simpl; [by rewrite H0|by apply getStartIndex_itoa]. Qed.

Lemma getPage_token token from : token = (if decide (from = 0) then None else Some (itoa from)) → 0 ≤ from < 2 ^ 31 →
  getPage token = from.
Proof. intros -> Hf. case_decide as H0; simpl; [by rewrite H0|by apply parseInt32_itoa]. Qed.

Section Client.
Context `{C : Cloud () string Item} (conv : Node → Item) (cis : list ComputeInstances) (size : Z).

(** A client that pages through the model by offset lists the model. *)
Lemma simulated_listing : countable → regional cis → 0 < size → Forall ready cis →
  (∀ ci, Region ci ≠ "" → offsets ci (instanceIDs m) (λ id, conv <$> m_Nodes m !! id) size ()) →
  ∃ fuel, forRegions (gen fuel) cis NewClusterTopology () =
    Some ((), Ok (concat ((λ ci, omap (select ci) (conv <$> modelNodes)) <$> cis))).
Proof.
  intros [Hk Hl] Hr Hs Hrd Hoff.
  destruct (offset_listing cis (instanceIDs m) (λ id, conv <$> m_Nodes m !! id) size () NewClusterTopology) as [fuel Hf].
  - unfold regional in Hr. rewrite Forall_forall in Hr, Hrd. apply Forall_forall. intros ci Hin.
    split_and!; [by apply Hrd|by apply Hr|by apply Hoff, Hr].
  - done.
  - by rewrite length_instanceIDs.
  - exists fuel. by rewrite Hf, (omap_model conv Hk).
Qed.
End Client.

(** ** GCP: the IDs are numbers *)

Definition gcpInstanceOf (node : Node) : Gcp.gcpInstance :=
  default (Gcp.MkGcpInstance 0 None) (GcpSim.simInstance node).
Definition numeric : Prop := Forall (λ node, ∃ z, parse_uint (nodeID node) = PVal z) modelNodes.

Lemma numeric_instance node : numeric → node ∈ modelNodes → GcpSim.simInstance node = Some (gcpInstanceOf node).
Proof.
  intros Hn Hin. unfold numeric in Hn. rewrite Forall_forall in Hn. destruct (Hn _ Hin) as [z Hz].
  unfold gcpInstanceOf, GcpSim.simInstance. by rewrite Hz.
Qed.

Lemma gcp_page ids : numeric → ∀ acc,
  foldM (GcpSim.addSimInstance m) acc ids = Ok (acc ++ omap (λ id, gcpInstanceOf <$> m_Nodes m !! id) ids).
Proof.
  intros Hn. induction ids as [|id ids IH]; intros acc; simpl; [by rewrite app_nil_r|].
  unfold GcpSim.addSimInstance at 1. destruct (m_Nodes m !! id) as [node|] eqn:Hid; simpl; [|apply IH].
  rewrite numeric_instance; [|done|].
  - simpl. by rewrite IH, <-app_assoc.
  - unfold modelNodes. apply list_elem_of_fmap. exists (id, node). split; [done|]. by apply elem_of_range.
Qed.

Lemma pageOf_Ok its : Gcp.pageOf (Ok <$> its) = Ok its.
Proof.
  unfold Gcp.pageOf. enough (∀ acc, foldM Gcp.collect acc (Ok <$> its) = Ok (acc ++ its)) as Hg by apply (Hg []).
  induction its as [|i its IH]; intros acc; simpl; [by rewrite app_nil_r|]. by rewrite IH, <-app_assoc.
Qed.

Lemma gcp_offsets ci apiError size : numeric → apiError ≠ GcpSim.errInstances →
  offsets (H := Gcp.gcp_cloud (Gcp.MkClient "" (Some size) (GcpSim.Instances (GcpSim.MkSim m size (instanceIDs m) apiError))))
    ci (instanceIDs m) (λ id, gcpInstanceOf <$> m_Nodes m !! id) size ().
Proof.
  intros Hn He token from Ht Hf. simpl. unfold Gcp.list_, GcpSim.Instances. simpl. rewrite decide_False by done.
  rewrite (getPage_token token from Ht Hf), gcp_page by done. simpl.
  rewrite pageOf_Ok. simpl. by rewrite nextPage_token by lia.
Qed.

Lemma nebius_offsets ci apiError size : apiError ≠ NebiusSim.errInstances →
  offsets (H := Nebius.nebius_cloud (Nebius.MkClient "" size
      (NebiusSim.GetComputeInstanceList (NebiusSim.MkSim m size (instanceIDs m) apiError))))
    ci (instanceIDs m) (λ id, NebiusSim.simInstance apiError <$> m_Nodes m !! id) size ().
Proof.
  intros He token from Ht Hf. simpl. unfold Nebius.list_, NebiusSim.GetComputeInstanceList. simpl.
  rewrite decide_False by done. rewrite (getStartIndex_token token from Ht Hf).
  cbn [Nebius.Items Nebius.NextPageToken LambdaApi.Items LambdaApi.NextPageToken]. by rewrite nextPage_token by lia.
Qed.

Lemma lambda_offsets ci apiError size : apiError ≠ LambdaSim.errInstanceList →
  offsets (H := LambdaApi.lambda_cloud (LambdaApi.MkApi size
      (LambdaSim.InstanceList (LambdaSim.MkSim m size (instanceIDs m) apiError))))
    ci (instanceIDs m) (λ id, LambdaSim.simInstance <$> m_Nodes m !! id) size ().
Proof.
  intros He token from Ht Hf. simpl. unfold LambdaApi.list_, LambdaSim.InstanceList. simpl.
  rewrite decide_False by done. rewrite (getStartIndex_token token from Ht Hf).
  cbn [Nebius.Items Nebius.NextPageToken LambdaApi.Items LambdaApi.NextPageToken]. by rewrite nextPage_token by lia.
Qed.

(** nscale: the end of the list is an empty page. *)
Lemma nscale_listing apiError size cis : keyed (m_Nodes m) → apiError ≠ NscaleSim.errTopology → regional cis → 0 < size →
  ∀ topo, ∃ fuel,
  forRegions (Nscale.generateRegionInstanceTopology (NscaleSim.Topology_ (NscaleSim.client m apiError)) size fuel) cis topo () =
  Some ((), Ok (topo ++ concat ((λ _, Nscale.instanceOf <$> (NscaleSim.simServer <$> modelNodes)) <$> cis))).
Proof.
  intros Hk He Hr Hs. set (servers := λ _ : string, NscaleSim.simServer <$> modelNodes).
  assert (∀ r limit off w, NscaleSim.Topology_ (NscaleSim.client m apiError) r limit off w = Nscale.stillServer servers r limit off w)
    as Hst.
  { intros r limit off w. unfold NscaleSim.Topology_. rewrite decide_False by done. unfold Nscale.stillServer. do 2 f_equal.
    subst servers. simpl. rewrite <-(omap_model _ Hk). apply omap_found.
    apply Forall_forall. intros id (node & -> & Hin)%list_elem_of_fmap. destruct node as [k node]. apply elem_of_range in Hin.
    simpl. rewrite (Hk _ _ Hin), Hin. by eexists. }
  intros topo. exists (S (length modelNodes)). revert topo.
  induction Hr as [|ci cis Hci _ IH]; intros topo; [by simpl; rewrite app_nil_r|]. cbn [forRegions].
  assert (Nscale.generateRegionInstanceTopology (NscaleSim.Topology_ (NscaleSim.client m apiError)) size (S (length modelNodes)) ci topo () =
    Some ((), Ok (topo ++ (Nscale.instanceOf <$> servers (Region ci))))) as ->.
  { rewrite <-(Nscale.stillServer_reads servers size (S (length modelNodes)) ci topo Hci Hs) by (unfold servers; rewrite length_fmap; lia).
    unfold Nscale.generateRegionInstanceTopology. case_decide; [done|]. apply pageLoop_ext. clear -Hst. intros topo off w.
    unfold Nscale.listPage. by rewrite Hst. }
  rewrite IH. simpl. by rewrite <-app_assoc.
Qed.

(** What the four simulated providers list for one request. *)
Record listsModel (apiError size : Z) (cis : list ComputeInstances) : Prop := {
  list_gcp : numeric → ∃ fuel,
    Gcp.generateInstanceTopology (Gcp.MkProvider (GcpSim.clientFactory m apiError) 0) (Some size) fuel cis () =
    Some ((), Ok (concat ((λ ci, omap (Gcp.selectInstance ci) (gcpInstanceOf <$> modelNodes)) <$> cis)));
  list_nebius : ∃ fuel,
    Nebius.generateInstanceTopology (Nebius.MkProvider (NebiusSim.clientFactory m apiError) 0) (Some size) fuel cis () =
    Some ((), Ok (concat ((λ ci, omap (Nebius.selectInstance ci) (NebiusSim.simInstance apiError <$> modelNodes)) <$> cis)));
  list_lambda : ∃ fuel,
    LambdaApi.generateInstanceTopology (LambdaApi.MkProvider (LambdaSim.clientFactory m apiError) 0) (Some size) fuel cis () =
    Some ((), Ok (concat ((λ _, LambdaApi.instanceOf <$> (LambdaSim.simInstance <$> modelNodes)) <$> cis)));
  list_nscale : ∃ fuel,
    Nscale.generateInstanceTopology (NscaleSim.Topology_ (NscaleSim.client m apiError)) (Some size) fuel cis () =
    Some ((), Ok (concat ((λ _, Nscale.instanceOf <$> (NscaleSim.simServer <$> modelNodes)) <$> cis)))
}.

Lemma keyed_lists apiError size cis :
  countable → regional cis → 0 < size < 2 ^ 32 → ¬ (1 ≤ apiError ≤ 3) → listsModel apiError size cis.
Proof.
  intros Hc Hr Hs He. assert (∀ e : Z, 1 ≤ e ≤ 3 → apiError ≠ e) as Hne by lia.
  assert (∀ P : ComputeInstances → Prop, (∀ ci, P ci) → Forall P cis) as Hall by (intros P HP; by apply Forall_true).
  split.
  - intros Hn. unfold Gcp.generateInstanceTopology, GcpSim.clientFactory. simpl.
    rewrite decide_False by (apply Hne; done). rewrite Z.mod_small by lia.
    apply (simulated_listing (C := Gcp.gcp_cloud _) gcpInstanceOf cis size); [done|done|lia|by apply Hall|].
    intros ci _. apply gcp_offsets; [done|by apply Hne].
  - unfold Nebius.generateInstanceTopology, NebiusSim.clientFactory. simpl. rewrite decide_False by (apply Hne; done).
    apply (simulated_listing (C := Nebius.nebius_cloud _) (NebiusSim.simInstance apiError) cis size);
      [done|done|unfold Nebius.getPageSize; simpl; lia|by apply Hall|].
    intros ci _. apply nebius_offsets. by apply Hne.
  - unfold LambdaApi.generateInstanceTopology, LambdaSim.clientFactory. simpl. rewrite decide_False by (apply Hne; done).
    destruct (simulated_listing (C := LambdaApi.lambda_cloud (LambdaApi.MkApi size
      (LambdaSim.InstanceList (LambdaSim.MkSim m size (instanceIDs m) apiError)))) LambdaSim.simInstance cis size) as [fuel Hf];
      [done|done|lia|by apply Hall|intros ci _; apply lambda_offsets; by apply Hne|].
    by exists fuel.
  - apply (nscale_listing apiError size cis (proj1 Hc)) with (topo := NewClusterTopology); [by apply Hne|done|lia].
Qed.
End Listing.

(** C24: The simulated clouds list their model.  For a loaded model of fewer
    than 2^31 nodes, a positive page size below 2^32 and a request whose entries
    name regions, a simulated GCP, Nebius, Lambda or nscale provider without an
    injected error reads the whole model page by page and ends: for every entry
    of the request it collects what the provider makes of each node, once, in
    the order of the client.  GCP needs node names that are numbers. *)
Theorem simulated_clouds_list_model `{RangeOrder} Unmarshal data m apiError size cis :
  NewModelFromData Unmarshal data = Ok m → Z.of_nat (length (modelNodes m)) < 2 ^ 31 →
  regional cis → 0 < size < 2 ^ 32 → ¬ (1 ≤ apiError ≤ 3) → listsModel m apiError size cis.
Proof. intros Hm Hl. apply keyed_lists. split; [by eapply model_keyed|done]. Qed.

Lemma numeric_dec `{RangeOrder} m :
  forallb (λ node, match parse_uint (nodeID node) with PVal _ => true | _ => false end) (modelNodes m) = true → numeric m.
Proof.
  intros Hall. unfold numeric. rewrite forallb_forall in Hall. apply Forall_forall. intros node Hin%list_elem_of_In.
  specialize (Hall _ Hin). simpl in Hall. destruct (parse_uint _) as [| |z]; [done|done|by exists z].
Qed.

(** Three nodes, two to a page. *)
Definition w_raw : gmap string (option Switch) * list CapacityBlock :=
  ({[ "core" := Some (MkSwitch "" {[ LabelTopologyRegion := "west" ]} ∅ ["leaf1"; "leaf2"] []) ]},
   [MkBlock "leaf1" ["10[1-2]"] ∅ ∅; MkBlock "leaf2" ["103"] ∅ ∅]).
Definition w_unmarshal (_ : string) : result string (gmap string (option Switch) * list CapacityBlock) := Ok w_raw.
Definition w_model : Model :=
  match NewModelFromData w_unmarshal "" with Ok m => m | Err _ => MkModel ∅ ∅ [] [] end.
Definition w_cis : list ComputeInstances := [MkCI "west" {[ "101" := "n1" ]}].

Lemma simulated_clouds_list_model_witness : numeric w_model ∧ listsModel w_model 0 2 w_cis.
Proof.
  split.
  - apply numeric_dec. vm_compute. reflexivity.
  - apply (simulated_clouds_list_model w_unmarshal "").
    + vm_eq.
    + vm_compute. done.
    + by repeat constructor.
    + lia.
    + lia.
Defined.
End SimProps.
