(* ===== verification/Decode.v ===== *)
(** * Decoding of strings: [internal/config/decode.go]

    Configuration values that are strings are decoded into the type of the
    field they are for; integers keep their width. *)

From S2P Require Import Prelude GoStrings.
Open Scope Z_scope.

Module Decode.

(** ** [strconv] *)

(** The bit size 0 stands for the width of the platform, 64. *)
Definition IntSize : Z := 64.
Definition sizeOf (bitSize : Z) : Z := if bitSize =? 0 then IntSize else bitSize.

(** [ParseUint(s, 10, bitSize)]: reading stops where the value leaves the
    width. *)
Fixpoint uint_go (bits acc : Z) (s : string) : parsed :=
  match s with
  | "" => PVal acc
  | String c s =>
      if is_digit c then
        let acc := acc * 10 + digit_val c in
        if 2 ^ bits - 1 <? acc then PRange else uint_go bits acc s
      else PSyntax
  end.
Definition ParseUint (bitSize : Z) (s : string) : parsed := if decide (s = "") then PSyntax else uint_go (sizeOf bitSize) 0 s.

(** [ParseInt(s, 10, bitSize)]. *)
Definition signed (bitSize : Z) (neg : bool) (s : string) : parsed :=
  match ParseUint bitSize s with
  | PSyntax => PSyntax
  | PRange => PRange
  | PVal z =>
      let cutoff := 2 ^ (sizeOf bitSize - 1) in
      if neg then if cutoff <? z then PRange else PVal (- z)
      else if z <? cutoff then PVal z else PRange
  end.
Definition ParseInt (bitSize : Z) (s : string) : parsed :=
  match s with
  | String "-" s => signed bitSize true s
  | String "+" s => signed bitSize false s
  | _ => signed bitSize false s
  end.

(** The conversions to an integer type of a width wrap around. *)
Definition toUint (bits z : Z) : Z := z mod 2 ^ bits.
Definition toInt (bits z : Z) : Z := (z + 2 ^ (bits - 1)) mod 2 ^ bits - 2 ^ (bits - 1).

Definition ParseBool (s : string) : option bool :=
  if decide (s ∈ ["1"; "t"; "T"; "TRUE"; "true"; "True"]) then Some true
  else if decide (s ∈ ["0"; "f"; "F"; "FALSE"; "false"; "False"]) then Some false
  else None.

(** ** Types and values *)

Inductive Kind := Uint | Uint64 | Uint32 | Uint16 | Uint8 | Int | Int64 | Int32 | Int16 | Int8
  | Float32 | Float64 | Bool | StringKind | OtherKind.
#[global] Instance Kind_eq_dec : EqDecision Kind.
Proof. solve_decision. Defined.

(** [invalid %s %q] *)
Inductive decodeErr := Invalid (msg value : string) | InvalidCustom (name value msg : string).

Section Hook.
(** [D]: data that are not strings; [F], [T], [C]: floating-point numbers,
    times and values of types with a decoder of their own; [time.ParseDuration],
    [time.Parse] with the two layouts, [strconv.ParseFloat], [fmt.Sprintf] with
    [%v]. *)
Context {D F T C : Type}.
Context (ParseDuration : string → option Z) (ParseRFC3339Nano ParseRFC3339 : string → option T).
Context (ParseFloat : Z → string → option F).

Inductive any := AStr (s : string) | APtr (a : any) | AData (d : D).
Context (Sprint : any → string).

Inductive value :=
| VNil
| VInt (t : Kind) (z : Z)
| VFloat (f : F)
| VBool (b : bool)
| VDuration (ns : Z)
| VTime (t : T)
| VCustom (c : C)
| VAny (a : any).

(** The type of a field: its kind, whether it is a duration or a time, its
    zero value and its decoders. *)
Record target := MkTarget {
  t_Kind : Kind;
  isDuration : bool;
  isTime : bool;
  t_Name : string;
  zero : C;
  DecodeString : option (string → result string C);
  FromString : option (string → result string C)
}.

Definition invalidError {A} (msg v : string) (r : option A) : result decodeErr A :=
  match r with Some a => Ok a | None => Err (Invalid msg v) end.

(** A number alone counts milliseconds; a [time.Duration] is 64 bits of
    nanoseconds. *)
Definition DecodeDuration (s : string) : result decodeErr Z :=
  match Atoi s with
  | Ok val => Ok (wrap64 (val * 1000000))
  | Err _ => invalidError "duration" s (ParseDuration s)
  end.

Definition DecodeTime (s : string) : result decodeErr T :=
  match ParseRFC3339Nano s with
  | Some t => Ok t
  | None => invalidError "time" s (ParseRFC3339 s)
  end.

Definition parsedValue (p : parsed) : option Z := match p with PVal z => Some z | _ => None end.

(** [ParseUint] or [ParseInt] with the bit size of the case, the conversion to
    the type of the field, and the type's name for the error. *)
Definition decodeUint (t : Kind) (msg : string) (bitSize : Z) (conv : Z → Z) (s : string) : result decodeErr value :=
  val ← invalidError msg s (parsedValue (ParseUint bitSize s)); Ok (VInt t (conv val)).
Definition decodeInt (t : Kind) (msg : string) (bitSize : Z) (conv : Z → Z) (s : string) : result decodeErr value :=
  val ← invalidError msg s (parsedValue (ParseInt bitSize s)); Ok (VInt t (conv val)).

Definition decodeOther (t : Kind) (data : any) (s : string) : result decodeErr value :=
  match t with
  | Uint => decodeUint Uint "uint" 0 (toUint IntSize) s
  | Uint64 => decodeUint Uint64 "uint64" 64 id s
  | Uint32 => decodeUint Uint32 "uint32" 32 (toUint 32) s
  | Uint16 => decodeUint Uint16 "uint16" 16 (toUint 16) s
  | Uint8 => decodeUint Uint8 "uint8" 8 (toUint 8) s
  | Int => decodeInt Int "int" 0 (toInt IntSize) s
  | Int64 => decodeInt Int64 "int64" 64 id s
  | Int32 => decodeInt Int32 "int32" 32 (toInt 32) s
  | Int16 => decodeInt Int16 "int16" 16 (toInt 16) s
  | Int8 => decodeInt Int8 "int8" 8 (toInt 8) s
  | Float32 => f ← invalidError "float32" s (ParseFloat 32 s); Ok (VFloat f)
  | Float64 => f ← invalidError "float64" s (ParseFloat 64 s); Ok (VFloat f)
  | Bool => b ← invalidError "bool" s (ParseBool s); Ok (VBool b)
  | _ => Ok (VAny data)
  end.

(** [DecodeString] goes first; but where the type has both, the result is the
    value made for [FromString], which nothing has decoded. *)
Definition decoderOf (t : target) : option (string → result string C) :=
  match DecodeString t, FromString t with
  | Some d, Some _ => Some (λ s, _ ← d s; Ok (zero t))
  | Some d, None => Some d
  | None, from => from
  end.

(** A pointer is followed once. *)
Definition decodeHook (t : target) (data : any) : result decodeErr value :=
  let is_string := match data with AStr _ => true | _ => false end in
  if bool_decide (t_Kind t = StringKind) && negb is_string then Ok (VAny (AStr (Sprint data)))
  else match (match data with APtr a => a | _ => data end) with
       | AStr s =>
           match decoderOf t with
           | Some decoder =>
               if decide (s = "") then Ok VNil
               else match decoder s with Ok c => Ok (VCustom c) | Err msg => Err (InvalidCustom (t_Name t) s msg) end
           | None =>
               if isDuration t then d ← DecodeDuration s; Ok (VDuration d)
               else if isTime t then d ← DecodeTime s; Ok (VTime d)
               else decodeOther (t_Kind t) (AStr s) s
           end
       | a => Ok (VAny a)
       end.

(** [Decode]: [decode] is the decoder of the map with a hook (made for an
    output that is a pointer), [validate] the validator of structs. *)
Definition Decode {I O} (decode : (target → any → result decodeErr value) → I → result string O)
    (validate : O → result string ()) (input : I) : result string O :=
  output ← map_err (λ msg, "could not decode configuration: " +:+ msg) (decode decodeHook input);
  _ ← map_err (λ msg, "invalidation configuration: " +:+ msg) (validate output);
  Ok output.

(** ** Integer types *)

(** The integer types of Go, on a platform of 64 bits: whether a type is signed,
    and its width. *)
Definition width (t : Kind) : option (bool * Z) :=
  match t with
  | Uint | Uint64 => Some (false, 64)
  | Uint32 => Some (false, 32)
  | Uint16 => Some (false, 16)
  | Uint8 => Some (false, 8)
  | Int | Int64 => Some (true, 64)
  | Int32 => Some (true, 32)
  | Int16 => Some (true, 16)
  | Int8 => Some (true, 8)
  | _ => None
  end.

Definition kindName (t : Kind) : string :=
  match t with
  | Uint => "uint" | Uint64 => "uint64" | Uint32 => "uint32" | Uint16 => "uint16" | Uint8 => "uint8"
  | Int => "int" | Int64 => "int64" | Int32 => "int32" | Int16 => "int16" | Int8 => "int8"
  | Float32 => "float32" | Float64 => "float64" | Bool => "bool" | _ => ""
  end.

Definition lowest (sgn : bool) (bits : Z) : Z := if sgn then - 2 ^ (bits - 1) else 0.
Definition highest (sgn : bool) (bits : Z) : Z := if sgn then 2 ^ (bits - 1) - 1 else 2 ^ bits - 1.

(** The number that a decimal numeral stands for: digits, after a sign if the
    type is signed. *)
Definition digits (s : string) : option Z :=
  if decide (s ≠ "" ∧ str_forallb is_digit s = true) then Some (dec_val s) else None.
Definition numeral (sgn : bool) (s : string) : option Z :=
  if sgn then
    match s with
    | String "-" s => Z.opp <$> digits s
    | String "+" s => digits s
    | _ => digits s
    end
  else digits s.

(** *** Reading *)

Lemma uint_go_other bits s : ∀ acc, str_forallb is_digit s = false → parsedValue (uint_go bits acc s) = None.
Proof using Type.
  induction s as [|c s IH]; simpl; intros acc Hs; [done|]. destruct (is_digit c); [|done].
  destruct (2 ^ bits - 1 <? _); [done|by apply IH].
Qed.

Lemma uint_go_digits bits s : ∀ acc, 0 ≤ acc → str_forallb is_digit s = true →
  uint_go bits acc s = if (decide (s = "")) then PVal acc
                       else if 2 ^ bits - 1 <? dec_val_go acc s then PRange else PVal (dec_val_go acc s).
Proof using Type.
  induction s as [|c s IH]; simpl; intros acc Hacc Hs; [done|]. apply andb_true_iff in Hs as [Hc Hs]. rewrite Hc.
  pose proof (is_digit_val _ Hc). pose proof (dec_val_go_ge (acc * 10 + digit_val c) s ltac:(lia) Hs).
  destruct (Z.ltb_spec (2 ^ bits - 1) (acc * 10 + digit_val c)) as [Hlt|Hge].
  - destruct (Z.ltb_spec (2 ^ bits - 1) (dec_val_go (acc * 10 + digit_val c) s)); [done|lia].
  - rewrite IH by (done || lia). case_decide as E; [|done]. subst s. simpl in *.
    destruct (Z.ltb_spec (2 ^ bits - 1) (acc * 10 + digit_val c)); [lia|done].
Qed.

Lemma digits_nonneg s z : digits s = Some z → 0 ≤ z.
Proof using Type. unfold digits. case_decide as Hs; [|done]. intros [= <-]. apply (dec_val_go_ge 0 s); [lia|exact (proj2 Hs)]. Qed.

Lemma ParseUint_digits bitSize s :
  parsedValue (ParseUint bitSize s) =
    z ← digits s; if decide (z ≤ 2 ^ sizeOf bitSize - 1) then Some z else None.
Proof using Type.
  unfold ParseUint, digits. case_decide as Hs; [by rewrite decide_False by (by intros [])|].
  destruct (str_forallb is_digit s) eqn:Hd; [rewrite decide_True by done|rewrite decide_False by (by intros []); by apply uint_go_other].
  rewrite uint_go_digits, decide_False by done. simpl. fold (dec_val s).
  destruct (Z.ltb_spec (2 ^ sizeOf bitSize - 1) (dec_val s)); case_decide; (done || lia).
Qed.

Lemma signed_digits bitSize neg s : 0 < sizeOf bitSize →
  let bits := sizeOf bitSize in
  parsedValue (signed bitSize neg s) =
    z ← (if neg then Z.opp else id) <$> digits s;
    if decide (lowest true bits ≤ z ≤ highest true bits) then Some z else None.
Proof using Type.
  intros Hb bits. assert (2 ^ bits = 2 * 2 ^ (bits - 1)) as Hpow by (unfold bits; rewrite <-Z.pow_succ_r by lia; f_equal; lia).
  pose proof (Z.pow_pos_nonneg 2 (bits - 1)). pose proof (ParseUint_digits bitSize s) as Hu. unfold signed, lowest, highest. fold bits in Hu |- *.
  destruct (digits s) as [z|] eqn:Hz; simpl in *; [|by destruct (ParseUint bitSize s)]. apply digits_nonneg in Hz.
  destruct (decide (z ≤ 2 ^ bits - 1)).
  - destruct (ParseUint bitSize s) as [| |z']; [done..|]. injection Hu as ->.
    destruct neg; simpl; [destruct (Z.ltb_spec (2 ^ (bits - 1)) z)|destruct (Z.ltb_spec z (2 ^ (bits - 1)))];
      case_decide; (done || lia).
  - rewrite decide_False by (destruct neg; simpl; lia). by destruct (ParseUint bitSize s).
Qed.

Lemma ParseInt_numeral bitSize s : 0 < sizeOf bitSize →
  let bits := sizeOf bitSize in
  parsedValue (ParseInt bitSize s) =
    z ← numeral true s; if decide (lowest true bits ≤ z ≤ highest true bits) then Some z else None.
Proof using Type.
  intros Hb bits. unfold ParseInt, numeral.
  assert (∀ s, parsedValue (signed bitSize false s) = z ← digits s;
    if decide (lowest true bits ≤ z ≤ highest true bits) then Some z else None) as Hpos.
  { intros r. rewrite signed_digits by done. by rewrite option_fmap_id. }
  destruct s as [|c s]; [apply Hpos|]. destruct c as [[] [] [] [] [] [] [] []]; try apply Hpos. by apply signed_digits.
Qed.

(** *** Conversions within the range *)

Lemma toUint_id bits z : 0 ≤ z ≤ 2 ^ bits - 1 → toUint bits z = z.
Proof using Type. intros. apply Z.mod_small. lia. Qed.

Lemma toInt_id bits z : 0 < bits → lowest true bits ≤ z ≤ highest true bits → toInt bits z = z.
Proof using Type.
  unfold lowest, highest, toInt. intros Hb Hz.
  assert (2 ^ bits = 2 * 2 ^ (bits - 1)) as Hpow by (rewrite <-Z.pow_succ_r by lia; f_equal; lia).
  rewrite Z.mod_small; lia.
Qed.

(** What decoding into an integer type must do. *)
Definition decoded (sgn : bool) (bits : Z) (t : Kind) (msg s : string) : result decodeErr value :=
  match numeral sgn s with
  | Some z => if decide (lowest sgn bits ≤ z ≤ highest sgn bits) then Ok (VInt t z) else Err (Invalid msg s)
  | None => Err (Invalid msg s)
  end.

Lemma decodeUint_spec t msg bitSize conv s :
  (∀ z, 0 ≤ z ≤ 2 ^ sizeOf bitSize - 1 → conv z = z) →
  decodeUint t msg bitSize conv s = decoded false (sizeOf bitSize) t msg s.
Proof using Type.
  intros Hconv. unfold decodeUint, decoded, numeral, lowest, highest. rewrite ParseUint_digits.
  destruct (digits s) as [z|] eqn:Hz; simpl; [|done]. apply digits_nonneg in Hz.
  do 2 case_decide; try lia; simpl; [by rewrite Hconv by lia|done].
Qed.

Lemma decodeInt_spec t msg bitSize conv s : 0 < sizeOf bitSize →
  (∀ z, lowest true (sizeOf bitSize) ≤ z ≤ highest true (sizeOf bitSize) → conv z = z) →
  decodeInt t msg bitSize conv s = decoded true (sizeOf bitSize) t msg s.
Proof using Type.
  intros Hb Hconv. unfold decodeInt, decoded. rewrite ParseInt_numeral by done.
  destruct (numeral true s) as [z|]; simpl; [|done]. case_decide; simpl; [by rewrite Hconv by done|done].
Qed.

Lemma digits_itoa z : 0 ≤ z → digits (itoa z) = Some z.
Proof using Type.
  intros Hz. destruct (itoa_spec z Hz) as (Hne & Hd & Hv & _). unfold digits. rewrite decide_True by done. by rewrite Hv.
Qed.

Lemma itoa_neg z : z < 0 → itoa z = String "-" (itoa (- z)).
Proof using Type. intros Hz. unfold itoa. rewrite (proj2 (Z.ltb_lt z 0)) by lia. by rewrite (proj2 (Z.ltb_ge (- z) 0)) by lia. Qed.

Lemma numeral_itoa sgn z : numeral sgn (itoa z) = if decide (z < 0 ∧ sgn = false) then None else Some z.
Proof using Type.
  destruct (Z.lt_ge_cases z 0) as [Hneg|Hpos].
  - rewrite itoa_neg by done. destruct sgn; simpl; [|by rewrite decide_True by done].
    rewrite digits_itoa by lia. simpl. rewrite decide_False by (by intros []). f_equal. lia.
  - rewrite decide_False by lia. rewrite <-(digits_itoa z) by done. unfold numeral. destruct sgn; [|done].
    destruct (itoa_spec z Hpos) as (Hne & Hd & _). destruct (itoa z) as [|c r]; [done|].
    simpl in Hd. apply andb_true_iff in Hd as [Hd _]. destruct c as [[] [] [] [] [] [] [] []]; done.
Qed.

(** C40: Integers fit the field.  A string is decoded into a field of an integer
    type exactly when it is a decimal numeral, with a sign only if the type is
    signed, of a number that the type has; the field then gets that number, so
    that no conversion to the type wraps around, and otherwise the error names
    the type and the string.  In particular the decimal form of every number of
    the type decodes to that number and the decimal form of any other number is
    refused. *)
Theorem decoded_integers_fit t sgn bits data :
  width t = Some (sgn, bits) →
  (∀ s, decodeOther t data s =
     match numeral sgn s with
     | Some z => if decide (lowest sgn bits ≤ z ≤ highest sgn bits) then Ok (VInt t z) else Err (Invalid (kindName t) s)
     | None => Err (Invalid (kindName t) s)
     end) ∧
  (∀ z, decodeOther t data (itoa z) =
     if decide (lowest sgn bits ≤ z ≤ highest sgn bits) then Ok (VInt t z) else Err (Invalid (kindName t) (itoa z))).
Proof using Type.
  intros Hw.
  assert (∀ s, decodeOther t data s = decoded sgn bits t (kindName t) s) as Hall.
  { intros s. destruct t; simplify_eq/=;
      (apply decodeUint_spec || (apply decodeInt_spec; [reflexivity|])); intros z Hz;
      reflexivity || (by apply toUint_id) || by apply toInt_id. }
  split; [exact Hall|]. intros z. rewrite Hall. unfold decoded. rewrite numeral_itoa.
  case_decide as Hz; [|done]. destruct Hz as [Hz ->]. by rewrite decide_False by (simpl; lia).
Qed.
End Hook.

Lemma decoded_integers_fit_witness :
  let dec t s := decodeOther (D := ()) (F := ()) (T := ()) (C := ()) (λ _ _, None) t (AStr s) s in
  dec Uint8 "256" = Err (Invalid "uint8" "256") ∧ dec Int8 "-128" = Ok (VInt Int8 (-128)) ∧
  dec Uint16 "65535" = Ok (VInt Uint16 65535) ∧ dec Uint16 "65536" = Err (Invalid "uint16" "65536") ∧
  dec Int32 "2147483648" = Err (Invalid "int32" "2147483648") ∧ dec Int "+7" = Ok (VInt Int 7) ∧
  dec Uint "18446744073709551616" = Err (Invalid "uint" "18446744073709551616").
Proof.
  intros dec. split_and!.
  - exact (proj2 (decoded_integers_fit (λ _ _, None) Uint8 false 8 (AStr "256") eq_refl) 256).
  - exact (proj2 (decoded_integers_fit (λ _ _, None) Int8 true 8 (AStr "-128") eq_refl) (-128)).
  - exact (proj2 (decoded_integers_fit (λ _ _, None) Uint16 false 16 (AStr "65535") eq_refl) 65535).
  - exact (proj2 (decoded_integers_fit (λ _ _, None) Uint16 false 16 (AStr "65536") eq_refl) 65536).
  - exact (proj2 (decoded_integers_fit (λ _ _, None) Int32 true 32 (AStr "2147483648") eq_refl) 2147483648).
  - exact (proj1 (decoded_integers_fit (λ _ _, None) Int true 64 (AStr "+7") eq_refl) "+7").
  - exact (proj2 (decoded_integers_fit (λ _ _, None) Uint false 64 (AStr "18446744073709551616") eq_refl) 18446744073709551616).
Defined.

(** Milliseconds that leave the 64 bits of a duration wrap around. *)
Example duration_wraps : DecodeDuration (λ _, None) "9223372036855" = Ok (- 9223372036854551616).
Proof. by vm_compute. Qed.
End Decode.
