(* ===== verification/Config.v ===== *)
(** * Configuration of the server: [pkg/config/config.go]

    Validation of a configuration, its files, and the environment it sets. *)

From S2P Require Import Prelude GoStrings K8sEngine.
Open Scope Z_scope.

Module Config.

(** ** Data *)

Record Endpoint := MkEndpoint { Port : Z; e_SSL : bool }.
Record SSL := MkSSL { Cert : string; Key : string; CaCert : string }.

(** [M]: decoded parameters and credentials, [map[string]any]. *)
Record Config {M : Type} := MkConfig {
  NodeMetadata : option K8sEngine.NodeMetadata;
  HTTP : Endpoint;
  RequestAggregationDelay : Z;
  c_Provider : string;
  ProviderParams : option M;
  c_Engine : string;
  EngineParams : option M;
  PageSize : option Z;
  c_SSL : option SSL;
  CredsPath : option string;
  Env : gmap string string;
  Credentials : option M
}.
Arguments Config : clear implicits.
#[global] Arguments MkConfig {M}.

(** [registry.Providers], [registry.Engines]: the names of the loaders. *)
Definition Providers : list string :=
  ["aws"; "aws-sim"; "crusoe"; "crusoe-sim"; "infiniband-bm"; "infiniband-k8s"; "infiniband-sim"; "dra"; "k8s-node-labels";
   "firebird"; "firebird-sim"; "gcp"; "gcp-sim"; "oci"; "oci-imds"; "oci-sim"; "nebius"; "nebius-sim"; "netq"; "nautobot";
   "lambdai"; "lambdai-sim"; "dsx-sim"; "nscale"; "nscale-sim"; "test"].
Definition Engines : list string := ["k8s"; "nfd"; "graph"; "slurm"; "slinky"].

Inductive configErr :=
| ReadErr (fname msg : string)
| ParseErr (fname msg : string)
| MetadataErr (e : K8sEngine.metaErr)
| PortNotSet
| UnsupportedProvider (name : string)
| UnsupportedEngine (name : string)
| DelayNotSet
| MissingSSL
| MissingFilename (description : string)
| BadFile (name msg : string)
| CredsErr (msg : string).

(** ** Validation *)

Section Files.
Context {M : Type}.
(** [os.Stat], the error it returns; [os.ReadFile]; [yaml.Unmarshal], of
    credentials into those that are there; the names Kubernetes takes for
    keys. *)
Context (Stat : string → option string) (ReadFile : string → result string string).
Context (unmarshalConfig : string → result string (Config M)) (unmarshalCreds : string → option M → result string (option M)).
Context (IsQualifiedName : string → list string).

(** [files.Validate] *)
Definition Validate (name description : string) : result configErr () :=
  if decide (name = "") then Err (MissingFilename description)
  else match Stat name with Some msg => Err (BadFile name msg) | None => Ok () end.

Definition readCredentials (cfg : Config M) : result configErr (Config M) :=
  match CredsPath cfg with
  | None => Ok cfg
  | Some path =>
      _ ← Validate path "API credentials";
      data ← map_err CredsErr (ReadFile path);
      creds ← map_err CredsErr (unmarshalCreds data (Credentials cfg));
      Ok (MkConfig (NodeMetadata cfg) (HTTP cfg) (RequestAggregationDelay cfg) (c_Provider cfg) (ProviderParams cfg)
    (c_Engine cfg) (EngineParams cfg) (PageSize cfg) (c_SSL cfg) (CredsPath cfg) (Env cfg) creds)
  end.

(** A page size that is not positive gives the default of the provider. *)
Definition pageSizeOf (pageSize : option Z) : option Z :=
  match pageSize with Some n => if n <=? 0 then None else Some n | None => None end.
Definition withPageSize (cfg : Config M) : Config M :=
  MkConfig (NodeMetadata cfg) (HTTP cfg) (RequestAggregationDelay cfg) (c_Provider cfg) (ProviderParams cfg)
    (c_Engine cfg) (EngineParams cfg) (pageSizeOf (PageSize cfg)) (c_SSL cfg) (CredsPath cfg) (Env cfg) (Credentials cfg).

Definition validateSSL (cfg : Config M) : result configErr () :=
  if e_SSL (HTTP cfg) then
    match c_SSL cfg with
    | None => Err MissingSSL
    | Some ssl =>
        _ ← Validate (Cert ssl) "server certificate";
        _ ← Validate (Key ssl) "server key";
        Validate (CaCert ssl) "CA certificate"
    end
  else Ok ().

Definition validate (cfg : Config M) : result configErr (Config M) :=
  _ ← map_err MetadataErr (K8sEngine.NodeMetadata_Validate IsQualifiedName (NodeMetadata cfg));
  let cfg := withPageSize cfg in
  if decide (Port (HTTP cfg) = 0) then Err PortNotSet
  else if decide (c_Provider cfg ≠ "" ∧ c_Provider cfg ∉ Providers) then Err (UnsupportedProvider (c_Provider cfg))
  else if decide (c_Engine cfg ≠ "" ∧ c_Engine cfg ∉ Engines) then Err (UnsupportedEngine (c_Engine cfg))
  else if decide (RequestAggregationDelay cfg = 0) then Err DelayNotSet
  else
    _ ← validateSSL cfg;
    readCredentials cfg.

Definition NewFromFile (fname : string) : result configErr (Config M) :=
  data ← map_err (ReadErr fname) (ReadFile fname);
  cfg ← map_err (ParseErr fname) (unmarshalConfig data);
  validate cfg.
End Files.

(** ** Environment *)

(** [os.Setenv] refuses an empty key, a key with an equals sign or a null
    character, and a value with a null character. *)
Definition setenvErr (key val : string) : bool :=
  bool_decide (key = "") || contains_chr "=" key || contains_chr "000" key || contains_chr "000" val.

Inductive envErr := SetFailed (env : string).

Definition setVar (environ : gmap string string) (kv : string * string) : result envErr (gmap string string) :=
  let val := if decide (kv.1 = "PATH") then default "" (environ !! "PATH") +:+ ":" +:+ kv.2 else kv.2 in
  if setenvErr kv.1 val then Err (SetFailed kv.1) else Ok (<[kv.1 := val]> environ).

Definition UpdateEnv `{RangeOrder} {M} (cfg : Config M) (environ : gmap string string) : result envErr (gmap string string) :=
  foldM setVar environ (range (Env cfg)).

(** ** Theorems *)

Section Spec.
Context {M : Type} (Stat : string → option string) (ReadFile : string → result string string).
Context (unmarshalConfig : string → result string (Config M)) (unmarshalCreds : string → option M → result string (option M)).
Context (IsQualifiedName : string → list string).

(** What the server relies on. *)
Record wellformed (cfg : Config M) : Prop := {
  wf_port : Port (HTTP cfg) ≠ 0;
  wf_delay : RequestAggregationDelay cfg ≠ 0;
  wf_provider : c_Provider cfg = "" ∨ c_Provider cfg ∈ Providers;
  wf_engine : c_Engine cfg = "" ∨ c_Engine cfg ∈ Engines;
  wf_pageSize : match PageSize cfg with Some n => 0 < n | None => True end;
  wf_metadata : match NodeMetadata cfg with
                | None => True
                | Some m => ∃ i r, K8sEngine.m_InstanceID m = Some i ∧ K8sEngine.m_Region m = Some r ∧
                    ∀ s, s = i ∨ s = r → (K8sEngine.s_Type s = "label" ∨ K8sEngine.s_Type s = "annotation") ∧
                      IsQualifiedName (K8sEngine.s_Key s) = []
                end;
  wf_ssl : e_SSL (HTTP cfg) = true → ∃ ssl, c_SSL cfg = Some ssl ∧
             ∀ f, f ∈ [Cert ssl; Key ssl; CaCert ssl] → f ≠ "" ∧ Stat f = None
}.

(** The credentials [creds] that come of the parsed configuration: those it has,
    or, with a path, those into which the file was read. *)
Definition credentialsOf (raw : Config M) (creds : option M) : Prop :=
  match CredsPath raw with
  | None => creds = Credentials raw
  | Some path => path ≠ "" ∧ Stat path = None ∧
      ∃ data, ReadFile path = Ok data ∧ unmarshalCreds data (Credentials raw) = Ok creds
  end.

Lemma Validate_Ok name description : Validate Stat name description = Ok () ↔ name ≠ "" ∧ Stat name = None.
Proof. unfold Validate. case_decide; [naive_solver|]. destruct (Stat name); naive_solver. Qed.

Lemma validateSource_Ok field source : K8sEngine.validateSource IsQualifiedName field source = Ok () ↔
  ∃ s, source = Some s ∧ (K8sEngine.s_Type s = "label" ∨ K8sEngine.s_Type s = "annotation") ∧
    IsQualifiedName (K8sEngine.s_Key s) = [].
Proof.
  unfold K8sEngine.validateSource. destruct source as [s|]; [|naive_solver].
  case_decide as Ht; [naive_solver|]. case_decide as Hk; [|naive_solver].
  split; [|done]. intros _. exists s. split_and!; [done| |done].
  destruct (decide (K8sEngine.s_Type s = "label")); [by left|]. right.
  destruct (decide (K8sEngine.s_Type s = "annotation")); [done|]. by destruct Ht.
Qed.

Lemma validateSSL_Ok (cfg : Config M) : validateSSL Stat cfg = Ok () ↔
  (e_SSL (HTTP cfg) = true → ∃ ssl, c_SSL cfg = Some ssl ∧
     ∀ f, f ∈ [Cert ssl; Key ssl; CaCert ssl] → f ≠ "" ∧ Stat f = None).
Proof.
  unfold validateSSL. destruct (e_SSL (HTTP cfg)); [|naive_solver]. destruct (c_SSL cfg) as [ssl|]; [|naive_solver]. split.
  - intros ([] & H1%Validate_Ok & ([] & H2%Validate_Ok & H3%Validate_Ok)%bind_Ok)%bind_Ok _.
    exists ssl. split; [done|]. intros f Hf. set_solver.
  - intros (? & [= <-] & Hf); [done|]. rewrite (proj2 (Validate_Ok (Cert ssl) _)) by (apply Hf; set_solver).
    simpl. rewrite (proj2 (Validate_Ok (Key ssl) _)) by (apply Hf; set_solver). apply Validate_Ok, Hf. set_solver.
Qed.

Lemma metadata_Ok meta : map_err MetadataErr (K8sEngine.NodeMetadata_Validate IsQualifiedName meta) = Ok () ↔
  match meta with
  | None => True
  | Some m => ∃ i r, K8sEngine.m_InstanceID m = Some i ∧ K8sEngine.m_Region m = Some r ∧
      ∀ s, s = i ∨ s = r → (K8sEngine.s_Type s = "label" ∨ K8sEngine.s_Type s = "annotation") ∧
        IsQualifiedName (K8sEngine.s_Key s) = []
  end.
Proof.
  trans (K8sEngine.NodeMetadata_Validate IsQualifiedName meta = Ok ()).
  { by destruct (K8sEngine.NodeMetadata_Validate IsQualifiedName meta) as [[]|]. }
  unfold K8sEngine.NodeMetadata_Validate. destruct meta as [m|]; [|done]. split.
  - intros ([] & (i & Hi & Hi')%validateSource_Ok & (r & Hr & Hr')%validateSource_Ok)%bind_Ok.
    exists i, r. split_and!; [done|done|]. by intros s [-> | ->].
  - intros (i & r & Hi & Hr & Hs). rewrite (proj2 (validateSource_Ok "instanceID" _)) by (exists i; auto). simpl.
    apply validateSource_Ok. exists r. auto.
Qed.

(** The fields that validation does not change. *)
Definition same (cfg cfg' : Config M) : Prop :=
  NodeMetadata cfg' = NodeMetadata cfg ∧ HTTP cfg' = HTTP cfg ∧ RequestAggregationDelay cfg' = RequestAggregationDelay cfg ∧
  c_Provider cfg' = c_Provider cfg ∧ ProviderParams cfg' = ProviderParams cfg ∧ c_Engine cfg' = c_Engine cfg ∧
  EngineParams cfg' = EngineParams cfg ∧ PageSize cfg' = pageSizeOf (PageSize cfg) ∧
  c_SSL cfg' = c_SSL cfg ∧ CredsPath cfg' = CredsPath cfg ∧ Env cfg' = Env cfg.

(** The configuration with other credentials. *)
Definition withCredentials (cfg : Config M) (creds : option M) : Config M :=
  MkConfig (NodeMetadata cfg) (HTTP cfg) (RequestAggregationDelay cfg) (c_Provider cfg) (ProviderParams cfg)
    (c_Engine cfg) (EngineParams cfg) (PageSize cfg) (c_SSL cfg) (CredsPath cfg) (Env cfg) creds.

Lemma readCredentials_Ok cfg cfg' : readCredentials Stat ReadFile unmarshalCreds cfg = Ok cfg' ↔
  ∃ creds, credentialsOf cfg creds ∧ cfg' = withCredentials cfg creds.
Proof.
  unfold readCredentials, credentialsOf. destruct (CredsPath cfg) as [path|] eqn:Hp; split.
  - intros ([] & [Hne Hst]%Validate_Ok & Hrun)%bind_Ok. destruct (ReadFile path) as [data|] eqn:Hd; [|done]. simpl in Hrun.
    destruct (unmarshalCreds data (Credentials cfg)) as [creds|] eqn:Hc; [|done]. simpl in Hrun. injection Hrun as <-.
    exists creds. split; [|unfold withCredentials; by rewrite Hp]. split_and!; [done|done|]. by exists data.
  - intros (creds & (Hne & Hst & data & Hd & Hc) & ->). rewrite (proj2 (Validate_Ok _ _)) by done. simpl.
    rewrite Hd. simpl. rewrite Hc. simpl. unfold withCredentials. by rewrite Hp.
  - intros [= <-]. exists (Credentials cfg). split; [done|]. by destruct cfg.
  - intros (creds & -> & ->). by destruct cfg.
Qed.

(** C37: A loaded configuration can be relied on.  A configuration file is
    accepted exactly when it can be read and parsed, the port and the aggregation
    delay are set, provider and engine are empty or known to the registry, the
    metadata sources are complete, the files of a server with TLS exist, and the
    credentials, where a path to them is given, are in a file that exists and is
    read.  What is used is what was parsed but for two fields: the page size, none
    when it is not positive, and the credentials.  Without a path these are the
    credentials of the configuration file itself, if any; with one they are what
    the file makes of those. *)
Theorem config_wellformed fname cfg :
  NewFromFile Stat ReadFile unmarshalConfig unmarshalCreds IsQualifiedName fname = Ok cfg ↔
  wellformed cfg ∧ ∃ data raw, ReadFile fname = Ok data ∧ unmarshalConfig data = Ok raw ∧ same raw cfg ∧
    credentialsOf raw (Credentials cfg).
Proof.
  unfold NewFromFile. split.
  - destruct (ReadFile fname) as [data|] eqn:Hd; [|done]. simpl.
    destruct (unmarshalConfig data) as [raw|] eqn:Hr; [|done]. simpl. unfold validate.
    intros ([] & Hmeta%metadata_Ok & Hrun)%bind_Ok. cbn [HTTP withPageSize c_Provider c_Engine RequestAggregationDelay] in Hrun.
    case_decide as Hport; [done|]. case_decide as Hprov; [done|]. case_decide as Heng; [done|]. case_decide as Hdelay; [done|].
    apply bind_Ok in Hrun as ([] & Hssl & (creds & Hcreds & ->)%readCredentials_Ok).
    rewrite validateSSL_Ok in Hssl.
    split; [|exists data, raw; by unfold same].
    split; [done|done| | | |exact Hmeta|exact Hssl]; cbn [c_Provider c_Engine PageSize withCredentials withPageSize].
    + destruct (decide (c_Provider raw = "")); [by left|]. right.
      destruct (decide (c_Provider raw ∈ Providers)); [done|]. by destruct Hprov.
    + destruct (decide (c_Engine raw = "")); [by left|]. right.
      destruct (decide (c_Engine raw ∈ Engines)); [done|]. by destruct Heng.
    + unfold pageSizeOf. destruct (PageSize raw) as [n|]; [|done]. by destruct (Z.leb_spec n 0).
  - intros (Hwf & data & raw & -> & Hr & (Em & Eh & Ed & Ep & Epp & Ee & Eep & Es & El & Ec & Ev) & Hcreds).
    simpl. rewrite Hr. simpl. destruct Hwf as [H1 H2 H3 H4 _ H6 H7]. unfold validate.
    rewrite Eh, Ed, Ep, Ee, Em, ?El in *.
    rewrite (proj2 (metadata_Ok _)) by done. simpl mbind.
    cbn [HTTP withPageSize c_Provider c_Engine RequestAggregationDelay].
    rewrite !decide_False by (done || tauto). rewrite (proj2 (validateSSL_Ok _)) by done. simpl.
    apply readCredentials_Ok. exists (Credentials cfg). split; [exact Hcreds|].
    unfold withCredentials, withPageSize. destruct cfg. simpl in *. congruence.
Qed.

(** The environment after a successful update: every variable of the
    configuration has its value, [PATH] is extended, the others are kept. *)
Theorem update_env_spec `{RangeOrder} (cfg : Config M) environ :
  match UpdateEnv cfg environ with
  | Ok environ' => ∀ k, environ' !! k =
      match Env cfg !! k with
      | Some v => Some (if decide (k = "PATH") then default "" (environ !! "PATH") +:+ ":" +:+ v else v)
      | None => environ !! k
      end
  | Err (SetFailed k) => ∃ v, Env cfg !! k = Some v ∧
      setenvErr k (if decide (k = "PATH") then default "" (environ !! "PATH") +:+ ":" +:+ v else v) = true
  end.
Proof.
  unfold UpdateEnv. set (value k v := if decide (k = "PATH") then default "" (environ !! "PATH") +:+ ":" +:+ v else v).
  assert (∀ l seen cur, range (Env cfg) = seen ++ l →
    (∀ k, cur !! k = match Env cfg !! k with Some v => if decide (k ∈ seen.*1) then Some (value k v) else environ !! k | None => environ !! k end) →
    match foldM setVar cur l with
    | Ok environ' => ∀ k, environ' !! k = match Env cfg !! k with Some v => Some (value k v) | None => environ !! k end
    | Err (SetFailed k) => ∃ v, Env cfg !! k = Some v ∧ setenvErr k (value k v) = true
    end) as Hgen.
  2: { apply (Hgen _ [] environ eq_refl). intros k. simpl. by destruct (Env cfg !! k). }
  pose proof (range_NoDup (Env cfg)) as Hnd.
  induction l as [|[k v] l IH]; intros seen cur Heq Hcur; simpl.
  - intros k. rewrite Hcur. destruct (Env cfg !! k) as [v|] eqn:Hk; [|done]. rewrite decide_True; [done|].
    apply elem_of_range in Hk. rewrite Heq, app_nil_r in Hk. apply list_elem_of_fmap. by exists (k, v).
  - assert (Env cfg !! k = Some v) as Hk by (apply elem_of_range; rewrite Heq; set_solver).
    assert (k ∉ seen.*1) as Hns.
    { rewrite Heq, fmap_app in Hnd. apply NoDup_app in Hnd as (_ & Hdis & _). intros Hin. apply (Hdis k Hin). simpl. set_solver. }
    assert (setVar cur (k, v) = if setenvErr k (value k v) then Err (SetFailed k) else Ok (<[k := value k v]> cur)) as ->.
    { unfold setVar. cbn [fst snd]. assert ((if decide (k = "PATH") then default "" (cur !! "PATH") +:+ ":" +:+ v else v) = value k v)
        as ->; [|done].
      unfold value. case_decide as HP; [|done]. subst k. by rewrite Hcur, Hk, decide_False. }
    destruct (setenvErr k (value k v)) eqn:Hs; [by exists v|].
    apply (IH (seen ++ [(k, v)])); [by rewrite <-app_assoc|]. intros k'. destruct (decide (k' = k)) as [->|Hne].
    + rewrite lookup_insert_eq, Hk, decide_True; [done|]. rewrite fmap_app. set_solver.
    + rewrite lookup_insert_ne, Hcur by done. destruct (Env cfg !! k'); [|done].
      assert (k' ∈ (seen ++ [(k, v)]).*1 ↔ k' ∈ seen.*1) as Hiff by (rewrite fmap_app; set_solver).
      do 2 case_decide; naive_solver.
Qed.
End Spec.

(** ** Example *)

(** The configuration has credentials of its own, and a file with more. *)
Definition w_config : Config (gmap string string) :=
  MkConfig None (MkEndpoint 49021 false) 15000000000 "aws-sim" None "slurm" None (Some 0) None (Some "creds.yaml") ∅
    (Some {[ "user" := "me" ]}).
Definition w_merge (data : string) (old : option (gmap string string)) : result string (option (gmap string string)) :=
  Ok (Some (<["token" := data]> (default ∅ old))).

Lemma config_wellformed_witness :
  let cfg := withCredentials (withPageSize w_config) (Some {[ "token" := "creds.yaml"; "user" := "me" ]}) in
  NewFromFile (λ _, None) (λ f, Ok f) (λ _, Ok w_config) w_merge (λ _, []) "config.yaml" = Ok cfg ∧
    PageSize cfg = None ∧ c_Provider cfg ∈ Providers ∧
    credentialsOf (λ _, None) (λ f, Ok f) w_merge w_config (Credentials cfg).
Proof.
  intros cfg.
  assert (NewFromFile (λ _, None) (λ f, Ok f) (λ _, Ok w_config) w_merge (λ _, []) "config.yaml" = Ok cfg) as Hrun by vm_eq.
  destruct (proj1 (config_wellformed _ _ _ _ _ _ _) Hrun) as ([_ _ Hp _ _ _ _] & data & raw & _ & [= <-] & _ & Hcreds).
  split; [exact Hrun|]. split; [reflexivity|]. split; [|exact Hcreds]. by destruct Hp.
Defined.
End Config.
