(* ===== verification/Kwok.v ===== *)
(** * Simulated Kubernetes nodes: [internal/kwok/nodes.go]

    Every node of a model becomes a fake Kubernetes node, with a name that
    Kubernetes takes, the labels and annotations of the model, and the given
    capacity. *)

From S2P Require Import Prelude GoStrings GoSha Topology Request Models NfdObjects K8sEngine.
Open Scope Z_scope.

Module Kwok.
Import Topo Models.

Definition NodeSelectorKey : string := "kwok.x-k8s.io/node".
Definition NodeSelectorValue : string := "fake".
Definition defaultCPU : string := "96".
Definition defaultMemory : string := "1024Gi".
Definition defaultPods : string := "110".
Definition defaultEphemeralStorage : string := "10Gi".
Definition defaultGPUResourceName : string := "nvidia.com/gpu".

(** ** Capacity *)

Record Capacity := MkCapacity {
  CPU : string;
  Memory : string;
  Pods : string;
  EphemeralStorage : string;
  GPUs : Z;
  GPUResourceName : string
}.

Definition DefaultCapacity : Capacity :=
  MkCapacity defaultCPU defaultMemory defaultPods defaultEphemeralStorage 0 defaultGPUResourceName.

Definition withDefaults (c : Capacity) : Capacity :=
  let or_default (s d : string) := if decide (s = "") then d else s in
  MkCapacity (or_default (CPU c) defaultCPU) (or_default (Memory c) defaultMemory) (or_default (Pods c) defaultPods)
    (or_default (EphemeralStorage c) defaultEphemeralStorage) (GPUs c)
    (or_default (GPUResourceName c) defaultGPUResourceName).

(** ** Names *)

Definition is_cut (c : ascii) : bool := bool_decide (c = "-"%char ∨ c = "."%char).
(** [strings.TrimLeft], [strings.TrimRight], [strings.Trim] with the cut set
    of dash and dot. *)
Fixpoint TrimLeft (s : string) : string :=
  match s with "" => "" | String c r => if is_cut c then TrimLeft r else s end.
Fixpoint TrimRight (s : string) : string :=
  match s with
  | "" => ""
  | String c r => match TrimRight r with
                  | "" => if is_cut c then "" else String c ""
                  | r' => String c r'
                  end
  end.
Definition Trim (s : string) : string := TrimRight (TrimLeft s).

Definition name_chr (c : ascii) : bool := is_lower_alnum c || is_cut c.
Definition continuation (c : ascii) : bool := (128 <=? chr_code c) && (chr_code c <? 192).

(** The two runes outside ASCII whose lower case is an ASCII letter: the Kelvin
    sign and the capital I with a dot. *)
Fixpoint lowerRunes (s : string) : string :=
  match s with
  | "" => ""
  | String "226" (String "132" (String "170" r)) => String "k" (lowerRunes r)
  | String "196" (String "176" r) => String "i" (lowerRunes r)
  | String c r => String c (lowerRunes r)
  end.

(** The loop over the runes of a valid UTF-8 string: of a rune outside ASCII the
    first byte is written as a dash and the others are passed over. *)
Fixpoint nameLoop (s : string) : string :=
  match s with
  | "" => ""
  | String c r => if name_chr c then String c (nameLoop r)
                  else if continuation c then nameLoop r
                  else String "-" (nameLoop r)
  end.

Definition len (s : string) : Z := Z.of_nat (String.length s).

Definition kubernetesNodeName (name : string) : string :=
  let normalized := Trim (nameLoop (to_lower (lowerRunes name))) in
  let normalized := if decide (normalized = "") then "node" else normalized in
  if len normalized <=? 253 then normalized
  else
    let suffix := "-" +:+ Requests.hex (Requests.fnv64a Requests.fnv_offset normalized) in
    TrimRight (NfdObjects.str_take (Z.to_nat (253 - len suffix)) normalized) +:+ suffix.

Example kubernetesNodeName_ex :
  (kubernetesNodeName "n-I21", kubernetesNodeName ".Node_Name.", kubernetesNodeName "___",
   kubernetesNodeName (String "226" (String "132" (String "170" "1"))), kubernetesNodeName (String "195" (String "137" "1é1"))) =
  ("n-i21", "node-name", "node", "k1", "1-1").
Proof. by vm_compute. Qed.

(** ** Nodes *)

Section Nodes.
(** [resource.Quantity]; [ParseQuantity]; [count]: [MustParse] of the decimal
    form of a number; [Quantity.String]. *)
Context {Quantity : Type} (ParseQuantity : string → result string Quantity).
Context (count : Z → Quantity) (quantityString : Quantity → string).

Record K8sNode := MkK8sNode {
  kn_Name : string;
  kn_Labels : gmap string string;
  kn_Annotations : gmap string string;
  ProviderID : string;
  kn_Capacity : gmap string Quantity;
  Allocatable : gmap string Quantity
}.

Inductive kwokErr :=
| InvalidQuantity (name value msg : string)
| DuplicateNodeName (seenHostName hostName nodeName : string).

Definition setResource (resources : gmap string Quantity) (name value : string) : result kwokErr (gmap string Quantity) :=
  quantity ← map_err (InvalidQuantity name value) (ParseQuantity value);
  Ok (<[name := quantity]> resources).

Definition ResourceList (c : Capacity) : result kwokErr (gmap string Quantity) :=
  let c := withDefaults c in
  resources ← setResource ∅ "cpu" (CPU c);
  resources ← setResource resources "memory" (Memory c);
  resources ← setResource resources "pods" (Pods c);
  resources ← setResource resources "ephemeral-storage" (EphemeralStorage c);
  Ok (if 0 <? GPUs c then <[GPUResourceName c := count (GPUs c)]> resources else resources).

Definition nodeOf (resources : gmap string Quantity) (hostName : string) (instance : Node) : K8sNode :=
  let nodeName := kubernetesNodeName hostName in
  let instanceLabels := default ∅ (Labels (n_Instance instance)) in
  MkK8sNode nodeName
    (<[NodeSelectorKey := NodeSelectorValue]> instanceLabels)
    (<[K8sEngine.KeyNodeRegion := default "" (instanceLabels !! LabelTopologyRegion)]>
      (<[K8sEngine.KeyNodeInstance := InstanceID hostName]>
        (<[NodeSelectorKey := NodeSelectorValue]> (n_Annotations instance))))
    ("kwok://" +:+ nodeName) resources resources.

Definition addNode (model : Model) (resources : gmap string Quantity) (acc : list K8sNode * gmap string string)
    (hostName : string) : result kwokErr (list K8sNode * gmap string string) :=
  match m_Nodes model !! hostName with
  | None => Ok acc
  | Some instance =>
      let '(nodes, seenNodeNames) := acc in
      let nodeName := kubernetesNodeName hostName in
      match seenNodeNames !! nodeName with
      | Some seenHostName => Err (DuplicateNodeName seenHostName hostName nodeName)
      | None => Ok (nodes ++ [nodeOf resources hostName instance], <[nodeName := hostName]> seenNodeNames)
      end
  end.

Definition NodesFromModel (model : Model) (capacity : Capacity) : result kwokErr (list K8sNode) :=
  resources ← ResourceList capacity;
  acc ← foldM (addNode model resources) ([], ∅) (sorted_keys (m_Nodes model));
  Ok acc.1.

(** ** The manifest *)

Record nodeManifestItem := MkItem {
  i_APIVersion : string;
  i_Kind : string;
  Metadata : string * gmap string string * gmap string string;
  Spec : string;
  Status : gmap string string * gmap string string
}.
Record nodeManifest := MkManifest { APIVersion : string; Kind : string; Items : list nodeManifestItem }.

Definition resourceStrings (resources : gmap string Quantity) : gmap string string := quantityString <$> resources.

Definition itemOf (node : K8sNode) : nodeManifestItem :=
  MkItem "v1" "Node" (kn_Name node, kn_Labels node, kn_Annotations node) (ProviderID node)
    (resourceStrings (kn_Capacity node), resourceStrings (Allocatable node)).

(** [marshal]: [yaml.Marshal]. *)
Definition MarshalNodeManifest {R} (marshal : nodeManifest → R) (nodes : list K8sNode) : R :=
  marshal (MkManifest "v1" "List" (itemOf <$> nodes)).

(** ** The command: [cmd/kwok-nodes/main.go] *)

Record options := MkOptions { modelFile : string; outputFile : string; capacity : Capacity }.
Inductive output := Stdout | File (path : string).
Inductive mainErr :=
| MissingModel
| ModelErr (msg : string)
| NodesErr (e : kwokErr)
| MarshalErr (msg : string)
| WriteErr (msg : string).

Definition outputOf (opts : options) : output :=
  if decide (outputFile opts = "" ∨ outputFile opts = "-") then Stdout else File (outputFile opts).

(** [load]: [models.NewModelFromFile]. *)
Definition mainInternal {W} (load : string → result string Model) (marshal : nodeManifest → result string string)
    (write : output → string → W → W * option string) (opts : options) (w : W) : W * result mainErr () :=
  match (if decide (modelFile opts = "") then Err MissingModel
         else
           model ← map_err ModelErr (load (modelFile opts));
           nodes ← map_err NodesErr (NodesFromModel model (capacity opts));
           map_err MarshalErr (MarshalNodeManifest marshal nodes)) with
  | Err e => (w, Err e)
  | Ok data => let '(w, r) := write (outputOf opts) data w in (w, match r with Some msg => Err (WriteErr msg) | None => Ok () end)
  end.
End Nodes.

(** ** Names that Kubernetes takes *)

(** What the name of a node has to be: a DNS-1123 subdomain, labels of lower-case
    letters, digits and inner dashes, separated by dots, at most 253 characters
    in all. *)
Definition dns_subdomain (s : string) : Prop := Forall NfdObjects.dns_label (split "." s) ∧ len s ≤ 253.

(** What every name made here is: at most 253 lower-case letters, digits, dashes
    and dots, with a letter or a digit at both ends. *)
Definition name_shape (s : string) : Prop :=
  str_forallb name_chr s = true ∧ (∃ c r, s = String c r ∧ is_lower_alnum c = true) ∧
  NfdObjects.last_ok s = true ∧ len s ≤ 253.

(** No dot is next to a dash or to another dot. *)
Fixpoint dots_apart (s : string) : bool :=
  match s with
  | String a (String b _ as r) =>
      negb (is_cut a && is_cut b && bool_decide (a = "."%char ∨ b = "."%char)) && dots_apart r
  | _ => true
  end.

Lemma nameLoop_chars s : str_forallb name_chr (nameLoop s) = true.
Proof.
  induction s as [|c s IH]; simpl; [done|]. destruct (name_chr c) eqn:Hc; simpl; [by rewrite Hc|].
  destruct (continuation c); simpl; [done|]. exact IH.
Qed.

Lemma TrimLeft_head s : str_forallb name_chr s = true →
  str_forallb name_chr (TrimLeft s) = true ∧
  (TrimLeft s = "" ∨ ∃ c r, TrimLeft s = String c r ∧ is_lower_alnum c = true).
Proof.
  induction s as [|c s IH]; simpl; [by split; [|left]|]. intros [Hc Hs]%andb_true_iff.
  destruct (is_cut c) eqn:E; [by apply IH|]. split; [by simpl; rewrite Hc|]. right. exists c, s. split; [done|].
  unfold name_chr in Hc. by rewrite E, orb_false_r in Hc.
Qed.

Lemma TrimRight_last s : str_forallb name_chr s = true →
  str_forallb name_chr (TrimRight s) = true ∧ (TrimRight s = "" ∨ NfdObjects.last_ok (TrimRight s) = true).
Proof.
  induction s as [|c s IH]; simpl; [by split; [|left]|]. intros [Hc Hs]%andb_true_iff. destruct (IH Hs) as [Hall Hlast].
  destruct (TrimRight s) as [|d r].
  - destruct (is_cut c) eqn:E; [by split; [|left]|]. split; [by simpl; rewrite Hc|]. right. simpl.
    unfold name_chr in Hc. by rewrite E, orb_false_r in Hc.
  - split; [simpl in *; by rewrite Hc|]. right. by destruct Hlast.
Qed.

Lemma alnum_not_cut c : is_lower_alnum c = true → is_cut c = false.
Proof.
  intros Hc. unfold is_cut. apply bool_decide_eq_false. by intros [-> | ->].
Qed.

Lemma TrimRight_head c r : is_lower_alnum c = true → TrimRight (String c r) = String c (TrimRight r).
Proof. intros Hc. simpl. rewrite (alnum_not_cut c Hc). by destruct (TrimRight r). Qed.

Lemma length_TrimRight s : (String.length (TrimRight s) ≤ String.length s)%nat.
Proof. induction s as [|c s IH]; simpl; [lia|]. destruct (TrimRight s); [destruct (is_cut c)|]; simpl in *; lia. Qed.

Lemma hex_facts_go fuel : ∀ z acc, str_forallb is_lower_alnum acc = true →
  str_forallb is_lower_alnum (Requests.hex_go fuel z acc) = true ∧
  (String.length acc ≤ String.length (Requests.hex_go fuel z acc) ≤ String.length acc + fuel)%nat ∧
  (fuel ≠ O → Requests.hex_go fuel z acc ≠ "").
Proof.
  induction fuel as [|fuel IH]; simpl; intros z acc Hacc; [by split_and!; [|lia..|]|].
  assert (str_forallb is_lower_alnum (String (Requests.hex_digit (z mod 16)) acc) = true) as Hacc'.
  { simpl. change (Requests.hex_digit (z mod 16)) with (hex_chr (z mod 16)). by rewrite hex_chr_alnum. }
  destruct (z <? 16); [by split_and!; [|simpl; lia..|]|].
  destruct (IH (z / 16) _ Hacc') as (H1 & H2 & _). simpl in H2. split_and!; [done|lia|lia|]. intros _ E. rewrite E in H2. simpl in H2. lia.
Qed.

Lemma hex_facts z : str_forallb is_lower_alnum (Requests.hex z) = true ∧ (String.length (Requests.hex z) ≤ 16)%nat ∧ Requests.hex z ≠ "".
Proof. destruct (hex_facts_go 16 z "" eq_refl) as (H1 & H2 & H3). unfold Requests.hex. set (h := Requests.hex_go _ _ _) in *. simpl in H2. split_and!; [done|lia|by apply H3]. Qed.

Lemma alnum_name s : str_forallb is_lower_alnum s = true → str_forallb name_chr s = true.
Proof.
  induction s as [|c s IH]; simpl; [done|]. unfold name_chr at 1. intros [-> ?]%andb_true_iff. simpl. auto.
Qed.

(** The cut name: a head of the name and the hash. *)
Lemma shortened_valid c r : is_lower_alnum c = true → str_forallb name_chr (String c r) = true →
  name_shape (let suffix := "-" +:+ Requests.hex (Requests.fnv64a Requests.fnv_offset (String c r)) in
              TrimRight (NfdObjects.str_take (Z.to_nat (253 - len suffix)) (String c r)) +:+ suffix).
Proof.
  intros Hc Hall. cbv zeta. destruct (hex_facts (Requests.fnv64a Requests.fnv_offset (String c r))) as (Hh & Hl & Hne).
  set (h := Requests.hex _) in *. assert (len ("-" +:+ h) = 1 + len h) as -> by (unfold len; simpl; lia).
  assert (1 ≤ len h ≤ 16) as Hlen by (unfold len; destruct h; [done|simpl in *; lia]).
  destruct (Z.to_nat (253 - (1 + len h))) as [|n] eqn:En; [lia|]. cbn [NfdObjects.str_take].
  rewrite TrimRight_head by done. set (t := TrimRight _).
  assert (str_forallb name_chr t = true) as Ht.
  { apply TrimRight_last, NfdObjects.str_take_forallb. simpl in Hall. by apply andb_true_iff in Hall as [_ ?]. }
  split_and!.
  - simpl in *. apply andb_true_iff in Hall as [-> _]. rewrite str_forallb_app, Ht. simpl. by rewrite (alnum_name h Hh).
  - by exists c, (t +:+ "-" +:+ h).
  - change (String c t +:+ "-" +:+ h) with (String c t +:+ String "-" h). rewrite NfdObjects.last_ok_app by done.
    simpl. destruct h as [|d h'] eqn:E; [done|]. by apply (NfdObjects.alnum_last (String d h')).
  - unfold len. simpl. rewrite str_length_app. simpl.
    assert (String.length t ≤ n)%nat.
    { unfold t. pose proof (length_TrimRight (NfdObjects.str_take n r)). pose proof (NfdObjects.str_take_length n r). lia. }
    unfold len in *. lia.
Qed.

Lemma kubernetesNodeName_valid name : name_shape (kubernetesNodeName name).
Proof.
  unfold kubernetesNodeName, Trim. pose proof (nameLoop_chars (to_lower (lowerRunes name))) as Hall.
  destruct (TrimLeft_head _ Hall) as [Hl Hhead]. set (n := TrimRight (TrimLeft (nameLoop (to_lower (lowerRunes name))))).
  assert (str_forallb name_chr n = true ∧ (n = "" ∨ (∃ c r, n = String c r ∧ is_lower_alnum c = true) ∧ NfdObjects.last_ok n = true))
    as [Hn Hends].
  { destruct (TrimRight_last _ Hl) as [Hn Hlast]. split; [exact Hn|]. fold n in Hlast.
    destruct Hlast as [|Hlast]; [by left|]. destruct Hhead as [E|(c & r & E & Hc)].
    - left. unfold n. by rewrite E.
    - right. split; [|done]. exists c, (TrimRight r). split; [|done]. unfold n. by rewrite E, TrimRight_head. }
  clearbody n. clear Hl Hhead Hall.
  destruct Hends as [->|[(c & r & -> & Hc) Hlast]].
  - rewrite decide_True by done. simpl. split_and!; [done|by exists "n"%char, "ode"|done|by unfold len].
  - rewrite decide_False by done. destruct (Z.leb_spec (len (String c r)) 253).
    + split_and!; [done|by exists c, r|done|done].
    + by apply shortened_valid.
Qed.

Lemma lowerRunes_id s : str_forallb name_chr s = true → lowerRunes s = s.
Proof.
  induction s as [|c s IH]; [done|]. cbn [str_forallb]. intros [Hc Hs]%andb_true_iff. specialize (IH Hs).
  destruct c as [[] [] [] [] [] [] [] []]; try (by vm_compute in Hc); cbn [lowerRunes]; by rewrite IH.
Qed.

Lemma valid_lower s : str_forallb name_chr s = true → nameLoop (to_lower s) = s.
Proof.
  induction s as [|c s IH]; simpl; [done|]. intros [Hc Hs]%andb_true_iff.
  assert (lower_chr c = c) as ->.
  { revert Hc. clear. destruct c as [[] [] [] [] [] [] [] []]; by vm_compute. }
  by rewrite Hc, IH.
Qed.

Lemma TrimRight_id s : NfdObjects.last_ok s = true → TrimRight s = s.
Proof.
  induction s as [|c s IH]; [done|]. intros Hl. destruct s as [|d s]; simpl in *.
  - by rewrite (alnum_not_cut c Hl).
  - specialize (IH Hl). by rewrite IH.
Qed.

Lemma kubernetesNodeName_id name : name_shape name → kubernetesNodeName name = name.
Proof.
  intros (Hall & (c & r & -> & Hc) & Hlast & Hlen). unfold kubernetesNodeName. rewrite lowerRunes_id, valid_lower by done.
  unfold Trim. cbn [TrimLeft]. rewrite (alnum_not_cut c Hc), TrimRight_id by done. rewrite decide_False by done.
  by rewrite (proj2 (Z.leb_le _ _)).
Qed.

(** *** The difference to a DNS-1123 subdomain *)

Definition label_head (s : string) : bool := match s with String c _ => is_lower_alnum c | "" => false end.
(** A label, up to a dash at its start. *)
Definition weak_label (s : string) : bool := str_forallb NfdObjects.dns_chr s && NfdObjects.last_ok s.

Lemma dns_label_weak s : NfdObjects.dns_label s ↔ weak_label s && label_head s = true.
Proof.
  unfold NfdObjects.dns_label, weak_label, label_head. rewrite !andb_true_iff. destruct s as [|c s]; [naive_solver|].
  split; [intros (? & (c' & r & [= -> ->] & ?) & ?); done|]. intros [[? ?] ?]. split_and!; [done|by exists c, s|done].
Qed.

Lemma chr_cases c : name_chr c = true →
  (is_lower_alnum c = true ∧ is_cut c = false ∧ NfdObjects.dns_chr c = true ∧ c ≠ "."%char) ∨ c = "-"%char ∨ c = "."%char.
Proof.
  unfold name_chr, NfdObjects.dns_chr, is_cut. intros [Hc|Hc%bool_decide_eq_true]%orb_true_iff; [left|tauto].
  rewrite Hc. pose proof (alnum_not_cut c Hc) as Hcut. unfold is_cut in Hcut. split_and!; [done|done|done|].
  intros ->. done.
Qed.

Lemma split_dot s : split "." (String "." s) = "" :: split "." s.
Proof. done. Qed.

Lemma split_other c s : c ≠ "."%char → ∃ p ps, split "." s = p :: ps ∧ split "." (String c s) = String c p :: ps.
Proof.
  intros Hc. cbn [split]. rewrite bool_decide_eq_false_2 by done. pose proof (split_ne_nil "." s).
  destruct (split "." s) as [|p ps]; [done|]. by exists p, ps.
Qed.

Definition strong_label (s : string) : bool := weak_label s && label_head s.

Definition labelled (s : string) : bool :=
  match split "." s with p :: ps => weak_label p && forallb strong_label ps | [] => false end.

Definition head_dot (s : string) : bool := match s with String c _ => bool_decide (c = "."%char) | "" => false end.

Lemma strong_all s : forallb strong_label (split "." s) = labelled s && label_head s.
Proof.
  unfold labelled. destruct s as [|c s]; [done|]. destruct (decide (c = "."%char)) as [->|Hc]; [done|].
  destruct (split_other c s Hc) as (p & ps & _ & ->). cbn [forallb]. unfold strong_label at 1. cbn [label_head].
  destruct (weak_label _), (forallb _ _), (is_lower_alnum c); done.
Qed.

Lemma weak_cons c d p : NfdObjects.dns_chr c = true → weak_label (String c (String d p)) = weak_label (String d p).
Proof. intros Hc. unfold weak_label. cbn [str_forallb]. by rewrite Hc. Qed.

(** Label by label: a string of name characters that does not start with a dot
    is as it should be, up to a dash at its start, when it ends in a letter or a
    digit and its dots are apart. *)
Lemma labels_apart n : ∀ s, (String.length s ≤ n)%nat → str_forallb name_chr s = true →
  labelled s = NfdObjects.last_ok s && negb (head_dot s) && dots_apart s.
Proof.
  induction n as [|n IH]; intros [|c s] Hlen; [done|simpl in Hlen; lia|done|].
  cbn [str_forallb]. intros [Hc Hs]%andb_true_iff. simpl in Hlen.
  destruct (decide (c = "."%char)) as [->|Hdot]; [cbn [head_dot]; rewrite bool_decide_eq_true_2 by done; by rewrite andb_false_r|].
  cbn [head_dot]. rewrite bool_decide_eq_false_2 by done. cbn [negb]. rewrite andb_true_r.
  assert (NfdObjects.dns_chr c = true ∧ is_cut c = negb (is_lower_alnum c)) as [Hdns Hcut].
  { destruct (chr_cases c Hc) as [(-> & -> & -> & _)|[->|?]]; done. }
  destruct s as [|d s].
  { unfold labelled. destruct (split_other c "" Hdot) as (p & ps & [= <- <-] & ->). simpl.
    unfold weak_label. simpl. rewrite Hdns. by destruct (is_lower_alnum c). }
  cbn [str_forallb] in Hs. apply andb_true_iff in Hs as [Hd Hs]. simpl in Hlen.
  change (NfdObjects.last_ok (String c (String d s))) with (NfdObjects.last_ok (String d s)).
  change (dots_apart (String c (String d s))) with
    (negb (is_cut c && is_cut d && bool_decide (c = "."%char ∨ d = "."%char)) && dots_apart (String d s)).
  destruct (decide (d = "."%char)) as [->|Hdot'].
  - assert (labelled (String c (String "." s)) = is_lower_alnum c && forallb strong_label (split "." s)) as ->.
    { unfold labelled. destruct (split_other c (String "." s) Hdot) as (p & ps & [= <- <-] & ->).
      unfold weak_label. cbn [str_forallb NfdObjects.last_ok]. by rewrite Hdns. }
    rewrite strong_all, (IH s) by (done || lia). rewrite Hcut, bool_decide_eq_true_2 by tauto.
    destruct s as [|e s]; [simpl; by rewrite andb_false_r|].
    cbn [str_forallb] in Hs. apply andb_true_iff in Hs as [He _].
    change (NfdObjects.last_ok (String "." (String e s))) with (NfdObjects.last_ok (String e s)).
    change (dots_apart (String "." (String e s))) with
      (negb (true && is_cut e && bool_decide ("."%char = "."%char ∨ e = "."%char)) && dots_apart (String e s)).
    rewrite (bool_decide_eq_true_2 (_ = _ ∨ _)) by tauto. cbn [label_head head_dot].
    destruct (chr_cases e He) as [(-> & -> & _ & He')|[->| ->]].
    + rewrite bool_decide_eq_false_2 by done.
      destruct (is_lower_alnum c), (NfdObjects.last_ok _), (dots_apart _); done.
    + simpl. by rewrite !andb_false_r.
    + simpl. by rewrite !andb_false_r.
  - assert (labelled (String c (String d s)) = labelled (String d s)) as ->.
    { unfold labelled. destruct (split_other d s Hdot') as (p & ps & _ & E).
      destruct (split_other c (String d s) Hdot) as (q & qs & E' & ->). rewrite E in E' |- *. injection E' as <- <-.
      by rewrite weak_cons. }
    rewrite (IH (String d s)) by (simpl; lia || by rewrite Hd). cbn [head_dot]. rewrite !bool_decide_eq_false_2 by tauto.
    rewrite andb_false_r. cbn [negb]. by rewrite andb_true_r.
Qed.

Lemma split_name_chr s : Forall (λ p, str_forallb NfdObjects.dns_chr p = true) (split "." s) → str_forallb name_chr s = true.
Proof.
  induction s as [|c s IH]; [done|]. destruct (decide (c = "."%char)) as [->|Hc].
  - rewrite split_dot. intros [_ Hs]%Forall_cons. simpl. by apply IH.
  - destruct (split_other c s Hc) as (p & ps & E & ->). rewrite E in IH. intros [Hp Hps]%Forall_cons. simpl in Hp |- *.
    apply andb_true_iff in Hp as [Hdns Hp]. rewrite IH by by constructor. rewrite andb_true_r.
    unfold NfdObjects.dns_chr, name_chr, is_cut in *. apply orb_true_iff in Hdns as [->|Hd%bool_decide_eq_true]; [done|].
    rewrite (bool_decide_eq_true_2 (_ ∨ _)) by by left. apply orb_true_r.
Qed.

Lemma dns_subdomain_apart s : dns_subdomain s ↔ name_shape s ∧ dots_apart s = true.
Proof.
  unfold dns_subdomain, name_shape.
  assert (Forall NfdObjects.dns_label (split "." s) ↔ labelled s && label_head s = true) as Hall.
  { rewrite <-strong_all, forallb_forall, Forall_forall.
    split; intros Hall p Hp; apply dns_label_weak, Hall; by apply list_elem_of_In. }
  split.
  - intros [Hl Hlen]. assert (str_forallb name_chr s = true) as Hs.
    { apply split_name_chr. eapply Forall_impl; [exact Hl|]. by intros p (? & _). }
    apply Hall, andb_true_iff in Hl as [Hl Hh]. rewrite (labels_apart (String.length s)) in Hl by done.
    rewrite !andb_true_iff in Hl. destruct Hl as [[Hlast _] Hd]. split_and!; [done| |done..].
    destruct s as [|c s]; [done|]. by exists c, s.
  - intros [(Hs & (c & r & -> & Hc) & Hlast & Hlen) Hd]. split; [|done]. apply Hall.
    rewrite (labels_apart (String.length (String c r))), Hlast, Hd by done. cbn [label_head head_dot]. rewrite Hc.
    rewrite bool_decide_eq_false_2; [done|]. intros ->. done.
Qed.

(** *** Hosts without dots *)

Lemma lowerRunes_cases c s :
  (∃ r, s = String "132" (String "170" r) ∧ lowerRunes (String c s) = String "k" (lowerRunes r)) ∨
  (∃ r, s = String "176" r ∧ lowerRunes (String c s) = String "i" (lowerRunes r)) ∨
  lowerRunes (String c s) = String c (lowerRunes s).
Proof.
  destruct (decide (c = "226"%char)) as [->|H1].
  - destruct s as [|d s]; [right; right; done|]. destruct (decide (d = "132"%char)) as [->|H2].
    + destruct s as [|e s]; [right; right; done|]. destruct (decide (e = "170"%char)) as [->|H3].
      * left. by exists s.
      * right; right. destruct e as [[] [] [] [] [] [] [] []]; done || by destruct H3.
    + right; right. destruct d as [[] [] [] [] [] [] [] []]; done || by destruct H2.
  - destruct (decide (c = "196"%char)) as [->|H4].
    + destruct s as [|d s]; [right; right; done|]. destruct (decide (d = "176"%char)) as [->|H2].
      * right; left. by exists s.
      * right; right. destruct d as [[] [] [] [] [] [] [] []]; done || by destruct H2.
    + right; right. destruct c as [[] [] [] [] [] [] [] []]; done || (by destruct H1) || by destruct H4.
Qed.

Lemma lowerRunes_no_dot n : ∀ s, (String.length s ≤ n)%nat → contains_chr "." s = false → contains_chr "." (lowerRunes s) = false.
Proof.
  induction n as [|n IH]; intros [|c s] Hlen; [done|simpl in Hlen; lia|done|].
  simpl in Hlen. intros Hs. destruct (lowerRunes_cases c s) as [(r & -> & ->)|[(r & -> & ->)| ->]]; simpl in *.
  - apply orb_false_iff in Hs as [_ Hs]. apply IH; [lia|done].
  - apply orb_false_iff in Hs as [_ Hs]. apply IH; [lia|done].
  - apply orb_false_iff in Hs as [-> Hs]. apply IH; [lia|done].
Qed.

Lemma nameLoop_no_dot s : contains_chr "." s = false → contains_chr "." (nameLoop (to_lower s)) = false.
Proof.
  induction s as [|c s IH]; [done|]. simpl. intros [Hc Hs]%orb_false_iff. apply bool_decide_eq_false in Hc. specialize (IH Hs).
  destruct (name_chr (lower_chr c)); simpl.
  - rewrite IH, orb_false_r. apply bool_decide_eq_false. intros Heq. apply Hc. revert Heq. clear.
    destruct c as [[] [] [] [] [] [] [] []]; done.
  - destruct (continuation _); simpl; [done|]. by rewrite IH.
Qed.

Lemma TrimLeft_no_dot s : contains_chr "." s = false → contains_chr "." (TrimLeft s) = false.
Proof. induction s as [|c s IH]; simpl; [done|]. intros Hs. destruct (is_cut c); [apply IH; by apply orb_false_iff in Hs as [_ ?]|exact Hs]. Qed.

Lemma TrimRight_no_dot s : contains_chr "." s = false → contains_chr "." (TrimRight s) = false.
Proof.
  induction s as [|c s IH]; simpl; [done|]. intros [Hc Hs]%orb_false_iff. specialize (IH Hs).
  destruct (TrimRight s); [destruct (is_cut c); simpl; by rewrite ?Hc|]. simpl in *. by rewrite Hc, IH.
Qed.

Lemma str_take_no_dot n s : contains_chr "." s = false → contains_chr "." (NfdObjects.str_take n s) = false.
Proof.
  revert s. induction n as [|n IH]; intros [|c s]; simpl; [done..|]. intros [Hc Hs]%orb_false_iff. by rewrite Hc, IH.
Qed.

Lemma dots_apart_none s : contains_chr "." s = false → dots_apart s = true.
Proof.
  induction s as [|a s IH]; [done|]. cbn [contains_chr]. intros [Ha Hs]%orb_false_iff. specialize (IH Hs).
  destruct s as [|b s]; [done|]. cbn [contains_chr] in Hs. apply orb_false_iff in Hs as [Hb _].
  apply bool_decide_eq_false in Ha, Hb. cbn [dots_apart]. rewrite (bool_decide_eq_false_2 (_ ∨ _)) by naive_solver.
  by rewrite andb_false_r.
Qed.

Lemma kubernetesNodeName_no_dot host : contains_chr "." host = false → dns_subdomain (kubernetesNodeName host).
Proof.
  intros Hhost. apply dns_subdomain_apart. split; [apply kubernetesNodeName_valid|]. apply dots_apart_none.
  unfold kubernetesNodeName, Trim. set (n := TrimRight _).
  assert (contains_chr "." n = false) as Hn.
  { apply TrimRight_no_dot, TrimLeft_no_dot, nameLoop_no_dot. by apply (lowerRunes_no_dot (String.length host)). }
  clearbody n. set (m := if decide (n = "") then "node" else n).
  assert (contains_chr "." m = false) as Hm by (unfold m; by case_decide). clearbody m.
  destruct (len m <=? 253); [done|]. set (h := Requests.hex _).
  assert (contains_chr "." h = false) as Hh by (eapply str_forallb_not_contains; [apply hex_facts|done]). clearbody h.
  rewrite contains_chr_app. apply orb_false_iff. split; [by apply TrimRight_no_dot, str_take_no_dot|]. simpl. exact Hh.
Qed.

(** A dot next to a dash: the name is not one that Kubernetes takes. *)
Example dot_by_dash : kubernetesNodeName "rack_.node" = "rack-.node" ∧ ¬ dns_subdomain "rack-.node".
Proof. split; [by vm_compute|]. rewrite dns_subdomain_apart. by intros [_ ?]. Qed.

(** ** The nodes of a model *)

Section Spec.
Context {Quantity : Type} (ParseQuantity : string → result string Quantity) (count : Z → Quantity).
Context (model : Model).

Definition hostNames : list string := sorted_keys (m_Nodes model).
Definition nodesOf (resources : gmap string Quantity) (l : list string) : list K8sNode :=
  omap (λ h, nodeOf resources h <$> m_Nodes model !! h) l.

(** [prior]: the host names whose node names were seen. *)
Lemma addNode_loop resources l : Forall (λ h, is_Some (m_Nodes model !! h)) l →
  ∀ prior nodes seen,
  NoDup (prior ++ l) → NoDup (kubernetesNodeName <$> prior) →
  (∀ n h, seen !! n = Some h ↔ h ∈ prior ∧ n = kubernetesNodeName h) →
  (NoDup (kubernetesNodeName <$> prior ++ l) ∧ ∃ seen',
     foldM (addNode model resources) (nodes, seen) l = Ok (nodes ++ nodesOf resources l, seen')) ∨
  (∃ h1 h2, h1 ∈ prior ++ l ∧ h2 ∈ l ∧ h1 ≠ h2 ∧ kubernetesNodeName h1 = kubernetesNodeName h2 ∧
     foldM (addNode model resources) (nodes, seen) l = Err (DuplicateNodeName h1 h2 (kubernetesNodeName h2))).
Proof.
  induction 1 as [|h l [node Hnode] _ IH]; intros prior nodes seen Hnd Hpn Hseen.
  - left. rewrite app_nil_r. split; [done|]. exists seen. simpl. by rewrite app_nil_r.
  - simpl. unfold addNode at 1 3. rewrite Hnode. destruct (seen !! kubernetesNodeName h) as [h1|] eqn:Hs.
    + right. apply Hseen in Hs as [Hin Heq]. exists h1, h. split_and!; [set_solver|set_solver| |done|done].
      intros ->. apply NoDup_app in Hnd as (_ & Hdis & _). apply (Hdis h); [done|set_solver].
    + replace (prior ++ h :: l) with ((prior ++ [h]) ++ l) in Hnd |- * by by rewrite <-app_assoc.
      destruct (IH (prior ++ [h]) (nodes ++ [nodeOf resources h node]) (<[kubernetesNodeName h := h]> seen))
        as [[Hn [seen' Hrun]]|(h1 & h2 & H1 & H2 & Hne & Heq & Hrun)]; [done| | | |].
      * rewrite fmap_app. apply NoDup_app. split_and!; [done| |apply NoDup_singleton].
        intros n (h' & -> & Hin)%list_elem_of_fmap Heq%list_elem_of_singleton.
        by rewrite (proj2 (Hseen _ h') (conj Hin (eq_sym Heq))) in Hs.
      * intros n h'. rewrite elem_of_app, list_elem_of_singleton. destruct (decide (n = kubernetesNodeName h)) as [->|Hn].
        -- rewrite lookup_insert_eq. split; [intros [= ->]; by split; [right|]|].
           intros [[Hin| ->] Heq]; [|done]. by rewrite (proj2 (Hseen _ h') (conj Hin Heq)) in Hs.
        -- rewrite lookup_insert_ne by done. rewrite Hseen. naive_solver.
      * left. split; [done|]. exists seen'. rewrite Hrun. simpl. by rewrite <-app_assoc.
      * right. exists h1, h2. split_and!; [done|set_solver|done|done|done].
Qed.

Lemma hostNames_nodes : Forall (λ h, is_Some (m_Nodes model !! h)) hostNames.
Proof. apply Forall_forall. intros h Hh. by apply elem_of_sorted_keys in Hh. Qed.

Lemma nodesOf_names resources l : Forall (λ h, is_Some (m_Nodes model !! h)) l →
  kn_Name <$> nodesOf resources l = kubernetesNodeName <$> l.
Proof.
  unfold nodesOf. induction 1 as [|h l [node Hnode] _ IH]; [done|]. csimpl. rewrite Hnode. csimpl. by rewrite IH.
Qed.

(** *** What is asked of a node *)

(** The quantities with their defaults, and the name of the GPU resource, if
    there are GPUs. *)
Definition wanted (c : Capacity) : list (string * string) :=
  [("cpu", if decide (CPU c = "") then "96" else CPU c);
   ("memory", if decide (Memory c = "") then "1024Gi" else Memory c);
   ("pods", if decide (Pods c = "") then "110" else Pods c);
   ("ephemeral-storage", if decide (EphemeralStorage c = "") then "10Gi" else EphemeralStorage c)].
Definition gpus (c : Capacity) : option string :=
  if decide (0 < GPUs c) then Some (if decide (GPUResourceName c = "") then "nvidia.com/gpu" else GPUResourceName c) else None.

Definition resources_for (c : Capacity) (r : gmap string Quantity) : Prop :=
  (∀ name value, (name, value) ∈ wanted c →
     ∃ q, ParseQuantity value = Ok q ∧ (gpus c ≠ Some name → r !! name = Some q)) ∧
  (∀ name, gpus c = Some name → r !! name = Some (count (GPUs c))) ∧
  (∀ name, is_Some (r !! name) → gpus c = Some name ∨ name ∈ (wanted c).*1).

(** The node of a host of the model. *)
Record node_for (resources : gmap string Quantity) (host : string) (n : K8sNode) : Prop := {
  nf_name : kn_Name n = kubernetesNodeName host;
  nf_provider : ProviderID n = "kwok://" +:+ kubernetesNodeName host;
  nf_capacity : kn_Capacity n = resources;
  nf_allocatable : Allocatable n = resources;
  nf_metadata : ∃ node, m_Nodes model !! host = Some node ∧
    let labels := default ∅ (Labels (n_Instance node)) in
    (∀ k, kn_Labels n !! k = if decide (k = "kwok.x-k8s.io/node") then Some "fake" else labels !! k) ∧
    kn_Annotations n !! "topograph.run/instance" = Some ("i-" +:+ host) ∧
    kn_Annotations n !! "topograph.run/region" = Some (default "" (labels !! "topology.kubernetes.io/region")) ∧
    kn_Annotations n !! "kwok.x-k8s.io/node" = Some "fake" ∧
    ∀ k, k ∉ ["topograph.run/instance"; "topograph.run/region"; "kwok.x-k8s.io/node"] →
      kn_Annotations n !! k = n_Annotations node !! k
}.

Lemma ResourceList_spec c :
  match ResourceList ParseQuantity count c with
  | Ok r => resources_for c r
  | Err (InvalidQuantity name value msg) => (name, value) ∈ wanted c ∧ ParseQuantity value = Err msg
  | Err _ => False
  end.
Proof.
  unfold ResourceList, setResource, resources_for, wanted, gpus, withDefaults. cbn [CPU Memory Pods EphemeralStorage GPUs GPUResourceName].
  unfold defaultCPU, defaultMemory, defaultPods, defaultEphemeralStorage, defaultGPUResourceName.
  set (v1 := if decide (CPU c = "") then _ else _). set (v2 := if decide (Memory c = "") then _ else _).
  set (v3 := if decide (Pods c = "") then _ else _). set (v4 := if decide (EphemeralStorage c = "") then _ else _).
  set (g := if decide (GPUResourceName c = "") then _ else _). clearbody v1 v2 v3 v4 g.
  destruct (ParseQuantity v1) as [q1|] eqn:H1; simpl; [|split; [set_solver|done]].
  destruct (ParseQuantity v2) as [q2|] eqn:H2; simpl; [|split; [set_solver|done]].
  destruct (ParseQuantity v3) as [q3|] eqn:H3; simpl; [|split; [set_solver|done]].
  destruct (ParseQuantity v4) as [q4|] eqn:H4; simpl; [|split; [set_solver|done]].
  set (m := <["ephemeral-storage" := q4]> _).
  assert (m !! "cpu" = Some q1 ∧ m !! "memory" = Some q2 ∧ m !! "pods" = Some q3 ∧ m !! "ephemeral-storage" = Some q4)
    as (M1 & M2 & M3 & M4) by (split_and!; unfold m; by simplify_map_eq).
  assert (∀ name, is_Some (m !! name) → name ∈ ["cpu"; "memory"; "pods"; "ephemeral-storage"]) as Mdom.
  { intros name. unfold m. rewrite !lookup_insert_is_Some, lookup_empty. set_unfold. intros Hn.
    destruct (decide (name = "cpu")), (decide (name = "memory")), (decide (name = "pods")), (decide (name = "ephemeral-storage"));
      try tauto. exfalso. destruct Hn as [?|[_ [?|[_ [?|[_ [?|[_ [? ?]]]]]]]]]; congruence. }
  clearbody m.
  assert (∀ name value, (name, value) ∈ [("cpu", v1); ("memory", v2); ("pods", v3); ("ephemeral-storage", v4)] →
    ∃ q, ParseQuantity value = Ok q ∧ m !! name = Some q) as Mall.
  { intros name value Hin. rewrite !elem_of_cons in Hin.
    destruct Hin as [[= -> ->]|[[= -> ->]|[[= -> ->]|[[= -> ->]|[]%elem_of_nil]]]]; eauto. }
  destruct (Z.ltb_spec 0 (GPUs c)); [rewrite decide_True by done|rewrite decide_False by lia]; split_and!.
  - intros name value (q & Hq & Hm)%Mall. exists q. split; [done|]. intros Hg. by rewrite lookup_insert_ne by congruence.
  - intros name [= <-]. apply lookup_insert_eq.
  - intros name. rewrite lookup_insert_is_Some. intros [->|[_ Hn]]; [by left|right; by apply Mdom].
  - intros name value (q & Hq & Hm)%Mall. by exists q.
  - done.
  - intros name Hn. right. by apply Mdom.
Qed.

Lemma nodeOf_for resources host node :
  m_Nodes model !! host = Some node → node_for resources host (nodeOf resources host node).
Proof.
  intros Hnode. split; [done..|]. exists node. split; [done|]. cbv zeta. unfold nodeOf. cbn [kn_Labels kn_Annotations].
  unfold NodeSelectorKey, NodeSelectorValue, K8sEngine.KeyNodeRegion, K8sEngine.KeyNodeInstance, LabelTopologyRegion. split_and!.
  - intros k. case_decide as Hk; [subst; apply lookup_insert_eq|by rewrite lookup_insert_ne].
  - by rewrite lookup_insert_ne, lookup_insert_eq.
  - by rewrite lookup_insert_eq.
  - by simplify_map_eq.
  - intros k Hk. rewrite !elem_of_cons in Hk. rewrite !lookup_insert_ne by naive_solver. done.
Qed.

Lemma nodesOf_for resources l : Forall (λ h, is_Some (m_Nodes model !! h)) l → Forall2 (node_for resources) l (nodesOf resources l).
Proof.
  unfold nodesOf. induction 1 as [|h l [node Hnode] _ IH]; [constructor|]. csimpl. rewrite Hnode. csimpl.
  constructor; [by apply nodeOf_for|exact IH].
Qed.

(** C38: The fake nodes of a model.  There is one node per host of the model, in
    the order of the host names, no two with the same name; a node has the labels
    of its host and the selector, the annotations of its host with the instance
    ID, the region, which is the host's region label, and the selector, a provider
    ID made of its name, and as capacity and as allocatable resources the four
    quantities, parsed, with their defaults, and the number of GPUs, if any.
    Otherwise a quantity does not parse, and the error names it, or two hosts lead
    to one name, and the error names both.  A name made of a host name has at most
    253 lower-case letters, digits, dashes and dots, with a letter or digit at
    both ends; it is a name that Kubernetes takes, a DNS-1123 subdomain, exactly
    when none of its dots is next to a dash or another dot, so whenever the host
    name has no dot, and a host name that Kubernetes takes is kept. *)
Theorem kwok_nodes capacity :
  (∀ host, name_shape (kubernetesNodeName host) ∧
     (dns_subdomain (kubernetesNodeName host) ↔ dots_apart (kubernetesNodeName host) = true) ∧
     (contains_chr "." host = false → dns_subdomain (kubernetesNodeName host)) ∧
     (dns_subdomain host → kubernetesNodeName host = host)) ∧
  match NodesFromModel ParseQuantity count model capacity with
  | Ok nodes => ∃ resources hosts, resources_for capacity resources ∧
      Sorted String.le hosts ∧ NoDup hosts ∧ (∀ h, h ∈ hosts ↔ is_Some (m_Nodes model !! h)) ∧
      Forall2 (node_for resources) hosts nodes ∧ NoDup (kn_Name <$> nodes)
  | Err (InvalidQuantity name value msg) => (name, value) ∈ wanted capacity ∧ ParseQuantity value = Err msg
  | Err (DuplicateNodeName h1 h2 n) => is_Some (m_Nodes model !! h1) ∧ is_Some (m_Nodes model !! h2) ∧ h1 ≠ h2 ∧
      kubernetesNodeName h1 = n ∧ kubernetesNodeName h2 = n
  end.
Proof.
  split.
  { intros host. pose proof (kubernetesNodeName_valid host). split_and!; [done| |apply kubernetesNodeName_no_dot|].
    - rewrite dns_subdomain_apart. tauto.
    - intros [Hs _]%dns_subdomain_apart. by apply kubernetesNodeName_id. }
  unfold NodesFromModel. pose proof (ResourceList_spec capacity) as Hres.
  destruct (ResourceList ParseQuantity count capacity) as [resources|[]]; [|exact Hres|done]. simpl. fold hostNames.
  destruct (addNode_loop resources hostNames hostNames_nodes [] [] ∅)
    as [[Hn [seen' Hrun]]|(h1 & h2 & H1 & H2 & Hne & Heq & Hrun)].
  - apply sorted_keys_NoDup.
  - constructor.
  - intros n h. rewrite lookup_empty. set_solver.
  - rewrite Hrun. simpl. exists resources, hostNames. split_and!; [done|apply sorted_keys_sorted|apply sorted_keys_NoDup| | |].
    + apply elem_of_sorted_keys.
    + apply nodesOf_for, hostNames_nodes.
    + rewrite nodesOf_names; [done|apply hostNames_nodes].
  - rewrite Hrun. simpl. split_and!; [by apply elem_of_sorted_keys|by apply elem_of_sorted_keys|done..].
Qed.
End Spec.

(** ** Example *)

(** Two hosts that lead to one name; and a host with its region. *)
Definition w_host (region : string) : Node :=
  MkNode (MkInstance "" [] (Some {[ LabelTopologyRegion := region ]}) []) {[ "note" := "x" ]}.
Definition w_nodes (hosts : list string) : result (kwokErr) (list (string * option string * option string)) :=
  fmap (M := result kwokErr) (fmap (M := list) (λ n : K8sNode, (kn_Name n, kn_Annotations n !! K8sEngine.KeyNodeRegion, kn_Capacity n !! "cpu")))
    (NodesFromModel Ok itoa (MkModel ∅ (list_to_map ((λ h, (h, w_host "east")) <$> hosts)) [] []) DefaultCapacity).

Example w_kwok :
  (w_nodes ["N_1"; "n2"], w_nodes ["n.1"; "N.1"]) =
  (Ok [("n-1", Some "east", Some "96"); ("n2", Some "east", Some "96")], Err (DuplicateNodeName "N.1" "n.1" "n.1")).
Proof. vm_eq. Qed.
End Kwok.
