(* ===== verification/IbProviders.v ===== *)
(** * The InfiniBand providers: [pkg/providers/infiniband]

    The fabric is discovered from the nodes: [ibnetdiscover] runs on a node, and
    not on those that a fabric already read holds.  One provider reaches the
    nodes with [pdsh], one through pods, and one reads a captured output. *)

From S2P Require Import Prelude GoStrings Queue Domain Topology Merger Request Infiniband K8sEngine Accelerator Providers.
Open Scope Z_scope.

Module IbProviders.
Import Queue Domain Topo Merging Requests.

(** ** nvidia-smi over pdsh: [bm.go] *)

Definition addLine (outputs : gmap string string) (line : string) : gmap string string :=
  match Providers.cutColon line with
  | None => outputs
  | Some (node, rest) =>
      let nodeName := trim_space node in
      <[nodeName := default "" (outputs !! nodeName) +:+ trim_space rest +:+ newline]> outputs
  end.

(** [None]: a line is too long for the scanner. *)
Definition parsePdshNvidiaSMIOutput (stdout : string) : option (gmap string string) :=
  foldl addLine ∅ <$> scan_lines stdout.

(** [pdsh]: one run of a command on nodes. *)
Definition pdshRun (pdsh : list string → result string string) (targets : list Accelerator.Target) :
    result string (gmap string string) :=
  stdout ← pdsh (Accelerator.tg_HostName <$> targets);
  match parsePdshNvidiaSMIOutput stdout with
  | Some outputs => Ok outputs
  | None => Err "bufio.Scanner: token too long"
  end.

(** ** The tree: [common.go] *)

Fixpoint contains (sub s : string) : bool :=
  has_prefix sub s || match s with "" => false | String _ s => contains sub s end.
Definition header : string := "Topology file:".

Inductive treeErr := ErrIb (e : Infiniband.ibErr).

Record treeState := MkState { t_store : store; nodeVisited : gset string; rootMap : gmap string loc }.

Section Tree.
Context `{RangeOrder} {W : Type}.
(** [IBNetDiscover.Run] *)
Context (Run : string → W → W * result string string).

(** The roots of a fabric replace roots with the same ID. *)
Definition addFabric (st : treeState) (s : store) (ibRoots : list loc) (hca : gmap string string) : treeState :=
  MkState s (foldl (λ visited kv, {[kv.2]} ∪ visited) (nodeVisited st) (range hca))
    (foldl (λ m v, <[v_ID (deref (cells s) v) := v]> m) (rootMap st) ibRoots).

(** [None]: a loop of the fabric's construction does not end. *)
Fixpoint forNodes (cis : list ComputeInstances) (nodes : list string) (st : treeState) (w : W) :
    option (W * result treeErr treeState) :=
  match nodes with
  | [] => Some (w, Ok st)
  | node :: nodes =>
      if decide (node ∈ nodeVisited st) then forNodes cis nodes st w
      else
        let '(w, r) := Run node w in
        match r with
        | Err _ => forNodes cis nodes st w
        | Ok stdout =>
            if contains header stdout then
              match Infiniband.GenerateTopologyConfig (t_store st) stdout cis with
              | None => None
              | Some (Err e) => Some (w, Err (ErrIb e))
              | Some (Ok (s, ibRoots, hca)) => forNodes cis nodes (addFabric st s ibRoots hca) w
              end
            else forNodes cis nodes st w
        end
  end.

(** The merger goes down one layer at a time; there are fewer layers than
    vertices. *)
Definition getIbTree (cis : list ComputeInstances) (w : W) : option (W * result treeErr (store * loc)) :=
  match forNodes cis (GetNodeNameList cis) (MkState (MkStore ∅ 0) ∅ ∅) w with
  | None => None
  | Some (w, Err e) => Some (w, Err e)
  | Some (w, Ok st) =>
      let s := t_store st in
      merger ← NewMerger (S (next s)) (cells s) (range (rootMap st)).*2;
      let children := foldl (λ m v, <[v_ID (deref (cells s) v) := Some v]> m) ∅ (TopTier merger) in
      Some (w, Ok (new s (MkVertex "" "" children)))
  end.

(** ** The providers: [provider_bm.go], [provider_k8s.go] *)

Inductive providerErr :=
| ErrMultiRegion
| ErrNodes (msg : string)
| ErrAccelerator (code : Z) (e : Accelerator.smiErr)
| ErrTree (e : treeErr).

Definition graphOf (domains : DomainMap) (cis : list ComputeInstances) (w : W) : option (W * result providerErr Graph) :=
  match getIbTree cis w with
  | None => None
  | Some (w, Err e) => Some (w, Err (ErrTree e))
  | Some (w, Ok (s, treeRoot)) => Some (w, Ok (MkGraph (cells s) (Some treeRoot) (Some domains) None))
  end.

Definition LoaderBM {M} (Len : M → Z) (Decode : M → result string Accelerator.Config) (accelerator : option (Accelerator.anyValue M))
    (pdsh : list string → result string string) : result Accelerator.acceleratorErr Accelerator.Discoverer :=
  Accelerator.NewCommandDiscoverer Len Decode (Accelerator.SectionFromProviderParams accelerator) (Some (pdshRun pdsh)).

Definition GenerateTopologyConfigBM (accelerator : Accelerator.Discoverer) (cis : list ComputeInstances) (w : W) :
    option (W * result providerErr Graph) :=
  match cis with
  | _ :: _ :: _ => Some (w, Err ErrMultiRegion)
  | _ =>
      let targets := Accelerator.TargetsFromComputeInstances cis in
      match Accelerator.Discover accelerator targets with
      | Err e => Some (w, Err (ErrAccelerator 500 e))
      | Ok assignments => graphOf (Accelerator.DomainMapFromAssignments assignments targets) cis w
      end
  end.

(** [listed]: what [k8s.GetNodes] answers. *)
Definition GenerateTopologyConfigK8S (accelerator : Accelerator.Discoverer) (listed : result string (list Node))
    (cis : list ComputeInstances) (w : W) : option (W * result providerErr Graph) :=
  match cis with
  | _ :: _ :: _ => Some (w, Err ErrMultiRegion)
  | _ =>
      match listed with
      | Err msg => Some (w, Err (ErrNodes msg))
      | Ok nodes =>
          match Accelerator.DiscoverKubernetesDomains accelerator nodes cis with
          | Err e => Some (w, Err (ErrAccelerator 502 e))
          | Ok domainMap => graphOf domainMap cis w
          end
      end
  end.

Definition GetNodeInstances (nodes : list string) : list ComputeInstances := Providers.SelfNamedInstances nodes "local".

(** ** Nodes by pods: [k8s.go] *)

(** The pods of the data broker on a node, and a command in a pod. *)
Definition runInPod (pods : string → result string (list string)) (exec : string → W → W * result string string)
    (node : string) (w : W) : W * result string string :=
  match pods node with
  | Err msg => (w, Err msg)
  | Ok [pod] => exec pod w
  | Ok l => (w, Err ("expected 1 data broker pod on " +:+ String Infiniband.quote (node +:+ String Infiniband.quote " node; got ") +:+ itoa (Z.of_nat (length l))))
  end.

(** No assignment is not an error. *)
Definition GetNodeAnnotations (discoverer : result Accelerator.acceleratorErr Accelerator.Discoverer) (hostname : string) :
    result Accelerator.acceleratorErr (gmap string string) :=
  let annotations := Accelerator.BaseKubernetesNodeAnnotations hostname in
  discoverer ← discoverer;
  Ok (match Accelerator.Discover discoverer [Accelerator.MkTarget hostname hostname ∅ ∅] with
      | Err _ => annotations
      | Ok assignments =>
          match assignments !! hostname with
          | Some a => <[Accelerator.KeyGpuClusterID := Accelerator.DomainID a]> annotations
          | None => annotations
          end
      end).

(** ** The simulated provider: [provider_sim.go] *)

Inductive simErr :=
| ErrModelFileName
| ErrFileName
| ErrRead (msg : string)
| ErrNoHeader
| ErrParse (e : Infiniband.ibErr)
| ErrNoSwitches
| ErrNoConnectedHosts.

Record ProviderSim := MkSim { output : string; instances : list ComputeInstances }.

Definition connectedHosts (switches : gmap string Infiniband.Switch) (hca : gmap string string) : gmap string string :=
  foldl (λ m sw, foldl (λ m id, match hca !! id with Some node => <[node := node]> m | None => m end)
                   m (elements (dom (Infiniband.Conn sw.2)))) ∅ (range switches).

(** [params]: the parameters, with the file name if it is a string. *)
Definition LoaderSim (hasModelFileName : bool) (fileName : option string) (ReadFile : string → result string string) :
    result simErr ProviderSim :=
  if hasModelFileName then Err ErrModelFileName
  else match fileName with
       | None => Err ErrFileName
       | Some fileName =>
           if decide (trim_space fileName = "") then Err ErrFileName
           else
             output ← map_err ErrRead (ReadFile fileName);
             if negb (contains header output) then Err ErrNoHeader
             else
               p ← map_err ErrParse (Infiniband.ParseIbnetdiscoverFile output);
               let '(switches, hca) := p in
               if decide (switches = ∅ ∨ hca = ∅) then Err ErrNoSwitches
               else
                 let instances := connectedHosts switches hca in
                 if decide (instances = ∅) then Err ErrNoConnectedHosts
                 else Ok (MkSim output [MkCI "local" instances])
       end.

Definition GenerateTopologyConfigSim (p : ProviderSim) (cis : list ComputeInstances) : option (result providerErr Graph) :=
  match cis with
  | _ :: _ :: _ => Some (Err ErrMultiRegion)
  | _ =>
      match Infiniband.GenerateTopologyConfig (MkStore ∅ 0) (output p) cis with
      | None => None
      | Some (Err e) => Some (Err (ErrTree (ErrIb e)))
      | Some (Ok (s, roots, _)) =>
          let children := foldl (λ m v, <[v_ID (deref (cells s) v) := Some v]> m) ∅ roots in
          let '(s, tiers) := new s (MkVertex "" "" children) in
          Some (Ok (MkGraph (cells s) (Some tiers) (Some ∅) None))
      end
  end.

Definition GetComputeInstances (p : ProviderSim) : list ComputeInstances := instances p.
End Tree.

(** ** The hosts of a captured fabric *)

Section Hosts.
Context `{RangeOrder}.

(** A map from names to themselves with the names that satisfy [P]. *)
Definition named (m : gmap string string) (P : string → Prop) : Prop := ∀ n v, m !! n = Some v ↔ v = n ∧ P n.

Lemma named_insert m P n : named m P → named (<[n := n]> m) (λ k, k = n ∨ P k).
Proof.
  intros Hm k v. destruct (decide (k = n)) as [->|Hne].
  - rewrite lookup_insert_eq. naive_solver.
  - rewrite lookup_insert_ne, (Hm k v) by done. naive_solver.
Qed.

Lemma addHosts_named (hca : gmap string string) ids : ∀ m P, named m P →
  named (foldl (λ m id, match hca !! id with Some node => <[node := node]> m | None => m end) m ids)
    (λ n, P n ∨ ∃ id, id ∈ ids ∧ hca !! id = Some n).
Proof.
  induction ids as [|id ids IH]; intros m P Hm; simpl.
  - intros n v. rewrite (Hm n v). set_solver.
  - intros n v. destruct (hca !! id) as [node|] eqn:Hid.
    + rewrite (IH _ _ (named_insert m P node Hm) n v). split; (intros [-> Hn]; split; [done|]).
      * destruct Hn as [[->|Hn]|(id' & Hin & Hh)]; [right; exists id; set_solver|by left|right; exists id'; set_solver].
      * destruct Hn as [Hn|(id' & [->|Hin]%elem_of_cons & Hh)]; [by left; right|left; left; congruence|right; by exists id'].
    + rewrite (IH _ _ Hm n v). split; (intros [-> Hn]; split; [done|]).
      * destruct Hn as [Hn|(id' & Hin & Hh)]; [by left|right; exists id'; set_solver].
      * destruct Hn as [Hn|(id' & [->|Hin]%elem_of_cons & Hh)]; [by left|congruence|right; by exists id'].
Qed.

Lemma connectedHosts_named switches hca :
  named (connectedHosts switches hca)
    (λ n, ∃ name sw id, switches !! name = Some sw ∧ is_Some (Infiniband.Conn sw !! id) ∧ hca !! id = Some n).
Proof.
  unfold connectedHosts.
  assert (∀ l m P, named m P →
    named (foldl (λ m sw, foldl (λ m id, match hca !! id with Some node => <[node := node]> m | None => m end)
                            m (elements (dom (Infiniband.Conn sw.2)))) m l)
      (λ n, P n ∨ ∃ (kv : string * Infiniband.Switch) id, kv ∈ l ∧ is_Some (Infiniband.Conn kv.2 !! id) ∧ hca !! id = Some n)) as Hg.
  { induction l as [|kv l IH]; intros m P Hm; simpl; [intros n v; rewrite (Hm n v); set_solver|]. intros n v.
    rewrite (IH _ _ (addHosts_named hca _ m P Hm) n v). split; (intros [-> Hn]; split; [done|]).
    - destruct Hn as [[Hn|(id & Hin%elem_of_elements%elem_of_dom & Hh)]|(kv' & id & Hin & Hid & Hh)];
        [by left|right; exists kv, id; set_solver|right; exists kv', id; set_solver].
    - destruct Hn as [Hn|(kv' & id & [->|Hin]%elem_of_cons & Hid & Hh)];
        [by left; left| |right; by exists kv', id].
      left. right. exists id. by rewrite elem_of_elements, elem_of_dom. }
  assert (named ∅ (λ _, False)) as H0 by (intros k x; rewrite lookup_empty; naive_solver).
  intros n v. rewrite (Hg (range switches) ∅ (λ _, False) H0 n v). split; (intros [-> Hn]; split; [done|]).
  - destruct Hn as [[]|([name sw] & id & Hin%elem_of_range & Hid & Hh)]. by exists name, sw, id.
  - destruct Hn as (name & sw & id & Hsw & Hid & Hh). right. exists (name, sw), id. split_and!; [by apply elem_of_range|done|done].
Qed.

(** A captured output that is accepted has switches and at least one named host
    connected to one; the instances of the provider are exactly these hosts,
    under their own names. *)
Theorem simulated_fabric hasModel fileName ReadFile p :
  LoaderSim hasModel fileName ReadFile = Ok p →
  hasModel = false ∧ ∃ file switches hca hosts,
    fileName = Some file ∧ ReadFile file = Ok (output p) ∧
    Infiniband.ParseIbnetdiscoverFile (output p) = Ok (switches, hca) ∧
    GetComputeInstances p = [MkCI "local" hosts] ∧ hosts ≠ ∅ ∧
    named hosts (λ n, ∃ name sw id, switches !! name = Some sw ∧ is_Some (Infiniband.Conn sw !! id) ∧ hca !! id = Some n).
Proof.
  unfold LoaderSim. destruct hasModel; [done|]. intros Hrun. split; [done|]. destruct fileName as [file|]; [|done].
  case_decide; [done|]. destruct (ReadFile file) as [out|] eqn:Hr; [|done]. simpl in Hrun.
  destruct (contains header out); [|done]. simpl in Hrun.
  destruct (Infiniband.ParseIbnetdiscoverFile out) as [[switches hca]|] eqn:Hp; [|done]. simpl in Hrun.
  case_decide; [done|]. case_decide as Hne; [done|]. injection Hrun as <-. simpl.
  exists file, switches, hca, (connectedHosts switches hca). split_and!; try done. apply connectedHosts_named.
Qed.
End Hosts.

(** Two fabrics, each read from one of its nodes; the second node of the first
    fabric is not asked. *)
Definition ex_fabric (leaf h1 h2 n1 n2 : string) : string :=
  join newline
    ["# Topology file: generated";
     "Switch  36 " +:+ Infiniband.q leaf +:+ "  # " +:+ Infiniband.q leaf;
     "[1]  " +:+ Infiniband.q h1 +:+ "[1](ab0)  # " +:+ Infiniband.q (n1 +:+ " mlx5_0") +:+ " lid 1";
     "[2]  " +:+ Infiniband.q h2 +:+ "[1](ab0)  # " +:+ Infiniband.q (n2 +:+ " mlx5_0") +:+ " lid 1"; "";
     "Ca  2 " +:+ Infiniband.q h1 +:+ "  # " +:+ Infiniband.q (n1 +:+ " mlx5_0"); "";
     "Ca  2 " +:+ Infiniband.q h2 +:+ "  # " +:+ Infiniband.q (n2 +:+ " mlx5_0"); ""].
Definition ex_run (node : string) (w : list string) : list string * result string string :=
  (w ++ [node], if decide (node = "n1" ∨ node = "n2") then Ok (ex_fabric "S-1" "H-1" "H-2" "n1" "n2")
                else Ok (ex_fabric "S-2" "H-3" "H-4" "n3" "n4")).
Example ex_two_fabrics :
  match getIbTree ex_run [MkCI "local" {[ "n1" := "n1"; "n2" := "n2"; "n3" := "n3"; "n4" := "n4" ]}] [] with
  | Some (asked, Ok (s, root)) => (length asked, dom (Vertices (deref (cells s) root)))
  | _ => (0%nat, ∅)
  end = (2%nat, {["S-1"; "S-2"]}).
Proof. by vm_compute. Qed.
End IbProviders.
