(* ===== verification/Dra.v ===== *)
(** * The DRA provider: [pkg/providers/dra/provider.go]

    A provider of accelerator domains only: they come from a label of the
    Kubernetes nodes. *)

From S2P Require Import Prelude GoStrings Queue Domain Topology K8sEngine Accelerator.
Open Scope Z_scope.

Module Dra.
Import Queue Domain Topo Accelerator.

Definition defaultDomainLabel : string := "nvidia.com/gpu.clique".

Inductive draErr :=
| ErrConfig (e : acceleratorErr)
| ErrNotLabel
| ErrNodes (msg : string)
| ErrDiscover (e : smiErr)
| ErrNoMatchingNodes (acceleratorLabel : string).

(** The response codes. *)
Definition Code (e : draErr) : Z := match e with ErrConfig _ | ErrNotLabel => 400 | _ => 502 end.

Section New.
(** As in [Accelerator]; [labelSection]: the value of the accelerator section
    that selects a label as the source. *)
Context {M : Type} (Len : M → Z) (Decode : M → result string Config) (labelSection : string → M).

Definition KubernetesLabelSection (key : string) : Section_ M := MkSection (VMap (labelSection key)) true.

Definition newAcceleratorDiscoverer (accelerator : option (anyValue M)) : result draErr (Discoverer * string) :=
  let section := SectionFromProviderParams accelerator in
  let section := if present section then section else KubernetesLabelSection defaultDomainLabel in
  acceleratorConfig ← map_err ErrConfig (ParseConfig Len Decode section);
  if decide (Source acceleratorConfig ≠ SourceKubernetesLabel) then Err ErrNotLabel
  else
    discoverer ← map_err ErrConfig (NewKubernetesDiscovererFromConfig acceleratorConfig);
    Ok (discoverer, LabelKey acceleratorConfig).
End New.

(** [listed]: what [k8s.GetNodes] answers. *)
Definition GenerateTopologyConfig (p : Discoverer * string) (listed : result string (list Node)) (instances : list ComputeInstances) :
    result draErr Graph :=
  nodes ← map_err ErrNodes listed;
  domainMap ← map_err ErrDiscover (DiscoverKubernetesDomains p.1 nodes instances);
  if decide (domainMap = ∅) then Err (ErrNoMatchingNodes p.2)
  else Ok (MkGraph ∅ None (Some domainMap) None).

Definition GetNodeAnnotations (hostname : string) : gmap string string := BaseKubernetesNodeAnnotations hostname.

(** ** What the provider promises *)

Section Spec.
Context {M : Type} (Len : M → Z) (Decode : M → result string Config) (labelSection : string → M).
(** mapstructure decodes the default section to what it says. *)
Hypothesis decodes : ∀ key, Len (labelSection key) ≠ 0 ∧ Decode (labelSection key) = Ok (MkConfig SourceKubernetesLabel key "" "").

(** A discoverer reads the label that is reported in errors: the configured one,
    or the NVLink clique without a configuration. *)
Lemma discoverer_reads_label accelerator d key :
  newAcceleratorDiscoverer Len Decode labelSection accelerator = Ok (d, key) →
  d = labelDiscoverer key ∧ trim_space key ≠ "" ∧ (accelerator = None → key = defaultDomainLabel).
Proof.
  unfold newAcceleratorDiscoverer. intros (c & Hc & Hrun)%bind_Ok. case_decide as Hs; [done|].
  apply bind_Ok in Hrun as (d' & Hd & [= <- <-]).
  assert (Source c = SourceKubernetesLabel) as Hsrc by (destruct (decide (Source c = SourceKubernetesLabel)); [done|by destruct Hs]).
  unfold NewKubernetesDiscovererFromConfig in Hd. destruct (Validate c) as [[]|] eqn:Hv; [|done]. simpl in Hd.
  rewrite Hsrc, decide_False, decide_True in Hd by done. simpl in Hd. injection Hd as <-. split_and!; [done| |].
  - unfold Validate in Hv. apply bind_Ok in Hv as (_ & _ & Hv). case_decide as Hk; [done|]. intros E. by apply Hk.
  - intros ->. simpl in Hc. destruct (decodes defaultDomainLabel) as [Hl Hd]. unfold ParseConfig in Hc. simpl in Hc.
    rewrite decide_True in Hc by done. rewrite Hd in Hc. simpl in Hc. by injection Hc as <-.
Qed.

(** The provider returns the domains of the selected nodes and no tree, or an
    error; never an empty graph. *)
Theorem dra_domains p listed instances :
  match GenerateTopologyConfig p listed instances with
  | Ok g => Tiers g = None ∧ ∃ nodes domainMap, listed = Ok nodes ∧ Domains g = Some domainMap ∧ domainMap ≠ ∅ ∧
              DiscoverKubernetesDomains p.1 nodes instances = Ok domainMap
  | Err e => Code e = 502
  end.
Proof.
  unfold GenerateTopologyConfig. destruct listed as [nodes|]; [|done]. simpl.
  destruct (DiscoverKubernetesDomains p.1 nodes instances) as [dm|] eqn:Hd; [|done]. simpl. case_decide; [done|].
  split; [done|]. by exists nodes, dm.
Qed.
End Spec.

(** Without a configuration the clique label is read. *)
Example default_label :
  newAcceleratorDiscoverer (λ _, 2) (λ key, Ok (MkConfig SourceKubernetesLabel key "" "")) id None =
  Ok (labelDiscoverer defaultDomainLabel, defaultDomainLabel).
Proof. by vm_compute. Qed.
End Dra.
