(* ===== verification/TestProvider.v ===== *)
(** * The test provider: [pkg/providers/test/test.go] and
    [pkg/translate/output.go]

    A provider for tests: it fails on demand, or returns the graph of a model
    or a fixed graph.  ([HandleTestProviderRequest] is in [Server].) *)

From S2P Require Import Prelude GoStrings Queue Domain Topology Models.
Open Scope Z_scope.

Module TestProvider.
Import Queue Domain Topo.

(** ** Fixed graphs *)

(** A vertex with the vertices below it. *)
Inductive tree := T (ID Name : string) (below : list tree).

(** The vertices below first. *)
Fixpoint build (s : store) (t : tree) : store * loc :=
  match t with
  | T id name below =>
      let '(s, children) :=
        foldl (λ acc t, let '(s, l) := build acc.1 t in
                        (s, <[match t with T id _ _ => id end := Some l]> acc.2)) (s, ∅) below in
      new s (MkVertex name id children)
  end.

Definition leaf (p : string * string) : tree := T p.1 p.2 [].
Definition graphOf (t : tree) (domains : option DomainMap) : Graph :=
  let '(s, root) := build (MkStore ∅ 0) t in MkGraph (cells s) (Some root) domains None.

Definition GetTreeTestSet (testForLongLabelName : bool) : Graph * gmap string string :=
  let s3name := if testForLongLabelName then "S3very-very-long-id-to-check-label-value-limits-of-63-characters" else "S3" in
  (graphOf (T "" "" [T "S1" "" [
      T "S2" "" (leaf <$> [("I21", "Node201"); ("I22", "Node202"); ("I25", "Node205")]);
      T s3name "" (leaf <$> [("I34", "Node304"); ("I35", "Node305"); ("I36", "Node306")])]]) None,
   list_to_map [("I21", "Node201"); ("I22", "Node202"); ("I25", "Node205");
                ("I34", "Node304"); ("I35", "Node305"); ("I36", "Node306")]).

Definition blockHosts : list (string * (string * string)) :=
  [("B1", ("I14", "Node104")); ("B1", ("I15", "Node105")); ("B1", ("I16", "Node106"));
   ("B2", ("I21", "Node201")); ("B2", ("I22", "Node202")); ("B2", ("I25", "Node205"));
   ("B3", ("I31", "Node301")); ("B3", ("I32", "Node302")); ("B3", ("I33", "Node303"));
   ("B4", ("I41", "Node401")); ("B4", ("I42", "Node402")); ("B4", ("I43", "Node403"))].

Definition GetBlockWithMultiIBTestSet : Graph * gmap string string :=
  let below (b : string) := (λ h, leaf h.2) <$> filter (λ h, h.1 = b) blockHosts in
  (graphOf (T "" "" [T "IB1" "" [T "S4" "" [T "S5" "" (below "B3"); T "S6" "" (below "B4")]];
                     T "IB2" "" [T "S1" "" [T "S2" "" (below "B1"); T "S3" "" (below "B2")]]])
     (Some (foldl (λ dm h, AddHost dm h.1 h.2.1 h.2.2) NewDomainMap blockHosts)),
   list_to_map (snd <$> blockHosts)).

(** ** The provider *)

Record Params := MkParams {
  GenerateResponseCode : Z;
  TopologyResponseCode : Z;
  ModelFileName : string;
  ErrorMessage : string
}.
Definition NewParams : Params := MkParams 202 200 "" "".

(** [filepath.Base] *)
Fixpoint trimSlashes (s : string) : string :=
  match s with
  | "" => ""
  | String c r => match trimSlashes r with
                  | "" => if decide (c = "/"%char) then "" else String c ""
                  | r' => String c r'
                  end
  end.
Fixpoint afterSlash (s : string) : string :=
  match s with
  | "" => ""
  | String c rest => if contains_chr "/" rest then afterSlash rest else if decide (c = "/"%char) then rest else s
  end.
Definition Base (path : string) : string :=
  if decide (path = "") then "."
  else let s := trimSlashes path in if decide (s = "") then "/" else afterSlash s.

(** The verb [%q], for names without characters that it escapes. *)
Definition quoted (s : string) : string := String "034" (s +:+ String "034" "").

Record Provider := MkProvider {
  graph : Graph;
  instance2node : gmap string string;
  model : option Models.Model
}.

Lemma afterSlash_bare s : contains_chr "/" (afterSlash s) = false.
Proof.
  induction s as [|c rest IH]; simpl; [done|]. destruct (contains_chr "/" rest) eqn:E; [done|].
  case_decide as Hc; [done|]. simpl. rewrite E, orb_false_r. by apply bool_decide_eq_false.
Qed.

Lemma Base_bare s : s ≠ "" → Base s = s → s = "/" ∨ contains_chr "/" s = false.
Proof.
  unfold Base. intros Hne. rewrite decide_False by done. case_decide; [by left|]. intros <-. right. apply afterSlash_bare.
Qed.

Section Provider.
Context `{RangeOrder}.
(** [decoded]: what decoding makes of the parameters, over [NewParams];
    [load]: [models.NewModelFromFile]. *)
Context (load : string → result string Models.Model).

Definition Loader (decoded : result string Params) : result Error Provider :=
  p ← map_err (λ msg, NewError 400 ("error decoding params: " +:+ msg)) decoded;
  let code := TopologyResponseCode p in
  if (400 <=? code) && (code <=? 599) || (code =? 202) then Err (NewError code (ErrorMessage p))
  else if negb (code =? 200) then Err (NewError 400 ("Invalid topology response code: " +:+ itoa code))
  else if decide (ModelFileName p ≠ "") then
    if decide (Base (ModelFileName p) ≠ ModelFileName p) then
      Err (NewError 400 ("modelFileName " +:+ quoted (ModelFileName p) +:+ " must be a bare filename, not a path"))
    else
      model ← map_err (λ msg, NewError 400 ("failed to read model file " +:+ ModelFileName p +:+ ": " +:+ msg))
                (load (ModelFileName p));
      let '(graph, i2n) := Models.ToGraph model [] in
      Ok (MkProvider graph i2n (Some model))
  else
    let '(graph, i2n) := GetTreeTestSet false in
    Ok (MkProvider graph i2n None).

Definition GetComputeInstances (p : Provider) : list ComputeInstances := [MkCI "" (instance2node p)].

Definition GenerateTopologyConfig (p : Provider) (instances : list ComputeInstances) : Graph :=
  match model p with
  | Some m => (Models.ToGraph m instances).1
  | None => graph p
  end.

(** A loaded provider was asked for a success; the file of its model, if it has
    one, has no directory. *)
Theorem test_provider_loads decoded p : Loader decoded = Ok p →
  ∃ params, decoded = Ok params ∧ TopologyResponseCode params = 200 ∧
    match model p with
    | Some m => load (ModelFileName params) = Ok m ∧
                (ModelFileName params = "/" ∨ contains_chr "/" (ModelFileName params) = false)
    | None => ModelFileName params = "" ∧ graph p = (GetTreeTestSet false).1
    end.
Proof.
  unfold Loader. destruct decoded as [params|]; [|done]. simpl. intros Hrun. exists params. split; [done|].
  destruct (_ || _); [done|]. destruct (Z.eqb_spec (TopologyResponseCode params) 200) as [Hc|]; [|done]. split; [done|].
  simpl in Hrun. destruct (decide (ModelFileName params ≠ "")) as [Hn|Hn].
  - destruct (decide (Base (ModelFileName params) ≠ ModelFileName params)) as [|Hb]; [done|].
    destruct (load (ModelFileName params)) as [m|] eqn:Hl; [|done]. simpl in Hrun.
    destruct (Models.ToGraph m []) as [g i2n]. injection Hrun as <-. simpl. split; [done|]. apply Base_bare; [done|].
    destruct (decide (Base (ModelFileName params) = ModelFileName params)); [done|by destruct Hb].
  - injection Hrun as <-. simpl. split; [|done]. destruct (decide (ModelFileName params = "")); [done|by destruct Hn].
Qed.
End Provider.

(** ** Examples *)

Definition pathsOf (g : Graph) (paths : list (list string)) : list bool :=
  match Tiers g with
  | Some root => (λ p, bool_decide (is_Some (lookupPath (g_heap g) root p))) <$> paths
  | None => []
  end.
Example tree_set :
  pathsOf (GetTreeTestSet false).1 [["S1"; "S2"; "I21"]; ["S1"; "S3"; "I36"]; ["S1"; "S2"; "I34"]] = [true; true; false].
Proof. by vm_compute. Qed.
Example block_set :
  pathsOf GetBlockWithMultiIBTestSet.1 [["IB2"; "S1"; "S2"; "I14"]; ["IB1"; "S4"; "S6"; "I43"]; ["IB1"; "S4"; "S5"; "I41"]] =
    [true; true; false] ∧
  (dom <$> Domains GetBlockWithMultiIBTestSet.1) = Some {["B1"; "B2"; "B3"; "B4"]}.
Proof. by vm_compute. Qed.
Example Base_ex : (Base "a/b.yaml", Base "b.yaml", Base "a/", Base "/", Base "") = ("b.yaml", "b.yaml", "a", "/", ".").
Proof. by vm_compute. Qed.
End TestProvider.
