(* ===== verification/Crusoe.v ===== *)
(** * The Crusoe provider: [pkg/providers/crusoe]

    Crusoe publishes the InfiniBand locality of a node as labels of the
    Kubernetes node; the provider reads them, in a cluster or from a model. *)

From S2P Require Import Prelude GoStrings Queue Topology K8sEngine Accelerator Providers Models Sim CloudProps.
Open Scope Z_scope.

Module Crusoe.
Import Queue Topo.

Definition region : string := "local".
Definition labelPartitionID : string := "crusoe.ai/ib.partition.id".
Definition labelPodID : string := "crusoe.ai/pod.id".
Definition labelGPUClique : string := "nvidia.com/gpu.clique".
Definition rootTier : string := "crusoe".
Definition cpuPartition : string := "cpu-partition".
Definition cpuPod : string := "cpu-pod".

(** ** Labels: [k8s.go] *)

Record fabricLabels := MkFabric { PartitionID : string; PodID : string }.

Definition label (labels : gmap string string) (key : string) : string := trim_space (default "" (labels !! key)).

Definition readFabricLabels (labels : gmap string string) : option fabricLabels :=
  let partitionID := label labels labelPartitionID in
  let podID := label labels labelPodID in
  if decide (partitionID = "" ∨ podID = "") then None else Some (MkFabric partitionID podID).

Definition readNVLinkDomain (labels : gmap string string) : string := label labels labelGPUClique.

(** ** Topology: [instance_topology.go] *)

Record nodeMetadata := MkMetadata { InstanceID : string; nm_Labels : gmap string string }.

Definition buildInstanceTopology (node : nodeMetadata) : InstanceTopology :=
  let tiers := match readFabricLabels (nm_Labels node) with
               | Some labels => [PodID labels; PartitionID labels; rootTier]
               | None => [cpuPod; cpuPartition; rootTier]
               end in
  MkInst (InstanceID node) (ClosestFirstFabricTiers tiers) (readNVLinkDomain (nm_Labels node)) "" None.

(** [None]: every node; a nil set. *)
Definition requestedNodeIDs (instances : list ComputeInstances) : result Error (option (gset string)) :=
  match instances with
  | [] => Ok None
  | [ci] => Ok (if decide (ci_Instances ci = ∅) then None else Some (dom (ci_Instances ci)))
  | _ => Err (NewError 400 "crusoe does not support multi-region topology requests")
  end.

Definition skipNode (instanceID : string) (requested : option (gset string)) : bool :=
  match requested with None => false | Some ids => bool_decide (instanceID ∉ ids) end.

Definition buildClusterTopology (nodes : list nodeMetadata) (requested : option (gset string)) :
    result Error ClusterTopology :=
  let topo := foldl (λ topo node, if skipNode (InstanceID node) requested then topo
                                  else Append topo (buildInstanceTopology node)) NewClusterTopology nodes in
  if decide (topo = []) then
    Err (NewError 404 ("no requested nodes found among " +:+ itoa (Z.of_nat (length nodes)) +:+ " selected nodes"))
  else Ok topo.

(** ** The provider: [provider.go] *)

Section Provider.
Context `{RangeOrder}.

Definition nodeMetadataFromNodeList (nodeList : list Node) : list nodeMetadata :=
  (λ node, let instanceID := trim_space (default "" (n_Annotations node !! K8sEngine.KeyNodeInstance)) in
           MkMetadata (if decide (instanceID = "") then n_Name node else instanceID) (n_Labels node)) <$> nodeList.

(** [listed]: what [k8s.GetNodes] answers. *)
Definition GenerateTopologyConfig (trimTiers : Z) (listed : result string (list Node)) (cis : list ComputeInstances) :
    option (result Error Graph) :=
  match requestedNodeIDs cis with
  | Err e => Some (Err e)
  | Ok requested =>
      match listed with
      | Err msg => Some (Err (NewError 502 msg))
      | Ok nodeList =>
          match buildClusterTopology (nodeMetadataFromNodeList nodeList) requested with
          | Err e => Some (Err e)
          | Ok topo => Ok <$> ToGraph topo cis trimTiers false
          end
      end
  end.

Definition GetNodeInstances (nodes : list string) : list ComputeInstances := Providers.SelfNamedInstances nodes region.
Definition GetNodeAnnotations (hostname : string) : gmap string string := Accelerator.BaseKubernetesNodeAnnotations hostname.

(** ** The simulated provider: [provider_sim.go] *)

Definition simNodeLabels (node : Models.Node) : gmap string string :=
  let domain := Models.AcceleratorDomain node in
  let labels := default ∅ (Labels (Models.n_Instance node)) in
  if decide (domain = "" ∨ default "" (labels !! labelGPUClique) ≠ "") then labels else <[labelGPUClique := domain]> labels.

Definition nodeMetadataFromModel (model : Models.Model) : list nodeMetadata :=
  omap (λ name, (λ node, MkMetadata name (simNodeLabels node)) <$> Models.m_Nodes model !! name)
    (sorted_keys (Models.m_Nodes model)).

Definition simGenerateTopologyConfig (params : Sim.SimulationParams) (model : Models.Model) (cis : list ComputeInstances) :
    option (result Error Graph) :=
  match requestedNodeIDs cis with
  | Err e => Some (Err e)
  | Ok requested =>
      match buildClusterTopology (nodeMetadataFromModel model) requested with
      | Err e => Some (Err e)
      | Ok topo => Ok <$> Sim.ToGraph (Sim.NewBaseSimProvider model (Sim.sp_TrimTiers params)) topo cis false
      end
  end.

(** ** What the provider reports *)

Definition wanted (requested : option (gset string)) (node : nodeMetadata) : Prop := skipNode (InstanceID node) requested = false.
#[global] Instance wanted_dec requested node : Decision (wanted requested node).
Proof. unfold wanted. apply _. Defined.

Lemma buildClusterTopology_spec nodes requested :
  buildClusterTopology nodes requested =
    if decide (filter (wanted requested) nodes = []) then
      Err (NewError 404 ("no requested nodes found among " +:+ itoa (Z.of_nat (length nodes)) +:+ " selected nodes"))
    else Ok (buildInstanceTopology <$> filter (wanted requested) nodes).
Proof.
  unfold buildClusterTopology.
  assert (∀ topo : ClusterTopology, foldl (λ topo node, if skipNode (InstanceID node) requested then topo
                           else Append topo (buildInstanceTopology node)) topo nodes =
            topo ++ (buildInstanceTopology <$> filter (wanted requested) nodes)) as ->.
  { induction nodes as [|node nodes IH]; intros topo; [by rewrite app_nil_r|]. simpl. rewrite IH, filter_cons.
    case_decide as Hw; unfold wanted in Hw.
    - rewrite Hw. unfold Append. by rewrite <-app_assoc.
    - by destruct (skipNode (InstanceID node) requested). }
  unfold NewClusterTopology. simpl. destruct (filter (wanted requested) nodes); by repeat case_decide.
Qed.

(** The switches above a node, from the root: its partition and its pod, or
    those of the nodes without InfiniBand. *)
Definition locality (node : nodeMetadata) : list string :=
  match readFabricLabels (nm_Labels node) with
  | Some labels => [rootTier; PartitionID labels; PodID labels]
  | None => [rootTier; cpuPartition; cpuPod]
  end.

(** The switches of the first listing of a node. *)
Fixpoint listed (nodes : list nodeMetadata) (id : string) : option (list string) :=
  match nodes with
  | [] => None
  | node :: nodes => if decide (InstanceID node = id) then Some (locality node) else listed nodes id
  end.

Lemma first_listed trimTiers nodes id :
  match first (buildInstanceTopology <$> nodes) id with
  | Some inst => reverse (id :: switchIDs (trimmedTiers inst trimTiers))
  | None => [NoTopology; id]
  end = match listed nodes id with
        | Some ids => CloudProps.named trimTiers ids ++ [id]
        | None => [NoTopology; id]
        end.
Proof.
  induction nodes as [|node nodes IH]; [done|]. cbn [fmap list_fmap first listed].
  change (it_InstanceID (buildInstanceTopology node)) with (InstanceID node). case_decide as Hid; [|exact IH]. subst id.
  change (CloudProps.path trimTiers (buildInstanceTopology node) = CloudProps.named trimTiers (locality node) ++ [InstanceID node]).
  unfold buildInstanceTopology, locality. rewrite CloudProps.path_closest.
  by destruct (readFabricLabels (nm_Labels node)).
Qed.

(** Crusoe places nodes by their labels.  For a request of one region that
    names nodes, if no name is used at two levels, the provider returns a graph
    as soon as one requested node is listed; a requested node that is listed
    hangs below its partition and its pod, or below the placeholders when a
    label is missing, all below one root; a node that is not listed hangs below
    [no-topology]; the listing of other nodes changes nothing. *)
Theorem crusoe_places_nodes nodeList ci trimTiers :
  let nodes := filter (wanted (Some (dom (ci_Instances ci)))) (nodeMetadataFromNodeList nodeList) in
  ci_Instances ci ≠ ∅ → nodes ≠ [] → levelled trimTiers (buildInstanceTopology <$> nodes) →
  ∃ g root, GenerateTopologyConfig trimTiers (Ok nodeList) [ci] = Some (Ok g) ∧ Tiers g = Some root ∧
    ∀ id name, ci_Instances ci !! id = Some name → ∃ leaf,
      deref (g_heap g) leaf = MkVertex name id ∅ ∧
      lookupPath (g_heap g) root
        (match listed nodes id with
         | Some ids => CloudProps.named trimTiers ids ++ [id]
         | None => [NoTopology; id]
         end) = Some leaf.
Proof.
  intros nodes Hci Hne Hlv. unfold GenerateTopologyConfig, requestedNodeIDs. rewrite decide_False by done.
  rewrite buildClusterTopology_spec. fold nodes. rewrite decide_False by done.
  destruct (ToGraph_places (buildInstanceTopology <$> nodes) [ci] trimTiers false Hlv) as (g & root & -> & Hroot & Hall).
  exists g, root. split_and!; [done|done|]. intros id name Hid. rewrite <-first_listed. apply Hall.
  unfold instanceNames, copyMap. simpl. by rewrite (right_id_L ∅ (∪)).
Qed.
End Provider.

(** Two nodes of one partition and one without InfiniBand; the second is not in
    the request. *)
Definition w_nodes : list Node :=
  [MkNode "n1" {[ labelPartitionID := "part"; labelPodID := "pod1"; labelGPUClique := "c.1" ]} ∅;
   MkNode "n2" {[ labelPartitionID := "part"; labelPodID := "pod2" ]} ∅;
   MkNode "cpu" ∅ {[ K8sEngine.KeyNodeInstance := "i-cpu" ]}].
Definition w_ci : ComputeInstances := MkCI "local" {[ "n1" := "n1"; "i-cpu" := "cpu"; "gone" := "gone" ]}.

Lemma crusoe_places_nodes_witness : ∃ g root l1 l2 l3,
  GenerateTopologyConfig 0 (Ok w_nodes) [w_ci] = Some (Ok g) ∧ Tiers g = Some root ∧
  lookupPath (g_heap g) root ["crusoe"; "part"; "pod1"; "n1"] = Some l1 ∧
  lookupPath (g_heap g) root ["crusoe"; "cpu-partition"; "cpu-pod"; "i-cpu"] = Some l2 ∧
  lookupPath (g_heap g) root [NoTopology; "gone"] = Some l3.
Proof.
  destruct (crusoe_places_nodes w_nodes w_ci 0) as (g & root & Hg & Hr & Hall).
  - apply (bool_decide_unpack _). vm_compute. exact I.
  - apply (bool_decide_unpack _). vm_compute. exact I.
  - apply (bool_decide_unpack _). vm_compute. exact I.
  - destruct (Hall "n1" "n1" ltac:(vm_eq)) as (l1 & _ & H1).
    destruct (Hall "i-cpu" "cpu" ltac:(vm_eq)) as (l2 & _ & H2).
    destruct (Hall "gone" "gone" ltac:(vm_eq)) as (l3 & _ & H3).
    exists g, root, l1, l2, l3. split; [exact Hg|]. split; [exact Hr|]. split; [exact H1|]. split; [exact H2|exact H3].
Defined.
End Crusoe.
