(* ===== verification/Dsx.v ===== *)
(** * The DSX provider: [pkg/providers/dsx]

    One request returns the switches with the switches and nodes below them; the
    provider follows the parents of a leaf switch for two tiers.  There is no
    client but the simulated one. *)

From S2P Require Import Prelude GoStrings Queue Topology Paging Models Sim CloudProps.
Open Scope Z_scope.

Module Dsx.
Import Queue Topo Paging.

(** ** Data: [provider.go] *)

Record NodeInfo := MkNodeInfo { NodeID : string; AcceleratedNetworkID : string }.
Record SwitchInfo := MkSwitchInfo { Switches : list string; Nodes : list NodeInfo }.
(** [TopologyResponse]: its switches. *)
Abbreviation TopologyResponse := (gmap string SwitchInfo).

(** [GetTopology]: the VPC, the nodes, the page size, the page token. *)
Record Client {W : Type} := MkClient {
  GetTopology : string → list string → Z → string → W → W * result string TopologyResponse
}.
Arguments Client : clear implicits.
#[global] Arguments MkClient {W} GetTopology.

Definition Loader : result Error () := Err (NewError 501 "dsx provider not implemented").

(** ** Topology: [instance_topology.go] *)

Section Provider.
Context `{RangeOrder} {W : Type}.

Definition wanted (cis : list ComputeInstances) : gset string := ⋃ ((λ ci, dom (ci_Instances ci)) <$> cis).

Definition addParents (m : gmap string string) (sw : string * SwitchInfo) : gmap string string :=
  foldl (λ m child, <[child := sw.1]> m) m (Switches sw.2).
Definition parentOf (response : TopologyResponse) : gmap string string := foldl addParents ∅ (range response).

Definition instanceOf (parents : gmap string string) (leafID : string) (n : NodeInfo) : InstanceTopology :=
  let spineID := default "" (parents !! leafID) in
  let coreID := if decide (spineID ≠ "") then default "" (parents !! spineID) else "" in
  MkInst (NodeID n) (ClosestFirstFabricTiers [leafID; spineID; coreID]) (AcceleratedNetworkID n) "" None.

Definition responseToClusterTopology (response : TopologyResponse) (cis : list ComputeInstances) : ClusterTopology :=
  let want := wanted cis in
  let parents := parentOf response in
  foldl (λ topo sw, foldl (λ topo n, if decide (NodeID n ∈ want) then Append topo (instanceOf parents sw.1 n) else topo)
                      topo (Nodes sw.2))
    NewClusterTopology (range response).

Record Provider := MkProvider { clientFactory : result string (Client W); trimTiers : Z }.

Definition nodeIDs (cis : list ComputeInstances) : list string := concat ((λ ci, (range (ci_Instances ci)).*1) <$> cis).

Definition generateInstanceTopology (p : Provider) (pageSize : option Z) (cis : list ComputeInstances) (w : W) :
    W * result Error ClusterTopology :=
  match clientFactory p with
  | Err msg => (w, Err (NewError 502 ("failed to get client: " +:+ msg)))
  | Ok client =>
      match GetTopology client "" (nodeIDs cis) (default 0 pageSize) "" w with
      | (w, Err msg) => (w, Err (NewError 502 ("API error: " +:+ msg)))
      | (w, Ok response) => (w, Ok (responseToClusterTopology response cis))
      end
  end.

Definition GenerateTopologyConfig (p : Provider) (pageSize : option Z) (instances : list ComputeInstances) (w : W) :
    option (W * result Error Graph) :=
  graphOf instances (trimTiers p) false (Some (generateInstanceTopology p pageSize instances w)).
End Provider.

(** ** The simulated provider: [provider_sim.go] *)

Definition errClientFactory : Z := 2.
Definition errAPIError : Z := 3.

Record simClient := MkSim { model : Models.Model; apiErr : Z }.

Definition simNode (m : Models.Model) (want : gset string) (nodeName : string) : option NodeInfo :=
  if decide (nodeName ∈ want) then
    (λ node, MkNodeInfo nodeName (Models.AcceleratorDomain node)) <$> Models.m_Nodes m !! nodeName
  else None.

Definition simSwitch (m : Models.Model) (want : gset string) (sw : Models.Switch) : SwitchInfo :=
  if decide (Models.sw_Nodes sw = []) then MkSwitchInfo (Models.Switches sw) []
  else MkSwitchInfo [] (omap (simNode m want) (Models.sw_Nodes sw)).

Section Simulated.
Context `{RangeOrder}.

Definition simGetTopology (c : simClient) (vpcID : string) (nodeIDs : list string) (pageSize : Z) (pageToken : string) (w : ()) :
    () * result string TopologyResponse :=
  if decide (apiErr c = errAPIError) then (w, Err Sim.ErrAPIError)
  else
    let want := list_to_set (C := gset string) nodeIDs in
    (w, Ok (foldl (λ m kv, <[Models.sw_Name kv.2 := simSwitch (model c) want kv.2]> m) ∅ (range (Models.m_Switches (model c))))).

Definition simClientFactory (m : Models.Model) (apiError : Z) : result string (Client ()) :=
  if decide (apiError = errClientFactory) then Err Sim.ErrAPIError
  else Ok (MkClient (simGetTopology (MkSim m apiError))).

Definition simGenerateTopologyConfig (p : Sim.SimulationParams) (m : Models.Model) (pageSize : option Z)
    (cis : list ComputeInstances) (w : ()) : option (() * result Error Graph) :=
  Sim.simGraph (Sim.NewBaseSimProvider m (Sim.sp_TrimTiers p)) cis false
    (Some (generateInstanceTopology (MkProvider (simClientFactory m (Sim.APIError p)) 0) pageSize cis w)).
End Simulated.

(** ** What a response says *)

Section Response.
Context `{RangeOrder} (response : TopologyResponse).

(** [sw] is listed above [child]. *)
Definition above (child sw : string) : Prop := ∃ info, response !! sw = Some info ∧ child ∈ Switches info.

Lemma addParents_spec l : ∀ m, let m' := foldl addParents m l in
  (∀ c p, m' !! c = Some p → m !! c = Some p ∨ ∃ info, (p, info) ∈ l ∧ c ∈ Switches info) ∧
  (∀ c, is_Some (m !! c) ∨ (∃ p info, (p, info) ∈ l ∧ c ∈ Switches info) → is_Some (m' !! c)).
Proof.
  assert (∀ (sw : string) children (m : gmap string string), let m' := foldl (λ m child, <[child := sw]> m) m children in
    (∀ c p, m' !! c = Some p → m !! c = Some p ∨ p = sw ∧ c ∈ children) ∧
    (∀ c, is_Some (m !! c) ∨ c ∈ children → is_Some (m' !! c))) as Hone.
  { intros sw. induction children as [|x children IH]; intros m; simpl.
    - split; [by left|]. intros c [?|Hc]; [done|by apply not_elem_of_nil in Hc].
    - destruct (IH (<[x := sw]> m)) as [IH1 IH2]. split.
      + intros c p [Hc|[-> Hc]]%IH1; [|right; set_solver].
        apply lookup_insert_Some in Hc as [[-> ->]|[_ Hc]]; [right; set_solver|by left].
      + intros c Hc. apply IH2. destruct (decide (c = x)) as [->|Hne]; [left; rewrite lookup_insert_eq; by eexists|].
        rewrite lookup_insert_ne by done. set_solver. }
  induction l as [|[sw info] l IH]; intros m; simpl.
  - split; [by left|]. intros c [?|(p & info & Hin & _)]; [done|by apply not_elem_of_nil in Hin].
  - destruct (Hone sw (Switches info) m) as [H1 H2]. fold (addParents m (sw, info)) in H1, H2.
    destruct (IH (addParents m (sw, info))) as [IH1 IH2]. split.
    + intros c p [Hc|(i & Hin & Hc)]%IH1; [|right; exists i; set_solver].
      apply H1 in Hc as [Hc|[-> Hc]]; [by left|]. right. exists info. set_solver.
    + intros c Hc. apply IH2. destruct Hc as [Hc|(p & i & Hin & Hc)]; [left; apply H2; by left|].
      apply elem_of_cons in Hin as [[= -> ->]|Hin]; [left; apply H2; by right|right; by exists p, i].
Qed.

Lemma parentOf_spec c : match parentOf response !! c with Some p => above c p | None => ∀ p, ¬ above c p end.
Proof.
  destruct (addParents_spec (range response) ∅) as [H1 H2]. fold (parentOf response) in H1, H2.
  destruct (parentOf response !! c) as [p|] eqn:Hc.
  - apply H1 in Hc as [Hc|(info & Hin%elem_of_range & Hc)]; [by rewrite lookup_empty in Hc|]. by exists info.
  - intros p (info & Hin%elem_of_range & Hch). destruct (H2 c) as [x Hx]; [right; by exists p, info|]. by rewrite Hc in Hx.
Qed.

(** DSX reports every requested node of a response.  The instances are those
    nodes, once per listing of the node under a switch; the first tier is that
    switch, the second a switch that lists it, the third a switch that lists the
    second, each empty only when no switch does or one without a name; the
    accelerator domain is the node's network. *)
Theorem dsx_reports cis :
  ∃ entries : list (string * NodeInfo),
    (∀ sw n, (sw, n) ∈ entries ↔ ∃ info, response !! sw = Some info ∧ n ∈ Nodes info ∧ NodeID n ∈ wanted cis) ∧
    Forall2 (λ e inst, ∃ spine core,
      inst = MkInst (NodeID e.2) (ClosestFirstFabricTiers [e.1; spine; core]) (AcceleratedNetworkID e.2) "" None ∧
      (spine ≠ "" → above e.1 spine) ∧ (core ≠ "" → spine ≠ "" ∧ above spine core) ∧
      (spine = "" → ∀ p, p ≠ "" → above e.1 p → above e.1 "") ∧
      (spine ≠ "" → core = "" → ∀ p, p ≠ "" → above spine p → above spine ""))
      entries (responseToClusterTopology response cis).
Proof.
  set (f := λ sw : string * SwitchInfo, (λ n, (sw.1, n)) <$> filter (λ n, NodeID n ∈ wanted cis) (Nodes sw.2)).
  exists (concat (f <$> range response)). split.
  - intros sw n. rewrite elem_of_concat. split.
    + intros (l & ([name info] & -> & Hin%elem_of_range)%list_elem_of_fmap & Hl).
      apply list_elem_of_fmap in Hl as (n' & [= -> ->] & [Hw Hn]%list_elem_of_filter). by exists info.
    + intros (info & Hin & Hn & Hw). exists (f (sw, info)). split.
      * apply list_elem_of_fmap. exists (sw, info). split; [done|]. by apply elem_of_range.
      * apply list_elem_of_fmap. exists n. split; [done|]. by apply list_elem_of_filter.
  - assert (responseToClusterTopology response cis =
      (λ e, instanceOf (parentOf response) e.1 e.2) <$> concat (f <$> range response)) as ->.
    { unfold responseToClusterTopology. generalize (range response) as l. intros l.
      assert (∀ topo : ClusterTopology, foldl (λ topo sw, foldl (λ topo n,
          if decide (NodeID n ∈ wanted cis) then Append topo (instanceOf (parentOf response) sw.1 n) else topo) topo (Nodes sw.2)) topo l
        = topo ++ ((λ e, instanceOf (parentOf response) e.1 e.2) <$> concat (f <$> l))) as Hg; [|apply (Hg [])].
      induction l as [|[sw info] l IH]; intros topo; [by rewrite app_nil_r|]. cbn [foldl fst snd]. rewrite IH.
      cbn [fmap list_fmap concat]. rewrite fmap_app, app_assoc. f_equal.
      unfold f. cbn [fst snd]. rewrite <-list_fmap_compose. generalize (Nodes info) as ns. intros ns. revert topo.
      induction ns as [|n ns IHn]; intros topo; [by rewrite app_nil_r|]. cbn [foldl]. rewrite IHn, filter_cons.
      case_decide; [|done]. unfold Append. by rewrite <-app_assoc. }
    apply Forall2_fmap_r. apply Forall_Forall2_diag, Forall_forall. intros [sw n] _. unfold compose, instanceOf. cbn [fst snd].
    pose proof (parentOf_spec sw) as Hsw. destruct (parentOf response !! sw) as [spine|] eqn:E1; simpl.
    + case_decide as Hs.
      * pose proof (parentOf_spec spine) as Hsp. destruct (parentOf response !! spine) as [core|] eqn:E2; simpl.
        -- exists spine, core. split_and!; [done|done|done|by intros ->|]. by intros _ ->.
        -- exists spine, "". split_and!; [done|done|done|by intros ->|]. intros _ _ p _ Hp. by destruct (Hsp p).
      * assert (spine = "") as -> by (destruct (decide (spine = "")); [done|by destruct Hs]).
        exists "", "". split_and!; try done.
    + exists "", "". split_and!; try done.
      intros _ p _ Hp. by destruct (Hsw p).
Qed.
End Response.
End Dsx.
