(* ===== verification/Imds.v ===== *)
(** * Metadata of nodes: [internal/exec/exec.go] and the [imds.go] files of
    [pkg/providers/aws], [gcp], [nebius], [oci] and [nscale]

    The instance ID and the region of a node come from the metadata server of
    its cloud, which only the node can ask: [pdsh] runs [curl] on the nodes, and
    a broker on a node asks the server directly. *)

From S2P Require Import Prelude GoStrings Cluset Topology K8sEngine Providers Gcp Nscale Oci.
Open Scope Z_scope.

Module Imds.
Import Topo.

(** ** Commands: [exec.go] *)

Definition pdshCommandTimeout : string := "10".

Definition space (c : ascii) : ascii := if decide (c = nl) then " "%char else c.
Fixpoint oneLine (s : string) : string := match s with "" => "" | String c s => String (space c) (oneLine s) end.

(** What a run of a command leaves: its output, its error output, and the error
    of the run. *)
Record outcome := MkOutcome { stdout : string; stderr : string; runErr : option string }.

Section Exec.
Context {W : Type}.
(** The operating system; the error of a context that is done. *)
Context (run : string → list string → W → W * outcome) (ctxErr : W → option string).

Definition Exec (exe : string) (args : list string) (w : W) : W * result string string :=
  let '(w, o) := run exe args w in
  (w, match runErr o with
      | Some err => Err (exe +:+ " failed: " +:+ oneLine (stderr o) +:+ " : " +:+ err)
      | None => Ok (stdout o)
      end).

Definition pdshArgs (head opts nodes : list string) (cmd : string) : list string :=
  head ++ opts ++ ["-w"; join "," (Cluset.Compact nodes); cmd].

Definition Pdsh (cmd : string) (nodes opts : list string) (w : W) : W * result string string :=
  Exec "pdsh" (pdshArgs ["-R"; "ssh"] opts nodes cmd) w.

(** Output of some nodes is kept although others failed. *)
Definition PdshTolerant (cmd : string) (nodes opts : list string) (w : W) : W * result string string :=
  let '(w, o) := run "pdsh" (pdshArgs ["-R"; "ssh"; "-S"; "-u"; pdshCommandTimeout] opts nodes cmd) w in
  (w, match runErr o with
      | None => Ok (stdout o)
      | Some err =>
          match ctxErr w with
          | Some e => Err e
          | None =>
              if decide (stdout o ≠ "") then Ok (stdout o)
              else Err ("pdsh failed: " +:+ oneLine (stderr o) +:+ " : " +:+ err)
          end
      end).
End Exec.

(** ** The servers *)

Definition dquote (s : string) : string := String "034" (s +:+ String "034" "").

Definition aws_IMDSURL : string := "http://169.254.169.254/latest".
Definition aws_IMDSTokenURL : string := aws_IMDSURL +:+ "/api/token".
Definition aws_IMDSInstanceURL : string := aws_IMDSURL +:+ "/meta-data/instance-id".
Definition aws_IMDSRegionURL : string := aws_IMDSURL +:+ "/meta-data/placement/region".
Definition aws_IMDSTokenHeaderKey : string := "X-aws-ec2-metadata-token-ttl-seconds".
Definition aws_IMDSTokenHeaderVal : string := "60".
Definition aws_IMDSHeaderKey : string := "X-aws-ec2-metadata-token".
Definition makeHeader (name val : string) : string := name +:+ ": " +:+ val.
Definition aws_imdsCmd (url : string) : string :=
  "TOKEN=$(curl -s -X PUT -H " +:+ dquote (makeHeader aws_IMDSTokenHeaderKey aws_IMDSTokenHeaderVal) +:+ " " +:+ aws_IMDSTokenURL +:+
  "); echo $(curl -s -H " +:+ dquote (makeHeader aws_IMDSHeaderKey "$TOKEN") +:+ " " +:+ url +:+ ")".

Definition gcp_IMDSURL : string := "http://metadata.google.internal/computeMetadata/v1".
Definition gcp_IMDSInstanceURL : string := gcp_IMDSURL +:+ "/instance/id".
Definition gcp_IMDSRegionURL : string := gcp_IMDSURL +:+ "/instance/zone".
Definition gcp_IMDSHeader : gmap string string := {[ "Metadata-Flavor" := "Google" ]}.
Definition gcp_pdshCmd (url : string) : string := "echo $(curl -s -H " +:+ dquote "Metadata-Flavor: Google" +:+ " " +:+ url +:+ ")".

Definition nebius_IMDSURL : string := "http://metadata.nebius.internal/v1".
Definition nebius_IMDSInstanceURL : string := nebius_IMDSURL +:+ "/instance-data".
Definition nebius_IMDSInstanceIDURL : string := nebius_IMDSInstanceURL +:+ "/id".
Definition nebius_IMDSParentIDURL : string := nebius_IMDSInstanceURL +:+ "/parent_id".
Definition nebius_IMDSRegionURL : string := nebius_IMDSInstanceURL +:+ "/region".
Definition nebius_IMDSTokenURL : string := nebius_IMDSURL +:+ "/iam/sa/token/access_token".
Definition nebius_IMDSHeader : gmap string string := {[ "Metadata" := "true" ]}.
Definition nebius_imdsCmd (url : string) : string :=
  "v=$(curl -fsS -H " +:+ dquote "Metadata: true" +:+ " " +:+ url +:+ ") && printf '%s\n' " +:+ dquote "$v".

Definition oci_IMDSURL : string := "http://169.254.169.254/opc/v2".
Definition oci_IMDSInstanceURL : string := oci_IMDSURL +:+ "/instance/id".
Definition oci_IMDSRegionURL : string := oci_IMDSURL +:+ "/instance/region".
Definition oci_IMDSTopologyURL : string := oci_IMDSURL +:+ "/host/rdmaTopologyData".
Definition oci_IMDSHeader : gmap string string := {[ "Authorization" := "Bearer Oracle" ]}.
Definition oci_pdshCmd (url : string) : string :=
  "echo $(curl -s -H " +:+ dquote "Authorization: Bearer Oracle" +:+ " -L " +:+ url +:+ ")".

Definition nscale_pdshCmd (url : string) : string :=
  "res=$(curl -fsS -- " +:+ Nscale.shellQuote url +:+ ") && echo " +:+ dquote "$res".

(** ** Sweeps over the nodes *)

Section Sweep.
Context `{RangeOrder} {W : Type} (run : string → list string → W → W * outcome) (ctxErr : W → option string).

Definition scanErr : string := "bufio.Scanner: token too long".
Definition ofScan {A} (r : option A) : result string A := match r with Some a => Ok a | None => Err scanErr end.

Definition sweep {A} (parse : string → result string A) (cmd : string) (nodes : list string) (w : W) : W * result string A :=
  let '(w, r) := Pdsh run cmd nodes [] w in (w, out ← r; parse out).

(** [instanceToNodeMap] and [getRegions], given the command of the cloud. *)
Definition instanceToNodeMap (cmd : string) : list string → W → W * result string (gmap string string) :=
  sweep (λ out, ofScan (Providers.ParseInstanceOutput out)) cmd.
Definition getRegions (cmd : string) : list string → W → W * result string (gmap string string) :=
  sweep (λ out, ofScan (Providers.ParsePdshOutput out true)) cmd.

(** [providers.GetNodeInstancesByRegion] *)
Definition byRegion (instanceToNode nodeToRegion : list string → W → W * result string (gmap string string))
    (nodes : list string) (w : W) : W * result string (list ComputeInstances) :=
  match instanceToNode nodes w with
  | (w, Err e) => (w, Err e)
  | (w, Ok i2n) =>
      match nodeToRegion nodes w with
      | (w, Err e) => (w, Err e)
      | (w, Ok nodeRegions) => (w, Ok (Providers.GroupByRegion i2n nodeRegions))
      end
  end.

Definition aws_GetNodeInstances : list string → W → W * result string (list ComputeInstances) :=
  byRegion (instanceToNodeMap (aws_imdsCmd aws_IMDSInstanceURL)) (getRegions (aws_imdsCmd aws_IMDSRegionURL)).
Definition gcp_getRegions (nodes : list string) (w : W) : W * result string (gmap string string) :=
  let '(w, r) := getRegions (gcp_pdshCmd gcp_IMDSRegionURL) nodes w in (w, res ← r; Ok (Gcp.zonesToRegions res)).
Definition gcp_GetNodeInstances : list string → W → W * result string (list ComputeInstances) :=
  byRegion (instanceToNodeMap (gcp_pdshCmd gcp_IMDSInstanceURL)) gcp_getRegions.
Definition nebius_GetNodeInstances : list string → W → W * result string (list ComputeInstances) :=
  byRegion (instanceToNodeMap (nebius_imdsCmd nebius_IMDSInstanceIDURL)) (getRegions (nebius_imdsCmd nebius_IMDSRegionURL)).
Definition oci_GetNodeInstances : list string → W → W * result string (list ComputeInstances) :=
  byRegion (instanceToNodeMap (oci_pdshCmd oci_IMDSInstanceURL)) (getRegions (oci_pdshCmd oci_IMDSRegionURL)).
Definition oci_getHostTopology (unmarshal : string → option Oci.topologyData) :
    list string → W → W * result string (gmap string Oci.topologyData) :=
  sweep (λ out, ofScan (Oci.parseTopologyOutput unmarshal (scan_lines out))) (oci_pdshCmd oci_IMDSTopologyURL).

(** [scan]: a scanner for lines of a mebibyte. *)
Definition nscale_fetchIMDSMetadata (scan : string → option (list string)) (unmarshal : string → option Nscale.imdsMeta)
    (nodes : list string) (imdsURL : string) (w : W) : W * result string (gmap string Nscale.imdsMeta) :=
  let '(w, r) := PdshTolerant run ctxErr (nscale_pdshCmd imdsURL) nodes [] w in
  (w, out ← r; map_err (λ e, "failed to scan IMDS output: " +:+ e) (ofScan (Nscale.parseIMDSOutput unmarshal (scan out)))).
End Sweep.

(** ** Annotations of a node *)

Section Broker.
Context {W : Type}.
(** [providers.HttpReq]: the method, the URL, the headers. *)
Context (HttpReq : string → string → gmap string string → W → W * result string string).

Definition annotations (instance region : string) : gmap string string :=
  {[ K8sEngine.KeyNodeInstance := instance; K8sEngine.KeyNodeRegion := region ]}.

(** The instance and the region by two requests, with the names the error
    messages give to them. *)
Definition twoRequests (names : string * string) (instanceURL regionURL : string) (header : gmap string string) (w : W) :
    W * result string (string * string) :=
  match HttpReq "GET" instanceURL header w with
  | (w, Err e) => (w, Err ("failed to execute " +:+ names.1 +:+ " IMDS request: " +:+ e))
  | (w, Ok instance) =>
      match HttpReq "GET" regionURL header w with
      | (w, Err e) => (w, Err ("failed to execute " +:+ names.2 +:+ " IMDS request: " +:+ e))
      | (w, Ok region) => (w, Ok (instance, region))
      end
  end.

Definition aws_GetNodeAnnotations (w : W) : W * result string (gmap string string) :=
  match HttpReq "PUT" aws_IMDSTokenURL {[ aws_IMDSTokenHeaderKey := aws_IMDSTokenHeaderVal ]} w with
  | (w, Err e) => (w, Err ("failed to execute token request: " +:+ e))
  | (w, Ok token) =>
      let '(w, r) := twoRequests ("instance-id", "region") aws_IMDSInstanceURL aws_IMDSRegionURL {[ aws_IMDSHeaderKey := token ]} w in
      (w, ir ← r; Ok (annotations ir.1 ir.2))
  end.

Definition gcp_GetNodeAnnotations (w : W) : W * result string (gmap string string) :=
  let '(w, r) := twoRequests ("instance-id", "region") gcp_IMDSInstanceURL gcp_IMDSRegionURL gcp_IMDSHeader w in
  (w, ir ← r; Ok (annotations ir.1 (Gcp.convertRegion ir.2))).

Definition oci_GetNodeAnnotations (w : W) : W * result string (gmap string string) :=
  let '(w, r) := twoRequests ("instance/id", "instance/region") oci_IMDSInstanceURL oci_IMDSRegionURL oci_IMDSHeader w in
  (w, ir ← r; Ok (annotations ir.1 ir.2)).

(** [unmarshal]: the ID and the region of the instance data. *)
Definition nebius_GetNodeAnnotations (unmarshal : string → result string (string * string)) (w : W) :
    W * result string (gmap string string) :=
  let '(w, r) := HttpReq "GET" nebius_IMDSInstanceURL nebius_IMDSHeader w in
  (w, data ← r;
      metadata ← map_err (λ e, "failed to parse instance data IMDS response: " +:+ e) (unmarshal data);
      Ok (annotations (trim_space metadata.1) (trim_space metadata.2))).
Definition nebius_getParentID : W → W * result string string := HttpReq "GET" nebius_IMDSParentIDURL nebius_IMDSHeader.
Definition nebius_getAccessToken : W → W * result string string := HttpReq "GET" nebius_IMDSTokenURL nebius_IMDSHeader.

Inductive nscaleErr := ErrParam (e : Providers.paramErr) | ErrIMDS (msg : string).

Definition nscale_GetNodeAnnotations (unmarshal : string → result string Nscale.imdsMeta) (params : gmap string Providers.value)
    (w : W) : W * result nscaleErr (gmap string string) :=
  match Providers.GetIMDSURL params with
  | Err e => (w, Err (ErrParam e))
  | Ok url =>
      let '(w, r) := HttpReq "GET" (if decide (url = "") then Nscale.IMDSURL else url) ∅ w in
      (w, data ← map_err (λ e, ErrIMDS ("failed to execute IMDS request: " +:+ e)) r;
          m ← map_err (λ e, ErrIMDS ("failed to parse IMDS response: " +:+ e)) (unmarshal data);
          if decide (Nscale.ServerID m = "") then Err (ErrIMDS ("missing " +:+ dquote "serverID" +:+ " in IMDS response"))
          else
            let a : gmap string string := {[ K8sEngine.KeyNodeInstance := Nscale.ServerID m ]} in
            Ok (if decide (Nscale.RegionID m = "") then a else <[K8sEngine.KeyNodeRegion := Nscale.RegionID m]> a))
  end.
End Broker.

(** ** What the nodes print *)

(** The output of [pdsh]: a line per node. *)
Definition row (p : string * string) : string := p.1 +:+ ": " +:+ p.2.
Fixpoint printed (l : list (string * string)) : string :=
  match l with [] => "" | p :: l => row p +:+ String nl (printed l) end.

Definition plain (s : string) : Prop :=
  contains_chr nl s = false ∧ contains_chr ":" s = false ∧ contains_chr "013" s = false.
Definition readable (p : string * string) : Prop :=
  plain p.1 ∧ plain p.2 ∧ Z.of_nat (String.length (row p)) < maxTokenSize.

Lemma get_contains c s : ∀ n, contains_chr c s = false → String.get n s ≠ Some c.
Proof.
  induction s as [|c' s IH]; simpl; intros n; [by destruct n|]. intros [Hc Hs]%orb_false_iff.
  apply bool_decide_eq_false in Hc. destruct n; [congruence|by apply IH].
Qed.

Lemma row_chars c p : c ≠ ":"%char → c ≠ " "%char → contains_chr c p.1 = false → contains_chr c p.2 = false →
  contains_chr c (row p) = false.
Proof.
  intros H1 H2 Ha Hb. unfold row. rewrite !contains_chr_app, Ha, Hb. simpl. rewrite !orb_false_r.
  by rewrite !bool_decide_eq_false_2.
Qed.

Lemma drop_cr_id s : contains_chr "013" s = false → drop_cr s = s.
Proof.
  intros Hs. unfold drop_cr. destruct (String.length s) as [|n]; [done|].
  by rewrite bool_decide_eq_false_2 by (by apply get_contains).
Qed.

Lemma split_printed l : Forall readable l → split nl (printed l) = (row <$> l) ++ [""].
Proof.
  induction 1 as [|p l ((Ha & _) & (Hb & _) & _) _ IH]; [done|]. cbn [printed]. rewrite split_app by by apply row_chars.
  by rewrite IH.
Qed.

Lemma scan_printed l : Forall readable l → scan_lines (printed l) = Some (row <$> l).
Proof.
  intros Hl. unfold scan_lines. rewrite split_printed, last_snoc, decide_True, removelast_last by done.
  destruct (existsb _ (row <$> l)) eqn:He.
  - apply existsb_exists in He as (s & Hs & Hlen). apply list_elem_of_In, list_elem_of_fmap in Hs as (p & -> & Hp).
    rewrite Forall_forall in Hl. destruct (Hl p Hp) as (_ & _ & Hlt). lia.
  - f_equal. rewrite <-(list_fmap_id (row <$> l)) at 2. apply list_fmap_ext. intros i s Hi.
    apply list_elem_of_lookup_2, list_elem_of_fmap in Hi as (p & -> & Hp). rewrite Forall_forall in Hl.
    destruct (Hl p Hp) as ((_ & _ & Ha) & (_ & _ & Hb) & _). by apply drop_cr_id, row_chars.
Qed.

Lemma splitColon_plain b : contains_chr ":" b = false → Providers.splitColon b = [b].
Proof.
  induction b as [|c b IH]; [done|]. intros [Hc Hb]%orb_false_iff. apply bool_decide_eq_false in Hc.
  specialize (IH Hb). destruct c as [[] [] [] [] [] [] [] []]; simpl; (by rewrite IH) || by destruct Hc.
Qed.

Lemma splitColon_row p : contains_chr ":" p.1 = false → contains_chr ":" p.2 = false →
  Providers.splitColon (row p) = [p.1; p.2].
Proof.
  destruct p as [a b]. simpl. intros Ha Hb. unfold row. simpl. induction a as [|c a IH]; [by simpl; rewrite splitColon_plain|].
  apply orb_false_iff in Ha as [Hc Ha]. apply bool_decide_eq_false in Hc. specialize (IH Ha). cbn [String.append].
  destruct c as [[] [] [] [] [] [] [] []]; cbn [Providers.splitColon]; (by rewrite IH) || by destruct Hc.
Qed.

(** An association list read into a map, if no key is bound twice. *)
Lemma collect_lookup {K} `{Countable K} {A V} (key : A → K) (val : A → V) l : ∀ m : gmap K V, NoDup (key <$> l) →
  (∀ k, k ∈ key <$> l → m !! k = None) →
  ∀ k v, foldl (λ m a, <[key a := val a]> m) m l !! k = Some v ↔ m !! k = Some v ∨ ∃ a, a ∈ l ∧ k = key a ∧ v = val a.
Proof.
  induction l as [|a l IH]; intros m; csimpl; [set_solver|]. intros [Hk Hnd]%NoDup_cons Hm k v. rewrite IH; [|done|].
  - rewrite lookup_insert. specialize (Hm (key a) ltac:(left)). case_decide as E.
    + subst k. rewrite Hm. set_solver.
    + set_solver.
  - intros k' Hk'. rewrite lookup_insert_ne by (intros <-; done). apply Hm. by right.
Qed.

(** What the nodes print is read back: from node to value, or from value to
    node. *)
Lemma ParsePdshOutput_printed l (direct : bool) : Forall readable l → NoDup (if direct then l.*1 else l.*2) →
  ∃ m, Providers.ParsePdshOutput (printed l) direct = Some m ∧
    ∀ k v, m !! k = Some v ↔ (if direct then (k, v) else (v, k)) ∈ l.
Proof.
  intros Hl Hnd. unfold Providers.ParsePdshOutput. rewrite scan_printed by done. cbn [mbind option_bind].
  set (key := if direct then fst else snd : string * string → string).
  set (val := if direct then snd else fst : string * string → string).
  eexists. split; [done|]. intros k v. rewrite foldl_fmap.
  assert (∀ m0 : gmap string string,
    foldl (λ x y, match Providers.splitColon (row y) with
                  | [node; attr] => if direct then <[node := attr]> x else <[attr := node]> x
                  | _ => x end) m0 l = foldl (λ m a, <[key a := val a]> m) m0 l) as ->.
  { clear Hnd. induction Hl as [|p l ((_ & Ha & _) & (_ & Hb & _) & _) _ IH]; intros m0; [done|]. simpl.
    rewrite splitColon_row, IH by done. by unfold key, val; destruct direct. }
  rewrite collect_lookup; [|by unfold key; destruct direct|by intros; apply lookup_empty].
  rewrite lookup_empty. unfold key, val. destruct direct; split.
  - by intros [|([a b] & Hp & -> & ->)].
  - intros Hp. right. by exists (k, v).
  - by intros [|([a b] & Hp & -> & ->)].
  - intros Hp. right. by exists (v, k).
Qed.

(** ** Instances by region *)

Section Placed.
Context `{RangeOrder} {W : Type} (run : string → list string → W → W * outcome).

Definition answer (cmd : string) (nodes : list string) (w : W) : W * outcome :=
  run "pdsh" (pdshArgs ["-R"; "ssh"] [] nodes cmd) w.

Lemma sweep_printed (direct : bool) cmd nodes w w' l err :
  answer cmd nodes w = (w', MkOutcome (printed l) err None) →
  Forall readable l → NoDup (if direct then l.*1 else l.*2) →
  ∃ m, sweep run (λ out, ofScan (Providers.ParsePdshOutput out direct)) cmd nodes w = (w', Ok m) ∧
    ∀ k v, m !! k = Some v ↔ (if direct then (k, v) else (v, k)) ∈ l.
Proof.
  unfold answer. intros Hrun Hl Hnd. destruct (ParsePdshOutput_printed l direct Hl Hnd) as (m & Hm & Hspec).
  exists m. split; [|exact Hspec]. unfold sweep, Pdsh, Exec. rewrite Hrun. simpl. by rewrite Hm.
Qed.

(** A sweep that fails: [pdsh] does, or a line is too long to be scanned. *)
Definition failed (o : outcome) : option string :=
  match runErr o with
  | Some msg => Some ("pdsh failed: " +:+ oneLine (stderr o) +:+ " : " +:+ msg)
  | None => match scan_lines (stdout o) with None => Some scanErr | Some _ => None end
  end.

Lemma sweep_failed (direct : bool) cmd nodes w :
  let '(w', o) := answer cmd nodes w in
  match failed o with
  | Some e => sweep run (λ out, ofScan (Providers.ParsePdshOutput out direct)) cmd nodes w = (w', Err e)
  | None => ∃ m, sweep run (λ out, ofScan (Providers.ParsePdshOutput out direct)) cmd nodes w = (w', Ok m)
  end.
Proof.
  unfold sweep, Pdsh, Exec, answer, failed. destruct (run "pdsh" _ w) as [w' [out err [msg|]]]; [done|]. simpl.
  unfold Providers.ParsePdshOutput. destruct (scan_lines out); simpl; [by eexists|done].
Qed.

(** C39: What the nodes print decides the instances.  A first sweep asks the
    nodes for their instance IDs; when [pdsh] fails, or what it printed cannot be
    scanned, that error is returned and nothing else is asked.  Otherwise a second
    sweep asks for the regions, and when it fails its error is returned.  When the
    first printed the instance ID of every node it reached and the second the
    region, in lines that can be read, and no ID and no node is printed twice, the
    provider returns one entry per region, and the entry of a region maps an ID to
    a node exactly when the node printed both. *)
Theorem metadata_sweep c1 c2 nodes w :
  let result := byRegion (instanceToNodeMap run c1) (getRegions run c2) nodes w in
  let '(w1, o1) := answer c1 nodes w in
  match failed o1 with
  | Some e => result = (w1, Err e)
  | None =>
      let '(w2, o2) := answer c2 nodes w1 in
      match failed o2 with
      | Some e => result = (w2, Err e)
      | None => ∃ cis, result = (w2, Ok cis) ∧ NoDup (Region <$> cis) ∧
          ∀ ids regions, stdout o1 = printed ids → stdout o2 = printed regions →
            Forall readable ids → NoDup ids.*2 → Forall readable regions → NoDup regions.*1 →
            (∀ ci id node, ci ∈ cis → ci_Instances ci !! id = Some node ↔ (node, id) ∈ ids ∧ (node, Region ci) ∈ regions) ∧
            (∀ id node region, (node, id) ∈ ids → (node, region) ∈ regions →
               ∃ ci, ci ∈ cis ∧ Region ci = region ∧ ci_Instances ci !! id = Some node)
      end
  end.
Proof.
  intros result. unfold result, byRegion, instanceToNodeMap, getRegions, Providers.ParseInstanceOutput.
  pose proof (sweep_failed false c1 nodes w) as H1. destruct (answer c1 nodes w) as [w1 o1] eqn:Hrun1.
  destruct (failed o1) as [e|] eqn:Hf1; [by rewrite H1|]. destruct H1 as [i2n Hi]. rewrite Hi.
  pose proof (sweep_failed true c2 nodes w1) as H2. destruct (answer c2 nodes w1) as [w2 o2] eqn:Hrun2.
  destruct (failed o2) as [e|] eqn:Hf2; [by rewrite H2|]. destruct H2 as [n2r Hr]. rewrite Hr.
  destruct (Providers.group_by_region_partitions n2r i2n) as (Hnd & Hin & Hall).
  eexists. split; [done|]. split; [exact Hnd|]. intros ids regions Hout1 Hout2 Hids Hnd1 Hregions Hnd2.
  destruct o1 as [out1 err1 r1], o2 as [out2 err2 r2]. simpl in Hout1, Hout2. subst out1 out2.
  destruct r1; [done|]. destruct r2; [done|].
  destruct (sweep_printed false _ _ _ _ _ _ Hrun1 Hids Hnd1) as (i2n' & Hi' & Hi2n). rewrite Hi in Hi'. injection Hi' as <-.
  destruct (sweep_printed true _ _ _ _ _ _ Hrun2 Hregions Hnd2) as (n2r' & Hr' & Hn2r). rewrite Hr in Hr'. injection Hr' as <-.
  split.
  - intros ci id node Hci. by rewrite (Hin ci Hci), Hi2n, Hn2r.
  - intros id node region Hid Hregion. apply (Hall id node region); [by apply Hi2n|by apply Hn2r].
Qed.

(** A tolerant sweep gives what was printed, whenever the run succeeded or the
    caller is still there and something was printed; it fails otherwise. *)
Theorem tolerant_keeps_output ctxErr cmd nodes opts w :
  let '(w', o) := run "pdsh" (pdshArgs ["-R"; "ssh"; "-S"; "-u"; pdshCommandTimeout] opts nodes cmd) w in
  PdshTolerant run ctxErr cmd nodes opts w =
    (w', if decide (runErr o = None ∨ (ctxErr w' = None ∧ stdout o ≠ "")) then Ok (stdout o)
         else Err (default ("pdsh failed: " +:+ oneLine (stderr o) +:+ " : " +:+ default "" (runErr o)) (ctxErr w'))).
Proof.
  unfold PdshTolerant. destruct (run "pdsh" _ w) as [w' [out serr [msg|]]];
    cbn [runErr stdout stderr default from_option id]; [|by rewrite decide_True by by left].
  destruct (ctxErr w') as [e|]; [rewrite decide_False by naive_solver; done|].
  case_decide as Ho; [rewrite decide_True by naive_solver|rewrite decide_False by naive_solver]; done.
Qed.
End Placed.

(** ** Witness *)

(** Three nodes in two regions; one of them does not know its instance ID. *)
Definition w_ids : list (string * string) := [("n1", "i-1"); ("n2", "i-2")].
Definition w_regions : list (string * string) := [("n1", "east"); ("n2", "west"); ("n3", "west")].
Definition w_run (exe : string) (args : list string) (w : nat) : nat * outcome :=
  (S w, MkOutcome (printed (if decide (w = O) then w_ids else w_regions)) "" None).

Lemma readable_all l : forallb (λ p : string * string,
    forallb (λ c, negb (contains_chr c p.1) && negb (contains_chr c p.2)) [nl; ":"%char; "013"%char] &&
    (Z.of_nat (String.length (row p)) <? maxTokenSize)) l = true → Forall readable l.
Proof.
  intros Hl. apply Forall_forall. intros p Hp. apply list_elem_of_In in Hp. rewrite forallb_forall in Hl. specialize (Hl p Hp).
  simpl in Hl. rewrite !andb_true_iff, !negb_true_iff in Hl. destruct Hl as [((H1 & H2) & (H3 & H4) & (H5 & H6) & _) Hlen].
  split_and!; [by unfold plain|by unfold plain|lia].
Qed.

(** The first sweep cannot run. *)
Definition w_down (exe : string) (args : list string) (w : nat) : nat * outcome :=
  (S w, MkOutcome "" ("no" +:+ newline) (Some "exit status 1")).

Lemma metadata_sweep_witness :
  aws_GetNodeInstances w_down ["n1"] 0%nat = (1%nat, Err "pdsh failed: no  : exit status 1") ∧
  ∃ cis,
    aws_GetNodeInstances w_run ["n1"; "n2"; "n3"] 0%nat = (2%nat, Ok cis) ∧
    (∃ ci, ci ∈ cis ∧ Region ci = "west" ∧ ci_Instances ci !! "i-2" = Some "n2").
Proof.
  split.
  { exact (metadata_sweep w_down (aws_imdsCmd aws_IMDSInstanceURL) (aws_imdsCmd aws_IMDSRegionURL) ["n1"] 0%nat). }
  destruct (metadata_sweep w_run (aws_imdsCmd aws_IMDSInstanceURL) (aws_imdsCmd aws_IMDSRegionURL) ["n1"; "n2"; "n3"] 0%nat)
    as (cis & Hrun & _ & Hall).
  destruct (Hall w_ids w_regions) as [_ Hplaced]; [reflexivity|reflexivity| | | | |].
  - apply readable_all. vm_compute. reflexivity.
  - apply (bool_decide_unpack _). vm_compute. exact I.
  - apply readable_all. vm_compute. reflexivity.
  - apply (bool_decide_unpack _). vm_compute. exact I.
  - exists cis. split; [exact Hrun|]. apply (Hplaced "i-2" "n2" "west"); apply (bool_decide_unpack _); vm_compute; exact I.
Defined.
End Imds.
