(* ===== verification/Broker.v ===== *)
(** * The data broker of a node: [cmd/node-data-broker/main.go]

    The broker runs once on every node: it asks the provider for the instance
    and the region of its node and writes them to the annotations of the node
    in Kubernetes.  Others write to the same object at the same time. *)

From S2P Require Import Prelude GoStrings K8sEngine Accelerator Providers Nscale IbProviders Dra Crusoe Imds.
Open Scope Z_scope.

(** A node as the API server stores it; each write gives it a new version. *)
Record NodeObject := MkNodeObject {
  o_Name : string;
  ResourceVersion : Z;
  ProviderID : string;
  o_Labels : gmap string string;
  o_Annotations : option (gmap string string)
}.

(** The Kubernetes API as the broker uses it.  [elsewhere w w']: what others do
    leads from [w] to [w'].  A version tells the states of a node apart, and an
    update succeeds only for the version that is stored. *)
Class NodeApi (W : Type) := {
  nodeObject : W → string → result string NodeObject;
  updateNode : W → NodeObject → W * option string;
  nodes : W → gmap string NodeObject;
  elsewhere : W → W → Prop;
  nodeObject_stored : ∀ w name node, nodeObject w name = Ok node → nodes w !! name = Some node ∧ o_Name node = name;
  updateNode_stored : ∀ w node w',
    updateNode w node = (w', None) →
    ∃ cur version, nodes w !! o_Name node = Some cur ∧ ResourceVersion cur = ResourceVersion node ∧
      nodes w' = <[o_Name node := MkNodeObject (o_Name node) version (ProviderID node) (o_Labels node) (o_Annotations node)]>
                   (nodes w);
  version_identifies : ∀ w w' name a b,
    elsewhere w w' → nodes w !! name = Some a → nodes w' !! name = Some b → ResourceVersion a = ResourceVersion b → a = b
}.

Module Broker.

(** ** Configuration *)

(** [P]: decoded parameters. *)
Record nodeDataBrokerConfig {P : Type} := MkConfig {
  Name : string;
  Params : P;
  HealthzPort : Z
}.
Arguments nodeDataBrokerConfig : clear implicits.
#[global] Arguments MkConfig {P}.

Inductive configErr :=
| ReadErr (path msg : string)
| DecodeErr (path msg : string)
| NoProvider
| NoPort.

Definition newNodeDataBrokerConfig {P} (ReadFile : string → result string string)
    (unmarshal : string → result string (nodeDataBrokerConfig P)) (path : string) :
    result configErr (nodeDataBrokerConfig P) :=
  data ← map_err (ReadErr path) (ReadFile path);
  config ← map_err (DecodeErr path) (unmarshal data);
  if decide (Name config = "") then Err NoProvider
  else if HealthzPort config <=? 0 then Err NoPort
  else Ok config.

(** ** Lambda: [pkg/providers/lambdai/k8s.go] *)

Definition providerIDPrefix : string := "lambda://".
Definition regionLabelKey : string := "topology.kubernetes.io/region".

Inductive lambdaErr :=
| NodeErr (name msg : string)
| BadProviderID (name providerID : string)
| MissingRegion (name : string).

Definition lambdai_GetNodeAnnotations (get : string → result string NodeObject) (nodeName : string) :
    result lambdaErr (gmap string string) :=
  node ← map_err (NodeErr nodeName) (get nodeName);
  let instance := default "" (cut_prefix providerIDPrefix (ProviderID node)) in
  if decide (instance = "") then Err (BadProviderID nodeName (ProviderID node))
  else
    let region := default "" (o_Labels node !! regionLabelKey) in
    if decide (region = "") then Err (MissingRegion nodeName) else Ok (Imds.annotations instance region).

(** ** The annotations *)

Inductive brokerErr :=
| ErrIMDS (msg : string)
| ErrNscale (e : Imds.nscaleErr)
| ErrAccelerator (e : Accelerator.acceleratorErr)
| ErrLambda (e : lambdaErr)
| ErrNoProvider
| ErrUnsupported (name : string)
| ErrGet (name msg : string)
| ErrUpdate (msg : string).

Section Apply.
Context {W : Type} `{NodeApi W}.
(** [HttpReq] as in [Imds]; the instance data of Nebius and of nscale; the
    discoverer of accelerator domains on a node. *)
Context (HttpReq : string → string → gmap string string → W → W * result string string).
Context (nebius_data : string → result string (string * string)) (nscale_data : string → result string Nscale.imdsMeta).
Context {P : Type} (valuesOf : P → gmap string Providers.value).
Context (discoverer : P → result Accelerator.acceleratorErr Accelerator.Discoverer).

Definition imds (r : W * result string (gmap string string)) : W * result brokerErr (gmap string string) :=
  (r.1, map_err ErrIMDS r.2).

Definition getAnnotations (config : nodeDataBrokerConfig P) (nodeName : string) (w : W) :
    W * result brokerErr (gmap string string) :=
  let name := Name config in
  if decide (name = "aws") then imds (Imds.aws_GetNodeAnnotations HttpReq w)
  else if decide (name = "crusoe") then (w, Ok (Crusoe.GetNodeAnnotations nodeName))
  else if decide (name = "gcp") then imds (Imds.gcp_GetNodeAnnotations HttpReq w)
  else if decide (name = "oci") then imds (Imds.oci_GetNodeAnnotations HttpReq w)
  else if decide (name = "nebius") then imds (Imds.nebius_GetNodeAnnotations HttpReq nebius_data w)
  else if decide (name = "nscale") then
    let '(w, r) := Imds.nscale_GetNodeAnnotations HttpReq nscale_data (valuesOf (Params config)) w in (w, map_err ErrNscale r)
  else if decide (name = "k8s-node-labels") then (w, Ok (Accelerator.BaseKubernetesNodeAnnotations nodeName))
  else if decide (name = "dra") then (w, Ok (Dra.GetNodeAnnotations nodeName))
  else if decide (name = "infiniband-k8s") then
    (w, map_err ErrAccelerator (IbProviders.GetNodeAnnotations (discoverer (Params config)) nodeName))
  else if decide (name = "lambdai") then (w, map_err ErrLambda (lambdai_GetNodeAnnotations (nodeObject w) nodeName))
  else if decide (name = "") then (w, Err ErrNoProvider)
  else (w, Err (ErrUnsupported name)).

(** [maps.Copy] into the annotations, which are made if there are none. *)
Definition mergeNodeAnnotations (node : NodeObject) (annotations : gmap string string) : NodeObject :=
  MkNodeObject (o_Name node) (ResourceVersion node) (ProviderID node) (o_Labels node)
    (Some (annotations ∪ default ∅ (o_Annotations node))).

(** [apply], in two steps: what it reads, and what it writes. *)
Definition readNode (config : nodeDataBrokerConfig P) (nodeName : string) (w : W) : W * result brokerErr NodeObject :=
  match getAnnotations config nodeName w with
  | (w, Err e) => (w, Err e)
  | (w, Ok annotations) =>
      (w, node ← map_err (ErrGet nodeName) (nodeObject w nodeName); Ok (mergeNodeAnnotations node annotations))
  end.
Definition writeNode (node : NodeObject) (w : W) : W * result brokerErr () :=
  match updateNode w node with
  | (w, None) => (w, Ok ())
  | (w, Some msg) => (w, Err (ErrUpdate msg))
  end.
Definition apply (config : nodeDataBrokerConfig P) (nodeName : string) (w : W) : W * result brokerErr () :=
  match readNode config nodeName w with
  | (w, Err e) => (w, Err e)
  | (w, Ok node) => writeNode node w
  end.

(** ** What the broker writes *)

Lemma readNode_Ok config nodeName w w1 merged :
  readNode config nodeName w = (w1, Ok merged) →
  ∃ annotations node, getAnnotations config nodeName w = (w1, Ok annotations) ∧
    nodeObject w1 nodeName = Ok node ∧ merged = mergeNodeAnnotations node annotations.
Proof.
  unfold readNode. destruct (getAnnotations config nodeName w) as [w' [annotations|]] eqn:Ha; [|done].
  destruct (nodeObject w' nodeName) as [node|] eqn:Hn; [|done]. simpl. intros [= <- <-]. exists annotations, node.
  by split_and!.
Qed.

(** C36: The broker loses no update.  Whatever others do to the cluster between
    the moment the broker has read its node and the moment it writes it, a
    write that succeeds changes that node only, and of it only the annotations
    the provider gave, from the state the node has at that moment: other
    annotations, labels and nodes, also those written in the meantime, stay. *)
Theorem broker_loses_no_update config nodeName w w1 merged w2 w3 :
  readNode config nodeName w = (w1, Ok merged) → elsewhere w1 w2 → writeNode merged w2 = (w3, Ok ()) →
  ∃ annotations cur new,
    getAnnotations config nodeName w = (w1, Ok annotations) ∧
    nodes w2 !! nodeName = Some cur ∧ nodes w3 = <[nodeName := new]> (nodes w2) ∧
    o_Name new = nodeName ∧ ProviderID new = ProviderID cur ∧ o_Labels new = o_Labels cur ∧
    ∀ k, default ∅ (o_Annotations new) !! k =
           match annotations !! k with Some v => Some v | None => default ∅ (o_Annotations cur) !! k end.
Proof.
  intros (annotations & node & Ha & Hn & ->)%readNode_Ok Helse. unfold writeNode.
  destruct (updateNode w2 _) as [w' [msg|]] eqn:Hu; [done|]. intros [= <-].
  apply nodeObject_stored in Hn as [Hn Hname]. apply updateNode_stored in Hu as (cur & version & Hcur & Hv & Hw).
  simpl in *. subst nodeName. assert (node = cur) as -> by by eapply version_identifies.
  exists annotations, cur. eexists. split_and!; [done..|]. intros k. simpl. rewrite lookup_union.
  destruct (annotations !! k), (default ∅ (o_Annotations cur) !! k); done.
Qed.

(** A write after the node was changed fails. *)
Theorem stale_write_fails node w cur :
  nodes w !! o_Name node = Some cur → ResourceVersion cur ≠ ResourceVersion node →
  ∃ msg, (writeNode node w).2 = Err (ErrUpdate msg).
Proof.
  intros Hcur Hv. unfold writeNode. destruct (updateNode w node) as [w' [msg|]] eqn:Hu; [by exists msg|].
  apply updateNode_stored in Hu as (cur' & version & Hcur' & Hv' & _). congruence.
Qed.
End Apply.

(** ** A cluster in memory *)

Definition w_update (w : gmap string NodeObject) (node : NodeObject) : gmap string NodeObject * option string :=
  match w !! o_Name node with
  | Some cur =>
      if decide (ResourceVersion cur = ResourceVersion node)
      then (<[o_Name node := MkNodeObject (o_Name node) (ResourceVersion node + 1) (ProviderID node) (o_Labels node)
                               (o_Annotations node)]> w, None)
      else (w, Some "the object has been modified")
  | None => (w, Some "not found")
  end.
Definition w_get (w : gmap string NodeObject) (name : string) : result string NodeObject :=
  match w !! name with
  | Some node => if decide (o_Name node = name) then Ok node else Err "bad object"
  | None => Err "not found"
  end.
Definition w_elsewhere (w w' : gmap string NodeObject) : Prop :=
  map_Forall (λ name a, ∀ b, w' !! name = Some b → ResourceVersion a = ResourceVersion b → a = b) w.

#[refine, local] Instance w_api : NodeApi (gmap string NodeObject) :=
  {| nodeObject := w_get; updateNode := w_update; nodes w := w; elsewhere := w_elsewhere |}.
Proof.
  - intros w name node. unfold w_get. destruct (w !! name); [|done]. case_decide; [|done]. by intros [= <-].
  - intros w node w'. unfold w_update. destruct (w !! o_Name node) as [cur|] eqn:Hc; [|done]. case_decide; [|done].
    intros [= <-]. by exists cur, (ResourceVersion node + 1).
  - intros w w' name a b Hw Ha Hb. by apply (Hw name a Ha).
Defined.

Definition w_node (name : string) (version : Z) (annotations : option (gmap string string)) : NodeObject :=
  MkNodeObject name version "lambda://i-1" {[ regionLabelKey := "east" ]} annotations.
(** Between the read and the write another node gets an annotation. *)
Definition w_before : gmap string NodeObject :=
  {[ "n1" := w_node "n1" 7 (Some {[ "mine" := "1" ]}); "n2" := w_node "n2" 3 None ]}.
Definition w_between : gmap string NodeObject := <["n2" := w_node "n2" 4 (Some {[ "other" := "2" ]})]> w_before.
Definition w_config : nodeDataBrokerConfig () := MkConfig "lambdai" () 8080.
Definition w_merged : NodeObject :=
  mergeNodeAnnotations (w_node "n1" 7 (Some {[ "mine" := "1" ]})) (Imds.annotations "i-1" "east").

Lemma w_elsewhere_between : elsewhere w_before w_between.
Proof.
  intros name a Ha b Hb Hv. unfold w_between, w_before in *.
  rewrite lookup_insert_Some in Ha. destruct Ha as [[<- <-]|[Hne Ha]].
  - rewrite lookup_insert_ne, lookup_insert_eq in Hb by done. congruence.
  - apply lookup_singleton_Some in Ha as [<- <-]. rewrite lookup_insert_eq in Hb. injection Hb as <-. done.
Qed.

Lemma broker_loses_no_update_witness : ∃ w3 new,
  writeNode w_merged w_between = (w3, Ok ()) ∧ nodes w3 !! "n1" = Some new ∧
  default ∅ (o_Annotations new) !! "mine" = Some "1" ∧ nodes w3 !! "n2" = w_between !! "n2".
Proof.
  destruct (broker_loses_no_update (λ _ _ _ w, (w, Err "")) (λ _, Err "") (λ _, Err "") (λ _, ∅)
    (λ _, Err Accelerator.ErrNoSource) w_config "n1" w_before w_before w_merged w_between
    (writeNode w_merged w_between).1) as (a & cur & new & Ha & Hcur & Hw & _ & _ & _ & Hk).
  - reflexivity.
  - apply w_elsewhere_between.
  - reflexivity.
  - exists (writeNode w_merged w_between).1, new. split; [reflexivity|]. split; [rewrite Hw; apply lookup_insert_eq|]. split.
    + rewrite Hk. injection Ha as <-. injection Hcur as <-. reflexivity.
    + rewrite Hw. apply lookup_insert_ne. discriminate.
Defined.
End Broker.
