(* ===== verification/Health.v ===== *)
(** * The wait for the API: [pkg/node_observer/health.go]

    Before the node observer starts, it probes the health endpoint of the API
    until it answers, or until a minute has passed. *)

From S2P Require Import Prelude GoStrings.
Open Scope Z_scope.

Module Health.

(** In milliseconds. *)
Definition healthCheckInterval : Z := 2 * 1000.
Definition healthCheckTimeout : Z := 60 * 1000.

(** [url.URL]; [U]: scheme, user and host. *)
Record URL {U : Type} := MkURL { u_rest : U; u_Path : string; RawQuery : string; Fragment : string }.
Arguments URL : clear implicits.
#[global] Arguments MkURL {U}.

(** [Parse], [String]: of [net/url]. *)
Definition healthCheckURL {U} (Parse : string → result string (URL U)) (String : URL U → string) (generateTopologyURL : string) :
    result string string :=
  u ← Parse generateTopologyURL;
  Ok (String (MkURL (u_rest u) "/healthz" "" "")).

(** ** The loop *)

Section Wait.
Context {W : Type}.
(** One [DoRequest] that starts at a time: when it ends, and whether it
    succeeded.  [tie]: what [select] takes when the timer fires at the very
    moment the context ends. *)
Context (probe : Z → W → W * Z * bool) (tie : Z → bool).
(** The end of the context: of the timeout, or of the context given. *)
Context (interval deadline : Z).

Inductive outcome := Ready (at_ : Z) | NotReady (at_ : Z).

(** Returns the start of each probe. *)
Fixpoint waitLoop (fuel : nat) (now : Z) (w : W) : option (W * outcome * list Z) :=
  match fuel with
  | O => None
  | S fuel =>
      let '(w, later, ok) := probe now w in
      if ok then Some (w, Ready later, [now])
      else
        let fires := later + interval in
        if deadline <=? later then Some (w, NotReady later, [now])
        else if (fires <? deadline) || ((fires =? deadline) && tie later) then
          '(w, r, starts) ← waitLoop fuel fires w; Some (w, r, now :: starts)
        else Some (w, NotReady deadline, [now])
  end.
End Wait.

(** [start]: the present; [parent]: when the context given ends, if it does. *)
Definition waitForTopograph {W} (probe : Z → W → W * Z * bool) (tie : Z → bool) (interval timeout : Z) (parent : option Z)
    (start : Z) (w : W) : option (W * outcome * list Z) :=
  let deadline := Z.min (start + timeout) (default (start + timeout) parent) in
  waitLoop probe tie interval deadline (S (S (Z.to_nat ((deadline - start) / interval)))) start w.

(** [Start] of the controller: [run] is [Start] of the informer. *)
Definition Start {W} (probe : Z → W → W * Z * bool) (tie : Z → bool) (parent : option Z) (run : W → W * option string)
    (start : Z) (w : W) : option (W * option string) :=
  '(w, r, _) ← waitForTopograph probe tie healthCheckInterval healthCheckTimeout parent start w;
  Some (match r with
        | NotReady _ => (w, Some "topograph API not ready")
        | Ready _ => run w
        end).

(** ** The wait ends *)

Section Spec.
Context {W : Type} (probe : Z → W → W * Z * bool) (tie : Z → bool) (interval deadline : Z).
Context (Hinterval : 0 < interval).
Context (Hprobe : ∀ t w, t ≤ (probe t w).1.2).

(** Probes are [interval] apart and none starts after the deadline, but perhaps
    the first. *)
Lemma waitLoop_spec fuel : ∀ now w, (Z.to_nat ((deadline - now) / interval) + 2 ≤ fuel)%nat →
  ∃ w' r starts, waitLoop probe tie interval deadline fuel now w = Some (w', r, starts) ∧
    head starts = Some now ∧ Forall (λ t, t = now ∨ t ≤ deadline) starts ∧
    (∀ i a b, starts !! i = Some a → starts !! S i = Some b → a + interval ≤ b) ∧
    match r with
    | Ready _ => ∃ t w1, last starts = Some t ∧ (probe t w1).2 = true
    | NotReady t => deadline ≤ t
    end.
Proof.
  induction fuel as [|fuel IH]; intros now w Hf; [lia|]. simpl.
  pose proof (Hprobe now w) as Hp. destruct (probe now w) as [[w1 later] ok] eqn:Hrun. simpl in Hp.
  assert (∀ i a b, [now] !! i = Some a → [now] !! S i = Some b → a + interval ≤ b) as Hone by (intros [|i] a b; [done|done]).
  assert (Forall (λ t, t = now ∨ t ≤ deadline) [now]) as Hall by (constructor; [by left|constructor]).
  destruct ok.
  { exists w1, (Ready later), [now]. split_and!; [done..|]. exists now, w. by rewrite Hrun. }
  destruct (Z.leb_spec deadline later); [by exists w1, (NotReady later), [now]|].
  destruct ((later + interval <? deadline) || ((later + interval =? deadline) && tie later)) eqn:Hgo;
    [|by exists w1, (NotReady deadline), [now]].
  assert (later + interval ≤ deadline) as Hle.
  { apply orb_true_iff in Hgo as [?%Z.ltb_lt|[?%Z.eqb_eq _]%andb_true_iff]; lia. }
  destruct (IH (later + interval) w1) as (w' & r & starts & -> & Hhead & Hstarts & Hgap & Hr).
  { assert ((deadline - (later + interval)) / interval + 1 ≤ (deadline - now) / interval).
    { rewrite <-Z.div_add by lia. apply Z.div_le_mono; lia. }
    pose proof (Z.div_pos (deadline - (later + interval)) interval). lia. }
  simpl. exists w', r, (now :: starts). split_and!; [done|done| | |].
  - constructor; [by left|]. eapply Forall_impl; [exact Hstarts|]. intros t [->|]; by right.
  - intros [|i] a b; simpl.
    + intros [= <-]. destruct starts as [|t starts]; [done|]. injection Hhead as ->. intros [= <-]. lia.
    + apply Hgap.
  - destruct r; [|done]. destruct Hr as (t & w2 & Hlast & Ht). exists t, w2. split; [|done].
    destruct starts as [|t0 starts]; [done|]. by rewrite last_cons_cons.
Qed.
End Spec.

(** The k-th probe starts at least [k] intervals after the first. *)
Lemma gaps_sum interval (starts : list Z) now : head starts = Some now →
  (∀ i a b, starts !! i = Some a → starts !! S i = Some b → a + interval ≤ b) →
  ∀ i t, starts !! i = Some t → now + Z.of_nat i * interval ≤ t.
Proof.
  intros Hhead Hgap i. induction i as [|i IH]; intros t Ht.
  - destruct starts; [done|]. injection Hhead as ->. injection Ht as ->. lia.
  - destruct (starts !! i) as [a|] eqn:Ha.
    + pose proof (Hgap i a t Ha Ht). specialize (IH a eq_refl). lia.
    + apply lookup_ge_None in Ha. apply lookup_lt_Some in Ht. lia.
Qed.

(** The wait for the API ends.  Whatever the probes answer and however long
    they take, the wait returns; it reports success only right after a probe
    that succeeded, and failure only once the minute, or the context given, is
    over; probes start at least an interval apart and, but for the first, not
    after the deadline, so that there are at most thirty-one. *)
Theorem health_wait_ends {W} (probe : Z → W → W * Z * bool) tie parent start w :
  (∀ t w, t ≤ (probe t w).1.2) →
  ∃ w' r starts,
    waitForTopograph probe tie healthCheckInterval healthCheckTimeout parent start w = Some (w', r, starts) ∧
    (0 < length starts ≤ 31)%nat ∧
    match r with
    | Ready _ => ∃ t w1, last starts = Some t ∧ (probe t w1).2 = true
    | NotReady t => Z.min (start + healthCheckTimeout) (default (start + healthCheckTimeout) parent) ≤ t
    end.
Proof.
  intros Hprobe. unfold waitForTopograph. cbv zeta. set (deadline := Z.min _ _).
  destruct (waitLoop_spec probe tie healthCheckInterval deadline ltac:(done) Hprobe
    (S (S (Z.to_nat ((deadline - start) / healthCheckInterval)))) start w ltac:(lia))
    as (w' & r & starts & -> & Hhead & Hall & Hgap & Hr).
  exists w', r, starts. split; [done|]. split; [|done]. split; [destruct starts; [done|simpl; lia]|].
  destruct (last starts) as [t|] eqn:Hl; [|apply last_None in Hl; by subst starts].
  rewrite last_lookup in Hl. destruct (length starts) as [|n] eqn:Hn; [lia|]. simpl in Hl.
  pose proof (gaps_sum _ _ _ Hhead Hgap n t Hl) as Hsum. rewrite Forall_forall in Hall.
  assert (deadline ≤ start + 60000) by (unfold deadline, healthCheckTimeout; lia). unfold healthCheckInterval in Hsum.
  destruct (Hall t (list_elem_of_lookup_2 _ _ _ Hl)); lia.
Qed.

(** ** Witness *)

(** Every probe takes half a second; the third succeeds. *)
Definition w_probe (t : Z) (w : nat) : nat * Z * bool := (S w, t + 500, bool_decide (w = 2%nat)).

Lemma health_wait_ends_witness :
  ∃ w' r starts, waitForTopograph w_probe (λ _, true) healthCheckInterval healthCheckTimeout None 0 0%nat = Some (w', r, starts) ∧
    (0 < length starts ≤ 31)%nat ∧ r = Ready 5500 ∧ starts = [0; 2500; 5000].
Proof.
  destruct (health_wait_ends w_probe (λ _, true) None 0 0%nat) as (w' & r & starts & Hrun & Hlen & _).
  - intros t w. simpl. lia.
  - exists w', r, starts. split; [exact Hrun|]. split; [exact Hlen|]. vm_compute in Hrun. injection Hrun as <- <- <-. done.
Defined.
End Health.
