(* ===== verification/HttpReq.v ===== *)
(** * URLs of requests: [GetURL] and [GetRequestFunc] of
    [internal/httpreq/httpreq.go]

    The path segments are joined to the path of the base URL, the query
    parameters are set in its query. *)

From S2P Require Import Prelude GoStrings Queue.
Open Scope Z_scope.

Module HttpReq.

(** ** [path.Clean], [path.Join] *)

(** One element of a path; the elements so far, the last one first. *)
Definition cleanElem (rooted : bool) (out : list string) (elem : string) : list string :=
  if decide (elem = "" ∨ elem = ".") then out
  else if decide (elem = "..") then
    match out with
    | top :: rest => if decide (top = "..") then elem :: out else rest
    | [] => if rooted then [] else [elem]
    end
  else elem :: out.

Definition isRooted (path : string) : bool := has_prefix "/" path.
Definition elements (path : string) : list string :=
  reverse (foldl (cleanElem (isRooted path)) [] (split "/" path)).
Definition render (rooted : bool) (elems : list string) : string :=
  if rooted then "/" +:+ join "/" elems else if decide (elems = []) then "." else join "/" elems.

Definition Clean (path : string) : string := if decide (path = "") then "." else render (isRooted path) (elements path).
(** Empty elements at the front are dropped. *)
Fixpoint Join (elems : list string) : string :=
  match elems with
  | [] => ""
  | e :: rest => if decide (e = "") then Join rest else Clean (join "/" (e :: rest))
  end.

Example Clean_ex : (Clean "/a/./b//../c/", Clean "../a/../..", Clean "/..", Join [""; "v1"; "t"]) = ("/a/c", "../..", "/", "v1/t").
Proof. by vm_compute. Qed.

(** ** [url.Values] *)

Definition unreserved (c : ascii) : bool :=
  is_digit c || ((65 <=? chr_code c) && (chr_code c <=? 90)) || ((97 <=? chr_code c) && (chr_code c <=? 122)) ||
  bool_decide (c = "-"%char ∨ c = "_"%char ∨ c = "."%char ∨ c = "~"%char).
Definition upperhex (d : Z) : ascii := ascii_of_nat (Z.to_nat (if d <? 10 then 48 + d else 55 + d)).
Definition escapeChr (c : ascii) : string :=
  if unreserved c then String c ""
  else if bool_decide (c = " "%char) then "+"
  else String "%" (String (upperhex (chr_code c / 16)) (String (upperhex (chr_code c mod 16)) "")).
Fixpoint QueryEscape (s : string) : string :=
  match s with "" => "" | String c s => escapeChr c +:+ QueryEscape s end.

Definition unhex (c : ascii) : option Z :=
  if is_digit c then Some (digit_val c)
  else if (65 <=? chr_code c) && (chr_code c <=? 70) then Some (chr_code c - 55)
  else if (97 <=? chr_code c) && (chr_code c <=? 102) then Some (chr_code c - 87)
  else None.
Fixpoint QueryUnescape (s : string) : option string :=
  match s with
  | "" => Some ""
  | String "%" (String a (String b s)) =>
      match unhex a, unhex b with
      | Some a, Some b => String (ascii_of_nat (Z.to_nat (a * 16 + b))) <$> QueryUnescape s
      | _, _ => None
      end
  | String "%" _ => None
  | String "+" s => String " " <$> QueryUnescape s
  | String c s => String c <$> QueryUnescape s
  end.

Abbreviation Values := (gmap string (list string)).

Definition pair (kv : string * string) : string := QueryEscape kv.1 +:+ String "=" (QueryEscape kv.2).
Definition pairs (v : Values) : list (string * string) :=
  concat ((λ k, (λ x, (k, x)) <$> default [] (v !! k)) <$> sorted_keys v).
Definition Encode (v : Values) : string := join "&" (pair <$> pairs v).

(** [strings.Cut] by the equals sign. *)
Fixpoint cutEq (s : string) : string * string :=
  match s with
  | "" => ("", "")
  | String c s => if bool_decide (c = "="%char) then ("", s) else let '(k, v) := cutEq s in (String c k, v)
  end.
Definition readPair (s : string) : option (string * string) :=
  if decide (s = "") then None
  else if contains_chr ";" s then None
  else let '(k, v) := cutEq s in k ← QueryUnescape k; v ← QueryUnescape v; Some (k, v).
Definition Add (v : Values) (kv : string * string) : Values := <[kv.1 := default [] (v !! kv.1) ++ [kv.2]]> v.
(** [URL.Query]: what cannot be read is dropped. *)
Definition ParseQuery (s : string) : Values := foldl Add ∅ (omap readPair (split "&" s)).
Definition Set_ (v : Values) (kv : string * string) : Values := <[kv.1 := [kv.2]]> v.

(** ** [GetURL] *)

(** [U]: scheme, user, host and fragment. *)
Record URL {U : Type} := MkURL { u_rest : U; u_Path : string; RawQuery : string }.
Arguments URL : clear implicits.
#[global] Arguments MkURL {U}.

Section Requests.
Context `{RangeOrder} {U : Type} (Parse : string → result string (URL U)) (String : URL U → string).

Definition withPaths (u : URL U) (query : gmap string string) (paths : list string) : URL U :=
  MkURL (u_rest u) (Join (u_Path u :: paths))
    (if decide (query = ∅) then RawQuery u else Encode (foldl Set_ (ParseQuery (RawQuery u)) (range query))).

Definition GetURL (baseURL : string) (query : gmap string string) (paths : list string) : result Queue.Error string :=
  u ← map_err (Queue.NewError 400) (Parse baseURL);
  Ok (String (withPaths u query paths)).

(** A request: its method, its URL, its body, and its headers, which are
    canonical names added one by one. *)
Record Request := MkRequest { Method : string; r_URL : string; Body : string; Header : Values }.
Context (NewRequest : string → string → string → result string Request) (Canonical : string → string).

Definition addHeader (r : Request) (kv : string * string) : Request :=
  MkRequest (Method r) (r_URL r) (Body r) (Add (Header r) (Canonical kv.1, kv.2)).
Definition GetRequestFunc (method : string) (headers query : gmap string string) (payload baseUrl : string)
    (paths : list string) : result Queue.Error Request :=
  u ← GetURL baseUrl query paths;
  req ← map_err (λ msg, Queue.NewError 500 ("failed to create HTTP request: " +:+ msg)) (NewRequest method u payload);
  Ok (foldl addHeader req (range headers)).
End Requests.

(** ** Escaping *)

Lemma unescape_chr c s : QueryUnescape (escapeChr c +:+ s) = String c <$> QueryUnescape s.
Proof. by destruct c as [[] [] [] [] [] [] [] []]. Qed.

Lemma unescape_escape s : QueryUnescape (QueryEscape s) = Some s.
Proof. induction s as [|c s IH]; [done|]. cbn [QueryEscape]. by rewrite unescape_chr, IH. Qed.

Lemma escape_chars s : contains_chr "&" (QueryEscape s) = false ∧ contains_chr "=" (QueryEscape s) = false ∧
  contains_chr ";" (QueryEscape s) = false.
Proof.
  induction s as [|c s (IH1 & IH2 & IH3)]; [done|]. cbn [QueryEscape].
  rewrite !contains_chr_app, IH1, IH2, IH3. by destruct c as [[] [] [] [] [] [] [] []].
Qed.

Lemma cutEq_app k v : contains_chr "=" k = false → cutEq (k +:+ String "=" v) = (k, v).
Proof.
  induction k as [|c k IH]; simpl; [done|]. intros [Hc Hk]%orb_false_iff. apply bool_decide_eq_false in Hc.
  rewrite bool_decide_eq_false_2 by congruence. by rewrite IH.
Qed.

Lemma readPair_pair kv : readPair (pair kv) = Some kv.
Proof.
  destruct kv as [k v]. unfold readPair, pair. simpl. destruct (escape_chars k) as (_ & Hk & Hk').
  destruct (escape_chars v) as (_ & _ & Hv'). rewrite decide_False by by destruct (QueryEscape k).
  rewrite contains_chr_app. simpl. rewrite Hk', Hv'. simpl. rewrite cutEq_app by done. simpl.
  by rewrite !unescape_escape.
Qed.

Lemma pair_amp kv : contains_chr "&" (pair kv) = false.
Proof.
  unfold pair. rewrite contains_chr_app. simpl. by rewrite (proj1 (escape_chars kv.1)), (proj1 (escape_chars kv.2)).
Qed.

(** ** Values *)

(** The values of a key in a list of pairs. *)
Definition valuesOf (k : string) (l : list (string * string)) : list string :=
  omap (λ kv, if decide (kv.1 = k) then Some kv.2 else None) l.

Lemma Add_lookup k l : ∀ v : Values,
  foldl Add v l !! k = match valuesOf k l with [] => v !! k | vs => Some (default [] (v !! k) ++ vs) end.
Proof.
  induction l as [|[k' x] l IH]; intros v; [done|]. simpl. rewrite IH. unfold Add. simpl. unfold valuesOf. csimpl.
  destruct (decide (k' = k)) as [->|Hne].
  - rewrite lookup_insert_eq. fold (valuesOf k l). destruct (valuesOf k l); simpl; [done|]. by rewrite <-app_assoc.
  - by rewrite lookup_insert_ne.
Qed.

Lemma valuesOf_app k l1 l2 : valuesOf k (l1 ++ l2) = valuesOf k l1 ++ valuesOf k l2.
Proof. apply omap_app. Qed.

Lemma valuesOf_same k (xs : list string) : valuesOf k ((λ x, (k, x)) <$> xs) = xs.
Proof. unfold valuesOf. induction xs as [|x xs IH]; [done|]. csimpl. by rewrite decide_True, IH. Qed.

Lemma valuesOf_other k k' (xs : list string) : k' ≠ k → valuesOf k ((λ x, (k', x)) <$> xs) = [].
Proof. intros Hne. unfold valuesOf. induction xs as [|x xs IH]; [done|]. csimpl. by rewrite decide_False. Qed.

Lemma valuesOf_pairs (v : Values) k : valuesOf k (pairs v) = default [] (v !! k).
Proof.
  unfold pairs. assert (∀ ks, NoDup ks →
    valuesOf k (concat ((λ k, (λ x, (k, x)) <$> default [] (v !! k)) <$> ks)) = if decide (k ∈ ks) then default [] (v !! k) else [])
    as Hg.
  { induction ks as [|k' ks IH]; intros Hnd; [done|]. apply NoDup_cons in Hnd as [Hk' Hnd]. csimpl.
    rewrite valuesOf_app, IH by done. destruct (decide (k' = k)) as [->|Hne].
    - rewrite valuesOf_same. rewrite decide_False by done. rewrite decide_True by left. apply app_nil_r.
    - rewrite valuesOf_other by done. simpl. case_decide; case_decide; set_solver. }
  rewrite Hg by apply sorted_keys_NoDup. case_decide as Hk; [done|]. rewrite elem_of_sorted_keys in Hk.
  by rewrite (eq_None_not_Some (v !! k) Hk) || (apply eq_None_not_Some in Hk; by rewrite Hk).
Qed.

(** Values of which every key has at least one. *)
Definition full (v : Values) : Prop := ∀ k, v !! k ≠ Some [].

Lemma ParseQuery_full s : full (ParseQuery s).
Proof.
  intros k. unfold ParseQuery. rewrite Add_lookup, lookup_empty. by destruct (valuesOf k _).
Qed.

Lemma omap_readPair (l : list (string * string)) : omap readPair (pair <$> l) = l.
Proof. induction l as [|kv l IH]; [done|]. csimpl. by rewrite readPair_pair, IH. Qed.

Lemma ParseQuery_Encode v : full v → ParseQuery (Encode v) = v.
Proof.
  intros Hv. unfold ParseQuery, Encode.
  assert (omap readPair (split "&" (join "&" (pair <$> pairs v))) = pairs v) as ->.
  { destruct (pairs v) as [|kv l] eqn:E; [done|]. rewrite <-E. rewrite (split_join "&"); [apply omap_readPair|by rewrite E|].
    apply Forall_fmap, Forall_forall. intros p _. apply pair_amp. }
  apply map_eq. intros k. rewrite Add_lookup, lookup_empty, valuesOf_pairs.
  specialize (Hv k). destruct (v !! k) as [[|x xs]|]; done.
Qed.

Lemma Set_lookup k l : ∀ v : Values, NoDup l.*1 →
  foldl Set_ v l !! k = match list_to_map (M := gmap string string) l !! k with Some x => Some [x] | None => v !! k end.
Proof.
  induction l as [|[k' x] l IH]; intros v; [done|]. csimpl. intros [Hk' Hnd]%NoDup_cons. rewrite IH by done. unfold Set_. simpl.
  destruct (decide (k' = k)) as [->|Hne].
  - rewrite lookup_insert_eq, not_elem_of_list_to_map_1 by done. by rewrite lookup_insert_eq.
  - by rewrite !lookup_insert_ne.
Qed.

(** ** Paths *)

Definition plain (seg : string) : Prop := seg ≠ "" ∧ seg ≠ "." ∧ seg ≠ ".." ∧ contains_chr "/" seg = false.

Lemma split_app_sep a b : split "/" (a +:+ String "/" b) = split "/" a ++ split "/" b.
Proof.
  induction a as [|c a IH]; simpl; [done|]. rewrite IH. case_bool_decide; [done|].
  destruct (split "/" a) eqn:E; [by apply split_ne_nil in E|done].
Qed.

Lemma clean_plain rooted segs : Forall plain segs → ∀ out, foldl (cleanElem rooted) out segs = reverse segs ++ out.
Proof.
  induction 1 as [|seg segs (H1 & H2 & H3 & _) _ IH]; intros out; [done|]. simpl. rewrite IH, reverse_cons, <-app_assoc.
  f_equal. unfold cleanElem. rewrite decide_False by naive_solver. by rewrite decide_False.
Qed.

Lemma Join_segments base segs : base ≠ "" → Forall plain segs →
  Join (base :: segs) = render (isRooted base) (elements base ++ segs).
Proof.
  intros Hb Hsegs. cbn [Join]. rewrite decide_False by done. destruct segs as [|seg segs].
  { cbn [join]. unfold Clean. by rewrite decide_False, app_nil_r. }
  assert (join "/" (base :: seg :: segs) = base +:+ String "/" (join "/" (seg :: segs))) as -> by done.
  unfold Clean. rewrite decide_False by by destruct base.
  assert (isRooted (base +:+ String "/" (join "/" (seg :: segs))) = isRooted base) as Hr.
  { destruct base as [|c base]; [done|]. unfold isRooted, has_prefix. cbn [cut_prefix String.append].
    by destruct (bool_decide ("/"%char = c)). }
  rewrite Hr. f_equal. unfold elements. rewrite Hr, split_app_sep, foldl_app.
  rewrite (split_join "/"), clean_plain, reverse_app, reverse_involutive; [done|done|done|].
  eapply Forall_impl; [exact Hsegs|]. by intros x (_ & _ & _ & ?).
Qed.

Section Spec.
Context `{RangeOrder} {U : Type} (Parse : string → result string (URL U)) (String : URL U → string).

(** The URL of a request.  For a base URL that can be read and segments that
    are plain names, the URL built has the scheme, user, host and fragment of
    the base, the elements of its path followed by the segments, and a query
    that reads back as the parameters given, each with its one value, over the
    parameters of the base; without parameters the query is kept as it is. *)
Theorem get_url_spec baseURL query segs u :
  Parse baseURL = Ok u → u_Path u ≠ "" → Forall plain segs →
  ∃ u', GetURL Parse String baseURL query segs = Ok (String u') ∧ u_rest u' = u_rest u ∧
    u_Path u' = render (isRooted (u_Path u)) (elements (u_Path u) ++ segs) ∧
    (query = ∅ → RawQuery u' = RawQuery u) ∧
    ∀ k, ParseQuery (RawQuery u') !! k =
           match query !! k with Some v => Some [v] | None => ParseQuery (RawQuery u) !! k end.
Proof.
  intros Hp Hpath Hsegs. unfold GetURL. rewrite Hp. simpl. eexists. split; [done|]. unfold withPaths. cbn [u_rest u_Path RawQuery].
  split; [done|]. split; [by apply Join_segments|]. split; [intros ->; by rewrite decide_True|]. intros k. case_decide as Hq.
  - subst query. by rewrite lookup_empty.
  - assert (∀ k, foldl Set_ (ParseQuery (RawQuery u)) (range query) !! k =
                 match query !! k with Some v => Some [v] | None => ParseQuery (RawQuery u) !! k end) as Hset.
    { intros k'. rewrite Set_lookup by apply range_NoDup.
      assert (list_to_map (M := gmap string string) (range query) = query) as ->; [|done].
      rewrite <-(list_to_map_to_list query) at 2. apply list_to_map_proper; [apply range_NoDup|apply range_perm]. }
    rewrite ParseQuery_Encode, Hset; [done|]. intros k'. rewrite Hset. destruct (query !! k'); [done|apply ParseQuery_full].
Qed.
End Spec.

Definition w_parse (s : string) : result string (URL string) := Ok (MkURL "http://host" s "a=1&b=2").
Definition w_show (u : URL string) : string := u_rest u +:+ u_Path u +:+ "?" +:+ RawQuery u.

Lemma get_url_spec_witness : ∃ u,
  GetURL w_parse w_show "/api/" {[ "b" := "x y&z" ]} ["v1"; "topology"] = Ok (w_show u) ∧
  u_Path u = "/api/v1/topology" ∧ ParseQuery (RawQuery u) !! "b" = Some ["x y&z"] ∧ ParseQuery (RawQuery u) !! "a" = Some ["1"].
Proof.
  destruct (get_url_spec w_parse w_show "/api/" {[ "b" := "x y&z" ]} ["v1"; "topology"] (MkURL "http://host" "/api/" "a=1&b=2"))
    as (u & Hu & _ & Hpath & _ & Hquery).
  - reflexivity.
  - discriminate.
  - repeat constructor; discriminate.
  - exists u. split; [exact Hu|]. split; [rewrite Hpath; reflexivity|]. split; rewrite Hquery; reflexivity.
Defined.
End HttpReq.
