(* ===== verification/Server.v ===== *)
(** * The server: [pkg/server/engine.go], [http_server.go],
    [internal/httpreq/httpreq.go]

    HTTP handlers over the request queue, the pipeline that turns a request
    into output, and the retry policy.  Providers and engines are values of
    the two interfaces; time is the list of waits. *)

From S2P Require Import Prelude GoStrings Lru Queue Topology Request.
Open Scope Z_scope.

Module Server.
Import Queue Requests.

(** ** Retries: [httpreq.go] *)

Definition maxRetries : nat := 5.
(** Durations in milliseconds. *)
Definition httpBackOff : Z := 500.
Definition maxRetryAfter : Z := 5 * 60 * 1000.

Definition ShouldRetry (status : Z) : bool :=
  (status =? 408) || (status =? 429) || (status =? 500) || (status =? 502) || (status =? 503) ||
  (status =? 504).

(** [value]: the Retry-After header, [None] without a response; [untilDate]:
    the time left until the HTTP date it holds, if it holds one. *)
Definition ParseRetryAfter (untilDate : string → option Z) (value : option string) : option Z :=
  match value with
  | None => None
  | Some v =>
      if decide (v = "") then None
      else
        let date :=
          match untilDate v with
          | Some delay => if 0 <? delay then Some (Z.min delay maxRetryAfter) else None
          | None => None
          end in
        match Atoi v with
        | Ok seconds =>
            if 0 <=? seconds then
              if maxRetryAfter / 1000 <? seconds then Some maxRetryAfter else Some (seconds * 1000)
            else date
        | Err _ => date
        end
  end.

Definition GetNextBackoff (untilDate : string → option Z) (value : option string)
    (initialBackoff attempt : Z) : Z :=
  match ParseRetryAfter untilDate value with
  | Some wait => wait
  | None => initialBackoff * 2 ^ attempt
  end.

(** One call of [DoRequest]: the body, the error, the Retry-After header of
    the response, and whether the request's context is done after it. *)
Record attempt_result := MkAttempt {
  a_body : option string;
  a_err : option Error;
  a_retryAfter : option string;
  a_cancelled : bool
}.

(** [attempts k] is the outcome of attempt [k], from 1; [waits k]: the timer of
    the wait after it fires before the context is done. Returns the body and
    error, the number of attempts and the waits. *)
Fixpoint retryLoop (fuel : nat) (untilDate : string → option Z) (attempts : nat → attempt_result)
    (waits : nat → bool) (attempt : nat) (slept : list Z) :
    option (option string * option Error * nat * list Z) :=
  match fuel with
  | O => None
  | S fuel =>
      let attempt := S attempt in
      let a := attempts attempt in
      let return_ := Some (a_body a, a_err a, attempt, slept) in
      if a_cancelled a then return_
      else match a_err a with
           | None => return_
           | Some e =>
               if (attempt =? maxRetries)%nat || negb (ShouldRetry (Code e)) then return_
               else
                 let wait := GetNextBackoff untilDate (a_retryAfter a) httpBackOff (Z.of_nat attempt - 1) in
                 if waits attempt then retryLoop fuel untilDate attempts waits attempt (slept ++ [wait])
                 else Some (a_body a, a_err a, attempt, slept ++ [wait])
           end
  end.
Definition DoRequestWithRetries (untilDate : string → option Z) (attempts : nat → attempt_result)
    (waits : nat → bool) :=
  retryLoop maxRetries untilDate attempts waits 0 [].

(** ** Processing: [engine.go] *)

Definition defaultBackOff : Z := 2000.

Definition code_of {A} (r : result Error A) : Z :=
  match r with Ok _ => 200 | Err e => Code e end.

(** [f k] is the outcome of the [k]-th call; returns the result, the number of
    calls and the waits. *)
Fixpoint processLoop {A} (fuel : nat) (f : nat → result Error A) (attempt : nat) (slept : list Z) :
    option (result Error A * nat * list Z) :=
  match fuel with
  | O => None
  | S fuel =>
      let attempt := S attempt in
      let r := f attempt in
      if negb (ShouldRetry (code_of r)) || (attempt =? maxRetries)%nat then Some (r, attempt, slept)
      else processLoop fuel f attempt (slept ++ [GetNextBackoff (λ _, None) None defaultBackOff (Z.of_nat attempt - 1)])
  end.
Definition processRequestWithRetries {A} (f : nat → result Error A) :=
  processLoop maxRetries f 0 [].

Section Pipeline.
Context {any graph : Type}.
Abbreviation params := (option (gmap string any)).

(** The interfaces [Provider] and [Engine]; [GetComputeInstances] is [None]
    for a provider that does not implement [computeInstancesProvider]. *)
Record provider := MkProv {
  GetComputeInstances : option (result Error (list ComputeInstances));
  GenerateTopologyConfig : option Z → list ComputeInstances → result Error graph
}.
Record engine := MkEng {
  ResolveComputeInstances : list ComputeInstances → provider → result Error (list ComputeInstances);
  GenerateOutput : graph → params → result Error string
}.

(** [component.Registry]: names to loaders; a later loader replaces an
    earlier one of the same name. *)
Definition Registry (T C : Type) : Type := gmap string (C → result Error T).
Definition NewRegistry {T C} (namedLoaders : list (string * (C → result Error T))) : Registry T C :=
  foldl (λ r '(name, loader), <[name := loader]> r) ∅ namedLoaders.

Record providerConfig := MkPC { pc_Creds : params; pc_Params : params }.

(** The parts of [config.Config] the server reads. *)
Record serverConfig := MkServerConfig {
  cfg_Provider : string;
  ProviderParams : params;
  cfg_Engine : string;
  EngineParams : params;
  PageSize : option Z;
  Credentials : params
}.

Context (Engines : Registry engine params) (Providers : Registry provider providerConfig).

Definition unsupported (kind name : string) : Error :=
  NewError 400 ("unsupported " +:+ kind +:+ " " +:+ name).

Definition checkCredentials (payloadCreds cfgCreds : params) : params :=
  if decide (default ∅ payloadCreds = ∅) then cfgCreds else payloadCreds.

Definition resolveComputeInstances (eng : engine) (prv : provider) (requested : list ComputeInstances) :
    result Error (list ComputeInstances) :=
  if decide (requested = []) then
    match GetComputeInstances prv with
    | Some r =>
        instances ← r;
        if decide (instances = []) then Ok instances else ResolveComputeInstances eng instances prv
    | None => ResolveComputeInstances eng [] prv
    end
  else ResolveComputeInstances eng requested prv.

(** The message of an unknown name quotes it. *)
Definition processTopologyRequest (cfg : serverConfig) (tr : Request any) : result Error string :=
  match Engines !! en_Name (r_Engine tr) with
  | None => Err (unsupported "engine" (en_Name (r_Engine tr)))
  | Some engLoader =>
      match Providers !! pr_Name (r_Provider tr) with
      | None => Err (unsupported "provider" (pr_Name (r_Provider tr)))
      | Some prvLoader =>
          eng ← engLoader (en_Params (r_Engine tr));
          prv ← prvLoader (MkPC (checkCredentials (Creds (r_Provider tr)) (Credentials cfg))
                             (pr_Params (r_Provider tr)));
          computeInstances ← resolveComputeInstances eng prv (r_Nodes tr);
          g ← GenerateTopologyConfig prv (PageSize cfg) computeInstances;
          GenerateOutput eng g (en_Params (r_Engine tr))
      end
  end.

(** ** Handlers: [http_server.go] *)

Record httpRequest := MkHttp {
  Method : string;
  Body : option string;                (* [None]: the body cannot be read *)
  query_uid : string
}.
Record response := MkResponse { rs_Status : Z; rs_Body : string }.

(** [http.Error] ends the message with a line break. *)
Definition httpError (msg : string) (code : Z) : response := MkResponse code (msg +:+ newline).

Context (Marshal : Request any → option string) (Unmarshal : string → result string (Request any)).

(** [if _, exists := params[k]; !exists { params[k] = v }] for every entry of
    the configuration. *)
Definition mergeParams `{RangeOrder} (ps : params) (cfg : params) : params :=
  foldl (λ ps kv,
    let m := default ∅ ps in
    match m !! kv.1 with
    | Some _ => Some m
    | None => Some (<[kv.1 := kv.2]> m)
    end) ps (range (default ∅ cfg)).

Definition validate (tr : Request any) : option string :=
  if decide (is_Some (Providers !! pr_Name (r_Provider tr))) then
    if decide (is_Some (Engines !! en_Name (r_Engine tr))) then None
    else if decide (en_Name (r_Engine tr) = "") then Some "no engine given for topology request"
    else Some ("unsupported engine " +:+ en_Name (r_Engine tr))
  else if decide (pr_Name (r_Provider tr) = "") then Some "no provider given for topology request"
  else Some ("unsupported provider " +:+ pr_Name (r_Provider tr)).

Definition withDefaults `{RangeOrder} (cfg : serverConfig) (tr : Request any) : Request any :=
  let prv := r_Provider tr in
  let eng := r_Engine tr in
  MkRequest
    (MkProvider (if decide (pr_Name prv = "") then cfg_Provider cfg else pr_Name prv) (Creds prv)
       (mergeParams (pr_Params prv) (ProviderParams cfg)))
    (MkEngine (if decide (en_Name eng = "") then cfg_Engine cfg else en_Name eng)
       (mergeParams (en_Params eng) (EngineParams cfg)))
    (r_Nodes tr).

Definition readRequest `{RangeOrder} (cfg : serverConfig) (r : httpRequest) : result response (Request any) :=
  if decide (Method r = "POST") then
    match Body r with
    | None => Err (httpError "Unable to read request body" 500)
    | Some body =>
        match GetTopologyRequest Unmarshal body with
        | Err e => Err (httpError e 400)
        | Ok tr =>
            let tr := withDefaults cfg tr in
            match validate tr with
            | Some msg => Err (httpError msg 400)
            | None => Ok tr
            end
        end
    end
  else Err (httpError "Invalid request method" 405).

(** [test.HandleTestProviderRequest]: the response of a short-circuited
    request. [testCode] decodes the code and message from the parameters
    ([config.Decode]). *)
Definition HandleTestProviderRequest (testCode : params → result string (Z * string)) (tr : Request any) :
    option response :=
  if decide (pr_Name (r_Provider tr) = "test") then
    match testCode (pr_Params (r_Provider tr)) with
    | Err e => Some (httpError ("error decoding params: " +:+ e) 400)
    | Ok (code, msg) =>
        if (400 <=? code) && (code <=? 599) then Some (httpError msg code)
        else if code =? 202 then None
        else Some (httpError "Unsupported response code." 400)
    end
  else None.

Context {T : Type} `{Store string nat T}.
Abbreviation jobQueue := (queue (item := Request any) (data := string) (T := T)).
Abbreviation hash := (Request_Hash Marshal).

Definition generate `{RangeOrder} (cfg : serverConfig) (testCode : params → result string (Z * string))
    (q : jobQueue) (r : httpRequest) : jobQueue * response :=
  match readRequest cfg r with
  | Err resp => (q, resp)
  | Ok tr =>
      match HandleTestProviderRequest testCode tr with
      | Some resp => (q, resp)
      | None =>
          match Submit hash q tr with
          | (q, None) => (q, httpError "failed to marshal request for hashing" 500)
          | (q, Some uid) => (q, MkResponse StatusAccepted uid)
          end
      end
  end.

(** A result with status 200 always carries its data ([Ret]). *)
Definition writeResultResponse (q : jobQueue) (uid : string) : jobQueue * response :=
  let '(q, res) := Get q uid in
  (q, if Status res =? StatusOK then
        match Ret res with
        | Some data => MkResponse StatusOK data
        | None => httpError ("request ID " +:+ uid +:+ " has an unexpected result type <nil>") 500
        end
      else if Status res =? StatusAccepted then MkResponse (Status res) (Message res)
      else httpError (Message res) (Status res)).

Definition getresult (q : jobQueue) (r : httpRequest) : jobQueue * response :=
  if decide (Method r = "GET") then
    if decide (query_uid r = "") then (q, httpError "must specify request uid" 400)
    else writeResultResponse q (query_uid r)
  else (q, httpError "invalid request method" 405).

Definition lookup_handler `{RangeOrder} (cfg : serverConfig) (q : jobQueue) (r : httpRequest) : jobQueue * response :=
  match readRequest cfg r with
  | Err resp => (q, resp)
  | Ok tr =>
      match hash tr with
      | None => (q, httpError "failed to marshal request for hashing" 400)
      | Some uid => writeResultResponse q uid
      end
  end.

Definition healthz : response := MkResponse 200 ("OK" +:+ newline).
End Pipeline.

(** ** Retries end *)

(** The waits after the first [n] attempts without a Retry-After header. *)
Definition backoffs (initial : Z) (n : nat) : list Z := (λ i, initial * 2 ^ Z.of_nat i) <$> seq 0 n.

Lemma backoffs_S initial n : backoffs initial (S n) = backoffs initial n ++ [initial * 2 ^ Z.of_nat n].
Proof. unfold backoffs. by rewrite seq_S, fmap_app. Qed.

Lemma processLoop_spec {A} (f : nat → result Error A) fuel attempt :
  (attempt + fuel = maxRetries)%nat → (0 < fuel)%nat →
  (∀ k, (1 ≤ k ≤ attempt)%nat → ShouldRetry (code_of (f k)) = true) →
  ∃ n, processLoop fuel f attempt (backoffs defaultBackOff attempt) =
         Some (f n, n, backoffs defaultBackOff (n - 1)) ∧
    (1 ≤ n ≤ maxRetries)%nat ∧ (∀ k, (1 ≤ k < n)%nat → ShouldRetry (code_of (f k)) = true) ∧
    (n = maxRetries ∨ ShouldRetry (code_of (f n)) = false).
Proof.
  revert attempt. induction fuel as [|fuel IH]; intros attempt Hsum Hpos Hprev; [lia|]. cbn [processLoop].
  destruct (ShouldRetry (code_of (f (S attempt)))) eqn:Hr; cbn [negb orb].
  - destruct (Nat.eqb_spec (S attempt) maxRetries) as [Heq|Hne].
    + exists (S attempt). rewrite Nat.sub_succ, Nat.sub_0_r. split_and!; [done|lia|lia| |by left].
      intros k Hk. apply Hprev. lia.
    + unfold GetNextBackoff, ParseRetryAfter.
      replace (Z.of_nat (S attempt) - 1) with (Z.of_nat attempt) by lia.
      rewrite <-backoffs_S. apply IH; [lia| |].
      * unfold maxRetries in *. lia.
      * intros k Hk. destruct (decide (k = S attempt)) as [->|]; [done|]. apply Hprev. lia.
  - exists (S attempt). rewrite Nat.sub_succ, Nat.sub_0_r.
    split_and!; [done|lia|unfold maxRetries in *; lia| |by right]. intros k Hk. apply Hprev. lia.
Qed.

(** A request is processed at least once and at most five times; every
    call but the last ended with a retryable status, the last did not or was
    the fifth, its result is the one returned, and the waits between the calls
    are 2 s, 4 s, 8 s, …. *)
Theorem process_retries_spec {A} (f : nat → result Error A) :
  ∃ n, processRequestWithRetries f = Some (f n, n, backoffs defaultBackOff (n - 1)) ∧
    (1 ≤ n ≤ maxRetries)%nat ∧ (∀ k, (1 ≤ k < n)%nat → ShouldRetry (code_of (f k)) = true) ∧
    (n = maxRetries ∨ ShouldRetry (code_of (f n)) = false).
Proof. apply (processLoop_spec f maxRetries 0); [done|unfold maxRetries; lia|lia]. Qed.

Lemma ParseRetryAfter_bound untilDate value wait :
  ParseRetryAfter untilDate value = Some wait → 0 ≤ wait ≤ maxRetryAfter.
Proof.
  assert (0 < maxRetryAfter) by done. assert (maxRetryAfter = maxRetryAfter / 1000 * 1000) as Hmul by done.
  unfold ParseRetryAfter. destruct value as [v|]; [|done]. case_decide; [done|].
  assert (∀ w, (match untilDate v with
    | Some delay => if 0 <? delay then Some (Z.min delay maxRetryAfter) else None
    | None => None end) = Some w → 0 ≤ w ≤ maxRetryAfter) as Hdate.
  { intros w. destruct (untilDate v) as [d|]; [|done]. destruct (Z.ltb_spec 0 d); [|done].
    intros [= <-]. lia. }
  cbv zeta. destruct (Atoi v) as [sec|]; [|apply Hdate]. destruct (Z.leb_spec 0 sec); [|apply Hdate].
  destruct (Z.ltb_spec (maxRetryAfter / 1000) sec); intros [= <-]; lia.
Qed.

Lemma GetNextBackoff_bound untilDate value k :
  (k < 5)%nat → 0 ≤ GetNextBackoff untilDate value httpBackOff (Z.of_nat k) ≤ maxRetryAfter.
Proof.
  intros Hk. unfold GetNextBackoff.
  destruct (ParseRetryAfter untilDate value) as [w|] eqn:Hw; [by eapply ParseRetryAfter_bound|].
  assert (2 ^ Z.of_nat k ≤ 2 ^ 4) by (apply Z.pow_le_mono_r; lia).
  assert (0 < 2 ^ Z.of_nat k) by (apply Z.pow_pos_nonneg; lia). unfold httpBackOff, maxRetryAfter. lia.
Qed.

Lemma retryLoop_spec untilDate attempts waits fuel attempt slept :
  (attempt + fuel = maxRetries)%nat → (0 < fuel)%nat →
  length slept = attempt → Forall (λ w, 0 ≤ w ≤ maxRetryAfter) slept →
  ∃ n slept', retryLoop fuel untilDate attempts waits attempt slept =
      Some (a_body (attempts n), a_err (attempts n), n, slept') ∧
    (1 ≤ n ≤ maxRetries)%nat ∧ (length slept' ≤ n)%nat ∧
    Forall (λ w, 0 ≤ w ≤ maxRetryAfter) slept' ∧
    (a_cancelled (attempts n) = true ∨ n = maxRetries ∨ waits n = false ∨
     from_option (λ e, ShouldRetry (Code e) = false) True (a_err (attempts n))).
Proof.
  revert attempt slept. induction fuel as [|fuel IH]; intros attempt slept Hsum Hpos Hlen Hall; [lia|].
  cbn [retryLoop]. unfold maxRetries in Hsum.
  destruct (a_cancelled (attempts (S attempt))) eqn:Hc.
  { exists (S attempt), slept. split_and!; [done|lia|unfold maxRetries; lia|lia|done|by left]. }
  destruct (a_err (attempts (S attempt))) as [e|] eqn:He.
  2:{ exists (S attempt), slept. rewrite He. split_and!; [done|lia|unfold maxRetries; lia|lia|done|by do 3 right]. }
  destruct (Nat.eqb_spec (S attempt) maxRetries) as [Heq|Hne]; cbn [negb orb].
  { exists (S attempt), slept. rewrite He. split_and!; [done|lia|lia|lia|done|by right; left]. }
  destruct (ShouldRetry (Code e)) eqn:Hr; cbn [negb orb].
  2:{ exists (S attempt), slept. rewrite He.
      split_and!; [done|lia|unfold maxRetries; lia|lia|done|by do 3 right]. }
  replace (Z.of_nat (S attempt) - 1) with (Z.of_nat attempt) by lia.
  set (w := GetNextBackoff _ _ _ _).
  assert (Forall (λ w, 0 ≤ w ≤ maxRetryAfter) (slept ++ [w])) as Hall'.
  { apply Forall_app. split; [done|]. constructor; [|constructor]. apply GetNextBackoff_bound.
    unfold maxRetries in Hne. lia. }
  destruct (waits (S attempt)) eqn:Hw.
  - apply IH; [unfold maxRetries; lia|unfold maxRetries in Hne; lia| |done].
    rewrite length_app. simpl. lia.
  - exists (S attempt), (slept ++ [w]). rewrite He, length_app. simpl.
    split_and!; [done|lia|unfold maxRetries; lia|lia|done|by right; right; left].
Qed.

(** C33: [DoRequestWithRetries] always returns, after at most five attempts; it
    returns the body and error of the last attempt, stops only when that
    attempt succeeded, is not retryable, was the fifth or was cancelled, and
    never waits longer than five minutes between attempts, whatever the
    server asks for.  Each attempt is taken to return. *)
Theorem http_retries_bounded untilDate attempts waits :
  ∃ n slept, DoRequestWithRetries untilDate attempts waits =
      Some (a_body (attempts n), a_err (attempts n), n, slept) ∧
    (1 ≤ n ≤ maxRetries)%nat ∧ (length slept ≤ n)%nat ∧
    Forall (λ w, 0 ≤ w ≤ maxRetryAfter) slept ∧
    (a_cancelled (attempts n) = true ∨ n = maxRetries ∨ waits n = false ∨
     from_option (λ e, ShouldRetry (Code e) = false) True (a_err (attempts n))).
Proof. apply retryLoop_spec; [done|unfold maxRetries; lia|done|constructor]. Qed.

(** ** Handlers *)

Section Handlers.
Context {any graph : Type} `{RangeOrder}.
Context (Engines : Registry (@engine any graph) (option (gmap string any))).
Context (Providers : Registry (@provider graph) (@providerConfig any)).
Context (Unmarshal : string → result string (Request any)).

Lemma mergeParams_lookup (ps cfg : option (gmap string any)) k :
  default ∅ (mergeParams ps cfg) !! k =
    match default ∅ ps !! k with Some v => Some v | None => default ∅ cfg !! k end.
Proof.
  unfold mergeParams.
  assert (∀ l, NoDup l.*1 →
    default ∅ (foldl (λ ps kv, match default ∅ ps !! kv.1 with
        | Some _ => Some (default ∅ ps) | None => Some (<[kv.1 := kv.2]> (default ∅ ps)) end) ps l) !! k =
    match default ∅ ps !! k with Some v => Some v | None => (list_to_map l : gmap string any) !! k end) as Hl.
  { intros l. revert ps. induction l as [|[k' v'] l IH]; intros ps Hnd; cbn [foldl].
    { rewrite list_to_map_nil, lookup_empty. by destruct (default ∅ ps !! k). }
    csimpl in Hnd. apply NoDup_cons in Hnd as [Hk' Hnd]. rewrite IH by done. cbn [fst snd].
    rewrite list_to_map_cons.
    destruct (default ∅ ps !! k') as [x|] eqn:Hx.
    - cbn [from_option]. change (id (default ∅ ps)) with (default ∅ ps).
      destruct (decide (k = k')) as [->|Hne]; [by rewrite Hx|]. by rewrite lookup_insert_ne by done.
    - simpl. destruct (decide (k = k')) as [->|Hne].
      + by rewrite !lookup_insert_eq, Hx.
      + by rewrite !lookup_insert_ne by done. }
  rewrite Hl by apply range_NoDup. destruct (default ∅ ps !! k); [done|].
  rewrite (list_to_map_proper (range (default ∅ cfg)) (map_to_list (default ∅ cfg))).
  - by rewrite list_to_map_to_list.
  - apply range_NoDup.
  - apply range_perm.
Qed.

(** A request that [readRequest] accepts was sent with POST, names a
    registered provider and a registered engine (the configured ones when the
    payload names none), and each of its parameters is the payload's, or the
    configured one when the payload does not set it. *)
Theorem read_request_spec cfg r tr :
  readRequest Engines Providers Unmarshal cfg r = Ok tr →
  Method r = "POST" ∧
  is_Some (Providers !! pr_Name (r_Provider tr)) ∧ is_Some (Engines !! en_Name (r_Engine tr)) ∧
  ∃ body p, Body r = Some body ∧ GetTopologyRequest Unmarshal body = Ok p ∧ r_Nodes tr = r_Nodes p ∧
    Creds (r_Provider tr) = Creds (r_Provider p) ∧
    (pr_Name (r_Provider tr) = if decide (pr_Name (r_Provider p) = "") then cfg_Provider cfg else pr_Name (r_Provider p)) ∧
    (en_Name (r_Engine tr) = if decide (en_Name (r_Engine p) = "") then cfg_Engine cfg else en_Name (r_Engine p)) ∧
    ∀ k, default ∅ (pr_Params (r_Provider tr)) !! k =
           match default ∅ (pr_Params (r_Provider p)) !! k with
           | Some v => Some v | None => default ∅ (ProviderParams cfg) !! k end ∧
         default ∅ (en_Params (r_Engine tr)) !! k =
           match default ∅ (en_Params (r_Engine p)) !! k with
           | Some v => Some v | None => default ∅ (EngineParams cfg) !! k end.
Proof.
  unfold readRequest. destruct (decide (Method r = "POST")) as [HP|]; [|done].
  destruct (Body r) as [body|]; [|done].
  destruct (GetTopologyRequest Unmarshal body) as [p|] eqn:Hp; [|done].
  destruct (validate Engines Providers (withDefaults cfg p)) as [|] eqn:Hv; [done|].
  intros Heq. injection Heq as Heq. subst tr. unfold validate in Hv.
  destruct (decide (is_Some (Providers !! _))) as [H1|]; [|by case_decide].
  destruct (decide (is_Some (Engines !! _))) as [H2|]; [|by case_decide].
  split_and!; [done|done|done|]. exists body, p. split_and!; try done.
  intros k. split; apply mergeParams_lookup.
Qed.

Context (Marshal : Request any → option string) {T : Type} `{Store string nat T}.

Lemma Submit_Get (q q' : queue (item := Request any) (data := string) (T := T)) tr uid :
  st_inv (store q) → Submit (Request_Hash Marshal) q tr = (q', Some uid) → (Get q' uid).2 = created uid.
Proof.
  intros Hst. unfold Submit. destruct (Request_Hash Marshal tr) as [h|]; [|done]. intros [= <- <-].
  unfold Get. simpl. rewrite st_get_val by (by apply st_add_inv). rewrite st_add_view by done.
  cbn [mbind option_bind]. by rewrite lookup_insert_eq.
Qed.

(** C34: When [generate] accepts a request, the body of the response is the
    request's ID, and a client that asks for that ID at once is told that the
    request has been created.  The ID that the generator of IDs made is not
    empty. *)
Theorem generate_then_poll cfg testCode q q' r uid r' :
  st_inv (store q) →
  generate Engines Providers Marshal Unmarshal cfg testCode q r = (q', MkResponse StatusAccepted uid) →
  Method r' = "GET" → query_uid r' = uid → uid ≠ "" →
  (getresult (any := any) q' r').2 =
    MkResponse StatusAccepted ("request ID " +:+ uid +:+ " has been created").
Proof.
  intros Hst Hgen Hm Hu Hne. unfold generate in Hgen.
  destruct (readRequest _ _ _ _ _) as [tr|resp] eqn:Hread.
  - destruct (HandleTestProviderRequest testCode tr) as [resp|] eqn:Ht.
    + exfalso. injection Hgen as _ Hr. unfold HandleTestProviderRequest in Ht. case_decide; [|done].
      destruct (testCode _) as [[code msg]|].
      * destruct (_ && _) eqn:Hcode; [|by destruct (code =? 202); simplify_eq].
        injection Ht as Ht. rewrite Hr in Ht. injection Ht as Hcd _.
        apply andb_true_iff in Hcode as [Hge _]. unfold StatusAccepted in Hcd. lia.
      * injection Ht as Ht. rewrite Hr in Ht. by injection Ht.
    + destruct (Submit (Request_Hash Marshal) q tr) as [q1 [h|]] eqn:Hs; [|by simplify_eq].
      injection Hgen as <- <-. pose proof (Submit_Get _ _ _ _ Hst Hs) as Hget.
      unfold getresult. rewrite decide_True by done. rewrite decide_False by congruence. rewrite Hu.
      unfold writeResultResponse. destruct (Get q1 h) as [q2 c]. simpl in Hget. subst c. done.
  - exfalso. injection Hgen as _ Hr. unfold readRequest in Hread. repeat case_match; simplify_eq.
Qed.
End Handlers.

(** ** Witnesses *)

Definition w_engines : Registry (@engine string unit) (option (gmap string string)) :=
  NewRegistry [("slurm", λ _, Ok (MkEng (λ cis _, Ok cis) (λ _ _, Ok "out")))].
Definition w_providers : Registry (@provider unit) (@providerConfig string) :=
  NewRegistry [("aws", λ _, Ok (MkProv None (λ _ _, Ok tt)))].
Definition w_unmarshal (s : string) : result string (Request string) :=
  Ok (MkRequest (MkProvider "" None (Some {["k" := s]})) (MkEngine "slurm" None) []).
Definition w_cfg : @serverConfig string :=
  MkServerConfig "aws" (Some {["k" := "default"; "region" := "r1"]}) "" None None None.
Definition w_post : httpRequest := MkHttp "POST" (Some "payload") "".
Definition w_tr : Request string := withDefaults w_cfg
  (match w_unmarshal "payload" with Ok p => p | Err _ => NewRequest (MkProvider "" None None) (MkEngine "" None) end).
Definition w_marshal (r : Request string) : option string := Some (pr_Name (r_Provider r)).

Lemma read_request_spec_witness :
  pr_Name (r_Provider w_tr) = "aws" ∧ default ∅ (pr_Params (r_Provider w_tr)) !! "k" = Some "payload" ∧
  default ∅ (pr_Params (r_Provider w_tr)) !! "region" = Some "r1" ∧
  is_Some (w_providers !! pr_Name (r_Provider w_tr)).
Proof.
  destruct (read_request_spec w_engines w_providers w_unmarshal w_cfg w_post w_tr) as (_ & Hp & _).
  - vm_compute. reflexivity.
  - split; [vm_compute; reflexivity|]. split; [vm_compute; reflexivity|].
    split; [vm_compute; reflexivity|exact Hp].
Defined.

Definition w_queue : queue (item := Request string) (data := string) (T := Lru.lruCache string nat) :=
  newQueue (default (Lru.LruCache 1 ∅ [] 0%nat) (Lru.newLRUCache RequestHistorySize)).
Definition w_generated := generate w_engines w_providers w_marshal w_unmarshal w_cfg (λ _, Err "") w_queue w_post.

Lemma generate_then_poll_witness :
  (getresult (any := string) w_generated.1 (MkHttp "GET" None (rs_Body w_generated.2))).2 =
    MkResponse StatusAccepted ("request ID " +:+ rs_Body w_generated.2 +:+ " has been created").
Proof.
  apply (generate_then_poll w_engines w_providers w_unmarshal w_marshal w_cfg (λ _, Err "") w_queue
    w_generated.1 w_post (rs_Body w_generated.2) (MkHttp "GET" None (rs_Body w_generated.2))).
  - apply (Lru.new_inv RequestHistorySize). reflexivity.
  - vm_compute. reflexivity.
  - reflexivity.
  - reflexivity.
  - vm_compute. discriminate.
Defined.

End Server.
